(* ===== verification/_CoqProject ===== *)
-Q . S2P
Prelude.v
Error.v
RustStr.v
PathPolicy.v
ChunkStore.v
Bytes.v
ChunkStoreFacts.v
ChunkGc.v
ChunkRecovery.v
ContentStore.v
ChunkSpec.v
Tracker.v
TrackerSpec.v
Core.v
Layers.v
Namespace.v
Lifecycle.v
FileContent.v
FileResize.v
View.v
Isolation.v
NamespaceFacts.v
Demo.v
NamespaceSpec.v
LifecycleFacts.v
LayerGc.v
LifecycleSpec.v
CoreError.v
EditTxn.v
EditHandle.v
EditFs.v
EditJournal.v
EditTriple.v
EditJournalFacts.v
EditJournalSpec.v
EditLock.v
EditLockSpec.v
EditPlan.v
EditPlanFacts.v
EditPlanSpec.v
Loop.v
RustText.v
Fts.v
GraphStore.v
GraphBfs.v
GraphReach.v
GraphDb.v
GraphDbFacts.v
GraphTrace.v
GraphTreeFacts.v
GraphPath.v
GraphSearch.v
GraphCycles.v
GraphCluster.v
GraphRefs.v
GraphQueries.v
GraphDemo.v
GraphReachSpec.v
GraphTraceSpec.v
GraphPathSpec.v
GraphSearchSpec.v
GraphCyclesSpec.v
GraphDbSpec.v
GraphRefsSpec.v
GraphQueriesSpec.v
GraphOverlay.v
GraphOverlayFacts.v
GraphOverlayWrites.v
GraphOverlaySpec.v
Resolver.v
ResolverSpec.v
FreshStore.v
FreshText.v
Freshness.v
FreshWorld.v
FreshnessSpec.v
FreshCheck.v
FreshCheckSpec.v
Discover.v
DiscoverSpec.v
