(* ===== verification/Prelude.v ===== *)
(** * Copy-on-write workspaces, transactional edits, the code graph and its
      freshness in greppy

    This library models and verifies four parts of greppy.  The first is
    [src/crates/workspace-core]:
    private, copy-on-write views ("workspaces") of a git repository, which
    greppy mounts for agents.  A workspace sees the committed tree (a base
    layer), the uncommitted changes captured when it was created (a dirty
    layer) and, above both, its own overlay of files, directories, symlinks,
    hard links, tombstones and renames.  Contents are chunks of at most 1 MiB
    in a content-addressed store shared by all workspaces; rows live in SQLite
    tables; a separate table tracks which paths of a repository changed.  The
    second is [src/crates/edit]: edits of several files, computed in memory
    against hashed snapshots and published together through a journal of
    pre-images from which a stopped publication is recovered.  The third is the
    code graph: the tables of symbols and edges of [src/crates/store], and the
    queries of [src/crates/search] over them, with the resolution of names of
    [src/crates/resolver].  The fourth is what keeps that graph honest: the
    discovery of files ([src/crates/discover]) and the checks of
    [src/crates/freshness] that decide whether an index still describes them.

    ** How code is represented

    An operation is an [action E S A] (this file): it takes the store, and
    gives back a result and the store reached, so an error keeps the effects
    that happened before it.  A result is [Ok], [Err] or [Panic]; overflow,
    slice bounds and [unwrap] panic, so that their absence is part of the
    theorems.  Integers are [Z] with the range of their column or type written
    out ([I64_MAX], [as_i64], [2 ^ 64]).  Strings are byte strings.  A table is a [gmap]
    from its primary key; uniqueness, foreign keys and CHECK constraints are
    guards that fail with [Sql]; a transaction restores the tables when its
    body fails.  The digest [blake3] and the output of git processes are
    parameters; theorems that need distinct digests name the contents they need
    them for.

    The operations of the chunk store that write files ask a [Machine] at every
    disk step: it lets the step pass or ends the process there, with whatever
    it leaves of the bytes that were not synced; the tables are then as they
    were before the transaction.  The ordinary operations are the instances
    that are never stopped.  The name of a segment file that put creates is
    taken to survive; of the files that gc has not synced yet, names included,
    anything may be left, and removals that were not synced may be undone.

    The editor works on a disk ([EditFs]): every operation on it first asks a
    schedule, which lets it succeed, fail with an I/O error or stop the process
    there; writes that are not atomic then leave a torn file.  The theorems
    hold for every schedule they do not restrict by name.  Validators run in a
    copy of the workspace; what their processes do to the copy and to the disk
    is a parameter, and the theorems ask that they leave the workspace alone.
    Error values carry
    the constructor and a short text instead of the formatted message.

    The graph queries are functions over an interface of the store
    ([GraphStore]), which the tables of [GraphDb] discharge; they return
    [option (res E A)], where [None] says that a loop did not end within its
    bound, so that a theorem about a query first shows that it is never [None].
    The order in which a hash table is walked is a parameter of the queries
    that depend on it.

    Files that change under a check are a [World] ([FreshWorld]): what a path
    names, what an inode holds and when it last changed, at every time, on a
    clock with ticks.  A check gets its answers about files from an arbitrary
    [Watch]; the theorems ask of it that the answers were true at some time
    while the check ran.  A file that was skipped is kept aside as long as its
    recorded size and times are unchanged ([kept_aside]); nothing is claimed
    about the content of one that was skipped for its size.

    ** Files

    - [Error]: error.rs.
    - [RustStr]: the string operations the code uses (split, strip, LIKE
      matching, UTF-8 validation) and their lemmas.
    - [PathPolicy]: path_policy.rs and the validators of namespace.rs.
    - [ChunkStore]: chunk_store.rs.  State: the tables cow_segments and
      cow_chunks, the segment files, stray files in their directory, and the
      process's location cache.  [Bytes], [ChunkStoreFacts], [ChunkGc] and
      [ChunkRecovery] prove the invariant, the run of garbage collection and of
      opening after a crash; [ChunkSpec] states them against an abstract map
      from ids to contents and reference counts.
    - [ContentStore]: the interface that the namespace uses of the store, a
      class of operations and a class of laws about the abstract map, and the
      instance that the chunk store discharges.
    - [Tracker], [TrackerSpec]: repository_tracker.rs, and histories of calls
      by any number of processes.
    - [Core]: the tables of WorkspaceCore::open and the state of
      WorkspaceCore (tables, chunk store, promotion cache).
    - [Layers]: repository_layers.rs.
    - [Namespace]: the file system half of namespace.rs.
    - [Lifecycle]: the other half, workspaces, pairs, proposals, recovery and
      garbage collection, and the snapshot checks of snapshot.rs.
    - [FileContent], [FileResize]: what writing and truncating do to the chunk
      list of a file, against the plain byte string it stands for.
    - [View], [Isolation]: what one workspace can observe, and that no
      operation through another workspace's handle changes it.
    - [NamespaceFacts], [NamespaceSpec]: each file system operation against
      what a file system promises; [Demo] is a concrete state with two
      workspaces on which the theorems are instantiated.
    - [LifecycleFacts], [LayerGc], [LifecycleSpec]: recovery, removal and
      garbage collection of workspaces and layers.
    - [CoreError]: the error type of crates/core that the editor uses.
    - [EditTxn]: txn.rs, the application of planned operations
      to a snapshot and the check of what lies outside them.
    - [EditHandle]: handle.rs, tokens that bind a range of a
      file to its hashes.
    - [EditFs]: the disk, its directories and its faults; [EditTriple]: triples with a
      postcondition for success, error and a stopped process.
    - [EditJournal]: publish.rs and journal.rs; the phases of
      the protocol are in [EditJournalFacts], its promise in
      [EditJournalSpec].
    - [EditLock], [EditLockSpec]: the workspace lock of journal.rs as steps of
      any number of processes that interleave and die.
    - [EditPlan], [EditPlanFacts], [EditPlanSpec]: the plan executor of plan.rs,
      the copy for validators of shadow.rs and the statuses of certificate.rs,
      composed of the parts above.
    - [Loop]: while loops under a bound, with the rule that a decreasing
      measure makes them end; for loops with early exits, sorting by a
      comparator, hash order.  [RustText]: characters and trimming.
    - [Fts]: camel_split of fts.rs, the words of the full-text index.
    - [GraphStore]: the rows and errors of crates/store, the interface of the
      store and its laws.
    - [GraphDb], [GraphDbFacts], [GraphDbSpec]: a single store, node.rs, edge.rs,
      project.rs and the writers of vector_embedding.rs with its arithmetic on
      32-bit floats: tables, writes, cascades, postings.
    - [GraphQueries], [GraphQueriesSpec]: its other reads and the full-text
      search of fts.rs.
    - [GraphOverlay]: a store opened as an overlay (store.rs, [attach_overlay]
      and its views; the overlay branches of node.rs and edge.rs): an immutable
      Base and a private Delta behind composed views.  [GraphOverlayFacts]: the
      views, and the second instance of the interface of [GraphStore];
      [GraphOverlayWrites], [GraphOverlaySpec]: what the writes do.
    - [GraphBfs]: distances, and the invariants of breadth-first search with
      marks on pushing and on popping, which the queries below share.
    - [GraphReach], [GraphPath], [GraphCluster], [GraphCycles], [GraphRefs],
      [GraphSearch]: the queries of graph.rs: reachability and impact, shortest
      paths, neighbourhoods and import clusters, call cycles, references and
      co-change, the filtered search and the degree rankings.
    - [GraphTrace]: trace.rs: traces, call trees and call hierarchies.  Each of
      these files ends with the lemmas about its loops; those of the trees and
      hierarchies are in [GraphTreeFacts].
    - [GraphReachSpec], [GraphTraceSpec], [GraphPathSpec],
      [GraphCyclesSpec], [GraphRefsSpec], [GraphSearchSpec]: what the
      queries promise.
      [GraphDemo] is a small store on which the theorems are instantiated.
    - [Resolver], [ResolverSpec]: crates/resolver over an interface of the store
      that adds the queries by name; the store and the overlay are instances.
    - [FreshStore]: file_state.rs, file_identity.rs, index_skip.rs and
      workspace_state.rs of crates/store.  [FreshText]: the
      cache of content proofs, the stamp and the scope key as texts.
    - [Freshness]: incremental.rs of crates/freshness and the stable read of
      crates/discover.  [FreshWorld], [FreshnessSpec]: files
      over time, the tiers of the diff, histories of checks and updates.
    - [FreshCheck], [FreshCheckSpec]: fingerprint.rs of crates/freshness.
    - [Discover], [DiscoverSpec]: lib.rs, skip.rs and binary.rs of
      crates/discover.

    ** What the theorems show

    - Chunk store: every operation refines its effect on the abstract map; a
      stream is read back as it was stored; a process that dies
      at any disk step of put or gc, with torn records, leaves what the next
      open repairs to the byte; readers with outdated caches are
      never given wrong bytes; pinning many chunks is atomic.
    - Tracker: no recorded change is lost between two questions of a client,
      epochs grow and have one writer, a gap fails closed.
    - Paths: accepted paths are canonical, accepted symlink targets never
      climb out of the workspace.
    - Namespace: isolation of workspaces under any sequence of requests;
      writes, truncations, copy on write, creation, removal, renaming and
      symlinks have the effect of the plain file system; an example shows that
      the condition on sparse writes is necessary.
    - Lifecycle: recovery makes reference counts equal to the references the
      tables hold and drops the abandoned workspace pairs; removal and garbage
      collection keep the view of every workspace that stays, and leave no row
      of what they remove.
    - Editor: a planned edit changes its ranges and nothing else, and the
      isolation check accepts just that; handles survive their text form and
      verify only the content they were issued for; a publication is all or
      nothing across failures, stopped processes and interrupted recoveries,
      as long as no restore is torn,
      with concrete runs that show which of its conditions are necessary;
      creating a file replaces nothing and deleting removes just the planned
      content; the lock excludes under conditions on takeovers and on failing
      reads and probes that are shown to be needed; a plan that reports success
      has made exactly the edits it describes, and a dry run or a plan that was
      refused, failed or found stale leaves the files as they are.
    - Graph store: every sequence of writes keeps names, edges and vector keys
      unique, references live and the full-text table equal to the postings of
      the rows, but for postings that the deletion of a project leaves behind,
      whose ids are not used again; what was inserted is read back.
    - Overlays: writes never touch the Base and keep the composed view a graph;
      they act on it as on one map from names to definitions and one set of
      edges; the optimised typed queries agree with the view under conditions
      that are shown to matter; every theorem about the searches holds on an
      overlay through the interface.
    - Graph queries: each ends on every graph and answers when the store does;
      reachability, traces, call trees and shortest paths are exact with
      respect to distances in the graph the accessors show, call hierarchies
      with respect to call paths, cycles with respect to simple cycles, import
      clusters with respect to connected components; limits hold; answers are
      sorted, without duplicates and independent of hash order; counts agree
      with listings.
    - Resolution answers exactly when a name leaves no choice, on a store and
      through an overlay, and always answers.
    - Freshness: a check of files at rest reports exactly the changed ones,
      after any history of checks and updates while files were being written,
      on clocks of a nanosecond and of a second, with a run that shows the
      clocks in between to be unsafe; after an update the next check is silent
      but for the files that cannot be indexed; the cache of proofs and the
      stamp are read back as written, the scope key is injective; a report of a
      fresh index means that every file has its indexed content or is
      kept aside.
    - Discovery: the walk keeps exactly the files that no rule excludes, in
      order and once; text is never taken for binary because of where the
      window cuts it; the repository root is the nearest one.

    ** Bounds and fuel

    Loops over lists are structural.  The stream splitter of [ChunkStore] takes
    the length of the stream as fuel, which bounds the number of its blocks;
    redirect and ancestor walks of [Namespace] take the length of the path; the
    text search of [EditPlan] takes the length of the text, since every round
    moves past a match.
    The queue loops over the graph take a bound computed from the number of ids
    that edges lead to ([reach_fuel], [trace_fuel], [tree_fuel]); recursions
    over call paths take the depth or length bound of the query.  In each case
    a theorem shows that the bound is never met.  Listings of edges are cut at
    the limits the code passes (1024, 4096, 10000), and the graph a theorem
    speaks of is the one these listings show.
    Room conditions ([room], [store_ok]) say that segment ids and lengths stay
    below the limits of their 64-bit columns.

    ** Not modelled

    The operating system side: the walk that captures a snapshot, file
    permissions, the watcher thread (repository_tracker_service.rs), leases and
    provider processes (provider.rs), the mounts of workspace-provider.  Locks
    are not state: a transaction or a lock-protected section is one step, and
    other processes act between steps where the code allows it.  Of the store,
    raw edges, the publication of bases, file contents, the search over vectors,
    caches and migrations are not modelled, and of the search crate text and semantic
    ranking.  Of discovery, the directory walk and the globs are the ignore
    crate's, and the language tables are left out; the update takes the parser
    as a parameter, and rows that the indexer writes are not part of the
    histories.  The writer lock of crates/freshness is the operating system's.
    The other crates (parsing, indexing, inference, command line,
    web) are not part of this library.  Of the editor, the syntax-directed verbs, the
    structured document edits, the JSON form of plans and the texts of
    certificates are not modelled; the executor takes the git head,
    the syntax counts and the validators' processes as parameters. *)

From stdpp Require Export base gmap strings list fin_maps sorting.
From Stdlib Require Export ZArith Lia.

#[global] Open Scope Z_scope.
#[global] Set Default Goal Selector "!".
#[global] Arguments String.append !_ _ : simpl nomatch.

(** ** Results

    A Rust call ends in one of three ways: it returns [Ok], it returns [Err],
    or it panics (slice index out of range, failed [unwrap], arithmetic
    overflow).  Panics are kept apart from errors so that their absence is a
    theorem. *)

Inductive res (E A : Type) : Type :=
| Ok (a : A)
| Err (e : E)
| Panic.
Arguments Ok {E A} a.
Arguments Err {E A} e.
Arguments Panic {E A}.

Definition is_ok {E A} (r : res E A) : bool :=
  match r with Ok _ => true | _ => false end.

Definition res_bind {E A B} (r : res E A) (k : A -> res E B) : res E B :=
  match r with Ok a => k a | Err e => Err e | Panic => Panic end.

(** ** Stateful computations

    [action E S A] is code that runs against a mutable store [S].  The store
    reached is returned on every exit, so an error keeps the effects that
    happened before it. *)

Definition action (E S A : Type) : Type := S -> res E A * S.

Section Actions.
Context {E S : Type}.

Definition ret {A} (a : A) : action E S A := fun s => (Ok a, s).
Definition throw {A} (e : E) : action E S A := fun s => (Err e, s).
Definition panic {A} : action E S A := fun s => (Panic, s).

Definition bind {A B} (m : action E S A) (k : A -> action E S B)
  : action E S B := fun s =>
  match m s with
  | (Ok a, s') => k a s'
  | (Err e, s') => (Err e, s')
  | (Panic, s') => (Panic, s')
  end.

Definition gets {A} (f : S -> A) : action E S A := fun s => (Ok (f s), s).
Definition modify (f : S -> S) : action E S unit := fun s => (Ok tt, f s).
Definition lift {A} (r : res E A) : action E S A := fun s => (r, s).

Definition guard (b : bool) (e : E) : action E S unit :=
  if b then ret tt else throw e.

(** [Option::ok_or]. *)
Definition ok_or {A} (o : option A) (e : E) : action E S A :=
  match o with Some a => ret a | None => throw e end.

Definition unwrap {A} (o : option A) : action E S A :=
  match o with Some a => ret a | None => panic end.

(** A [for] loop with an accumulator. *)
Fixpoint foldM {A B} (f : B -> A -> action E S B) (b : B) (l : list A)
  : action E S B :=
  match l with
  | [] => ret b
  | a :: l => bind (f b a) (fun b' => foldM f b' l)
  end.

Definition forM {A} (l : list A) (f : A -> action E S unit)
  : action E S unit := foldM (fun _ a => f a) tt l.

Fixpoint mapM {A B} (f : A -> action E S B) (l : list A)
  : action E S (list B) :=
  match l with
  | [] => ret []
  | a :: l => bind (f a) (fun b => bind (mapM f l) (fun bs => ret (b :: bs)))
  end.

(** [let _ = m;]: the error of [m] is discarded, a panic is not. *)
Definition ignore {A} (m : action E S A) : action E S unit := fun s =>
  match m s with
  | (Panic, s') => (Panic, s')
  | (_, s') => (Ok tt, s')
  end.

(** A transaction: the store is rolled back unless the body succeeds. *)
Definition atomically {A} (m : action E S A) : action E S A := fun s =>
  match m s with
  | (Ok a, s') => (Ok a, s')
  | (r, _) => (r, s)
  end.

(** Run [m] against a component of the store. *)
Definition zoom {T A} (get : S -> T) (set : T -> S -> S) (m : action E T A)
  : action E S A := fun s =>
  let '(r, t) := m (get s) in (r, set t s).
End Actions.

Declare Scope action_scope.
Delimit Scope action_scope with action.
Notation "'let!' x ':=' m 'in' k" := (bind m (fun x => k))
  (at level 10, x pattern, m at level 100, k at level 200) : action_scope.
Notation "m ';;;' k" := (bind m (fun _ => k))
  (at level 199, k at level 200, right associativity) : action_scope.
#[global] Open Scope action_scope.

(** ** Reasoning about actions *)

Section ActionFacts.
Context {E S : Type}.
Implicit Types (s : S) (e : E).

Lemma bind_ok_inv {A B} (m : action E S A) (k : A -> action E S B) s b s' :
  bind m k s = (Ok b, s') ->
  exists a s1, m s = (Ok a, s1) /\ k a s1 = (Ok b, s').
Proof. unfold bind. destruct (m s) as [[a|e|] s1]; naive_solver. Qed.

Lemma bind_ok {A B} (m : action E S A) (k : A -> action E S B) s a s1 :
  m s = (Ok a, s1) -> bind m k s = k a s1.
Proof. unfold bind. by intros ->. Qed.

Lemma bind_err {A B} (m : action E S A) (k : A -> action E S B) s e s1 :
  m s = (Err e, s1) -> bind m k s = (Err e, s1).
Proof. unfold bind. by intros ->. Qed.

Lemma guard_ok_inv b e s (u : unit) s' :
  guard b e s = (Ok u, s') -> b = true /\ s' = s.
Proof. destruct b; unfold guard, ret, throw; naive_solver. Qed.

Lemma ok_or_ok_inv {A} (o : option A) e s a s' :
  ok_or o e s = (Ok a, s') -> o = Some a /\ s' = s.
Proof. destruct o; unfold ok_or, ret, throw; naive_solver. Qed.

Lemma atomically_ok_inv {A} (m : action E S A) s a s' :
  atomically m s = (Ok a, s') -> m s = (Ok a, s').
Proof. unfold atomically. destruct (m s) as [[]]; naive_solver. Qed.

Lemma atomically_ok {A} (m : action E S A) s a s' :
  m s = (Ok a, s') -> atomically m s = (Ok a, s').
Proof. unfold atomically. by intros ->. Qed.

(** A transaction that does not succeed leaves the store as it was. *)
Lemma atomically_rollback {A} (m : action E S A) s r s' :
  atomically m s = (r, s') -> is_ok r = false -> s' = s.
Proof. unfold atomically. destruct (m s) as [[]]; naive_solver. Qed.

(** [keeps R m]: whatever the exit, [m] relates the store before to the
    store after by [R]. *)
Definition keeps (R : S -> S -> Prop) {A} (m : action E S A) : Prop :=
  forall s r s', m s = (r, s') -> R s s'.

(** [preserves P m]: [m] cannot leave [P], whatever the exit. *)
Definition preserves (P : S -> Prop) {A} (m : action E S A) : Prop :=
  forall s r s', P s -> m s = (r, s') -> P s'.

Section Keeps.
Context (R : S -> S -> Prop) `{!PreOrder R}.

Lemma keeps_ret {A} (a : A) : keeps R (ret a).
Proof. intros s r s' [= <- <-]. reflexivity. Qed.
Lemma keeps_throw {A} e : keeps R (@throw E S A e).
Proof. intros s r s' [= <- <-]. reflexivity. Qed.
Lemma keeps_panic {A} : keeps R (@panic E S A).
Proof. intros s r s' [= <- <-]. reflexivity. Qed.
Lemma keeps_gets {A} (f : S -> A) : keeps R (gets f).
Proof. intros s r s' [= <- <-]. reflexivity. Qed.
Lemma keeps_lift {A} (r0 : res E A) : keeps R (lift r0).
Proof. intros s r s' [= <- <-]. reflexivity. Qed.
Lemma keeps_guard b e : keeps R (guard b e).
Proof. destruct b; [apply keeps_ret | apply keeps_throw]. Qed.
Lemma keeps_ok_or {A} (o : option A) e : keeps R (ok_or o e).
Proof. destruct o; [apply keeps_ret | apply keeps_throw]. Qed.
Lemma keeps_unwrap {A} (o : option A) : keeps R (unwrap o).
Proof. destruct o; [apply keeps_ret | apply keeps_panic]. Qed.

Lemma keeps_modify f : (forall s, R s (f s)) -> keeps R (modify f).
Proof. intros Hf s r s' [= <- <-]. apply Hf. Qed.

Lemma keeps_bind {A B} (m : action E S A) (k : A -> action E S B) :
  keeps R m -> (forall a, keeps R (k a)) -> keeps R (bind m k).
Proof.
  intros Hm Hk s r s'. unfold bind.
  destruct (m s) as [[a|e|] s1] eqn:Hs; intros Heq.
  - transitivity s1; [by eapply Hm | by eapply Hk].
  - injection Heq as <- <-. by eapply Hm.
  - injection Heq as <- <-. by eapply Hm.
Qed.

Lemma keeps_foldM {A B} (f : B -> A -> action E S B) l :
  (forall b a, keeps R (f b a)) -> forall b, keeps R (foldM f b l).
Proof.
  intros Hf. induction l as [|a l IH]; intros b; simpl.
  - apply keeps_ret.
  - by apply keeps_bind.
Qed.

Lemma keeps_forM {A} (l : list A) (f : A -> action E S unit) :
  (forall a, keeps R (f a)) -> keeps R (forM l f).
Proof. intros Hf. by apply keeps_foldM. Qed.

Lemma keeps_mapM {A B} (f : A -> action E S B) l :
  (forall a, keeps R (f a)) -> keeps R (mapM f l).
Proof.
  intros Hf. induction l as [|a l IH]; simpl; [apply keeps_ret|].
  apply keeps_bind; [done|]. intros b.
  apply keeps_bind; [done|]. intros bs. apply keeps_ret.
Qed.

Lemma keeps_ignore {A} (m : action E S A) :
  keeps R m -> keeps R (ignore m).
Proof.
  intros Hm s r s'. unfold ignore. specialize (Hm s).
  destruct (m s) as [[] s1]; intros [= <- <-]; by eapply Hm.
Qed.

Lemma keeps_atomically {A} (m : action E S A) :
  keeps R m -> keeps R (atomically m).
Proof.
  intros Hm s r s'. unfold atomically. specialize (Hm s).
  destruct (m s) as [[] s1]; intros [= <- <-];
    first [by eapply Hm | reflexivity].
Qed.
End Keeps.

Section Preserves.
Context (P : S -> Prop).

Lemma preserves_keeps {A} (R : S -> S -> Prop) (m : action E S A) :
  (forall s s', R s s' -> P s -> P s') -> keeps R m -> preserves P m.
Proof. intros HR Hm s r s' HP Hs. eapply HR; [by eapply Hm | done]. Qed.

Lemma preserves_pure {A} (m : action E S A) :
  (forall s, exists r, m s = (r, s)) -> preserves P m.
Proof. intros Hm s r s' HP Hs. destruct (Hm s) as [r0 Hr0]. congruence. Qed.

Lemma preserves_modify f : (forall s, P s -> P (f s)) ->
  preserves P (modify f).
Proof. intros Hf s r s' HP [= <- <-]. by apply Hf. Qed.

Lemma preserves_bind {A B} (m : action E S A) (k : A -> action E S B) :
  preserves P m -> (forall a, preserves P (k a)) -> preserves P (bind m k).
Proof.
  intros Hm Hk s r s' HP. unfold bind.
  destruct (m s) as [[a|e|] s1] eqn:Hs; intros Heq.
  - eapply (Hk a); [|done]. by eapply Hm.
  - injection Heq as <- <-. by eapply Hm.
  - injection Heq as <- <-. by eapply Hm.
Qed.

Lemma preserves_foldM {A B} (f : B -> A -> action E S B) l :
  (forall b a, preserves P (f b a)) -> forall b, preserves P (foldM f b l).
Proof.
  intros Hf. induction l as [|a l IH]; intros b; simpl.
  - by apply preserves_pure; intros s; eexists.
  - by apply preserves_bind.
Qed.

Lemma preserves_forM_in {A} (l : list A) (f : A -> action E S unit) :
  (forall a, a ∈ l -> preserves P (f a)) -> preserves P (forM l f).
Proof.
  unfold forM. induction l as [|a l IH]; intros Hf; simpl.
  - by apply preserves_pure; intros s; eexists.
  - apply preserves_bind; [apply Hf; by left|]. intros []. apply IH.
    intros x Hx. apply Hf. by right.
Qed.

Lemma preserves_forM {A} (l : list A) (f : A -> action E S unit) :
  (forall a, preserves P (f a)) -> preserves P (forM l f).
Proof. intros Hf. by apply preserves_foldM. Qed.

Lemma preserves_atomically {A} (m : action E S A) :
  preserves P m -> preserves P (atomically m).
Proof.
  intros Hm s r s' HP. unfold atomically. specialize (Hm s).
  destruct (m s) as [[] s1]; intros [= <- <-];
    first [by eapply Hm | done].
Qed.
End Preserves.

Lemma foldM_app {A B} (f : B -> A -> action E S B) l1 l2 b s :
  foldM f b (l1 ++ l2) s = bind (foldM f b l1) (fun b' => foldM f b' l2) s.
Proof.
  revert b s. induction l1 as [|a l1 IH]; intros b s; simpl; [done|].
  unfold bind. destruct (f b a s) as [[b'|e|] s1]; [|done..].
  by rewrite IH.
Qed.
End ActionFacts.

(** [run_inv]: open every successful step of an action in the hypotheses. *)
Ltac run_inv_step :=
  match goal with
  | H : bind _ _ _ = (Ok _, _) |- _ =>
      let a := fresh "a" in let s := fresh "s" in let H1 := fresh "H" in
      apply bind_ok_inv in H as (a & s & H1 & H)
  | H : guard _ _ _ = (Ok _, _) |- _ =>
      let Hb := fresh "Hb" in apply guard_ok_inv in H as [Hb ->]
  | H : ok_or _ _ _ = (Ok _, _) |- _ =>
      let Ho := fresh "Ho" in apply ok_or_ok_inv in H as [Ho ->]
  | H : atomically _ _ = (Ok _, _) |- _ => apply atomically_ok_inv in H
  | H : ret _ _ = (_, _) |- _ => injection H as <- <-
  | H : gets _ _ = (_, _) |- _ => injection H as <- <-
  | H : modify _ _ = (_, _) |- _ => injection H as <- <-
  | H : throw _ _ = (Ok _, _) |- _ => discriminate H
  | H : panic _ = (Ok _, _) |- _ => discriminate H
  | H : lift _ _ = (_, _) |- _ => injection H as <- <-
  end.
Ltac run_inv :=
  repeat (run_inv_step; simpl in *);
  repeat match goal with u : unit |- _ => destruct u end.

Create HintDb act.
#[export] Hint Resolve keeps_ret keeps_throw keeps_panic keeps_gets keeps_lift
  keeps_guard keeps_ok_or keeps_unwrap keeps_ignore keeps_atomically
  keeps_forM keeps_mapM : act.
#[export] Hint Resolve preserves_atomically preserves_forM : act.

(** ** Maps *)

Lemma map_to_list_filter_perm {K V} `{Countable K} (P : K * V -> Prop) `{!forall x, Decision (P x)}
    (m : gmap K V) : map_to_list (filter P m) ≡ₚ filter P (map_to_list m).
Proof.
  rewrite map_filter_alt. apply map_to_list_to_map.
  apply (sublist_NoDup _ (map_to_list m).*1); [apply NoDup_fst_map_to_list|].
  apply fmap_sublist, sublist_filter.
Qed.
