(* ===== verification/Error.v ===== *)
(** The error type shared by every part of the workspace core
    (crates/workspace-core/src/error.rs) and its public classification.

    The human-readable text that [format!] builds is reduced to its constant
    part; a path or an identifier that is the whole payload is kept. *)

From S2P Require Import Prelude.
#[local] Open Scope string_scope.

Inductive Error : Type :=
| Io (kind : string)
| Sql
| Json
| NotGitRepository (path detail : string)
| Git (command detail : string)
| ConcurrentRepositoryMutation
| UnsupportedRepository (detail : string)
| Corrupt (detail : string)
| InvalidPath (detail : string)
| NotFound (path : string)
| AlreadyExists (path : string)
| NotDirectory (path : string)
| IsDirectory (path : string)
| DirectoryNotEmpty (path : string)
| AdapterUnavailable (detail : string)
| AdapterUnhealthy (detail : string).

Inductive ErrorKind : Type :=
| KNotFound | KAlreadyExists | KNotDirectory | KIsDirectory
| KDirectoryNotEmpty | KInvalidInput | KUnavailable | KCorrupt | KIo.

Definition kind (e : Error) : ErrorKind :=
  match e with
  | NotFound _ => KNotFound
  | AlreadyExists _ => KAlreadyExists
  | NotDirectory _ => KNotDirectory
  | IsDirectory _ => KIsDirectory
  | DirectoryNotEmpty _ => KDirectoryNotEmpty
  | InvalidPath _ | UnsupportedRepository _ | ConcurrentRepositoryMutation
  | NotGitRepository _ _ | Git _ _ => KInvalidInput
  | AdapterUnavailable _ | AdapterUnhealthy _ => KUnavailable
  | Corrupt _ | Sql | Json => KCorrupt
  | Io _ => KIo
  end.

#[export] Instance Error_eq_dec : EqDecision Error.
Proof. solve_decision. Defined.
#[export] Instance ErrorKind_eq_dec : EqDecision ErrorKind.
Proof. solve_decision. Defined.

Abbreviation result := (res Error).
