(* ===== verification/RustStr.v ===== *)
(** Rust string and path primitives used by the workspace core, on byte
    strings: [str::split], [strip_prefix], [rsplit_once], [replace], ASCII
    case mapping, [std::str::from_utf8] and [Path::components] (Unix rules).
    Also the SQL [LIKE ... ESCAPE] operator of SQLite, which the queries over
    path columns use. *)

From S2P Require Import Prelude.
From Stdlib Require Import Ascii.
#[local] Open Scope string_scope.

Notation "c =? d" := (Ascii.eqb c d) (at level 70) : char_scope.

Definition byte_val (c : ascii) : Z := Z.of_N (N_of_ascii c).
Definition in_range (lo hi : Z) (c : ascii) : bool :=
  (lo <=? byte_val c)%Z && (byte_val c <=? hi)%Z.

Definition is_ascii_digit := in_range 48 57.
Definition is_ascii_upper := in_range 65 90.
Definition is_ascii_lower := in_range 97 122.
Definition is_ascii_alphabetic (c : ascii) : bool :=
  is_ascii_upper c || is_ascii_lower c.
Definition is_ascii_alphanumeric (c : ascii) : bool :=
  is_ascii_alphabetic c || is_ascii_digit c.
Definition is_ascii_hexdigit (c : ascii) : bool :=
  is_ascii_digit c || in_range 65 70 c || in_range 97 102 c.

Definition char_to_ascii_uppercase (c : ascii) : ascii :=
  if is_ascii_lower c then ascii_of_N (Z.to_N (byte_val c - 32)) else c.
Definition char_to_ascii_lowercase (c : ascii) : ascii :=
  if is_ascii_upper c then ascii_of_N (Z.to_N (byte_val c + 32)) else c.

Fixpoint str_map (f : ascii -> ascii) (s : string) : string :=
  match s with "" => "" | String c s => String (f c) (str_map f s) end.
Definition to_ascii_uppercase := str_map char_to_ascii_uppercase.
Definition to_ascii_lowercase := str_map char_to_ascii_lowercase.

Fixpoint str_any (p : ascii -> bool) (s : string) : bool :=
  match s with "" => false | String c s => p c || str_any p s end.
Fixpoint str_all (p : ascii -> bool) (s : string) : bool :=
  match s with "" => true | String c s => p c && str_all p s end.

Definition str_len (s : string) : Z := Z.of_nat (String.length s).

Fixpoint last_char (s : string) : option ascii :=
  match s with
  | "" => None
  | String c "" => Some c
  | String _ s => last_char s
  end.
Definition ends_with_any (p : ascii -> bool) (s : string) : bool :=
  match last_char s with Some c => p c | None => false end.

(** [str::split] with a character predicate: always at least one piece. *)
Fixpoint split (p : ascii -> bool) (s : string) : list string :=
  match s with
  | "" => [""]
  | String c s =>
      if p c then "" :: split p s
      else match split p s with
           | [] => [String c ""]
           | h :: t => String c h :: t
           end
  end.

Definition slash : ascii := "/"%char.
Definition backslash : ascii := "\"%char.
Definition dot : ascii := "."%char.
Definition is_slash (c : ascii) : bool := Ascii.eqb c slash.

Fixpoint join (sep : string) (parts : list string) : string :=
  match parts with
  | [] => ""
  | [p] => p
  | p :: ps => p +:+ sep +:+ join sep ps
  end.

Fixpoint strip_prefix (p s : string) : option string :=
  match p, s with
  | "", _ => Some s
  | String c p, String d s => if Ascii.eqb c d then strip_prefix p s else None
  | String _ _, "" => None
  end.
Definition starts_with (p s : string) : bool :=
  match strip_prefix p s with Some _ => true | None => false end.

(** [str::rsplit_once(c)]: the text before and after the last [c]. *)
Fixpoint rsplit_once (c : ascii) (s : string) : option (string * string) :=
  match s with
  | "" => None
  | String d s' =>
      match rsplit_once c s' with
      | Some (a, b) => Some (String d a, b)
      | None => if Ascii.eqb d c then Some ("", s') else None
      end
  end.

(** [str::replace] of one character. *)
Fixpoint replace_char (c : ascii) (by_ : string) (s : string) : string :=
  match s with
  | "" => ""
  | String d s =>
      (if Ascii.eqb d c then by_ else String d "") +:+ replace_char c by_ s
  end.

(** [std::str::from_utf8]: well-formedness of a UTF-8 byte sequence. *)
Fixpoint utf8_valid (fuel : nat) (b : list Z) : bool :=
  let cont x := (128 <=? x)%Z && (x <=? 191)%Z in
  match fuel with
  | O => true
  | S fuel =>
    match b with
    | [] => true
    | x :: b =>
      if (x <=? 127)%Z then utf8_valid fuel b
      else if (194 <=? x)%Z && (x <=? 223)%Z then
        match b with
        | y :: b => cont y && utf8_valid fuel b
        | _ => false
        end
      else if (224 <=? x)%Z && (x <=? 239)%Z then
        match b with
        | y :: z :: b =>
            (if (x =? 224)%Z then (160 <=? y)%Z && (y <=? 191)%Z
             else if (x =? 237)%Z then (128 <=? y)%Z && (y <=? 159)%Z
             else cont y) && cont z && utf8_valid fuel b
        | _ => false
        end
      else if (240 <=? x)%Z && (x <=? 244)%Z then
        match b with
        | y :: z :: w :: b =>
            (if (x =? 240)%Z then (144 <=? y)%Z && (y <=? 191)%Z
             else if (x =? 244)%Z then (128 <=? y)%Z && (y <=? 143)%Z
             else cont y) && cont z && cont w && utf8_valid fuel b
        | _ => false
        end
      else false
    end
  end.

Fixpoint bytes_of_string (s : string) : list Z :=
  match s with "" => [] | String c s => byte_val c :: bytes_of_string s end.
Fixpoint string_of_bytes (b : list Z) : string :=
  match b with
  | [] => ""
  | x :: b => String (ascii_of_N (Z.to_N x)) (string_of_bytes b)
  end.
Definition from_utf8 (b : list Z) : option string :=
  if utf8_valid (length b) b then Some (string_of_bytes b) else None.

(** [std::path::Component] and [Path::components] on Unix: repeated and
    trailing separators vanish, [.] is kept only at the very start. *)
Inductive Component : Type :=
| RootDir | CurDir | ParentDir | Normal (name : string).

Definition piece_component (p : string) : option Component :=
  if bool_decide (p = "") then None
  else if bool_decide (p = ".") then None
  else if bool_decide (p = "..") then Some ParentDir
  else Some (Normal p).

Definition components (path : string) : list Component :=
  match split is_slash path with
  | [] => []
  | p :: ps =>
      (if bool_decide (p = "") then
         (if bool_decide (ps = []) then [] else [RootDir])
       else if bool_decide (p = ".") then [CurDir]
       else omap piece_component [p])
      ++ omap piece_component ps
  end.

(** SQLite's [text LIKE pattern ESCAPE '\']: [%] matches any sequence, [_] one
    character, a backslash makes the next character literal, and ASCII letters
    compare without case (the default of SQLite; the sources never set the
    pragma that changes it). *)
Definition like_char_eq (a b : ascii) : bool :=
  Ascii.eqb (char_to_ascii_lowercase a) (char_to_ascii_lowercase b).

Fixpoint drop_continuation (s : string) : string :=
  match s with
  | "" => ""
  | String c s' => if in_range 128 191 c then drop_continuation s' else s
  end.

Fixpoint like (pat s : string) : bool :=
  match pat with
  | "" => match s with "" => true | _ => false end
  | String p pat' =>
      if Ascii.eqb p backslash then
        match pat' with
        | "" => false
        | String q pat'' =>
            match s with
            | "" => false
            | String c s' => like_char_eq q c && like pat'' s'
            end
        end
      else if Ascii.eqb p "%"%char then
        (fix star (s : string) : bool :=
           like pat' s ||
           match s with "" => false | String _ s' => star s' end) s
      else if Ascii.eqb p "_"%char then
        match s with
        | "" => false
        | String _ s' => like pat' (drop_continuation s')
        end
      else
        match s with
        | "" => false
        | String c s' => like_char_eq p c && like pat' s'
        end
  end.

(** [escape_like] (namespace.rs and repository_layers.rs hold the same text). *)
Definition escape_like (value : string) : string :=
  replace_char "_"%char "\_"
    (replace_char "%"%char "\%" (replace_char backslash "\\" value)).

(** ** Facts *)

Section Strings.
Implicit Types (s t p q : string) (c d : ascii).

Lemma app_String c s t : String c s +:+ t = String c (s +:+ t).
Proof. reflexivity. Qed.
Lemma app_empty_l s : "" +:+ s = s.
Proof. reflexivity. Qed.
Lemma app_empty_r s : s +:+ "" = s.
Proof. induction s as [|c s IH]; simpl; [done|]. congruence. Qed.
Lemma app_string_assoc s t p : (s +:+ t) +:+ p = s +:+ (t +:+ p).
Proof. induction s as [|c s IH]; simpl; [done|]. congruence. Qed.
Lemma length_string_app s t :
  String.length (s +:+ t) = (String.length s + String.length t)%nat.
Proof. induction s as [|c s IH]; simpl; [done|]. by rewrite IH. Qed.

Lemma app_string_inj s t p : s +:+ t = s +:+ p -> t = p.
Proof. induction s as [|c s IH]; simpl; [done|]. intros [= H]. by apply IH. Qed.

Lemma app_string_empty s t : s +:+ t = "" -> s = "" /\ t = "".
Proof. destruct s; simpl; [done|discriminate]. Qed.

Lemma strip_prefix_Some p s t : strip_prefix p s = Some t <-> s = p +:+ t.
Proof.
  revert s. induction p as [|c p IH]; intros s; simpl; [split; congruence|].
  destruct s as [|d s]; simpl; [split; congruence|].
  destruct (Ascii.eqb_spec c d) as [->|Hne]; rewrite ?IH; split; congruence.
Qed.

Lemma strip_prefix_app p s : strip_prefix p (p +:+ s) = Some s.
Proof. by apply strip_prefix_Some. Qed.

Lemma starts_with_spec p s : starts_with p s = true <-> exists t, s = p +:+ t.
Proof.
  unfold starts_with. destruct (strip_prefix p s) as [t|] eqn:H.
  - apply strip_prefix_Some in H. naive_solver.
  - split; [done|]. intros [t ->]. by rewrite strip_prefix_app in H.
Qed.

Lemma str_any_app P s t : str_any P (s +:+ t) = str_any P s || str_any P t.
Proof. induction s as [|c s IH]; simpl; [done|]. by rewrite IH, orb_assoc. Qed.

Lemma rsplit_once_None c s :
  rsplit_once c s = None <-> str_any (fun d => Ascii.eqb d c) s = false.
Proof.
  induction s as [|d s IH]; simpl; [done|].
  destruct (rsplit_once c s) as [[a b]|];
    destruct (Ascii.eqb d c); destruct (str_any _ s);
    simpl; split; intros; intuition congruence.
Qed.

Lemma rsplit_once_Some c s a b :
  rsplit_once c s = Some (a, b) <->
  s = a +:+ String c b /\ str_any (fun d => Ascii.eqb d c) b = false.
Proof.
  revert a b. induction s as [|d s IH]; intros a b.
  { simpl. split; [done|]. intros [H _]. by destruct a. }
  change (rsplit_once c (String d s)) with
    (match rsplit_once c s with
     | Some (a, b) => Some (String d a, b)
     | None => if Ascii.eqb d c then Some ("", s) else None end).
  destruct (rsplit_once c s) as [[a' b']|] eqn:Hs.
  - destruct (proj1 (IH a' b') eq_refl) as [-> Hb']. split.
    + intros [= <- <-]. done.
    + intros [Heq Hb]. destruct a as [|x a]; simpl in Heq.
      * injection Heq as -> <-.
        rewrite str_any_app in Hb. simpl in Hb.
        rewrite Ascii.eqb_refl, orb_true_r in Hb. done.
      * injection Heq as <- Heq.
        assert (Some (a', b') = Some (a, b)) as [= -> ->]; [|done].
        apply IH. by rewrite Heq.
  - apply rsplit_once_None in Hs.
    destruct (Ascii.eqb_spec d c) as [->|Hne]; split.
    + intros [= <- <-]. done.
    + intros [Heq Hb]. destruct a as [|x a]; simpl in Heq;
        [intuition congruence|].
      injection Heq as <- ->. rewrite str_any_app in Hs. simpl in Hs.
      by rewrite Ascii.eqb_refl, orb_true_r in Hs.
    + done.
    + intros [Heq Hb]. destruct a as [|x a]; simpl in Heq;
        [intuition congruence|].
      injection Heq as <- ->. rewrite str_any_app in Hs. simpl in Hs.
      by rewrite Ascii.eqb_refl, orb_true_r in Hs.
Qed.

Lemma split_not_nil P s : split P s <> [].
Proof. destruct s; simpl; [done|]. destruct (P a); [done|]. by destruct (split P s). Qed.

Lemma split_no_sep P s : str_any P s = false -> split P s = [s].
Proof.
  induction s as [|c s IH]; simpl; [done|].
  intros [Hc Hs]%orb_false_iff. by rewrite Hc, (IH Hs).
Qed.

Lemma split_pieces P s : Forall (fun p => str_any P p = false) (split P s).
Proof.
  induction s as [|c s IH]; simpl; [by repeat constructor|].
  destruct (P c) eqn:Hc; [by constructor|].
  destruct (split P s); [by repeat constructor; simpl; rewrite Hc|].
  inversion IH; subst. constructor; [|done]. simpl. by rewrite Hc.
Qed.

Lemma split_app_sep P s c t :
  str_any P s = false -> P c = true ->
  split P (s +:+ String c t) = s :: split P t.
Proof.
  intros Hs Hc. induction s as [|d s IH]; simpl in *; [by rewrite Hc|].
  apply orb_false_iff in Hs as [Hd Hs]. by rewrite Hd, (IH Hs).
Qed.

(** Joining non-empty lists of slash-free names and splitting again. *)
Lemma split_join ps :
  ps <> [] -> Forall (fun p => str_any is_slash p = false) ps ->
  split is_slash (join "/" ps) = ps.
Proof.
  intros Hne H. induction H as [|p ps Hp Hps IH]; [done|].
  destruct ps as [|q ps]; [by apply split_no_sep|].
  change (join "/" (p :: q :: ps)) with (p +:+ String slash (join "/" (q :: ps))).
  rewrite split_app_sep by done. by rewrite IH.
Qed.

Lemma join_split s : join "/" (split is_slash s) = s.
Proof.
  induction s as [|c s IH]; simpl; [done|].
  destruct (is_slash c) eqn:Hc.
  - unfold is_slash in Hc. apply Ascii.eqb_eq in Hc as ->.
    pose proof (split_not_nil is_slash s) as Hne.
    destruct (split is_slash s) eqn:Hs; [done|].
    change (String slash (join "/" (s0 :: l)) = String slash s). by rewrite IH.
  - pose proof (split_not_nil is_slash s).
    destruct (split is_slash s) as [|h t] eqn:Hs; [done|].
    destruct t; simpl in *; by rewrite <-IH.
Qed.

Lemma str_map_app f s t : str_map f (s +:+ t) = str_map f s +:+ str_map f t.
Proof. induction s as [|c s IH]; simpl; [done|]. by rewrite IH. Qed.

Lemma length_str_map f s : String.length (str_map f s) = String.length s.
Proof. induction s; simpl; congruence. Qed.

Lemma replace_char_app c r s t :
  replace_char c r (s +:+ t) = replace_char c r s +:+ replace_char c r t.
Proof.
  induction s as [|d s IH]; simpl; [done|].
  by rewrite IH, app_string_assoc.
Qed.

(** What one character becomes under [escape_like]. *)
Definition escape_char c : string :=
  if Ascii.eqb c backslash || Ascii.eqb c "%"%char || Ascii.eqb c "_"%char
  then String backslash (String c "") else String c "".

Lemma escape_like_cons c s :
  escape_like (String c s) = escape_char c +:+ escape_like s.
Proof.
  unfold escape_like. cbn [replace_char]. rewrite !replace_char_app.
  f_equal. by destruct c as [[] [] [] [] [] [] [] []].
Qed.

(** The literal prefix of a pattern matches letter by letter, without
    case. *)
Lemma like_escape_cons c s pat t :
  like (escape_like (String c s) +:+ pat) t =
  match t with
  | "" => false
  | String d t' => like_char_eq c d && like (escape_like s +:+ pat) t'
  end.
Proof.
  rewrite escape_like_cons, app_string_assoc. unfold escape_char.
  destruct (Ascii.eqb c backslash || Ascii.eqb c "%"%char || Ascii.eqb c "_"%char)
    eqn:H; [done|].
  apply orb_false_iff in H as [[H1 H2]%orb_false_iff H3].
  simpl. by rewrite H1, H2, H3.
Qed.

Lemma like_percent_all t : like "%" t = true.
Proof. induction t as [|c t IH]; [done|]. exact IH. Qed.

(** [path LIKE escape_like(prefix) || '%'] holds exactly of the texts that
    start with [prefix] up to ASCII case. *)
Lemma like_escape_prefix s t :
  like (escape_like s +:+ "%") t = true <->
  exists p r, t = p +:+ r /\ to_ascii_lowercase p = to_ascii_lowercase s.
Proof.
  revert t. induction s as [|c s IH]; intros t.
  { split; [|intros _; apply like_percent_all]. exists "", t. done. }
  rewrite like_escape_cons. destruct t as [|d t].
  { split; [done|]. intros (p & r & Heq & Hl).
    symmetry in Heq. apply app_string_empty in Heq as [-> _]. done. }
  rewrite andb_true_iff, IH. unfold like_char_eq. rewrite Ascii.eqb_eq. split.
  - intros [Hc (p & r & -> & Hl)]. exists (String d p), r. split; [done|].
    unfold to_ascii_lowercase in *. simpl. by rewrite Hc, Hl.
  - intros (p & r & Heq & Hl). destruct p as [|x p]; [done|].
    simpl in Heq. injection Heq as <- ->.
    unfold to_ascii_lowercase in *. simpl in Hl. injection Hl as Hc Hl.
    split; [done|]. by exists p, r.
Qed.

Lemma like_escape_prefix_app s t : like (escape_like s +:+ "%") (s +:+ t) = true.
Proof. apply like_escape_prefix. by exists s, t. Qed.
End Strings.

(** ** Bytes *)

Definition is_byte (b : Z) : Prop := (0 <= b < 256)%Z.

Lemma bytes_of_string_of_bytes b :
  Forall is_byte b -> bytes_of_string (string_of_bytes b) = b.
Proof.
  induction 1 as [|x b Hx _ IH]; simpl; [done|]. rewrite IH. f_equal.
  unfold byte_val. rewrite N_ascii_embedding by (unfold is_byte in *; lia).
  unfold is_byte in *. lia.
Qed.

Lemma bytes_of_string_bytes s : Forall is_byte (bytes_of_string s).
Proof.
  induction s as [|c s IH]; simpl; constructor; [|done]. unfold is_byte, byte_val.
  pose proof (N_ascii_bounded c). lia.
Qed.

Lemma string_of_bytes_of_string s : string_of_bytes (bytes_of_string s) = s.
Proof.
  induction s as [|c s IH]; simpl; [done|]. rewrite IH. f_equal. unfold byte_val.
  by rewrite N2Z.id, ascii_N_embedding.
Qed.
