(* ===== verification/PathPolicy.v ===== *)
(** Path policy of the workspace core: portable component names and symlink
    targets (path_policy.rs), the normalisation every namespace operation
    applies to its path argument, and the validators of workspace, proposal
    and Git object identifiers (namespace.rs). *)

From S2P Require Import Prelude Error RustStr.
From Stdlib Require Import Ascii.
#[local] Open Scope string_scope.

Definition nonportable_char (c : ascii) : bool :=
  bool_decide (c ∈ ["000"; "\"; ":"; "<"; ">"; "034"; "|"; "?"; "*"]%char).

Definition one_to_nine (suffix : string) : bool :=
  bool_decide (suffix ∈ ["1"; "2"; "3"; "4"; "5"; "6"; "7"; "8"; "9"]).

Definition reserved_device (component : string) : bool :=
  let stem := to_ascii_uppercase
    (default component (head (split (fun c => Ascii.eqb c dot) component))) in
  bool_decide (stem ∈ ["CON"; "PRN"; "AUX"; "NUL"; "CLOCK$"])
  || match strip_prefix "COM" stem with
     | Some suffix => one_to_nine suffix | None => false end
  || match strip_prefix "LPT" stem with
     | Some suffix => one_to_nine suffix | None => false end.

Definition validate_portable_component (component : string) : result unit :=
  if str_any nonportable_char component
     || ends_with_any (fun c => Ascii.eqb c dot || Ascii.eqb c " "%char) component
  then Err (InvalidPath "path component is not portable")
  else if reserved_device component
  then Err (InvalidPath "path component is reserved on Windows")
  else Ok tt.

Definition is_separator (c : ascii) : bool :=
  Ascii.eqb c slash || Ascii.eqb c backslash.

(** The test for absolute, drive-relative or otherwise non-portable text. *)
Definition target_absolute (target : string) : bool :=
  bool_decide (target = "")
  || str_any (fun c => Ascii.eqb c "000"%char) target
  || match target with String c _ => is_separator c | "" => false end
  || match target with
     | String a (String b _) => Ascii.eqb b ":"%char && is_ascii_alphabetic a
     | _ => false
     end.

(** The loop over the components of the target, with the depth left. *)
Fixpoint walk_depth (depth : nat) (comps : list string) : option nat :=
  match comps with
  | [] => Some depth
  | c :: cs =>
      if bool_decide (c = "") || bool_decide (c = ".") then walk_depth depth cs
      else if bool_decide (c = "..") then
        match depth with O => None | S d => walk_depth d cs end
      else walk_depth (S depth) cs
  end.

Definition validate_symlink_target (link_path : string) (target : list Z)
  : result unit :=
  match from_utf8 target with
  | None => Err (UnsupportedRepository "non-UTF-8 symlink targets are not portable")
  | Some target =>
      if target_absolute target
      then Err (InvalidPath "symlink target is absolute or non-portable")
      else
        let depth := (length (split is_slash link_path) - 1)%nat in
        match walk_depth depth (split is_separator target) with
        | None => Err (InvalidPath "symlink target escapes workspace")
        | Some _ => Ok tt
        end
  end.

(** The component loop of [normalize_path]. Its argument is text here: the
    source takes an [OsStr] path and also refuses a part that is not UTF-8,
    with the same [InvalidPath] error (namespace.rs, 2945-2947); every caller in this
    model hands it text that is already UTF-8. *)
Fixpoint normal_parts (path : string) (comps : list Component)
  : result (list string) :=
  match comps with
  | [] => Ok []
  | CurDir :: cs => normal_parts path cs
  | Normal part :: cs =>
      res_bind (validate_portable_component part) (fun _ =>
      res_bind (normal_parts path cs) (fun parts => Ok (part :: parts)))
  | _ => Err (InvalidPath path)
  end.

Definition normalize_path (path : string) (allow_root : bool) : result string :=
  res_bind (normal_parts path (components path)) (fun parts =>
    let normalized := join "/" parts in
    if bool_decide (normalized = "") && negb allow_root
    then Err (InvalidPath "empty workspace path")
    else Ok normalized).

Definition id_char (c : ascii) : bool :=
  is_ascii_alphanumeric c || Ascii.eqb c "-"%char || Ascii.eqb c "_"%char.

Definition validate_workspace_id (id : string) : result unit :=
  if bool_decide (id = "") || (80 <? str_len id)%Z || negb (str_all id_char id)
  then Err (InvalidPath "invalid workspace id") else Ok tt.

Definition validate_proposal_ref (value : string) : result unit :=
  match strip_prefix "refs/greppy/agent/" value with
  | None => Err (InvalidPath "proposal ref is outside refs/greppy/agent")
  | Some suffix => validate_workspace_id suffix
  end.

Definition validate_oid (value : string) : result unit :=
  if negb ((str_len value =? 40) || (str_len value =? 64))%Z
     || negb (str_all is_ascii_hexdigit value)
  then Err (InvalidPath "invalid Git object id") else Ok tt.

(** ** Specification: lexical resolution of a symlink

    A directory stack is the list of names from the workspace root; resolution
    fails exactly when [..] is applied at the root. *)

Fixpoint resolve_stack (stack : list string) (comps : list string)
  : option (list string) :=
  match comps with
  | [] => Some stack
  | c :: cs =>
      if bool_decide (c = "") || bool_decide (c = ".") then resolve_stack stack cs
      else if bool_decide (c = "..") then
        match stack with [] => None | _ :: up => resolve_stack up cs end
      else resolve_stack (c :: stack) cs
  end.

(** The directory that holds a link, innermost name first. *)
Definition parent_stack (link_path : string) : list string :=
  tail (rev (split is_slash link_path)).

Lemma walk_depth_resolve comps stack :
  walk_depth (length stack) comps = length <$> resolve_stack stack comps.
Proof.
  revert stack. induction comps as [|c cs IH]; intros stack; simpl; [done|].
  destruct (bool_decide (c = "") || bool_decide (c = ".")); [done|].
  destruct (bool_decide (c = "..")); [destruct stack as [|x up]; [done|apply IH]|].
  apply (IH (c :: stack)).
Qed.

Lemma length_parent_stack link :
  length (parent_stack link) = (length (split is_slash link) - 1)%nat.
Proof.
  unfold parent_stack. rewrite <-(length_rev (split is_slash link)).
  destruct (rev (split is_slash link)); simpl; lia.
Qed.

(** Names that survive normalisation. *)
Definition normal_name (p : string) : Prop :=
  validate_portable_component p = Ok tt /\
  str_any is_slash p = false /\ p <> "" /\ p <> "." /\ p <> "..".

Lemma components_normal path c :
  c ∈ components path ->
  match c with Normal p => str_any is_slash p = false /\ p <> "" /\ p <> "." /\ p <> ".."
  | _ => True end.
Proof.
  unfold components. pose proof (split_pieces is_slash path) as Hp.
  destruct (split is_slash path) as [|p ps]; [by intros ?%elem_of_nil|].
  inversion Hp as [|? ? Hp1 Hp2]; subst. clear Hp.
  assert (forall l, Forall (fun p => str_any is_slash p = false) l ->
    c ∈ omap piece_component l ->
    match c with Normal p => str_any is_slash p = false /\ p <> "" /\ p <> "." /\ p <> ".."
    | _ => True end) as Hom.
  { intros l Hl (x & Hx & Hc)%list_elem_of_omap. rewrite Forall_forall in Hl.
    apply Hl in Hx. unfold piece_component in Hc.
    repeat case_bool_decide; simplify_eq; done. }
  intros [Hc|Hc]%elem_of_app; [|by apply (Hom ps)].
  repeat case_bool_decide.
  1: by apply elem_of_nil in Hc.
  1-2: by apply list_elem_of_singleton in Hc as ->.
  apply (Hom [p]); [by constructor|done].
Qed.

Lemma normal_parts_names path comps parts :
  (forall c, c ∈ comps ->
   match c with Normal p => str_any is_slash p = false /\ p <> "" /\ p <> "." /\ p <> ".."
   | _ => True end) ->
  normal_parts path comps = Ok parts -> Forall normal_name parts.
Proof.
  revert parts. induction comps as [|c cs IH]; simpl; intros parts Hin H.
  { by injection H as <-. }
  destruct c; try done.
  - apply IH; [|done]. intros c Hc. apply Hin. by right.
  - destruct (validate_portable_component name) as [[]| |] eqn:Hv; try done.
    simpl in H. destruct (normal_parts path cs) as [ps| |]; try done.
    injection H as <-. constructor.
    + split; [done|]. apply (Hin (Normal name)). by left.
    + apply IH; [|done]. intros c Hc. apply Hin. by right.
Qed.

Lemma normal_parts_Normal path parts :
  Forall normal_name parts -> normal_parts path (Normal <$> parts) = Ok parts.
Proof.
  induction 1 as [|p ps [Hv _] Hps IH]; [done|].
  rewrite fmap_cons. cbn [normal_parts]. by rewrite Hv, IH.
Qed.

Lemma piece_component_normal p :
  normal_name p -> piece_component p = Some (Normal p).
Proof.
  intros (_ & _ & H1 & H2 & H3). unfold piece_component.
  by rewrite !bool_decide_eq_false_2.
Qed.

Lemma components_join parts :
  Forall normal_name parts -> components (join "/" parts) = Normal <$> parts.
Proof.
  intros H. destruct parts as [|p ps]; [done|]. unfold components.
  rewrite split_join; [|done|].
  2: { eapply Forall_impl; [done|]. by intros q (_ & ? & _). }
  inversion H as [|? ? Hp Hps]; subst. simpl.
  rewrite (piece_component_normal p Hp). destruct Hp as (_ & _ & H1 & H2 & _).
  rewrite !bool_decide_eq_false_2 by done. simpl. f_equal.
  clear H H1 H2. induction Hps as [|q qs Hq Hqs IH]; [done|].
  cbn. rewrite (piece_component_normal q Hq). f_equal. exact IH.
Qed.

Lemma normalize_path_inv path allow_root s :
  normalize_path path allow_root = Ok s ->
  exists parts, s = join "/" parts /\ Forall normal_name parts
    /\ (parts = [] -> allow_root = true).
Proof.
  unfold normalize_path.
  destruct (normal_parts path (components path)) as [parts| |] eqn:H; try done.
  simpl. intros Hn. exists parts.
  apply normal_parts_names in H; [|apply components_normal].
  case_bool_decide as Hj; destruct allow_root; simplify_eq/=; (split_and!; [done..|]);
    intros ->; done.
Qed.

(** C38: A path that [normalize_path] accepts comes out in canonical form: it
    is its parts joined by single slashes, every part is a portable name
    (never empty, [.] or [..], no separator), it is empty only where the root
    is allowed, and normalising it again changes nothing.  (Paths are UTF-8
    text here.) *)
Theorem normalize_path_canonical path allow_root s :
  normalize_path path allow_root = Ok s ->
  normalize_path s allow_root = Ok s
  /\ exists parts, s = join "/" parts /\ Forall normal_name parts
       /\ (parts = [] -> allow_root = true).
Proof.
  intros (parts & -> & Hp & Hr)%normalize_path_inv. split; [|by exists parts].
  unfold normalize_path.
  rewrite components_join, normal_parts_Normal by done. simpl.
  case_bool_decide as Hj; [|done]. destruct allow_root; [done|]. exfalso.
  destruct parts as [|p ps]; [by specialize (Hr eq_refl)|].
  inversion Hp as [|? ? (_ & _ & Hne & _)]; subst.
  destruct ps; simpl in Hj; [done|]. by apply app_string_empty in Hj as [-> _].
Qed.

Lemma normalize_path_canonical_witness :
  normalize_path "src//./lib.rs" false = Ok "src/lib.rs"
  /\ normalize_path "src/lib.rs" false = Ok "src/lib.rs".
Proof.
  assert (normalize_path "src//./lib.rs" false = Ok "src/lib.rs") as H
    by (vm_compute; reflexivity).
  split; [exact H|]. exact (proj1 (normalize_path_canonical _ _ _ H)).
Defined.

(** ** Portable relative targets

    Stated on the characters of the target: it has some, none of them is NUL,
    it does not begin with a separator, and it does not begin with a drive
    letter and a colon. *)
Definition drive_letter (c : ascii) : Prop :=
  (nat_of_ascii "A" <= nat_of_ascii c <= nat_of_ascii "Z")%nat \/
  (nat_of_ascii "a" <= nat_of_ascii c <= nat_of_ascii "z")%nat.

Definition portable_relative (text : string) : Prop :=
  text <> "" /\
  (forall a b, text <> a +:+ String "000" b) /\
  (forall b, text <> String "/" b) /\
  (forall b, text <> String "\" b) /\
  (forall c b, drive_letter c -> text <> String c (String ":" b)).

Lemma is_ascii_alphabetic_letter c : is_ascii_alphabetic c = true <-> drive_letter c.
Proof.
  unfold is_ascii_alphabetic, is_ascii_upper, is_ascii_lower, drive_letter.
  destruct c as [[] [] [] [] [] [] [] []]; vm_compute; split; intros H; try discriminate H; try reflexivity; try lia;
    destruct H as [[]|[]]; lia.
Qed.

Lemma str_any_eqb_elem x text :
  str_any (fun c => Ascii.eqb c x) text = false <-> forall a b, text <> a +:+ String x b.
Proof.
  split.
  - intros H a b ->. induction a as [|c a IH]; simpl in H; apply orb_false_iff in H as [H1 H2]; [|by apply IH].
    by rewrite Ascii.eqb_refl in H1.
  - induction text as [|c text IH]; [done|]. intros H. simpl. apply orb_false_iff. split.
    + apply Ascii.eqb_neq. intros ->. by apply (H "" text).
    + apply IH. intros a b ->. by apply (H (String c a) b).
Qed.

Lemma target_absolute_portable text : target_absolute text = false <-> portable_relative text.
Proof.
  unfold target_absolute, portable_relative. rewrite !orb_false_iff, bool_decide_eq_false, str_any_eqb_elem.
  destruct text as [|c [|d text]].
  - naive_solver.
  - unfold is_separator. rewrite orb_false_iff, !Ascii.eqb_neq. unfold slash, backslash. naive_solver.
  - unfold is_separator. rewrite orb_false_iff, !Ascii.eqb_neq, andb_false_iff, Ascii.eqb_neq.
    rewrite <- not_true_iff_false, is_ascii_alphabetic_letter. unfold slash, backslash.
    destruct (decide (d = ":"%char)) as [->|]; naive_solver.
Qed.

(** C39: A symlink target is accepted exactly when it is UTF-8, is not empty,
    holds no NUL, begins neither with a slash or a backslash nor with a drive
    letter and a colon, and its lexical resolution from the directory that
    holds the link, treating both slash and backslash as separators, never
    steps above the workspace root. *)
Theorem symlink_target_confined link target :
  validate_symlink_target link target = Ok tt <->
  exists text, from_utf8 target = Some text /\ portable_relative text /\
    is_Some (resolve_stack (parent_stack link) (split is_separator text)).
Proof.
  unfold validate_symlink_target.
  rewrite <-length_parent_stack.
  destruct (from_utf8 target) as [text|];
    [|split; [done|by intros (? & ? & _)]].
  rewrite walk_depth_resolve.
  destruct (target_absolute text) eqn:Ha.
  { split; [done|]. intros (t & [= <-] & Ht%target_absolute_portable & _). congruence. }
  apply target_absolute_portable in Ha.
  destruct (resolve_stack _ _) as [st|] eqn:Hr; simpl; split.
  - intros _. exists text. rewrite Hr. eauto.
  - done.
  - done.
  - intros (t & [= <-] & _ & [x Hx]). congruence.
Qed.
