(* ===== verification/ChunkStore.v ===== *)
(** The content-addressed chunk store (chunk_store.rs): append-only segment
    files, the SQLite tables that commit them, reference counts, garbage
    collection and crash recovery.

    The store is one [ChunkStore] record: the two tables, the segment files by
    segment id, the other names found in the segment directory and the
    in-memory location cache.  Host I/O is fault-free except for what the
    bytes themselves say (missing file, short read).  [put] and [gc] run under
    a [Machine] that may stop the process in any of their effects on the disk;
    the operations callers use are those under the machine that never stops.
    BLAKE3 is the parameter [blake3]. *)

From S2P Require Import Prelude Error RustStr.
From Stdlib Require Import Ascii.
#[local] Open Scope string_scope.
#[local] Open Scope list_scope.
#[local] Open Scope Z_scope.

(** Bytes are integers in [0, 256). *)
Abbreviation bytes := (list Z) (only parsing).
Abbreviation ChunkId := (list Z) (only parsing).

Definition CHUNK_SIZE : Z := 1024 * 1024.
Definition SEGMENT_TARGET_SIZE : Z := 256 * 1024 * 1024.
Definition RECORD_MAGIC : bytes := [71; 67; 87; 49].
Definition RECORD_HEADER_LEN : Z := 4 + 4 + 32.
Definition I64_MAX : Z := 2 ^ 63 - 1.

Definition zlen {A} (l : list A) : Z := Z.of_nat (length l).

(** [slice b off n]: [n] bytes of [b] from [off]. *)
Definition slice (b : bytes) (off n : Z) : bytes :=
  take (Z.to_nat n) (drop (Z.to_nat off) b).

(** [Vec::resize(n, 0)] and [File::set_len(n)]. *)
Definition resize_zero (b : bytes) (n : Z) : bytes :=
  take (Z.to_nat n) b ++ replicate (Z.to_nat n - length b) 0.

(** ** Encodings *)

Definition u32_to_le_bytes (n : Z) : bytes :=
  let n := n mod 2 ^ 32 in
  [n mod 256; n / 256 mod 256; n / 65536 mod 256; n / 16777216 mod 256].
Definition u32_from_le_bytes (b : bytes) : Z :=
  nth 0 b 0 + 256 * nth 1 b 0 + 65536 * nth 2 b 0 + 16777216 * nth 3 b 0.

Definition hex_digit (n : Z) : ascii :=
  ascii_of_N (Z.to_N (if n <? 10 then 48 + n else 87 + n)).

Fixpoint to_hex (id : ChunkId) : string :=
  match id with
  | [] => ""
  | b :: id => String (hex_digit (b / 16)) (String (hex_digit (b mod 16)) (to_hex id))
  end.

Definition hex_value (c : ascii) : option Z :=
  if is_ascii_digit c then Some (byte_val c - 48)
  else if in_range 97 102 c then Some (byte_val c - 87)
  else if in_range 65 70 c then Some (byte_val c - 55)
  else None.

(** [u8::from_str_radix(pair, 16)] on two characters: a leading [+] is
    accepted, as the standard library does. *)
Definition u8_from_hex_pair (a b : ascii) : option Z :=
  match hex_value b with
  | None => None
  | Some y =>
      if Ascii.eqb a "+"%char then Some y
      else match hex_value a with Some x => Some (16 * x + y) | None => None end
  end.

Fixpoint hex_pairs (s : string) : option ChunkId :=
  match s with
  | String a (String b s) =>
      match u8_from_hex_pair a b, hex_pairs s with
      | Some x, Some id => Some (x :: id)
      | _, _ => None
      end
  | _ => Some []
  end.

Definition from_hex (value : string) : result ChunkId :=
  if negb (str_len value =? 64) then Err (Corrupt "chunk id hex length")
  else match hex_pairs value with
       | Some id => Ok id
       | None => Err (Corrupt "chunk id is not hexadecimal")
       end.

(** ** State *)

Record ChunkRow : Type := mkChunkRow {
  segment_id : Z; payload_offset : Z; row_len : Z; refs : Z }.
Record ChunkLocation : Type := mkLocation {
  loc_segment_id : Z; loc_offset : Z; loc_len : Z }.

Record ChunkStore : Type := mkChunkStore {
  cow_segments : gmap Z Z;
  cow_chunks : gmap ChunkId ChunkRow;
  files : gmap Z bytes;
  stray : list string;
  locations : gmap ChunkId ChunkLocation }.

Abbreviation CS := (action Error ChunkStore).

Definition set_segments (m : gmap Z Z) (s : ChunkStore) : ChunkStore :=
  mkChunkStore m (cow_chunks s) (files s) (stray s) (locations s).
Definition set_chunks (m : gmap ChunkId ChunkRow) (s : ChunkStore) : ChunkStore :=
  mkChunkStore (cow_segments s) m (files s) (stray s) (locations s).
Definition set_files (m : gmap Z bytes) (s : ChunkStore) : ChunkStore :=
  mkChunkStore (cow_segments s) (cow_chunks s) m (stray s) (locations s).
Definition set_stray (l : list string) (s : ChunkStore) : ChunkStore :=
  mkChunkStore (cow_segments s) (cow_chunks s) (files s) l (locations s).
Definition set_locations (m : gmap ChunkId ChunkLocation) (s : ChunkStore) : ChunkStore :=
  mkChunkStore (cow_segments s) (cow_chunks s) (files s) (stray s) m.

Definition set_refs (n : Z) (r : ChunkRow) : ChunkRow :=
  mkChunkRow (segment_id r) (payload_offset r) (row_len r) n.
Definition row_location (r : ChunkRow) : ChunkLocation :=
  mkLocation (segment_id r) (payload_offset r) (row_len r).

(** An SQLite transaction: an unsuccessful body undoes the tables, not the
    files. *)
Definition transaction {A} (m : CS A) : CS A := fun s =>
  match m s with
  | (Ok a, s') => (Ok a, s')
  | (r, s') => (r, set_segments (cow_segments s) (set_chunks (cow_chunks s) s'))
  end.

(** [ORDER BY id DESC LIMIT 1]. *)
Definition last_segment (m : gmap Z Z) : option (Z * Z) :=
  map_fold (fun k v acc =>
    match acc with
    | Some (k', _) => if k' <? k then Some (k, v) else acc
    | None => Some (k, v)
    end) None m.

Definition record_bytes (id : ChunkId) (b : bytes) : bytes :=
  RECORD_MAGIC ++ u32_to_le_bytes (zlen b) ++ id ++ b.

Definition segment_file (s : ChunkStore) (seg : Z) : bytes :=
  default [] (files s !! seg).

(** [INSERT INTO cow_segments(id, committed_len)]. *)
Definition insert_segment (id len : Z) : CS unit :=
  let! segs := gets cow_segments in
  guard (bool_decide (segs !! id = None) && (0 <=? len)) Sql ;;;
  modify (set_segments (<[id := len]> segs)).

(** [OpenOptions::create_new]. *)
Definition new_segment_file (seg : Z) : CS unit :=
  let! fs := gets files in
  guard (bool_decide (fs !! seg = None)) (Io "AlreadyExists") ;;;
  modify (set_files (<[seg := []]> fs)).

Definition append_file (seg : Z) (b : bytes) : CS unit :=
  modify (fun s => set_files (<[seg := segment_file s seg ++ b]> (files s)) s).

(** [fs::remove_file], a missing file being tolerated. *)
Definition remove_segment_file (seg : Z) : CS unit :=
  modify (fun s => set_files (delete seg (files s)) s).

(** ** Where a process can die

    The effects of [put] and [gc] on the disk, each of which the machine may
    not survive.  A machine that stops in a step says what is left of the data that
    step could still lose: bytes by segment. *)
Inductive DiskStep : Type :=
| OpenSegment | CutTail | WriteRecord | SyncRecord | CommitRecord | CacheRecord
| CreateSegment | CopyRecord | SyncSegment | SyncDirectory | CommitMove | CacheMove
| RemoveSegment | SyncRemovals.

Definition Machine : Type := DiskStep -> ChunkStore -> option (gmap Z bytes).
Definition never : Machine := fun _ _ => None.

(** [on_disk stops step lost act]: [act], unless the process dies in [step];
    then it leaves [lost] of what the machine says.  A dead process returns
    nothing to its caller ([Panic]), and SQLite rolls an open transaction
    back. *)
Definition on_disk {A} (stops : Machine) (step : DiskStep)
    (lost : gmap Z bytes -> ChunkStore -> ChunkStore) (act : CS A) : CS A := fun s =>
  match stops step s with
  | Some data => (Panic, lost data s)
  | None => act s
  end.

(** Completed steps are on disk. *)
Definition nothing_lost (_ : gmap Z bytes) (s : ChunkStore) : ChunkStore := s.

(** Everything in a segment file after its committed bytes can be anything. *)
Definition torn_tail (seg committed : Z) (data : gmap Z bytes) (s : ChunkStore) : ChunkStore :=
  set_files (<[seg := resize_zero (segment_file s seg) committed ++ default [] (data !! seg)]>
    (files s)) s.

(** The files of the segments from [first] to [last] are still unsynced, or
    their names are: any of them may be missing or hold anything. *)
Definition torn_segments (first last : Z) (data : gmap Z bytes) (s : ChunkStore) : ChunkStore :=
  set_files (filter (fun f : Z * bytes => first <= f.1 <= last) data
    ∪ filter (fun f : Z * bytes => ~ (first <= f.1 <= last)) (files s)) s.

(** A removal that is not synced may be undone: any of the removed files may
    be there again, as it was. *)
Definition undone_removals (removed : list Z) (before : gmap Z bytes)
    (data : gmap Z bytes) (s : ChunkStore) : ChunkStore :=
  set_files (files s ∪ filter (fun f : Z * bytes => f.1 ∈ removed /\ is_Some (data !! f.1)) before) s.

Section Store.
Context (blake3 : bytes -> ChunkId).

Definition check_registered_len (id : ChunkId) (b : bytes) (row : ChunkRow)
  : CS ChunkId :=
  guard (row_len row =? zlen b) (Corrupt "conflicting chunk length") ;;; ret id.

(** The record of a chunk, written after the committed bytes of a segment and
    registered in the tables. *)
Definition write_record_under (stops : Machine) (seg committed : Z) (id : ChunkId) (b : bytes)
  : CS ChunkLocation :=
  let record_len := RECORD_HEADER_LEN + zlen b in
  on_disk stops OpenSegment nothing_lost
    (modify (fun s => set_files (<[seg := segment_file s seg]> (files s)) s)) ;;;
  on_disk stops CutTail (torn_tail seg committed)
    (modify (fun s => set_files
       (<[seg := resize_zero (segment_file s seg) committed]> (files s)) s)) ;;;
  on_disk stops WriteRecord (torn_tail seg committed) (append_file seg (record_bytes id b)) ;;;
  on_disk stops SyncRecord (torn_tail seg committed) (ret tt) ;;;
  modify (fun s => set_chunks
    (<[id := mkChunkRow seg (committed + RECORD_HEADER_LEN) (zlen b) 0]>
       (cow_chunks s)) s) ;;;
  modify (fun s => set_segments
    (<[seg := committed + record_len]> (cow_segments s)) s) ;;;
  on_disk stops CommitRecord nothing_lost (ret tt) ;;;
  ret (mkLocation seg (committed + RECORD_HEADER_LEN) (zlen b)).

(** The writer-locked half of [put], after the second lookup missed, up to its
    commit. *)
Definition append_record_under (stops : Machine) (id : ChunkId) (b : bytes) : CS ChunkLocation :=
  let! last := gets (fun s => last_segment (cow_segments s)) in
  let! (seg, committed) := ok_or last Sql in
  let record_len := RECORD_HEADER_LEN + zlen b in
  let! (seg, committed) :=
    if (0 <? committed) && (SEGMENT_TARGET_SIZE <? committed + record_len) then
      (if seg =? I64_MAX then panic else ret tt) ;;;
      insert_segment (seg + 1) 0 ;;;
      ret (seg + 1, 0)
    else ret (seg, committed) in
  write_record_under stops seg committed id b.

Definition put_under (stops : Machine) (b : bytes) (on_miss : ChunkStore -> ChunkStore)
  : CS ChunkId :=
  guard (zlen b <=? CHUNK_SIZE) (Corrupt "chunk exceeds the maximum size") ;;;
  let id := blake3 b in
  let! existing := gets (fun s => cow_chunks s !! id) in
  match existing with
  | Some row => check_registered_len id b row
  | None =>
      modify on_miss ;;;
      let! existing := gets (fun s => cow_chunks s !! id) in
      match existing with
      | Some row => check_registered_len id b row
      | None =>
          let! location := transaction (append_record_under stops id b) in
          on_disk stops CacheRecord nothing_lost
            (modify (fun s => set_locations (<[id := location]> (locations s)) s)) ;;;
          ret id
      end
  end.

Definition append_record : ChunkId -> bytes -> CS ChunkLocation := append_record_under never.
Definition put_with_miss_hook : bytes -> (ChunkStore -> ChunkStore) -> CS ChunkId :=
  put_under never.

Definition put (b : bytes) : CS ChunkId := put_with_miss_hook b id.

(** The reads of [put_stream]: full buffers, then the rest. *)
Fixpoint chunk_list (fuel : nat) (b : bytes) : list bytes :=
  match fuel with
  | O => []
  | S fuel =>
      match b with
      | [] => []
      | _ => take (Z.to_nat CHUNK_SIZE) b
             :: chunk_list fuel (drop (Z.to_nat CHUNK_SIZE) b)
      end
  end.

Definition put_stream (b : bytes) : CS (list ChunkId * Z) :=
  let! ids := mapM put (chunk_list (length b) b) in
  if bool_decide (b = []) then
    let! id := put [] in ret (ids ++ [id], 0)
  else ret (ids, zlen b).

Definition chunk_location (id : ChunkId) (force_refresh : bool)
  : CS ChunkLocation :=
  let! cached := gets (fun s => locations s !! id) in
  match (if force_refresh then None else cached) with
  | Some location => ret location
  | None =>
      let! row := gets (fun s => cow_chunks s !! id) in
      let! row := ok_or row (Corrupt "unknown chunk") in
      modify (fun s => set_locations (<[id := row_location row]> (locations s)) s) ;;;
      ret (row_location row)
  end.

Definition read_exact_at (file : bytes) (off n : Z) : result bytes :=
  if (n =? 0) || (off + n <=? zlen file) then Ok (slice file off n)
  else Err (Io "UnexpectedEof").

Definition read (id : ChunkId) : CS bytes :=
  let! location := chunk_location id false in
  let! file := gets (fun s => files s !! loc_segment_id location) in
  let! (location, file) :=
    match file with
    | Some file => ret (location, file)
    | None =>
        let! location := chunk_location id true in
        let! file := gets (fun s => files s !! loc_segment_id location) in
        let! file := ok_or file (Io "NotFound") in
        ret (location, file)
    end in
  let! b := lift (read_exact_at file (loc_offset location) (loc_len location)) in
  guard (bool_decide (blake3 b = id)) (Corrupt "chunk failed content verification") ;;;
  ret b.

(** [UPDATE cow_chunks SET refs = f refs WHERE hash = id AND p refs]. *)
Definition update_refs (id : ChunkId) (p : Z -> bool) (f : Z -> Z) (e : Error)
  : CS unit :=
  let! row := gets (fun s => cow_chunks s !! id) in
  let! row := ok_or row e in
  guard (p (refs row)) e ;;;
  modify (fun s => set_chunks
    (<[id := set_refs (f (refs row)) row]> (cow_chunks s)) s).

Definition pin (id : ChunkId) : CS unit :=
  update_refs id (fun _ => true) (fun r => r + 1) (Corrupt "cannot pin unknown chunk").

Definition unpin (id : ChunkId) : CS unit :=
  update_refs id (fun r => 0 <? r) (fun r => r - 1)
    (Corrupt "cannot unpin unknown or unreferenced chunk").

Definition adjust_refs (counts : list (ChunkId * Z)) (increment : bool) : CS unit :=
  transaction
    (forM (filter (fun c : ChunkId * Z => 0 < snd c) counts) (fun '(id, count) =>
       guard (count <=? I64_MAX) (Corrupt "chunk reference count overflow") ;;;
       if increment
       then update_refs id (fun _ => true) (fun r => r + count)
              (Corrupt "cannot adjust unknown chunk")
       else update_refs id (fun r => count <=? r) (fun r => r - count)
              (Corrupt "cannot adjust unknown or insufficiently referenced chunk"))).

Definition pin_many (counts : list (ChunkId * Z)) : CS unit := adjust_refs counts true.
Definition unpin_many (counts : list (ChunkId * Z)) : CS unit := adjust_refs counts false.

(** A [u64] cast to the [i64] of the column. *)
Definition count_as_i64 (n : Z) : Z := if n <=? I64_MAX then n else n - 2 ^ 64.

(** [UPDATE cow_chunks SET refs = ?2 WHERE hash = ?1], with the check that the
    column is not negative. *)
Definition store_count (id : ChunkId) (n : Z) : CS unit :=
  let! row := gets (fun s => cow_chunks s !! id) in
  let! row := ok_or row (Corrupt "manifest references unknown chunk") in
  guard (0 <=? count_as_i64 n) Sql ;;;
  modify (fun s => set_chunks
    (<[id := set_refs (count_as_i64 n) row]> (cow_chunks s)) s).

Definition reconcile_references (expected : gmap ChunkId Z) : CS unit :=
  transaction
    (modify (fun s => set_chunks (set_refs 0 <$> cow_chunks s) s) ;;;
     forM (map_to_list expected) (fun '(id, n) => store_count id n)).

(** ** Statistics *)

Record ChunkStoreStats : Type := mkStats {
  chunk_count : Z; referenced_chunks : Z; logical_bytes : Z; segment_bytes : Z }.

Definition sum_map {K V} `{Countable K} (f : V -> Z) (m : gmap K V) : Z :=
  map_fold (fun _ v acc => f v + acc) 0 m.

Definition stats (s : ChunkStore) : ChunkStoreStats :=
  mkStats (Z.of_nat (size (cow_chunks s)))
    (sum_map (fun r => if 0 <? refs r then 1 else 0) (cow_chunks s))
    (sum_map row_len (cow_chunks s))
    (sum_map (fun n => n) (cow_segments s)).

(** ** Integrity check of every registered record *)

Definition row_order (a b : ChunkId * ChunkRow) : Prop :=
  segment_id a.2 < segment_id b.2 \/
  (segment_id a.2 = segment_id b.2 /\ payload_offset a.2 <= payload_offset b.2).
#[export] Instance row_order_dec : RelDecision row_order.
Proof. unfold RelDecision, row_order. intros. apply _. Defined.

Definition verify_row (id : ChunkId) (row : ChunkRow) : CS unit :=
  let! file := gets (fun s => files s !! segment_id row) in
  let! file := ok_or file (Io "NotFound") in
  guard (RECORD_HEADER_LEN <=? payload_offset row)
    (Corrupt "invalid payload offset") ;;;
  let! header := lift (read_exact_at file
    (payload_offset row - RECORD_HEADER_LEN) RECORD_HEADER_LEN) in
  guard (bool_decide (slice header 0 4 = RECORD_MAGIC))
    (Corrupt "invalid record magic") ;;;
  guard ((u32_from_le_bytes (slice header 4 4) =? row_len row)
         && bool_decide (slice header 8 32 = id))
    (Corrupt "record header disagrees with metadata") ;;;
  read id ;;; ret tt.

Definition verify : CS unit :=
  let! rows := gets (fun s => merge_sort row_order (map_to_list (cow_chunks s))) in
  forM rows (fun '(id, row) => verify_row id row).

(** ** Garbage collection *)

Record ChunkGcReport : Type := mkGcReport {
  removed_chunks : Z; removed_logical_bytes : Z; retained_chunks : Z;
  segment_bytes_before : Z; segment_bytes_after : Z }.

(** Byte-wise order of hashes, for [ORDER BY hash]. *)
Fixpoint id_leb (a b : ChunkId) : bool :=
  match a, b with
  | [], _ => true
  | _ :: _, [] => false
  | x :: a, y :: b => (x <? y) || ((x =? y) && id_leb a b)
  end.
Definition hash_order (a b : ChunkId * ChunkRow) : Prop := id_leb a.1 b.1 = true.
#[export] Instance hash_order_dec : RelDecision hash_order.
Proof. unfold RelDecision, hash_order. intros. apply _. Defined.

Definition referenced_rows (s : ChunkStore) : list (ChunkId * ChunkRow) :=
  merge_sort hash_order
    (filter (fun r : ChunkId * ChunkRow => 0 < refs r.2) (map_to_list (cow_chunks s))).

Definition segment_ids (s : ChunkStore) : list Z :=
  merge_sort Z.le (map_to_list (cow_segments s)).*1.

(** Loop state: current segment, its length, all fresh segments, updates. *)
Record GcState : Type := mkGc {
  gc_segment : Z; gc_len : Z;
  gc_segments : list (Z * Z);
  gc_updates : list (ChunkId * ChunkRow) }.

(** [segments.last_mut().unwrap().1 = len]. *)
Definition set_last_len (l : list (Z * Z)) (len : Z) : list (Z * Z) :=
  match last l with
  | Some (id, _) => take (length l - 1) l ++ [(id, len)]
  | None => l
  end.

Definition gc_row_under (stops : Machine) (first : Z) (g : GcState) (r : ChunkId * ChunkRow)
  : CS GcState :=
  let '(id, row) := r in
  let! file := gets (fun s => files s !! segment_id row) in
  let! file := ok_or file (Io "NotFound") in
  let! b := lift (read_exact_at file (payload_offset row) (row_len row)) in
  guard (bool_decide (blake3 b = id)) (Corrupt "chunk failed verification during GC") ;;;
  let record_len := RECORD_HEADER_LEN + row_len row in
  let! g :=
    if (0 <? gc_len g) && (SEGMENT_TARGET_SIZE <? gc_len g + record_len) then
      on_disk stops SyncSegment (torn_segments first (gc_segment g)) (ret tt) ;;;
      (if gc_segment g =? I64_MAX then panic else ret tt) ;;;
      on_disk stops CreateSegment (torn_segments first (gc_segment g + 1))
        (new_segment_file (gc_segment g + 1)) ;;;
      ret (mkGc (gc_segment g + 1) 0
             (set_last_len (gc_segments g) (gc_len g) ++ [(gc_segment g + 1, 0)])
             (gc_updates g))
    else ret g in
  on_disk stops CopyRecord (torn_segments first (gc_segment g))
    (append_file (gc_segment g)
       (RECORD_MAGIC ++ u32_to_le_bytes (row_len row) ++ id ++ b)) ;;;
  ret (mkGc (gc_segment g) (gc_len g + record_len) (gc_segments g)
         (gc_updates g ++
            [(id, mkChunkRow (gc_segment g) (gc_len g + RECORD_HEADER_LEN)
                    (row_len row) (refs row))])).

Definition move_row (u : ChunkId * ChunkRow) : CS unit :=
  let '(id, new) := u in
  let! row := gets (fun s => cow_chunks s !! id) in
  let! row := ok_or row (Corrupt "chunk disappeared during GC") in
  modify (fun s => set_chunks
    (<[id := mkChunkRow (segment_id new) (payload_offset new) (row_len row) (refs new)]>
       (cow_chunks s)) s).

(** [DELETE FROM cow_segments WHERE id = ?]: refused by the foreign key while
    a chunk row still points at the segment. *)
Definition delete_segment (seg : Z) : CS unit :=
  let! rows := gets cow_chunks in
  guard (bool_decide (map_Forall (fun _ r => segment_id r <> seg) rows)) Sql ;;;
  modify (fun s => set_segments (delete seg (cow_segments s)) s).

(** Everything up to the commit: copy the referenced records into fresh
    segments, then switch the tables over. *)
Definition gc_transaction_under (stops : Machine)
  : CS (list Z * GcState * list (ChunkId * ChunkRow)) :=
  let! rows := gets referenced_rows in
  let! old_segments := gets segment_ids in
  let first := default 0 (last old_segments) + 1 in
  (if I64_MAX <? first then panic else ret tt) ;;;
  on_disk stops CreateSegment (torn_segments first first) (new_segment_file first) ;;;
  let! g := foldM (gc_row_under stops first) (mkGc first 0 [(first, 0)] []) rows in
  on_disk stops SyncSegment (torn_segments first (gc_segment g)) (ret tt) ;;;
  on_disk stops SyncDirectory (torn_segments first (gc_segment g)) (ret tt) ;;;
  let segments := set_last_len (gc_segments g) (gc_len g) in
  forM segments (fun '(id, len) => insert_segment id len) ;;;
  modify (fun s => set_chunks
    (filter (fun r : ChunkId * ChunkRow => refs r.2 <> 0) (cow_chunks s)) s) ;;;
  forM (gc_updates g) move_row ;;;
  forM old_segments delete_segment ;;;
  on_disk stops CommitMove nothing_lost (ret tt) ;;;
  ret (old_segments, mkGc (gc_segment g) (gc_len g) segments (gc_updates g), rows).

(** After the commit: the files of the old segments go, one by one. *)
Definition remove_segments_under (stops : Machine) (old_segments : list Z) : CS unit :=
  let! before := gets files in
  forM old_segments (fun seg =>
    on_disk stops RemoveSegment (undone_removals old_segments before)
      (remove_segment_file seg)) ;;;
  on_disk stops SyncRemovals (undone_removals old_segments before) (ret tt).

Definition gc_under (stops : Machine) : CS ChunkGcReport :=
  let! before := gets stats in
  let! (old_segments, g, rows) := transaction (gc_transaction_under stops) in
  on_disk stops CacheMove nothing_lost (modify (set_locations
    (list_to_map (reverse (prod_map id row_location <$> gc_updates g))))) ;;;
  remove_segments_under stops old_segments ;;;
  ret (mkGcReport
    (chunk_count before - zlen rows)
    (logical_bytes before
       - foldr Z.add 0 ((fun r : ChunkId * ChunkRow => row_len r.2) <$> rows))
    (zlen rows)
    (segment_bytes before)
    (foldr Z.add 0 (gc_segments g).*2)).

Definition gc : CS ChunkGcReport := gc_under never.

(** ** Opening and crash recovery *)

Fixpoint hex_fixed (digits : nat) (n : Z) : string :=
  match digits with
  | O => ""
  | S d => hex_fixed d (n / 16) +:+ String (hex_digit (n mod 16)) ""
  end.

(** [format!("{segment_id:016x}.gcws")]. *)
Definition segment_name (seg : Z) : string := hex_fixed 16 (seg mod 2 ^ 64) +:+ ".gcws".

Fixpoint parse_hex (acc : Z) (s : string) : option Z :=
  match s with
  | "" => Some acc
  | String c s =>
      match hex_value c with Some d => parse_hex (16 * acc + d) s | None => None end
  end.

Definition strip_suffix (suf s : string) : option string :=
  let k := (String.length s - String.length suf)%nat in
  if bool_decide (s = String.substring 0 k s +:+ suf)
  then Some (String.substring 0 k s) else None.

(** The segment id a directory entry stands for. *)
Definition parse_segment_name (name : string) : result Z :=
  match strip_suffix ".gcws" name with
  | None => Err (Corrupt "unexpected file in segment store")
  | Some stem =>
      if negb (str_len stem =? 16) || negb (str_all is_ascii_hexdigit stem)
      then Err (Corrupt "non-canonical segment filename")
      else match parse_hex 0 stem with
           | Some id =>
               if id <=? I64_MAX then Ok id else Err (Corrupt "invalid segment id")
           | None => Err (Corrupt "invalid segment id")
           end
  end.

(** One directory entry of the orphan scan. *)
Definition scan_stray (name : string) : CS unit :=
  let! parsed := lift (parse_segment_name name) in
  modify (fun s =>
    if bool_decide (cow_segments s !! parsed = None)
    then set_stray (filter (fun n => n <> name) (stray s)) s else s).

Definition scan_file (seg : Z) : CS unit :=
  let! parsed := lift (parse_segment_name (segment_name seg)) in
  modify (fun s =>
    if bool_decide (cow_segments s !! parsed = None)
    then set_files (delete seg (files s)) s else s).

(** Create the segment file if needed and cut the uncommitted tail. *)
Definition trim_segment (seg committed : Z) : CS unit :=
  modify (fun s => set_files (<[seg := segment_file s seg]> (files s)) s) ;;;
  let! file := gets (fun s => segment_file s seg) in
  guard (committed <=? zlen file) (Corrupt "segment is truncated") ;;;
  modify (fun s =>
    if committed <? zlen file
    then set_files (<[seg := resize_zero file committed]> (files s)) s else s).

(** [SELECT id, committed_len FROM cow_segments ORDER BY id]. *)
Definition segment_order (a b : Z * Z) : Prop := a.1 <= b.1.
#[export] Instance segment_order_dec : RelDecision segment_order.
Proof. unfold RelDecision, segment_order. intros. apply _. Defined.
Definition segment_rows (m : gmap Z Z) : list (Z * Z) := merge_sort segment_order (map_to_list m).

Definition recover_uncommitted_tails : CS unit :=
  let! segments := gets (fun s => segment_rows (cow_segments s)) in
  let! others := gets stray in
  forM others scan_stray ;;;
  let! present := gets (fun s => (map_to_list (files s)).*1) in
  forM present scan_file ;;;
  forM segments (fun '(id, committed) => trim_segment id committed).

Definition remove_orphan_segment_files : CS unit :=
  modify (fun s => set_stray
    (filter (fun n => strip_suffix ".gcws" n = None) (stray s))
    (set_files (filter (fun f : Z * bytes => is_Some (cow_segments s !! f.1)) (files s)) s)).

Definition reconcile_segments : CS unit :=
  transaction (recover_uncommitted_tails ;;; remove_orphan_segment_files).

Definition refresh_read_cache : CS unit :=
  modify (fun s => set_locations (row_location <$> cow_chunks s) s).

(** [ChunkStore::open] on what is on disk: the tables, the segment
    directory, an empty cache. *)
Definition open : CS unit :=
  modify (fun s => set_locations ∅
    (if bool_decide (cow_segments s !! 1 = None)
     then set_segments (<[1 := 0]> (cow_segments s)) s else s)) ;;;
  reconcile_segments ;;; refresh_read_cache.
End Store.
