(* ===== verification/Bytes.v ===== *)
(** Byte-list lemmas shared by the chunk store and the namespace: Z-indexed
    slices, resizing, and the little-endian and hexadecimal encodings. *)

From S2P Require Import Prelude Error RustStr ChunkStore.
From Stdlib Require Import Ascii.
#[local] Open Scope Z_scope.

Section Slices.
Context {A : Type}.
Lemma zlen_app (a b : list A) : zlen (a ++ b) = zlen a + zlen b.
Proof. unfold zlen. rewrite length_app. lia. Qed.
Lemma zlen_nonneg (a : list A) : 0 <= zlen a.
Proof. unfold zlen. lia. Qed.
Lemma zlen_nil : zlen (@nil A) = 0.
Proof. done. Qed.
Lemma zlen_cons (x : A) l : zlen (x :: l) = 1 + zlen l.
Proof. unfold zlen. simpl. lia. Qed.
Lemma zlen_zero (l : list A) : zlen l = 0 -> l = [].
Proof. destruct l; unfold zlen; simpl; [done|lia]. Qed.
Lemma zlen_take (l : list A) n : zlen (take n l) = Z.min (Z.of_nat n) (zlen l).
Proof. unfold zlen. rewrite length_take. lia. Qed.
Lemma zlen_drop (l : list A) n : zlen (drop n l) = Z.max 0 (zlen l - Z.of_nat n).
Proof. unfold zlen. rewrite length_drop. lia. Qed.
Lemma zlen_replicate (x : A) n : zlen (replicate n x) = Z.of_nat n.
Proof. unfold zlen. by rewrite length_replicate. Qed.
End Slices.

Create Rewrite HintDb zlen.
#[export] Hint Rewrite @zlen_app @zlen_nil @zlen_cons @zlen_take @zlen_drop
  @zlen_replicate : zlen.

Section Slice.
Implicit Types (a b f : list Z) (off n : Z).

Lemma zlen_slice f off n :
  0 <= off -> 0 <= n -> off + n <= zlen f -> zlen (slice f off n) = n.
Proof. intros. unfold slice. autorewrite with zlen. lia. Qed.

Lemma slice_nil_len f off : slice f off 0 = [].
Proof. done. Qed.

Lemma slice_all f : slice f 0 (zlen f) = f.
Proof. unfold slice, zlen. rewrite Nat2Z.id. by rewrite drop_0, firstn_all. Qed.

Lemma slice_app_l a b off n :
  0 <= off -> 0 <= n -> off + n <= zlen a -> slice (a ++ b) off n = slice a off n.
Proof.
  unfold slice, zlen. intros.
  rewrite drop_app_le by lia. rewrite take_app_le; [done|].
  rewrite length_drop. lia.
Qed.

Lemma slice_app_r a b off n :
  zlen a <= off -> slice (a ++ b) off n = slice b (off - zlen a) n.
Proof.
  unfold slice, zlen. intros. rewrite drop_app_ge by lia. do 2 f_equal. lia.
Qed.

Lemma slice_app_exact a b : slice (a ++ b) (zlen a) (zlen b) = b.
Proof.
  rewrite slice_app_r by lia. replace (zlen a - zlen a) with 0 by lia.
  apply slice_all.
Qed.

Lemma slice_slice f o1 n1 o2 n2 :
  0 <= o1 -> 0 <= o2 -> 0 <= n2 -> o2 + n2 <= n1 ->
  slice (slice f o1 n1) o2 n2 = slice f (o1 + o2) n2.
Proof.
  unfold slice. intros. rewrite skipn_firstn_comm, drop_drop, take_take.
  f_equal; [lia|]. f_equal. lia.
Qed.

Lemma slice_take f off n m :
  0 <= off -> 0 <= n -> off + n <= m -> slice (take (Z.to_nat m) f) off n = slice f off n.
Proof.
  unfold slice. intros. rewrite skipn_firstn_comm, take_take. f_equal. lia.
Qed.

Lemma resize_zero_take f n : n <= zlen f -> resize_zero f n = take (Z.to_nat n) f.
Proof.
  unfold resize_zero, zlen. intros.
  replace (Z.to_nat n - length f)%nat with 0%nat by lia. by rewrite app_nil_r.
Qed.

Lemma zlen_resize_zero f n : 0 <= n -> zlen (resize_zero f n) = n.
Proof. intros. unfold resize_zero. autorewrite with zlen. unfold zlen. lia. Qed.

Lemma slice_resize_zero f off n m :
  0 <= off -> 0 <= n -> off + n <= m -> m <= zlen f ->
  slice (resize_zero f m) off n = slice f off n.
Proof. intros. rewrite resize_zero_take by done. by apply slice_take. Qed.

Lemma slice_split f off n1 n2 :
  0 <= off -> 0 <= n1 -> 0 <= n2 ->
  slice f off (n1 + n2) = slice f off n1 ++ slice f (off + n1) n2.
Proof.
  unfold slice. intros.
  replace (Z.to_nat (off + n1)) with (Z.to_nat off + Z.to_nat n1)%nat by lia.
  rewrite <-drop_drop.
  rewrite <-(take_drop (Z.to_nat n1) (take (Z.to_nat (n1 + n2)) (drop (Z.to_nat off) f))).
  rewrite take_take, skipn_firstn_comm. f_equal; f_equal; lia.
Qed.
End Slice.

(** ** Encodings *)

Lemma u32_le_roundtrip n : 0 <= n < 2 ^ 32 -> u32_from_le_bytes (u32_to_le_bytes n) = n.
Proof.
  change (2 ^ 32) with 4294967296. intros H.
  unfold u32_from_le_bytes, u32_to_le_bytes. change (2 ^ 32) with 4294967296.
  rewrite (Z.mod_small n) by lia. cbn [nth].
  Z.to_euclidean_division_equations. lia.
Qed.

Lemma zlen_u32_to_le_bytes n : zlen (u32_to_le_bytes n) = 4.
Proof. done. Qed.

Lemma hex_digit_facts (d : Z) :
  0 <= d < 16 ->
  hex_value (hex_digit d) = Some d /\ is_ascii_hexdigit (hex_digit d) = true
  /\ Ascii.eqb (hex_digit d) "+" = false.
Proof.
  intros H.
  assert (d ∈ [0;1;2;3;4;5;6;7;8;9;10;11;12;13;14;15]) as Hd.
  { rewrite !elem_of_cons. lia. }
  rewrite !elem_of_cons in Hd.
  destruct_or? Hd; subst; try done. by apply elem_of_nil in Hd.
Qed.

Lemma hex_pairs_to_hex (id : list Z) :
  Forall (fun b => 0 <= b < 256) id -> hex_pairs (to_hex id) = Some id.
Proof.
  induction 1 as [|b id Hb Hid IH]; [done|]. cbn [to_hex hex_pairs].
  rewrite IH. unfold u8_from_hex_pair.
  destruct (hex_digit_facts (b / 16)) as (H1 & _ & H2);
    [Z.to_euclidean_division_equations; lia|].
  destruct (hex_digit_facts (b mod 16)) as (H3 & _ & _);
    [Z.to_euclidean_division_equations; lia|].
  rewrite H3, H2, H1. do 2 f_equal. Z.to_euclidean_division_equations. lia.
Qed.

Lemma str_len_to_hex (id : list Z) : str_len (to_hex id) = 2 * zlen id.
Proof.
  induction id as [|b id IH]; [done|]. unfold str_len, zlen in *. simpl in *. lia.
Qed.

(** ** Reading single bytes

    Positions past the end read as zero, which is what [resize_zero] fills in,
    so equality of byte strings is length plus pointwise [byte_at]. *)

Definition byte_at (f : list Z) (k : Z) : Z :=
  if k <? 0 then 0 else nth (Z.to_nat k) f 0.

Lemma byte_at_ext f g :
  zlen f = zlen g -> (forall k, 0 <= k < zlen f -> byte_at f k = byte_at g k) -> f = g.
Proof.
  unfold zlen, byte_at. intros Hl H. apply (nth_ext f g 0 0); [lia|].
  intros n Hn. specialize (H (Z.of_nat n)).
  rewrite (proj2 (Z.ltb_ge _ _)), Nat2Z.id in H by lia. apply H. lia.
Qed.

Lemma byte_at_out f k : k < 0 \/ zlen f <= k -> byte_at f k = 0.
Proof.
  unfold byte_at, zlen. intros H. destruct (k <? 0) eqn:Hk; [done|].
  apply nth_overflow. lia.
Qed.

Lemma byte_at_app f g k :
  0 <= k -> byte_at (f ++ g) k = if k <? zlen f then byte_at f k else byte_at g (k - zlen f).
Proof.
  unfold byte_at, zlen. intros Hk. rewrite (proj2 (Z.ltb_ge k 0)) by lia.
  destruct (k <? Z.of_nat (length f)) eqn:H.
  - rewrite app_nth1 by lia. done.
  - rewrite app_nth2 by lia. rewrite (proj2 (Z.ltb_ge (_ - _) 0)) by lia. f_equal. lia.
Qed.

Lemma byte_at_take f n k :
  byte_at (take n f) k = if k <? Z.of_nat n then byte_at f k else 0.
Proof.
  unfold byte_at. destruct (k <? 0) eqn:Hk; [by destruct (k <? Z.of_nat n)|].
  destruct (k <? Z.of_nat n) eqn:H.
  - rewrite nth_firstn. destruct (_ <? _)%nat eqn:E; [done|].
    apply Nat.ltb_ge in E. lia.
  - apply nth_overflow. rewrite length_take. lia.
Qed.

Lemma byte_at_drop f n k : 0 <= k -> byte_at (drop n f) k = byte_at f (Z.of_nat n + k).
Proof.
  unfold byte_at. intros Hk. rewrite !(proj2 (Z.ltb_ge _ 0)) by lia.
  rewrite nth_skipn. f_equal. lia.
Qed.

Lemma byte_at_slice f o n k :
  0 <= o -> 0 <= k -> byte_at (slice f o n) k = if k <? n then byte_at f (o + k) else 0.
Proof.
  intros Ho Hk. unfold slice. rewrite byte_at_take.
  destruct (k <? n) eqn:H.
  - rewrite (proj2 (Z.ltb_lt _ _)) by lia. rewrite byte_at_drop by done. f_equal. lia.
  - rewrite (proj2 (Z.ltb_ge _ _)) by lia. done.
Qed.

Lemma byte_at_replicate n k : byte_at (replicate n 0) k = 0.
Proof.
  unfold byte_at. destruct (k <? 0); [done|]. generalize (Z.to_nat k) as m.
  induction n as [|n IH]; intros [|m]; simpl; done.
Qed.

Lemma byte_at_resize_zero f n k :
  0 <= k -> byte_at (resize_zero f n) k = if k <? n then byte_at f k else 0.
Proof.
  intros Hk. unfold resize_zero. rewrite byte_at_app, byte_at_replicate, byte_at_take by done.
  rewrite zlen_take. destruct (k <? n) eqn:H.
  - destruct (k <? Z.min _ _) eqn:H1; [by rewrite (proj2 (Z.ltb_lt _ _)) by lia|].
    symmetry. apply byte_at_out. apply Z.ltb_ge in H1. apply Z.ltb_lt in H. lia.
  - destruct (k <? Z.min _ _) eqn:H1; [|done]. by rewrite (proj2 (Z.ltb_ge _ _)) by lia.
Qed.
