(* ===== verification/ChunkStoreFacts.v ===== *)
(** Correctness of the chunk store: the on-disk invariant, the abstract store
    it implements (hash to content and reference count), and the refinement of
    every operation, for any BLAKE3 with 32-byte digests. *)

From S2P Require Import Prelude Error RustStr ChunkStore Bytes.
#[local] Open Scope Z_scope.

(** ** Abstraction *)

Definition row_content (s : ChunkStore) (row : ChunkRow) : list Z :=
  slice (segment_file s (segment_id row)) (payload_offset row) (row_len row).

(** What the store promises: for each hash its bytes and reference count. *)
Definition abs (s : ChunkStore) : gmap (list Z) (list Z * Z) :=
  (fun row => (row_content s row, refs row)) <$> cow_chunks s.

Lemma abs_lookup s id :
  abs s !! id = (fun row => (row_content s row, refs row)) <$> (cow_chunks s !! id).
Proof. apply lookup_fmap. Qed.

(** ** Invariant *)

Section Facts.
Context (blake3 : list Z -> list Z).
Hypothesis blake3_len : forall b, zlen (blake3 b) = 32.

(** A registered row names a complete record inside the committed part of an
    existing segment file, and the payload hashes to the row's key. *)
Record row_ok (s : ChunkStore) (id : list Z) (row : ChunkRow) : Prop := {
  ro_offset : RECORD_HEADER_LEN <= payload_offset row;
  ro_len : 0 <= row_len row <= CHUNK_SIZE;
  ro_refs : 0 <= refs row;
  ro_committed : exists c, cow_segments s !! segment_id row = Some c
      /\ payload_offset row + row_len row <= c;
  ro_hash : blake3 (row_content s row) = id;
  ro_header : slice (segment_file s (segment_id row))
      (payload_offset row - RECORD_HEADER_LEN) RECORD_HEADER_LEN
    = RECORD_MAGIC ++ u32_to_le_bytes (row_len row) ++ id }.

Record wf (s : ChunkStore) : Prop := {
  wf_rows : forall id row, cow_chunks s !! id = Some row -> row_ok s id row;
  wf_segments : forall seg c, cow_segments s !! seg = Some c ->
    0 < seg <= I64_MAX /\ 0 <= c
    /\ exists f, files s !! seg = Some f /\ c <= zlen f;
  wf_nonempty : exists seg, is_Some (cow_segments s !! seg);
  wf_files : forall seg, is_Some (files s !! seg) -> is_Some (cow_segments s !! seg) }.

(** The location cache: an entry is either current or names a segment file
    that no longer exists, and never a segment still to be created. *)
Definition cache_ok (s : ChunkStore) : Prop :=
  forall id loc, locations s !! id = Some loc ->
    (is_Some (files s !! loc_segment_id loc) ->
       exists row, cow_chunks s !! id = Some row /\ row_location row = loc)
    /\ (exists seg, is_Some (cow_segments s !! seg) /\ loc_segment_id loc <= seg).

Lemma last_segment_spec (m : gmap Z Z) :
  match last_segment m with
  | Some (k, v) => m !! k = Some v /\ forall k', is_Some (m !! k') -> k' <= k
  | None => m = ∅
  end.
Proof.
  unfold last_segment. apply (map_fold_weak_ind (fun r m =>
    match r with
    | Some (k, v) => m !! k = Some v /\ forall k', is_Some (m !! k') -> k' <= k
    | None => m = ∅ end)).
  - done.
  - intros i x m' [[k v]|] Hi IH.
    + destruct IH as [Hk Hmax]. destruct (k <? i) eqn:Hlt.
      * split; [by rewrite lookup_insert_eq|].
        intros k' Hk'. destruct (decide (k' = i)) as [->|Hne]; [lia|].
        rewrite lookup_insert_ne in Hk' by done. apply Hmax in Hk'. lia.
      * assert (k <> i) by congruence.
        split; [by rewrite lookup_insert_ne|].
        intros k' Hk'. destruct (decide (k' = i)) as [->|Hne]; [lia|].
        rewrite lookup_insert_ne in Hk' by done. by apply Hmax.
    + subst. split; [by rewrite lookup_insert_eq|].
      intros k' [y Hy]. rewrite insert_empty in Hy.
      apply lookup_singleton_Some in Hy as [-> _]. lia.
Qed.

Lemma zlen_record_header id n :
  zlen id = 32 -> zlen (RECORD_MAGIC ++ u32_to_le_bytes n ++ id) = RECORD_HEADER_LEN.
Proof.
  intros H. autorewrite with zlen. rewrite zlen_u32_to_le_bytes, H. done.
Qed.

Lemma record_bytes_split id b :
  record_bytes id b = (RECORD_MAGIC ++ u32_to_le_bytes (zlen b) ++ id) ++ b.
Proof. unfold record_bytes. by rewrite <-!app_assoc. Qed.

(** Two stores that agree on the committed bytes of a row's segment. *)
Lemma row_ok_transfer s s' id row :
  row_ok s id row ->
  (exists c, cow_segments s' !! segment_id row = Some c
     /\ payload_offset row + row_len row <= c) ->
  (forall off n, 0 <= off -> 0 <= n ->
     off + n <= payload_offset row + row_len row ->
     slice (segment_file s' (segment_id row)) off n
     = slice (segment_file s (segment_id row)) off n) ->
  row_content s' row = row_content s row /\ row_ok s' id row.
Proof.
  intros [] Hc Hs. unfold RECORD_HEADER_LEN in *.
  assert (row_content s' row = row_content s row) as Heq.
  { unfold row_content. apply Hs; lia. }
  split; [done|]. split; unfold RECORD_HEADER_LEN; try done.
  - by rewrite Heq.
  - rewrite Hs; [done|lia..].
Qed.

Lemma row_ok_refs s id row n :
  0 <= n -> row_ok s id row -> row_ok s id (set_refs n row).
Proof. intros ? []. by split. Qed.

(** ** Appending a record *)

Definition written (s : ChunkStore) (seg committed : Z) (id b : list Z)
  : ChunkStore :=
  mkChunkStore
    (<[seg := committed + (RECORD_HEADER_LEN + zlen b)]> (cow_segments s))
    (<[id := mkChunkRow seg (committed + RECORD_HEADER_LEN) (zlen b) 0]> (cow_chunks s))
    (<[seg := resize_zero (segment_file s seg) committed ++ record_bytes id b]> (files s))
    (stray s) (locations s).

Lemma segment_file_insert s m seg f :
  files s = <[seg := f]> m -> segment_file s seg = f.
Proof. unfold segment_file. intros ->. by rewrite lookup_insert_eq. Qed.

Lemma written_old_row s seg committed id b id' row :
  wf s -> 0 <= committed ->
  (cow_segments s !! seg = Some committed \/ cow_segments s !! seg = None) ->
  cow_chunks s !! id' = Some row ->
  row_content (written s seg committed id b) row = row_content s row
  /\ row_ok (written s seg committed id b) id' row.
Proof.
  intros Hwf Hc Hseg Hrow. pose proof (wf_rows s Hwf _ _ Hrow) as Hok.
  pose proof (ro_committed _ _ _ Hok) as (c & Hc1 & Hc2).
  apply row_ok_transfer; [done|..]; simpl.
  - destruct (decide (segment_id row = seg)) as [Heq|Hne].
    + rewrite Heq in *. rewrite lookup_insert_eq. eexists; split; [done|].
      assert (c = committed) as -> by (destruct Hseg; congruence).
      pose proof (zlen_nonneg b). unfold RECORD_HEADER_LEN. lia.
    + rewrite lookup_insert_ne by done. eauto.
  - intros off n Hoff Hn Hle. unfold segment_file. simpl.
    destruct (decide (segment_id row = seg)) as [Heq|Hne].
    + rewrite Heq in *. rewrite lookup_insert_eq. simpl.
      destruct (wf_segments s Hwf _ _ Hc1) as (_ & _ & f & Hf & Hlen).
      assert (c = committed) as -> by (destruct Hseg; congruence).
      unfold segment_file. rewrite Hf. simpl.
      rewrite slice_app_l; [|done|done|rewrite zlen_resize_zero; lia].
      apply slice_resize_zero; lia.
    + by rewrite lookup_insert_ne.
Qed.

Lemma written_new_row s seg committed b :
  0 <= committed -> zlen b <= CHUNK_SIZE ->
  let id := blake3 b in
  let row := mkChunkRow seg (committed + RECORD_HEADER_LEN) (zlen b) 0 in
  row_content (written s seg committed id b) row = b
  /\ row_ok (written s seg committed id b) id row.
Proof.
  intros Hc Hb id row. pose proof (zlen_nonneg b).
  assert (segment_file (written s seg committed id b) seg
    = (resize_zero (segment_file s seg) committed
       ++ RECORD_MAGIC ++ u32_to_le_bytes (zlen b) ++ id) ++ b) as Hf.
  { erewrite segment_file_insert by done. rewrite record_bytes_split.
    by rewrite <-!app_assoc. }
  pose proof (zlen_record_header id (zlen b) (blake3_len b)) as Hh.
  assert (row_content (written s seg committed id b) row = b) as Heq.
  { unfold row_content, row. simpl. rewrite Hf.
    rewrite slice_app_r; rewrite zlen_app, zlen_resize_zero, Hh by done; [|lia].
    replace (_ - _) with 0 by lia. apply slice_all. }
  split; [done|]. split; simpl.
  - lia.
  - lia.
  - lia.
  - rewrite lookup_insert_eq. eexists; split; [done|]. lia.
  - by rewrite Heq.
  - rewrite Hf. rewrite <-app_assoc, slice_app_r; rewrite zlen_resize_zero by done; [|lia].
    replace (committed + RECORD_HEADER_LEN - RECORD_HEADER_LEN - committed) with 0 by lia.
    rewrite slice_app_l; rewrite ?Hh; [|done..]. rewrite <-Hh at 1. apply slice_all.
Qed.

Lemma abs_written s seg committed b :
  wf s -> 0 <= committed -> zlen b <= CHUNK_SIZE ->
  (cow_segments s !! seg = Some committed \/ cow_segments s !! seg = None) ->
  abs (written s seg committed (blake3 b) b) = <[blake3 b := (b, 0)]> (abs s).
Proof.
  intros Hwf Hc Hb Hseg. apply map_eq. intros i. rewrite abs_lookup. simpl.
  destruct (decide (i = blake3 b)) as [->|Hne].
  - rewrite !lookup_insert_eq. simpl.
    by rewrite (proj1 (written_new_row s seg committed b Hc Hb)).
  - rewrite !lookup_insert_ne by done. rewrite abs_lookup.
    destruct (cow_chunks s !! i) as [row|] eqn:Hi; [|done]. simpl.
    by rewrite (proj1 (written_old_row _ seg committed (blake3 b) b _ _ Hwf Hc Hseg Hi)).
Qed.

Lemma written_wf s seg committed b :
  wf s -> 0 <= committed -> zlen b <= CHUNK_SIZE -> 0 < seg <= I64_MAX ->
  (cow_segments s !! seg = Some committed \/ cow_segments s !! seg = None) ->
  wf (written s seg committed (blake3 b) b).
Proof.
  intros Hwf Hc Hb Hid Hseg. pose proof (zlen_nonneg b). split; simpl.
  - intros i row Hi. destruct (decide (i = blake3 b)) as [->|Hne].
    + rewrite lookup_insert_eq in Hi. injection Hi as <-. by apply written_new_row.
    + rewrite lookup_insert_ne in Hi by done. by eapply written_old_row.
  - intros k c Hk. destruct (decide (k = seg)) as [->|Hne].
    + rewrite lookup_insert_eq in Hk. injection Hk as <-. rewrite lookup_insert_eq.
      split; [done|]. split; [unfold RECORD_HEADER_LEN; lia|].
      eexists; split; [done|].
      rewrite zlen_app, zlen_resize_zero, record_bytes_split, zlen_app,
        zlen_record_header by done. lia.
    + rewrite lookup_insert_ne in Hk by done. rewrite lookup_insert_ne by done.
      by apply (wf_segments s Hwf).
  - exists seg. by rewrite lookup_insert_eq.
  - intros k Hk. destruct (decide (k = seg)) as [->|Hne].
    + by rewrite lookup_insert_eq.
    + rewrite lookup_insert_ne in Hk by done. rewrite lookup_insert_ne by done.
      by apply (wf_files s Hwf).
Qed.

Definition rolls_over (c n : Z) : bool :=
  (0 <? c) && (SEGMENT_TARGET_SIZE <? c + (RECORD_HEADER_LEN + n)).

(** Where the next record of [n] payload bytes goes. *)
Definition target_segment (s : ChunkStore) (n : Z) (seg committed : Z) : Prop :=
  exists seg0 c0, last_segment (cow_segments s) = Some (seg0, c0) /\
    if rolls_over c0 n
    then seg = seg0 + 1 /\ committed = 0 /\ seg0 < I64_MAX
    else seg = seg0 /\ committed = c0.

Lemma target_segment_exists s n :
  wf s -> (forall seg, is_Some (cow_segments s !! seg) -> seg < I64_MAX) ->
  exists seg committed, target_segment s n seg committed.
Proof.
  intros Hwf Hmax. pose proof (last_segment_spec (cow_segments s)) as Hl.
  destruct (last_segment _) as [[seg0 c0]|] eqn:Hls.
  - destruct Hl as [Hl _]. unfold target_segment. rewrite Hls.
    destruct (rolls_over c0 n) eqn:Hif.
    + exists (seg0 + 1), 0, seg0, c0. rewrite Hif. split; [done|].
      split_and!; [done..|]. by apply Hmax; rewrite Hl.
    + exists seg0, c0, seg0, c0. by rewrite Hif.
  - destruct (wf_nonempty s Hwf) as [seg Hseg]. rewrite Hl, lookup_empty in Hseg.
    by destruct Hseg.
Qed.

Lemma target_segment_facts s n seg committed :
  wf s -> target_segment s n seg committed ->
  0 <= committed /\ 0 < seg <= I64_MAX
  /\ (cow_segments s !! seg = Some committed \/ cow_segments s !! seg = None)
  /\ (forall k, is_Some (cow_segments s !! k) -> k <= seg).
Proof.
  intros Hwf (seg0 & c0 & Hl & Hif).
  pose proof (last_segment_spec (cow_segments s)) as Hs. rewrite Hl in Hs.
  destruct Hs as [Hc0 Hmax]. destruct (wf_segments s Hwf _ _ Hc0) as (Hid & Hc & _).
  destruct (rolls_over c0 n).
  - destruct Hif as (-> & -> & Hlt). split_and!; [lia..| |].
    + right. destruct (cow_segments s !! (seg0 + 1)) eqn:He; [|done].
      specialize (Hmax (seg0 + 1)). rewrite He in Hmax.
      assert (seg0 + 1 <= seg0) by (apply Hmax; eauto). lia.
    + intros k Hk. apply Hmax in Hk. lia.
  - destruct Hif as [-> ->]. split_and!; [lia..|by left|done].
Qed.

Lemma resize_zero_torn f n t :
  0 <= n -> resize_zero (resize_zero f n ++ t) n = resize_zero f n.
Proof.
  intros Hn. pose proof (zlen_resize_zero f n Hn) as Hl. unfold resize_zero at 1. unfold zlen in Hl.
  rewrite take_app_le, take_ge by lia. rewrite length_app.
  replace (Z.to_nat n - (length (resize_zero f n) + length t))%nat with 0%nat by lia. apply app_nil_r.
Qed.

(** What is in the segment file, whenever the process dies: nothing new, or
    anything after the committed bytes. *)
Definition torn_file (s d : ChunkStore) (seg committed : Z) : Prop :=
  stray d = stray s /\
  (files d = files s \/
   exists junk, files d = <[seg := resize_zero (segment_file s seg) committed ++ junk]> (files s)).

Lemma torn_tail_file f seg committed t data (s : ChunkStore) m :
  0 <= committed -> files s = <[seg := resize_zero f committed ++ t]> m ->
  files (torn_tail seg committed data s)
  = <[seg := resize_zero f committed ++ default [] (data !! seg)]> m.
Proof.
  intros Hc Hf. simpl. rewrite (segment_file_insert _ _ _ _ Hf), resize_zero_torn, Hf by done.
  by rewrite insert_insert_eq.
Qed.

Lemma write_record_cases stops s seg committed id b r d :
  0 <= committed -> write_record_under stops seg committed id b s = (r, d) ->
  (r = Ok (mkLocation seg (committed + RECORD_HEADER_LEN) (zlen b)) /\ d = written s seg committed id b)
  \/ (r = Panic /\ torn_file s d seg committed).
Proof.
  intros Hc. set (f := segment_file s seg).
  assert (forall g (m : gmap Z (list Z)), default [] ((<[seg := g]> m) !! seg) = g) as Hin
    by (intros; by rewrite lookup_insert_eq).
  unfold write_record_under, on_disk, append_file, bind, modify, ret, nothing_lost, torn_file.
  destruct (stops OpenSegment s) as [data|]; [intros [= <- <-]; right; auto|].
  set (s1 := set_files _ s). assert (segment_file s1 seg = f) as H1 by apply Hin.
  destruct (stops CutTail s1) as [data|].
  { intros [= <- <-]. right. split_and!; [done..|]. right. eexists. simpl. rewrite H1.
    by rewrite insert_insert_eq. }
  set (s2 := set_files _ s1). assert (files s2 = <[seg := resize_zero f committed ++ []]> (files s)) as H2.
  { unfold s2. simpl. rewrite H1, app_nil_r. by rewrite insert_insert_eq. }
  destruct (stops WriteRecord s2) as [data|].
  { intros [= <- <-]. right. split_and!; [done..|]. right. eexists. by eapply torn_tail_file. }
  set (s3 := set_files _ s2).
  assert (files s3 = <[seg := resize_zero f committed ++ record_bytes id b]> (files s)) as H3.
  { change (files s3) with (<[seg := segment_file s2 seg ++ record_bytes id b]> (files s2)).
    rewrite (segment_file_insert _ _ _ _ H2), app_nil_r, H2. by rewrite insert_insert_eq. }
  destruct (stops SyncRecord s3) as [data|].
  { intros [= <- <-]. right. split_and!; [done..|]. right. eexists. by eapply torn_tail_file. }
  match goal with |- context [stops CommitRecord ?x] => destruct (stops CommitRecord x) as [data|] end;
    intros [= <- <-].
  - right. split_and!; [done..|]. right. eexists. exact H3.
  - left. split; [done|]. unfold written, set_segments, set_chunks. cbn [files cow_segments cow_chunks stray locations].
    by rewrite H3.
Qed.

(** The segment that the record goes to, registered when it is a new one. *)
Lemma append_record_start stops s seg committed id b :
  wf s -> target_segment s (zlen b) seg committed ->
  exists m, append_record_under stops id b s
            = write_record_under stops seg committed id b (set_segments m s)
    /\ <[seg := committed + (RECORD_HEADER_LEN + zlen b)]> m
       = <[seg := committed + (RECORD_HEADER_LEN + zlen b)]> (cow_segments s).
Proof.
  intros Hwf (seg0 & c0 & Hl & Hif). unfold append_record_under. erewrite bind_ok by done. rewrite Hl.
  erewrite bind_ok by done. cbv beta iota zeta. fold (rolls_over c0 (zlen b)).
  destruct (rolls_over c0 (zlen b)).
  - destruct Hif as (-> & -> & Hlt). exists (<[seg0 + 1 := 0]> (cow_segments s)).
    split; [|by rewrite insert_insert_eq].
    pose proof (last_segment_spec (cow_segments s)) as Hs. rewrite Hl in Hs. destruct Hs as [_ Hmax].
    assert (cow_segments s !! (seg0 + 1) = None) as Hnone.
    { apply eq_None_not_Some. intros Hk%Hmax. lia. }
    rewrite (bind_ok _ _ s (seg0 + 1, 0) (set_segments (<[seg0 + 1 := 0]> (cow_segments s)) s)); [done|].
    rewrite (proj2 (Z.eqb_neq seg0 I64_MAX)) by lia. erewrite bind_ok by done.
    unfold insert_segment, bind, gets, guard, modify, ret. by rewrite bool_decide_eq_true_2.
  - destruct Hif as [-> ->]. exists (cow_segments s). split; [|done]. erewrite bind_ok by done. by destruct s.
Qed.

Lemma append_record_run s seg committed id b :
  wf s -> target_segment s (zlen b) seg committed ->
  append_record id b s
  = (Ok (mkLocation seg (committed + RECORD_HEADER_LEN) (zlen b)),
     written s seg committed id b).
Proof.
  intros Hwf Ht. pose proof (target_segment_facts _ _ _ _ Hwf Ht) as (Hc & _).
  destruct (append_record_start never s seg committed id b Hwf Ht) as (m & Hrun & Hm).
  unfold append_record. rewrite Hrun.
  destruct (write_record_under never seg committed id b (set_segments m s)) as [r d] eqn:Hw.
  assert (r <> Panic) as Hne by (unfold write_record_under, append_file in Hw; intros ->; done).
  apply write_record_cases in Hw as [[-> ->]|[? _]]; [|done|done]. f_equal. unfold written. simpl. by rewrite Hm.
Qed.

(** ** Reading *)

Definition inv (s : ChunkStore) : Prop := wf s /\ cache_ok s.

Lemma wf_set_locations m s : wf s -> wf (set_locations m s).
Proof.
  intros []. split; simpl; try done. intros id row H.
  by destruct (wf_rows0 id row H).
Qed.

Lemma abs_set_locations m s : abs (set_locations m s) = abs s.
Proof. done. Qed.

Lemma cache_ok_insert s id row :
  wf s -> cache_ok s -> cow_chunks s !! id = Some row ->
  cache_ok (set_locations (<[id := row_location row]> (locations s)) s).
Proof.
  intros Hwf Hc Hrow i loc. simpl. destruct (decide (i = id)) as [->|Hne].
  - rewrite lookup_insert_eq. intros [= <-]. split; [eauto|].
    destruct (ro_committed _ _ _ (wf_rows s Hwf _ _ Hrow)) as (c & Hc1 & _).
    exists (segment_id row). rewrite Hc1. split; [by eexists|simpl; lia].
  - rewrite lookup_insert_ne by done. apply Hc.
Qed.

(** A registered row's payload can be read back and verifies. *)
Lemma row_readable s id row :
  wf s -> cow_chunks s !! id = Some row ->
  exists f, files s !! segment_id row = Some f
    /\ read_exact_at f (payload_offset row) (row_len row) = Ok (row_content s row)
    /\ blake3 (row_content s row) = id.
Proof.
  intros Hwf Hrow. pose proof (wf_rows s Hwf _ _ Hrow) as [].
  destruct ro_committed0 as (c & Hc1 & Hc2).
  destruct (wf_segments s Hwf _ _ Hc1) as (_ & _ & f & Hf & Hle).
  exists f. split; [done|]. split; [|done].
  unfold read_exact_at, row_content, segment_file. rewrite Hf. simpl.
  rewrite (proj2 (Z.leb_le _ _)) by lia. by rewrite orb_true_r.
Qed.

Lemma chunk_location_run s id force row :
  inv s -> cow_chunks s !! id = Some row ->
  (force = true \/ locations s !! id = None) ->
  chunk_location id force s
  = (Ok (row_location row),
     set_locations (<[id := row_location row]> (locations s)) s).
Proof.
  intros Hi Hrow Hf. unfold chunk_location, bind, gets, ok_or, modify, ret.
  destruct Hf as [->|Hn]; [|rewrite Hn; destruct force]; by rewrite Hrow.
Qed.

Lemma read_registered s id row :
  inv s -> cow_chunks s !! id = Some row ->
  exists m, read blake3 id s = (Ok (row_content s row), set_locations m s)
    /\ inv (set_locations m s).
Proof.
  intros [Hwf Hc] Hrow.
  destruct (row_readable s id row Hwf Hrow) as (f & Hf & Hr & Hh).
  assert (forall s', wf s' -> cow_chunks s' !! id = Some row ->
    cache_ok s' -> inv (set_locations (<[id := row_location row]> (locations s')) s'))
    as Hins.
  { intros s' ? ? ?. split; [by apply wf_set_locations|by apply cache_ok_insert]. }
  unfold read, bind, lift, gets, ok_or, guard, ret.
  destruct (locations s !! id) as [loc|] eqn:Hl.
  - assert (chunk_location id false s = (Ok loc, s)) as ->.
    { unfold chunk_location, bind, gets. simpl. by rewrite Hl. }
    destruct (files s !! loc_segment_id loc) as [f'|] eqn:Hf'.
    + destruct (Hc _ _ Hl) as [Hrow' _].
      destruct Hrow' as (row' & Hrow' & <-); [by rewrite Hf'|].
      rewrite Hrow in Hrow'. injection Hrow' as <-. simpl in *.
      rewrite Hf in Hf'. injection Hf' as <-. rewrite Hr. cbn.
      rewrite bool_decide_eq_true_2 by done.
      exists (locations s). destruct s; simpl in *. done.
    + rewrite (chunk_location_run s id true row) by (done || by left).
      simpl. rewrite Hf. simpl. rewrite Hr. cbn.
      rewrite bool_decide_eq_true_2 by done. eauto.
  - rewrite (chunk_location_run s id false row) by (done || by right).
    simpl. rewrite Hf. simpl. rewrite Hr. cbn.
    rewrite bool_decide_eq_true_2 by done. eauto.
Qed.

Lemma read_unregistered s id :
  inv s -> cow_chunks s !! id = None ->
  read blake3 id s = (Err (Corrupt "unknown chunk"), s).
Proof.
  intros [Hwf Hc] Hrow.
  assert (forall force, (force = true \/ locations s !! id = None) ->
    chunk_location id force s = (Err (Corrupt "unknown chunk"), s)) as Hmiss.
  { intros force Hf. unfold chunk_location, bind, gets, ok_or.
    destruct Hf as [->|Hn]; [|rewrite Hn; destruct force]; by rewrite Hrow. }
  unfold read, bind, gets, ok_or, ret.
  destruct (locations s !! id) as [loc|] eqn:Hl; [|by rewrite Hmiss by by right].
  assert (chunk_location id false s = (Ok loc, s)) as ->.
  { unfold chunk_location, bind, gets. simpl. by rewrite Hl. }
  destruct (files s !! loc_segment_id loc) as [f|] eqn:Hf.
  - destruct (Hc _ _ Hl) as [H _].
    destruct H as (row & Hrow' & _); [by rewrite Hf|]. congruence.
  - by rewrite Hmiss by by left.
Qed.

(** ** Registering content *)

Lemma cache_ok_written s seg committed b n :
  wf s -> cache_ok s -> target_segment s n seg committed ->
  cow_chunks s !! blake3 b = None ->
  cache_ok (written s seg committed (blake3 b) b).
Proof.
  intros Hwf Hc Ht Hnone i loc Hl. simpl in *.
  destruct (target_segment_facts _ _ _ _ Hwf Ht) as (_ & _ & Hseg & Hmax).
  destruct (Hc _ _ Hl) as [Hrow (k & Hk & Hle)]. split.
  - intros Hf. assert (is_Some (files s !! loc_segment_id loc)) as Hf'.
    { destruct (decide (loc_segment_id loc = seg)) as [Heq|Hne].
      - destruct Hseg as [Hseg|Hseg].
        + destruct (wf_segments s Hwf _ _ Hseg) as (_ & _ & f & Hf' & _).
          rewrite Heq, Hf'. eauto.
        + apply Hmax in Hk as Hk'. assert (k = seg) as -> by lia.
          rewrite Hseg in Hk. by destruct Hk.
      - by rewrite lookup_insert_ne in Hf by done. }
    destruct (Hrow Hf') as (row & Hr & <-). exists row. split; [|done].
    rewrite lookup_insert_ne; [done|]. congruence.
  - exists k. split; [|done]. destruct (decide (k = seg)) as [->|Hne].
    + by rewrite lookup_insert_eq.
    + by rewrite lookup_insert_ne.
Qed.

Definition abs_put (id b : list Z) (m : gmap (list Z) (list Z * Z)) :=
  match m !! id with Some _ => m | None => <[id := (b, 0)]> m end.

(** Collision freedom, as far as [b] is concerned. *)
Definition no_collision (b : list Z) : Prop :=
  forall b', blake3 b' = blake3 b -> b' = b.

Lemma registered_len s b row :
  wf s -> no_collision b -> cow_chunks s !! blake3 b = Some row ->
  row_content s row = b /\ row_len row = zlen b.
Proof.
  intros Hwf Hcoll Hrow. pose proof (wf_rows s Hwf _ _ Hrow) as [].
  assert (row_content s row = b) as Heq by (by apply Hcoll).
  split; [done|]. rewrite <-Heq. unfold row_content.
  destruct ro_committed0 as (c & Hc1 & Hc2).
  destruct (wf_segments s Hwf _ _ Hc1) as (_ & _ & f & Hf & Hle).
  unfold segment_file. rewrite Hf. simpl. unfold RECORD_HEADER_LEN in *.
  symmetry. apply zlen_slice; lia.
Qed.

Definition room (s : ChunkStore) : Prop :=
  forall seg, is_Some (cow_segments s !! seg) -> seg < I64_MAX.

(** At most one segment was opened. *)
Definition segment_growth (s s' : ChunkStore) : Prop :=
  forall k, is_Some (cow_segments s' !! k) ->
    exists k0, is_Some (cow_segments s !! k0) /\ k <= k0 + 1.

Lemma segment_growth_refl s : segment_growth s s.
Proof. intros k Hk. exists k. split; [done|lia]. Qed.

Lemma written_growth s seg committed id b :
  target_segment s (zlen b) seg committed ->
  segment_growth s (written s seg committed id b).
Proof.
  intros (seg0 & c0 & Hl & Hif) k Hk. simpl in Hk.
  pose proof (last_segment_spec (cow_segments s)) as Hs. rewrite Hl in Hs.
  destruct (decide (k = seg)) as [->|Hne].
  - exists seg0. split; [destruct Hs as [-> _]; eauto|].
    destruct (rolls_over c0 (zlen b)); lia.
  - rewrite lookup_insert_ne in Hk by done. exists k. split; [done|lia].
Qed.

Lemma put_append_target s b seg com :
  inv s -> target_segment s (zlen b) seg com -> zlen b <= CHUNK_SIZE ->
  cow_chunks s !! blake3 b = None ->
  exists loc s',
    transaction (append_record (blake3 b) b) s = (Ok loc, s') /\
    inv (set_locations (<[blake3 b := loc]> (locations s')) s') /\
    abs s' = <[blake3 b := (b, 0)]> (abs s) /\ segment_growth s s'.
Proof.
  intros [Hwf Hc] Ht Hb Hnone.
  destruct (target_segment_facts _ _ _ _ Hwf Ht) as (H1 & H2 & H3 & _).
  eexists _, (written s seg com (blake3 b) b). split.
  { unfold transaction. by rewrite (append_record_run s seg com). }
  pose proof (written_wf s seg com b Hwf H1 Hb H2 H3).
  split; [|by split; [apply abs_written|apply written_growth]].
  split; [by apply wf_set_locations|].
  apply (cache_ok_insert _ _ (mkChunkRow seg (com + RECORD_HEADER_LEN) (zlen b) 0)).
  - done.
  - by eapply cache_ok_written.
  - simpl. by rewrite lookup_insert_eq.
Qed.

Lemma put_append s b :
  inv s -> room s -> zlen b <= CHUNK_SIZE -> cow_chunks s !! blake3 b = None ->
  exists loc s',
    transaction (append_record (blake3 b) b) s = (Ok loc, s') /\
    inv (set_locations (<[blake3 b := loc]> (locations s')) s') /\
    abs s' = <[blake3 b := (b, 0)]> (abs s) /\ segment_growth s s'.
Proof.
  intros Hi Hroom Hb Hnone.
  destruct (target_segment_exists s (zlen b) (proj1 Hi) Hroom) as (seg & com & Ht).
  by eapply put_append_target.
Qed.

(** Without room the segment counter overflows, before anything is written. *)
Lemma append_record_cases s id b :
  wf s ->
  (exists seg com, target_segment s (zlen b) seg com)
  \/ forall stops, append_record_under stops id b s = (Panic, s).
Proof.
  intros Hwf. pose proof (last_segment_spec (cow_segments s)) as Hl.
  unfold target_segment, append_record_under, bind, gets, ok_or, ret.
  destruct (last_segment (cow_segments s)) as [[seg0 c0]|].
  - destruct Hl as [Hc0 _]. destruct (wf_segments s Hwf _ _ Hc0) as [Hid _].
    fold (rolls_over c0 (zlen b)). destruct (rolls_over c0 (zlen b)) eqn:Hro.
    + destruct (decide (seg0 = I64_MAX)) as [->|Hne].
      * right. by rewrite Z.eqb_refl.
      * left. exists (seg0 + 1), 0, seg0, c0. rewrite Hro. split_and!; [done..|lia].
    + left. exists seg0, c0, seg0, c0. by rewrite Hro.
  - destruct (wf_nonempty s Hwf) as [seg Hseg]. rewrite Hl, lookup_empty in Hseg.
    by destruct Hseg.
Qed.

(** [put], with any interference between its optimistic lookup and its
    writer transaction. *)
Lemma put_hook_spec s b on_miss :
  inv s -> inv (on_miss s) -> room (on_miss s) ->
  zlen b <= CHUNK_SIZE -> no_collision b ->
  let s0 := if cow_chunks s !! blake3 b is Some _ then s else on_miss s in
  exists s', put_with_miss_hook blake3 b on_miss s = (Ok (blake3 b), s')
    /\ inv s' /\ abs s' = abs_put (blake3 b) b (abs s0) /\ segment_growth s0 s'.
Proof.
  intros Hi Hi' Hroom Hb Hcoll s0.
  unfold put_with_miss_hook, put_under, on_disk, bind, gets, guard, modify, ret, check_registered_len.
  change (append_record_under never) with append_record. rewrite (proj2 (Z.leb_le _ _)) by done. cbn. unfold s0, abs_put.
  destruct (cow_chunks s !! blake3 b) as [row|] eqn:Hrow.
  - destruct (registered_len s b row) as [_ ->]; [by destruct Hi|done..|].
    rewrite Z.eqb_refl. exists s. split_and!; [done..| |apply segment_growth_refl].
    rewrite abs_lookup, Hrow. done.
  - rewrite abs_lookup.
    destruct (cow_chunks (on_miss s) !! blake3 b) as [row|] eqn:Hrow'; simpl.
    + destruct (registered_len (on_miss s) b row) as [_ Hl]; [by destruct Hi'|done..|].
      rewrite Hl, Z.eqb_refl. exists (on_miss s).
      split_and!; [done..|apply segment_growth_refl].
    + destruct (put_append (on_miss s) b Hi' Hroom Hb Hrow') as (loc & s' & Hr & Hinv & Ha & Hg).
      cbn. rewrite Hr. eexists. split; [done|]. split; [done|]. done.
Qed.

(** [put] on every exit: the invariant survives, nothing that was stored
    changes, and on success the content, unless its digest collides, is
    stored under the returned id. *)
Lemma put_any s b r s' :
  inv s -> put blake3 b s = (r, s') ->
  inv s' /\ (abs s' = abs s \/ abs s' = abs_put (blake3 b) b (abs s))
  /\ (no_collision b -> forall id, r = Ok id -> id = blake3 b /\ exists n, abs s' !! id = Some (b, n)).
Proof.
  intros Hi. pose proof Hi as [Hwf _].
  unfold put, put_with_miss_hook, put_under, on_disk, bind, gets, guard, modify, ret, throw,
    check_registered_len.
  change (append_record_under never) with append_record.
  destruct (zlen b <=? CHUNK_SIZE) eqn:Hb; cbn; [|intros [= <- <-]; naive_solver].
  destruct (cow_chunks s !! blake3 b) as [row|] eqn:Hrow; cbn.
  - assert (no_collision b -> exists n, abs s !! blake3 b = Some (b, n)) as Hst.
    { intros Hcoll. destruct (registered_len s b row) as [Hct _]; [done..|].
      rewrite abs_lookup, Hrow. simpl. rewrite Hct. eauto. }
    destruct (row_len row =? zlen b); intros [= <- <-]; (split_and!; [done|by left|]);
      intros Hcoll id [= <-]. split; [done|]. by apply Hst.
  - unfold Datatypes.id. rewrite Hrow.
    destruct (append_record_cases s (blake3 b) b Hwf) as [(seg & com & Ht)|Hp].
    + destruct (put_append_target s b seg com) as (loc & s1 & -> & Hinv & Ha & _);
        [done..|lia|done|]. intros [= <- <-]. rewrite abs_set_locations, Ha.
      split; [done|]. split; [right|].
      * unfold abs_put. by rewrite abs_lookup, Hrow.
      * intros _ id [= <-]. split; [done|]. rewrite lookup_insert_eq. eauto.
    + unfold transaction, append_record. rewrite Hp. intros [= <- <-].
      assert (set_segments (cow_segments s) (set_chunks (cow_chunks s) s) = s) as ->
        by by destruct s.
      split_and!; [done|by left|done].
Qed.

(** ** Reference counts *)

Definition with_refs (s : ChunkStore) (id : list Z) (row : ChunkRow) (n : Z) : ChunkStore :=
  set_chunks (<[id := set_refs n row]> (cow_chunks s)) s.

Lemma update_refs_run s id p f e row :
  cow_chunks s !! id = Some row -> p (refs row) = true ->
  update_refs id p f e s = (Ok tt, with_refs s id row (f (refs row))).
Proof.
  intros Hrow Hp. unfold update_refs, bind, gets, ok_or, ret, guard, modify.
  rewrite Hrow. cbn. by rewrite Hp.
Qed.

Lemma update_refs_inv s id p f e u s' :
  update_refs id p f e s = (Ok u, s') ->
  exists row, cow_chunks s !! id = Some row /\ p (refs row) = true
    /\ s' = with_refs s id row (f (refs row)).
Proof.
  intros H. unfold update_refs in H. run_inv. eauto.
Qed.

Lemma update_refs_err s id p f e :
  (forall row, cow_chunks s !! id = Some row -> p (refs row) = false) ->
  update_refs id p f e s = (Err e, s).
Proof.
  intros Hp. unfold update_refs, bind, gets, ok_or, ret, guard.
  destruct (cow_chunks s !! id) as [row|] eqn:Hrow; [|done]. cbn.
  by rewrite (Hp row).
Qed.

Lemma inv_with_refs s id row n :
  inv s -> cow_chunks s !! id = Some row -> 0 <= n -> inv (with_refs s id row n).
Proof.
  intros [[] Hc] Hrow Hn. split; [split; simpl; try done|].
  - intros i r. destruct (decide (i = id)) as [->|Hne].
    + rewrite lookup_insert_eq. intros [= <-]. apply row_ok_refs; [done|].
      by destruct (wf_rows0 id row Hrow).
    + rewrite lookup_insert_ne by done. intros Hi. by destruct (wf_rows0 i r Hi).
  - intros i loc Hl. simpl in *. destruct (Hc _ _ Hl) as [Hrow' Hk]. split; [|done].
    intros Hf. destruct (Hrow' Hf) as (r & Hr & Hloc).
    destruct (decide (i = id)) as [->|Hne].
    + exists (set_refs n row). rewrite lookup_insert_eq. split; [done|].
      rewrite Hrow in Hr. by injection Hr as <-.
    + exists r. by rewrite lookup_insert_ne.
Qed.

Lemma abs_with_refs s id row n :
  cow_chunks s !! id = Some row ->
  abs (with_refs s id row n) = <[id := (row_content s row, n)]> (abs s).
Proof.
  intros Hrow. unfold abs, with_refs, set_chunks. simpl. by rewrite fmap_insert.
Qed.

Lemma with_refs_undo s id row n :
  cow_chunks s !! id = Some row ->
  with_refs (with_refs s id row n) id (set_refs n row) (refs row) = s.
Proof.
  intros Hrow. destruct s as [segs rows fs st lo]; simpl in *.
  unfold with_refs, set_chunks. simpl. f_equal. rewrite insert_insert_eq.
  apply insert_id. by destruct row.
Qed.

(** Total adjustment requested for one hash. *)
Fixpoint count_of (id : list Z) (counts : list (list Z * Z)) : Z :=
  match counts with
  | [] => 0
  | (i, n) :: l => (if bool_decide (i = id) then n else 0) + count_of id l
  end.

Lemma transaction_ok {A} (m : CS A) s a s' :
  transaction m s = (Ok a, s') <-> m s = (Ok a, s').
Proof. unfold transaction. destruct (m s) as [[]]; split; congruence. Qed.

(** The rows after a successful adjustment loop. *)
Lemma adjust_loop_ok l sgn p f e s u s' :
  (forall count r, f count r = r + sgn * count) ->
  forM l (fun '(id, count) =>
    guard (count <=? I64_MAX) (Corrupt "chunk reference count overflow") ;;;
    update_refs id (p count) (f count) (e : Error)) s = (Ok u, s') ->
  s' = set_chunks (map_imap (fun id row =>
         Some (set_refs (refs row + sgn * count_of id l) row)) (cow_chunks s)) s.
Proof.
  intros Hf. revert s.
  induction l as [|[id n] l IH]; intros s H; unfold forM in *; simpl in H.
  - injection H as _ <-. destruct s; simpl. unfold set_chunks. simpl. f_equal.
    apply map_eq. intros i. rewrite map_lookup_imap.
    destruct (_ !! i) as [[]|]; [|done]. simpl. unfold set_refs. simpl.
    do 2 f_equal. lia.
  - run_inv. apply update_refs_inv in H0 as (row & Hrow & _ & ->).
    apply IH in H. rewrite H, Hf. unfold set_chunks, with_refs. simpl. f_equal.
    apply map_eq. intros i. rewrite !map_lookup_imap.
    destruct (decide (i = id)) as [->|Hne].
    + rewrite lookup_insert_eq, Hrow. simpl.
      rewrite bool_decide_eq_true_2 by done. unfold set_refs. simpl. do 2 f_equal. ring.
    + rewrite lookup_insert_ne by done. destruct (cow_chunks s !! i); [|done]. simpl.
      by rewrite bool_decide_eq_false_2.
Qed.

(** Bodies that only touch the tables. *)
Definition same_disk (s s' : ChunkStore) : Prop :=
  files s' = files s /\ stray s' = stray s /\ locations s' = locations s.
#[local] Instance same_disk_preorder : PreOrder same_disk.
Proof.
  split; [done|]. intros s1 s2 s3 (? & ? & ?) (? & ? & ?). unfold same_disk. split_and!; congruence.
Qed.

Lemma transaction_rollback {A} (m : CS A) s r s' :
  keeps same_disk m -> transaction m s = (r, s') -> is_ok r = false -> s' = s.
Proof.
  intros Hm. unfold transaction. specialize (Hm s).
  destruct (m s) as [[a|e|] s1]; intros [= <- <-] Hr; [done|..];
    destruct (Hm _ _ eq_refl) as (H1 & H2 & H3);
    destruct s, s1; simpl in *; subst; done.
Qed.

Lemma update_refs_same_disk id p f e : keeps same_disk (update_refs id p f e).
Proof.
  apply keeps_bind; [apply _|apply keeps_gets; apply _|]. intros row.
  apply keeps_bind; [apply _|apply keeps_ok_or; apply _|]. intros r.
  apply keeps_bind; [apply _|apply keeps_guard; apply _|]. intros _.
  by apply keeps_modify.
Qed.

Lemma adjust_refs_same_disk counts incr :
  keeps same_disk (forM (filter (fun c : list Z * Z => 0 < snd c) counts)
    (fun '(id, count) =>
       guard (count <=? I64_MAX) (Corrupt "chunk reference count overflow") ;;;
       if incr : bool
       then update_refs id (fun _ => true) (fun r => r + count)
              (Corrupt "cannot adjust unknown chunk")
       else update_refs id (fun r => count <=? r) (fun r => r - count)
              (Corrupt "cannot adjust unknown or insufficiently referenced chunk"))).
Proof.
  apply keeps_forM; [apply _|]. intros [id n].
  apply keeps_bind; [apply _|apply keeps_guard; apply _|]. intros _.
  destruct incr; apply update_refs_same_disk.
Qed.

Definition positive_counts (counts : list (list Z * Z)) : list (list Z * Z) :=
  filter (fun c : list Z * Z => 0 < snd c) counts.

(** [pin_many] and [unpin_many] apply every requested count or none. *)
Lemma adjust_refs_spec counts incr s r s' :
  adjust_refs counts incr s = (r, s') ->
  match r with
  | Ok _ => s' = set_chunks (map_imap (fun id row => Some (set_refs
      (refs row + (if incr then 1 else -1) * count_of id (positive_counts counts)) row))
      (cow_chunks s)) s
  | _ => s' = s
  end.
Proof.
  intros H. pose proof (adjust_refs_same_disk counts incr) as Hk.
  destruct r as [u|e|]; [|by eapply transaction_rollback..].
  unfold adjust_refs in H. rewrite transaction_ok in H. destruct incr.
  - by eapply (adjust_loop_ok _ 1 (fun _ _ => true) (fun c r => r + c)) in H; [|lia].
  - by eapply (adjust_loop_ok _ (-1) (fun c r => c <=? r) (fun c r => r - c)) in H; [|lia].
Qed.

Lemma preserves_update_refs id p f e :
  (forall r, 0 <= r -> p r = true -> 0 <= f r) ->
  preserves inv (update_refs id p f e).
Proof.
  intros Hf s r s' Hi Hr. destruct (cow_chunks s !! id) as [row|] eqn:Hrow.
  - destruct (p (refs row)) eqn:Hp.
    + rewrite (update_refs_run s id p f e row) in Hr by done. injection Hr as _ <-.
      apply inv_with_refs; [done..|]. apply Hf; [|done].
      apply (ro_refs _ _ _ (wf_rows _ (proj1 Hi) _ _ Hrow)).
    + rewrite update_refs_err in Hr; [by injection Hr as _ <-|]. congruence.
  - rewrite update_refs_err in Hr; [by injection Hr as _ <-|]. congruence.
Qed.

Lemma adjust_refs_inv counts incr s r s' :
  inv s -> adjust_refs counts incr s = (r, s') -> inv s'.
Proof.
  intros Hi H. destruct r as [u|e|]; [|by apply adjust_refs_spec in H as ->..].
  unfold adjust_refs in H. rewrite transaction_ok in H. revert H. revert Hi.
  revert s u s'. refine (fun s u s' Hi H => _).
  eapply (preserves_forM_in inv); [|exact Hi|exact H].
  intros [id n] [Hn _]%list_elem_of_filter. simpl in Hn.
  apply preserves_bind.
  { apply preserves_pure. intros s1. unfold guard. destruct (_ <=? _); by eexists. }
  intros _. destruct incr; apply preserves_update_refs; intros; lia.
Qed.

(** ** Rebuilding the counters from the manifests *)

Definition rebuilt (expected : gmap (list Z) Z) (s : ChunkStore) : ChunkStore :=
  set_chunks (map_imap (fun id row => Some (set_refs (default 0 (expected !! id)) row))
                (cow_chunks s)) s.

Lemma store_count_run s id row n :
  cow_chunks s !! id = Some row -> 0 <= n <= I64_MAX ->
  store_count id n s = (Ok tt, with_refs s id row n).
Proof.
  intros Hrow Hn. unfold store_count, bind, gets, ok_or, ret, guard, modify. rewrite Hrow. cbn.
  unfold count_as_i64. rewrite (proj2 (Z.leb_le n I64_MAX)) by lia.
  by rewrite (proj2 (Z.leb_le 0 n)) by lia.
Qed.

Lemma store_count_same_disk id n : keeps same_disk (store_count id n).
Proof.
  apply keeps_bind; [apply _|apply keeps_gets; apply _|]. intros row.
  apply keeps_bind; [apply _|apply keeps_ok_or; apply _|]. intros r.
  apply keeps_bind; [apply _|apply keeps_guard; apply _|]. intros _.
  by apply keeps_modify.
Qed.

Lemma set_loop_run l s :
  NoDup l.*1 -> (forall id n, (id, n) ∈ l -> 0 <= n <= I64_MAX) ->
  (forall id, id ∈ l.*1 -> is_Some (cow_chunks s !! id)) ->
  forM l (fun '(id, n) => store_count id n) s
  = (Ok tt, set_chunks (map_imap (fun id row =>
       Some (set_refs (default (refs row) ((list_to_map l : gmap (list Z) Z) !! id)) row))
       (cow_chunks s)) s).
Proof.
  revert s. induction l as [|[id n] l IH]; intros s Hnd Hran Hin; unfold forM in *; simpl.
  - unfold ret. do 2 f_equal. destruct s; unfold set_chunks; simpl. f_equal.
    apply map_eq. intros i. rewrite map_lookup_imap.
    destruct (_ !! i) as [[]|]; [|done]. simpl. by rewrite lookup_empty.
  - inversion Hnd as [|? ? Hnin Hnd']; subst.
    destruct (Hin id) as [row Hrow]; [by left|].
    erewrite bind_ok by (apply (store_count_run s id row n); [done|]; apply (Hran id n); by left).
    rewrite IH; [|done|intros i m Hi; apply (Hran i m); by right|].
    + unfold with_refs, set_chunks. simpl. do 2 f_equal.
      apply map_eq. intros i. rewrite !map_lookup_imap.
      destruct (decide (i = id)) as [->|Hne].
      * rewrite !lookup_insert_eq, Hrow. simpl.
        by rewrite not_elem_of_list_to_map_1.
      * by rewrite !lookup_insert_ne.
    + intros i Hi. simpl. destruct (decide (i = id)) as [->|Hne].
      * by rewrite lookup_insert_eq.
      * rewrite lookup_insert_ne by done. apply Hin. by right.
Qed.

Lemma reconcile_references_run expected s :
  (forall id n, expected !! id = Some n -> 0 <= n <= I64_MAX) ->
  (forall id, is_Some (expected !! id) -> is_Some (cow_chunks s !! id)) ->
  reconcile_references expected s = (Ok tt, rebuilt expected s).
Proof.
  intros Hran Hin. unfold reconcile_references, transaction.
  erewrite bind_ok by done. rewrite set_loop_run.
  - unfold rebuilt, set_chunks. simpl. do 2 f_equal.
    apply map_eq. intros i. rewrite !map_lookup_imap, lookup_fmap, list_to_map_to_list.
    by destruct (cow_chunks s !! i).
  - apply NoDup_fst_map_to_list.
  - intros id n Hx%elem_of_map_to_list. by apply (Hran id).
  - intros id (x & -> & Hx)%list_elem_of_fmap. simpl.
    rewrite lookup_fmap. apply fmap_is_Some, Hin. destruct x as [i n].
    apply elem_of_map_to_list in Hx. simpl. by rewrite Hx.
Qed.

Lemma set_loop_err l s :
  ~ (forall id, id ∈ l.*1 -> is_Some (cow_chunks s !! id)) ->
  exists e s', forM l (fun '(id, n) => store_count id n) s = (Err e, s').
Proof.
  revert s. induction l as [|[id n] l IH]; intros s Hn; unfold forM in *; simpl.
  { destruct Hn. by intros id ?%elem_of_nil. }
  destruct (cow_chunks s !! id) as [row|] eqn:Hrow.
  - destruct (0 <=? count_as_i64 n) eqn:Hc; last first.
    { unfold store_count, bind, gets, ok_or, ret, guard. rewrite Hrow. cbn. rewrite Hc. by eexists _, _. }
    erewrite bind_ok; last first.
    { unfold store_count, bind, gets, ok_or, ret, guard, modify. rewrite Hrow. cbn. rewrite Hc. reflexivity. }
    apply IH. intros H. apply Hn. intros i Hi. csimpl in Hi.
    apply elem_of_cons in Hi as [->|Hi]; [by rewrite Hrow|].
    apply H in Hi. simpl in Hi. destruct (decide (i = id)) as [->|Hne]; [by rewrite Hrow|].
    by rewrite lookup_insert_ne in Hi.
  - unfold store_count, bind, gets, ok_or. rewrite Hrow. by eexists _, _.
Qed.

Lemma reconcile_unknown expected s :
  ~ map_Forall (fun id _ => is_Some (cow_chunks s !! id)) expected ->
  exists e, reconcile_references expected s = (Err e, s).
Proof.
  intros Hn. destruct (reconcile_references expected s) as [r s'] eqn:H.
  assert (is_ok r = false -> s' = s) as Hroll.
  { eapply transaction_rollback; [|exact H].
    apply keeps_bind; [apply _|by apply keeps_modify|]. intros _.
    apply keeps_forM; [apply _|]. intros []. apply store_count_same_disk. }
  unfold reconcile_references, transaction in H. erewrite bind_ok in H by done.
  destruct (set_loop_err (map_to_list expected) (set_chunks (set_refs 0 <$> cow_chunks s) s))
    as (e & s1 & H1); last first.
  - rewrite H1 in H. injection H as <- <-. exists e. f_equal. by apply Hroll.
  - intros Hin. apply Hn. intros id n Hid. specialize (Hin id). simpl in Hin.
    rewrite lookup_fmap, fmap_is_Some in Hin. apply Hin.
    apply list_elem_of_fmap. exists (id, n). split; [done|]. by apply elem_of_map_to_list.
Qed.

Lemma inv_rebuilt expected s :
  inv s -> (forall id n, expected !! id = Some n -> 0 <= n) -> inv (rebuilt expected s).
Proof.
  intros [[] Hc] Hpos.
  assert (forall id row, cow_chunks (rebuilt expected s) !! id = Some row ->
    exists row0, cow_chunks s !! id = Some row0
      /\ row = set_refs (default 0 (expected !! id)) row0) as Hrows.
  { intros id row. unfold rebuilt. simpl. rewrite map_lookup_imap.
    destruct (cow_chunks s !! id); intros [= <-]; eauto. }
  split; [split; try done|].
  - intros id row (row0 & H0 & ->)%Hrows.
    apply row_ok_refs; [|by destruct (wf_rows0 id row0 H0)].
    destruct (expected !! id) eqn:He; simpl; [by eapply Hpos|lia].
  - intros id loc Hl. simpl in *. destruct (Hc _ _ Hl) as [Hrow Hk]. split; [|done].
    intros Hf. destruct (Hrow Hf) as (row & Hr & <-).
    exists (set_refs (default 0 (expected !! id)) row).
    by rewrite map_lookup_imap, Hr.
Qed.

(** ** Integrity check *)

Lemma verify_row_ok s id row :
  inv s -> cow_chunks s !! id = Some row ->
  exists m, verify_row blake3 id row s = (Ok tt, set_locations m s)
    /\ inv (set_locations m s).
Proof.
  intros Hi Hrow. pose proof Hi as [Hwf Hc].
  destruct (row_readable s id row Hwf Hrow) as (f & Hf & Hr & Hh).
  destruct (read_registered s id row Hi Hrow) as (m & Hrd & Him).
  pose proof (wf_rows s Hwf _ _ Hrow) as [].
  destruct ro_committed0 as (c & Hc1 & Hc2).
  destruct (wf_segments s Hwf _ _ Hc1) as (_ & _ & f' & Hf' & Hle).
  rewrite Hf in Hf'. injection Hf' as <-.
  exists m. split; [|done].
  unfold segment_file in ro_header0. rewrite Hf in ro_header0.
  change (default [] (Some f)) with f in ro_header0.
  assert (zlen id = 32) as Hid by (rewrite <-Hh; apply blake3_len).
  unfold verify_row. erewrite bind_ok by done. simpl. rewrite Hf. simpl.
  erewrite bind_ok by done.
  erewrite bind_ok by (unfold guard; by rewrite (proj2 (Z.leb_le _ _)) by done).
  erewrite bind_ok; last first.
  { unfold lift, read_exact_at. rewrite (proj2 (Z.leb_le _ _)) by lia.
    rewrite orb_true_r, ro_header0. done. }
  erewrite bind_ok by (unfold guard; by rewrite bool_decide_eq_true_2).
  erewrite bind_ok; last first.
  { unfold guard.
    assert (slice (RECORD_MAGIC ++ u32_to_le_bytes (row_len row) ++ id) 4 4
      = u32_to_le_bytes (row_len row)) as -> by done.
    rewrite u32_le_roundtrip by (unfold CHUNK_SIZE in *; lia).
    rewrite Z.eqb_refl. rewrite bool_decide_eq_true_2; [done|].
    rewrite app_assoc. rewrite slice_app_r by done.
    replace (8 - _) with 0 by done. rewrite <-Hid. apply slice_all. }
  erewrite bind_ok by done. done.
Qed.

Lemma verify_ok s :
  inv s -> exists m, verify blake3 s = (Ok tt, set_locations m s)
    /\ inv (set_locations m s).
Proof.
  intros Hi. unfold verify. erewrite bind_ok by done.
  assert (forall l, (forall x, x ∈ l -> cow_chunks s !! x.1 = Some x.2) ->
    forall m0, inv (set_locations m0 s) ->
    exists m, forM l (fun '(id, row) => verify_row blake3 id row) (set_locations m0 s)
      = (Ok tt, set_locations m s) /\ inv (set_locations m s)) as Hloop.
  { induction l as [|[id row] l IH]; intros Hl m0 Hm0; unfold forM in *; simpl.
    - by exists m0.
    - destruct (verify_row_ok (set_locations m0 s) id row) as (m & Hv & Hm).
      { done. } { apply (Hl (id, row)). by left. }
      erewrite bind_ok by done. apply IH; [|done]. intros x Hx. apply Hl. by right. }
  destruct (Hloop (merge_sort row_order (map_to_list (cow_chunks s))))
    with (m0 := locations s) as (m & Hm & Him).
  - intros [id row] Hx. rewrite merge_sort_Permutation in Hx.
    by apply elem_of_map_to_list in Hx.
  - by destruct s.
  - exists m. split; [|done]. by destruct s.
Qed.
End Facts.
