(* ===== verification/ChunkGc.v ===== *)
(** Garbage collection of the chunk store: the copying loop, the switch of the
    tables, and the refinement "exactly the unreferenced chunks disappear". *)

From S2P Require Import Prelude Error RustStr ChunkStore Bytes ChunkStoreFacts.
#[local] Open Scope Z_scope.

Lemma last_sorted_max (l : list Z) x :
  StronglySorted Z.le l -> x ∈ l -> exists y, last l = Some y /\ x <= y.
Proof.
  induction l as [|a l IH]; [by intros _ ?%elem_of_nil|].
  inversion 1 as [|? ? Hs Ha]; subst. intros Hx.
  destruct l as [|b l].
  - apply list_elem_of_singleton in Hx as ->. exists a. split; [done|lia].
  - assert (exists y, last (b :: l) = Some y /\ a <= y) as (y & Hy & Hle).
    { destruct (last (b :: l)) as [y|] eqn:Hl.
      - exists y. split; [done|]. rewrite Forall_forall in Ha. apply Ha.
        apply last_Some in Hl as (l' & ->). apply elem_of_app. right. by left.
      - by apply last_None in Hl. }
    apply elem_of_cons in Hx as [->|Hx].
    + exists y. by split.
    + destruct (IH Hs Hx) as (z & Hz & ?). exists z. by split.
Qed.

Lemma set_last_len_snoc l id x len :
  set_last_len (l ++ [(id, x)]) len = l ++ [(id, len)].
Proof.
  unfold set_last_len. rewrite last_snoc, length_app. simpl.
  replace (length l + 1 - 1)%nat with (length l) by lia.
  by rewrite take_app_length.
Qed.

Lemma seqZ_snoc m n : 0 <= n -> seqZ m (n + 1) = seqZ m n ++ [m + n].
Proof.
  intros. by rewrite seqZ_app by lia.
Qed.

Lemma remove_segments_run l s :
  remove_segments_under never l s
  = (Ok tt, set_files (filter (fun f : Z * list Z => f.1 ∉ l) (files s)) s).
Proof.
  unfold remove_segments_under. erewrite bind_ok by done. generalize (files s) at 1 2 as before. intros before.
  set (lost := undone_removals l before). clearbody lost. erewrite bind_ok; [reflexivity|].
  revert s. induction l as [|seg l IH]; intros s; unfold forM in *; cbn [foldM].
  - unfold ret. do 2 f_equal. destruct s; unfold set_files; simpl. f_equal.
    symmetry. apply map_filter_id. intros ? ? _ ?%elem_of_nil. done.
  - erewrite bind_ok by done. rewrite IH. unfold set_files. simpl. do 2 f_equal. apply map_eq. intros k.
    rewrite !map_lookup_filter, lookup_delete. destruct (decide (seg = k)) as [->|Hne]; simpl.
    + destruct (files s !! k); simpl; [|done]. rewrite option_guard_False; [done|]. simpl. set_solver.
    + destruct (files s !! k); simpl; [|done].
      destruct (decide (k ∈ l)); [rewrite !option_guard_False|rewrite !option_guard_True]; set_solver.
Qed.

Section Gc.
Context (blake3 : list Z -> list Z).
Hypothesis blake3_len : forall b, zlen (blake3 b) = 32.
Context (s0 : ChunkStore).
Hypothesis Hinv : inv blake3 s0.

Let Hwf : wf blake3 s0 := proj1 Hinv.
Definition first_fresh : Z := default 0 (last (segment_ids s0)) + 1.

Lemma elem_of_segment_ids seg :
  seg ∈ segment_ids s0 <-> is_Some (cow_segments s0 !! seg).
Proof.
  unfold segment_ids. rewrite merge_sort_Permutation, list_elem_of_fmap. split.
  - intros ([k v] & -> & Hk%elem_of_map_to_list). simpl. eauto.
  - intros [v Hv]. exists (seg, v). split; [done|]. by apply elem_of_map_to_list.
Qed.

Lemma first_fresh_gt seg : is_Some (cow_segments s0 !! seg) -> seg < first_fresh.
Proof.
  intros Hs%elem_of_segment_ids. unfold first_fresh.
  destruct (last_sorted_max (segment_ids s0) seg) as (y & -> & ?); [|done|simpl; lia].
  apply (StronglySorted_merge_sort Z.le).
Qed.

Lemma first_fresh_pos : 0 < first_fresh.
Proof.
  destruct (wf_nonempty _ s0 Hwf) as [seg Hseg]. pose proof (first_fresh_gt _ Hseg).
  destruct Hseg as [c Hc]. destruct (wf_segments _ s0 Hwf _ _ Hc). lia.
Qed.

(** The record of an old row, copied into a fresh segment. *)
Record moved (top : Z) (s : ChunkStore) (id : list Z) (old new : ChunkRow) : Prop := {
  mv_segment : first_fresh <= segment_id new <= top;
  mv_offset : RECORD_HEADER_LEN <= payload_offset new;
  mv_len : row_len new = row_len old;
  mv_nonneg : 0 <= row_len new;
  mv_refs : refs new = refs old;
  mv_fits : payload_offset new + row_len new <= zlen (segment_file s (segment_id new));
  mv_content : row_content s new = row_content s0 old;
  mv_header : slice (segment_file s (segment_id new))
      (payload_offset new - RECORD_HEADER_LEN) RECORD_HEADER_LEN
    = RECORD_MAGIC ++ u32_to_le_bytes (row_len new) ++ id }.

Definition closed (s : ChunkStore) (top : Z) : list (Z * Z) :=
  (fun seg => (seg, zlen (segment_file s seg))) <$> seqZ first_fresh (top - first_fresh).

Record gc_inv (done : list (list Z * ChunkRow)) (g : GcState) (s : ChunkStore) : Prop := {
  gi_tables : cow_segments s = cow_segments s0 /\ cow_chunks s = cow_chunks s0
    /\ stray s = stray s0 /\ locations s = locations s0;
  gi_old : forall seg, seg < first_fresh -> files s !! seg = files s0 !! seg;
  gi_new : forall seg, first_fresh <= seg ->
    is_Some (files s !! seg) <-> seg <= gc_segment g;
  gi_cur : first_fresh <= gc_segment g;
  gi_len : gc_len g = zlen (segment_file s (gc_segment g));
  gi_segs : exists x, gc_segments g = closed s (gc_segment g) ++ [(gc_segment g, x)];
  gi_ups : Forall2 (fun r u => u.1 = r.1 /\ moved (gc_segment g) s r.1 r.2 u.2)
    done (gc_updates g) }.

Lemma closed_ext s s' top :
  (forall seg, seg < top -> files s' !! seg = files s !! seg) ->
  closed s' top = closed s top.
Proof.
  intros H. apply list_fmap_ext. intros i seg Hi. apply lookup_seqZ in Hi as [-> Hi].
  unfold segment_file. rewrite H; [done|]. lia.
Qed.

Lemma closed_snoc s top :
  first_fresh <= top -> closed s (top + 1) = closed s top ++ [(top, zlen (segment_file s top))].
Proof.
  intros. unfold closed.
  replace (top + 1 - first_fresh) with (top - first_fresh + 1) by lia.
  rewrite seqZ_snoc by lia. rewrite fmap_app. simpl.
  by replace (first_fresh + (top - first_fresh)) with top by lia.
Qed.

(** Appending at the end of a fresh segment keeps every earlier copy. *)
Lemma moved_mono top top' s s' id old new :
  moved top s id old new -> top <= top' ->
  (forall seg, exists t, segment_file s' seg = segment_file s seg ++ t) ->
  moved top' s' id old new.
Proof.
  intros [] Htop Happ. destruct (Happ (segment_id new)) as [t Ht].
  unfold RECORD_HEADER_LEN in *.
  split; unfold RECORD_HEADER_LEN; try done.
  - lia.
  - rewrite Ht, zlen_app. pose proof (zlen_nonneg t). lia.
  - rewrite <-mv_content0. unfold row_content. rewrite Ht. apply slice_app_l; lia.
  - rewrite Ht, slice_app_l; [done|lia..].
Qed.

Lemma gc_rollover done g s :
  gc_inv done g s ->
  let seg := gc_segment g + 1 in
  let s1 := set_files (<[seg := []]> (files s)) s in
  new_segment_file seg s = (Ok tt, s1)
  /\ gc_inv done (mkGc seg 0 (set_last_len (gc_segments g) (gc_len g) ++ [(seg, 0)])
                    (gc_updates g)) s1.
Proof.
  intros [] seg s1.
  assert (files s !! seg = None) as Hnone.
  { destruct (files s !! seg) eqn:Hf; [|done].
    assert (seg <= gc_segment g) by (apply gi_new0; [lia|by rewrite Hf]). lia. }
  assert (forall k, segment_file s1 k = segment_file s k ++ []) as Hsame.
  { intros k. rewrite app_nil_r. unfold segment_file, s1. simpl.
    destruct (decide (k = seg)) as [->|Hne].
    - by rewrite lookup_insert_eq, Hnone.
    - by rewrite lookup_insert_ne. }
  split.
  { unfold new_segment_file, bind, gets, guard, modify.
    by rewrite bool_decide_eq_true_2. }
  split; simpl.
  - done.
  - intros k Hk. rewrite lookup_insert_ne by lia. by apply gi_old0.
  - intros k Hk. destruct (decide (k = seg)) as [->|Hne].
    + rewrite lookup_insert_eq. split; [lia|by eexists].
    + rewrite lookup_insert_ne by done. rewrite gi_new0 by done. lia.
  - lia.
  - unfold segment_file, s1. simpl. by rewrite lookup_insert_eq.
  - destruct gi_segs0 as [x ->]. exists 0. rewrite set_last_len_snoc.
    unfold seg. rewrite closed_snoc by done. f_equal.
    rewrite (closed_ext s s1).
    + do 3 f_equal. rewrite gi_len0, Hsame. by rewrite app_nil_r.
    + intros k Hk. unfold s1. simpl. by rewrite lookup_insert_ne by lia.
  - eapply Forall2_impl; [done|]. intros [id old] [id' new] [Hid Hm]. simpl in *.
    split; [done|].
    destruct Hm. split; try done; rewrite ?Hsame, ?app_nil_r; try done; [lia|].
    unfold row_content in *. by rewrite Hsame, app_nil_r.
Qed.

Lemma gc_append done g s id row :
  gc_inv done g s -> cow_chunks s0 !! id = Some row ->
  gc_inv (done ++ [(id, row)])
    (mkGc (gc_segment g) (gc_len g + (RECORD_HEADER_LEN + row_len row)) (gc_segments g)
       (gc_updates g ++ [(id, mkChunkRow (gc_segment g) (gc_len g + RECORD_HEADER_LEN)
                                (row_len row) (refs row))]))
    (set_files (<[gc_segment g := segment_file s (gc_segment g)
       ++ RECORD_MAGIC ++ u32_to_le_bytes (row_len row) ++ id ++ row_content s0 row]>
       (files s)) s).
Proof.
  intros [] Hrow. set (cur := gc_segment g) in *.
  set (s1 := set_files _ s). pose proof (wf_rows _ s0 Hwf _ _ Hrow) as Hok.
  assert (zlen (row_content s0 row) = row_len row) as Hlen.
  { destruct Hok. destruct ro_committed as (c & Hc1 & Hc2).
    destruct (wf_segments _ s0 Hwf _ _ Hc1) as (_ & _ & f & Hf & Hle).
    unfold row_content, segment_file. rewrite Hf. simpl.
    unfold RECORD_HEADER_LEN in *. apply zlen_slice; lia. }
  assert (zlen id = 32) as Hid.
  { rewrite <-(ro_hash _ _ _ _ Hok). apply blake3_len. }
  set (hdr := RECORD_MAGIC ++ u32_to_le_bytes (row_len row) ++ id).
  assert (zlen hdr = RECORD_HEADER_LEN) as Hhdr by by apply zlen_record_header.
  assert (segment_file s1 cur = (segment_file s cur ++ hdr) ++ row_content s0 row) as Hcur.
  { erewrite segment_file_insert by done. unfold hdr. by rewrite <-!app_assoc. }
  assert (forall k, exists t, segment_file s1 k = segment_file s k ++ t) as Happ.
  { intros k. destruct (decide (k = cur)) as [->|Hne].
    - exists (hdr ++ row_content s0 row). by rewrite Hcur, <-app_assoc.
    - exists []. unfold segment_file, s1. simpl.
      by rewrite lookup_insert_ne, app_nil_r by done. }
  pose proof (zlen_nonneg (segment_file s cur)) as Hnn.
  destruct (ro_len _ _ _ _ Hok) as [Hl0 _]. unfold RECORD_HEADER_LEN in *.
  split; simpl.
  - done.
  - intros k Hk. rewrite lookup_insert_ne by lia. by apply gi_old0.
  - intros k Hk. destruct (decide (k = cur)) as [->|Hne].
    + rewrite lookup_insert_eq. split; [lia|by eexists].
    + rewrite lookup_insert_ne by done. by apply gi_new0.
  - done.
  - fold cur. rewrite Hcur, !zlen_app, Hlen, Hhdr, gi_len0. lia.
  - destruct gi_segs0 as [x ->]. exists x. f_equal. symmetry. apply closed_ext.
    intros k Hk. unfold s1. simpl. by rewrite lookup_insert_ne by (fold cur in Hk; lia).
  - apply Forall2_app; [|constructor; [|constructor]].
    + eapply Forall2_impl; [done|]. intros [i old] [i' new] [Hi Hm]. split; [done|].
      by eapply moved_mono.
    + split; [done|]. simpl. fold cur.
      assert (row_content s1 (mkChunkRow cur (gc_len g + 40) (row_len row) (refs row))
        = row_content s0 row) as Hct.
      { unfold row_content at 1. simpl. rewrite Hcur.
        rewrite slice_app_r by (rewrite zlen_app; lia).
        rewrite zlen_app, Hhdr, <-gi_len0, <-Hlen.
        replace (_ - _) with 0 by lia. apply slice_all. }
      split; simpl; unfold RECORD_HEADER_LEN; try done; try lia.
      * rewrite Hcur, !zlen_app, Hlen, Hhdr, gi_len0. lia.
      * rewrite Hcur, <-app_assoc, slice_app_r by lia.
        replace (_ - _ - _) with 0 by lia.
        rewrite slice_app_l; [|lia..]. rewrite <-Hhdr. apply slice_all.
Qed.

Lemma gc_row_step done g s id row :
  gc_inv done g s -> cow_chunks s0 !! id = Some row -> gc_segment g < I64_MAX ->
  exists g' s', gc_row_under blake3 never first_fresh g (id, row) s = (Ok g', s')
    /\ gc_inv (done ++ [(id, row)]) g' s' /\ gc_segment g' <= gc_segment g + 1.
Proof.
  intros Hg Hrow Hmax.
  destruct (row_readable _ s0 id row Hwf Hrow) as (f & Hf & Hr & Hh).
  assert (files s !! segment_id row = Some f) as Hf'.
  { rewrite (gi_old _ _ _ Hg); [done|]. apply first_fresh_gt.
    apply (wf_files _ s0 Hwf). by rewrite Hf. }
  unfold gc_row_under.
  erewrite bind_ok by done. rewrite Hf'. simpl. erewrite bind_ok by done.
  erewrite bind_ok by (unfold lift; by rewrite Hr).
  erewrite bind_ok by (unfold guard; by rewrite bool_decide_eq_true_2).
  destruct ((0 <? gc_len g) && _).
  - pose proof (gc_rollover done g s Hg) as [Hnew Hg1].
    erewrite bind_ok; last first.
    { erewrite bind_ok by done. rewrite (proj2 (Z.eqb_neq _ _)) by lia. erewrite bind_ok by done.
      erewrite bind_ok by (by apply Hnew). done. }
    erewrite bind_ok by done.
    eexists _, _. split; [done|]. split; [|simpl; lia].
    by apply (gc_append _ _ _ id row) in Hg1.
  - erewrite bind_ok by done. erewrite bind_ok by done.
    eexists _, _. split; [done|]. split; [|simpl; lia]. by apply gc_append.
Qed.

Lemma gc_loop rows done g s :
  gc_inv done g s -> (forall r, r ∈ rows -> cow_chunks s0 !! r.1 = Some r.2) ->
  gc_segment g + zlen rows <= I64_MAX ->
  exists g' s', foldM (gc_row_under blake3 never first_fresh) g rows s = (Ok g', s')
    /\ gc_inv (done ++ rows) g' s' /\ gc_segment g' <= gc_segment g + zlen rows.
Proof.
  revert done g s. induction rows as [|[id row] rows IH]; intros done g s Hg Hin Hmax; simpl.
  - exists g, s. rewrite app_nil_r. split; [done|]. split; [done|]. unfold zlen. simpl. lia.
  - rewrite zlen_cons in Hmax. pose proof (zlen_nonneg rows).
    destruct (gc_row_step done g s id row) as (g1 & s1 & H1 & Hg1 & Hle); [done| |lia|].
    { apply (Hin (id, row)). by left. }
    erewrite bind_ok by done.
    destruct (IH (done ++ [(id, row)]) g1 s1) as (g2 & s2 & H2 & Hg2 & Hle2); [done| |lia|].
    { intros r Hr. apply Hin. by right. }
    exists g2, s2. rewrite <-app_assoc in Hg2. split; [done|]. split; [done|].
    rewrite zlen_cons. lia.
Qed.

(** ** Switching the tables *)

Lemma insert_segments_run l s :
  NoDup l.*1 -> (forall x, x ∈ l -> cow_segments s !! x.1 = None /\ 0 <= x.2) ->
  forM l (fun '(id, len) => insert_segment id len) s
  = (Ok tt, set_segments (list_to_map l ∪ cow_segments s) s).
Proof.
  revert s. induction l as [|[id n] l IH]; intros s Hnd Hin; unfold forM in *; simpl.
  - unfold ret. do 2 f_equal. rewrite map_empty_union. by destruct s.
  - inversion Hnd as [|? ? Hnin Hnd']; subst.
    destruct (Hin (id, n)) as [Hnone Hn]; [by left|]. simpl in *.
    erewrite bind_ok; last first.
    { unfold insert_segment, bind, gets, guard, modify.
      rewrite bool_decide_eq_true_2 by done. by rewrite (proj2 (Z.leb_le _ _)). }
    rewrite IH; [|done|].
    + unfold set_segments. simpl. do 2 f_equal. apply map_eq. intros k.
      destruct (decide (k = id)) as [->|Hne].
      * rewrite !lookup_union, !lookup_insert_eq.
        rewrite not_elem_of_list_to_map_1 by done. simpl. by rewrite union_Some_l || done.
      * by rewrite !lookup_union, !lookup_insert_ne.
    + intros [k m] Hk. destruct (Hin (k, m)) as [H1 H2]; [by right|]. simpl in *.
      split; [|done]. rewrite lookup_insert_ne; [done|]. intros ->.
      apply Hnin. apply list_elem_of_fmap. by exists (k, m).
Qed.

Lemma move_rows_run l s :
  NoDup l.*1 -> (forall u, u ∈ l -> exists row, cow_chunks s !! u.1 = Some row
      /\ row_len u.2 = row_len row) ->
  forM l move_row s = (Ok tt, set_chunks (list_to_map l ∪ cow_chunks s) s).
Proof.
  revert s. induction l as [|[id new] l IH]; intros s Hnd Hin; unfold forM in *; simpl.
  - unfold ret. do 2 f_equal. rewrite map_empty_union. by destruct s.
  - inversion Hnd as [|? ? Hnin Hnd']; subst.
    destruct (Hin (id, new)) as (row & Hrow & Hlen); [by left|]. simpl in *.
    erewrite bind_ok; last first.
    { unfold move_row, bind, gets, ok_or, modify, ret. by rewrite Hrow. }
    rewrite <-Hlen. replace (mkChunkRow _ _ _ _) with new by by destruct new.
    rewrite IH; [|done|].
    + unfold set_chunks. simpl. do 2 f_equal. apply map_eq. intros k.
      destruct (decide (k = id)) as [->|Hne].
      * rewrite !lookup_union, !lookup_insert_eq.
        rewrite not_elem_of_list_to_map_1 by done. simpl. by rewrite union_Some_l || done.
      * by rewrite !lookup_union, !lookup_insert_ne.
    + intros [k m] Hk. destruct (Hin (k, m)) as [r Hr]; [by right|]. exists r.
      simpl in *. rewrite lookup_insert_ne; [done|]. intros ->.
      apply Hnin. apply list_elem_of_fmap. by exists (k, m).
Qed.

Lemma delete_segments_run l s :
  (forall id row, cow_chunks s !! id = Some row -> segment_id row ∉ l) ->
  forM l delete_segment s
  = (Ok tt, set_segments (filter (fun x : Z * Z => x.1 ∉ l) (cow_segments s)) s).
Proof.
  revert s. induction l as [|seg l IH]; intros s Hin; unfold forM in *; simpl.
  - unfold ret. do 2 f_equal. destruct s; unfold set_segments; simpl. f_equal.
    symmetry. apply map_filter_id. intros ? ? _ ?%elem_of_nil. done.
  - erewrite bind_ok; last first.
    { unfold delete_segment, bind, gets, guard, modify.
      rewrite bool_decide_eq_true_2; [done|].
      intros id row Hrow Heq. apply (Hin id row Hrow). rewrite Heq. by left. }
    rewrite IH.
    + unfold set_segments. simpl. do 2 f_equal. apply map_eq. intros k.
      rewrite !map_lookup_filter, lookup_delete.
      destruct (decide (seg = k)) as [->|Hne]; simpl.
      * destruct (cow_segments s !! k); simpl; [|done].
        rewrite option_guard_False; [done|]. simpl. set_solver.
      * destruct (cow_segments s !! k); simpl; [|done].
        destruct (decide (k ∈ l)).
        -- rewrite !option_guard_False by set_solver. done.
        -- rewrite !option_guard_True by set_solver. done.
    + intros id row Hrow Hl. apply (Hin id row Hrow). by right.
Qed.

Lemma elem_of_referenced r :
  r ∈ referenced_rows s0 <-> cow_chunks s0 !! r.1 = Some r.2 /\ 0 < refs r.2.
Proof.
  unfold referenced_rows. rewrite merge_sort_Permutation, list_elem_of_filter.
  destruct r as [id row]. rewrite elem_of_map_to_list. simpl. tauto.
Qed.

Lemma NoDup_referenced : NoDup (referenced_rows s0).*1.
Proof.
  unfold referenced_rows. rewrite merge_sort_Permutation.
  eapply sublist_NoDup; [apply (NoDup_fst_map_to_list (cow_chunks s0))|].
  apply fmap_sublist, sublist_filter.
Qed.

Lemma updates_keys rows g s : gc_inv rows g s -> (gc_updates g).*1 = rows.*1.
Proof.
  intros Hg. pose proof (gi_ups _ _ _ Hg) as Hf. clear Hg. revert Hf.
  generalize (gc_updates g) as us. intros us Hf.
  induction Hf as [|r u rs us [Hi _] _ IH]; [done|]. csimpl. congruence.
Qed.

Lemma updates_elem rows g s u :
  gc_inv rows g s -> u ∈ gc_updates g ->
  exists old, (u.1, old) ∈ rows /\ moved (gc_segment g) s u.1 old u.2.
Proof.
  intros Hg Hu. pose proof (gi_ups _ _ _ Hg) as Hf.
  apply list_elem_of_lookup in Hu as [k Hk].
  destruct (Forall2_lookup_r _ _ _ _ _ Hf Hk) as ([id old] & Hr & Hi & Hm).
  simpl in *. exists old. rewrite Hi. split; [|done].
  apply list_elem_of_lookup. by exists k.
Qed.

Lemma updates_elem_rev rows g s id old :
  gc_inv rows g s -> (id, old) ∈ rows ->
  exists new, (id, new) ∈ gc_updates g /\ moved (gc_segment g) s id old new.
Proof.
  intros Hg Hu. pose proof (gi_ups _ _ _ Hg) as Hf.
  apply list_elem_of_lookup in Hu as [k Hk].
  destruct (Forall2_lookup_l _ _ _ _ _ Hf Hk) as ([id' new] & Hr & Hi & Hm).
  simpl in *. subst. exists new. split; [|done]. apply list_elem_of_lookup. by exists k.
Qed.

Lemma closed_keys s top : (closed s top).*1 = seqZ first_fresh (top - first_fresh).
Proof. unfold closed. rewrite <-list_fmap_compose. apply list_fmap_id. Qed.

Lemma closed_lookup s top seg c :
  (list_to_map (closed s top) : gmap Z Z) !! seg = Some c <->
  first_fresh <= seg < top /\ c = zlen (segment_file s seg).
Proof.
  rewrite <-elem_of_list_to_map by (rewrite closed_keys; apply NoDup_seqZ).
  unfold closed. rewrite list_elem_of_fmap. split.
  - intros (k & [= -> ->] & Hk). apply elem_of_seqZ in Hk. split; [lia|done].
  - intros [Hs ->]. exists seg. split; [done|]. apply elem_of_seqZ. lia.
Qed.

(** Every referenced row moved, every other row gone. *)
Lemma switched_rows g s :
  gc_inv (referenced_rows s0) g s ->
  list_to_map (gc_updates g)
    ∪ filter (fun r : list Z * ChunkRow => refs r.2 <> 0) (cow_chunks s0)
  = (list_to_map (gc_updates g) : gmap (list Z) ChunkRow).
Proof.
  intros Hg. apply map_eq. intros id. rewrite lookup_union.
  destruct ((list_to_map (gc_updates g) : gmap _ _) !! id) as [new|] eqn:Hn.
  { by destruct (filter _ _ !! id). }
  rewrite (left_id None union). apply map_lookup_filter_None.
  destruct (cow_chunks s0 !! id) as [row|] eqn:Hrow; [right|by left].
  intros ? [= <-]. simpl. intros Hne.
  pose proof (ro_refs _ _ _ _ (wf_rows _ s0 Hwf _ _ Hrow)).
  destruct (updates_elem_rev _ _ _ id row Hg) as (new & Hu & _).
  { apply elem_of_referenced. simpl. split; [done|lia]. }
  apply not_elem_of_list_to_map in Hn. apply Hn.
  apply list_elem_of_fmap. by exists (id, new).
Qed.

Lemma switched_segments s top :
  filter (fun x : Z * Z => x.1 ∉ segment_ids s0)
    (list_to_map (closed s top) ∪ cow_segments s0)
  = (list_to_map (closed s top) : gmap Z Z).
Proof.
  apply map_eq. intros seg. rewrite map_lookup_filter, lookup_union.
  destruct ((list_to_map (closed s top) : gmap Z Z) !! seg) as [c|] eqn:Hc.
  - apply closed_lookup in Hc as [Hs ->].
    assert (cow_segments s0 !! seg = None) as ->.
    { destruct (cow_segments s0 !! seg) eqn:He; [|done].
      assert (seg < first_fresh) by (apply first_fresh_gt; by rewrite He). lia. }
    simpl. rewrite option_guard_True; [done|].
    rewrite elem_of_segment_ids. intros ?%first_fresh_gt. lia.
  - rewrite (left_id None union). destruct (cow_segments s0 !! seg) eqn:He; [|done].
    simpl. rewrite option_guard_False; [done|].
    rewrite elem_of_segment_ids, He. intros Hk. apply Hk. eauto.
Qed.

(** The tables after the switch. *)
Definition switched (g : GcState) (s : ChunkStore) : ChunkStore :=
  mkChunkStore (list_to_map (closed s (gc_segment g + 1))) (list_to_map (gc_updates g))
    (files s) (stray s) (locations s).

Definition gc_room : Prop := first_fresh + zlen (referenced_rows s0) <= I64_MAX.

Lemma gc_start :
  new_segment_file first_fresh s0
    = (Ok tt, set_files (<[first_fresh := []]> (files s0)) s0)
  /\ gc_inv [] (mkGc first_fresh 0 [(first_fresh, 0)] [])
       (set_files (<[first_fresh := []]> (files s0)) s0).
Proof.
  assert (forall seg, first_fresh <= seg -> files s0 !! seg = None) as Hnone.
  { intros seg Hseg. destruct (files s0 !! seg) eqn:Hf; [|done].
    assert (seg < first_fresh); [|lia]. apply first_fresh_gt.
    apply (wf_files _ s0 Hwf). by rewrite Hf. }
  split.
  { unfold new_segment_file, bind, gets, guard, modify.
    by rewrite bool_decide_eq_true_2 by (apply Hnone; lia). }
  split; simpl.
  - done.
  - intros seg Hs. by rewrite lookup_insert_ne by lia.
  - intros seg Hs. destruct (decide (seg = first_fresh)) as [->|Hne].
    + rewrite lookup_insert_eq. split; [lia|by eexists].
    + rewrite lookup_insert_ne by done. rewrite Hnone by lia.
      split; [by intros []|lia].
  - lia.
  - unfold segment_file. simpl. by rewrite lookup_insert_eq.
  - exists 0. unfold closed. by rewrite Z.sub_diag.
  - constructor.
Qed.

Lemma gc_transaction_run :
  gc_room ->
  exists g s, gc_transaction_under blake3 never s0
      = (Ok (segment_ids s0,
             mkGc (gc_segment g) (gc_len g) (closed s (gc_segment g + 1)) (gc_updates g),
             referenced_rows s0), switched g s)
    /\ gc_inv (referenced_rows s0) g s /\ gc_segment g <= I64_MAX.
Proof.
  intros Hroom. unfold gc_room in Hroom. pose proof first_fresh_pos.
  pose proof (zlen_nonneg (referenced_rows s0)).
  destruct gc_start as [Hnew Hg0].
  destruct (gc_loop (referenced_rows s0) [] _ _ Hg0) as (g & s & Hloop & Hg & Hle).
  { intros r Hr. by apply elem_of_referenced in Hr as [? _]. }
  { simpl. lia. }
  simpl in *. exists g, s. split; [|split; [done|lia]].
  pose proof Hg as [(Ht1 & Ht2 & Ht3 & Ht4) _ _ Hcur Hlen [x Hx] _].
  assert (set_last_len (gc_segments g) (gc_len g) = closed s (gc_segment g + 1)) as Hsegs.
  { rewrite Hx, set_last_len_snoc, closed_snoc, Hlen by done. done. }
  unfold gc_transaction_under. erewrite bind_ok by done. erewrite bind_ok by done.
  fold first_fresh. rewrite (proj2 (Z.ltb_ge _ _)) by lia.
  erewrite bind_ok by done. erewrite bind_ok by (by apply Hnew). erewrite bind_ok by (by apply Hloop).
  erewrite bind_ok by done. erewrite bind_ok by done.
  rewrite Hsegs. erewrite bind_ok; last first.
  { apply insert_segments_run.
    - rewrite closed_keys. apply NoDup_seqZ.
    - intros [k n] Hk.
      apply elem_of_list_to_map, closed_lookup in Hk as [Hk ->];
        [|rewrite closed_keys; apply NoDup_seqZ]. simpl.
      split; [|apply zlen_nonneg]. rewrite Ht1.
      destruct (cow_segments s0 !! k) eqn:He; [|done].
      assert (k < first_fresh) by (apply first_fresh_gt; by rewrite He). lia. }
  erewrite bind_ok by done. erewrite bind_ok; last first.
  { apply move_rows_run.
    - rewrite (updates_keys _ _ _ Hg). apply NoDup_referenced.
    - intros u Hu. destruct (updates_elem _ _ _ _ Hg Hu) as (old & Ho & Hm).
      apply elem_of_referenced in Ho as [Ho Hr]. simpl in *. exists old.
      split; [|apply (mv_len _ _ _ _ _ Hm)]. rewrite Ht2.
      apply map_lookup_filter_Some. split; [done|simpl; lia]. }
  pose proof (switched_rows g s Hg) as Hrows. rewrite <-Ht2 in Hrows.
  erewrite bind_ok; last first.
  { apply delete_segments_run. simpl. rewrite Hrows. intros id row Hr.
    apply elem_of_list_to_map_2 in Hr.
    destruct (updates_elem _ _ _ _ Hg Hr) as (old & _ & Hm). simpl in *.
    rewrite elem_of_segment_ids. intros Hs%first_fresh_gt.
    destruct (mv_segment _ _ _ _ _ Hm). lia. }
  erewrite bind_ok by done. unfold ret, switched, set_segments, set_chunks. simpl. do 2 f_equal; [|done].
  rewrite Ht1. apply switched_segments.
Qed.

(** The store after a successful collection. *)
Definition collected (g : GcState) (s : ChunkStore) : ChunkStore :=
  mkChunkStore (list_to_map (closed s (gc_segment g + 1))) (list_to_map (gc_updates g))
    (filter (fun f : Z * list Z => f.1 ∉ segment_ids s0) (files s)) (stray s)
    (list_to_map (reverse (prod_map id row_location <$> gc_updates g))).

Section Collected.
Context (g : GcState) (s : ChunkStore).
Hypothesis Hg : gc_inv (referenced_rows s0) g s.
Hypothesis Htop : gc_segment g <= I64_MAX.

Lemma collected_file seg :
  first_fresh <= seg -> files (collected g s) !! seg = files s !! seg.
Proof.
  intros Hs. simpl. rewrite map_lookup_filter. destruct (files s !! seg); [|done].
  simpl. rewrite option_guard_True; [done|]. simpl.
  rewrite elem_of_segment_ids. intros ?%first_fresh_gt. lia.
Qed.

Lemma collected_segment_file seg :
  first_fresh <= seg -> segment_file (collected g s) seg = segment_file s seg.
Proof. intros. unfold segment_file. by rewrite collected_file. Qed.

Lemma collected_row_inv id new :
  cow_chunks (collected g s) !! id = Some new ->
  exists old, cow_chunks s0 !! id = Some old /\ 0 < refs old
    /\ moved (gc_segment g) s id old new.
Proof.
  intros Hn. apply elem_of_list_to_map_2 in Hn.
  destruct (updates_elem _ _ _ _ Hg Hn) as (old & Ho & Hm). simpl in *.
  apply elem_of_referenced in Ho as [? ?]. eauto.
Qed.

Lemma collected_row id old :
  cow_chunks s0 !! id = Some old -> 0 < refs old ->
  exists new, cow_chunks (collected g s) !! id = Some new
    /\ moved (gc_segment g) s id old new.
Proof.
  intros Ho Hr. destruct (updates_elem_rev _ _ _ id old Hg) as (new & Hu & Hm).
  { by apply elem_of_referenced. }
  exists new. split; [|done]. apply elem_of_list_to_map; [|done].
  rewrite (updates_keys _ _ _ Hg). apply NoDup_referenced.
Qed.

Lemma collected_content id old new :
  moved (gc_segment g) s id old new ->
  row_content (collected g s) new = row_content s0 old.
Proof.
  intros []. unfold row_content at 1. rewrite collected_segment_file by lia. done.
Qed.

Lemma collected_wf : wf blake3 (collected g s).
Proof.
  split.
  - intros id new Hn. destruct (collected_row_inv _ _ Hn) as (old & Ho & Hr & Hm).
    pose proof (collected_content _ _ _ Hm) as Hct. destruct Hm.
    pose proof (wf_rows _ s0 Hwf _ _ Ho) as []. split.
    + done.
    + by rewrite mv_len0.
    + lia.
    + exists (zlen (segment_file s (segment_id new))). split; [|done].
      apply closed_lookup. split; [lia|done].
    + by rewrite Hct.
    + rewrite collected_segment_file by lia. done.
  - intros seg c Hc. simpl in Hc. apply closed_lookup in Hc as [Hs ->].
    pose proof first_fresh_pos. split; [lia|]. split; [apply zlen_nonneg|].
    rewrite collected_file by lia.
    destruct (proj2 (gi_new _ _ _ Hg seg ltac:(lia))) as [f Hf]; [lia|].
    exists f. unfold segment_file. rewrite Hf. simpl. split; [done|lia].
  - exists first_fresh. simpl. exists (zlen (segment_file s first_fresh)).
    apply closed_lookup. pose proof (gi_cur _ _ _ Hg). split; [lia|done].
  - intros seg [f Hf]. simpl in Hf. apply map_lookup_filter_Some in Hf as [Hf Hn].
    simpl in Hn. assert (first_fresh <= seg) as Hs.
    { destruct (decide (seg < first_fresh)) as [Hlt|]; [|lia]. exfalso. apply Hn.
      apply elem_of_segment_ids. apply (wf_files _ s0 Hwf).
      rewrite <-(gi_old _ _ _ Hg) by done. by rewrite Hf. }
    exists (zlen (segment_file s seg)). apply closed_lookup. split; [|done].
    assert (seg <= gc_segment g); [|lia]. apply (gi_new _ _ _ Hg); [done|by rewrite Hf].
Qed.

Lemma collected_cache : cache_ok (collected g s).
Proof.
  intros id loc Hl. simpl in Hl. apply elem_of_list_to_map_2 in Hl.
  rewrite elem_of_reverse in Hl.
  apply list_elem_of_fmap in Hl as ([id' new] & [= -> ->] & Hu).
  assert (cow_chunks (collected g s) !! id' = Some new) as Hn.
  { simpl. apply elem_of_list_to_map; [|done].
    rewrite (updates_keys _ _ _ Hg). apply NoDup_referenced. }
  split; [by eauto|]. destruct (collected_row_inv _ _ Hn) as (old & _ & _ & []).
  exists (segment_id new). split; [|simpl; lia]. simpl.
  exists (zlen (segment_file s (segment_id new))). apply closed_lookup. split; [lia|done].
Qed.

(** Another process keeps its own, now outdated, cache. *)
Lemma collected_foreign_cache m :
  cache_ok (set_locations m s0) -> cache_ok (set_locations m (collected g s)).
Proof.
  intros Hm id loc Hl. cbn [locations set_locations] in Hl.
  destruct (Hm id loc Hl) as [_ (k & Hk & Hle)]. cbn [cow_segments set_locations] in Hk. apply first_fresh_gt in Hk.
  split.
  - intros Hf. change (is_Some (files (collected g s) !! loc_segment_id loc)) in Hf.
    apply (wf_files _ _ collected_wf) in Hf as [c Hc]. apply closed_lookup in Hc. lia.
  - destruct (wf_nonempty _ _ collected_wf) as [seg Hs]. exists seg. split; [done|].
    destruct Hs as [c Hc]. apply closed_lookup in Hc. lia.
Qed.

Lemma abs_collected :
  abs (collected g s)
  = filter (fun x : list Z * (list Z * Z) => x.2.2 <> 0) (abs s0).
Proof.
  apply map_eq. intros id. rewrite map_lookup_filter, !abs_lookup.
  destruct (cow_chunks s0 !! id) as [old|] eqn:Ho; simpl.
  - pose proof (ro_refs _ _ _ _ (wf_rows _ s0 Hwf _ _ Ho)).
    destruct (decide (refs old = 0)) as [Hz|Hnz].
    + rewrite option_guard_False by (simpl; tauto).
      destruct (cow_chunks (collected g s) !! id) as [new|] eqn:Hn; simpl in *;
        [|by rewrite Hn].
      destruct (collected_row_inv id new Hn) as (old' & Ho' & Hr & _).
      rewrite Ho in Ho'. injection Ho' as <-. lia.
    + rewrite option_guard_True by done.
      destruct (collected_row id old Ho ltac:(lia)) as (new & Hn & Hm).
      simpl in Hn. rewrite Hn. simpl.
      rewrite (collected_content _ _ _ Hm). by rewrite (mv_refs _ _ _ _ _ Hm).
  - destruct (cow_chunks (collected g s) !! id) as [new|] eqn:Hn; simpl in *; [|by rewrite Hn].
    destruct (collected_row_inv id new Hn) as (old' & Ho' & _). congruence.
Qed.
End Collected.

Lemma gc_run :
  gc_room ->
  exists report g s, gc blake3 s0 = (Ok report, collected g s)
    /\ gc_inv (referenced_rows s0) g s /\ gc_segment g <= I64_MAX
    /\ retained_chunks report = zlen (referenced_rows s0)
    /\ removed_chunks report
       = Z.of_nat (size (cow_chunks s0)) - zlen (referenced_rows s0).
Proof.
  intros Hroom. destruct (gc_transaction_run Hroom) as (g & s & Hr & Hg & Htop).
  unfold gc, gc_under. erewrite bind_ok by done.
  erewrite bind_ok by (by apply transaction_ok). cbv beta iota.
  erewrite bind_ok by done. erewrite bind_ok by apply remove_segments_run.
  eexists _, g, s. split; [done|]. done.
Qed.
End Gc.
