(* ===== verification/ChunkRecovery.v ===== *)
(** Opening the chunk store after a process died in [put] or [gc]: what any
    machine that stops one of them leaves on disk, and the proof that [open]
    brings back the committed store.  Data that was written but not committed
    is arbitrary. *)

From S2P Require Import Prelude Error RustStr ChunkStore Bytes ChunkStoreFacts ChunkGc.
From Stdlib Require Import Ascii.
#[local] Open Scope Z_scope.

(** ** Segment file names *)

Lemma substring_app x y : String.substring 0 (String.length x) (x +:+ y) = x.
Proof.
  induction x as [|c x IH]; simpl; [by destruct y|]. by rewrite IH.
Qed.

Lemma strip_suffix_app x suf : strip_suffix suf (x +:+ suf) = Some x.
Proof.
  unfold strip_suffix. rewrite length_string_app.
  replace (String.length x + String.length suf - String.length suf)%nat
    with (String.length x) by lia.
  rewrite substring_app. by rewrite bool_decide_eq_true_2.
Qed.

Lemma str_all_app P s t : str_all P (s +:+ t) = str_all P s && str_all P t.
Proof. induction s as [|c s IH]; simpl; [done|]. by rewrite IH, andb_assoc. Qed.

Lemma parse_hex_app acc s t :
  parse_hex acc (s +:+ t)
  = match parse_hex acc s with Some a => parse_hex a t | None => None end.
Proof.
  revert acc. induction s as [|c s IH]; intros acc; simpl; [done|].
  destruct (hex_value c); [apply IH|done].
Qed.

Lemma hex_fixed_facts d n :
  0 <= n ->
  String.length (hex_fixed d n) = d
  /\ str_all is_ascii_hexdigit (hex_fixed d n) = true
  /\ (forall acc, parse_hex acc (hex_fixed d n)
        = Some (acc * 16 ^ Z.of_nat d + n mod 16 ^ Z.of_nat d)).
Proof.
  revert n. induction d as [|d IH]; intros n Hn.
  { simpl. split_and!; [done..|]. intros acc. f_equal. rewrite Z.mod_1_r. lia. }
  assert (0 <= n mod 16 < 16) as Hm by (apply Z.mod_pos_bound; lia).
  destruct (hex_digit_facts (n mod 16) Hm) as (Hv & Hh & _).
  destruct (IH (n / 16)) as (H1 & H2 & H3); [apply Z.div_pos; lia|].
  cbn [hex_fixed]. split_and!.
  - rewrite length_string_app. simpl. lia.
  - rewrite str_all_app, H2. simpl. by rewrite Hh.
  - intros acc. rewrite parse_hex_app, H3. cbn [parse_hex]. rewrite Hv. f_equal.
    rewrite Nat2Z.inj_succ, Z.pow_succ_r by lia.
    rewrite (Z.rem_mul_r n 16 (16 ^ Z.of_nat d)) by lia. ring.
Qed.

Lemma parse_segment_name_roundtrip seg :
  0 <= seg <= I64_MAX -> parse_segment_name (segment_name seg) = Ok seg.
Proof.
  unfold I64_MAX. intros Hs. unfold parse_segment_name, segment_name.
  rewrite strip_suffix_app.
  rewrite (Z.mod_small seg) by lia.
  destruct (hex_fixed_facts 16 seg) as (H1 & H2 & H3); [lia|].
  unfold str_len. rewrite H1, H2, H3. simpl.
  rewrite Z.mod_small by lia. unfold I64_MAX.
  by rewrite (proj2 (Z.leb_le _ _)) by lia.
Qed.

(** ** Writing tables only *)

Definition same_files (s d : ChunkStore) : Prop := files d = files s /\ stray d = stray s.
#[export] Instance same_files_preorder : PreOrder same_files.
Proof. split; [done|]. intros a b c [] []. split; congruence. Qed.

Lemma insert_segment_files id len : keeps same_files (insert_segment id len).
Proof.
  apply keeps_bind; [apply _|apply keeps_gets; apply _|]. intros m.
  apply keeps_bind; [apply _|apply keeps_guard; apply _|]. intros _. by apply keeps_modify.
Qed.

Lemma move_row_files u : keeps same_files (move_row u).
Proof.
  destruct u as [id new]. apply keeps_bind; [apply _|apply keeps_gets; apply _|]. intros row.
  apply keeps_bind; [apply _|apply keeps_ok_or; apply _|]. intros r. by apply keeps_modify.
Qed.

Lemma delete_segment_files seg : keeps same_files (delete_segment seg).
Proof.
  apply keeps_bind; [apply _|apply keeps_gets; apply _|]. intros m.
  apply keeps_bind; [apply _|apply keeps_guard; apply _|]. intros _. by apply keeps_modify.
Qed.

Section Recovery.
Context (blake3 : list Z -> list Z).
Hypothesis blake3_len : forall b, zlen (blake3 b) = 32.

(** What must hold of the disk for [open] to succeed: committed data is
    there.  Files may be longer than committed, and there may be files of
    unregistered segments. *)
Record disk_ok (s : ChunkStore) : Prop := {
  do_rows : forall id row, cow_chunks s !! id = Some row -> row_ok blake3 s id row;
  do_segments : forall seg c, cow_segments s !! seg = Some c ->
    0 < seg <= I64_MAX /\ 0 <= c <= zlen (segment_file s seg);
  do_files : forall seg, is_Some (files s !! seg) -> 0 <= seg <= I64_MAX;
  do_stray : stray s = [] }.

Lemma scan_files_run l s :
  (forall seg, seg ∈ l -> 0 <= seg <= I64_MAX) ->
  forM l scan_file s = (Ok tt, set_files
    (filter (fun f : Z * list Z => f.1 ∉ l \/ is_Some (cow_segments s !! f.1)) (files s)) s).
Proof.
  revert s. induction l as [|seg l IH]; intros s Hl; unfold forM in *; simpl.
  - unfold ret. do 2 f_equal. destruct s; unfold set_files; simpl. f_equal.
    symmetry. apply map_filter_id. intros. left. by intros ?%elem_of_nil.
  - erewrite bind_ok; last first.
    { unfold scan_file. erewrite bind_ok; [done|]. unfold lift.
      by rewrite parse_segment_name_roundtrip by (apply Hl; by left). }
    rewrite IH by (intros k Hk; apply Hl; by right).
    destruct (cow_segments s !! seg) as [c|] eqn:Hc.
    + rewrite bool_decide_eq_false_2 by done. unfold set_files. do 2 f_equal.
      apply map_filter_ext. intros k f _. simpl.
      destruct (decide (k = seg)) as [->|Hne]; [|set_solver]. rewrite Hc. split; eauto.
    + rewrite bool_decide_eq_true_2 by done. unfold set_files. simpl. do 2 f_equal.
      apply map_eq. intros k. rewrite !map_lookup_filter, lookup_delete.
      destruct (decide (seg = k)) as [->|Hne]; simpl.
      * destruct (files s !! k); [|done]. simpl. rewrite option_guard_False; [done|].
        simpl. rewrite Hc. intros [H|H]; [set_solver|by destruct H].
      * destruct (files s !! k); [|done]. simpl.
        destruct (decide (k ∉ l \/ is_Some (cow_segments s !! k))).
        -- rewrite !option_guard_True; [done|simpl; set_solver|done].
        -- rewrite !option_guard_False; [done|simpl; set_solver|done].
Qed.

(** The file of a segment after its uncommitted tail is cut. *)
Definition trimmed (s : ChunkStore) (seg c : Z) : list Z :=
  take (Z.to_nat c) (segment_file s seg).

Lemma trim_segment_run s seg c :
  0 <= c <= zlen (segment_file s seg) ->
  trim_segment seg c s
  = (Ok tt, set_files (<[seg := trimmed s seg c]> (files s)) s).
Proof.
  intros Hc. unfold trim_segment. erewrite bind_ok by done. erewrite bind_ok by done.
  assert (forall s' f, files s' = <[seg := f]> (files s) -> segment_file s' seg = f) as Hsf.
  { intros s' f. apply segment_file_insert. }
  erewrite Hsf by done. erewrite bind_ok; last first.
  { unfold guard. by rewrite (proj2 (Z.leb_le _ _)) by lia. }
  unfold modify. destruct (c <? zlen (segment_file s seg)) eqn:Hlt; simpl.
  - rewrite insert_insert_eq. unfold set_files. simpl.
    by rewrite resize_zero_take by lia.
  - unfold trimmed. rewrite take_ge; [done|]. unfold zlen in *. lia.
Qed.

Lemma trim_segments_run l s :
  NoDup l.*1 -> (forall x, x ∈ l -> 0 <= x.2 <= zlen (segment_file s x.1)) ->
  forM l (fun '(id, committed) => trim_segment id committed) s
  = (Ok tt, set_files
      (list_to_map ((fun x : Z * Z => (x.1, trimmed s x.1 x.2)) <$> l) ∪ files s) s).
Proof.
  revert s. induction l as [|[seg c] l IH]; intros s Hnd Hl; unfold forM in *; simpl.
  - unfold ret. do 2 f_equal. rewrite map_empty_union. by destruct s.
  - inversion Hnd as [|? ? Hnin Hnd']; subst.
    erewrite bind_ok by (apply trim_segment_run; apply (Hl (seg, c)); by left).
    assert (forall k, k <> seg -> segment_file
      (set_files (<[seg := trimmed s seg c]> (files s)) s) k = segment_file s k) as Hk.
    { intros k Hne. unfold segment_file. simpl. by rewrite lookup_insert_ne. }
    assert (forall x, x ∈ l -> x.1 <> seg) as Hne.
    { intros x Hx <-. apply Hnin. apply list_elem_of_fmap. by exists x. }
    rewrite IH; [|done|].
    + unfold set_files. simpl. do 2 f_equal.
      assert ((fun x : Z * Z => (x.1, trimmed
          (mkChunkStore (cow_segments s) (cow_chunks s)
             (<[seg := trimmed s seg c]> (files s)) (stray s) (locations s)) x.1 x.2)) <$> l
        = (fun x : Z * Z => (x.1, trimmed s x.1 x.2)) <$> l) as ->.
      { apply list_fmap_ext. intros i x Hx. f_equal. unfold trimmed.
        rewrite Hk; [done|]. apply Hne. apply list_elem_of_lookup. eauto. }
      apply map_eq. intros k. destruct (decide (k = seg)) as [->|Hks].
      * rewrite !lookup_union, !lookup_insert_eq.
        rewrite not_elem_of_list_to_map_1; [by rewrite (left_id None union); destruct (files s !! seg)|].
        rewrite <-list_fmap_compose.
        intros (x & Hx & Hin)%list_elem_of_fmap. by apply (Hne x).
      * by rewrite !lookup_union, !lookup_insert_ne.
    + intros x Hx. rewrite Hk by by apply Hne. apply Hl. by right.
Qed.

(** ** The whole of [open] *)

(** The registered segments once [open] has made sure that segment 1 exists. *)
Definition with_first (segs : gmap Z Z) : gmap Z Z :=
  if bool_decide (segs !! 1 = None) then <[1 := 0]> segs else segs.

Definition reopened (s : ChunkStore) : ChunkStore :=
  mkChunkStore (with_first (cow_segments s)) (cow_chunks s)
    (map_imap (fun seg c => Some (trimmed s seg c)) (with_first (cow_segments s)))
    [] (row_location <$> cow_chunks s).

Lemma with_first_lookup segs seg c :
  with_first segs !! seg = Some c ->
  segs !! seg = Some c \/ (seg = 1 /\ c = 0 /\ segs !! 1 = None).
Proof.
  unfold with_first. case_bool_decide as H; [|by left].
  destruct (decide (seg = 1)) as [->|Hne].
  - rewrite lookup_insert_eq. intros [= <-]. by right.
  - rewrite lookup_insert_ne by done. by left.
Qed.

Lemma with_first_mono segs seg c :
  segs !! seg = Some c -> with_first segs !! seg = Some c.
Proof.
  intros H. unfold with_first. case_bool_decide; [|done].
  rewrite lookup_insert_ne; [done|]. congruence.
Qed.

Lemma with_first_one segs : is_Some (with_first segs !! 1).
Proof.
  unfold with_first. case_bool_decide as H; [by rewrite lookup_insert_eq|].
  by destruct (segs !! 1).
Qed.

Lemma with_first_segment s seg c :
  disk_ok s -> with_first (cow_segments s) !! seg = Some c ->
  0 < seg <= I64_MAX /\ 0 <= c <= zlen (segment_file s seg).
Proof.
  intros Hd [H|(-> & -> & _)]%with_first_lookup; [by eapply do_segments|].
  pose proof (zlen_nonneg (segment_file s 1)). unfold I64_MAX. lia.
Qed.

Lemma segment_rows_perm segs : segment_rows segs ≡ₚ map_to_list segs.
Proof. apply merge_sort_Permutation. Qed.
Lemma segment_rows_NoDup segs : NoDup (segment_rows segs).*1.
Proof. rewrite segment_rows_perm. apply NoDup_fst_map_to_list. Qed.
Lemma elem_of_segment_rows segs k c : (k, c) ∈ segment_rows segs <-> segs !! k = Some c.
Proof. rewrite segment_rows_perm. apply elem_of_map_to_list. Qed.

(** The files left by the scan and the cuts are exactly the committed ones. *)
Lemma recovered_files s segs :
  filter (fun f : Z * list Z => is_Some (segs !! f.1))
    (list_to_map ((fun x : Z * Z => (x.1, trimmed s x.1 x.2)) <$> segment_rows segs)
     ∪ files s)
  = map_imap (fun seg c => Some (trimmed s seg c)) segs.
Proof.
  apply map_eq. intros k. rewrite map_lookup_filter, lookup_union, map_lookup_imap.
  destruct (segs !! k) as [c|] eqn:Hk; simpl.
  - assert ((list_to_map ((fun x : Z * Z => (x.1, trimmed s x.1 x.2)) <$> segment_rows segs)
      : gmap Z (list Z)) !! k = Some (trimmed s k c)) as ->.
    { apply elem_of_list_to_map.
      - rewrite <-list_fmap_compose. apply segment_rows_NoDup.
      - apply list_elem_of_fmap. exists (k, c). split; [done|].
        by apply elem_of_segment_rows. }
    destruct (files s !! k); simpl; by rewrite option_guard_True by (rewrite Hk; eauto).
  - destruct (_ ∪ _); [|done]. simpl. rewrite option_guard_False; [done|].
    simpl. rewrite Hk. by intros [].
Qed.

Lemma recover_tails_run s segs :
  stray s = [] -> cow_segments s = segs ->
  (forall seg, is_Some (files s !! seg) -> 0 <= seg <= I64_MAX) ->
  (forall seg c, segs !! seg = Some c -> 0 <= c <= zlen (segment_file s seg)) ->
  reconcile_segments s
  = (Ok tt, set_files (map_imap (fun seg c => Some (trimmed s seg c)) segs) s).
Proof.
  intros Hst Hsegs Hf Hc. unfold reconcile_segments. rewrite transaction_ok.
  set (fs := filter (fun f : Z * list Z => is_Some (segs !! f.1)) (files s)).
  assert (forall k c, segs !! k = Some c -> segment_file (set_files fs s) k = segment_file s k)
    as Hsame.
  { intros k c Hk. unfold segment_file, fs. simpl. rewrite map_lookup_filter.
    destruct (files s !! k); [|done]. simpl.
    by rewrite option_guard_True by (rewrite Hk; eauto). }
  erewrite bind_ok; last first.
  { unfold recover_uncommitted_tails. erewrite bind_ok by done.
    erewrite bind_ok by done. rewrite Hst. erewrite bind_ok by done.
    erewrite bind_ok by done. erewrite bind_ok; last first.
    { rewrite scan_files_run; [done|]. intros k ([k' f] & -> & Hk)%list_elem_of_fmap.
      apply elem_of_map_to_list in Hk. apply Hf. simpl. by rewrite Hk. }
    assert (filter _ (files s) = fs) as ->.
    { unfold fs. apply map_filter_ext. intros k f Hk. rewrite Hsegs. simpl. split; [|by right].
      intros [H|H]; [|done]. destruct H. apply list_elem_of_fmap.
      exists (k, f). split; [done|]. by apply elem_of_map_to_list. }
    rewrite Hsegs. apply trim_segments_run; [apply segment_rows_NoDup|].
    intros [k c] Hk%elem_of_segment_rows. simpl. rewrite (Hsame k c) by done. by apply Hc. }
  unfold remove_orphan_segment_files, modify. do 2 f_equal. simpl.
  rewrite Hst, Hsegs. unfold set_stray, set_files. simpl.
  f_equal; [|by rewrite Hst].
  etransitivity; [apply (recovered_files (set_files fs s))|]. apply map_eq. intros k. rewrite !map_lookup_imap.
  destruct (segs !! k) eqn:Hk; [|done]. simpl. unfold trimmed. by erewrite Hsame.
Qed.

Lemma open_run s : disk_ok s -> open s = (Ok tt, reopened s).
Proof.
  intros Hd. unfold open. erewrite bind_ok by done.
  assert ((if bool_decide (cow_segments s !! 1 = None)
           then set_segments (<[1 := 0]> (cow_segments s)) s else s)
    = set_segments (with_first (cow_segments s)) s) as ->.
  { unfold with_first. case_bool_decide; [done|]. by destruct s. }
  erewrite bind_ok; last first.
  { apply (recover_tails_run _ (with_first (cow_segments s))); simpl.
    - apply (do_stray _ Hd).
    - done.
    - apply (do_files _ Hd).
    - intros seg c Hc. by apply (with_first_segment s seg c Hd) in Hc as [_ ?]. }
  unfold refresh_read_cache, modify, set_locations, set_files, reopened. simpl.
  by rewrite (do_stray _ Hd).
Qed.

Lemma reopened_row s id row :
  disk_ok s -> cow_chunks s !! id = Some row ->
  row_content (reopened s) row = row_content s row /\ row_ok blake3 (reopened s) id row.
Proof.
  intros Hd Hrow. pose proof (do_rows _ Hd _ _ Hrow) as Hok.
  destruct (ro_committed _ _ _ _ Hok) as (c & Hc1 & Hc2).
  apply with_first_mono in Hc1 as Hc3. apply row_ok_transfer; [done|by eauto|].
  intros off n Hoff Hn Hle. unfold segment_file at 1. simpl.
  rewrite map_lookup_imap, Hc3. simpl. unfold trimmed. apply slice_take; lia.
Qed.

Lemma abs_reopened s : disk_ok s -> abs (reopened s) = abs s.
Proof.
  intros Hd. apply map_eq. intros id. rewrite !abs_lookup. simpl.
  destruct (cow_chunks s !! id) as [row|] eqn:Hrow; [|done]. simpl.
  by rewrite (proj1 (reopened_row s id row Hd Hrow)).
Qed.

Lemma inv_reopened s : disk_ok s -> inv blake3 (reopened s).
Proof.
  intros Hd. assert (wf blake3 (reopened s)) as Hwf.
  { split; simpl.
    - intros id row Hrow. by apply reopened_row.
    - intros seg c Hc. destruct (with_first_segment s seg c Hd Hc) as [H1 H2].
      split; [done|]. split; [lia|]. rewrite map_lookup_imap, Hc. simpl.
      eexists. split; [done|]. unfold trimmed. rewrite zlen_take. lia.
    - exists 1. apply with_first_one.
    - intros seg. rewrite map_lookup_imap. intros [f Hf].
      by destruct (with_first (cow_segments s) !! seg). }
  split; [done|]. intros id loc. simpl. rewrite lookup_fmap.
  destruct (cow_chunks s !! id) as [row|] eqn:Hrow; [|done]. intros [= <-].
  split; [by eauto|]. exists (segment_id row).
  destruct (ro_committed _ _ _ _ (wf_rows _ _ Hwf id row Hrow)) as (c & Hc & _).
  simpl in Hc. rewrite Hc. split; [by eauto|]. simpl. lia.
Qed.

Lemma open_recovers s :
  disk_ok s ->
  exists s', open s = (Ok tt, s') /\ inv blake3 s' /\ abs s' = abs s.
Proof.
  intros Hd. exists (reopened s). rewrite open_run by done.
  split; [done|]. split; [by apply inv_reopened|by apply abs_reopened].
Qed.

Lemma wf_disk_ok s : wf blake3 s -> stray s = [] -> disk_ok s.
Proof.
  intros Hwf Hst. split; [apply Hwf| | |done].
  - intros seg c Hc. destruct (wf_segments _ _ Hwf _ _ Hc) as (H1 & H2 & f & Hf & Hle).
    unfold segment_file. rewrite Hf. simpl. lia.
  - intros seg Hs%(wf_files _ _ Hwf). destruct Hs as [c Hc].
    destruct (wf_segments _ _ Hwf _ _ Hc). lia.
Qed.

Lemma inv_disk_ok s : inv blake3 s -> stray s = [] -> disk_ok s.
Proof.
  intros [Hwf _] Hst. by apply wf_disk_ok.
Qed.

(** Uncommitted writes: the tables are as before, and so is every committed
    byte; anything else in the segment files is arbitrary. *)
Record torn (s d : ChunkStore) : Prop := {
  tn_segments : cow_segments d = cow_segments s;
  tn_chunks : cow_chunks d = cow_chunks s;
  tn_stray : stray d = stray s;
  tn_committed : forall seg c, cow_segments s !! seg = Some c ->
    trimmed d seg c = trimmed s seg c;
  tn_files : forall seg, is_Some (files d !! seg) -> 0 <= seg <= I64_MAX }.

Lemma torn_refl s d :
  inv blake3 s -> cow_segments d = cow_segments s -> cow_chunks d = cow_chunks s ->
  files d = files s -> stray d = stray s -> torn s d.
Proof.
  intros [Hwf _] H1 H2 H3 H4. split; [done..| |].
  - intros seg c Hc. unfold trimmed, segment_file. by rewrite H3.
  - intros seg. rewrite H3. intros Hf%(wf_files _ _ Hwf). destruct Hf as [c Hc].
    destruct (wf_segments _ _ Hwf _ _ Hc). lia.
Qed.

Lemma torn_row s d id row :
  torn s d -> row_ok blake3 s id row ->
  row_content d row = row_content s row /\ row_ok blake3 d id row.
Proof.
  intros Ht Hok. destruct (ro_committed _ _ _ _ Hok) as (c & Hc1 & Hc2).
  apply row_ok_transfer; [done| |].
  - exists c. by rewrite (tn_segments _ _ Ht).
  - intros off n Hoff Hn Hle. pose proof (tn_committed _ _ Ht _ _ Hc1) as Hc.
    unfold trimmed in Hc.
    rewrite <-(slice_take _ off n c), Hc by lia. apply slice_take; lia.
Qed.

Lemma torn_disk_ok s d :
  inv blake3 s -> stray s = [] -> torn s d -> disk_ok d /\ abs d = abs s.
Proof.
  intros Hi Hst Ht. pose proof (inv_disk_ok s Hi Hst) as Hd.
  assert (forall id row, cow_chunks s !! id = Some row ->
    row_content d row = row_content s row /\ row_ok blake3 d id row) as Hrows.
  { intros id row Hrow. by apply torn_row, (do_rows _ Hd). }
  split; [split|].
  - intros id row. rewrite (tn_chunks _ _ Ht). intros Hrow. by apply Hrows.
  - intros seg c. rewrite (tn_segments _ _ Ht). intros Hc.
    destruct (do_segments _ Hd seg c Hc) as [H1 H2]. split; [done|].
    pose proof (tn_committed _ _ Ht _ _ Hc) as Heq. apply (f_equal (@zlen Z)) in Heq.
    unfold trimmed in Heq. rewrite !zlen_take in Heq. lia.
  - apply (tn_files _ _ Ht).
  - by rewrite (tn_stray _ _ Ht).
  - apply map_eq. intros id. rewrite !abs_lookup, (tn_chunks _ _ Ht).
    destruct (cow_chunks s !! id) as [row|] eqn:Hrow; [|done]. simpl.
    by rewrite (proj1 (Hrows id row Hrow)).
Qed.

(** ** Dying in [put] *)

(** A transaction that did not commit leaves the tables; its writes to files
    of uncommitted data are torn. *)
Lemma put_torn s (b : list Z) seg committed d :
  inv blake3 s -> target_segment s (zlen b) seg committed ->
  cow_segments d = cow_segments s -> cow_chunks d = cow_chunks s ->
  torn_file s d seg committed -> torn s d.
Proof.
  intros [Hwf _] Ht Hsg Hch [Hst Hfiles].
  destruct (target_segment_facts _ _ _ _ _ Hwf Ht) as (H1 & H2 & H3 & _).
  assert (forall k, is_Some (files s !! k) -> 0 <= k <= I64_MAX) as Hran.
  { intros k Hk%(wf_files _ _ Hwf). destruct Hk as [c Hc]. destruct (wf_segments _ _ Hwf _ _ Hc). lia. }
  destruct Hfiles as [Hf|[junk Hf]]; (split; [done..| |]); rewrite ?Hf; [|done| |].
  - intros k c Hk. unfold trimmed, segment_file. by rewrite Hf.
  - intros k c Hk. unfold trimmed, segment_file. rewrite Hf.
    destruct (decide (k = seg)) as [->|Hne]; [|by rewrite lookup_insert_ne].
    rewrite lookup_insert_eq. simpl.
    assert (c = committed) as -> by (destruct H3; congruence).
    destruct (wf_segments _ _ Hwf _ _ Hk) as (_ & _ & f & Hfk & Hle).
    unfold segment_file. rewrite Hfk. simpl.
    rewrite resize_zero_take by done. rewrite take_app_le, take_take; [f_equal; lia|].
    rewrite length_take. unfold zlen in *. lia.
  - intros k. destruct (decide (k = seg)) as [->|Hne]; [lia|].
    rewrite lookup_insert_ne by done. apply Hran.
Qed.

Lemma append_under_cases stops s b r d :
  inv blake3 s -> zlen b <= CHUNK_SIZE ->
  transaction (append_record_under stops (blake3 b) b) s = (r, d) ->
  (exists loc seg com, r = Ok loc /\ target_segment s (zlen b) seg com
     /\ d = written s seg com (blake3 b) b)
  \/ (r = Panic /\ torn s d).
Proof.
  intros Hi Hb. pose proof Hi as [Hwf _]. unfold transaction.
  destruct (append_record_cases blake3 s (blake3 b) b Hwf) as [(seg & com & Ht)|Hp].
  - destruct (append_record_start blake3 stops s seg com (blake3 b) b Hwf Ht) as (m & -> & Hm).
    destruct (target_segment_facts _ _ _ _ _ Hwf Ht) as (Hc & _).
    destruct (write_record_under _ _ _ _ _ _) as [r1 d1] eqn:Hw.
    apply write_record_cases in Hw as [[-> ->]|[-> Htorn]]; [| |done]; intros [= <- <-].
    + left. eexists _, seg, com. split_and!; [done..|]. unfold written. simpl. by rewrite Hm.
    + right. split; [done|]. by apply (put_torn s b seg com).
  - rewrite Hp. intros [= <- <-]. right. split; [done|].
    apply (torn_refl s). all: done.
Qed.

Lemma put_under_cases stops s b r d :
  inv blake3 s -> stray s = [] -> put_under blake3 stops b id s = (r, d) ->
  disk_ok d /\
  ((abs d = abs s /\ (forall i, r = Ok i -> no_collision blake3 b -> exists n, abs s !! blake3 b = Some (b, n)))
   \/ (abs d = <[blake3 b := (b, 0)]> (abs s) /\ forall e, r <> Err e)).
Proof.
  intros Hi Hst. pose proof Hi as [Hwf _]. pose proof (wf_disk_ok s Hwf Hst) as Hd.
  unfold put_under, bind, gets, guard, modify, ret, throw, check_registered_len.
  destruct (zlen b <=? CHUNK_SIZE) eqn:Hb; cbn; [|intros [= <- <-]; naive_solver].
  apply Z.leb_le in Hb. destruct (cow_chunks s !! blake3 b) as [row|] eqn:Hrow; cbn.
  { assert (no_collision blake3 b -> exists n, abs s !! blake3 b = Some (b, n)) as Hn.
    { intros Hcoll. destruct (registered_len blake3 s b row) as [Hct _]; [done..|].
      rewrite abs_lookup, Hrow. simpl. rewrite Hct. eauto. }
    destruct (row_len row =? zlen b); intros [= <- <-]; (split; [done|left]); split; [done| |done|done]; eauto. }
  unfold Datatypes.id. rewrite Hrow.
  destruct (transaction _ s) as [r1 d1] eqn:Ht.
  apply append_under_cases in Ht as [(loc & seg & com & -> & Ht & ->)|[-> Ht]]; [|by intros [= <- <-];
    destruct (torn_disk_ok s d1 Hi Hst Ht) as [? ?]; split; [|left; split]|done|done].
  destruct (target_segment_facts _ _ _ _ _ Hwf Ht) as (H1 & H2 & H3 & _).
  pose proof (written_wf _ blake3_len s seg com b Hwf H1 Hb H2 H3) as Hw.
  pose proof (abs_written _ blake3_len s seg com b Hwf H1 Hb H3) as Ha.
  unfold on_disk, nothing_lost. destruct (stops CacheRecord _); intros [= <- <-].
  - split; [by apply wf_disk_ok|by right].
  - split; [|by right]. apply wf_disk_ok; [|done]. by apply wf_set_locations.
Qed.

(** ** Dying in [gc] *)

(** Before the commit nothing but the files of fresh segments has changed. *)
Definition fresh_only (s d : ChunkStore) : Prop :=
  stray d = stray s /\
  (forall seg, seg < first_fresh s -> files d !! seg = files s !! seg) /\
  (forall seg, is_Some (files d !! seg) -> seg <= I64_MAX).

Lemma fresh_only_torn s d :
  inv blake3 s -> cow_segments d = cow_segments s -> cow_chunks d = cow_chunks s ->
  fresh_only s d -> torn s d.
Proof.
  intros Hi Hsg Hch (Hst & Hold & Hmax). pose proof Hi as [Hwf _]. split; [done..| |].
  - intros seg c Hc. unfold trimmed, segment_file.
    rewrite Hold; [done|]. apply first_fresh_gt. eauto.
  - intros seg Hf. split; [|by apply Hmax].
    destruct (decide (seg < first_fresh s)) as [Hlt|Hge].
    + rewrite Hold in Hf by done. apply (wf_files _ _ Hwf) in Hf as [c Hc].
      destruct (wf_segments _ _ Hwf _ _ Hc). lia.
    + pose proof (first_fresh_pos blake3 s Hi). lia.
Qed.

Lemma torn_segments_fresh s d last data :
  fresh_only s d -> last <= I64_MAX ->
  fresh_only s (torn_segments (first_fresh s) last data d).
Proof.
  intros (Hst & Hold & Hmax) Hlast. split_and!; [done|..]; simpl.
  - intros seg Hs. rewrite <- Hold by done. rewrite lookup_union, (map_lookup_filter_None_2 _ data).
    + rewrite (left_id None union), map_lookup_filter. destruct (files d !! seg); [|done]. simpl.
      rewrite option_guard_True; [done|]. simpl. lia.
    + right. intros f _. simpl. lia.
  - intros seg [f [Hf|[_ Hf]]%lookup_union_Some_raw]; apply map_lookup_filter_Some in Hf as [Hf Hr];
      simpl in Hr; [lia|]. apply Hmax. eauto.
Qed.

Lemma gc_inv_fresh s done g d :
  inv blake3 s -> gc_inv s done g d -> gc_segment g <= I64_MAX -> fresh_only s d.
Proof.
  intros [Hwf _] Hg Hmax. split_and!; [apply (gi_tables _ _ _ _ Hg)|apply (gi_old _ _ _ _ Hg)|].
  intros seg Hs. destruct (decide (seg < first_fresh s)) as [Hlt|Hge].
  - rewrite (gi_old _ _ _ _ Hg) in Hs by done. apply (wf_files _ _ Hwf) in Hs as [c Hc].
    destruct (wf_segments _ _ Hwf _ _ Hc). lia.
  - apply (gi_new _ _ _ _ Hg) in Hs; lia.
Qed.

(** Under any machine, an action does what it does when nothing stops it, or
    dies and leaves [D]. *)
Definition or_dies {A} (D : ChunkStore -> Prop) (m m0 : CS A) (s : ChunkStore) : Prop :=
  forall r d, m s = (r, d) -> m0 s = (r, d) \/ (r = Panic /\ D d).

Lemma or_dies_refl {A} D (m : CS A) s : or_dies D m m s.
Proof. intros r d. by left. Qed.

Lemma or_dies_bind {A B} D (m m0 : CS A) (k k0 : A -> CS B) s :
  or_dies D m m0 s -> (forall a s1, m0 s = (Ok a, s1) -> or_dies D (k a) (k0 a) s1) ->
  or_dies D (bind m k) (bind m0 k0) s.
Proof.
  intros Hm Hk r d. unfold bind. destruct (m s) as [r1 s1] eqn:H1.
  destruct (Hm r1 s1 H1) as [H0|[-> HD]]; [|intros [= <- <-]; by right].
  rewrite H0. destruct r1 as [a|e|]; [|by left..]. intros Hr. by apply (Hk a s1 H0).
Qed.

Lemma or_dies_on_disk {A} (D : ChunkStore -> Prop) stops step lost (act : CS A) s :
  (forall data, D (lost data s)) -> or_dies D (on_disk stops step lost act) (on_disk never step lost act) s.
Proof.
  intros HD r d. unfold on_disk at 1. destruct (stops step s) as [data|]; [|by left].
  intros [= <- <-]. right. by split.
Qed.

Section GcUnder.
Context (stops : Machine) (s : ChunkStore).
Hypothesis Hi : inv blake3 s.

Lemma gc_row_or_dies done g s1 id row :
  gc_inv s done g s1 -> cow_chunks s !! id = Some row -> gc_segment g < I64_MAX ->
  or_dies (fresh_only s) (gc_row_under blake3 stops (first_fresh s) g (id, row))
    (gc_row_under blake3 never (first_fresh s) g (id, row)) s1.
Proof.
  intros Hg Hrow Hmax. pose proof (gc_inv_fresh s done g s1 Hi Hg ltac:(lia)) as Hf.
  unfold gc_row_under. apply or_dies_bind; [apply or_dies_refl|]. intros fo s2 [= <- <-].
  apply or_dies_bind; [apply or_dies_refl|]. intros file s2 [_ ->]%ok_or_ok_inv.
  apply or_dies_bind; [apply or_dies_refl|]. intros bs s2 [= _ <-].
  apply or_dies_bind; [apply or_dies_refl|]. intros [] s2 [_ ->]%guard_ok_inv.
  destruct (_ && _).
  - destruct (gc_rollover s done g s1 Hg) as [Hnew Hg1].
    apply or_dies_bind.
    + apply or_dies_bind; [apply or_dies_on_disk; intros; apply torn_segments_fresh; [done|lia]|].
      intros [] s2 [= <-]. rewrite (proj2 (Z.eqb_neq _ _)) by lia.
      apply or_dies_bind; [apply or_dies_refl|]. intros [] s2 [= <-].
      apply or_dies_bind; [apply or_dies_on_disk; intros; apply torn_segments_fresh; [done|lia]|].
      intros [] s2 _. apply or_dies_refl.
    + intros g' s2 Hrun. erewrite bind_ok in Hrun by done.
      rewrite (proj2 (Z.eqb_neq _ _)) in Hrun by lia. erewrite bind_ok in Hrun by done.
      erewrite bind_ok in Hrun by (apply Hnew). injection Hrun as <- <-.
      apply or_dies_bind; [apply or_dies_on_disk; intros; apply torn_segments_fresh; simpl; [|lia]|].
      * apply (gc_inv_fresh s done _ _ Hi Hg1). simpl. lia.
      * intros [] s3 _. apply or_dies_refl.
  - apply or_dies_bind; [apply or_dies_refl|]. intros g' s2 [= <- <-].
    apply or_dies_bind; [apply or_dies_on_disk; intros; apply torn_segments_fresh; [done|lia]|].
    intros [] s3 _. apply or_dies_refl.
Qed.

Lemma gc_loop_or_dies rows done g s1 :
  gc_inv s done g s1 -> (forall r, r ∈ rows -> cow_chunks s !! r.1 = Some r.2) ->
  gc_segment g + zlen rows <= I64_MAX ->
  or_dies (fresh_only s) (foldM (gc_row_under blake3 stops (first_fresh s)) g rows)
    (foldM (gc_row_under blake3 never (first_fresh s)) g rows) s1.
Proof.
  revert done g s1. induction rows as [|[id row] rows IH]; intros done g s1 Hg Hin Hmax; cbn [foldM].
  { apply or_dies_refl. }
  rewrite zlen_cons in Hmax. pose proof (zlen_nonneg rows).
  assert (cow_chunks s !! id = Some row) as Hrow by (apply (Hin (id, row)); by left).
  apply or_dies_bind; [apply (gc_row_or_dies done); [done..|lia]|]. intros g1 s2 H1.
  destruct (gc_row_step blake3 blake3_len s Hi done g s1 id row) as (g2 & s3 & H2 & Hg2 & Hle); [done..|lia|].
  rewrite H2 in H1. injection H1 as -> ->.
  apply (IH (done ++ [(id, row)])); [done| |lia]. intros r Hr. apply Hin. by right.
Qed.

Lemma gc_transaction_or_dies :
  gc_room s -> or_dies (fresh_only s) (gc_transaction_under blake3 stops) (gc_transaction_under blake3 never) s.
Proof.
  intros Hroom. pose proof Hroom as Hr. unfold gc_room in Hr. pose proof (first_fresh_pos blake3 s Hi).
  pose proof (zlen_nonneg (referenced_rows s)).
  assert (fresh_only s s) as Hf0.
  { split_and!; [done..|]. intros seg Hs. apply (wf_files _ _ (proj1 Hi)) in Hs as [c Hc].
    destruct (wf_segments _ _ (proj1 Hi) _ _ Hc). lia. }
  destruct (gc_start blake3 s Hi) as [Hnew Hg0].
  destruct (gc_loop blake3 blake3_len s Hi (referenced_rows s) [] _ _ Hg0) as (g & s1 & Hloop & Hg & Hle).
  { intros r Hx. by apply (elem_of_referenced s) in Hx as [? _]. }
  { simpl. lia. }
  simpl in Hle. pose proof (gc_inv_fresh s _ g s1 Hi Hg ltac:(lia)) as Hf1.
  unfold gc_transaction_under. apply or_dies_bind; [apply or_dies_refl|]. intros rows s2 [= <- <-].
  apply or_dies_bind; [apply or_dies_refl|]. intros old s2 [= <- <-].
  fold (first_fresh s). rewrite (proj2 (Z.ltb_ge _ _)) by lia.
  apply or_dies_bind; [apply or_dies_refl|]. intros [] s2 [= <-].
  apply or_dies_bind; [apply or_dies_on_disk; intros; apply torn_segments_fresh; [done|lia]|].
  intros [] s2 Hn. change (new_segment_file (first_fresh s) s = (Ok tt, s2)) in Hn.
  rewrite Hnew in Hn. injection Hn as <-.
  apply or_dies_bind; [apply (gc_loop_or_dies (referenced_rows s) []); [done| |simpl; lia]|].
  { intros r Hx. by apply (elem_of_referenced s) in Hx as [? _]. }
  intros g' s2 Hl. rewrite Hloop in Hl. injection Hl as <- <-.
  apply or_dies_bind; [apply or_dies_on_disk; intros; apply torn_segments_fresh; [done|lia]|]. intros [] s2 [= <-].
  apply or_dies_bind; [apply or_dies_on_disk; intros; apply torn_segments_fresh; [done|lia]|]. intros [] s2 [= <-].
  assert (forall d, files d = files s1 -> stray d = stray s1 -> fresh_only s d) as Hsame.
  { intros d Hfd Hsd. destruct Hf1 as (? & ? & ?). split_and!; [congruence|..]; by rewrite Hfd. }
  apply or_dies_bind; [apply or_dies_refl|]. intros [] s2 Hk2.
  apply (keeps_forM same_files) in Hk2; [|intros []; apply insert_segment_files].
  apply or_dies_bind; [apply or_dies_refl|]. intros [] s3 [= <-].
  apply or_dies_bind; [apply or_dies_refl|]. intros [] s3 Hk3.
  apply (keeps_forM same_files) in Hk3; [|intros []; apply move_row_files].
  apply or_dies_bind; [apply or_dies_refl|]. intros [] s4 Hk4.
  apply (keeps_forM same_files) in Hk4; [|apply delete_segment_files].
  destruct Hk2 as [F2 S2], Hk3 as [F3 S3], Hk4 as [F4 S4]. simpl in F3, S3.
  apply or_dies_bind; [apply or_dies_on_disk; intros; apply Hsame; unfold nothing_lost; congruence|].
  intros [] s5 _. apply or_dies_refl.
Qed.
End GcUnder.

(** Files of unregistered segments do not matter. *)
Lemma disk_ok_extra s fs :
  disk_ok s ->
  (forall seg, is_Some (files s !! seg) -> fs !! seg = files s !! seg) ->
  (forall seg, is_Some (cow_segments s !! seg) -> is_Some (files s !! seg)) ->
  (forall seg, is_Some (fs !! seg) -> 0 <= seg <= I64_MAX) ->
  disk_ok (set_files fs s) /\ abs (set_files fs s) = abs s.
Proof.
  intros Hd Hsame Hreg Hran.
  assert (forall seg, is_Some (cow_segments s !! seg) ->
    segment_file (set_files fs s) seg = segment_file s seg) as Hsf.
  { intros seg Hs%Hreg. unfold segment_file. simpl. by rewrite Hsame. }
  assert (forall id row, cow_chunks s !! id = Some row ->
    row_content (set_files fs s) row = row_content s row
    /\ row_ok blake3 (set_files fs s) id row) as Hrows.
  { intros id row Hrow. pose proof (do_rows _ Hd _ _ Hrow) as Hok.
    destruct (ro_committed _ _ _ _ Hok) as (c & Hc1 & Hc2).
    apply row_ok_transfer; [done|by eauto|]. intros. by rewrite Hsf by eauto. }
  split; [split|].
  - intros id row Hrow. by apply Hrows.
  - intros seg c Hc. rewrite Hsf by (simpl in Hc; eauto). by apply (do_segments _ Hd).
  - done.
  - apply (do_stray _ Hd).
  - apply map_eq. intros id. rewrite !abs_lookup. simpl.
    destruct (cow_chunks s !! id) as [row|] eqn:Hrow; [|done]. simpl.
    by rewrite (proj1 (Hrows id row Hrow)).
Qed.


(** After the commit: the old files go, and any of them may stay or be back. *)
Section Removing.
Context (s : ChunkStore) (g : GcState) (s1 : ChunkStore).
Hypothesis Hi : inv blake3 s.
Hypothesis Hst : stray s = [].
Hypothesis Hg : gc_inv s (referenced_rows s) g s1.
Hypothesis Htop : gc_segment g <= I64_MAX.

Record committed_move (d : ChunkStore) : Prop := {
  cm_segments : cow_segments d = cow_segments (switched s g s1);
  cm_chunks : cow_chunks d = cow_chunks (switched s g s1);
  cm_stray : stray d = [];
  cm_fresh : forall seg, seg ∉ segment_ids s -> files d !! seg = files s1 !! seg;
  cm_files : forall seg f, files d !! seg = Some f -> files s1 !! seg = Some f }.

Lemma committed_move_switched : committed_move (switched s g s1).
Proof.
  split; [done|done| |done|done]. simpl. rewrite <- Hst. apply (gi_tables _ _ _ _ Hg).
Qed.

Lemma committed_move_undone data d :
  committed_move d -> committed_move (undone_removals (segment_ids s) (files s1) data d).
Proof.
  intros []. split; [done..| |]; simpl.
  - intros seg Hs. rewrite lookup_union, (map_lookup_filter_None_2 _ (files s1)).
    + rewrite (right_id None union). auto.
    + right. intros f _ [? _]. done.
  - intros seg f [Hf|[_ Hf]]%lookup_union_Some_raw; [auto|]. by apply map_lookup_filter_Some in Hf as [? _].
Qed.

Lemma committed_move_locations m d : committed_move d -> committed_move (set_locations m d).
Proof. by intros []. Qed.

Lemma remove_segments_keeps stops d r d' :
  committed_move d -> files d = files s1 ->
  remove_segments_under stops (segment_ids s) d = (r, d') -> committed_move d'.
Proof.
  intros Hd Hf. unfold remove_segments_under. rewrite (bind_ok _ _ d (files d) d) by done. rewrite Hf. revert Hd.
  apply (preserves_bind committed_move).
  - apply preserves_forM_in. intros seg Hseg d1 r1 d2 Hd1. unfold on_disk.
    destruct (stops RemoveSegment d1); intros [= _ <-]; [by apply committed_move_undone|].
    destruct Hd1. split; [done..| |]; simpl.
    + intros k Hk. rewrite lookup_delete_ne; [auto|]. by intros ->.
    + intros k f [_ Hk]%lookup_delete_Some. auto.
  - intros [] d1 r1 d2 Hd1. unfold on_disk.
    destruct (stops SyncRemovals d1); intros [= _ <-]; [by apply committed_move_undone|done].
Qed.

Lemma committed_move_ok d :
  committed_move d ->
  disk_ok d /\ abs d = filter (fun x : list Z * (list Z * Z) => x.2.2 <> 0) (abs s).
Proof.
  intros [H1 H2 H3 H4 H5]. pose proof (collected_wf blake3 s Hi g s1 Hg Htop) as Hw.
  pose proof (wf_set_locations _ (locations d) _ Hw) as Hw'.
  assert (stray (collected s g s1) = []) as Hs'
    by (simpl; rewrite <- Hst; apply (gi_tables _ _ _ _ Hg)).
  pose proof (wf_disk_ok _ Hw' Hs') as Hd.
  assert (d = set_files (files d) (set_locations (locations d) (collected s g s1))) as ->.
  { destruct d. unfold set_files, set_locations. simpl in *. f_equal; congruence. }
  rewrite <- (abs_collected blake3 s Hi g s1 Hg).
  destruct (disk_ok_extra (set_locations (locations d) (collected s g s1)) (files d) Hd) as [Ho Ha].
  - intros seg [f Hf]. cbn [files set_locations] in *. rewrite Hf.
    simpl in Hf. apply map_lookup_filter_Some in Hf as [Hf Hn]. by rewrite H4.
  - intros seg [c Hc]. destruct (wf_segments _ _ Hw _ _ Hc) as (_ & _ & f & Hf & _).
    cbn [files set_locations]. eauto.
  - intros seg [f Hf]. apply H5 in Hf. pose proof (first_fresh_pos blake3 s Hi).
    destruct (gc_inv_fresh s _ g s1 Hi Hg Htop) as (_ & Hold & Hmax).
    split; [|apply Hmax; eauto]. destruct (decide (seg < first_fresh s)) as [Hlt|]; [|lia].
    rewrite Hold in Hf by done.
    assert (is_Some (cow_segments s !! seg)) as [c Hc] by (apply (wf_files _ _ (proj1 Hi)); eauto).
    destruct (wf_segments _ _ (proj1 Hi) _ _ Hc). lia.
  - split; [exact Ho|exact Ha].
Qed.
End Removing.

Lemma gc_under_cases stops s r d :
  inv blake3 s -> stray s = [] -> gc_room s -> gc_under blake3 stops s = (r, d) ->
  disk_ok d /\
  ((abs d = abs s /\ is_ok r = false)
   \/ abs d = filter (fun x : list Z * (list Z * Z) => x.2.2 <> 0) (abs s)).
Proof.
  intros Hi Hst Hroom. unfold gc_under. rewrite (bind_ok _ _ s (stats s) s) by done.
  destruct (gc_transaction_run blake3 blake3_len s Hi Hroom) as (g & s1 & Hrun & Hg & Htop).
  unfold bind at 1, transaction.
  destruct (gc_transaction_under blake3 stops s) as [r1 d1] eqn:H1.
  destruct (gc_transaction_or_dies stops s Hi Hroom r1 d1 H1) as [H0|[-> Hf]].
  - rewrite Hrun in H0. injection H0 as <- <-. cbv beta iota. intros Hr.
    pose proof (committed_move_switched s g s1 Hst Hg) as Hm.
    enough (committed_move s g s1 d) as Hd
      by (destruct (committed_move_ok s g s1 Hi Hst Hg Htop d Hd); split; [done|by right]).
    revert Hr. unfold bind at 1, on_disk at 1.
    destruct (stops CacheMove (switched s g s1)); [by intros [= _ <-]|].
    set (m := list_to_map _). cbv beta iota. unfold modify at 1.
    pose proof (committed_move_locations s g s1 m _ Hm) as Hm'. unfold bind at 1.
    destruct (remove_segments_under stops (segment_ids s) _) as [r2 d2] eqn:H2.
    apply (remove_segments_keeps s g s1 stops) in H2; [|exact Hm'|done].
    destruct r2; by intros [= _ <-].
  - intros [= <- <-]. assert (torn s (ChunkStore.set_segments (cow_segments s)
      (ChunkStore.set_chunks (cow_chunks s) d1))) as Ht by by apply fresh_only_torn.
    destruct (torn_disk_ok s _ Hi Hst Ht) as [? ?]. split; [done|]. by left.
Qed.

(** There is a file for every registered segment and for nothing else, exactly
    as long as committed. *)
Definition files_exact (s : ChunkStore) : Prop :=
  (forall seg, is_Some (files s !! seg) <-> is_Some (cow_segments s !! seg)) /\
  forall seg c, cow_segments s !! seg = Some c -> zlen (segment_file s seg) = c.

Lemma reopened_exact s : disk_ok s -> files_exact (reopened s).
Proof.
  intros Hd.
  assert (forall seg c, with_first (cow_segments s) !! seg = Some c ->
    segment_file (reopened s) seg = trimmed s seg c) as Hf.
  { intros seg c Hc. unfold segment_file. simpl. by rewrite map_lookup_imap, Hc. }
  split; simpl.
  - intros seg. rewrite map_lookup_imap. destruct (with_first _ !! seg); simpl; split; intros []; eauto; done.
  - intros seg c Hc. rewrite (Hf seg c Hc). unfold trimmed. rewrite zlen_take.
    destruct (with_first_segment s seg c Hd Hc). lia.
Qed.
End Recovery.
