(* ===== verification/ContentStore.v ===== *)
(** What the rest of the workspace core relies on of the chunk store: an
    interface of operations with their laws.  The namespace and the repository
    layers are modelled against it; the chunk store is its implementation, and
    the laws are discharged by the refinement lemmas of ChunkStoreFacts.v and
    ChunkGc.v. *)

From S2P Require Import Prelude Error RustStr ChunkStore Bytes ChunkStoreFacts ChunkGc.
#[local] Open Scope Z_scope.

Abbreviation content_map := (gmap (list Z) (list Z * Z)) (only parsing).

(** ** Streams *)

Lemma CHUNK_SIZE_pos : 0 < CHUNK_SIZE.
Proof. done. Qed.
#[local] Opaque CHUNK_SIZE.

Lemma chunk_list_concat fuel b : (length b <= fuel)%nat -> concat (chunk_list fuel b) = b.
Proof.
  pose proof CHUNK_SIZE_pos. revert b. induction fuel as [|fuel IH]; intros b Hb.
  - by destruct b; simpl in Hb; [|lia].
  - destruct b as [|x b]; [done|]. cbn [chunk_list]. cbn [concat].
    rewrite IH; [apply take_drop|]. rewrite length_drop. simpl in *. lia.
Qed.

Lemma chunk_list_sizes fuel b : Forall (fun c => zlen c <= CHUNK_SIZE) (chunk_list fuel b).
Proof.
  pose proof CHUNK_SIZE_pos. revert b. induction fuel as [|fuel IH]; intros b; [constructor|].
  destruct b as [|x b]; [constructor|]. cbn [chunk_list]. constructor; [|apply IH].
  rewrite zlen_take. lia.
Qed.

(** The blocks a stream is stored as. *)
Definition stream_chunks (b : list Z) : list (list Z) :=
  match b with [] => [[]] | _ => chunk_list (length b) b end.

(** ** The interface *)

Class ContentStore (St : Type) := {
  cs_put : list Z -> action Error St (list Z);
  cs_put_stream : list Z -> action Error St (list (list Z) * Z);
  cs_read : list Z -> action Error St (list Z);
  cs_pin : list Z -> action Error St unit;
  cs_unpin : list Z -> action Error St unit;
  cs_pin_many : list (list Z * Z) -> action Error St unit;
  cs_unpin_many : list (list Z * Z) -> action Error St unit;
  cs_reconcile : gmap (list Z) Z -> action Error St unit;
  cs_verify : action Error St unit;
  cs_gc : action Error St ChunkGcReport }.

(** Add to every reference count. *)
Definition add_refs (delta : list Z -> Z) (m : content_map) : content_map :=
  map_imap (fun id x => Some (x.1, x.2 + delta id)) m.
Definition drop_unreferenced (m : content_map) : content_map :=
  filter (fun x : list Z * (list Z * Z) => x.2.2 <> 0) m.

Class ContentStoreLaws (St : Type) {CS : ContentStore St} := {
  cs_inv : St -> Prop;
  cs_abs : St -> content_map;
  (** Contents the store can tell apart from all others. *)
  cs_distinct : list Z -> Prop;
  (** Space for [n] more records. *)
  cs_room : Z -> St -> Prop;

  cs_room_mono : forall n m s, m <= n -> cs_room n s -> cs_room m s;
  cs_refs_nonneg : forall s id b n, cs_inv s -> cs_abs s !! id = Some (b, n) -> 0 <= n;
  cs_put_any : forall s b r s', cs_inv s -> cs_put b s = (r, s') ->
    cs_inv s' /\ (cs_abs s' = cs_abs s
      \/ exists id, cs_abs s !! id = None /\ cs_abs s' = <[id := (b, 0)]> (cs_abs s))
    /\ (cs_distinct b -> forall id, r = Ok id -> exists n, cs_abs s' !! id = Some (b, n));
  cs_put_ok : forall s b n, cs_inv s -> cs_distinct b -> zlen b <= CHUNK_SIZE ->
    0 <= n -> cs_room (n + 1) s ->
    exists id s', cs_put b s = (Ok id, s') /\ cs_room n s';
  cs_stream_any : forall s b r s', cs_inv s -> cs_put_stream b s = (r, s') ->
    cs_inv s'
    /\ (forall id c n, cs_abs s !! id = Some (c, n) -> cs_abs s' !! id = Some (c, n))
    /\ (Forall cs_distinct (stream_chunks b) -> forall ids n, r = Ok (ids, n) -> n = zlen b
          /\ Forall2 (fun id c => exists k, cs_abs s' !! id = Some (c, k)) ids (stream_chunks b));
  cs_stream_ok : forall s b n, cs_inv s -> Forall cs_distinct (stream_chunks b) ->
    0 <= n -> cs_room (zlen (stream_chunks b) + n) s ->
    exists ids s', cs_put_stream b s = (Ok (ids, zlen b), s') /\ cs_room n s';
  cs_read_law : forall s id, cs_inv s ->
    exists s', cs_read id s
        = (match cs_abs s !! id with
           | Some (b, _) => Ok b
           | None => Err (Corrupt "unknown chunk") end, s')
      /\ cs_inv s' /\ cs_abs s' = cs_abs s
      /\ (forall n, cs_room n s -> cs_room n s');
  cs_pin_law : forall s id, cs_inv s ->
    match cs_abs s !! id with
    | Some (b, n) => exists s', cs_pin id s = (Ok tt, s') /\ cs_inv s'
        /\ cs_abs s' = <[id := (b, n + 1)]> (cs_abs s)
        /\ (forall k, cs_room k s -> cs_room k s')
    | None => exists e, cs_pin id s = (Err e, s)
    end;
  cs_unpin_law : forall s id, cs_inv s ->
    match cs_abs s !! id with
    | Some (b, n) => if 0 <? n
        then exists s', cs_unpin id s = (Ok tt, s') /\ cs_inv s'
          /\ cs_abs s' = <[id := (b, n - 1)]> (cs_abs s)
          /\ (forall k, cs_room k s -> cs_room k s')
        else exists e, cs_unpin id s = (Err e, s)
    | None => exists e, cs_unpin id s = (Err e, s)
    end;
  cs_pin_many_law : forall s counts r s', cs_inv s -> cs_pin_many counts s = (r, s') ->
    cs_inv s' /\ cs_abs s' = if is_ok r
      then add_refs (fun id => count_of id (positive_counts counts)) (cs_abs s)
      else cs_abs s;
  cs_unpin_many_law : forall s counts r s', cs_inv s -> cs_unpin_many counts s = (r, s') ->
    cs_inv s' /\ cs_abs s' = if is_ok r
      then add_refs (fun id => - count_of id (positive_counts counts)) (cs_abs s)
      else cs_abs s;
  cs_reconcile_law : forall s expected,
    cs_inv s -> (forall id n, expected !! id = Some n -> 0 <= n <= I64_MAX) ->
    (forall id, is_Some (expected !! id) -> is_Some (cs_abs s !! id)) ->
    exists s', cs_reconcile expected s = (Ok tt, s') /\ cs_inv s'
      /\ cs_abs s' = map_imap (fun id x => Some (x.1, default 0 (expected !! id))) (cs_abs s);
  cs_verify_law : forall s, cs_inv s ->
    exists s', cs_verify s = (Ok tt, s') /\ cs_inv s' /\ cs_abs s' = cs_abs s;
  cs_gc_law : forall s, cs_inv s -> cs_room (1 + Z.of_nat (size (cs_abs s))) s ->
    exists rep s', cs_gc s = (Ok rep, s') /\ cs_inv s'
      /\ cs_abs s' = drop_unreferenced (cs_abs s) }.

(** ** The chunk store implements the interface *)

Section Instance_.
Context (blake3 : list Z -> list Z).

Definition chunk_content_store : ContentStore ChunkStore := {|
  cs_put := put blake3; cs_put_stream := put_stream blake3; cs_read := read blake3; cs_pin := pin; cs_unpin := unpin;
  cs_pin_many := pin_many; cs_unpin_many := unpin_many;
  cs_reconcile := reconcile_references; cs_verify := verify blake3; cs_gc := gc blake3 |}.

Hypothesis blake3_len : forall b, zlen (blake3 b) = 32.

Definition room_for (n : Z) (s : ChunkStore) : Prop :=
  forall seg, is_Some (cow_segments s !! seg) -> seg + n <= I64_MAX.

Lemma put_room s b n :
  inv blake3 s -> no_collision blake3 b -> zlen b <= CHUNK_SIZE -> 0 <= n ->
  room_for (n + 1) s ->
  exists s', put blake3 b s = (Ok (blake3 b), s') /\ inv blake3 s'
    /\ abs s' = abs_put (blake3 b) b (abs s) /\ room_for n s'.
Proof.
  intros Hi Hd Hb Hn Hroom.
  destruct (put_hook_spec blake3 blake3_len s b Datatypes.id) as (s' & Hp & Hi' & Ha & Hg);
    [done|done| |done|done|].
  { intros seg Hs%Hroom. lia. }
  assert ((if cow_chunks s !! blake3 b is Some _ then s else Datatypes.id s) = s) as Heq
    by by destruct (cow_chunks s !! blake3 b).
  rewrite Heq in Ha, Hg. exists s'. split_and!; [done..|].
  intros k (k0 & Hk0%Hroom & Hle)%Hg. lia.
Qed.

Lemma adjust_abs counts incr s r s' :
  inv blake3 s -> adjust_refs counts incr s = (r, s') ->
  inv blake3 s' /\ abs s' = if is_ok r
    then add_refs (fun id => (if incr then 1 else -1) * count_of id (positive_counts counts))
           (abs s)
    else abs s.
Proof.
  intros Hi Ha. pose proof (adjust_refs_inv blake3 _ _ _ _ _ Hi Ha) as Hi'.
  split; [done|]. apply adjust_refs_spec in Ha. destruct r as [u|e|]; subst; [|done..].
  cbn [is_ok]. apply map_eq. intros id. unfold add_refs. rewrite map_lookup_imap, !abs_lookup. simpl.
  rewrite map_lookup_imap. by destruct (cow_chunks s !! id).
Qed.

Lemma update_refs_law s id p f e :
  inv blake3 s -> (forall r, 0 <= r -> p r = true -> 0 <= f r) ->
  match abs s !! id with
  | Some (b, n) => if p n
      then exists s', update_refs id p f e s = (Ok tt, s') /\ inv blake3 s'
        /\ abs s' = <[id := (b, f n)]> (abs s)
        /\ (forall k, room_for k s -> room_for k s')
      else update_refs id p f e s = (Err e, s)
  | None => update_refs id p f e s = (Err e, s)
  end.
Proof.
  intros Hi Hf. rewrite abs_lookup.
  destruct (cow_chunks s !! id) as [row|] eqn:Hrow; simpl.
  - destruct (p (refs row)) eqn:Hp.
    + eexists. rewrite (update_refs_run s id p f e row) by done. split; [done|].
      split; [|by split; [apply abs_with_refs|]]. apply inv_with_refs; [done..|].
      apply Hf; [|done]. apply (ro_refs _ _ _ _ (wf_rows _ _ (proj1 Hi) _ _ Hrow)).
    + apply update_refs_err. congruence.
  - apply update_refs_err. congruence.
Qed.

Lemma read_law s id :
  inv blake3 s ->
  exists s', read blake3 id s
      = (match abs s !! id with
         | Some (b, _) => Ok b
         | None => Err (Corrupt "unknown chunk") end, s')
    /\ inv blake3 s' /\ abs s' = abs s /\ cow_segments s' = cow_segments s.
Proof.
  intros Hi. rewrite abs_lookup. destruct (cow_chunks s !! id) as [row|] eqn:Hrow; simpl.
  - destruct (read_registered blake3 s id row Hi Hrow) as (m & Hr & Him). eauto.
  - exists s. by rewrite read_unregistered.
Qed.

Lemma reconcile_law s expected :
  inv blake3 s -> (forall id n, expected !! id = Some n -> 0 <= n <= I64_MAX) ->
  (forall id, is_Some (expected !! id) -> is_Some (abs s !! id)) ->
  exists s', reconcile_references expected s = (Ok tt, s') /\ inv blake3 s'
    /\ abs s' = map_imap (fun id x => Some (x.1, default 0 (expected !! id))) (abs s).
Proof.
  intros Hi Hpos Hin. exists (rebuilt expected s). split.
  { apply reconcile_references_run; [done|]. intros id H%Hin. rewrite abs_lookup in H.
    by apply fmap_is_Some in H. }
  split; [apply inv_rebuilt; [done|]; intros id n Hn; apply (Hpos id n Hn)|]. apply map_eq. intros id.
  rewrite map_lookup_imap, !abs_lookup. simpl. rewrite map_lookup_imap.
  by destruct (cow_chunks s !! id).
Qed.

Lemma gc_room_of_room_for s :
  inv blake3 s -> room_for (1 + Z.of_nat (size (abs s))) s -> gc_room s.
Proof.
  intros Hi Hroom. unfold gc_room, first_fresh.
  assert (zlen (referenced_rows s) <= Z.of_nat (size (abs s))) as Hle.
  { unfold abs, referenced_rows, zlen. rewrite map_size_fmap, merge_sort_Permutation.
    rewrite <-length_map_to_list. apply inj_le, length_filter. }
  destruct (wf_nonempty _ _ (proj1 Hi)) as [seg Hseg].
  apply (elem_of_segment_ids s) in Hseg.
  destruct (last_sorted_max (segment_ids s) seg) as (y & Hy & _); [|done|].
  { apply (StronglySorted_merge_sort Z.le). }
  rewrite Hy. simpl. apply last_Some_elem_of, (elem_of_segment_ids s) in Hy.
  apply Hroom in Hy. lia.
Qed.

Lemma gc_law s :
  inv blake3 s -> room_for (1 + Z.of_nat (size (abs s))) s ->
  exists rep s', gc blake3 s = (Ok rep, s') /\ inv blake3 s'
    /\ abs s' = drop_unreferenced (abs s).
Proof.
  intros Hi Hroom. destruct (gc_run blake3 blake3_len s Hi) as (rep & g & s' & Hr & Hg & Ht & _).
  - by apply gc_room_of_room_for.
  - exists rep, (collected s g s'). split; [done|]. split.
    + split; [by apply collected_wf|by apply collected_cache].
    + by apply (abs_collected blake3).
Qed.

(** Everything stored stays stored, under the same content. *)
Definition extends (s s' : ChunkStore) : Prop :=
  forall id b n, abs s !! id = Some (b, n) -> abs s' !! id = Some (b, n).

Lemma mapM_put_run l s n :
  inv blake3 s -> Forall (fun c => zlen c <= CHUNK_SIZE /\ no_collision blake3 c) l ->
  0 <= n -> room_for (zlen l + n) s ->
  exists s', mapM (put blake3) l s = (Ok (blake3 <$> l), s') /\ inv blake3 s'
    /\ extends s s' /\ Forall (fun c => exists n, abs s' !! blake3 c = Some (c, n)) l
    /\ room_for n s'.
Proof.
  revert s. induction l as [|c l IH]; intros s Hi Hl Hn Hroom; simpl.
  { exists s. rewrite zlen_nil in Hroom. split_and!; [done|done| |constructor|done].
    by intros ???. }
  inversion Hl as [|? ? [Hc Hd] Hl']; subst. rewrite zlen_cons in Hroom.
  pose proof (zlen_nonneg l).
  destruct (put_room s c (zlen l + n)) as (s1 & Hp & Hi1 & Ha & Hr1);
    [done|done|done|lia| |].
  { intros k Hk%Hroom. lia. }
  destruct (put_any blake3 blake3_len s c _ _ Hi Hp) as (_ & _ & Hst).
  destruct (Hst Hd _ eq_refl) as (_ & k & Hk).
  destruct (IH s1) as (s2 & Hm & Hi2 & He & Hf & Hr2); [done..|].
  exists s2. erewrite bind_ok by done. erewrite bind_ok by done. split; [done|].
  split; [done|]. split.
  - intros id b j Hj. apply He. rewrite Ha. unfold abs_put.
    destruct (abs s !! blake3 c) eqn:Hb; [done|]. rewrite lookup_insert_ne; congruence.
  - split; [|done]. constructor; [exists k; by apply He|done].
Qed.

Lemma mapM_read_run l s :
  inv blake3 s -> Forall (fun c => exists n, abs s !! blake3 c = Some (c, n)) l ->
  exists s', mapM (read blake3) (blake3 <$> l) s = (Ok l, s').
Proof.
  revert s. induction l as [|c l IH]; intros s Hi Hl; simpl; [by eexists|].
  inversion Hl as [|? ? [n Hn] Hl']; subst.
  destruct (read_law s (blake3 c) Hi) as (s1 & Hr & Hi1 & Ha & _).
  rewrite Hn in Hr. erewrite bind_ok by done.
  destruct (IH s1) as (s2 & Hm); [done| |].
  { by rewrite Ha. }
  erewrite bind_ok by done. by eexists.
Qed.

Lemma put_stream_run b s n :
  inv blake3 s -> Forall (no_collision blake3) (stream_chunks b) ->
  0 <= n -> room_for (zlen (stream_chunks b) + n) s ->
  exists s', put_stream blake3 b s = (Ok (blake3 <$> stream_chunks b, zlen b), s')
    /\ inv blake3 s' /\ extends s s'
    /\ Forall (fun c => exists n, abs s' !! blake3 c = Some (c, n)) (stream_chunks b)
    /\ room_for n s'.
Proof.
  intros Hi Hd Hn Hroom.
  assert (Forall (fun c => zlen c <= CHUNK_SIZE /\ no_collision blake3 c) (stream_chunks b))
    as Hall.
  { apply Forall_and. split; [|done]. unfold stream_chunks.
    destruct b; [by repeat constructor|]. apply chunk_list_sizes. }
  destruct (mapM_put_run (stream_chunks b) s n Hi Hall Hn Hroom) as (s' & Hm & Hi' & He & Hf & Hr).
  exists s'. split; [|done]. unfold put_stream, stream_chunks in *.
  destruct b as [|x b].
  - erewrite bind_ok by done. simpl in Hm. rewrite bool_decide_eq_true_2 by done.
    apply bind_ok_inv in Hm as (id & s1 & Hp & Hm). unfold bind, ret in Hm.
    injection Hm as -> ->. erewrite bind_ok by done. done.
  - erewrite bind_ok by done. by rewrite bool_decide_eq_false_2.
Qed.

Lemma mapM_put_any l s r s' :
  inv blake3 s -> mapM (put blake3) l s = (r, s') ->
  inv blake3 s' /\ extends s s'
  /\ (Forall (no_collision blake3) l -> forall ids, r = Ok ids ->
        Forall2 (fun id c => exists k, abs s' !! id = Some (c, k)) ids l).
Proof.
  revert s r s'. induction l as [|c l IH]; intros s r s' Hi H; cbn [mapM] in H.
  { injection H as <- <-. split; [done|]. split; [by intros ???|].
    intros _ ids [= <-]. constructor. }
  unfold bind in H.
  destruct (put blake3 c s) as [rc s1] eqn:Hp.
  destruct (put_any blake3 blake3_len s c rc s1 Hi Hp) as (Hi1 & Ha & Hst).
  assert (extends s s1) as He1.
  { intros id b n Hn. destruct Ha as [->| ->]; [done|]. unfold abs_put.
    destruct (abs s !! blake3 c) eqn:Hb; [done|]. rewrite lookup_insert_ne; congruence. }
  destruct rc as [id|e|]; [|injection H as <- <-; by split_and!..].
  destruct (mapM (put blake3) l s1) as [rl s2] eqn:Hm.
  destruct (IH s1 rl s2 Hi1 Hm) as (Hi2 & He2 & Hf).
  assert (extends s s2) as He by (intros ? ? ? ?; by apply He2, He1).
  destruct rl as [ids|e|]; injection H as <- <-; [|by split_and!..].
  split_and!; [done..|]. intros [Hc Hl]%Forall_cons_1 ids' [= <-].
  constructor; [|by apply Hf]. destruct (Hst Hc _ eq_refl) as (_ & k & Hk). exists k. by apply He2.
Qed.

(** [put_stream] on every exit. *)
Lemma put_stream_any b s r s' :
  inv blake3 s -> put_stream blake3 b s = (r, s') ->
  inv blake3 s' /\ extends s s'
  /\ (Forall (no_collision blake3) (stream_chunks b) -> forall ids n, r = Ok (ids, n) -> n = zlen b
        /\ Forall2 (fun id c => exists k, abs s' !! id = Some (c, k)) ids (stream_chunks b)).
Proof.
  intros Hi H.
  assert (exists r0, mapM (put blake3) (stream_chunks b) s = (r0, s')
    /\ match r with Ok (ids, n) => r0 = Ok ids /\ n = zlen b | _ => True end) as (r0 & Hm & Hr).
  { unfold put_stream, stream_chunks in *. destruct b as [|x b].
    - erewrite bind_ok in H by done. rewrite bool_decide_eq_true_2 in H by done.
      cbn [mapM]. unfold bind, ret in *. destruct (put blake3 [] s) as [[id|e|] s1];
        injection H as <- <-; eauto.
    - unfold bind in H. destruct (mapM _ _ s) as [[ids|e|] s1];
        rewrite ?bool_decide_eq_false_2 in H by done; injection H as <- <-; eauto. }
  clear H. apply mapM_put_any in Hm as (H1 & H2 & H3); [|done]. split; [done|].
  split; [done|]. intros Hd ids n ->. destruct Hr as [-> ->]. split; [done|]. by apply H3.
Qed.

#[export] Instance chunk_content_laws : @ContentStoreLaws ChunkStore chunk_content_store.
Proof.
  refine {| cs_inv := inv blake3; cs_abs := abs; cs_distinct := no_collision blake3;
            cs_room := room_for |}; simpl.
  - intros n m s Hle Hr seg Hs. apply Hr in Hs. lia.
  - intros s id b n Hi Hn. rewrite abs_lookup in Hn.
    destruct (cow_chunks s !! id) as [row|] eqn:Hrow; [|done]. injection Hn as _ <-.
    apply (ro_refs _ _ _ _ (wf_rows _ _ (proj1 Hi) _ _ Hrow)).
  - intros s b r s' Hi Hp. destruct (put_any blake3 blake3_len s b r s') as (H1 & H2 & H3);
      [done..|]. split; [done|]. split.
    + destruct H2 as [H2|H2]; [by left|]. unfold abs_put in H2.
      destruct (abs s !! blake3 b) eqn:Hb; [by left|right; eauto].
    + intros Hd id Hid. by apply (H3 Hd) in Hid as [_ ?].
  - intros s b n Hi Hd Hb Hn Hroom. destruct (put_room s b n) as (s' & H1 & _ & _ & H2); eauto.
  - intros s b r s' Hi Hp. by apply put_stream_any.
  - intros s b n Hi Hd Hn Hroom.
    destruct (put_stream_run b s n Hi Hd Hn Hroom) as (s' & Hp & _ & _ & _ & Hr). eauto.
  - intros s id Hi. destruct (read_law s id Hi) as (s' & H1 & H2 & H3 & H4).
    exists s'. split_and!; [done..|]. intros n. unfold room_for. by rewrite H4.
  - intros s id Hi. pose proof (update_refs_law s id (fun _ => true) (fun r => r + 1)
      (Corrupt "cannot pin unknown chunk") Hi ltac:(cbn; intros; lia)) as H.
    destruct (abs s !! id) as [[b n]|]; [done|by eexists].
  - intros s id Hi. pose proof (update_refs_law s id (fun r => 0 <? r) (fun r => r - 1)
      (Corrupt "cannot unpin unknown or unreferenced chunk") Hi ltac:(cbn; intros; lia)) as H.
    destruct (abs s !! id) as [[b n]|]; [|by eexists].
    destruct (0 <? n); [done|by eexists].
  - intros s counts r s' Hi Hp. destruct (adjust_abs counts true s r s' Hi Hp) as [H1 H2].
    split; [done|]. rewrite H2. destruct (is_ok r); [|done].
    unfold add_refs. apply map_imap_ext. intros id. destruct (_ !! id); [|done]. simpl. do 3 f_equal; lia.
  - intros s counts r s' Hi Hp. destruct (adjust_abs counts false s r s' Hi Hp) as [H1 H2].
    split; [done|]. rewrite H2. destruct (is_ok r); [|done].
    unfold add_refs. apply map_imap_ext. intros id. destruct (_ !! id); [|done]. simpl. do 3 f_equal; lia.
  - intros s expected Hi Hpos Hin. by apply reconcile_law.
  - intros s Hi. destruct (verify_ok blake3 blake3_len s Hi) as (m & Hv & Hm). eauto.
  - intros s Hi Hroom. by apply gc_law.
Defined.
End Instance_.
