(* ===== verification/ChunkSpec.v ===== *)
(** What the chunk store guarantees to its callers and to other processes, as
    theorems over [ChunkStore]'s operations for any BLAKE3 with 32-byte
    digests.  The witnesses run them on a store with a small concrete digest. *)

From S2P Require Import Prelude Error RustStr ChunkStore Bytes ChunkStoreFacts ChunkGc ChunkRecovery ContentStore.
#[local] Open Scope Z_scope.
#[local] Opaque CHUNK_SIZE.

Section Spec.
Context (blake3 : list Z -> list Z).
Hypothesis blake3_len : forall b, zlen (blake3 b) = 32.

(** Loop of [unpin_many] when the counts suffice. *)
Lemma unpin_loop_run l s :
  Forall (fun c : list Z * Z => 0 < c.2 <= I64_MAX) l ->
  (forall id, id ∈ l.*1 -> exists row, cow_chunks s !! id = Some row
     /\ count_of id l <= refs row) ->
  exists s', forM l (fun '(id, count) =>
    guard (count <=? I64_MAX) (Corrupt "chunk reference count overflow") ;;;
    update_refs id (fun r => count <=? r) (fun r => r - count)
      (Corrupt "cannot adjust unknown or insufficiently referenced chunk")) s = (Ok tt, s').
Proof.
  revert s. induction l as [|[id n] l IH]; intros s Hl Hin; unfold forM in *; simpl.
  { by eexists. }
  inversion Hl as [|? ? Hn Hl']; subst. simpl in Hn.
  assert (forall i (l : list (list Z * Z)), Forall (fun c : list Z * Z => 0 < c.2 <= I64_MAX) l ->
    0 <= count_of i l) as Hpos.
  { intros i l0. induction 1 as [|[j m] l0 Hm _ IHl]; simpl; [lia|].
    simpl in Hm. case_bool_decide; lia. }
  destruct (Hin id) as (row & Hrow & Hle); [by left|]. simpl in Hle.
  rewrite bool_decide_eq_true_2 in Hle by done. pose proof (Hpos id l Hl').
  erewrite bind_ok; last first.
  { erewrite bind_ok by (unfold guard; by rewrite (proj2 (Z.leb_le _ _)) by lia).
    apply (update_refs_run s id _ _ _ row); [done|]. apply Z.leb_le. lia. }
  apply IH; [done|]. intros i Hi. simpl. destruct (decide (i = id)) as [->|Hne].
  - rewrite lookup_insert_eq. eexists. split; [done|]. simpl. lia.
  - rewrite lookup_insert_ne by done. destruct (Hin i) as (row' & Hr' & Hle'); [by right|].
    exists row'. split; [done|]. simpl in Hle'. by rewrite bool_decide_eq_false_2 in Hle' by done.
Qed.

Lemma adjust_loop_bounds l p f e s u s' :
  forM l (fun '(id, count) =>
    guard (count <=? I64_MAX) (Corrupt "chunk reference count overflow") ;;;
    update_refs id (p count) (f count) (e : Error)) s = (Ok u, s') ->
  Forall (fun c : list Z * Z => c.2 <= I64_MAX) l
  /\ (forall id, id ∈ l.*1 -> is_Some (cow_chunks s !! id)).
Proof.
  revert s. induction l as [|[id n] l IH]; intros s H; unfold forM in *; simpl in H.
  { split; [constructor|]. by intros id ?%elem_of_nil. }
  run_inv. apply update_refs_inv in H0 as (row & Hrow & _ & ->).
  apply IH in H as [H1 H2]. split; [constructor; [simpl; lia|done]|].
  intros i [Hi|Hi]%elem_of_cons; [subst; simpl; eauto|].
  apply H2 in Hi. simpl in Hi. destruct (decide (i = id)) as [->|Hne]; [eauto|].
  by rewrite lookup_insert_ne in Hi.
Qed.

Lemma unpin_undoes_pin s counts s' :
  inv blake3 s -> pin_many counts s = (Ok tt, s') ->
  unpin_many counts s' = (Ok tt, s).
Proof.
  intros Hi Hp. pose proof (adjust_refs_spec counts true s _ s' Hp) as Hs. cbn in Hs.
  unfold pin_many, adjust_refs in Hp. rewrite transaction_ok in Hp.
  apply (adjust_loop_bounds _ (fun _ _ => true) (fun c r => r + c)) in Hp as [Hb Hin].
  assert (exists s'', unpin_many counts s' = (Ok tt, s'')) as [s'' Hu].
  { unfold unpin_many, adjust_refs. destruct (unpin_loop_run (positive_counts counts) s')
      as [s'' Hs'']; [..|exists s''; by apply transaction_ok].
    - apply Forall_and. split; [|done]. apply Forall_forall.
      intros x Hx. by apply list_elem_of_filter in Hx as [? _].
    - intros id Hid. destruct (Hin id Hid) as [row Hrow]. subst s'. simpl.
      rewrite map_lookup_imap, Hrow. simpl. eexists. split; [done|]. simpl.
      pose proof (ro_refs _ _ _ _ (wf_rows _ _ (proj1 Hi) _ _ Hrow)). lia. }
  rewrite Hu. f_equal. apply (adjust_refs_spec counts false) in Hu. cbn in Hu.
  subst s''. subst s'. destruct s as [sg ch fs st lo]. unfold set_chunks. simpl. f_equal.
  apply map_eq. intros id. rewrite !map_lookup_imap. destruct (ch !! id) as [[]|]; [|done].
  simpl. unfold set_refs. simpl. do 2 f_equal. lia.
Qed.

(** ** What a successful integrity check means *)

(** The foreign key of the chunk table. *)
Definition registered (s : ChunkStore) : Prop :=
  forall id row, cow_chunks s !! id = Some row -> is_Some (cow_segments s !! segment_id row).

Record intact (s : ChunkStore) (id : list Z) (row : ChunkRow) : Prop := {
  in_hash : blake3 (row_content s row) = id;
  in_magic : slice (segment_file s (segment_id row))
    (payload_offset row - RECORD_HEADER_LEN) 4 = RECORD_MAGIC;
  in_len : u32_from_le_bytes (slice (segment_file s (segment_id row))
    (payload_offset row - RECORD_HEADER_LEN + 4) 4) = row_len row;
  in_id : slice (segment_file s (segment_id row))
    (payload_offset row - RECORD_HEADER_LEN + 8) 32 = id }.

Lemma chunk_location_ok id force s loc s' :
  chunk_location id force s = (Ok loc, s') ->
  (force = false /\ locations s !! id = Some loc /\ s' = s)
  \/ exists row, cow_chunks s !! id = Some row /\ loc = row_location row
     /\ s' = set_locations (<[id := loc]> (locations s)) s.
Proof.
  intros H. unfold chunk_location in H. run_inv.
  destruct (if force then None else locations s !! id) as [l|] eqn:Hl; run_inv.
  - left. destruct force; [done|]. done.
  - right. eauto.
Qed.

Lemma cache_ok_refresh s id row :
  registered s -> cache_ok s -> cow_chunks s !! id = Some row ->
  cache_ok (set_locations (<[id := row_location row]> (locations s)) s).
Proof.
  intros Hreg Hc Hrow i loc. simpl. destruct (decide (i = id)) as [->|Hne].
  - rewrite lookup_insert_eq. intros [= <-]. split; [eauto|].
    exists (segment_id row). split; [by eapply Hreg|simpl; lia].
  - rewrite lookup_insert_ne by done. apply Hc.
Qed.

Lemma read_ok_row s id row b s' :
  registered s -> cache_ok s -> cow_chunks s !! id = Some row ->
  read blake3 id s = (Ok b, s') ->
  exists m, s' = set_locations m s /\ cache_ok s' /\ b = row_content s row /\ blake3 b = id.
Proof.
  intros Hreg Hc Hrow H. unfold read in H.
  assert (forall force loc s1, chunk_location id force s = (Ok loc, s1) ->
    exists m, s1 = set_locations m s /\ cache_ok s1
      /\ (is_Some (files s !! loc_segment_id loc) -> loc = row_location row)) as Hloc.
  { intros force loc s1 [(-> & Hl & ->)|(row' & Hr & -> & ->)]%chunk_location_ok.
    - exists (locations s). split; [by destruct s|]. split; [done|].
      intros Hf. destruct (proj1 (Hc _ _ Hl) Hf) as (r & Hr & <-). congruence.
    - rewrite Hrow in Hr. injection Hr as <-. eexists. split; [done|].
      split; [by apply cache_ok_refresh|done]. }
  apply bind_ok_inv in H as (loc & s1 & Hl & H).
  apply Hloc in Hl as (m & -> & Hc1 & Heq). apply bind_ok_inv in H as (f & s2 & Hf & H).
  injection Hf as <- <-. cbn [files set_locations] in H.
  apply bind_ok_inv in H as ([loc' f'] & s3 & Hsel & H).
  assert (exists m', s3 = set_locations m' s /\ cache_ok s3 /\ loc' = row_location row
    /\ files s !! segment_id row = Some f') as (m' & -> & Hc3 & -> & Hf').
  { destruct (files s !! loc_segment_id loc) as [f|] eqn:Hfl.
    - injection Hsel as <- <- <-. rewrite Heq in * by eauto. eauto.
    - apply bind_ok_inv in Hsel as (loc2 & s4 & Hl2 & Hsel).
      apply chunk_location_ok in Hl2 as [(? & _)|(row' & Hr & -> & ->)]; [done|].
      simpl in Hr. rewrite Hrow in Hr. injection Hr as <-. clear H. run_inv. subst s3. eexists.
      split; [done|]. split; [by apply (cache_ok_refresh (set_locations m s))|]. eauto. }
  apply bind_ok_inv in H as (b' & s4 & Hread & H). injection Hread as Hread <-. run_inv.
  exists m'. split; [done|].
  split; [done|]. unfold read_exact_at in Hread. simpl in Hread.
  destruct (_ || _); [|done]. injection Hread as <-. unfold row_content, segment_file.
  rewrite Hf'. split; [done|]. by apply bool_decide_eq_true in Hb.
Qed.

Lemma verify_row_sound s id row u s' :
  registered s -> cache_ok s -> cow_chunks s !! id = Some row ->
  verify_row blake3 id row s = (Ok u, s') ->
  intact s id row /\ exists m, s' = set_locations m s /\ cache_ok s'.
Proof.
  intros Hreg Hc Hrow H. unfold verify_row in H.
  apply bind_ok_inv in H as (fo & s1 & Hf & H). injection Hf as <- <-.
  apply bind_ok_inv in H as (f & s1 & Hf & H). apply ok_or_ok_inv in Hf as [Hf ->].
  apply bind_ok_inv in H as (? & s1 & Ho & H). apply guard_ok_inv in Ho as [Ho ->].
  apply bind_ok_inv in H as (h & s1 & Hh & H). injection Hh as Hh <-.
  apply bind_ok_inv in H as (? & s1 & Hm & H). apply guard_ok_inv in Hm as [Hm ->].
  apply bind_ok_inv in H as (? & s1 & Hl & H). apply guard_ok_inv in Hl as [Hl ->].
  apply bind_ok_inv in H as (b & s1 & Hr & H). injection H as _ <-.
  apply (read_ok_row s id row b s1 Hreg Hc Hrow) in Hr as (m & -> & Hc' & -> & Hhash).
  split; [|eauto]. apply bool_decide_eq_true in Hm.
  apply andb_true_iff in Hl as [Hl1 Hl2]. apply bool_decide_eq_true in Hl2.
  apply Z.leb_le in Ho. unfold read_exact_at in Hh.
  destruct (_ || _); [|done]. injection Hh as <-.
  assert (segment_file s (segment_id row) = f) as Hsf by (unfold segment_file; by rewrite Hf).
  unfold RECORD_HEADER_LEN in *.
  split; rewrite ?Hsf.
  - done.
  - rewrite slice_slice in Hm by lia. by rewrite Z.add_0_r in Hm.
  - rewrite slice_slice in Hl1 by lia. by apply Z.eqb_eq in Hl1.
  - by rewrite slice_slice in Hl2 by lia.
Qed.

Lemma verify_loop_sound l s u s' :
  registered s -> cache_ok s -> (forall x, x ∈ l -> cow_chunks s !! x.1 = Some x.2) ->
  forM l (fun '(id, row) => verify_row blake3 id row) s = (Ok u, s') ->
  forall x, x ∈ l -> intact s x.1 x.2.
Proof.
  revert s. induction l as [|[id row] l IH]; intros s Hreg Hc Hl H; unfold forM in *; simpl in H.
  { by intros x ?%elem_of_nil. }
  apply bind_ok_inv in H as (v & s1 & Hv & H).
  apply verify_row_sound in Hv as (Hin & m & -> & Hc1); [|done|done|].
  - assert (forall x, x ∈ l -> intact (set_locations m s) x.1 x.2) as Hrest.
    { apply (IH (set_locations m s)); [done..| |by destruct v].
      intros x Hx. apply Hl. by right. }
    intros x [->|Hx]%elem_of_cons; [done|]. by destruct (Hrest x Hx).
  - apply (Hl (id, row)). by left.
Qed.

(** ** Guarantees *)

(** C20: [put] implements "store this content unless its hash is known", also
    when another process commits between the optimistic lookup and the writer
    transaction ([on_miss] is any such interference): it returns the hash of
    the content, keeps the store's invariant, and the stored map afterwards is
    the map before with the content added once, with no references. *)
Theorem put_refines s b on_miss :
  inv blake3 s -> inv blake3 (on_miss s) -> room (on_miss s) ->
  zlen b <= CHUNK_SIZE -> no_collision blake3 b ->
  exists s', put_with_miss_hook blake3 b on_miss s = (Ok (blake3 b), s')
    /\ inv blake3 s'
    /\ abs s' = abs_put (blake3 b) b
         (abs (if cow_chunks s !! blake3 b is Some _ then s else on_miss s)).
Proof.
  intros H1 H2 H3 H4 H5.
  destruct (put_hook_spec blake3 blake3_len s b on_miss H1 H2 H3 H4 H5) as (s' & ? & ? & ? & _).
  eauto.
Qed.

(** Reading refines lookup in the stored map: [read] returns exactly the
    content stored under the id, or the unknown-chunk error, through every
    state of the location cache, and changes nothing but that cache. *)
Theorem read_refines s id :
  inv blake3 s ->
  exists s', read blake3 id s
      = (match abs s !! id with
         | Some (b, _) => Ok b
         | None => Err (Corrupt "unknown chunk") end, s')
    /\ inv blake3 s' /\ abs s' = abs s /\ cow_segments s' = cow_segments s.
Proof. apply read_law. Qed.

(** A stream of any length survives [put_stream]: it is stored in blocks
    whose ids are returned in order with the total length, and reading those
    ids back in order and concatenating gives the stream. *)
Theorem put_stream_roundtrip s b :
  inv blake3 s -> Forall (no_collision blake3) (stream_chunks b) ->
  room_for (zlen (stream_chunks b)) s ->
  exists ids s' blocks s'',
    put_stream blake3 b s = (Ok (ids, zlen b), s') /\ inv blake3 s'
    /\ mapM (read blake3) ids s' = (Ok blocks, s'') /\ concat blocks = b.
Proof.
  intros Hi Hd Hroom.
  rewrite <-(Z.add_0_r (zlen _)) in Hroom.
  destruct (put_stream_run blake3 blake3_len b s 0 Hi Hd ltac:(lia) Hroom)
    as (s' & Hp & Hi' & _ & Hf & _).
  destruct (mapM_read_run blake3 _ s' Hi' Hf) as (s'' & Hr).
  exists (blake3 <$> stream_chunks b), s', (stream_chunks b), s''.
  split_and!; [done..|]. unfold stream_chunks. destruct b; [done|].
  by apply chunk_list_concat.
Qed.

(** C21: Garbage collection refines "forget what is not referenced": it always
    completes, the stored map afterwards is the map before restricted to
    positive reference counts, with contents and counts unchanged, and the
    report counts what was kept and what was dropped. *)
Theorem gc_refines s :
  inv blake3 s -> room_for (1 + Z.of_nat (size (abs s))) s ->
  exists report s', gc blake3 s = (Ok report, s') /\ inv blake3 s'
    /\ abs s' = drop_unreferenced (abs s)
    /\ retained_chunks report = zlen (referenced_rows s)
    /\ removed_chunks report + retained_chunks report = Z.of_nat (size (abs s)).
Proof.
  intros Hi Hroom. apply (gc_room_of_room_for blake3) in Hroom; [|done].
  destruct (gc_run blake3 blake3_len s Hi Hroom) as (rep & g & s' & Hr & Hg & Ht & H1 & H2).
  exists rep, (collected s g s'). split_and!.
  - done.
  - split; [by apply collected_wf|by apply collected_cache].
  - by apply (abs_collected blake3).
  - done.
  - unfold abs. rewrite map_size_fmap. lia.
Qed.

(** C22: A process that keeps reading through its own, now outdated location
    cache while another process collects garbage still gets the right
    answer: the content of every chunk that survived, the unknown-chunk
    error for the others. *)
Theorem stale_reader_after_gc s report s' m id :
  inv blake3 s -> gc_room s -> gc blake3 s = (Ok report, s') ->
  cache_ok (set_locations m s) ->
  fst (read blake3 id (set_locations m s'))
  = match drop_unreferenced (abs s) !! id with
    | Some (b, _) => Ok b
    | None => Err (Corrupt "unknown chunk")
    end.
Proof.
  intros Hi Hroom Hgc Hm.
  destruct (gc_run blake3 blake3_len s Hi Hroom) as (rep & g & s1 & Hr & Hg & Ht & _).
  rewrite Hr in Hgc. injection Hgc as _ <-.
  destruct (read_law blake3 (set_locations m (collected s g s1)) id) as (s2 & -> & _).
  - split; [by apply wf_set_locations, collected_wf|by apply (collected_foreign_cache blake3)].
  - rewrite abs_set_locations. by rewrite (abs_collected blake3 s Hi g s1 Hg).
Qed.

(** Reopening a disk on which the committed data is there. *)
Lemma reopens d :
  disk_ok blake3 d ->
  exists s', open d = (Ok tt, s') /\ inv blake3 s' /\ files_exact s' /\ abs s' = abs d.
Proof.
  intros Hd. exists (reopened d). rewrite (open_run blake3 blake3_len) by done.
  split_and!; [done|by apply (inv_reopened blake3)|by apply (reopened_exact blake3)|by apply (abs_reopened blake3)].
Qed.

(** C5: Whatever step of [put] the process dies in, and whatever is then left of
    the record it was writing ([stops] is any machine), the next [open]
    repairs the store: it succeeds, the invariant holds, every registered
    segment has a file of exactly its committed length and there is no other
    file, and the store holds either exactly what it held before or that plus
    the new content; after a [put] that returned an id the content (unless its
    digest collides) is there, and after one that returned an error nothing
    has changed. *)
Theorem put_crash_recovery (stops : Machine) s b r d :
  inv blake3 s -> stray s = [] -> put_under blake3 stops b id s = (r, d) ->
  exists s', open d = (Ok tt, s') /\ inv blake3 s' /\ files_exact s'
    /\ (abs s' = abs s \/ abs s' = <[blake3 b := (b, 0)]> (abs s))
    /\ (is_ok r = true -> no_collision blake3 b -> exists n, abs s' !! blake3 b = Some (b, n))
    /\ (forall e, r = Err e -> abs s' = abs s).
Proof.
  intros Hi Hst Hrun. destruct (put_under_cases blake3 blake3_len stops s b r d Hi Hst Hrun) as [Hok Hcase].
  destruct (reopens d Hok) as (s' & Ho & Hi' & Hx & Ha). exists s'. rewrite Ha.
  destruct Hcase as [[-> Hst']|[-> Hne]]; (split_and!; [done..|by auto| |]).
  - destruct r as [i| |]; [|done..]. intros _. by apply (Hst' i).
  - done.
  - intros _ _. rewrite lookup_insert_eq. eauto.
  - intros e He. by destruct (Hne e).
Qed.

(** C6: Whatever step of [gc] the process dies in, before its commit (the files
    of the fresh segments are then missing or hold anything) or after it (any
    of the old files still there or there again), the next [open] repairs the
    store: it succeeds, the invariant holds, every registered segment has a
    file of exactly its committed length and there is no other file, and the
    store holds exactly what it held before or exactly what the finished
    collection leaves; the latter when [gc] returned a report. *)
Theorem gc_crash_recovery (stops : Machine) s r d :
  inv blake3 s -> stray s = [] -> gc_room s -> gc_under blake3 stops s = (r, d) ->
  exists s', open d = (Ok tt, s') /\ inv blake3 s' /\ files_exact s'
    /\ ((abs s' = abs s /\ is_ok r = false) \/ abs s' = drop_unreferenced (abs s)).
Proof.
  intros Hi Hst Hroom Hrun.
  destruct (gc_under_cases blake3 blake3_len stops s r d Hi Hst Hroom Hrun) as [Hok Hcase].
  destruct (reopens d Hok) as (s' & Ho & Hi' & Hx & Ha). exists s'. by rewrite Ha.
Qed.

(** [pin_many] and [unpin_many] are all or nothing, and [unpin_many]
    takes back exactly what a successful [pin_many] of the same counts did. *)
Theorem pin_many_atomic s counts r s' :
  inv blake3 s -> pin_many counts s = (r, s') ->
  if is_ok r
  then inv blake3 s'
    /\ abs s' = add_refs (fun id => count_of id (positive_counts counts)) (abs s)
    /\ unpin_many counts s' = (Ok tt, s)
  else s' = s.
Proof.
  intros Hi Hp. destruct (adjust_abs blake3 counts true s r s' Hi Hp) as [Hi' Ha].
  destruct r as [[]|e|]; cbn [is_ok] in *.
  - split; [done|]. split; [|by apply unpin_undoes_pin]. rewrite Ha.
    unfold add_refs. apply map_imap_ext. intros id. destruct (_ !! id); [|done].
    simpl. do 3 f_equal; lia.
  - by apply (adjust_refs_spec counts true) in Hp.
  - by apply (adjust_refs_spec counts true) in Hp.
Qed.

(** [reconcile_references] replaces every reference count by the expected
    one (zero where none is expected) when all expected chunks are known, and
    otherwise fails and changes nothing. *)
Theorem reconcile_exact s expected :
  inv blake3 s -> (forall id n, expected !! id = Some n -> 0 <= n <= I64_MAX) ->
  if decide (map_Forall (fun id _ => is_Some (cow_chunks s !! id)) expected)
  then exists s', reconcile_references expected s = (Ok tt, s') /\ inv blake3 s'
    /\ abs s' = map_imap (fun id x => Some (x.1, default 0 (expected !! id))) (abs s)
  else exists e, reconcile_references expected s = (Err e, s).
Proof.
  intros Hi Hpos. case_decide as Hall.
  - apply (reconcile_law blake3); [done..|]. intros id [n Hn].
    rewrite abs_lookup. apply fmap_is_Some. by apply (Hall id n).
  - by apply reconcile_unknown.
Qed.

(** [verify] accepts a store exactly in good condition: it succeeds on
    every store that satisfies the invariant, and, whatever the segment files
    hold, when it succeeds every registered record has its magic, length and
    hash in its header and a payload that hashes to its id. *)
Theorem verify_correct s :
  registered s -> cache_ok s ->
  (wf blake3 s -> exists s', verify blake3 s = (Ok tt, s'))
  /\ (forall s', verify blake3 s = (Ok tt, s') ->
        forall id row, cow_chunks s !! id = Some row -> intact s id row).
Proof.
  intros Hreg Hc. split.
  - intros Hwf. destruct (verify_ok blake3 blake3_len s (conj Hwf Hc)) as (m & -> & _). eauto.
  - intros s' H id row Hrow. unfold verify in H.
    apply bind_ok_inv in H as (l & s1 & Hl & H). injection Hl as <- <-.
    apply (verify_loop_sound _ s tt s' Hreg Hc) with (x := (id, row)) in H; [done| |].
    + intros [i r] Hx. rewrite merge_sort_Permutation in Hx.
      by apply elem_of_map_to_list in Hx.
    + rewrite merge_sort_Permutation. by apply elem_of_map_to_list.
Qed.
End Spec.

(** The textual form of a chunk id is read back as the same id. *)
Theorem chunk_id_hex_roundtrip (id : list Z) :
  zlen id = 32 -> Forall (fun b => 0 <= b < 256) id -> from_hex (to_hex id) = Ok id.
Proof.
  intros Hlen Hb. unfold from_hex. rewrite str_len_to_hex, Hlen.
  by rewrite hex_pairs_to_hex.
Qed.

(** ** A concrete store *)

(** A digest that tells [1;2;3] and the empty content from everything else. *)
Definition toy_digest (b : list Z) : list Z :=
  if bool_decide (b = [1; 2; 3]) then replicate 32 1
  else if bool_decide (b = []) then replicate 32 2
  else replicate 32 0.

Lemma toy_digest_len b : zlen (toy_digest b) = 32.
Proof. unfold toy_digest. by repeat case_bool_decide. Qed.

Lemma toy_digest_distinct : no_collision toy_digest [1; 2; 3].
Proof. intros b. unfold toy_digest. by repeat case_bool_decide. Qed.

Definition empty_disk : ChunkStore := mkChunkStore ∅ ∅ ∅ [] ∅.
(** A new store, the store after a [put], and the store after a [pin]. *)
Definition new_store : ChunkStore := snd (open empty_disk).
Definition stored : ChunkStore := snd (put toy_digest [1; 2; 3] new_store).
Definition pinned : ChunkStore := snd (pin (toy_digest [1; 2; 3]) stored).

Lemma empty_disk_ok : disk_ok toy_digest empty_disk.
Proof.
  split; simpl.
  - intros id row. by rewrite lookup_empty.
  - intros seg c. by rewrite lookup_empty.
  - intros seg. rewrite lookup_empty. by intros [].
  - done.
Qed.

Lemma new_store_inv : inv toy_digest new_store.
Proof.
  unfold new_store. rewrite (open_run toy_digest toy_digest_len empty_disk empty_disk_ok). simpl.
  apply (inv_reopened toy_digest), empty_disk_ok.
Qed.

Lemma stored_inv : inv toy_digest stored.
Proof.
  destruct (put toy_digest [1; 2; 3] new_store) as [r s'] eqn:H. unfold stored. rewrite H.
  destruct (put_any toy_digest toy_digest_len new_store _ _ _ new_store_inv
    H) as [H1 _]. exact H1.
Qed.

Lemma stored_abs : abs stored = {[ toy_digest [1; 2; 3] := ([1; 2; 3], 0) ]}.
Proof. vm_compute. reflexivity. Qed.

Lemma pinned_inv : inv toy_digest pinned.
Proof.
  unfold pinned. pose proof (update_refs_law toy_digest stored (toy_digest [1; 2; 3])
    (fun _ => true) (fun r => r + 1) (Corrupt "cannot pin unknown chunk") stored_inv
    ltac:(cbn; intros; lia)) as H.
  rewrite stored_abs, lookup_singleton_eq in H.
  destruct H as (s' & H & Hi & _). unfold pin. rewrite H. exact Hi.
Qed.

Lemma pinned_segments : cow_segments pinned = {[ 1 := 43 ]}.
Proof. vm_compute. reflexivity. Qed.

Lemma new_store_room n : n <= I64_MAX - 1 -> room_for n new_store.
Proof.
  intros Hn seg Hs. replace (cow_segments new_store) with ({[ 1 := 0 ]} : gmap Z Z) in Hs
    by (vm_compute; reflexivity).
  destruct Hs as [c Hs]. apply lookup_singleton_Some in Hs as [<- _]. lia.
Qed.

Lemma pinned_gc_room : gc_room pinned.
Proof. unfold gc_room. vm_compute. discriminate. Qed.

Lemma put_refines_witness :
  exists s', put_with_miss_hook toy_digest [1; 2; 3] (fun s => s) new_store
    = (Ok (toy_digest [1; 2; 3]), s').
Proof.
  destruct (put_refines toy_digest toy_digest_len new_store [1; 2; 3] (fun s => s))
    as (s' & H & _).
  - exact new_store_inv.
  - exact new_store_inv.
  - intros seg Hs%(new_store_room 1); [lia|]. unfold I64_MAX. lia.
  - vm_compute. discriminate.
  - exact toy_digest_distinct.
  - exists s'. exact H.
Defined.

Lemma read_refines_witness :
  fst (read toy_digest (toy_digest [1; 2; 3]) stored) = Ok [1; 2; 3].
Proof.
  destruct (read_refines toy_digest stored (toy_digest [1; 2; 3]) stored_inv) as (s' & H & _).
  rewrite H. rewrite stored_abs. vm_compute. reflexivity.
Defined.

Lemma put_stream_roundtrip_witness :
  exists ids s' blocks s'', put_stream toy_digest [1; 2; 3] new_store = (Ok (ids, 3), s')
    /\ mapM (read toy_digest) ids s' = (Ok blocks, s'') /\ concat blocks = [1; 2; 3].
Proof.
  assert (stream_chunks [1; 2; 3] = [[1; 2; 3]]) as Hc.
  { pose proof CHUNK_SIZE_pos. cbn [stream_chunks length chunk_list].
    assert (3 <= CHUNK_SIZE) by (vm_compute; discriminate).
    rewrite take_ge, drop_ge by (simpl; lia). done. }
  destruct (put_stream_roundtrip toy_digest toy_digest_len new_store [1; 2; 3])
    as (ids & s' & blocks & s'' & H1 & _ & H2 & H3).
  - exact new_store_inv.
  - rewrite Hc. constructor; [exact toy_digest_distinct|constructor].
  - rewrite Hc. apply new_store_room. unfold I64_MAX. vm_compute. discriminate.
  - exists ids, s', blocks, s''. split; [exact H1|]. split; [exact H2|exact H3].
Defined.

Lemma gc_refines_witness :
  exists report s', gc toy_digest stored = (Ok report, s') /\ abs s' = ∅.
Proof.
  destruct (gc_refines toy_digest toy_digest_len stored stored_inv) as (rep & s' & H & _ & Ha & _).
  - intros seg Hs. replace (cow_segments stored) with ({[ 1 := 43 ]} : gmap Z Z) in Hs
      by (vm_compute; reflexivity).
    destruct Hs as [c Hs]. apply lookup_singleton_Some in Hs as [<- _].
    rewrite stored_abs. unfold I64_MAX. vm_compute. discriminate.
  - exists rep, s'. split; [exact H|]. rewrite Ha, stored_abs. vm_compute. reflexivity.
Defined.

Lemma stale_reader_after_gc_witness :
  fst (read toy_digest (toy_digest [1; 2; 3])
         (set_locations (locations pinned) (snd (gc toy_digest pinned)))) = Ok [1; 2; 3].
Proof.
  destruct (gc toy_digest pinned) as [[rep|e|] s'] eqn:H.
  - cbn [snd]. rewrite (stale_reader_after_gc toy_digest toy_digest_len pinned rep s'
      (locations pinned) (toy_digest [1; 2; 3]) pinned_inv pinned_gc_room H).
    + vm_compute. reflexivity.
    + exact (proj2 pinned_inv).
  - exfalso. vm_compute in H. discriminate H.
  - exfalso. vm_compute in H. discriminate H.
Defined.

(** A machine that dies while a record is written, leaving its first bytes and
    some others, and one that dies when one of two old files is removed. *)
Definition dies_writing : Machine := fun step _ =>
  match step with WriteRecord => Some {[ 1 := [71; 67; 0; 9] ]} | _ => None end.
Definition dies_copying : Machine := fun step _ =>
  match step with CopyRecord => Some {[ 2 := [71; 67] ]} | _ => None end.
Definition dies_removing : Machine := fun step _ =>
  match step with SyncRemovals => Some {[ 1 := [] ]} | _ => None end.

Lemma put_crash_recovery_witness :
  files (snd (put_under toy_digest dies_writing [1; 2; 3] id new_store)) = {[ 1 := [71; 67; 0; 9] ]} /\
  exists s', open (snd (put_under toy_digest dies_writing [1; 2; 3] id new_store)) = (Ok tt, s')
    /\ inv toy_digest s' /\ files_exact s'.
Proof.
  split; [vm_compute; reflexivity|].
  destruct (put_crash_recovery toy_digest toy_digest_len dies_writing new_store [1; 2; 3]
    (fst (put_under toy_digest dies_writing [1; 2; 3] id new_store))
    (snd (put_under toy_digest dies_writing [1; 2; 3] id new_store))) as (s' & H1 & H2 & H3 & _).
  - exact new_store_inv.
  - vm_compute. reflexivity.
  - by destruct (put_under toy_digest dies_writing [1; 2; 3] id new_store).
  - exists s'. split; [exact H1|]. split; [exact H2|exact H3].
Defined.

Lemma gc_crash_recovery_witness :
  (files (snd (gc_under toy_digest dies_copying pinned)) !! 2 = Some [71; 67]
   /\ exists s', open (snd (gc_under toy_digest dies_copying pinned)) = (Ok tt, s') /\ inv toy_digest s')
  /\ (is_Some (files (snd (gc_under toy_digest dies_removing pinned)) !! 1)
      /\ exists s', open (snd (gc_under toy_digest dies_removing pinned)) = (Ok tt, s') /\ files_exact s').
Proof.
  split; (split; [vm_compute; by eexists || reflexivity|]).
  - destruct (gc_crash_recovery toy_digest toy_digest_len dies_copying pinned
      (fst (gc_under toy_digest dies_copying pinned)) (snd (gc_under toy_digest dies_copying pinned)))
      as (s' & H1 & H2 & _).
    + exact pinned_inv.
    + vm_compute. reflexivity.
    + exact pinned_gc_room.
    + by destruct (gc_under toy_digest dies_copying pinned).
    + exists s'. split; [exact H1|exact H2].
  - destruct (gc_crash_recovery toy_digest toy_digest_len dies_removing pinned
      (fst (gc_under toy_digest dies_removing pinned)) (snd (gc_under toy_digest dies_removing pinned)))
      as (s' & H1 & _ & H3 & _).
    + exact pinned_inv.
    + vm_compute. reflexivity.
    + exact pinned_gc_room.
    + by destruct (gc_under toy_digest dies_removing pinned).
    + exists s'. split; [exact H1|exact H3].
Defined.

Lemma pin_many_atomic_witness :
  unpin_many [(toy_digest [1; 2; 3], 5)] (snd (pin_many [(toy_digest [1; 2; 3], 5)] stored))
  = (Ok tt, stored).
Proof.
  destruct (pin_many [(toy_digest [1; 2; 3], 5)] stored) as [r s'] eqn:H.
  pose proof (pin_many_atomic toy_digest stored _ r s' stored_inv H) as Hp.
  destruct r as [u|e|].
  - apply Hp.
  - exfalso. vm_compute in H. discriminate H.
  - exfalso. vm_compute in H. discriminate H.
Defined.

Lemma reconcile_exact_witness :
  exists s', reconcile_references {[ toy_digest [1; 2; 3] := 7 ]} stored = (Ok tt, s')
    /\ inv toy_digest s'.
Proof.
  pose proof (reconcile_exact toy_digest stored {[ toy_digest [1; 2; 3] := 7 ]} stored_inv) as H.
  rewrite decide_True in H.
  - destruct H as (s' & H1 & H2 & _).
    + intros id n Hn. apply lookup_singleton_Some in Hn as [_ <-]. unfold I64_MAX. lia.
    + exists s'. split; [exact H1|exact H2].
  - intros id n Hn. apply lookup_singleton_Some in Hn as [<- _].
    vm_compute. eexists. reflexivity.
Defined.

Lemma verify_correct_witness :
  exists s', verify toy_digest stored = (Ok tt, s').
Proof.
  apply (verify_correct toy_digest toy_digest_len stored).
  - intros id row Hrow.
    destruct (ro_committed _ _ _ _ (wf_rows _ _ (proj1 stored_inv) id row Hrow)) as (c & Hc & _).
    rewrite Hc. eexists. reflexivity.
  - exact (proj2 stored_inv).
  - exact (proj1 stored_inv).
Defined.

Lemma chunk_id_hex_roundtrip_witness :
  from_hex (to_hex (replicate 32 171)) = Ok (replicate 32 171).
Proof.
  apply chunk_id_hex_roundtrip.
  - reflexivity.
  - apply Forall_replicate. lia.
Defined.
