(* ===== verification/Tracker.v ===== *)
(** The repository change tracker (repository_tracker.rs): which process
    watches a repository, in which epoch, up to which generation, and the
    paths it has seen change.

    The database tables are finite maps keyed as in the schema; every
    transaction is atomic.  The calling process's id, the liveness probe of
    the operating system and the set of repositories that workspaces refer to
    are arguments.  Timestamps are [u64] milliseconds stored as [i64]; the
    schema's CHECK constraints are the guards on what is written. *)

From S2P Require Import Prelude Error RustStr ChunkStore.
From Stdlib Require Import Ascii.
#[local] Open Scope string_scope.
#[local] Open Scope list_scope.
#[local] Open Scope Z_scope.

Definition HEARTBEAT_INTERVAL_MS : Z := 1000.
Definition TRACKER_IDLE_RELEASE_MS : Z := 300000.
Definition HEARTBEAT_STALE_AFTER_MS : Z := 5 * HEARTBEAT_INTERVAL_MS.

Inductive RepositoryTrackerState : Type := Requested | Active | Gap.

#[export] Instance RepositoryTrackerState_eq_dec : EqDecision RepositoryTrackerState.
Proof. solve_decision. Defined.

Record RepositoryTrackerStatus : Type := mkStatus {
  st_repository : string;
  st_state : RepositoryTrackerState;
  st_epoch : Z;
  st_generation : Z;
  st_owner_pid : Z;
  st_heartbeat : Z;
  st_detail : option string }.

Record RepositoryChangeBatch : Type := mkBatch {
  b_epoch : Z; b_generation : Z; b_paths : list string }.

(** A row of cow_repository_trackers; the state is the stored text. *)
Record TrackerRow : Type := mkTracker {
  t_state : string;
  t_epoch : Z;
  t_generation : Z;
  t_owner_pid : Z;
  t_heartbeat : Z;
  t_detail : option string }.

Record TrackerDb : Type := mkTrackerDb {
  trackers : gmap string TrackerRow;
  epoch_floor : gmap string Z;
  tracker_use : gmap string Z;
  events : gset (string * Z * Z * string);
  fences : gmap (string * Z * string) Z }.

Abbreviation TR := (action Error TrackerDb).

Definition set_trackers (m : gmap string TrackerRow) (d : TrackerDb) : TrackerDb :=
  mkTrackerDb m (epoch_floor d) (tracker_use d) (events d) (fences d).
Definition set_epoch_floor (m : gmap string Z) (d : TrackerDb) : TrackerDb :=
  mkTrackerDb (trackers d) m (tracker_use d) (events d) (fences d).
Definition set_tracker_use (m : gmap string Z) (d : TrackerDb) : TrackerDb :=
  mkTrackerDb (trackers d) (epoch_floor d) m (events d) (fences d).
Definition set_events (m : gset (string * Z * Z * string)) (d : TrackerDb) : TrackerDb :=
  mkTrackerDb (trackers d) (epoch_floor d) (tracker_use d) m (fences d).
Definition set_fences (m : gmap (string * Z * string) Z) (d : TrackerDb) : TrackerDb :=
  mkTrackerDb (trackers d) (epoch_floor d) (tracker_use d) (events d) m.

(** [x as i64] for a [u64]. *)
Definition as_i64 (x : Z) : Z := if x <? 2 ^ 63 then x else x - 2 ^ 64.
Definition saturating_sub (a b : Z) : Z := Z.max 0 (a - b).

(** The CHECK constraints of cow_repository_trackers. *)
Definition tracker_row_check (row : TrackerRow) : bool :=
  bool_decide (t_state row ∈ ["requested"; "active"; "gap"])
  && (0 <=? t_epoch row) && (0 <=? t_generation row)
  && (0 <=? t_owner_pid row) && (0 <=? t_heartbeat row).

Definition write_tracker (repository : string) (row : TrackerRow) : TR unit :=
  guard (tracker_row_check row) Sql ;;;
  modify (fun d => set_trackers (<[repository := row]> (trackers d)) d).

Definition path_text (path : string) : result string :=
  if utf8_valid (length (bytes_of_string path)) (bytes_of_string path) then Ok path
  else Err (UnsupportedRepository "repository tracker path is not valid UTF-8").

Definition parse_state (value : string) : result RepositoryTrackerState :=
  if bool_decide (value = "requested") then Ok Requested
  else if bool_decide (value = "active") then Ok Active
  else if bool_decide (value = "gap") then Ok Gap
  else Err (Corrupt "invalid repository tracker state").

(** [ORDER BY] on a text column. *)
Definition str_le (a b : string) : Prop := String.leb a b = true.
#[export] Instance str_le_dec : RelDecision str_le.
Proof. intros a b. unfold str_le. apply _. Defined.
Definition order_by (l : list string) : list string := merge_sort str_le l.

Definition status (repository : string) : TR (option RepositoryTrackerStatus) :=
  let! text := lift (path_text repository) in
  let! row := gets (fun d => trackers d !! text) in
  match row with
  | None => ret None
  | Some row =>
      let! state := lift (parse_state (t_state row)) in
      guard (t_owner_pid row <? 2 ^ 32)
        (Corrupt "invalid repository tracker owner pid") ;;;
      ret (Some (mkStatus repository state (t_epoch row) (t_generation row)
                   (t_owner_pid row) (t_heartbeat row) (t_detail row)))
  end.

Definition touch (repository : string) (now : Z) : TR unit :=
  guard (0 <=? as_i64 now) Sql ;;;
  modify (fun d => set_tracker_use
    (<[repository := match tracker_use d !! repository with
                     | Some used => Z.max used (as_i64 now)
                     | None => as_i64 now
                     end]> (tracker_use d)) d).

Definition pending : TR (list string) :=
  gets (fun d => order_by
    (filter (fun r : string * TrackerRow => t_state r.2 = "requested")
       (map_to_list (trackers d))).*1).

(** The process that calls. *)
Section Process.
Context (process_is_alive : Z -> bool) (process_id : Z).

Definition is_live_at (st : RepositoryTrackerStatus) (now : Z) : bool :=
  bool_decide (st_state st = Active)
  && negb (st_owner_pid st =? 0)
  && process_is_alive (st_owner_pid st)
  && (saturating_sub now (st_heartbeat st) <=? HEARTBEAT_STALE_AFTER_MS).

Definition preserve_active (row : TrackerRow) (now : Z) : bool :=
  let owner := if t_owner_pid row <? 2 ^ 32 then t_owner_pid row else 0 in
  bool_decide (t_state row = "active")
  && negb (owner =? 0)
  && process_is_alive owner
  && (saturating_sub now (t_heartbeat row) <=? HEARTBEAT_STALE_AFTER_MS).

Definition request (repository : string) (now : Z) : TR unit :=
  let! repository := lift (path_text repository) in
  atomically (
    touch repository now ;;;
    let! existing := gets (fun d => trackers d !! repository) in
    match existing with
    | None =>
        let! floor := gets (fun d => default 0 (epoch_floor d !! repository)) in
        write_tracker repository (mkTracker "requested" floor 0 0 0 None)
    | Some row =>
        if preserve_active row now then ret tt
        else write_tracker repository
               (mkTracker "requested" (t_epoch row) 0 0 0 None)
    end).

Definition activate (repository : string) (heartbeat : Z)
  : TR RepositoryTrackerStatus :=
  let! text := lift (path_text repository) in
  atomically (
    let! previous := gets (fun d => trackers d !! text) in
    let! row := ok_or previous
      (Corrupt "cannot activate unregistered repository tracker") in
    guard (bool_decide (t_state row = "requested"))
      (Corrupt "cannot activate repository tracker") ;;;
    let epoch := t_epoch row + 1 in
    write_tracker text
      (mkTracker "active" (as_i64 epoch) 0 process_id (as_i64 heartbeat) None) ;;;
    modify (fun d => set_events
      (filter (fun e : string * Z * Z * string => e.1.1.1 <> text) (events d)) d) ;;;
    modify (fun d => set_fences
      (filter (fun f : string * Z * string * Z => f.1.1.1 <> text) (fences d)) d)) ;;;
  let! st := status repository in
  ok_or st (Corrupt "repository tracker disappeared").

(** The checks [record] and [record_fences] share: [None] is the early
    successful return before activation. *)
Definition owned_active (repository : string) : TR (option TrackerRow) :=
  let! row := gets (fun d => trackers d !! repository) in
  let! row := ok_or row (Corrupt "unregistered repository tracker") in
  if bool_decide (t_state row = "requested") then ret None
  else
    guard (bool_decide (t_state row = "active"))
      (Corrupt "repository tracker is not active") ;;;
    guard (t_owner_pid row =? process_id) ConcurrentRepositoryMutation ;;;
    ret (Some row).

Definition record (repository : string) (paths : list string) (heartbeat : Z)
  : TR unit :=
  let! repository := lift (path_text repository) in
  atomically (
    let! owned := owned_active repository in
    match owned with
    | None => ret tt
    | Some row =>
        (if t_generation row =? I64_MAX then panic else ret tt) ;;;
        let next := t_generation row + 1 in
        write_tracker repository
          (mkTracker (t_state row) (t_epoch row) next (t_owner_pid row)
             (as_i64 heartbeat) (t_detail row)) ;;;
        forM paths (fun path => modify (fun d => set_events
          ({[ (repository, t_epoch row, next, path) ]} ∪ events d) d))
    end).

Definition record_fences (repository : string) (paths : list string) (heartbeat : Z)
  : TR unit :=
  let! repository := lift (path_text repository) in
  atomically (
    let! owned := owned_active repository in
    match owned with
    | None => ret tt
    | Some row =>
        write_tracker repository
          (mkTracker (t_state row) (t_epoch row) (t_generation row) (t_owner_pid row)
             (as_i64 heartbeat) (t_detail row)) ;;;
        forM paths (fun path => modify (fun d => set_fences
          (<[(repository, t_epoch row, path) := as_i64 heartbeat]> (fences d)) d)) ;;;
        modify (fun d => set_fences
          (filter (fun f : string * Z * string * Z =>
             ~ (f.1.1.1 = repository /\ f.2 < as_i64 (saturating_sub heartbeat 60000)))
             (fences d)) d)
    end).

Definition consume_fence (repository : string) (epoch : Z) (path : string)
  : TR (option Z) :=
  let! repository := lift (path_text repository) in
  atomically (
    let! row := gets (fun d => trackers d !! repository) in
    let! row := ok_or row (Corrupt "unknown repository tracker") in
    guard (bool_decide (t_state row = "active") && (t_epoch row =? epoch))
      ConcurrentRepositoryMutation ;;;
    let! removed := gets (fun d =>
      bool_decide (is_Some (fences d !! (repository, as_i64 epoch, path)))) in
    modify (fun d => set_fences
      (delete (repository, as_i64 epoch, path) (fences d)) d) ;;;
    ret (if removed then Some (t_generation row) else None)).

Definition mark_gap (repository : string) (detail : string) (heartbeat : Z)
  : TR unit :=
  let! text := lift (path_text repository) in
  let! row := gets (fun d => trackers d !! text) in
  let matching := match row with
    | Some row =>
        if bool_decide (t_state row = "requested")
           || (bool_decide (t_state row = "active") && (t_owner_pid row =? process_id))
        then Some row else None
    | None => None
    end in
  match matching with
  | Some row =>
      write_tracker text
        (mkTracker "gap" (t_epoch row) (t_generation row) 0
           (as_i64 heartbeat) (Some detail))
  | None =>
      let! st := status repository in
      let! st := ok_or st (Corrupt "cannot mark unknown repository tracker as gap") in
      guard (bool_decide (st_state st = Gap)) ConcurrentRepositoryMutation
  end.

Definition heartbeat (repository : string) (now : Z) : TR unit :=
  let! text := lift (path_text repository) in
  let! row := gets (fun d => trackers d !! text) in
  match row with
  | Some row =>
      guard (bool_decide (t_state row = "active") && (t_owner_pid row =? process_id))
        ConcurrentRepositoryMutation ;;;
      write_tracker text
        (mkTracker (t_state row) (t_epoch row) (t_generation row) (t_owner_pid row)
           (as_i64 now) (t_detail row))
  | None => throw ConcurrentRepositoryMutation
  end.
End Process.

(** Deleting a tracker row: its events and fences go with it. *)
Definition delete_tracker (repository : string) (d : TrackerDb) : TrackerDb :=
  mkTrackerDb (delete repository (trackers d)) (epoch_floor d) (tracker_use d)
    (filter (fun e : string * Z * Z * string => e.1.1.1 <> repository) (events d))
    (filter (fun f : string * Z * string * Z => f.1.1.1 <> repository) (fences d)).

Definition released_state (state : string) : bool :=
  bool_decide (state = "active") || bool_decide (state = "gap").

Definition release (repository : string) : TR unit :=
  let! repository := lift (path_text repository) in
  let! row := gets (fun d => trackers d !! repository) in
  match row with
  | Some row =>
      if released_state (t_state row) then
        modify (fun d => set_epoch_floor
          (<[repository := match epoch_floor d !! repository with
                           | Some floor => Z.max floor (t_epoch row)
                           | None => t_epoch row
                           end]> (epoch_floor d)) d) ;;;
        modify (delete_tracker repository)
      else ret tt
  | None => ret tt
  end.

(** [referenced]: does a workspace of this repository exist? *)
Definition release_if_idle (referenced : string -> bool) (repository : string)
    (now idle_ms : Z) : TR bool :=
  let! text := lift (path_text repository) in
  atomically (
    let! used := gets (fun d => default 0 (tracker_use d !! text)) in
    if referenced text || (saturating_sub now (Z.max used 0) <? idle_ms) then ret false
    else
      release repository ;;;
      modify (fun d => set_tracker_use (delete text (tracker_use d)) d) ;;;
      ret true).

Definition changes_since (repository : string) (epoch generation : Z)
  : TR RepositoryChangeBatch :=
  let! st := status repository in
  let! st := ok_or st (Corrupt "unknown repository tracker") in
  guard (bool_decide (st_state st = Active) && (st_epoch st =? epoch))
    ConcurrentRepositoryMutation ;;;
  let! text := lift (path_text repository) in
  let! paths := gets (fun d => order_by (elements
    (set_map (fun e : string * Z * Z * string => e.2)
       (filter (fun e : string * Z * Z * string =>
          e.1.1.1 = text /\ e.1.1.2 = as_i64 epoch /\ as_i64 generation < e.1.2)
          (events d)) : gset string))) in
  ret (mkBatch epoch (st_generation st) paths).
