(* ===== verification/TrackerSpec.v ===== *)
(** The tracker protocol under any interleaving of calls by any processes.

    A history is a sequence of calls, each atomic, each by some process.  The
    proofs rest on one fact about an epoch: once a repository's tracker has
    left the active state of epoch [e] it never is active in epoch [e] again,
    even when the tracker is released and requested anew. *)

From S2P Require Import Prelude Error RustStr ChunkStore Tracker.
#[local] Open Scope string_scope.
#[local] Open Scope list_scope.
#[local] Open Scope Z_scope.

(** ** Histories *)

Inductive call : Type :=
| Request (repository : string) (now : Z)
| Activate (repository : string) (now : Z)
| RecordChanges (repository : string) (paths : list string) (now : Z)
| RecordFences (repository : string) (paths : list string) (now : Z)
| ConsumeFence (repository : string) (epoch : Z) (path : string)
| MarkGap (repository : string) (detail : string) (now : Z)
| Heartbeat (repository : string) (now : Z)
| Touch (repository : string) (now : Z)
| ReleaseIfIdle (referenced : string -> bool) (repository : string) (now idle_ms : Z)
| Release (repository : string).

(** The store after a call by process [pid], whatever the call returns. *)
Definition after (alive : Z -> bool) (pid : Z) (c : call) (d : TrackerDb) : TrackerDb :=
  match c with
  | Request r now => snd (request alive r now d)
  | Activate r now => snd (activate pid r now d)
  | RecordChanges r ps now => snd (record pid r ps now d)
  | RecordFences r ps now => snd (record_fences pid r ps now d)
  | ConsumeFence r e p => snd (consume_fence r e p d)
  | MarkGap r det now => snd (mark_gap pid r det now d)
  | Heartbeat r now => snd (heartbeat pid r now d)
  | Touch r now => snd (touch r now d)
  | ReleaseIfIdle ref r now idle => snd (release_if_idle ref r now idle d)
  | Release r => snd (release r d)
  end.

Inductive history : TrackerDb -> TrackerDb -> Prop :=
| history_nil d : history d d
| history_step alive pid c d d' :
    0 <= pid < 2 ^ 32 -> history (after alive pid c d) d' -> history d d'.

#[export] Instance history_preorder : PreOrder history.
Proof.
  split; [constructor|]. intros d1 d2 d3 H. revert d3.
  induction H as [|alive pid c d d' Hp _ IH]; [done|].
  intros d3 H3. econstructor; [done|]. by apply IH.
Qed.

(** A relation that every call respects relates the ends of a history. *)
Lemma history_ind_rel (R : TrackerDb -> TrackerDb -> Prop) `{!PreOrder R} :
  (forall alive pid c d, 0 <= pid < 2 ^ 32 -> R d (after alive pid c d)) ->
  forall d d', history d d' -> R d d'.
Proof.
  intros Hstep. induction 1 as [|alive pid c d d' Hp _ IH]; [reflexivity|].
  etransitivity; [by apply Hstep|done].
Qed.

(** ** The life of one epoch of one repository *)

Section Epoch.
Context (r : string) (e : Z).

(** The tracker is active in epoch [e]. *)
Definition live (d : TrackerDb) : Prop :=
  exists row, trackers d !! r = Some row /\ t_state row = "active" /\ t_epoch row = e.

(** Epoch [e] is over. *)
Definition over (d : TrackerDb) : Prop :=
  match trackers d !! r with
  | Some row => e < t_epoch row \/ (t_epoch row = e /\ t_state row <> "active")
  | None => e <= default 0 (epoch_floor d !! r) /\ is_Some (epoch_floor d !! r)
  end.

(** What stays of a live tracker while it stays live. *)
Definition grows (d d' : TrackerDb) : Prop :=
  exists row row', trackers d !! r = Some row /\ trackers d' !! r = Some row'
    /\ t_state row = "active" /\ t_state row' = "active" /\ t_epoch row = e /\ t_epoch row' = e
    /\ t_owner_pid row' = t_owner_pid row /\ t_generation row <= t_generation row'
    /\ (forall g p, (r, e, g, p) ∈ events d -> (r, e, g, p) ∈ events d')
    /\ (forall g p, (r, e, g, p) ∈ events d' ->
          (r, e, g, p) ∈ events d \/ t_generation row < g).

(** One step of the life of the epoch. *)
Definition ages (d d' : TrackerDb) : Prop :=
  (live d -> grows d d' \/ over d') /\ (over d -> over d').

Lemma live_not_over d : live d -> over d -> False.
Proof. intros (row & Hr & Hs & He) Ho. unfold over in Ho. rewrite Hr in Ho. naive_solver lia. Qed.

Lemma grows_live d d' : grows d d' -> live d /\ live d'.
Proof. intros (row & row' & ?). unfold live. naive_solver. Qed.

#[export] Instance ages_preorder : PreOrder ages.
Proof.
  split.
  - intros d. split; [|done]. intros (row & Hr & Hs & He). left. exists row, row.
    split_and!; try done. naive_solver.
  - intros d1 d2 d3 [H1 H2] [H3 H4]. split; [|naive_solver].
    intros Hl. destruct (H1 Hl) as [Hg|Ho]; [|by right; apply H4].
    destruct (H3 (proj2 (grows_live _ _ Hg))) as [Hg'|Ho]; [|by right].
    left. destruct Hg as (x & y & Hx & Hy & ? & ? & ? & ? & ? & ? & Ha & Hb).
    destruct Hg' as (y' & z & Hy' & Hz & ? & ? & ? & ? & ? & ? & Ha' & Hb').
    rewrite Hy in Hy'. injection Hy' as <-. exists x, z.
    split_and!; try done; [congruence|lia|by eauto|].
    intros g p Hin. destruct (Hb' g p Hin) as [Hin'|]; [|right; lia]. by apply Hb.
Qed.
End Epoch.

(** ** The protocol as a transition system *)

Definition new_events (r : string) (e g : Z) (paths : list string)
  : gset (string * Z * Z * string) :=
  list_to_set ((fun p => (r, e, g, p)) <$> paths).

Definition floor_after (d : TrackerDb) (r : string) (row : TrackerRow) : Z :=
  match epoch_floor d !! r with Some f => Z.max f (t_epoch row) | None => t_epoch row end.

Inductive tstep : TrackerDb -> TrackerDb -> Prop :=
| ts_use m d : tstep d (set_tracker_use m d)
| ts_fences m d : tstep d (set_fences m d)
| ts_request r d :
    trackers d !! r = None ->
    tstep d (set_trackers (<[r := mkTracker "requested"
      (default 0 (epoch_floor d !! r)) 0 0 0 None]> (trackers d)) d)
| ts_reset r row d :
    trackers d !! r = Some row ->
    tstep d (set_trackers (<[r := mkTracker "requested" (t_epoch row) 0 0 0 None]>
      (trackers d)) d)
| ts_activate r row pid hb d :
    trackers d !! r = Some row -> t_state row = "requested" ->
    t_epoch row + 1 <= I64_MAX -> 0 <= pid < 2 ^ 32 ->
    tstep d (set_fences
      (filter (fun f : string * Z * string * Z => f.1.1.1 <> r) (fences d))
      (set_events (filter (fun v : string * Z * Z * string => v.1.1.1 <> r) (events d))
        (set_trackers (<[r := mkTracker "active" (t_epoch row + 1) 0 pid hb None]>
           (trackers d)) d)))
| ts_beat r row hb d :
    trackers d !! r = Some row -> t_state row = "active" ->
    tstep d (set_trackers (<[r := mkTracker "active" (t_epoch row) (t_generation row)
      (t_owner_pid row) hb (t_detail row)]> (trackers d)) d)
| ts_record r row paths hb d :
    trackers d !! r = Some row -> t_state row = "active" ->
    t_generation row < I64_MAX ->
    tstep d (set_events
      (new_events r (t_epoch row) (t_generation row + 1) paths ∪ events d)
      (set_trackers (<[r := mkTracker "active" (t_epoch row) (t_generation row + 1)
         (t_owner_pid row) hb (t_detail row)]> (trackers d)) d))
| ts_gap r row hb detail d :
    trackers d !! r = Some row ->
    tstep d (set_trackers (<[r := mkTracker "gap" (t_epoch row) (t_generation row) 0 hb
      (Some detail)]> (trackers d)) d)
| ts_release r row d :
    trackers d !! r = Some row ->
    tstep d (delete_tracker r
      (set_epoch_floor (<[r := floor_after d r row]> (epoch_floor d)) d)).

(** Values stay within their columns, and every stored event belongs to the
    current epoch and, while active, to a generation already reached. *)
Record tracker_inv (d : TrackerDb) : Prop := {
  ti_rows : forall r row, trackers d !! r = Some row ->
    t_state row ∈ ["requested"; "active"; "gap"] /\ 0 <= t_epoch row <= I64_MAX
    /\ 0 <= t_generation row <= I64_MAX /\ 0 <= t_owner_pid row < 2 ^ 32;
  ti_floor : forall r f, epoch_floor d !! r = Some f -> 0 <= f <= I64_MAX;
  ti_events : forall r e g p, (r, e, g, p) ∈ events d ->
    exists row, trackers d !! r = Some row /\ e = t_epoch row
      /\ (t_state row = "active" -> g <= t_generation row) }.

Lemma tracker_inv_write d r row :
  tracker_inv d ->
  t_state row ∈ ["requested"; "active"; "gap"] -> 0 <= t_epoch row <= I64_MAX ->
  0 <= t_generation row <= I64_MAX -> 0 <= t_owner_pid row < 2 ^ 32 ->
  (forall row0, trackers d !! r = Some row0 -> t_epoch row0 = t_epoch row
     /\ (t_state row = "active" -> t_state row0 = "active"
           /\ t_generation row0 <= t_generation row)) ->
  tracker_inv (set_trackers (<[r := row]> (trackers d)) d).
Proof.
  intros [H1 H2 H3] Hs He Hg Ho Hold. split; simpl; [|done|].
  - intros k row0 Hk. destruct (decide (k = r)) as [->|Hne].
    + rewrite lookup_insert_eq in Hk. by injection Hk as <-.
    + rewrite lookup_insert_ne in Hk by done. by eapply H1.
  - intros k e g p Hin. destruct (H3 _ _ _ _ Hin) as (row0 & Hk & -> & Hact).
    destruct (decide (k = r)) as [->|Hne].
    + rewrite lookup_insert_eq. exists row. destruct (Hold _ Hk) as [-> Ha].
      split_and!; [done..|]. intros Hs'. destruct (Ha Hs') as [Ha1 Ha2].
      specialize (Hact Ha1). lia.
    + rewrite lookup_insert_ne by done. eauto.
Qed.

Lemma elem_of_new_events r e g paths x :
  x ∈ new_events r e g paths <-> exists p, p ∈ paths /\ x = (r, e, g, p).
Proof.
  unfold new_events. rewrite elem_of_list_to_set, list_elem_of_fmap. split.
  - intros (p & -> & Hp). eauto.
  - intros (p & Hp & ->). eauto.
Qed.

Lemma elem_of_states s :
  s ∈ ["requested"; "active"; "gap"] <-> s = "requested" \/ s = "active" \/ s = "gap".
Proof. rewrite !elem_of_cons, elem_of_nil. tauto. Qed.

Lemma tracker_inv_record r row paths hb d :
  tracker_inv d -> trackers d !! r = Some row -> t_state row = "active" ->
  t_generation row < I64_MAX ->
  tracker_inv (set_events
    (new_events r (t_epoch row) (t_generation row + 1) paths ∪ events d)
    (set_trackers (<[r := mkTracker "active" (t_epoch row) (t_generation row + 1)
       (t_owner_pid row) hb (t_detail row)]> (trackers d)) d)).
Proof.
  intros Hi Hr Hs Hg. destruct (ti_rows _ Hi _ _ Hr) as (H1 & H2 & H3 & H4).
  destruct (tracker_inv_write d r (mkTracker "active" (t_epoch row) (t_generation row + 1)
    (t_owner_pid row) hb (t_detail row)) Hi) as [I1 I2 I3]; simpl; try lia.
  { apply elem_of_states. tauto. }
  { intros row0 Hr0. rewrite Hr in Hr0. injection Hr0 as <-. split; [done|].
    intros _. split; [done|lia]. }
  split; simpl in *; [done..|]. intros k e g p [Hin|Hin]%elem_of_union.
  - apply elem_of_new_events in Hin as (p' & Hp & [= -> -> -> ->]). rewrite lookup_insert_eq.
    eexists. split; [done|]. simpl. split; [done|]. lia.
  - by eapply I3.
Qed.

Lemma tracker_inv_forget r d :
  tracker_inv d ->
  tracker_inv (delete_tracker r d).
Proof.
  intros [H1 H2 H3]. split; simpl; [|done|].
  - intros k row Hk. rewrite lookup_delete_Some in Hk. destruct Hk as [_ Hk]. by eapply H1.
  - intros k e g p [Hne Hin]%elem_of_filter. simpl in Hne.
    destruct (H3 _ _ _ _ Hin) as (row & Hk & He & Ha). exists row.
    by rewrite lookup_delete_ne.
Qed.

Lemma tracker_inv_activate r row pid hb d :
  tracker_inv d -> trackers d !! r = Some row -> t_epoch row + 1 <= I64_MAX ->
  0 <= pid < 2 ^ 32 ->
  tracker_inv (set_fences
      (filter (fun f : string * Z * string * Z => f.1.1.1 <> r) (fences d))
      (set_events (filter (fun v : string * Z * Z * string => v.1.1.1 <> r) (events d))
        (set_trackers (<[r := mkTracker "active" (t_epoch row + 1) 0 pid hb None]>
           (trackers d)) d))).
Proof.
  intros Hi Hr He Hp. destruct (ti_rows _ Hi _ _ Hr) as (H1 & H2 & H3 & H4).
  split; simpl; [|apply (ti_floor _ Hi)|].
  - intros k row0 Hk. destruct (decide (k = r)) as [->|Hne].
    + rewrite lookup_insert_eq in Hk. injection Hk as <-. simpl.
      split; [apply elem_of_states; tauto|]. unfold I64_MAX in *. lia.
    + rewrite lookup_insert_ne in Hk by done. by eapply (ti_rows _ Hi).
  - intros k e g p [Hne Hin]%elem_of_filter. simpl in Hne.
    destruct (ti_events _ Hi _ _ _ _ Hin) as (row0 & Hk & He' & Ha). exists row0.
    by rewrite lookup_insert_ne.
Qed.

Lemma tstep_inv d d' : tracker_inv d -> tstep d d' -> tracker_inv d'.
Proof.
  intros Hi Hs.
  assert (0 <= I64_MAX) as Hmax by (unfold I64_MAX; lia).
  destruct Hs as [m d|m d|r d Hr|r row d Hr|r row pid hb d Hr Hst He Hp
    |r row hb d Hr Hst|r row paths hb d Hr Hst Hg|r row hb det d Hr|r row d Hr].
  - by destruct Hi.
  - by destruct Hi.
  - apply tracker_inv_write; simpl; [done|apply elem_of_states; tauto| |lia|lia|congruence].
    destruct (epoch_floor d !! r) eqn:Hf; simpl; [by eapply (ti_floor _ Hi)|lia].
  - destruct (ti_rows _ Hi _ _ Hr) as (H1 & H2 & H3 & H4).
    apply tracker_inv_write; simpl; [done|apply elem_of_states; tauto|done|lia|lia|].
    intros row0 Hr0. split; [congruence|done].
  - by apply tracker_inv_activate.
  - destruct (ti_rows _ Hi _ _ Hr) as (H1 & H2 & H3 & H4).
    apply tracker_inv_write; simpl; [done|apply elem_of_states; tauto|done..|].
    intros row0 Hr0. rewrite Hr in Hr0. injection Hr0 as <-. split; [done|].
    intros _. split; [done|lia].
  - by apply tracker_inv_record.
  - destruct (ti_rows _ Hi _ _ Hr) as (H1 & H2 & H3 & H4).
    apply tracker_inv_write; simpl; [done|apply elem_of_states; tauto|done|done|lia|].
    intros row0 Hr0. split; [congruence|done].
  - apply tracker_inv_forget. destruct (ti_rows _ Hi _ _ Hr) as (H1 & H2 & H3 & H4).
    destruct Hi as [I1 I2 I3]. split; simpl; [done| |done].
    intros k f Hk. destruct (decide (k = r)) as [->|Hne].
    + rewrite lookup_insert_eq in Hk. injection Hk as <-. unfold floor_after.
      destruct (epoch_floor d !! r) eqn:Hf; [|lia]. apply I2 in Hf. lia.
    + rewrite lookup_insert_ne in Hk by done. by eapply I2.
Qed.

(** ** Every step ages an epoch *)

(** Steps that leave the repository's row, floor and events alone. *)
Lemma ages_frame r e d d' :
  trackers d' !! r = trackers d !! r -> epoch_floor d' !! r = epoch_floor d !! r ->
  (forall g p, (r, e, g, p) ∈ events d' <-> (r, e, g, p) ∈ events d) ->
  ages r e d d'.
Proof.
  intros Ht Hf Hev. split.
  - intros (row & Hr & Hs & He). left. exists row, row. rewrite Ht.
    split_and!; try done; intros g p Hin; [by apply Hev|left; by apply Hev].
  - unfold over. by rewrite Ht, Hf.
Qed.

(** Steps that write the repository's row, not to a new active epoch. *)
Lemma ages_write r e d d' row row' :
  trackers d !! r = Some row -> trackers d' !! r = Some row' ->
  t_epoch row' = t_epoch row ->
  (t_state row' = "active" -> t_state row = "active"
     /\ t_owner_pid row' = t_owner_pid row /\ t_generation row <= t_generation row'
     /\ (forall g p, (r, e, g, p) ∈ events d -> (r, e, g, p) ∈ events d')
     /\ (forall g p, (r, e, g, p) ∈ events d' ->
           (r, e, g, p) ∈ events d \/ t_generation row < g)) ->
  ages r e d d'.
Proof.
  intros Hr Hr' He Hact. split.
  - intros (row0 & Hr0 & Hs & He0). rewrite Hr in Hr0. injection Hr0 as <-.
    destruct (decide (t_state row' = "active")) as [Ha|Hn].
    + left. exists row, row'. destruct (Hact Ha) as (? & ? & ? & ? & ?).
      split_and!; try done; congruence.
    + right. unfold over. rewrite Hr'. right. split; [congruence|done].
  - unfold over. rewrite Hr, Hr'. rewrite He. intros [H|[H1 H2]]; [by left|].
    right. split; [done|]. intros Ha. by apply Hact in Ha as [? _].
Qed.

Lemma ages_insert r e k row' d d' :
  trackers d' = <[k := row']> (trackers d) -> epoch_floor d' = epoch_floor d ->
  events d' = events d ->
  (forall row, trackers d !! k = Some row -> t_epoch row' = t_epoch row
     /\ (t_state row' = "active" -> t_state row = "active"
          /\ t_owner_pid row' = t_owner_pid row /\ t_generation row <= t_generation row')) ->
  (trackers d !! k = None -> t_state row' <> "active"
     /\ t_epoch row' = default 0 (epoch_floor d !! k)) ->
  ages r e d d'.
Proof.
  intros Ht Hf Hev Hsome Hnone. destruct (decide (k = r)) as [->|Hne].
  - destruct (trackers d !! r) as [row|] eqn:Hr.
    + destruct (Hsome _ eq_refl) as [He Ha].
      apply (ages_write r e d d' row row'); [done|by rewrite Ht, lookup_insert_eq|done|].
      intros Hact. destruct (Ha Hact) as (? & ? & ?). rewrite Hev. split_and!; try done. by left.
    + destruct (Hnone eq_refl) as [Hs He]. split.
      * intros (row & Hr0 & _). congruence.
      * unfold over. rewrite Hr, Ht, lookup_insert_eq, He. intros [H1 H2].
        destruct (decide (e = default 0 (epoch_floor d !! r))); [by right|left; lia].
  - apply ages_frame; [by rewrite Ht, lookup_insert_ne|by rewrite Hf|by rewrite Hev].
Qed.

Lemma ages_activate r e k row pid hb d fs :
  trackers d !! k = Some row -> t_state row = "requested" ->
  ages r e d (set_fences fs
      (set_events (filter (fun v : string * Z * Z * string => v.1.1.1 <> k) (events d))
        (set_trackers (<[k := mkTracker "active" (t_epoch row + 1) 0 pid hb None]>
           (trackers d)) d))).
Proof.
  intros Hr Hs. destruct (decide (k = r)) as [->|Hne].
  - split.
    + intros (row0 & Hr0 & Hs0 & _). rewrite Hr in Hr0. injection Hr0 as <-. congruence.
    + unfold over. rewrite Hr. simpl. rewrite lookup_insert_eq. simpl. left. lia.
  - apply ages_frame; simpl; [by rewrite lookup_insert_ne|done|].
    intros g p. rewrite elem_of_filter. simpl. naive_solver.
Qed.

Lemma ages_record r e k row paths hb d :
  trackers d !! k = Some row -> t_state row = "active" ->
  ages r e d (set_events
    (new_events k (t_epoch row) (t_generation row + 1) paths ∪ events d)
    (set_trackers (<[k := mkTracker "active" (t_epoch row) (t_generation row + 1)
       (t_owner_pid row) hb (t_detail row)]> (trackers d)) d)).
Proof.
  intros Hr Hs. destruct (decide (k = r)) as [->|Hne].
  - eapply ages_write; [done|simpl; by rewrite lookup_insert_eq|done|].
    intros _. simpl. split_and!; [done|done|lia| |].
    + intros g p Hin. apply elem_of_union. by right.
    + intros g p [Hin|Hin]%elem_of_union; [|by left].
      apply elem_of_new_events in Hin as (p' & _ & [= -> -> ->]). right. lia.
  - apply ages_frame; simpl; [by rewrite lookup_insert_ne|done|].
    intros g p. rewrite elem_of_union, elem_of_new_events. split; [|by right].
    intros [(p' & _ & [= -> _ _ _])|]; done.
Qed.

Lemma ages_release r e k row d :
  trackers d !! k = Some row ->
  ages r e d (delete_tracker k
    (set_epoch_floor (<[k := floor_after d k row]> (epoch_floor d)) d)).
Proof.
  intros Hr. destruct (decide (k = r)) as [->|Hne].
  - assert (t_epoch row <= floor_after d r row) as Hfl.
    { unfold floor_after. destruct (epoch_floor d !! r); lia. }
    split.
    + intros (row0 & Hr0 & Hs & He). rewrite Hr in Hr0. injection Hr0 as <-. right.
      unfold over. simpl. rewrite lookup_delete_eq, lookup_insert_eq. simpl.
      split; [lia|eauto].
    + unfold over. simpl. rewrite Hr, lookup_delete_eq, lookup_insert_eq. simpl.
      intros H. split; [|eauto]. destruct H as [H|[H _]]; lia.
  - apply ages_frame; simpl; [by rewrite lookup_delete_ne|by rewrite lookup_insert_ne|].
    intros g p. rewrite elem_of_filter. simpl. naive_solver.
Qed.

Lemma tstep_ages r e d d' : tstep d d' -> ages r e d d'.
Proof.
  intros Hs.
  destruct Hs as [m d|m d|k d Hk|k row d Hk|k row pid hb d Hk Hst He Hp
    |k row hb d Hk Hst|k row paths hb d Hk Hst Hg|k row hb det d Hk|k row d Hk].
  - by apply ages_frame.
  - by apply ages_frame.
  - eapply (ages_insert r e k); simpl; [done..|congruence|done].
  - eapply (ages_insert r e k); simpl; [done..| |congruence].
    intros row0 H0. simpl. split; [congruence|done].
  - by apply ages_activate.
  - eapply (ages_insert r e k); simpl; [done..| |congruence].
    intros row0 H0. rewrite Hk in H0. injection H0 as <-. simpl. split; [done|].
    intros _. split_and!; [done|done|lia].
  - by apply ages_record.
  - eapply (ages_insert r e k); simpl; [done..| |congruence].
    intros row0 H0. simpl. split; [congruence|done].
  - by apply ages_release.
Qed.

(** ** Every call is a sequence of transitions *)

Lemma write_tracker_cases r row d :
  (write_tracker r row d = (Err Sql, d) /\ tracker_row_check row = false)
  \/ (write_tracker r row d = (Ok tt, set_trackers (<[r := row]> (trackers d)) d)
      /\ tracker_row_check row = true).
Proof.
  unfold write_tracker, bind, guard. destruct (tracker_row_check row); [by right|by left].
Qed.

Lemma path_text_cases r : path_text r = Ok r \/ exists e, path_text r = Err e.
Proof. unfold path_text. destruct (utf8_valid _ _); eauto. Qed.

Lemma path_text_ok r t : path_text r = Ok t -> t = r.
Proof. unfold path_text. destruct (utf8_valid _ _); congruence. Qed.

Lemma status_pure r d : exists v, status r d = (v, d).
Proof.
  unfold status, bind, lift, gets. destruct (path_text r); [|by eexists..].
  destruct (trackers d !! _) as [row|]; [|by eexists].
  destruct (parse_state _); [|by eexists..].
  unfold guard. destruct (_ <? _); by eexists.
Qed.

Abbreviation tsteps := (rtc tstep).

Lemma touch_tsteps r now d : tsteps d (snd (touch r now d)).
Proof.
  unfold touch, bind, guard. destruct (_ <=? _); [|apply rtc_refl].
  apply rtc_once, ts_use.
Qed.

Lemma request_tsteps alive r now d : tsteps d (snd (request alive r now d)).
Proof.
  unfold request, bind, lift. destruct (path_text_cases r) as [->|[e ->]]; [|apply rtc_refl].
  unfold atomically. destruct (touch r now d) as [[u|e|] d1] eqn:Ht; [|apply rtc_refl..].
  unfold gets. assert (tsteps d d1) as Hd.
  { pose proof (touch_tsteps r now d) as H. by rewrite Ht in H. }
  destruct (trackers d1 !! r) as [row|] eqn:Hr.
  - destruct (preserve_active alive row now); [done|].
    destruct (write_tracker_cases r (mkTracker "requested" (t_epoch row) 0 0 0 None) d1)
      as [[-> _]|[-> _]]; [apply rtc_refl|].
    etransitivity; [exact Hd|]. by apply rtc_once, ts_reset.
  - edestruct (write_tracker_cases r) as [[-> _]|[-> _]]; [apply rtc_refl|].
    etransitivity; [exact Hd|]. by apply rtc_once, ts_request.
Qed.

Lemma as_i64_next n : 0 <= n <= I64_MAX -> 0 <= as_i64 (n + 1) -> 
  as_i64 (n + 1) = n + 1 /\ n + 1 <= I64_MAX.
Proof. unfold as_i64, I64_MAX. intros H. destruct (_ <? _) eqn:E; lia. Qed.

Lemma bind_pure_tail {E S A B} (m : action E S A) (k : A -> action E S B) s :
  (forall a s, snd (k a s) = s) -> snd (bind m k s) = snd (m s).
Proof. intros Hk. unfold bind. destruct (m s) as [[a|e|] s']; [apply Hk|done..]. Qed.

Lemma status_tail r err d : snd (bind (status r) (fun st => ok_or st err) d) = d.
Proof.
  rewrite bind_pure_tail; [by destruct (status_pure r d) as [v ->]|]. by intros [].
Qed.

Lemma activate_tsteps pid r now d :
  tracker_inv d -> 0 <= pid < 2 ^ 32 -> tsteps d (snd (activate pid r now d)).
Proof.
  intros Hi Hp. unfold activate. unfold bind at 1, lift at 1.
  destruct (path_text_cases r) as [->|[e ->]]; [|apply rtc_refl].
  rewrite bind_pure_tail by (intros; apply status_tail).
  unfold atomically, bind, gets, ok_or, guard, ret. destruct (trackers d !! r) as [row|] eqn:Hr;
    [|apply rtc_refl]. cbn beta iota. case_bool_decide as Hs; [|apply rtc_refl].
  cbn beta iota. destruct (write_tracker_cases r (mkTracker "active" (as_i64 (t_epoch row + 1)) 0
    pid (as_i64 now) None) d) as [[Hw _]|[Hw Hc]]; cbn zeta; rewrite Hw; [apply rtc_refl|].
  cbn [modify snd]. unfold tracker_row_check in Hc. simpl in Hc.
  destruct (ti_rows _ Hi _ _ Hr) as (_ & H2 & _).
  destruct (as_i64_next (t_epoch row)) as [-> Hle]; [done| |].
  { repeat (apply andb_true_iff in Hc as [Hc ?]). lia. }
  apply rtc_once. by apply (ts_activate r row pid (as_i64 now) d).
Qed.

Lemma owned_active_cases pid r d :
  (exists v, owned_active pid r d = (v, d) /\ forall row, v <> Ok (Some row))
  \/ (exists row, owned_active pid r d = (Ok (Some row), d) /\ trackers d !! r = Some row
        /\ t_state row = "active" /\ t_owner_pid row = pid).
Proof.
  unfold owned_active, bind, gets, ok_or, guard.
  destruct (trackers d !! r) as [row|]; [|left; by eexists]. cbn.
  case_bool_decide; [left; by eexists|]. case_bool_decide; [|left; by eexists]. cbn.
  destruct (t_owner_pid row =? pid) eqn:Hp; [|left; by eexists].
  right. exists row. split_and!; [done..|]. lia.
Qed.

Lemma record_loop r e g paths d :
  forM paths (fun path => modify (fun d => set_events ({[ (r, e, g, path) ]} ∪ events d) d)) d
  = (Ok tt, set_events (new_events r e g paths ∪ events d) d) :> res Error _ * _.
Proof.
  revert d. induction paths as [|p paths IH]; intros d; unfold forM in *; simpl.
  - unfold ret. do 2 f_equal. unfold new_events. simpl. destruct d; unfold set_events; simpl.
    f_equal. set_solver.
  - erewrite bind_ok by done. rewrite IH. unfold set_events. simpl. do 2 f_equal.
    unfold new_events. simpl. set_solver.
Qed.

Lemma record_tsteps pid r paths now d :
  tracker_inv d -> tsteps d (snd (record pid r paths now d)).
Proof.
  intros Hi.
  unfold record, bind, lift. destruct (path_text_cases r) as [->|[e ->]]; [|apply rtc_refl].
  unfold atomically.
  destruct (owned_active_cases pid r d) as [(v & -> & Hv)|(row & -> & Hr & Hs & _)].
  { destruct v as [[row|]| |]; try apply rtc_refl. by destruct (Hv row). }
  destruct (t_generation row =? I64_MAX) eqn:Hg; [apply rtc_refl|]. cbn. rewrite Hs.
  edestruct (write_tracker_cases r) as [[-> _]|[-> Hc]]; [apply rtc_refl|].
  rewrite record_loop. cbn [snd]. apply rtc_once. apply (ts_record r row paths (as_i64 now) d); [done..|].
  destruct (ti_rows _ Hi _ _ Hr) as (_ & _ & ? & _). lia.
Qed.

Lemma fence_loop r e hb paths d :
  exists m, forM paths (fun path => modify (fun d => set_fences
      (<[(r, e, path) := hb]> (fences d)) d)) d = (Ok tt, set_fences m d) :> res Error _ * _.
Proof.
  revert d. induction paths as [|p paths IH]; intros d; unfold forM in *; simpl.
  - exists (fences d). by destruct d.
  - erewrite bind_ok by done. destruct (IH (set_fences (<[(r, e, p) := hb]> (fences d)) d))
      as [m ->]. by exists m.
Qed.

Lemma record_fences_tsteps pid r paths now d : tsteps d (snd (record_fences pid r paths now d)).
Proof.
  unfold record_fences, bind, lift.
  destruct (path_text_cases r) as [->|[e ->]]; [|apply rtc_refl]. unfold atomically.
  destruct (owned_active_cases pid r d) as [(v & -> & Hv)|(row & -> & Hr & Hs & _)].
  { destruct v as [[row|]| |]; try apply rtc_refl. by destruct (Hv row). }
  rewrite Hs. edestruct (write_tracker_cases r) as [[-> _]|[-> Hc]]; [apply rtc_refl|].
  edestruct fence_loop as [m ->]. cbn [modify snd].
  eapply rtc_l; [by apply (ts_beat r row (as_i64 now))|].
  eapply rtc_l; [apply (ts_fences m)|]. apply rtc_once, ts_fences.
Qed.

Lemma consume_fence_tsteps r e p d : tsteps d (snd (consume_fence r e p d)).
Proof.
  unfold consume_fence, bind, lift.
  destruct (path_text_cases r) as [->|[e' ->]]; [|apply rtc_refl].
  unfold atomically, gets, ok_or, guard. destruct (trackers d !! r) as [row|]; [|apply rtc_refl].
  cbn. destruct (_ && _); [|apply rtc_refl]. apply rtc_once, ts_fences.
Qed.

Lemma mark_gap_tsteps pid r det now d : tsteps d (snd (mark_gap pid r det now d)).
Proof.
  unfold mark_gap, bind, lift. destruct (path_text_cases r) as [->|[e ->]]; [|apply rtc_refl].
  unfold gets.
  assert (tsteps d (snd (match status r d with
    | (Ok a, s') => match ok_or a (Corrupt "cannot mark unknown repository tracker as gap") s' with
        | (Ok a0, s'0) => guard (bool_decide (st_state a0 = Gap)) ConcurrentRepositoryMutation s'0
        | (Err e, s'0) => (Err e, s'0) | (Panic, s'0) => (Panic, s'0) end
    | (Err e, s') => (Err e, s') | (Panic, s') => (Panic, s') end))) as Hst.
  { destruct (status_pure r d) as [v ->]. destruct v as [[st|]| |]; cbn; try apply rtc_refl.
    unfold guard. case_bool_decide; apply rtc_refl. }
  destruct (trackers d !! r) as [row|] eqn:Hr; [|exact Hst].
  destruct (_ || _); [|exact Hst].
  edestruct (write_tracker_cases r) as [[-> _]|[-> Hc]]; [apply rtc_refl|].
  by apply rtc_once, ts_gap.
Qed.

Lemma heartbeat_tsteps pid r now d : tsteps d (snd (heartbeat pid r now d)).
Proof.
  unfold heartbeat, bind, lift. destruct (path_text_cases r) as [->|[e ->]]; [|apply rtc_refl].
  unfold gets, guard. destruct (trackers d !! r) as [row|] eqn:Hr; [|apply rtc_refl].
  case_bool_decide as Hs; [|apply rtc_refl]. destruct (t_owner_pid row =? pid); [|apply rtc_refl].
  cbn. rewrite Hs. edestruct (write_tracker_cases r) as [[-> _]|[-> Hc]]; [apply rtc_refl|].
  by apply rtc_once, ts_beat.
Qed.

Lemma release_tsteps r d :
  tsteps d (snd (release r d)) /\ fst (release r d) <> Panic.
Proof.
  unfold release, bind, lift. destruct (path_text_cases r) as [->|[e ->]]; [|by split].
  unfold gets. destruct (trackers d !! r) as [row|] eqn:Hr; [|by split].
  destruct (released_state (t_state row)); [|by split]. cbn. split; [|done].
  by apply rtc_once, (ts_release r row).
Qed.

Lemma release_if_idle_tsteps ref r now idle d :
  tsteps d (snd (release_if_idle ref r now idle d)).
Proof.
  unfold release_if_idle, bind, lift.
  destruct (path_text_cases r) as [->|[e ->]]; [|apply rtc_refl].
  unfold atomically, gets. destruct (_ || _); [apply rtc_refl|].
  destruct (release_tsteps r d) as [Hr _]. destruct (release r d) as [[u|e|] d'];
    [|apply rtc_refl..]. cbn in *. etransitivity; [exact Hr|]. apply rtc_once, ts_use.
Qed.

Lemma after_tsteps alive pid c d :
  tracker_inv d -> 0 <= pid < 2 ^ 32 -> tsteps d (after alive pid c d).
Proof.
  intros Hi Hp. destruct c; simpl.
  - apply request_tsteps.
  - by apply activate_tsteps.
  - by apply record_tsteps.
  - apply record_fences_tsteps.
  - apply consume_fence_tsteps.
  - apply mark_gap_tsteps.
  - apply heartbeat_tsteps.
  - apply touch_tsteps.
  - apply release_if_idle_tsteps.
  - apply release_tsteps.
Qed.

Lemma tsteps_inv d d' : tracker_inv d -> tsteps d d' -> tracker_inv d'.
Proof.
  intros Hi Hs. induction Hs as [|x y z Hxy _ IH]; [done|]. apply IH. by eapply tstep_inv.
Qed.

Lemma history_tsteps d d' : tracker_inv d -> history d d' -> tracker_inv d' /\ tsteps d d'.
Proof.
  intros Hi H. induction H as [d|alive pid c d d' Hp _ IH]; [done|].
  pose proof (after_tsteps alive pid c d Hi Hp) as Hs.
  assert (tracker_inv (after alive pid c d)) as Hi'.
  { by eapply tsteps_inv. }
  destruct (IH Hi') as [H1 H2]. split; [done|]. by etransitivity.
Qed.

Lemma history_ages r e d d' : tracker_inv d -> history d d' -> ages r e d d'.
Proof.
  intros Hi [_ Hs]%history_tsteps; [|done]. clear Hi.
  induction Hs as [d|x y z Hxy _ IH]; [reflexivity|].
  etransitivity; [by apply tstep_ages|done].
Qed.

(** Active in the same epoch at both ends: active in between, with the same
    owner, and no change lost. *)
Lemma history_grows r e d d' :
  tracker_inv d -> history d d' -> live r e d -> live r e d' -> grows r e d d'.
Proof.
  intros Hi Hh Hl Hl'. destruct (proj1 (history_ages r e d d' Hi Hh) Hl) as [|Ho]; [done|].
  by destruct (live_not_over r e d').
Qed.

(** ** What successful calls say about the store *)

Lemma parse_state_active s : parse_state s = Ok Active -> s = "active".
Proof. unfold parse_state. repeat case_bool_decide; congruence. Qed.

Lemma status_ok r d o d' :
  status r d = (Ok o, d') ->
  d' = d /\ match o with
  | None => trackers d !! r = None
  | Some st => exists row, trackers d !! r = Some row
      /\ parse_state (t_state row) = Ok (st_state st) /\ st_epoch st = t_epoch row
      /\ st_generation st = t_generation row /\ st_owner_pid st = t_owner_pid row
  end.
Proof.
  unfold status, bind, lift, gets. destruct (path_text r) as [t| |] eqn:Ht; try done.
  apply path_text_ok in Ht as ->. destruct (trackers d !! r) as [row|]; [|by intros [= <- <-]].
  destruct (parse_state (t_state row)) as [st| |] eqn:Hs; try done.
  unfold guard. destruct (_ <? _); [|done]. intros [= <- <-]. split; [done|].
  exists row. by split_and!.
Qed.

Definition changed_paths (r : string) (e g : Z) (d : TrackerDb) : gset string :=
  set_map (fun v : string * Z * Z * string => v.2)
    (filter (fun v : string * Z * Z * string => v.1.1.1 = r /\ v.1.1.2 = e /\ g < v.1.2)
       (events d)).

Lemma elem_of_changed_paths r e g d p :
  p ∈ changed_paths r e g d <-> exists g', g < g' /\ (r, e, g', p) ∈ events d.
Proof.
  unfold changed_paths. rewrite elem_of_map. split.
  - intros ([[[r' e'] g'] p'] & -> & [Hv Hin]%elem_of_filter). simpl in *.
    destruct Hv as (-> & -> & Hg). eauto.
  - intros (g' & Hg & Hin). exists (r, e, g', p). split; [done|]. by apply elem_of_filter.
Qed.

Lemma as_i64_small x : x <= I64_MAX -> as_i64 x = x.
Proof. unfold as_i64, I64_MAX. intros H. destruct (_ <? _) eqn:E; lia. Qed.

Lemma changes_since_ok r e g d b d' :
  tracker_inv d -> g <= I64_MAX -> changes_since r e g d = (Ok b, d') ->
  d' = d /\ exists row, trackers d !! r = Some row /\ t_state row = "active"
    /\ t_epoch row = e
    /\ b = mkBatch e (t_generation row) (order_by (elements (changed_paths r e g d))).
Proof.
  intros Hi Hg H. unfold changes_since in H.
  apply bind_ok_inv in H as (st & d1 & Hst & H). apply status_ok in Hst as [-> Hst].
  apply bind_ok_inv in H as (st' & d1 & Ho & H). apply ok_or_ok_inv in Ho as [-> ->].
  destruct Hst as (row & Hr & Hs & He & Hgen & _).
  apply bind_ok_inv in H as (? & d1 & Hgu & H). apply guard_ok_inv in Hgu as [Hgu ->].
  apply andb_true_iff in Hgu as [Ha Hep]. apply bool_decide_eq_true in Ha. apply Z.eqb_eq in Hep.
  rewrite Ha in Hs. apply parse_state_active in Hs.
  apply bind_ok_inv in H as (t & d1 & Ht & H). injection Ht as Ht <-. apply path_text_ok in Ht as ->.
  apply bind_ok_inv in H as (ps & d1 & Hps & H). injection Hps as <- <-. injection H as <- <-.
  split; [done|]. exists row. rewrite He in Hep.
  destruct (ti_rows _ Hi _ _ Hr) as (_ & Hb & _).
  split_and!; [done..|]. rewrite Hgen. unfold changed_paths.
  by rewrite (as_i64_small e), (as_i64_small g) by lia.
Qed.

Lemma record_ok pid r e paths now d d' :
  live r e d -> record pid r paths now d = (Ok tt, d') ->
  exists row row', trackers d !! r = Some row /\ t_owner_pid row = pid
    /\ trackers d' !! r = Some row' /\ t_state row' = "active" /\ t_epoch row' = e
    /\ t_owner_pid row' = pid /\ t_generation row' = t_generation row + 1
    /\ (forall p, p ∈ paths -> (r, e, t_generation row + 1, p) ∈ events d').
Proof.
  intros (row & Hr & Hs & He) H. unfold record in H.
  apply bind_ok_inv in H as (t & d1 & Ht & H). injection Ht as Ht <-. apply path_text_ok in Ht as ->.
  apply atomically_ok_inv in H. apply bind_ok_inv in H as (o & d1 & Ho & H).
  destruct (owned_active_cases pid r d) as [(v & Hv & Hno)|(row0 & Hv & Hr0 & _ & Hp)].
  { unfold owned_active, bind, gets, ok_or, guard in Ho. rewrite Hr in Ho. cbn in Ho.
    rewrite bool_decide_eq_false_2, bool_decide_eq_true_2 in Ho by (rewrite ?Hs; done). cbn in Ho.
    destruct (t_owner_pid row =? pid) eqn:Hpid; [|done]. injection Ho as <- <-.
    unfold owned_active, bind, gets, ok_or, guard in Hv. rewrite Hr in Hv. cbn in Hv.
    rewrite bool_decide_eq_false_2, bool_decide_eq_true_2, Hpid in Hv by (rewrite ?Hs; done).
    cbn in Hv. injection Hv as <-. by destruct (Hno row). }
  rewrite Hr in Hr0. injection Hr0 as <-. rewrite Hv in Ho. injection Ho as <- <-.
  apply bind_ok_inv in H as (? & d1 & Hmax & H). destruct (t_generation row =? I64_MAX); [done|].
  injection Hmax as _ <-. apply bind_ok_inv in H as (? & d1 & Hw & H).
  destruct (write_tracker_cases r (mkTracker (t_state row) (t_epoch row) (t_generation row + 1)
    (t_owner_pid row) (as_i64 now) (t_detail row)) d) as [[Hw' _]|[Hw' _]];
    rewrite Hw' in Hw; [done|]. injection Hw as _ <-. rewrite record_loop in H.
  injection H as <-. eexists row, _. simpl. rewrite lookup_insert_eq.
  split_and!; try done. intros p Hin. apply elem_of_union. left. rewrite <-He.
  apply elem_of_new_events. eauto.
Qed.

(** ** Guarantees *)

Definition empty_db : TrackerDb := mkTrackerDb ∅ ∅ ∅ ∅ ∅.

Lemma empty_db_inv : tracker_inv empty_db.
Proof.
  split; simpl.
  - intros r row. by rewrite lookup_empty.
  - intros r f. by rewrite lookup_empty.
  - intros r e g p. set_solver.
Qed.

(** C34: Whatever calls any processes make, in any order, from an empty
    database on, states, epochs, generations and owners stay within their
    columns, and every stored change belongs to its repository's current epoch
    and to a generation the active tracker has reached. *)
Theorem tracker_invariant d : history empty_db d -> tracker_inv d.
Proof. intros H. apply (history_tsteps empty_db d); [apply empty_db_inv|done]. Qed.

(** C10: No change is lost.  A client that saw epoch [e] at generation [g] and
    later asks for the changes since then either gets an error or gets every
    path that a successful [record] reported in between, whatever other calls
    (takeovers, gaps, releases, re-activations by other processes) happened
    before, between and after. *)
Theorem no_change_lost d0 row0 r e pid paths now d1 d2 d3 batch d4 :
  tracker_inv d0 ->
  trackers d0 !! r = Some row0 -> t_state row0 = "active" -> t_epoch row0 = e ->
  history d0 d1 -> 0 <= pid < 2 ^ 32 -> record pid r paths now d1 = (Ok tt, d2) ->
  history d2 d3 -> changes_since r e (t_generation row0) d3 = (Ok batch, d4) ->
  forall p, p ∈ paths -> p ∈ b_paths batch.
Proof.
  intros Hi0 Hr0 Hs0 He0 H01 Hp Hrec H23 Hcs p Hin.
  destruct (history_tsteps _ _ Hi0 H01) as [Hi1 _].
  assert (history d1 d2) as H12.
  { apply (history_step (fun _ => true) pid (RecordChanges r paths now)); [done|].
    simpl. rewrite Hrec. constructor. }
  destruct (history_tsteps _ _ Hi1 H12) as [Hi2 _].
  destruct (history_tsteps _ _ Hi2 H23) as [Hi3 _].
  destruct (ti_rows _ Hi0 _ _ Hr0) as (_ & _ & Hg0 & _).
  destruct (changes_since_ok r e (t_generation row0) d3 batch d4) as (_ & row3 & Hr3 & Hs3 & He3 & ->);
    [done|lia|done|].
  assert (live r e d0) as Hl0 by by exists row0.
  assert (live r e d3) as Hl3 by by exists row3.
  assert (live r e d1) as Hl1.
  { destruct (proj1 (history_ages r e _ _ Hi0 H01) Hl0) as [Hg|Ho].
    - by apply grows_live in Hg as [_ ?].
    - exfalso. apply (live_not_over r e d3 Hl3). apply (history_ages r e d1 d3 Hi1); [|done].
      by etransitivity. }
  destruct (record_ok pid r e paths now d1 d2 Hl1 Hrec)
    as (row1 & row2 & Hr1 & _ & Hr2 & Hs2 & He2 & _ & _ & Hev).
  assert (live r e d2) as Hl2 by by exists row2.
  destruct (history_grows r e d0 d1) as (x & y & Hx & Hy & _ & _ & _ & _ & _ & Hle & _); [done..|].
  destruct (history_grows r e d2 d3) as (u & v & _ & _ & _ & _ & _ & _ & _ & _ & Hkeep & _); [done..|].
  rewrite Hr0 in Hx. injection Hx as <-. rewrite Hr1 in Hy. injection Hy as <-.
  simpl. unfold order_by. rewrite merge_sort_Permutation, elem_of_elements.
  apply elem_of_changed_paths. exists (t_generation row1 + 1). split; [lia|]. by apply Hkeep, Hev.
Qed.

(** A batch of changes is exact: without duplicates, it lists precisely
    the paths recorded in this epoch after the given generation, and it returns
    the generation to resume from: asking again from there gives nothing old. *)
Theorem changes_since_exact r e g d batch d' :
  tracker_inv d -> g <= I64_MAX -> changes_since r e g d = (Ok batch, d') ->
  d' = d /\ NoDup (b_paths batch)
  /\ (forall p, p ∈ b_paths batch <->
        exists g', g < g' <= b_generation batch /\ (r, e, g', p) ∈ events d)
  /\ changes_since r e (b_generation batch) d
     = (Ok (mkBatch e (b_generation batch) []), d).
Proof.
  intros Hi Hg H. destruct (changes_since_ok r e g d batch d' Hi Hg H)
    as (-> & row & Hr & Hs & He & ->). simpl.
  assert (forall g' p, (r, e, g', p) ∈ events d -> g' <= t_generation row) as Hmax.
  { intros g' p Hin. destruct (ti_events _ Hi _ _ _ _ Hin) as (row' & Hr' & _ & Ha).
    rewrite Hr in Hr'. injection Hr' as <-. auto. }
  split; [done|]. split; [|split].
  - unfold order_by. rewrite merge_sort_Permutation. apply NoDup_elements.
  - intros p. unfold order_by. rewrite merge_sort_Permutation, elem_of_elements,
      elem_of_changed_paths. split; intros (g' & H1 & H2); exists g'; (split; [|done]).
    + split; [done|]. by eapply Hmax.
    + lia.
  - destruct (ti_rows _ Hi _ _ Hr) as (_ & Hb & Hgen & _).
    assert (changed_paths r e (t_generation row) d = ∅) as Hempty.
    { apply set_eq. intros p. rewrite elem_of_changed_paths. split; [|by intros ?%not_elem_of_empty].
      intros (g' & H1 & H2). apply Hmax in H2. lia. }
    unfold changed_paths in Hempty. unfold changes_since in *.
    apply bind_ok_inv in H as (st & d1 & Hst & H). rewrite (bind_ok _ _ _ _ _ Hst).
    apply status_ok in Hst as [-> _].
    apply bind_ok_inv in H as (st' & d1 & Ho & H). rewrite (bind_ok _ _ _ _ _ Ho).
    apply ok_or_ok_inv in Ho as [_ ->].
    apply bind_ok_inv in H as (u & d1 & Hgu & H). rewrite (bind_ok _ _ _ _ _ Hgu).
    apply guard_ok_inv in Hgu as [_ ->].
    apply bind_ok_inv in H as (t & d1 & Ht & H). rewrite (bind_ok _ _ _ _ _ Ht).
    injection Ht as Ht <-. apply path_text_ok in Ht as ->.
    unfold bind, gets, ret in H |- *. injection H as Hgen' _.
    rewrite (as_i64_small e), (as_i64_small (t_generation row)) by lia.
    rewrite Hempty, elements_empty, Hgen'. done.
Qed.

(** Epochs only go up: an activation after a tracker was active in epoch
    [e] starts an epoch above [e], also when the tracker was released and its
    row deleted in between. *)
Theorem activation_starts_newer_epoch d0 r e d1 pid now st d2 :
  tracker_inv d0 -> live r e d0 -> history d0 d1 -> 0 <= pid < 2 ^ 32 ->
  activate pid r now d1 = (Ok st, d2) -> e < st_epoch st.
Proof.
  intros Hi0 Hl0 H01 Hp Hact. destruct (history_tsteps _ _ Hi0 H01) as [Hi1 _].
  unfold activate in Hact.
  apply bind_ok_inv in Hact as (t & d & Ht & Hact). injection Ht as Ht <-.
  apply path_text_ok in Ht as ->. apply bind_ok_inv in Hact as (u & d' & Hb & Hact).
  apply atomically_ok_inv in Hb. apply bind_ok_inv in Hb as (o & d & Hg & Hb). injection Hg as <- <-.
  apply bind_ok_inv in Hb as (row & d & Ho & Hb). apply ok_or_ok_inv in Ho as [Hr ->].
  apply bind_ok_inv in Hb as (? & d & Hgu & Hb). apply guard_ok_inv in Hgu as [Hs ->].
  apply bool_decide_eq_true in Hs. cbn zeta in Hb. apply bind_ok_inv in Hb as (? & d & Hw & Hb).
  destruct (write_tracker_cases r (mkTracker "active" (as_i64 (t_epoch row + 1)) 0 pid
    (as_i64 now) None) d1) as [[Hw' _]|[Hw' Hc]]; rewrite Hw' in Hw; [done|]. injection Hw as _ <-.
  run_inv. apply status_ok in H as [-> Hst]. rewrite Ho in Hst.
  destruct Hst as (row2 & Hr2 & _ & -> & _). simpl in Hr2. rewrite lookup_insert_eq in Hr2.
  injection Hr2 as <-. simpl. destruct (ti_rows _ Hi1 _ _ Hr) as (_ & Hep & _).
  destruct (as_i64_next (t_epoch row)) as [-> _]; [done| |].
  { unfold tracker_row_check in Hc. simpl in Hc. repeat (apply andb_true_iff in Hc as [Hc ?]). lia. }
  destruct (proj1 (history_ages r e d0 d1 Hi0 H01) Hl0) as [Hg|Ho'].
  - apply grows_live in Hg as [_ (row' & Hr' & Hs' & _)]. congruence.
  - unfold over in Ho'. rewrite Hr in Ho'. lia.
Qed.

(** An epoch has one writer: two successful recordings of changes in the
    same epoch, with anything happening in between, are by the same process. *)
Theorem epoch_has_one_writer d0 r e pid1 paths1 now1 d1 d2 pid2 paths2 now2 d3 :
  tracker_inv d0 -> 0 <= pid1 < 2 ^ 32 ->
  live r e d0 -> record pid1 r paths1 now1 d0 = (Ok tt, d1) ->
  history d1 d2 ->
  live r e d2 -> record pid2 r paths2 now2 d2 = (Ok tt, d3) ->
  pid1 = pid2.
Proof.
  intros Hi0 Hp Hl0 Hr1 H12 Hl2 Hr2.
  assert (history d0 d1) as H01.
  { apply (history_step (fun _ => true) pid1 (RecordChanges r paths1 now1)); [done|].
    simpl. rewrite Hr1. constructor. }
  destruct (history_tsteps _ _ Hi0 H01) as [Hi1 _].
  destruct (record_ok _ _ _ _ _ _ _ Hl0 Hr1) as (x & x' & _ & _ & Hx' & Hs & He & Ho & _).
  destruct (record_ok _ _ _ _ _ _ _ Hl2 Hr2) as (y & _ & Hy & Ho' & _).
  assert (live r e d1) as Hl1 by by exists x'.
  destruct (history_grows r e d1 d2) as (u & v & Hu & Hv & _ & _ & _ & _ & Hown & _); [done..|].
  congruence.
Qed.

(** A gap fails closed: once the owner reports that events may have been
    missed, no later history makes the changes of that epoch, or a fence of it,
    available again; clients get an error and must capture afresh. *)
Theorem gap_fails_closed d0 r e pid detail now d1 d2 g p :
  tracker_inv d0 -> live r e d0 -> 0 <= pid < 2 ^ 32 -> 0 <= g <= I64_MAX ->
  mark_gap pid r detail now d0 = (Ok tt, d1) -> history d1 d2 ->
  is_ok (fst (changes_since r e g d2)) = false
  /\ is_ok (fst (consume_fence r e p d2)) = false.
Proof.
  intros Hi0 (row & Hr & Hs & He) Hp Hg Hgap H12.
  assert (history d0 d1) as H01.
  { apply (history_step (fun _ => true) pid (MarkGap r detail now)); [done|].
    simpl. rewrite Hgap. constructor. }
  destruct (history_tsteps _ _ Hi0 H01) as [Hi1 _].
  destruct (history_tsteps _ _ Hi1 H12) as [Hi2 _].
  assert (over r e d1) as Ho1.
  { unfold mark_gap in Hgap. apply bind_ok_inv in Hgap as (t & d & Ht & Hgap).
    injection Ht as Ht <-. apply path_text_ok in Ht as ->.
    apply bind_ok_inv in Hgap as (o & d & Hg0 & Hgap). injection Hg0 as <- <-.
    rewrite Hr in Hgap. destruct (_ || _).
    - destruct (write_tracker_cases r (mkTracker "gap" (t_epoch row) (t_generation row) 0
        (as_i64 now) (Some detail)) d0) as [[Hw _]|[Hw _]]; rewrite Hw in Hgap; [done|].
      injection Hgap as <-. unfold over. simpl. rewrite lookup_insert_eq. right. by split.
    - run_inv. apply status_ok in H as [-> Hst]. rewrite Ho in Hst.
      destruct Hst as (row' & Hr' & Hps & _). apply bool_decide_eq_true in Hb.
      rewrite Hr in Hr'. injection Hr' as <-. rewrite Hs, Hb in Hps. done. }
  assert (forall row2, trackers d2 !! r = Some row2 -> t_state row2 = "active" ->
    t_epoch row2 = e -> False) as Hno.
  { intros row2 Hr2 Hs2 He2. apply (live_not_over r e d2); [by exists row2|].
    by apply (history_ages r e d1 d2). }
  split.
  - destruct (changes_since r e g d2) as [[b| |] d3] eqn:Hcs; [|done..]. exfalso.
    apply changes_since_ok in Hcs as (_ & row2 & Hr2 & Hs2 & He2 & _); [by eapply Hno|done|lia].
  - destruct (consume_fence r e p d2) as [[b| |] d3] eqn:Hcf; [|done..]. exfalso.
    unfold consume_fence in Hcf. apply bind_ok_inv in Hcf as (t & d & Ht & Hcf).
    injection Ht as Ht <-. apply path_text_ok in Ht as ->. run_inv.
    apply andb_true_iff in Hb as [H1 H2]. apply bool_decide_eq_true in H1.
    apply Z.eqb_eq in H2. by eapply Hno.
Qed.

(** ** A concrete history *)

Definition alive7 (pid : Z) : bool := pid =? 7.
Definition requested_db : TrackerDb := snd (request alive7 "/repo" 1000 empty_db).
Definition active_db : TrackerDb := snd (activate 7 "/repo" 1000 requested_db).
Definition active_row : TrackerRow := mkTracker "active" 1 0 7 1000 None.
Definition recorded_db : TrackerDb := snd (record 7 "/repo" ["b"; "a"] 1500 active_db).
Definition gap_db : TrackerDb := snd (mark_gap 7 "/repo" "overflow" 1600 recorded_db).
Definition released_db : TrackerDb :=
  snd (request alive7 "/repo" 999000 (snd (release "/repo" gap_db))).

Lemma active_history : history empty_db active_db.
Proof.
  apply (history_step alive7 7 (Request "/repo" 1000)); [lia|].
  apply (history_step alive7 7 (Activate "/repo" 1000)); [lia|]. constructor.
Qed.

Lemma active_inv : tracker_inv active_db.
Proof. apply (history_tsteps empty_db); [apply empty_db_inv|apply active_history]. Qed.

Lemma active_live : live "/repo" 1 active_db.
Proof. exists active_row. split_and!; vm_compute; reflexivity. Qed.

Lemma recorded_inv : tracker_inv recorded_db.
Proof.
  apply (history_tsteps active_db); [apply active_inv|].
  apply (history_step alive7 7 (RecordChanges "/repo" ["b"; "a"] 1500)); [lia|]. constructor.
Qed.

Lemma recorded_live : live "/repo" 1 recorded_db.
Proof. eexists. split_and!; vm_compute; reflexivity. Qed.

Lemma tracker_invariant_witness : tracker_inv active_db.
Proof. apply tracker_invariant. exact active_history. Defined.

Lemma no_change_lost_witness :
  "a" ∈ b_paths (match fst (changes_since "/repo" 1 0 recorded_db) with
                 | Ok b => b | _ => mkBatch 0 0 [] end).
Proof.
  destruct (changes_since "/repo" 1 0 recorded_db) as [[b|e|] d] eqn:H.
  - apply (no_change_lost active_db active_row "/repo" 1 7 ["b"; "a"] 1500
      active_db recorded_db recorded_db b d).
    + exact active_inv.
    + vm_compute. reflexivity.
    + reflexivity.
    + reflexivity.
    + constructor.
    + lia.
    + vm_compute. reflexivity.
    + constructor.
    + exact H.
    + right. left.
  - exfalso. vm_compute in H. discriminate H.
  - exfalso. vm_compute in H. discriminate H.
Defined.

Lemma changes_since_exact_witness :
  changes_since "/repo" 1 1 recorded_db = (Ok (mkBatch 1 1 []), recorded_db).
Proof.
  destruct (changes_since "/repo" 1 0 recorded_db) as [[b|e|] d] eqn:H.
  - destruct (changes_since_exact "/repo" 1 0 recorded_db b d recorded_inv) as (_ & _ & _ & Hr).
    + vm_compute. discriminate.
    + exact H.
    + assert (b_generation b = 1) as Hb by (vm_compute in H; injection H as <- _; reflexivity).
      rewrite Hb in Hr. exact Hr.
  - exfalso. vm_compute in H. discriminate H.
  - exfalso. vm_compute in H. discriminate H.
Defined.

Lemma activation_starts_newer_epoch_witness :
  exists st d, activate 7 "/repo" 999500 released_db = (Ok st, d) /\ 1 < st_epoch st.
Proof.
  destruct (activate 7 "/repo" 999500 released_db) as [[st|e|] d] eqn:H.
  - exists st, d. split; [reflexivity|].
    apply (activation_starts_newer_epoch recorded_db "/repo" 1 released_db 7 999500 st d).
    + exact recorded_inv.
    + exact recorded_live.
    + apply (history_step alive7 7 (MarkGap "/repo" "overflow" 1600)); [lia|].
      apply (history_step alive7 7 (Release "/repo")); [lia|].
      apply (history_step alive7 7 (Request "/repo" 999000)); [lia|]. constructor.
    + lia.
    + exact H.
  - exfalso. vm_compute in H. discriminate H.
  - exfalso. vm_compute in H. discriminate H.
Defined.

Lemma epoch_has_one_writer_witness :
  fst (record 7 "/repo" ["c"] 1700 recorded_db) = Ok tt /\ 7 = 7.
Proof.
  split; [vm_compute; reflexivity|].
  apply (epoch_has_one_writer active_db "/repo" 1 7 ["b"; "a"] 1500 recorded_db recorded_db
    7 ["c"] 1700 (snd (record 7 "/repo" ["c"] 1700 recorded_db))).
  - exact active_inv.
  - lia.
  - exact active_live.
  - vm_compute. reflexivity.
  - constructor.
  - exact recorded_live.
  - vm_compute. reflexivity.
Defined.

Lemma gap_fails_closed_witness :
  is_ok (fst (changes_since "/repo" 1 0 released_db)) = false.
Proof.
  apply (gap_fails_closed recorded_db "/repo" 1 7 "overflow" 1600 gap_db released_db 0 "x").
  - exact recorded_inv.
  - exact recorded_live.
  - lia.
  - vm_compute. split; discriminate.
  - vm_compute. reflexivity.
  - apply (history_step alive7 7 (Release "/repo")); [lia|].
    apply (history_step alive7 7 (Request "/repo" 999000)); [lia|]. constructor.
Defined.
