(* ===== verification/Core.v ===== *)
(** The workspace metadata database: snapshot types (snapshot.rs) and the rows
    of every table that namespace.rs and repository_layers.rs declare.

    A table is a finite map from its primary key; columns constrained by
    CHECK(... IN ...) to the names of an enumeration are that enumeration, and
    JSON columns are the value they encode.  [cow_dirty_layers] is a list in
    rowid order, which one query relies on. *)

From S2P Require Import Prelude Error RustStr ChunkStore Tracker.

(** ** Snapshots *)

Inductive EntryKind : Type := EFile | ESymlink | ETombstone.
#[export] Instance EntryKind_eq_dec : EqDecision EntryKind.
Proof. solve_decision. Defined.

Record BaselineEntry : Type := mkBaselineEntry {
  e_path : string; e_kind : EntryKind; e_mode : Z; e_size : Z;
  e_modified : Z; e_content_hash : string; e_chunks : list (list Z) }.

Record BaselineDirectory : Type := mkBaselineDirectory { d_path : string; d_mode : Z }.

Record BaselineSnapshot : Type := mkBaseline {
  bl_repository : string;
  bl_base_commit : string;
  bl_baseline_hash : string;
  bl_index_hash : string;
  bl_index_chunks : list (list Z);
  bl_directories : list BaselineDirectory;
  bl_entries : list BaselineEntry;
  bl_hardlink_groups : list (list string);
  bl_tracker_epoch : option Z;
  bl_tracker_generation : option Z }.

(** ** Rows *)

Inductive NodeKind : Type := File | Directory | Symlink.
#[export] Instance NodeKind_eq_dec : EqDecision NodeKind.
Proof. solve_decision. Defined.

Inductive LayerKind : Type := LFile | LDirectory | LSymlink | LTombstone.
#[export] Instance LayerKind_eq_dec : EqDecision LayerKind.
Proof. solve_decision. Defined.

Inductive WorkspaceState : Type := WReady | WKept | WBroken.
#[export] Instance WorkspaceState_eq_dec : EqDecision WorkspaceState.
Proof. solve_decision. Defined.

Inductive PairState : Type := PCreating | PReady | PKept | PRemoving.
#[export] Instance PairState_eq_dec : EqDecision PairState.
Proof. solve_decision. Defined.

Record WorkspaceRow : Type := mkWorkspaceRow {
  w_repository : string; w_base_commit : string; w_baseline_hash : string;
  w_baseline : BaselineSnapshot; w_state : WorkspaceState }.

Record PairRow : Type := mkPairRow { p_git_id : string; p_state : PairState }.

Record InodeRow : Type := mkInodeRow {
  i_workspace : string; i_kind : NodeKind; i_mode : Z; i_size : Z;
  i_accessed : Z; i_modified : Z; i_changed : Z; i_chunks : list (list Z) }.

(** The payload is the JSON triple [(inode, size, chunks)]. *)
Record JournalRow : Type := mkJournalRow {
  j_workspace : string; j_operation : string; j_complete : bool;
  j_payload : Z * Z * list (list Z) }.

Record ProposalRow : Type := mkProposalRow {
  pr_repository : string; pr_base_commit : string; pr_baseline_hash : string;
  pr_baseline_tree : string; pr_final_tree : string; pr_proposal_commit : string;
  pr_baseline : BaselineSnapshot }.

Record BaseRow : Type := mkBaseRow {
  b_repository : string; b_base_commit : string; b_ready : bool }.

(** A row of cow_repository_base_entries or cow_dirty_entries; the base table
    has no modification time and no hardlink columns and is read as
    [0, NULL, 1]. *)
Record LayerRow : Type := mkLayerRow {
  l_parent : string; l_name : string; l_kind : LayerKind; l_mode : Z; l_size : Z;
  l_modified : Z; l_chunks : list (list Z);
  l_hardlink_key : option string; l_hardlink_count : Z }.

Record DirtyLayerRow : Type := mkDirtyLayerRow {
  dl_id : string; dl_base_id : string; dl_baseline : BaselineSnapshot }.

(** ** The database *)

Record Db : Type := mkDb {
  workspaces : gmap string WorkspaceRow;
  pairs : gmap string PairRow;
  inodes : gmap Z InodeRow;
  inode_seq : Z;
  entries : gmap (string * string) (option Z);
  inode_origins : gmap (string * string) Z;
  hardlink_promotions : gmap (string * string) Z;
  redirects : gmap (string * string) string;
  journal : gmap Z JournalRow;
  journal_seq : Z;
  proposals : gmap string ProposalRow;
  proposal_hardlinks : gset (string * Z * string);
  bases : gmap string BaseRow;
  base_entries : gmap (string * string) LayerRow;
  dirty_layers : list DirtyLayerRow;
  dirty_entries : gmap (string * string) LayerRow;
  workspace_layers : gmap string (string * string);
  overlay_templates : gmap string string;
  tracker : TrackerDb }.

Definition with_workspaces (v : gmap string WorkspaceRow) (d : Db) : Db :=
  mkDb v (pairs d) (inodes d) (inode_seq d) (entries d) (inode_origins d)
    (hardlink_promotions d) (redirects d) (journal d) (journal_seq d) (proposals d)
    (proposal_hardlinks d) (bases d) (base_entries d) (dirty_layers d) (dirty_entries d)
    (workspace_layers d) (overlay_templates d) (tracker d).
Definition with_pairs (v : gmap string PairRow) (d : Db) : Db :=
  mkDb (workspaces d) v (inodes d) (inode_seq d) (entries d) (inode_origins d)
    (hardlink_promotions d) (redirects d) (journal d) (journal_seq d) (proposals d)
    (proposal_hardlinks d) (bases d) (base_entries d) (dirty_layers d) (dirty_entries d)
    (workspace_layers d) (overlay_templates d) (tracker d).
Definition with_inodes (v : gmap Z InodeRow) (d : Db) : Db :=
  mkDb (workspaces d) (pairs d) v (inode_seq d) (entries d) (inode_origins d)
    (hardlink_promotions d) (redirects d) (journal d) (journal_seq d) (proposals d)
    (proposal_hardlinks d) (bases d) (base_entries d) (dirty_layers d) (dirty_entries d)
    (workspace_layers d) (overlay_templates d) (tracker d).
Definition with_inode_seq (v : Z) (d : Db) : Db :=
  mkDb (workspaces d) (pairs d) (inodes d) v (entries d) (inode_origins d)
    (hardlink_promotions d) (redirects d) (journal d) (journal_seq d) (proposals d)
    (proposal_hardlinks d) (bases d) (base_entries d) (dirty_layers d) (dirty_entries d)
    (workspace_layers d) (overlay_templates d) (tracker d).
Definition with_entries (v : gmap (string * string) (option Z)) (d : Db) : Db :=
  mkDb (workspaces d) (pairs d) (inodes d) (inode_seq d) v (inode_origins d)
    (hardlink_promotions d) (redirects d) (journal d) (journal_seq d) (proposals d)
    (proposal_hardlinks d) (bases d) (base_entries d) (dirty_layers d) (dirty_entries d)
    (workspace_layers d) (overlay_templates d) (tracker d).
Definition with_inode_origins (v : gmap (string * string) Z) (d : Db) : Db :=
  mkDb (workspaces d) (pairs d) (inodes d) (inode_seq d) (entries d) v
    (hardlink_promotions d) (redirects d) (journal d) (journal_seq d) (proposals d)
    (proposal_hardlinks d) (bases d) (base_entries d) (dirty_layers d) (dirty_entries d)
    (workspace_layers d) (overlay_templates d) (tracker d).
Definition with_hardlink_promotions (v : gmap (string * string) Z) (d : Db) : Db :=
  mkDb (workspaces d) (pairs d) (inodes d) (inode_seq d) (entries d) (inode_origins d) v
    (redirects d) (journal d) (journal_seq d) (proposals d) (proposal_hardlinks d) (bases d)
    (base_entries d) (dirty_layers d) (dirty_entries d) (workspace_layers d)
    (overlay_templates d) (tracker d).
Definition with_redirects (v : gmap (string * string) string) (d : Db) : Db :=
  mkDb (workspaces d) (pairs d) (inodes d) (inode_seq d) (entries d) (inode_origins d)
    (hardlink_promotions d) v (journal d) (journal_seq d) (proposals d)
    (proposal_hardlinks d) (bases d) (base_entries d) (dirty_layers d) (dirty_entries d)
    (workspace_layers d) (overlay_templates d) (tracker d).
Definition with_journal (v : gmap Z JournalRow) (d : Db) : Db :=
  mkDb (workspaces d) (pairs d) (inodes d) (inode_seq d) (entries d) (inode_origins d)
    (hardlink_promotions d) (redirects d) v (journal_seq d) (proposals d)
    (proposal_hardlinks d) (bases d) (base_entries d) (dirty_layers d) (dirty_entries d)
    (workspace_layers d) (overlay_templates d) (tracker d).
Definition with_journal_seq (v : Z) (d : Db) : Db :=
  mkDb (workspaces d) (pairs d) (inodes d) (inode_seq d) (entries d) (inode_origins d)
    (hardlink_promotions d) (redirects d) (journal d) v (proposals d) (proposal_hardlinks d)
    (bases d) (base_entries d) (dirty_layers d) (dirty_entries d) (workspace_layers d)
    (overlay_templates d) (tracker d).
Definition with_proposals (v : gmap string ProposalRow) (d : Db) : Db :=
  mkDb (workspaces d) (pairs d) (inodes d) (inode_seq d) (entries d) (inode_origins d)
    (hardlink_promotions d) (redirects d) (journal d) (journal_seq d) v
    (proposal_hardlinks d) (bases d) (base_entries d) (dirty_layers d) (dirty_entries d)
    (workspace_layers d) (overlay_templates d) (tracker d).
Definition with_proposal_hardlinks (v : gset (string * Z * string)) (d : Db) : Db :=
  mkDb (workspaces d) (pairs d) (inodes d) (inode_seq d) (entries d) (inode_origins d)
    (hardlink_promotions d) (redirects d) (journal d) (journal_seq d) (proposals d) v
    (bases d) (base_entries d) (dirty_layers d) (dirty_entries d) (workspace_layers d)
    (overlay_templates d) (tracker d).
Definition with_bases (v : gmap string BaseRow) (d : Db) : Db :=
  mkDb (workspaces d) (pairs d) (inodes d) (inode_seq d) (entries d) (inode_origins d)
    (hardlink_promotions d) (redirects d) (journal d) (journal_seq d) (proposals d)
    (proposal_hardlinks d) v (base_entries d) (dirty_layers d) (dirty_entries d)
    (workspace_layers d) (overlay_templates d) (tracker d).
Definition with_base_entries (v : gmap (string * string) LayerRow) (d : Db) : Db :=
  mkDb (workspaces d) (pairs d) (inodes d) (inode_seq d) (entries d) (inode_origins d)
    (hardlink_promotions d) (redirects d) (journal d) (journal_seq d) (proposals d)
    (proposal_hardlinks d) (bases d) v (dirty_layers d) (dirty_entries d)
    (workspace_layers d) (overlay_templates d) (tracker d).
Definition with_dirty_layers (v : list DirtyLayerRow) (d : Db) : Db :=
  mkDb (workspaces d) (pairs d) (inodes d) (inode_seq d) (entries d) (inode_origins d)
    (hardlink_promotions d) (redirects d) (journal d) (journal_seq d) (proposals d)
    (proposal_hardlinks d) (bases d) (base_entries d) v (dirty_entries d)
    (workspace_layers d) (overlay_templates d) (tracker d).
Definition with_dirty_entries (v : gmap (string * string) LayerRow) (d : Db) : Db :=
  mkDb (workspaces d) (pairs d) (inodes d) (inode_seq d) (entries d) (inode_origins d)
    (hardlink_promotions d) (redirects d) (journal d) (journal_seq d) (proposals d)
    (proposal_hardlinks d) (bases d) (base_entries d) (dirty_layers d) v
    (workspace_layers d) (overlay_templates d) (tracker d).
Definition with_workspace_layers (v : gmap string (string * string)) (d : Db) : Db :=
  mkDb (workspaces d) (pairs d) (inodes d) (inode_seq d) (entries d) (inode_origins d)
    (hardlink_promotions d) (redirects d) (journal d) (journal_seq d) (proposals d)
    (proposal_hardlinks d) (bases d) (base_entries d) (dirty_layers d) (dirty_entries d) v
    (overlay_templates d) (tracker d).
Definition with_overlay_templates (v : gmap string string) (d : Db) : Db :=
  mkDb (workspaces d) (pairs d) (inodes d) (inode_seq d) (entries d) (inode_origins d)
    (hardlink_promotions d) (redirects d) (journal d) (journal_seq d) (proposals d)
    (proposal_hardlinks d) (bases d) (base_entries d) (dirty_layers d) (dirty_entries d)
    (workspace_layers d) v (tracker d).
Definition with_tracker (v : TrackerDb) (d : Db) : Db :=
  mkDb (workspaces d) (pairs d) (inodes d) (inode_seq d) (entries d) (inode_origins d)
    (hardlink_promotions d) (redirects d) (journal d) (journal_seq d) (proposals d)
    (proposal_hardlinks d) (bases d) (base_entries d) (dirty_layers d) (dirty_entries d)
    (workspace_layers d) (overlay_templates d) v.

(** The state the workspace core works on (WorkspaceCore of namespace.rs): the
    metadata database, the chunk store and the in-memory promotion cache, with
    the actions that touch one of them. *)


Record Core (St : Type) : Type := mkCore {
  core_db : Db;
  core_store : St;
  promoted_origins : gmap (string * string) Z }.
Arguments mkCore {St} _ _ _.
Arguments core_db {St} _.
Arguments core_store {St} _.
Arguments promoted_origins {St} _.

Section State.
Context {St : Type}.

Definition set_db (d : Db) (c : Core St) : Core St :=
  mkCore d (core_store c) (promoted_origins c).
Definition set_store (s : St) (c : Core St) : Core St :=
  mkCore (core_db c) s (promoted_origins c).
Definition set_promoted (m : gmap (string * string) Z) (c : Core St) : Core St :=
  mkCore (core_db c) (core_store c) m.

Definition query {A} (f : Db -> A) : action Error (Core St) A := gets (fun c => f (core_db c)).
Definition execute (f : Db -> Db) : action Error (Core St) unit :=
  modify (fun c => set_db (f (core_db c)) c).
Definition on_store {A} (m : action Error St A) : action Error (Core St) A :=
  zoom core_store set_store m.
Definition on_tracker {A} (m : action Error TrackerDb A) : action Error (Core St) A :=
  zoom (fun c => tracker (core_db c)) (fun t c => set_db (with_tracker t (core_db c)) c) m.

(** A metadata transaction: rolled back unless the body succeeds.  Chunk
    store effects of the body are not part of it. *)
Definition transact {A} (m : action Error (Core St) A) : action Error (Core St) A := fun c =>
  match m c with
  | (Ok a, c') => (Ok a, c')
  | (r, c') => (r, set_db (core_db c) c')
  end.

Lemma query_run {A} (f : Db -> A) c : query f c = (Ok (f (core_db c)), c).
Proof. done. Qed.
Lemma execute_run f c : execute f c = (Ok tt, set_db (f (core_db c)) c).
Proof. done. Qed.
Lemma set_db_twice d d' c : set_db d' (set_db d c) = set_db d' c.
Proof. done. Qed.
Lemma core_db_set d c : core_db (set_db d c) = d.
Proof. done. Qed.
End State.
