(* ===== verification/Layers.v ===== *)
(** The immutable layers below a workspace (repository_layers.rs): the tree of
    a base commit, the dirty snapshot captured over it, and their binding to
    workspaces.

    [git ls-tree] and [git cat-file] are external: their output is a parameter;
    the parsing and the import are modelled.  BLAKE3 is a parameter. *)

From stdpp Require Import pretty.
From S2P Require Import Prelude Error RustStr ChunkStore ContentStore Tracker Core.
From Stdlib Require Import Ascii.
#[local] Open Scope string_scope.
#[local] Open Scope list_scope.
#[local] Open Scope Z_scope.

(** An entry of a layer, as lookups return it. *)
Record LayerEntry : Type := mkLayerEntry {
  le_kind : LayerKind; le_mode : Z; le_size : Z; le_modified : Z;
  le_chunks : list (list Z); le_hardlink_key : option string; le_hardlink_count : Z }.

Record TreeEntry : Type := mkTreeEntry {
  te_path : string; te_parent : string; te_name : string; te_kind : LayerKind;
  te_mode : Z; te_oid : option string; te_size : Z; te_chunks : list (list Z) }.

Definition split_parent (path : string) : string * string :=
  match rsplit_once slash path with
  | Some (parent, name) => (parent, name)
  | None => ("", path)
  end.

Definition kind_text (kind : EntryKind) : LayerKind :=
  match kind with EFile => LFile | ESymlink => LSymlink | ETombstone => LTombstone end.

(** [u64] columns: stored as [i64], CHECK(size >= 0). *)
Definition size_column (n : Z) : bool := 0 <=? as_i64 n.

(** [WHERE base_id = ?] or [WHERE dirty_layer_id = ?]: the rows of one layer. *)
Definition layer_rows (id : string) (table : gmap (string * string) LayerRow)
  : gmap (string * string) LayerRow :=
  filter (fun x : string * string * LayerRow => x.1.1 = id) table.

Definition chunk_counts (chunks : list (list Z)) : list (list Z * Z) :=
  map_to_list (foldr (fun id m => <[id := default 0 (m !! id) + 1]> m)
    (∅ : gmap (list Z) Z) chunks).

Definition snapshot_chunks (s : BaselineSnapshot) : list (list Z) :=
  (bl_entries s ≫= e_chunks) ++ bl_index_chunks s.

(** ** Parsing [git ls-tree -r -t -z -l] *)

(** White space of the ASCII headers that git writes. *)
Definition is_whitespace (c : ascii) : bool :=
  bool_decide (c ∈ [" "; "009"; "010"; "011"; "012"; "013"]%char).

Definition split_whitespace (s : string) : list string :=
  filter (fun f => f <> "") (split is_whitespace s).

Fixpoint parse_radix (base : Z) (acc : Z) (s : string) : option Z :=
  match s with
  | "" => Some acc
  | String c s =>
      match hex_value c with
      | Some d => if d <? base then parse_radix base (base * acc + d) s else None
      | None => None
      end
  end.

(** [uN::from_str_radix]: an optional [+], at least one digit, no overflow. *)
Definition from_str_radix (bits base : Z) (s : string) : option Z :=
  let digits := match s with String "+" t => t | _ => s end in
  if bool_decide (digits = "") then None
  else match parse_radix base 0 digits with
       | Some n => if n <? 2 ^ bits then Some n else None
       | None => None
       end.

Definition split_bytes (sep : Z) (b : list Z) : list (list Z) :=
  foldr (fun x acc => match acc with
    | cur :: rest => if x =? sep then [] :: acc else (x :: cur) :: rest
    | [] => [[x]] end) [[]] b.

Fixpoint split_at_first (sep : Z) (b : list Z) : option (list Z * list Z) :=
  match b with
  | [] => None
  | x :: b =>
      if x =? sep then Some ([], b)
      else match split_at_first sep b with
           | Some (l, r) => Some (x :: l, r)
           | None => None
           end
  end.

Definition ls_tree_error (detail : string) : Error := Git "git ls-tree" detail.

Definition parse_tree_record (record : list Z) : result TreeEntry :=
  match split_at_first 9 record with
  | None => Err (ls_tree_error "record has no path separator")
  | Some (header, path) =>
      match from_utf8 header, from_utf8 path with
      | None, _ => Err (UnsupportedRepository "non-UTF-8 Git tree header")
      | Some _, None => Err (UnsupportedRepository "non-UTF-8 Git path")
      | Some header, Some path =>
          match split_whitespace header with
          | [mode; type; oid; size] =>
              match from_str_radix 32 8 mode with
              | None => Err (ls_tree_error "invalid mode")
              | Some mode =>
                  let '(parent, name) := split_parent path in
                  if bool_decide (type = "tree") then
                    Ok (mkTreeEntry path parent name LDirectory 16877 None 0 [])
                  else if bool_decide (type = "blob") then
                    match from_str_radix 64 10 size with
                    | None => Err (ls_tree_error "invalid blob size")
                    | Some size =>
                        Ok (mkTreeEntry path parent name
                              (if mode =? 40960 then LSymlink else LFile)
                              mode (Some oid) size [])
                    end
                  else Err (UnsupportedRepository "unsupported Git object type")
              end
          | _ => Err (ls_tree_error "unexpected record")
          end
      end
  end.

Fixpoint parse_tree_records (records : list (list Z)) : result (list TreeEntry) :=
  match records with
  | [] => Ok []
  | r :: rs =>
      res_bind (parse_tree_record r) (fun e =>
      res_bind (parse_tree_records rs) (fun es => Ok (e :: es)))
  end.

Section Layers.
Context {St : Type} {CS : ContentStore St}.
(** BLAKE3; standard output of [git ls-tree] in a repository at a commit, or
    its failure; the header line and the bytes that [git cat-file --batch]
    answers for an object, and how that process ends. *)
Context (blake3 : list Z -> list Z)
        (git_ls_tree : string -> string -> result (list Z))
        (git_cat_file : string -> string -> string * list Z)
        (git_cat_file_exit : string -> result unit).

Abbreviation WS := (action Error (Core St)).

Definition list_tree (repository commit : string) : result (list TreeEntry) :=
  res_bind (git_ls_tree repository commit) (fun stdout =>
    parse_tree_records (filter (fun r => r <> []) (split_bytes 0 stdout))).

Definition cat_file_error (detail : string) : Error := Git "git cat-file --batch" detail.

(** The body of the loop over object ids. *)
Definition hydrate_oid (repository : string) (entries : list TreeEntry) (oid : string)
  : WS (list TreeEntry) :=
  let '(header, stream) := git_cat_file repository oid in
  match split_whitespace header with
  | [id; type; size] =>
      if bool_decide (id = oid) && bool_decide (type = "blob") then
        let! size := ok_or (from_str_radix 64 10 size) (cat_file_error "invalid size") in
        guard (forallb (fun e => negb (bool_decide (te_oid e = Some oid))
                                 || (size =? te_size e)) entries)
          (Corrupt "Git blob changed size during Base import") ;;;
        guard (size + 1 <=? zlen stream) (Io "UnexpectedEof") ;;;
        guard (nth (Z.to_nat size) stream 0 =? 10)
          (cat_file_error "blob terminator missing") ;;;
        let! (chunks, _) := on_store (cs_put_stream (take (Z.to_nat size) stream)) in
        ret ((fun e => if bool_decide (te_oid e = Some oid)
                       then mkTreeEntry (te_path e) (te_parent e) (te_name e) (te_kind e)
                              (te_mode e) (te_oid e) (te_size e) chunks
                       else e) <$> entries)
      else throw (cat_file_error "unexpected response")
  | _ => throw (cat_file_error "unexpected response")
  end.

Definition hydrate_blobs (repository : string) (entries : list TreeEntry)
  : WS (list TreeEntry) :=
  let oids := order_by (elements
    (list_to_set (omap te_oid entries) : gset string)) in
  let! entries := foldM (hydrate_oid repository) entries oids in
  lift (git_cat_file_exit repository) ;;;
  ret entries.

Definition ready_base (repository base_commit : string) (d : Db) : option string :=
  head (filter (fun b : string * BaseRow =>
      b_repository b.2 = repository /\ b_base_commit b.2 = base_commit
      /\ b_ready b.2 = true) (map_to_list (bases d))).*1.

(** [INSERT INTO cow_repository_bases]: primary key and UNIQUE. *)
Definition insert_base (id : string) (row : BaseRow) : WS unit :=
  let! bs := query bases in
  guard (bool_decide (bs !! id = None)
         && bool_decide (map_Forall (fun _ b =>
              ~ (b_repository b = b_repository row /\ b_base_commit b = b_base_commit row)) bs))
    Sql ;;;
  execute (with_bases (<[id := row]> bs)).

Definition insert_base_entry (base_id path : string) (row : LayerRow) : WS unit :=
  let! es := query base_entries in
  guard (bool_decide (es !! (base_id, path) = None) && size_column (l_size row)) Sql ;;;
  execute (with_base_entries (<[(base_id, path) := row]> es)).

Definition base_id_of (prefix repository base_commit : string) : string :=
  prefix +:+ to_hex (blake3 (bytes_of_string repository ++ [0]
                               ++ bytes_of_string base_commit)).

Definition set_base_ready (base_id : string) (d : Db) : Db :=
  with_bases (alter (fun b => mkBaseRow (b_repository b) (b_base_commit b) true)
                base_id (bases d)) d.

Definition ensure_empty_base_with_miss_hook (baseline : BaselineSnapshot)
    (on_miss : Db -> Db) : WS string :=
  guard (starts_with "virtual-empty:" (bl_base_commit baseline))
    (UnsupportedRepository "empty overlay base is missing its virtual-empty identity") ;;;
  let! repository := lift (path_text (bl_repository baseline)) in
  let! found := query (ready_base repository (bl_base_commit baseline)) in
  match found with
  | Some id => ret id
  | None =>
      execute on_miss ;;;
      let base_id := base_id_of "empty-base:" repository (bl_base_commit baseline) in
      transact (
        let! found := query (ready_base repository (bl_base_commit baseline)) in
        match found with
        | Some id =>
            guard (bool_decide (id = base_id))
              (Corrupt "empty repository base identity mismatch") ;;;
            ret base_id
        | None =>
            insert_base base_id (mkBaseRow repository (bl_base_commit baseline) false) ;;;
            forM (bl_directories baseline) (fun dir =>
              let '(parent, name) := split_parent (d_path dir) in
              insert_base_entry base_id (d_path dir)
                (mkLayerRow parent name LDirectory (d_mode dir) 0 0 [] None 1)) ;;;
            execute (set_base_ready base_id) ;;;
            ret base_id
        end)
  end.

Definition ensure_empty_base (baseline : BaselineSnapshot) : WS string :=
  ensure_empty_base_with_miss_hook baseline id.

(** The transaction of [ensure_repository_base]: [true] when it installed. *)
Definition install_base (base_id repository base_commit : string)
    (entries : list TreeEntry) : WS bool :=
  transact (
    let! found := query (ready_base repository base_commit) in
    match found with
    | Some id =>
        guard (bool_decide (id = base_id))
          (Corrupt "repository base identity mismatch") ;;;
        ret false
    | None =>
        insert_base base_id (mkBaseRow repository base_commit true) ;;;
        forM entries (fun e =>
          insert_base_entry base_id (te_path e)
            (mkLayerRow (te_parent e) (te_name e) (te_kind e) (te_mode e) (te_size e)
               0 (te_chunks e) None 1)) ;;;
        ret true
    end).

(** Run [m]; when it fails, run [cleanup] and report both failures. *)
Definition or_cleanup {A} (m : WS A) (cleanup : WS unit) (both : Error) : WS A := fun c =>
  match m c with
  | (Ok a, c') => (Ok a, c')
  | (Panic, c') => (Panic, c')
  | (Err e, c') =>
      match cleanup c' with
      | (Ok _, c'') => (Err e, c'')
      | (Err _, c'') => (Err both, c'')
      | (Panic, c'') => (Panic, c'')
      end
  end.

Definition ensure_repository_base_with_miss_hook (baseline : BaselineSnapshot)
    (on_miss : Db -> Db) : WS string :=
  let! repository := lift (path_text (bl_repository baseline)) in
  let! found := query (ready_base repository (bl_base_commit baseline)) in
  match found with
  | Some id => ret id
  | None =>
      execute on_miss ;;;
      let base_id := base_id_of "base:" repository (bl_base_commit baseline) in
      let! entries := lift (list_tree (bl_repository baseline) (bl_base_commit baseline)) in
      let! entries := hydrate_blobs (bl_repository baseline) entries in
      let retained := chunk_counts (entries ≫= te_chunks) in
      on_store (cs_pin_many retained) ;;;
      let! installed := or_cleanup
        (install_base base_id repository (bl_base_commit baseline) entries)
        (on_store (cs_unpin_many retained))
        (Corrupt "repository base creation and chunk-pin cleanup failed") in
      (if installed : bool then ret tt else on_store (cs_unpin_many retained)) ;;;
      ret base_id
  end.

Definition ensure_repository_base (baseline : BaselineSnapshot) : WS string :=
  ensure_repository_base_with_miss_hook baseline id.

Definition retain_snapshot_chunks (baseline : BaselineSnapshot) : WS unit :=
  on_store (cs_pin_many (chunk_counts (snapshot_chunks baseline))).
Definition release_snapshot_chunks (baseline : BaselineSnapshot) : WS unit :=
  on_store (cs_unpin_many (chunk_counts (snapshot_chunks baseline))).

Definition has_dirty_layer (dirty_id : string) (d : Db) : bool :=
  bool_decide (dirty_id ∈ dl_id <$> dirty_layers d).

(** Decimal text of a group index. *)
Definition decimal (n : nat) : string := pretty (N.of_nat n).

(** The map from path to hardlink key and group size. *)
Definition hardlink_table (dirty_id : string) (groups : list (list string))
  : result (gmap string (string * Z)) :=
  foldl (fun acc g =>
    res_bind acc (fun m =>
      let '(group_id, group) := (g : nat * list string) in
      if (length group <? 2)%nat
      then Err (Corrupt "dirty baseline hardlink group contains fewer than two paths")
      else foldl (fun acc path =>
             res_bind acc (fun m =>
               match m !! path with
               | Some _ => Err (Corrupt "dirty baseline path belongs to multiple hardlink groups")
               | None => Ok (<[path := (dirty_id +:+ ":" +:+ decimal group_id,
                                         zlen group)]> m)
               end)) (Ok m) group))
    (Ok ∅) (imap pair groups).

Definition insert_dirty_entry (dirty_id : string) (hardlinks : gmap string (string * Z))
    (e : BaselineEntry) : WS unit :=
  let '(parent, name) := split_parent (e_path e) in
  let! es := query dirty_entries in
  guard (bool_decide (es !! (dirty_id, e_path e) = None) && size_column (e_size e)) Sql ;;;
  execute (with_dirty_entries
    (<[(dirty_id, e_path e) :=
         mkLayerRow parent name (kind_text (e_kind e)) (e_mode e) (e_size e)
           (e_modified e) (e_chunks e) (fst <$> hardlinks !! e_path e)
           (match hardlinks !! e_path e with Some (_, n) => n | None => 1 end)]> es)).

(** [INSERT INTO cow_dirty_layers]: primary key, foreign key on the base. *)
Definition insert_dirty_layer (row : DirtyLayerRow) : WS unit :=
  let! d := query id in
  guard (negb (has_dirty_layer (dl_id row) d)
         && bool_decide (is_Some (bases d !! dl_base_id row))) Sql ;;;
  execute (with_dirty_layers (dirty_layers d ++ [row])).

Definition ensure_layers (baseline : BaselineSnapshot)
    (captured_snapshot_owns_chunks empty_base : bool) : WS (string * string) :=
  let! base_id :=
    if empty_base then ensure_empty_base baseline else ensure_repository_base baseline in
  let dirty_id := "dirty:" +:+ bl_baseline_hash baseline in
  let! exists_ := query (has_dirty_layer dirty_id) in
  if exists_ then
    (if captured_snapshot_owns_chunks then release_snapshot_chunks baseline else ret tt) ;;;
    ret (base_id, dirty_id)
  else
    (if captured_snapshot_owns_chunks then ret tt else retain_snapshot_chunks baseline) ;;;
    let! hardlinks := lift (hardlink_table dirty_id (bl_hardlink_groups baseline)) in
    let install := transact (
      insert_dirty_layer (mkDirtyLayerRow dirty_id base_id baseline) ;;;
      forM (bl_entries baseline) (insert_dirty_entry dirty_id hardlinks)) in
    (fun c => match install c with
      | (Err e, c') =>
          if captured_snapshot_owns_chunks then (Err e, c')
          else (ignore (release_snapshot_chunks baseline) ;;; throw e) c'
      | r => r
      end) ;;;
    ret (base_id, dirty_id).

(** ** Binding workspaces to layers *)

Definition link_workspace (workspace_id base_id dirty_layer_id : string) : WS unit :=
  let! d := query id in
  guard (bool_decide (workspace_layers d !! workspace_id = None)
         && bool_decide (is_Some (workspaces d !! workspace_id))
         && bool_decide (is_Some (bases d !! base_id))
         && has_dirty_layer dirty_layer_id d) Sql ;;;
  execute (with_workspace_layers
    (<[workspace_id := (base_id, dirty_layer_id)]> (workspace_layers d))).

Definition retain_overlay_template (baseline_hash dirty_layer_id : string) : WS unit :=
  let! d := query id in
  (if bool_decide (overlay_templates d !! baseline_hash = None)
      && bool_decide (map_Forall (fun _ l => l <> dirty_layer_id) (overlay_templates d))
   then
     guard (has_dirty_layer dirty_layer_id d) Sql ;;;
     execute (with_overlay_templates
       (<[baseline_hash := dirty_layer_id]> (overlay_templates d)))
   else ret tt) ;;;
  let! observed := query (fun d => overlay_templates d !! baseline_hash) in
  let! observed := ok_or observed Sql in
  guard (bool_decide (observed = dirty_layer_id))
    (Corrupt "overlay template points at an unexpected immutable layer").

(** ** Looking through the layers *)

Definition row_entry (r : LayerRow) : LayerEntry :=
  mkLayerEntry (l_kind r) (l_mode r) (l_size r) (l_modified r) (l_chunks r)
    (l_hardlink_key r) (l_hardlink_count r).

Definition layers_of (workspace_id : string) : WS (string * string) :=
  let! l := query (fun d => workspace_layers d !! workspace_id) in
  ok_or l (Corrupt "workspace has no layer binding").

(** The visible layer entry of a path, given the two layer ids. *)
Definition lookup_layers (base_id dirty_id path : string) (d : Db) : option LayerEntry :=
  match dirty_entries d !! (dirty_id, path) with
  | Some r => if bool_decide (l_kind r = LTombstone) then None else Some (row_entry r)
  | None => row_entry <$> base_entries d !! (base_id, path)
  end.

Definition lookup (workspace_id path : string) : WS (option LayerEntry) :=
  let! (base_id, dirty_id) := layers_of workspace_id in
  query (lookup_layers base_id dirty_id path).

(** The children of [parent] in one table, keyed by name. *)
Definition children (table : gmap (string * string) LayerRow) (id parent : string)
  : list LayerRow :=
  (filter (fun x : string * string * LayerRow => l_parent x.2 = parent)
     (map_to_list (layer_rows id table))).*2.

Definition add_child (m : gmap string LayerEntry) (r : LayerRow) : gmap string LayerEntry :=
  if bool_decide (l_kind r = LTombstone) then delete (l_name r) m
  else <[l_name r := row_entry r]> m.

Definition list_entries (workspace_id parent : string) : WS (gmap string LayerEntry) :=
  let! (base_id, dirty_id) := layers_of workspace_id in
  query (fun d => foldl add_child
    (foldl add_child ∅ (children (base_entries d) base_id parent))
    (children (dirty_entries d) dirty_id parent)).

Definition descendant_pattern (path : string) : string :=
  if bool_decide (path = "") then "%" else escape_like path +:+ "/%".

Definition any_path_like (table : gmap (string * string) LayerRow) (id pattern : string)
  : bool :=
  existsb (fun x : string * string * LayerRow => like pattern x.1.2)
    (map_to_list (layer_rows id table)).

Definition has_descendant (workspace_id path : string) : WS bool :=
  let! (base_id, dirty_id) := layers_of workspace_id in
  query (fun d => any_path_like (base_entries d) base_id (descendant_pattern path)
                  || any_path_like (dirty_entries d) dirty_id (descendant_pattern path)).

Definition count_references (d : Db) : list (list (list Z)) :=
  ((fun x : string * string * LayerRow => l_chunks x.2) <$> map_to_list (base_entries d))
  ++ ((fun x : string * string * LayerRow => l_chunks x.2) <$> map_to_list (dirty_entries d))
  ++ ((fun l => bl_index_chunks (dl_baseline l)) <$> dirty_layers d).

(** The paths of every promoted hardlink key of a workspace, by key. *)
Definition promoted_hardlink_groups (workspace_id : string) (d : Db) : list (list string) :=
  match workspace_layers d !! workspace_id with
  | None => []
  | Some (_, dirty_id) =>
      let keys := order_by (elements (list_to_set (filter (fun k =>
        is_Some (hardlink_promotions d !! (workspace_id, k)))
        (omap (fun x : string * string * LayerRow => l_hardlink_key x.2)
           (map_to_list (layer_rows dirty_id (dirty_entries d))))) : gset string)) in
      (fun key => order_by (filter (fun x : string * string * LayerRow =>
          l_hardlink_key x.2 = Some key)
          (map_to_list (layer_rows dirty_id (dirty_entries d)))).*1.*2) <$> keys
  end.

Definition cached_snapshot (repository : string) (tracker_epoch : Z)
  : WS (option BaselineSnapshot) :=
  let! repository := lift (path_text repository) in
  query (fun d => head (filter (fun s =>
      bl_tracker_epoch s = Some tracker_epoch /\ is_Some (bl_tracker_generation s))
    (dl_baseline <$> filter (fun l =>
      b_repository <$> bases d !! dl_base_id l = Some repository)
      (reverse (dirty_layers d))))).

(** ** Dropping layers nothing refers to *)

Definition dirty_unreferenced (d : Db) (l : DirtyLayerRow) : bool :=
  bool_decide (map_Forall (fun _ b => snd b <> dl_id l) (workspace_layers d))
  && bool_decide (map_Forall (fun _ p =>
       "dirty:" +:+ pr_baseline_hash p <> dl_id l) (proposals d))
  && bool_decide (map_Forall (fun _ t => t <> dl_id l) (overlay_templates d)).

Definition delete_dirty_layers (ids : list string) (d : Db) : Db :=
  with_dirty_layers (filter (fun l => dl_id l ∉ ids) (dirty_layers d))
    (with_dirty_entries (filter (fun x : string * string * LayerRow => x.1.1 ∉ ids)
       (dirty_entries d)) d).

Definition base_unreferenced (d : Db) (id : string) : bool :=
  forallb (fun l => negb (bool_decide (dl_base_id l = id))) (dirty_layers d).

Definition delete_bases (ids : list string) (d : Db) : Db :=
  with_bases (filter (fun x : string * BaseRow => x.1 ∉ ids) (bases d))
    (with_base_entries (filter (fun x : string * string * LayerRow => x.1.1 ∉ ids)
       (base_entries d)) d).

Definition remove_unreferenced : WS unit :=
  let! dirty := query (fun d =>
    filter (fun l => dirty_unreferenced d l = true) (dirty_layers d)) in
  let released := dirty ≫= (fun l => snapshot_chunks (dl_baseline l)) in
  execute (delete_dirty_layers (dl_id <$> dirty)) ;;;
  let! unused := query (fun d =>
    filter (fun id => base_unreferenced d id = true) (map_to_list (bases d)).*1) in
  let! released_base := query (fun d =>
    unused ≫= (fun id => (filter (fun x : string * string * LayerRow => x.1.1 = id)
      (map_to_list (base_entries d))) ≫= (fun x => l_chunks x.2))) in
  (* the foreign key of the binding table *)
  let! bound := query (fun d => bool_decide (map_Forall (fun _ b => fst b ∉ unused)
                                  (workspace_layers d))) in
  guard bound Sql ;;;
  execute (delete_bases unused) ;;;
  forM (released ++ released_base) (fun chunk => on_store (cs_unpin chunk)).
End Layers.
