(* ===== verification/Namespace.v ===== *)
(** The copy-on-write namespace (namespace.rs): path resolution through the
    private overlay, directory redirects and immutable layers; file content as
    chunk manifests; creation, writing, linking, renaming and removal.

    Every operation takes the workspace id its handle carries.  The writer
    mutex and the connection pool serialise callers and are not modelled;
    [now] is the clock reading of the call. *)

From S2P Require Import Prelude Error RustStr PathPolicy ChunkStore ContentStore Tracker Core Layers.
From Stdlib Require Import Ascii.
#[local] Open Scope string_scope.
#[local] Open Scope list_scope.
#[local] Open Scope Z_scope.

Record NodeMetadata : Type := mkMetadata {
  m_kind : NodeKind; m_mode : Z; m_size : Z; m_inode : Z; m_nlink : Z;
  m_accessed : Z; m_modified : Z; m_changed : Z }.

Record DirectoryEntry : Type := mkDirectoryEntry {
  de_name : string; de_metadata : NodeMetadata }.

Record InodeRecord : Type := mkInode {
  ino_id : Z; ino_kind : NodeKind; ino_size : Z; ino_chunks : list (list Z) }.

Inductive WorkspaceFileBacking : Type :=
| Private (inode : Z)
| Immutable (visible_path origin_path : string) (metadata : NodeMetadata)
    (chunks : list (list Z)).

Record WorkspaceFileHandle : Type := mkHandle {
  fh_workspace : string; fh_backing : WorkspaceFileBacking }.

Definition u64_from_le_bytes (b : list Z) : Z := foldr (fun x acc => x + 256 * acc) 0 b.

Definition layer_node_kind (k : LayerKind) : result NodeKind :=
  match k with
  | LFile => Ok File
  | LDirectory => Ok Directory
  | LSymlink => Ok Symlink
  | LTombstone => Err (Corrupt "tombstone escaped repository-layer resolution")
  end.

(** ** Queries on the overlay *)

Definition workspace_entries (ws : string) (d : Db) : list (string * option Z) :=
  (fun x : string * string * option Z => (x.1.2, x.2)) <$>
    map_to_list (filter (fun x : string * string * option Z => x.1.1 = ws) (entries d)).

Definition workspace_redirects (ws : string) (d : Db) : list (string * string) :=
  (fun x : string * string * string => (x.1.2, x.2)) <$>
    map_to_list (filter (fun x : string * string * string => x.1.1 = ws) (redirects d)).

Definition inode_record (id : Z) (r : InodeRow) : InodeRecord :=
  mkInode id (i_kind r) (i_size r) (i_chunks r).

Definition load_inode_for_path (ws path : string) (d : Db) : option InodeRecord :=
  match entries d !! (ws, path) with
  | Some (Some id) => inode_record id <$> inodes d !! id
  | _ => None
  end.

Definition load_inode_for_id (ws : string) (id : Z) (d : Db) : option InodeRecord :=
  match inodes d !! id with
  | Some r => if bool_decide (i_workspace r = ws) then Some (inode_record id r) else None
  | None => None
  end.

Definition load_inode_for_origin (ws origin : string) (d : Db) : option InodeRecord :=
  match inode_origins d !! (ws, origin) with
  | Some id => inode_record id <$> inodes d !! id
  | None => None
  end.

Definition load_inode_for_hardlink_key (ws key : string) (d : Db) : option InodeRecord :=
  match hardlink_promotions d !! (ws, key) with
  | Some id => load_inode_for_id ws id d
  | None => None
  end.

(** The immutable paths that share the hardlink keys promoted to an inode. *)
Definition promoted_paths (ws : string) (inode : Z) (d : Db) : list string :=
  match workspace_layers d !! ws with
  | None => []
  | Some (_, dirty_id) =>
      (filter (fun x : string * string * LayerRow =>
         (l_hardlink_key x.2 ≫= fun key => hardlink_promotions d !! (ws, key)) = Some inode)
         (map_to_list (layer_rows dirty_id (dirty_entries d)))).*1.*2
  end.

Definition link_count (ws : string) (inode : Z) (d : Db) : Z :=
  zlen (filter (fun p => entries d !! (ws, p) <> Some None) (promoted_paths ws inode d))
  + zlen (filter (fun e : string * option Z =>
      e.2 = Some inode /\ e.1 ∉ promoted_paths ws inode d) (workspace_entries ws d)).

Definition load_metadata_for_inode (ws : string) (inode : Z) (d : Db) : option NodeMetadata :=
  match inodes d !! inode with
  | Some r =>
      if bool_decide (i_workspace r = ws)
      then Some (mkMetadata (i_kind r) (i_mode r) (i_size r) inode (link_count ws inode d)
                   (i_accessed r) (i_modified r) (i_changed r))
      else None
  | None => None
  end.

Definition overlay_entry (ws path : string) (d : Db) : option NodeMetadata :=
  match entries d !! (ws, path) with
  | Some (Some inode) => load_metadata_for_inode ws inode d
  | _ => None
  end.

(** The loop up the ancestors, from the path itself. *)
Fixpoint ancestor_tombstoned_from (fuel : nat) (ws current : string) (d : Db) : bool :=
  bool_decide (entries d !! (ws, current) = Some None)
  || match fuel, rsplit_once slash current with
     | S fuel, Some (parent, _) => ancestor_tombstoned_from fuel ws parent d
     | _, _ => false
     end.
Definition ancestor_tombstoned (ws path : string) (d : Db) : bool :=
  ancestor_tombstoned_from (String.length path) ws path d.

Definition has_overlay_descendant (ws path : string) (d : Db) : bool :=
  existsb (fun e : string * option Z =>
    like (escape_like (path +:+ "/") +:+ "%") e.1 && bool_decide (is_Some e.2))
    (workspace_entries ws d).

(** Longest destination first.  Two destinations that both match a path are
    prefixes of it, so the order among equal lengths does not matter. *)
Definition longer (a b : string * string) : Prop := str_len b.1 <= str_len a.1.
#[export] Instance longer_dec : RelDecision longer.
Proof. intros a b. unfold longer. apply _. Defined.

Definition redirect_match (path : string) (r : string * string) : option string :=
  let '(destination, source) := r in
  if bool_decide (path = destination) then Some source
  else match strip_prefix (destination +:+ "/") path with
       | Some suffix =>
           Some (if bool_decide (source = "") then suffix else source +:+ "/" +:+ suffix)
       | None => None
       end.

Definition translate_redirect (ws path : string) (d : Db) : string :=
  default path (head (omap (redirect_match path) (merge_sort longer (workspace_redirects ws d)))).

Section Namespace.
Context {St : Type} {CS : ContentStore St}.
Context (blake3 : list Z -> list Z).
Abbreviation WS := (action Error (Core St)).

Definition stable_inode (ws path : string) : Z :=
  Z.max 1 (u64_from_le_bytes (take 8
    (blake3 (bytes_of_string ws ++ [0] ++ bytes_of_string path)))).

(** A directory that exists only because something lies below it. *)
Definition implied_directory (ws path : string) : NodeMetadata :=
  mkMetadata Directory 16877 0 (stable_inode ws path) 2 0 0 0.

Definition layer_metadata (ws visible_path : string) (e : LayerEntry) : result NodeMetadata :=
  if 2 ^ 32 <=? Z.max 1 (le_hardlink_count e)
  then Err (Corrupt "immutable hardlink count exceeds u32")
  else res_bind (layer_node_kind (le_kind e)) (fun kind =>
    Ok (mkMetadata kind (le_mode e) (le_size e)
          (stable_inode ws match le_hardlink_key e with
             | Some key => String "000" ("immutable-hardlink" +:+ String "000" key)
             | None => visible_path
             end)
          (Z.max 1 (le_hardlink_count e))
          (le_modified e) (le_modified e) (le_modified e))).

Definition pristine_overlay (ws : string) (d : Db) : bool :=
  bool_decide (workspace_entries ws d = []) && bool_decide (workspace_redirects ws d = []).

(** [metadata] below the root, on a normalised path. *)
Definition metadata_at (ws path : string) : WS (option NodeMetadata) :=
  let! pristine := query (pristine_overlay ws) in
  if pristine then
    let! entry := lookup ws path in
    match entry with
    | Some entry => let! m := lift (layer_metadata ws path entry) in ret (Some m)
    | None =>
        let! below := has_descendant ws path in
        ret (if below : bool then Some (implied_directory ws path) else None)
    end
  else
    let! own := query (overlay_entry ws path) in
    match own with
    | Some m => ret (Some m)
    | None =>
        let! hidden := query (ancestor_tombstoned ws path) in
        if hidden then ret None
        else
          let! below := query (has_overlay_descendant ws path) in
          if below then ret (Some (implied_directory ws path))
          else
            let! translated := query (translate_redirect ws path) in
            let! entry := lookup ws translated in
            match entry with
            | Some entry =>
                let! promoted := query (fun d =>
                  match le_hardlink_key entry with
                  | Some key => load_inode_for_hardlink_key ws key d
                  | None => None
                  end) in
                match promoted with
                | Some inode => query (load_metadata_for_inode ws (ino_id inode))
                | None => let! m := lift (layer_metadata ws path entry) in ret (Some m)
                end
            | None =>
                let! below := has_descendant ws translated in
                ret (if below : bool then Some (implied_directory ws path) else None)
            end
    end.

Definition metadata (ws path : string) : WS (option NodeMetadata) :=
  let! path := lift (normalize_path path true) in
  if bool_decide (path = "") then ret (Some (implied_directory ws ""))
  else metadata_at ws path.

(** ** Content *)

Definition read_chunk_part (ids : list (list Z)) (offset end_ index : Z) (acc : list Z)
  : WS (list Z) :=
  let! id := ok_or (ids !! Z.to_nat index) (Corrupt "missing logical chunk") in
  let! chunk := on_store (cs_read id) in
  let logical_start := index * CHUNK_SIZE in
  let from := saturating_sub offset logical_start in
  let to := Z.min (end_ - logical_start) (zlen chunk) in
  guard (from <=? to) (Corrupt "chunk bounds disagree with inode size") ;;;
  ret (acc ++ slice chunk from (to - from)).

Definition read_chunks (ids : list (list Z)) (size offset length : Z) : WS (list Z) :=
  if (size <=? offset) || (length =? 0) then ret []
  else
    let end_ := Z.min size (Z.min (2 ^ 64 - 1) (offset + length)) in
    let first := offset / CHUNK_SIZE in
    let last := (end_ - 1) / CHUNK_SIZE in
    foldM (fun acc index => read_chunk_part ids offset end_ index acc) []
      (seqZ first (last - first + 1)).

Definition resolve_inode (ws path : string) : WS InodeRecord :=
  let! own := query (load_inode_for_path ws path) in
  match own with
  | Some inode => ret inode
  | None =>
      let! hidden := query (ancestor_tombstoned ws path) in
      guard (negb hidden) (NotFound path) ;;;
      let! translated := query (translate_redirect ws path) in
      let! entry := lookup ws translated in
      let! entry := ok_or entry (NotFound path) in
      let! promoted := query (fun d =>
        match le_hardlink_key entry with
        | Some key => load_inode_for_hardlink_key ws key d
        | None => None
        end) in
      match promoted with
      | Some inode => ret inode
      | None =>
          let! kind := lift (layer_node_kind (le_kind entry)) in
          ret (mkInode 0 kind (le_size entry) (le_chunks entry))
      end
  end.

Definition read_file (ws path : string) (offset length : Z) : WS (list Z) :=
  let! path := lift (normalize_path path false) in
  let! inode := resolve_inode ws path in
  guard (negb (bool_decide (ino_kind inode = Directory))) (IsDirectory path) ;;;
  read_chunks (ino_chunks inode) (ino_size inode) offset length.

(** ** Rows *)

Definition insert_inode (ws : string) (kind : NodeKind) (mode size modified : Z)
    (chunks : list (list Z)) : WS Z :=
  let! d := query id in
  guard (bool_decide (is_Some (workspaces d !! ws)) && size_column size
         && (inode_seq d <? I64_MAX)) Sql ;;;
  let inode := inode_seq d + 1 in
  execute (fun d => with_inode_seq inode (with_inodes
    (<[inode := mkInodeRow ws kind mode size modified modified modified chunks]>
       (inodes d)) d)) ;;;
  ret inode.

Definition insert_entry (ws path : string) (inode : Z) : WS unit :=
  let! d := query id in
  guard (bool_decide (is_Some (workspaces d !! ws))
         && bool_decide (is_Some (inodes d !! inode))) Sql ;;;
  execute (fun d => with_entries (<[(ws, path) := Some inode]> (entries d)) d).

Definition insert_tombstone (ws path : string) : WS unit :=
  let! d := query id in
  guard (bool_decide (is_Some (workspaces d !! ws))) Sql ;;;
  execute (fun d => with_entries (<[(ws, path) := None]> (entries d)) d).

(** Insertion into a table with PRIMARY KEY(workspace_id, _) and
    UNIQUE(workspace_id, inode_id). *)
Definition unique_binding (ws key : string) (inode : Z) (m : gmap (string * string) Z) : bool :=
  bool_decide (m !! (ws, key) = None)
  && bool_decide (map_Forall (fun k i => ~ (k.1 = ws /\ i = inode)) m).

Definition insert_origin (ws origin : string) (inode : Z) : WS unit :=
  let! m := query inode_origins in
  guard (unique_binding ws origin inode m) Sql ;;;
  execute (fun d => with_inode_origins (<[(ws, origin) := inode]> (inode_origins d)) d).

Definition insert_promotion (ws key : string) (inode : Z) : WS unit :=
  let! m := query hardlink_promotions in
  guard (unique_binding ws key inode m) Sql ;;;
  execute (fun d => with_hardlink_promotions
    (<[(ws, key) := inode]> (hardlink_promotions d)) d).

Definition update_inode (ws : string) (inode size : Z) (chunks : list (list Z)) (now : Z)
  : WS unit :=
  let! row := query (fun d => inodes d !! inode) in
  match row with
  | Some r =>
      guard (bool_decide (i_workspace r = ws)) (Corrupt "missing inode") ;;;
      guard (size_column size) Sql ;;;
      execute (fun d => with_inodes (<[inode :=
        mkInodeRow ws (i_kind r) (i_mode r) size (i_accessed r) now now chunks]> (inodes d)) d)
  | None => throw (Corrupt "missing inode")
  end.

Definition set_inode_metadata (ws : string) (inode : Z) (mode accessed modified : option Z)
    (now : Z) : WS unit :=
  let! row := query (fun d => inodes d !! inode) in
  match row with
  | Some r =>
      guard (bool_decide (i_workspace r = ws)) (Corrupt "missing inode") ;;;
      execute (fun d => with_inodes (<[inode :=
        mkInodeRow ws (i_kind r) (default (i_mode r) mode) (i_size r)
          (default (i_accessed r) accessed) (default (i_modified r) modified) now
          (i_chunks r)]> (inodes d)) d)
  | None => throw (Corrupt "missing inode")
  end.

Definition begin_namespace_journal (ws operation : string) (payload : Z * Z * list (list Z))
  : WS Z :=
  let! n := query journal_seq in
  guard (n <? I64_MAX) Sql ;;;
  execute (fun d => with_journal_seq (n + 1) (with_journal
    (<[n + 1 := mkJournalRow ws operation false payload]> (journal d)) d)) ;;;
  ret (n + 1).

Definition complete_namespace_journal (journal_id : Z) : WS unit :=
  let! row := query (fun d => journal d !! journal_id) in
  guard (bool_decide (is_Some row)) (Corrupt "namespace journal disappeared") ;;;
  execute (fun d => with_journal (delete journal_id (journal d)) d).

Definition remember_promotion (ws origin : string) (inode : Z) : WS unit :=
  modify (fun c => set_promoted (<[(ws, origin) := inode]> (promoted_origins c)) c).

(** ** Promotion of an immutable path to a private inode *)

Definition pin_all (ids : list (list Z)) : WS unit := forM ids (fun id => on_store (cs_pin id)).
Definition unpin_all (ids : list (list Z)) : WS unit :=
  forM ids (fun id => on_store (cs_unpin id)).

(** The transaction of [materialize]: an inode that already stands for the
    path, or the new one. *)
Definition bind_private (ws path origin : string) (key : option string)
    (source : InodeRecord) (mode : Z) : WS (InodeRecord * bool * bool) :=
  transact (
    let! own := query (load_inode_for_path ws path) in
    match own with
    | Some inode => ret (inode, false, false)
    | None =>
        let! known := query (fun d =>
          match load_inode_for_origin ws origin d with
          | Some inode => Some inode
          | None => match key with
                    | Some key => load_inode_for_hardlink_key ws key d
                    | None => None
                    end
          end) in
        match known with
        | Some inode => insert_entry ws path (ino_id inode) ;;; ret (inode, false, true)
        | None =>
            let! inode := insert_inode ws (ino_kind source) mode (ino_size source) 0
              (ino_chunks source) in
            insert_origin ws origin inode ;;;
            (match key with
             | Some key => insert_promotion ws key inode
             | None => ret tt
             end) ;;;
            insert_entry ws path inode ;;;
            ret (mkInode inode (ino_kind source) (ino_size source) (ino_chunks source),
                 true, true)
        end
    end).

Definition materialize (ws path : string) : WS InodeRecord :=
  let! own := query (load_inode_for_path ws path) in
  match own with
  | Some inode => ret inode
  | None =>
      let! hidden := query (ancestor_tombstoned ws path) in
      guard (negb hidden) (NotFound path) ;;;
      let! origin := query (translate_redirect ws path) in
      let! entry := lookup ws origin in
      let! entry := ok_or entry (NotFound path) in
      let! source := resolve_inode ws path in
      let! m := metadata ws path in
      let! m := ok_or m (NotFound path) in
      pin_all (ino_chunks source) ;;;
      let! (inode, created, bound) :=
        bind_private ws path origin (le_hardlink_key entry) source (m_mode m) in
      (if created : bool then ret tt else unpin_all (ino_chunks source)) ;;;
      (if bound : bool then remember_promotion ws origin (ino_id inode) else ret tt) ;;;
      ret inode
  end.

(** ** Writing *)

(** [chunk[dst..dst + n].copy_from_slice(&src)]: out of range panics. *)
Definition copy_from_slice (chunk : list Z) (dst : Z) (src : list Z) : WS (list Z) :=
  if (0 <=? dst) && (dst + zlen src <=? zlen chunk)
  then ret (take (Z.to_nat dst) chunk ++ src ++ drop (Z.to_nat (dst + zlen src)) chunk)
  else panic.

(** [&bytes[start..start + n]]. *)
Definition index_slice (b : list Z) (start n : Z) : WS (list Z) :=
  if (0 <=? start) && (0 <=? n) && (start + n <=? zlen b) then ret (slice b start n) else panic.

Definition put_pinned (b : list Z) : WS (list Z) :=
  let! id := on_store (cs_put b) in
  on_store (cs_pin id) ;;;
  ret id.

(** One push of the loop that extends the manifest up to the last chunk. *)
Definition extend_zero (size : Z) (chunks : list (list Z)) (index : Z) : WS (list (list Z)) :=
  let logical_start := index * CHUNK_SIZE in
  let existing_len := Z.min (saturating_sub size logical_start) CHUNK_SIZE in
  let! id := put_pinned (replicate (Z.to_nat existing_len) 0) in
  ret (chunks ++ [id]).

(** The new content of one chunk touched by a write. *)
Definition write_chunk (chunks : list (list Z)) (new_size offset : Z) (bytes : list Z)
    (index : Z) : WS (Z * list Z) :=
  let end_ := offset + zlen bytes in
  let logical_start := index * CHUNK_SIZE in
  let target_len := Z.min (saturating_sub new_size logical_start) CHUNK_SIZE in
  let! chunk :=
    match chunks !! Z.to_nat index with
    | Some id => on_store (cs_read id)
    | None => ret []
    end in
  let chunk := resize_zero chunk target_len in
  let write_start := Z.max offset logical_start in
  let write_end := Z.min end_ (logical_start + target_len) in
  let! src := index_slice bytes (write_start - offset) (write_end - write_start) in
  let! chunk := copy_from_slice chunk (write_start - logical_start) src in
  let! id := put_pinned chunk in
  ret (index, id).

Definition replace_chunks (chunks : list (list Z)) (replacement : list (Z * list Z))
  : list (list Z) :=
  foldl (fun cs r => <[Z.to_nat r.1 := r.2]> cs) chunks replacement.

Definition write_inode (ws : string) (inode : InodeRecord) (offset : Z) (bytes : list Z)
    (now : Z) : WS Z :=
  if bool_decide (bytes = []) then ret 0
  else
    let end_ := offset + zlen bytes in
    guard (end_ <? 2 ^ 64) (InvalidPath "write offset overflow") ;;;
    let new_size := Z.max (ino_size inode) end_ in
    let first_chunk := offset / CHUNK_SIZE in
    let last_chunk := (end_ - 1) / CHUNK_SIZE in
    let! chunks := foldM (extend_zero (ino_size inode)) (ino_chunks inode)
      (seqZ (zlen (ino_chunks inode)) (last_chunk + 1 - zlen (ino_chunks inode))) in
    let! replacement := mapM (write_chunk chunks new_size offset bytes)
      (seqZ first_chunk (last_chunk - first_chunk + 1)) in
    let! old := mapM (fun r : Z * list Z => unwrap (chunks !! Z.to_nat r.1)) replacement in
    let chunks := replace_chunks chunks replacement in
    let! journal_id := begin_namespace_journal ws "write" (ino_id inode, new_size, chunks) in
    update_inode ws (ino_id inode) new_size chunks now ;;;
    complete_namespace_journal journal_id ;;;
    unpin_all old ;;;
    ret (zlen bytes).

Definition write (ws path : string) (offset : Z) (bytes : list Z) (now : Z) : WS Z :=
  let! path := lift (normalize_path path false) in
  let! inode := materialize ws path in
  guard (bool_decide (ino_kind inode = File)) (IsDirectory path) ;;;
  write_inode ws inode offset bytes now.

(** One push of the loop of [truncate_inode] that extends the manifest. *)
Definition truncate_extend (new_size : Z) (chunks : list (list Z)) (index : Z)
  : WS (list (list Z)) :=
  let start := index * CHUNK_SIZE in
  let len := Z.min (saturating_sub new_size start) CHUNK_SIZE in
  let! id := put_pinned (replicate (Z.to_nat len) 0) in
  ret (chunks ++ [id]).

(** Cut or zero-extend the last chunk; the result lists what it replaced. *)
Definition truncate_last (new_size required : Z) (chunks : list (list Z))
  : WS (list (list Z) * list (list Z)) :=
  if required <=? 0 then ret (chunks, [])
  else
    let last_len := new_size - (required - 1) * CHUNK_SIZE in
    let last_index := Z.to_nat (required - 1) in
    let! id := unwrap (chunks !! last_index) in
    let! last := on_store (cs_read id) in
    if zlen last =? last_len then ret (chunks, [])
    else
      let! replacement := put_pinned (resize_zero last last_len) in
      ret (<[last_index := replacement]> chunks, [id]).

Definition truncate_inode (ws : string) (inode : InodeRecord) (new_size now : Z) : WS unit :=
  let required := if new_size =? 0 then 0 else (new_size - 1) / CHUNK_SIZE + 1 in
  let removed := drop (Z.to_nat required) (ino_chunks inode) in
  let kept := take (Z.to_nat required) (ino_chunks inode) in
  let! chunks := foldM (truncate_extend new_size) kept
    (seqZ (zlen kept) (required - zlen kept)) in
  let! (chunks, replaced) := truncate_last new_size required chunks in
  update_inode ws (ino_id inode) new_size chunks now ;;;
  unpin_all (removed ++ replaced).

Definition truncate (ws path : string) (new_size now : Z) : WS unit :=
  let! path := lift (normalize_path path false) in
  let! inode := materialize ws path in
  guard (bool_decide (ino_kind inode = File)) (IsDirectory path) ;;;
  truncate_inode ws inode new_size now.

Definition set_metadata (ws path : string) (mode accessed modified : option Z) (now : Z)
  : WS unit :=
  let! path := lift (normalize_path path false) in
  let! inode := materialize ws path in
  set_inode_metadata ws (ino_id inode) mode accessed modified now.

(** ** Creating *)

Definition ensure_parent_directory (ws path : string) : WS unit :=
  match rsplit_once slash path with
  | None => ret tt
  | Some (parent, _) =>
      let! m := metadata ws parent in
      match m with
      | Some m =>
          guard (bool_decide (m_kind m = Directory)) (NotDirectory parent)
      | None => throw (NotFound parent)
      end
  end.

Definition create_node (ws path : string) (kind : NodeKind) (mode : Z) (content : list Z)
    (now : Z) : WS unit :=
  let! path := lift (normalize_path path false) in
  let! existing := metadata ws path in
  guard (bool_decide (existing = None)) (AlreadyExists path) ;;;
  ensure_parent_directory ws path ;;;
  let! chunks :=
    if bool_decide (kind = Directory) then ret []
    else
      let! (chunks, _) := on_store (cs_put_stream content) in
      pin_all chunks ;;;
      ret chunks in
  transact (
    let! inode := insert_inode ws kind mode (zlen content) now chunks in
    insert_entry ws path inode).

Definition create_file (ws path : string) (mode now : Z) : WS unit :=
  create_node ws path File mode [] now.
Definition mkdir (ws path : string) (mode now : Z) : WS unit :=
  create_node ws path Directory mode [] now.

Definition symlink (ws path : string) (target : list Z) (now : Z) : WS unit :=
  let! path := lift (normalize_path path false) in
  lift (validate_symlink_target path target) ;;;
  create_node ws path Symlink 40960 target now.

Definition read_symlink (ws path : string) : WS (list Z) :=
  let! path := lift (normalize_path path false) in
  let! m := metadata ws path in
  let! m := ok_or m (NotFound path) in
  guard (bool_decide (m_kind m = Symlink)) (InvalidPath "path is not a symlink") ;;;
  let! target := read_file ws path 0 (2 ^ 64 - 1) in
  lift (validate_symlink_target path target) ;;;
  ret target.

Definition hard_link (ws source destination : string) : WS unit :=
  let! source := lift (normalize_path source false) in
  let! destination := lift (normalize_path destination false) in
  let! existing := metadata ws destination in
  guard (bool_decide (existing = None)) (AlreadyExists destination) ;;;
  let! inode := materialize ws source in
  guard (negb (bool_decide (ino_kind inode = Directory)))
    (InvalidPath "hard links to directories are forbidden") ;;;
  let! d := query id in
  guard (bool_decide (entries d !! (ws, destination) = None)
         && bool_decide (is_Some (workspaces d !! ws))
         && bool_decide (is_Some (inodes d !! ino_id inode))) Sql ;;;
  execute (fun d => with_entries
    (<[(ws, destination) := Some (ino_id inode)]> (entries d)) d).

Definition path_for_inode (ws : string) (inode : Z) : WS (option string) :=
  guard (inode <=? I64_MAX) (InvalidPath "workspace inode is out of range") ;;;
  query (fun d => head (order_by
    (filter (fun e : string * option Z => e.2 = Some inode) (workspace_entries ws d)).*1)).

(** ** Directories *)

Definition child_path (path name : string) : string :=
  if bool_decide (path = "") then name else path +:+ "/" +:+ name.

Definition layer_child_metadata (ws path name : string) (e : LayerEntry) : WS NodeMetadata :=
  let! promoted := query (fun d =>
    match le_hardlink_key e with
    | Some key => load_inode_for_hardlink_key ws key d
    | None => None
    end) in
  match promoted with
  | Some inode =>
      let! m := query (load_metadata_for_inode ws (ino_id inode)) in
      ok_or m (Corrupt "promoted hardlink inode vanished")
  | None => lift (layer_metadata ws (child_path path name) e)
  end.

(** First component of what a candidate path has below the prefix. *)
Definition touched_name (prefix candidate : string) : option string :=
  let suffix := String.substring (String.length prefix)
    (String.length candidate - String.length prefix) candidate in
  match split is_slash suffix with
  | name :: _ => if bool_decide (name = "") then None else Some name
  | [] => None
  end.

(** Names that the overlay or a redirect may add, change or remove. *)
Definition touched_names (ws path : string) (d : Db) : list string :=
  let prefix := if bool_decide (path = "") then "" else path +:+ "/" in
  let pattern := escape_like prefix +:+ "%" in
  order_by (elements (list_to_set (omap (touched_name prefix)
    (filter (fun p => like pattern p = true) (workspace_entries ws d).*1
     ++ filter (fun p => like pattern p = true) (workspace_redirects ws d).*1))
    : gset string)).

Definition read_dir (ws path : string) : WS (list DirectoryEntry) :=
  let! path := lift (normalize_path path true) in
  let! m := metadata ws path in
  let! m := ok_or m (InvalidPath "directory does not exist") in
  guard (bool_decide (m_kind m = Directory)) (InvalidPath "not a directory") ;;;
  let! translated := query (translate_redirect ws path) in
  let! layer := list_entries ws translated in
  let! listed := foldM (fun (acc : gmap string NodeMetadata) '(name, e) =>
      let! m := layer_child_metadata ws path name e in
      ret (<[name := m]> acc)) ∅ (map_to_list layer) in
  let! touched := query (touched_names ws path) in
  let! listed := foldM (fun (acc : gmap string NodeMetadata) name =>
      let! m := metadata ws (child_path path name) in
      ret (match m with Some m => <[name := m]> acc | None => delete name acc end))
      listed touched in
  ret (omap (fun name => mkDirectoryEntry name <$> listed !! name)
         (order_by (map_to_list listed).*1)).

Definition unlink (ws path : string) : WS unit :=
  let! path := lift (normalize_path path false) in
  let! m := metadata ws path in
  let! m := ok_or m (NotFound path) in
  (if bool_decide (m_kind m = Directory) then
     let! children := read_dir ws path in
     guard (bool_decide (length children = O)) (DirectoryNotEmpty path)
   else ret tt) ;;;
  materialize ws path ;;;
  transact (insert_tombstone ws path).

(** ** Renaming *)

(** The number of names an inode still has, and its removal when none. *)
Definition live_links (ws : string) (inode : Z) (d : Db) : list (string * option Z) :=
  filter (fun e : string * option Z => e.2 = Some inode) (workspace_entries ws d).

Definition delete_inode (inode : Z) (d : Db) : Db :=
  with_inodes (delete inode (inodes d))
    (with_inode_origins
       (filter (fun x : string * string * Z => x.2 <> inode) (inode_origins d))
       (with_hardlink_promotions
          (filter (fun x : string * string * Z => x.2 <> inode) (hardlink_promotions d)) d)).

Definition rename_file (ws source destination : string) (inode : InodeRecord)
  : WS (list (list Z)) :=
  transact (
    let! replaced := query (load_inode_for_path ws destination) in
    insert_entry ws destination (ino_id inode) ;;;
    insert_tombstone ws source ;;;
    match replaced with
    | None => ret []
    | Some old =>
        let! remaining := query (live_links ws (ino_id old)) in
        let! row := query (fun d => inodes d !! ino_id old) in
        if bool_decide (remaining = []) then
          (match row with
           | Some r =>
               if bool_decide (i_workspace r = ws) then execute (delete_inode (ino_id old))
               else ret tt
           | None => ret tt
           end) ;;;
          ret (ino_chunks old)
        else ret []
    end).

(** Move one overlay row of a renamed directory. *)
Definition move_entry (ws source destination : string) (e : string * option Z) : WS unit :=
  let '(old, inode) := e in
  let suffix := String.substring (String.length source)
    (String.length old - String.length source) old in
  let new := destination +:+ suffix in
  execute (fun d => with_entries (delete (ws, old) (entries d)) d) ;;;
  match inode with
  | None => insert_tombstone ws new
  | Some inode => insert_entry ws new inode
  end.

Definition rename_directory (ws source destination : string) : WS unit :=
  let! translated := query (translate_redirect ws source) in
  transact (
    let! d := query id in
    guard (bool_decide (redirects d !! (ws, destination) = None)
           && bool_decide (is_Some (workspaces d !! ws))) Sql ;;;
    execute (fun d => with_redirects
      (<[(ws, destination) := translated]> (redirects d)) d) ;;;
    let pattern := escape_like (source +:+ "/") +:+ "%" in
    let! moved := query (fun d => filter (fun e : string * option Z =>
      e.1 = source \/ like pattern e.1 = true) (workspace_entries ws d)) in
    forM moved (move_entry ws source destination) ;;;
    insert_tombstone ws source).

Definition rename (ws source destination : string) : WS unit :=
  let! source := lift (normalize_path source false) in
  let! destination := lift (normalize_path destination false) in
  guard (negb (bool_decide (destination = source)
               || starts_with (source +:+ "/") destination))
    (InvalidPath "rename would create an ancestry cycle") ;;;
  let! m := metadata ws source in
  let! m := ok_or m (NotFound source) in
  let! dm := metadata ws destination in
  if negb (bool_decide (m_kind m = Directory)) then
    guard (negb (match dm with
                 | Some dm => bool_decide (m_kind dm = Directory)
                 | None => false end)) (IsDirectory destination) ;;;
    let! inode := materialize ws source in
    let! released := rename_file ws source destination inode in
    unpin_all released
  else
    guard (bool_decide (dm = None)) (AlreadyExists destination) ;;;
    rename_directory ws source destination.

(** ** Open files *)

Definition load_open_inode (h : WorkspaceFileHandle) : WS (option InodeRecord) :=
  match fh_backing h with
  | Private inode =>
      guard (inode <=? I64_MAX) (InvalidPath "workspace inode is out of range") ;;;
      let! r := query (load_inode_for_id (fh_workspace h) inode) in
      let! r := ok_or r (NotFound "open inode") in
      ret (Some r)
  | Immutable _ origin _ _ =>
      let! promoted := gets (fun c => promoted_origins c !! (fh_workspace h, origin)) in
      match promoted with
      | None => ret None
      | Some inode =>
          let! r := query (load_inode_for_id (fh_workspace h) inode) in
          let! r := ok_or r (NotFound "promoted inode") in
          ret (Some r)
      end
  end.

Definition open_workspace (id : string) : WS string :=
  lift (validate_workspace_id id) ;;;
  let! row := query (fun d => workspaces d !! id) in
  guard (match row with
         | Some r => negb (bool_decide (w_state r = WBroken))
         | None => false end) (NotFound "unknown or broken workspace") ;;;
  ret id.

Definition promote_open_file (h : WorkspaceFileHandle) : WS InodeRecord :=
  let! own := load_open_inode h in
  match own, fh_backing h with
  | Some inode, _ => ret inode
  | None, Immutable visible _ _ _ =>
      let! ws := open_workspace (fh_workspace h) in
      materialize ws visible
  | None, Private _ => panic
  end.

Definition open_file (ws path : string) : WS WorkspaceFileHandle :=
  let! path := lift (normalize_path path false) in
  let! inode := materialize ws path in
  guard (bool_decide (ino_kind inode = File)) (IsDirectory path) ;;;
  ret (mkHandle ws (Private (ino_id inode))).

Definition open_file_read_only (ws path : string) : WS WorkspaceFileHandle :=
  let! path := lift (normalize_path path false) in
  let! own := query (load_inode_for_path ws path) in
  match own with
  | Some inode =>
      guard (bool_decide (ino_kind inode = File)) (IsDirectory path) ;;;
      ret (mkHandle ws (Private (ino_id inode)))
  | None =>
      let! hidden := query (ancestor_tombstoned ws path) in
      guard (negb hidden) (NotFound path) ;;;
      let! origin := query (translate_redirect ws path) in
      let! entry := lookup ws origin in
      let! entry := ok_or entry (NotFound path) in
      let! kind := lift (layer_node_kind (le_kind entry)) in
      guard (bool_decide (kind = File)) (IsDirectory path) ;;;
      let! known := query (fun d =>
        match load_inode_for_origin ws origin d with
        | Some inode => Some inode
        | None => match le_hardlink_key entry with
                  | Some key => load_inode_for_hardlink_key ws key d
                  | None => None
                  end
        end) in
      match known with
      | Some inode => ret (mkHandle ws (Private (ino_id inode)))
      | None =>
          let! m := lift (layer_metadata ws path entry) in
          ret (mkHandle ws (Immutable path origin m (le_chunks entry)))
      end
  end.

Definition open_file_inode (ws : string) (inode : Z) : WS WorkspaceFileHandle :=
  let h := mkHandle ws (Private inode) in
  let! r := load_open_inode h in
  guard (match r with
         | Some r => bool_decide (ino_kind r = File)
         | None => false end) (IsDirectory "inode") ;;;
  ret h.

Definition read_open_file (h : WorkspaceFileHandle) (offset length : Z) : WS (list Z) :=
  let! own := load_open_inode h in
  match own, fh_backing h with
  | Some inode, _ => read_chunks (ino_chunks inode) (ino_size inode) offset length
  | None, Immutable _ _ m chunks => read_chunks chunks (m_size m) offset length
  | None, Private _ => panic
  end.

Definition metadata_open_file (h : WorkspaceFileHandle) : WS NodeMetadata :=
  let! own := load_open_inode h in
  match own, fh_backing h with
  | Some inode, _ =>
      let! m := query (load_metadata_for_inode (fh_workspace h) (ino_id inode)) in
      ok_or m (NotFound "open inode")
  | None, Immutable _ _ m _ => ret m
  | None, Private _ => panic
  end.

Definition write_open_file (h : WorkspaceFileHandle) (offset : Z) (bytes : list Z) (now : Z)
  : WS Z :=
  let! inode := promote_open_file h in
  write_inode (fh_workspace h) inode offset bytes now.

Definition materialize_open_file (h : WorkspaceFileHandle) : WS NodeMetadata :=
  promote_open_file h ;;; metadata_open_file h.

Definition truncate_open_file (h : WorkspaceFileHandle) (size now : Z) : WS unit :=
  let! inode := promote_open_file h in
  truncate_inode (fh_workspace h) inode size now.

Definition set_metadata_open_file (h : WorkspaceFileHandle)
    (mode accessed modified : option Z) (now : Z) : WS unit :=
  let! inode := promote_open_file h in
  set_inode_metadata (fh_workspace h) (ino_id inode) mode accessed modified now.
End Namespace.
