(* ===== verification/Lifecycle.v ===== *)
(** Lifecycle of workspaces (namespace.rs): creation over shared layers, the
    crash-recoverable content/Git pair, proposals, removal, garbage collection
    and recovery, with the integrity checks of snapshots (snapshot.rs).

    [canonical_json] stands for serde_json on the hashed tuple of a snapshot;
    [lease_free] says whether the advisory lock of a pair can be taken, that
    is, whether no live process holds it. *)

From S2P Require Import Prelude Error RustStr PathPolicy ChunkStore ContentStore Tracker Core Layers Namespace.
From Stdlib Require Import Ascii.
#[local] Open Scope string_scope.
#[local] Open Scope list_scope.
#[local] Open Scope Z_scope.

Record WorkspaceStatus : Type := mkWorkspaceStatus {
  ws_id : string; ws_base_commit : string; ws_baseline_hash : string;
  ws_state : WorkspaceState }.

Record ProposalRecord : Type := mkProposalRecord {
  po_ref_name : string; po_repository : string; po_base_commit : string;
  po_baseline_hash : string; po_baseline_tree : string; po_final_tree : string;
  po_proposal_commit : string; po_baseline : BaselineSnapshot;
  po_hardlink_groups : list (list string) }.

(** ** Orders of Rust's [Vec<String>] *)

Definition str_lt (a b : string) : bool := negb (String.leb b a).

Fixpoint strs_leb (a b : list string) : bool :=
  match a, b with
  | [], _ => true
  | _ :: _, [] => false
  | x :: a, y :: b => str_lt x y || (bool_decide (x = y) && strs_leb a b)
  end.
Definition strs_le (a b : list string) : Prop := strs_leb a b = true.
#[export] Instance strs_le_dec : RelDecision strs_le.
Proof. intros a b. unfold strs_le. apply _. Defined.
Definition strs_lt (a b : list string) : bool := negb (strs_leb b a).

(** ** Integrity of snapshots *)

(** State of the scan over the hardlink groups: the paths seen so far. *)
Definition check_hardlink_path (entries : gmap string BaselineEntry)
    (st : gset string * option string * option BaselineEntry) (path : string)
  : result (gset string * option string * option BaselineEntry) :=
  let '(seen, prior, expected) := st in
  if match prior with Some p => negb (str_lt p path) | None => false end
     || bool_decide (path ∈ seen)
  then Err (Corrupt "snapshot hardlink paths are not canonical and disjoint")
  else match entries !! path with
       | None => Err (Corrupt "snapshot hardlink path has no captured entry")
       | Some e =>
           if negb (bool_decide (e_kind e = EFile))
           then Err (Corrupt "snapshot hardlink path is not a regular file")
           else match expected with
                | Some f =>
                    if (e_mode e =? e_mode f) && (e_size e =? e_size f)
                       && bool_decide (e_content_hash e = e_content_hash f)
                       && bool_decide (e_chunks e = e_chunks f)
                    then Ok ({[path]} ∪ seen, Some path, expected)
                    else Err (Corrupt "snapshot hardlink path does not match its inode peers")
                | None => Ok ({[path]} ∪ seen, Some path, Some e)
                end
       end.

Fixpoint check_hardlink_paths (entries : gmap string BaselineEntry)
    (st : gset string * option string * option BaselineEntry) (paths : list string)
  : result (gset string) :=
  match paths with
  | [] => Ok st.1.1
  | p :: ps => res_bind (check_hardlink_path entries st p)
                 (fun st => check_hardlink_paths entries st ps)
  end.

Fixpoint check_hardlink_groups (entries : gmap string BaselineEntry) (seen : gset string)
    (prior : option (list string)) (groups : list (list string)) : result unit :=
  match groups with
  | [] => Ok tt
  | g :: gs =>
      if (length g <? 2)%nat
         || match prior with Some p => negb (strs_lt p g) | None => false end
      then Err (Corrupt "snapshot hardlink groups are not canonical")
      else res_bind (check_hardlink_paths entries (seen, None, None) g)
             (fun seen => check_hardlink_groups entries seen (Some g) gs)
  end.

(** [collect] into a BTreeMap keeps the last entry of a path. *)
Definition entries_by_path (s : BaselineSnapshot) : gmap string BaselineEntry :=
  foldl (fun m e => <[e_path e := e]> m) ∅ (bl_entries s).

Definition validate_snapshot_hardlink_integrity (s : BaselineSnapshot) : result unit :=
  check_hardlink_groups (entries_by_path s) ∅ None (bl_hardlink_groups s).

Definition is_dot_git (path : string) : bool :=
  bool_decide (path = ".git") || starts_with ".git/" path.

(** [sort] and [dedup]. *)
Definition sort_dedup (l : list string) : list string :=
  order_by (elements (list_to_set l : gset string)).

Fixpoint mapR {A B} (f : A -> result B) (l : list A) : result (list B) :=
  match l with
  | [] => Ok []
  | a :: l => res_bind (f a) (fun b => res_bind (mapR f l) (fun bs => Ok (b :: bs)))
  end.

Fixpoint normalize_groups (all : gset string) (groups : list (list string))
  : result (list (list string)) :=
  match groups with
  | [] => Ok []
  | g :: gs =>
      res_bind (mapR (fun p => normalize_path p false) g) (fun paths =>
        let paths := sort_dedup paths in
        if (length paths <? 2)%nat
        then Err (InvalidPath "proposal hardlink group must contain at least two distinct paths")
        else if existsb (fun p => bool_decide (p ∈ all)) paths
        then Err (InvalidPath "proposal path belongs to more than one hardlink group")
        else res_bind (normalize_groups (list_to_set paths ∪ all) gs)
               (fun rest => Ok (paths :: rest)))
  end.

Definition normalize_proposal_hardlink_groups (groups : list (list string))
  : result (list (list string)) :=
  res_bind (normalize_groups ∅ groups) (fun normalized => Ok (merge_sort strs_le normalized)).

(** The cascade of [DELETE FROM cow_workspaces]. *)
Definition delete_workspaces (ids : list string) (d : Db) : Db :=
  with_workspaces (filter (fun x : string * WorkspaceRow => x.1 ∉ ids) (workspaces d))
  (with_inodes (filter (fun x : Z * InodeRow => i_workspace x.2 ∉ ids) (inodes d))
  (with_entries (filter (fun x : string * string * option Z => x.1.1 ∉ ids) (entries d))
  (with_inode_origins (filter (fun x : string * string * Z => x.1.1 ∉ ids) (inode_origins d))
  (with_hardlink_promotions
     (filter (fun x : string * string * Z => x.1.1 ∉ ids) (hardlink_promotions d))
  (with_redirects (filter (fun x : string * string * string => x.1.1 ∉ ids) (redirects d))
  (with_workspace_layers
     (filter (fun x : string * (string * string) => x.1 ∉ ids) (workspace_layers d)) d)))))).

(** Every chunk of the inodes of a workspace, in inode order. *)
Definition workspace_chunks (ws : string) (d : Db) : list (list Z) :=
  let ids := merge_sort Z.le (map_to_list (inodes d)).*1 in
  ids ≫= (fun id => match inodes d !! id with
                    | Some r => if bool_decide (i_workspace r = ws) then i_chunks r else []
                    | None => []
                    end).

Definition tracked_repositories (ids : list string) (d : Db) : list string :=
  sort_dedup (omap (fun id => w_repository <$> workspaces d !! id) ids).

Definition repository_referenced (d : Db) (repository : string) : bool :=
  existsb (fun w : string * WorkspaceRow => bool_decide (w_repository w.2 = repository))
    (map_to_list (workspaces d)).

Definition pair_row (content_id git_id : string) (d : Db) : option PairRow :=
  match pairs d !! content_id with
  | Some p => if bool_decide (p_git_id p = git_id) then Some p else None
  | None => None
  end.

Section Lifecycle.
Context {St : Type} {CS : ContentStore St}.
Context (blake3 : list Z -> list Z)
        (canonical_json : option string -> string -> string -> list BaselineEntry ->
                          list (list string) -> list Z)
        (git_ls_tree : string -> string -> result (list Z))
        (git_cat_file : string -> string -> string * list Z)
        (git_cat_file_exit : string -> result unit).
Abbreviation WS := (action Error (Core St)).

Definition repository_baseline_hash (base_commit index_hash : string)
    (es : list BaselineEntry) (groups : list (list string)) : string :=
  to_hex (blake3 (if bool_decide (groups = [])
                  then canonical_json None base_commit index_hash es []
                  else canonical_json (Some "greppy.repository-baseline.v2")
                         base_commit index_hash es groups)).

Definition validate_repository_snapshot_integrity (s : BaselineSnapshot) : result unit :=
  if negb (bool_decide (length (bl_directories s) = O))
     || starts_with "virtual-empty:" (bl_base_commit s)
  then Err (Corrupt "a repository proposal contains an overlay-directory snapshot")
  else if negb (bool_decide (repository_baseline_hash (bl_base_commit s) (bl_index_hash s)
                               (bl_entries s) (bl_hardlink_groups s) = bl_baseline_hash s))
  then Err (Corrupt "repository baseline hash mismatch")
  else validate_snapshot_hardlink_integrity s.

(** ** Workspaces *)

Definition create_workspace_internal (id : string) (baseline : BaselineSnapshot)
    (captured_snapshot_owns_chunks empty_base : bool) : WS string :=
  lift (validate_workspace_id id) ;;;
  lift (validate_snapshot_hardlink_integrity baseline) ;;;
  let! repository := lift (path_text (bl_repository baseline)) in
  let! (base_id, dirty_layer_id) :=
    ensure_layers blake3 git_ls_tree git_cat_file git_cat_file_exit baseline
      captured_snapshot_owns_chunks empty_base in
  transact (
    (if empty_base then retain_overlay_template (bl_baseline_hash baseline) dirty_layer_id
     else ret tt) ;;;
    let! existing := query (fun d => workspaces d !! id) in
    guard (match existing with None => true | Some _ => false end) Sql ;;;
    execute (fun d => with_workspaces (<[id :=
      mkWorkspaceRow repository (bl_base_commit baseline) (bl_baseline_hash baseline)
        baseline WReady]> (workspaces d)) d) ;;;
    link_workspace id base_id dirty_layer_id) ;;;
  ret id.

Definition create_workspace (id : string) (baseline : BaselineSnapshot) : WS string :=
  create_workspace_internal id baseline true false.
Definition create_overlay_workspace (id : string) (baseline : BaselineSnapshot) : WS string :=
  create_workspace_internal id baseline true true.
Definition create_workspace_from_shared_baseline (id : string) (baseline : BaselineSnapshot)
  : WS string := create_workspace_internal id baseline false false.
Definition create_overlay_workspace_from_shared_baseline (id : string)
    (baseline : BaselineSnapshot) : WS string :=
  create_workspace_internal id baseline false true.

Definition row_status (id : string) (r : WorkspaceRow) : WorkspaceStatus :=
  mkWorkspaceStatus id (w_base_commit r) (w_baseline_hash r) (w_state r).

Definition workspace_status (id : string) : WS WorkspaceStatus :=
  let! row := query (fun d => workspaces d !! id) in
  let! row := ok_or row (NotFound "unknown workspace") in
  ret (row_status id row).

Definition workspace_baseline (id : string) : WS BaselineSnapshot :=
  let! row := query (fun d => workspaces d !! id) in
  let! row := ok_or row (NotFound "unknown workspace") in
  lift (validate_repository_snapshot_integrity (w_baseline row)) ;;;
  ret (w_baseline row).

Definition list_workspaces : WS (list WorkspaceStatus) :=
  query (fun d => omap (fun id => row_status id <$> workspaces d !! id)
    (order_by (map_to_list (workspaces d)).*1)).

(** Does a tombstone hide anything the layers provide? *)
Definition tombstone_matters (ws path : string) : WS bool :=
  let! entry := lookup ws path in
  match entry with
  | Some _ => ret true
  | None => has_descendant ws path
  end.

Definition changed_paths (ws : string) : WS (list string) :=
  let! own := query (workspace_entries ws) in
  let! from_entries := foldM (fun (acc : list string) '(path, inode) =>
    if is_dot_git path then ret acc
    else
      let! matters := match inode with
                      | None => tombstone_matters ws path
                      | Some _ => ret true
                      end in
      ret (if matters : bool then path :: acc else acc)) [] own in
  let! moved := query (workspace_redirects ws) in
  let! groups := query (promoted_hardlink_groups ws) in
  ret (sort_dedup (from_entries
    ++ filter (fun p => is_dot_git p = false) (moved ≫= (fun r => [r.2; r.1]))
    ++ filter (fun p => is_dot_git p = false) (concat groups))).

(** Members of a candidate group that are visible regular files, with their
    inode. *)
Definition visible_files (ws : string) (included : list string) (candidate : list string)
  : WS (list (Z * string)) :=
  foldM (fun acc path =>
    if bool_decide (path ∈ included) then
      let! m := metadata blake3 ws path in
      ret (match m with
           | Some m => if bool_decide (m_kind m = File) then acc ++ [(m_inode m, path)] else acc
           | None => acc
           end)
    else ret acc) [] candidate.

Definition groups_by_inode (l : list (Z * string)) : list (list string) :=
  filter (fun g => (1 < length g)%nat)
    ((fun inode => sort_dedup (filter (fun x : Z * string => x.1 = inode) l).*2)
       <$> elements (list_to_set l.*1 : gset Z)).

Definition hardlink_groups (ws : string) (included : list string) : WS (list (list string)) :=
  let! own := query (workspace_entries ws) in
  let! promoted := query (promoted_hardlink_groups ws) in
  let named := omap (fun e : string * option Z =>
    match e.2 with
    | Some i => if bool_decide (e.1 ∈ included) then Some (i, e.1) else None
    | None => None
    end) own in
  let by_inode := (fun inode => order_by (filter (fun x : Z * string => x.1 = inode) named).*2)
                    <$> elements (list_to_set named.*1 : gset Z) in
  let! groups := mapM (fun candidate =>
      let! visible := visible_files ws included candidate in
      ret (groups_by_inode visible)) (by_inode ++ promoted) in
  ret (merge_sort strs_le (elements (list_to_set (concat groups) : gset (list string)))).

Definition keep (ws : string) : WS unit :=
  let! row := query (fun d => workspaces d !! ws) in
  match row with
  | Some r =>
      guard (bool_decide (w_state r = WReady)) (InvalidPath "workspace is not ready") ;;;
      execute (fun d => with_workspaces (<[ws :=
        mkWorkspaceRow (w_repository r) (w_base_commit r) (w_baseline_hash r)
          (w_baseline r) WKept]> (workspaces d)) d)
  | None => throw (InvalidPath "workspace is not ready")
  end.

(** ** Removal *)

Definition touch_unreferenced_repository_trackers (repositories : list string) (now_ms : Z)
  : WS unit :=
  forM repositories (fun repository =>
    let! referenced := query (fun d => repository_referenced d repository) in
    if referenced : bool then ret tt else on_tracker (touch repository now_ms)).

Definition remove_workspace (ws : string) (now_ms : Z) : WS unit :=
  let! chunks := query (workspace_chunks ws) in
  transact (
    let! repositories := query (tracked_repositories [ws]) in
    execute (delete_workspaces [ws]) ;;;
    touch_unreferenced_repository_trackers repositories now_ms) ;;;
  modify (fun c => set_promoted
    (filter (fun x : string * string * Z => x.1.1 <> ws) (promoted_origins c)) c) ;;;
  unpin_all chunks.

(** ** The content/Git pair *)

Definition set_pair (content_id : string) (p : PairRow) : WS unit :=
  execute (fun d => with_pairs (<[content_id := p]> (pairs d)) d).

Definition begin_workspace_pair (lease_free : string -> bool) (content_id git_id : string)
  : WS unit :=
  lift (validate_workspace_id content_id) ;;;
  lift (validate_workspace_id git_id) ;;;
  guard (negb (bool_decide (content_id = git_id)))
    (InvalidPath "content and Git workspace IDs must differ") ;;;
  guard (lease_free content_id) (AlreadyExists "workspace pair is already active") ;;;
  let! ps := query pairs in
  guard (bool_decide (ps !! content_id = None)
         && bool_decide (map_Forall (fun _ p => p_git_id p <> git_id) ps)) Sql ;;;
  set_pair content_id (mkPairRow git_id PCreating).

Definition workspace_pair_records_absent (content_id git_id : string) : WS bool :=
  lift (validate_workspace_id content_id) ;;;
  lift (validate_workspace_id git_id) ;;;
  query (fun d =>
    bool_decide (workspaces d !! content_id = None)
    && bool_decide (workspaces d !! git_id = None)
    && bool_decide (pairs d !! content_id = None) && bool_decide (pairs d !! git_id = None)
    && bool_decide (map_Forall (fun _ p =>
         p_git_id p <> content_id /\ p_git_id p <> git_id) (pairs d))).

Definition workspace_ready (id : string) (d : Db) : bool :=
  match workspaces d !! id with
  | Some r => bool_decide (w_state r = WReady)
  | None => false
  end.

Definition complete_workspace_pair (content_id git_id : string) : WS unit :=
  transact (
    let! content_ready := query (workspace_ready content_id) in
    guard content_ready (NotFound "workspace pair member is not ready") ;;;
    let! git_ready := query (workspace_ready git_id) in
    guard git_ready (NotFound "workspace pair member is not ready") ;;;
    let! p := query (pair_row content_id git_id) in
    match p with
    | Some p =>
        guard (bool_decide (p_state p = PCreating))
          (Corrupt "workspace pair creation journal is missing") ;;;
        set_pair content_id (mkPairRow git_id PReady)
    | None => throw (Corrupt "workspace pair creation journal is missing")
    end).

Definition keep_workspace_pair (content_id git_id : string) : WS unit :=
  transact (
    let! content_ready := query (workspace_ready content_id) in
    let! git_ready := query (workspace_ready git_id) in
    guard (content_ready && git_ready && negb (bool_decide (content_id = git_id)))
      (InvalidPath "both workspace pair members must be ready before keep") ;;;
    keep content_id ;;;
    keep git_id ;;;
    let! p := query (pair_row content_id git_id) in
    match p with
    | Some p =>
        guard (bool_decide (p_state p = PReady))
          (Corrupt "workspace pair journal is not ready") ;;;
        set_pair content_id (mkPairRow git_id PKept)
    | None => throw (Corrupt "workspace pair journal is not ready")
    end).

Definition remove_workspace_pair_ids (content_id git_id : string) (require_ready : bool)
    (now_ms : Z) : WS unit :=
  let! p := query (pair_row content_id git_id) in
  let! p := ok_or p (NotFound "workspace pair journal is missing") in
  guard (negb require_ready || bool_decide (p_state p = PReady)
         || bool_decide (p_state p = PKept))
    (InvalidPath "workspace pair is not ready or kept") ;;;
  let! chunks := query (fun d => workspace_chunks content_id d ++ workspace_chunks git_id d) in
  transact (
    let! repositories := query (tracked_repositories [content_id; git_id]) in
    execute (delete_workspaces [content_id; git_id]) ;;;
    execute (fun d => with_pairs (delete content_id (pairs d)) d) ;;;
    touch_unreferenced_repository_trackers repositories now_ms) ;;;
  unpin_all chunks.

Definition remove_workspace_pair (content_id git_id : string) (now_ms : Z) : WS unit :=
  remove_workspace_pair_ids content_id git_id true now_ms.
Definition abort_workspace_pair (content_id git_id : string) (now_ms : Z) : WS unit :=
  lift (validate_workspace_id content_id) ;;;
  lift (validate_workspace_id git_id) ;;;
  remove_workspace_pair_ids content_id git_id false now_ms.

(** ** Proposals *)

Definition preserve_proposal (ws ref_name baseline_tree final_tree proposal_commit : string)
    (groups : list (list string)) : WS ProposalRecord :=
  lift (validate_proposal_ref ref_name) ;;;
  lift (validate_oid baseline_tree) ;;;
  lift (validate_oid final_tree) ;;;
  lift (validate_oid proposal_commit) ;;;
  let! row := query (fun d => workspaces d !! ws) in
  let! row := ok_or row (InvalidPath "unknown workspace") in
  let baseline := w_baseline row in
  let! groups := lift (normalize_proposal_hardlink_groups groups) in
  transact (
    let! repository := lift (path_text (bl_repository baseline)) in
    let! ps := query proposals in
    guard (match ps !! ref_name with None => true | Some _ => false end) Sql ;;;
    execute (fun d => with_proposals (<[ref_name :=
      mkProposalRow repository (bl_base_commit baseline) (bl_baseline_hash baseline)
        baseline_tree final_tree proposal_commit baseline]> (proposals d)) d) ;;;
    forM (imap pair groups) (fun '(group_id, group) =>
      forM group (fun path =>
        let! hs := query proposal_hardlinks in
        guard (negb (bool_decide ((ref_name, Z.of_nat group_id, path) ∈ hs))) Sql ;;;
        execute (fun d => with_proposal_hardlinks
          ({[ (ref_name, Z.of_nat group_id, path) ]} ∪ proposal_hardlinks d) d)))) ;;;
  ret (mkProposalRecord ref_name (bl_repository baseline) (bl_base_commit baseline)
         (bl_baseline_hash baseline) baseline_tree final_tree proposal_commit baseline groups).

(** The stored hardlink rows of a proposal, grouped; group ids must be
    non-negative and contiguous from zero. *)
Definition stored_groups (ref_name : string) (d : Db) : result (list (list string)) :=
  let rows := filter (fun h : string * Z * string => h.1.1 = ref_name)
                (elements (proposal_hardlinks d)) in
  let ids := merge_sort Z.le (elements (list_to_set ((fun h => h.1.2) <$> rows) : gset Z)) in
  if existsb (fun id => id <? 0) ids
  then Err (Corrupt "proposal contains a negative hardlink group id")
  else if negb (bool_decide (ids = seqZ 0 (zlen ids)))
  then Err (Corrupt "proposal hardlink group ids are not contiguous")
  else Ok ((fun id => order_by
             ((fun h : string * Z * string => h.2) <$>
                filter (fun h : string * Z * string => h.1.2 = id) rows)) <$> ids).

Definition proposal (ref_name : string) : WS ProposalRecord :=
  lift (validate_proposal_ref ref_name) ;;;
  let! row := query (fun d => proposals d !! ref_name) in
  let! p := ok_or row (InvalidPath "unknown proposal") in
  let baseline := pr_baseline p in
  lift (validate_repository_snapshot_integrity baseline) ;;;
  guard (bool_decide (pr_repository p = bl_repository baseline)
         && bool_decide (pr_base_commit p = bl_base_commit baseline)
         && bool_decide (pr_baseline_hash p = bl_baseline_hash baseline))
    (Corrupt "proposal metadata does not match its pinned baseline") ;;;
  lift (validate_oid (pr_base_commit p)) ;;;
  lift (validate_oid (pr_baseline_tree p)) ;;;
  lift (validate_oid (pr_final_tree p)) ;;;
  lift (validate_oid (pr_proposal_commit p)) ;;;
  let! raw := query (stored_groups ref_name) in
  let! raw := lift raw in
  let! groups := lift (match normalize_proposal_hardlink_groups raw with
                       | Err _ => Err (Corrupt "proposal contains invalid hardlink metadata")
                       | r => r
                       end) in
  ret (mkProposalRecord ref_name (pr_repository p) (pr_base_commit p) (pr_baseline_hash p)
         (pr_baseline_tree p) (pr_final_tree p) (pr_proposal_commit p) baseline groups).

Definition has_proposal (ref_name : string) : WS bool :=
  lift (validate_proposal_ref ref_name) ;;;
  query (fun d => match proposals d !! ref_name with Some _ => true | None => false end).

Definition remove_proposal (ref_name : string) : WS unit :=
  proposal ref_name ;;;
  execute (fun d => with_proposals (delete ref_name (proposals d))
    (with_proposal_hardlinks
       (filter (fun h : string * Z * string => h.1.1 <> ref_name) (proposal_hardlinks d)) d)).

(** ** Garbage collection and recovery *)

Definition core_gc : WS ChunkGcReport :=
  remove_unreferenced ;;; on_store cs_gc.

(** How often the manifests of inodes and layers refer to each chunk. *)
Definition manifest_chunks (d : Db) : list (list Z) :=
  (map_to_list (inodes d) ≫= (fun x : Z * InodeRow => i_chunks x.2))
  ++ concat (count_references d).

Definition expected_references (d : Db) : gmap (list Z) Z :=
  list_to_map (chunk_counts (manifest_chunks d)).

Definition recoverable_pairs (d : Db) : list (string * string) :=
  (fun x : string * PairRow => (x.1, p_git_id x.2)) <$>
    filter (fun x : string * PairRow => p_state x.2 <> PKept) (map_to_list (pairs d)).

Definition recover (lease_free : string -> bool) (now_ms : Z) : WS unit :=
  let! recoverable := query recoverable_pairs in
  forM recoverable (fun '(content_id, _) => lift (validate_workspace_id content_id)) ;;;
  transact (forM recoverable (fun '(content_id, git_id) =>
    if lease_free content_id then
      let! repositories := query (tracked_repositories [content_id; git_id]) in
      execute (delete_workspaces [content_id; git_id]) ;;;
      execute (fun d => match pair_row content_id git_id d with
                        | Some _ => with_pairs (delete content_id (pairs d)) d
                        | None => d
                        end) ;;;
      touch_unreferenced_repository_trackers repositories now_ms
    else ret tt)) ;;;
  on_store cs_verify ;;;
  let! expected := query expected_references in
  on_store (cs_reconcile expected) ;;;
  execute (with_journal ∅).
End Lifecycle.
