(* ===== verification/FileContent.v ===== *)
(** File content as chunk manifests: what a manifest means, and the proofs that
    [read_chunks], [write_inode] and [truncate_inode] read, overwrite and
    resize the file it stands for, over any content store that satisfies the
    interface of ContentStore.v. *)

From S2P Require Import Prelude Error RustStr PathPolicy ChunkStore Bytes ContentStore Tracker Core Layers Namespace.
#[local] Open Scope Z_scope.
#[local] Opaque CHUNK_SIZE.

(** ** Dense manifests *)

(** How many bytes block [i] of a file of [size] bytes holds. *)
Definition block_len (size i : Z) : Z := Z.min (saturating_sub size (i * CHUNK_SIZE)) CHUNK_SIZE.

(** Block [i] of a file. *)
Definition block (flat : list Z) (i : Z) : list Z :=
  slice flat (i * CHUNK_SIZE) (block_len (zlen flat) i).

Definition blocks_from (flat : list Z) (i n : Z) : list (list Z) := block flat <$> seqZ i n.

(** [blocks] are the blocks of the file [flat]; empty blocks may follow. *)
Definition dense (flat : list Z) (blocks : list (list Z)) : Prop :=
  blocks = blocks_from flat 0 (zlen blocks) /\ zlen flat <= zlen blocks * CHUNK_SIZE.

Lemma block_len_bounds size i : 0 <= block_len size i <= CHUNK_SIZE.
Proof. pose proof CHUNK_SIZE_pos. unfold block_len, saturating_sub. lia. Qed.

Lemma zlen_block flat i : 0 <= i -> zlen (block flat i) = block_len (zlen flat) i.
Proof.
  intros Hi. pose proof CHUNK_SIZE_pos. pose proof (block_len_bounds (zlen flat) i).
  unfold block. destruct (decide (block_len (zlen flat) i = 0)) as [->|Hn].
  - by rewrite slice_nil_len.
  - apply zlen_slice; [nia|lia|]. unfold block_len, saturating_sub in *. lia.
Qed.

Lemma byte_at_block flat i k :
  0 <= i -> 0 <= k < CHUNK_SIZE -> byte_at (block flat i) k = byte_at flat (i * CHUNK_SIZE + k).
Proof.
  intros Hi Hk. unfold block. rewrite byte_at_slice by nia.
  destruct (k <? block_len (zlen flat) i) eqn:H; [done|]. apply Z.ltb_ge in H.
  symmetry. apply byte_at_out. unfold block_len, saturating_sub in H. lia.
Qed.

Lemma dense_lookup flat blocks i :
  dense flat blocks -> 0 <= i < zlen blocks -> blocks !! Z.to_nat i = Some (block flat i).
Proof.
  intros [H _] Hi. rewrite H. unfold blocks_from. rewrite list_lookup_fmap.
  rewrite lookup_seqZ_lt by lia. simpl. do 2 f_equal. lia.
Qed.

(** ** Overwriting and resizing a file *)

(** [bytes] written at [off], the gap before them filled with zeros. *)
Definition splice (flat : list Z) (off : Z) (bytes : list Z) : list Z :=
  let r := resize_zero flat (Z.max (zlen flat) (off + zlen bytes)) in
  take (Z.to_nat off) r ++ bytes ++ drop (Z.to_nat (off + zlen bytes)) r.

Lemma zlen_splice flat off bytes :
  0 <= off -> zlen (splice flat off bytes) = Z.max (zlen flat) (off + zlen bytes).
Proof.
  intros Hoff. pose proof (zlen_nonneg flat). pose proof (zlen_nonneg bytes).
  unfold splice. rewrite !zlen_app, zlen_take, zlen_drop, zlen_resize_zero by lia. lia.
Qed.

Lemma byte_at_splice flat off bytes k :
  0 <= off -> 0 <= k ->
  byte_at (splice flat off bytes) k
  = if (off <=? k) && (k <? off + zlen bytes) then byte_at bytes (k - off) else byte_at flat k.
Proof.
  intros Hoff Hk. pose proof (zlen_nonneg flat). pose proof (zlen_nonneg bytes).
  set (n := Z.max (zlen flat) (off + zlen bytes)).
  assert (byte_at (resize_zero flat n) k = byte_at flat k) as Hr.
  { rewrite byte_at_resize_zero by done. destruct (k <? n) eqn:E; [done|].
    apply Z.ltb_ge in E. symmetry. apply byte_at_out. lia. }
  unfold splice. fold n. rewrite byte_at_app by done.
  rewrite zlen_take, zlen_resize_zero by lia.
  replace (Z.min _ _) with off by lia. destruct (Z.ltb_spec k off) as [H1|H1].
  - rewrite byte_at_take, (proj2 (Z.ltb_lt _ _)) by lia.
    rewrite (proj2 (Z.leb_gt _ _)) by lia. done.
  - rewrite (proj2 (Z.leb_le _ _)) by lia. simpl. rewrite byte_at_app by lia.
    destruct (Z.ltb_spec k (off + zlen bytes)) as [H2|H2].
    + by rewrite (proj2 (Z.ltb_lt _ _)) by lia.
    + rewrite (proj2 (Z.ltb_ge _ _)) by lia. rewrite byte_at_drop by lia.
      rewrite <-Hr. f_equal. lia.
Qed.

Lemma zlen_blocks_from flat i n : 0 <= n -> zlen (blocks_from flat i n) = n.
Proof. intros. unfold blocks_from, zlen. rewrite length_fmap, length_seqZ. lia. Qed.

Lemma blocks_from_app flat i n m :
  0 <= n -> 0 <= m -> blocks_from flat i (n + m) = blocks_from flat i n ++ blocks_from flat (i + n) m.
Proof. intros. unfold blocks_from. by rewrite seqZ_app, fmap_app. Qed.

Lemma blocks_from_ext f g i n :
  (forall j, i <= j < i + n -> block f j = block g j) -> blocks_from f i n = blocks_from g i n.
Proof.
  intros H. apply list_fmap_ext. intros k j Hj. apply lookup_seqZ in Hj as [-> ?]. apply H. lia.
Qed.

Lemma block_ext f g i :
  0 <= i -> block_len (zlen f) i = block_len (zlen g) i ->
  (forall k, i * CHUNK_SIZE <= k < i * CHUNK_SIZE + block_len (zlen f) i -> byte_at f k = byte_at g k) ->
  block f i = block g i.
Proof.
  intros Hi Hl H. pose proof (block_len_bounds (zlen f) i).
  apply byte_at_ext; rewrite !zlen_block by done; [done|].
  intros k Hk. rewrite !byte_at_block by lia. apply H. lia.
Qed.

(** Blocks past the end are empty, so extending by zero blocks stays dense. *)
Lemma dense_extend flat blocks n :
  dense flat blocks -> 0 <= n ->
  (fun i => replicate (Z.to_nat (block_len (zlen flat) i)) 0) <$> seqZ (zlen blocks) n
    = blocks_from flat (zlen blocks) n
  /\ dense flat (blocks ++ blocks_from flat (zlen blocks) n).
Proof.
  intros [Hd Hl] Hn. pose proof (zlen_nonneg blocks). pose proof CHUNK_SIZE_pos. split.
  - apply list_fmap_ext. intros k j Hj. apply lookup_seqZ in Hj as [-> ?].
    assert (block_len (zlen flat) (zlen blocks + Z.of_nat k) = 0) as Hz.
    { unfold block_len, saturating_sub. nia. }
    unfold block. by rewrite Hz, slice_nil_len.
  - split.
    + rewrite zlen_app, zlen_blocks_from, blocks_from_app by done. by rewrite <-Hd.
    + rewrite zlen_app, zlen_blocks_from by done. nia.
Qed.

(** Untouched, touched and untouched blocks together are the blocks of the
    written file, unless the write leaves a gap of whole blocks. *)
Lemma splice_blocks flat off bytes n :
  0 <= off -> bytes <> [] -> off / CHUNK_SIZE * CHUNK_SIZE <= zlen flat ->
  let first := off / CHUNK_SIZE in
  let last := (off + zlen bytes - 1) / CHUNK_SIZE in
  last < n ->
  blocks_from flat 0 first ++ blocks_from (splice flat off bytes) first (last - first + 1)
    ++ blocks_from flat (last + 1) (n - last - 1)
  = blocks_from (splice flat off bytes) 0 n.
Proof.
  intros Hoff Hb Hgap first last Hn. pose proof CHUNK_SIZE_pos.
  assert (0 < zlen bytes) as Hpos by (unfold zlen; destruct bytes; [done|simpl; lia]).
  assert (0 <= first) by (apply Z.div_pos; lia).
  assert (first <= last) by (apply Z.div_le_mono; lia).
  pose proof (Z.mul_div_le off CHUNK_SIZE) as Hlo. fold first in Hlo, Hgap.
  pose proof (Z.mul_succ_div_gt (off + zlen bytes - 1) CHUNK_SIZE) as Hhi. fold last in Hhi.
  replace n with (first + ((last - first + 1) + (n - last - 1))) at 2 by lia.
  rewrite !blocks_from_app by lia. f_equal; [|f_equal].
  - apply blocks_from_ext. intros j Hj. apply block_ext; [lia| |].
    + unfold block_len, saturating_sub. rewrite zlen_splice by done. nia.
    + intros k Hk. pose proof (block_len_bounds (zlen flat) j). rewrite byte_at_splice by nia.
      rewrite (proj2 (Z.leb_gt off k)) by nia. done.
  - replace (0 + first + (last - first + 1)) with (last + 1) by lia.
    apply blocks_from_ext. intros j Hj. apply block_ext; [lia| |].
    + unfold block_len, saturating_sub. rewrite zlen_splice by done. nia.
    + intros k Hk. rewrite byte_at_splice by nia.
      rewrite (proj2 (Z.ltb_ge k _)) by nia. by rewrite andb_false_r.
Qed.

Lemma dense_take_drop flat blocks i :
  dense flat blocks -> 0 <= i <= zlen blocks ->
  take (Z.to_nat i) blocks = blocks_from flat 0 i
  /\ drop (Z.to_nat i) blocks = blocks_from flat i (zlen blocks - i).
Proof.
  intros [Hd _] Hi. pose proof (zlen_blocks_from flat 0 i ltac:(lia)) as Hz.
  remember (zlen blocks) as n eqn:Hn. clear Hn.
  assert (blocks = blocks_from flat 0 i ++ blocks_from flat i (n - i)) as ->.
  { rewrite <-(blocks_from_app flat 0) by lia. by replace (i + _) with n by lia. }
  split; [apply take_app_length'|apply drop_app_length']; unfold zlen in *; lia.
Qed.

(** Replacing the touched blocks gives the blocks of the written file. *)
Lemma splice_dense flat off bytes blocks :
  0 <= off -> bytes <> [] -> off / CHUNK_SIZE * CHUNK_SIZE <= zlen flat ->
  let first := off / CHUNK_SIZE in
  let last := (off + zlen bytes - 1) / CHUNK_SIZE in
  dense flat blocks -> last < zlen blocks -> first <= last ->
  dense (splice flat off bytes)
    (take (Z.to_nat first) blocks ++ blocks_from (splice flat off bytes) first (last - first + 1)
      ++ drop (Z.to_nat (last + 1)) blocks).
Proof.
  intros Hoff Hb Hgap first last Hd Hlast Hfl. pose proof CHUNK_SIZE_pos.
  assert (0 <= first) by (apply Z.div_pos; lia).
  destruct (dense_take_drop flat blocks first Hd ltac:(lia)) as [-> _].
  destruct (dense_take_drop flat blocks (last + 1) Hd ltac:(lia)) as [_ ->].
  replace (zlen blocks - (last + 1)) with (zlen blocks - last - 1) by lia.
  pose proof (splice_blocks flat off bytes (zlen blocks) Hoff Hb Hgap Hlast) as Heq.
  cbv zeta in Heq. fold first in Heq. fold last in Heq. rewrite Heq. split.
  - by rewrite zlen_blocks_from by lia.
  - rewrite zlen_blocks_from, zlen_splice by lia. destruct Hd as [_ Hd].
    pose proof (Z.mul_succ_div_gt (off + zlen bytes - 1) CHUNK_SIZE). fold last in H1. nia.
Qed.

(** ** Contents and reference counts of a store *)

Definition stored_as (m : content_map) (id b : list Z) : Prop := exists n, m !! id = Some (b, n).

Definition manifest (m : content_map) (ids blocks : list (list Z)) : Prop :=
  Forall2 (stored_as m) ids blocks.

Definition refs_of (m : content_map) (id : list Z) : Z := default 0 (snd <$> m !! id).

(** Contents never change; entries may be added. *)
Definition keeps_content (m m' : content_map) : Prop :=
  forall id b, stored_as m id b -> stored_as m' id b.

#[export] Instance keeps_content_preorder : PreOrder keeps_content.
Proof. split; [by intros m id b|]. intros m1 m2 m3 H1 H2 id b H. by apply H2, H1. Qed.

Lemma manifest_keeps m m' ids blocks :
  keeps_content m m' -> manifest m ids blocks -> manifest m' ids blocks.
Proof. intros Hk Hm. eapply Forall2_impl; [exact Hm|]. intros id b. apply Hk. Qed.

Lemma manifest_lookup m ids blocks i b :
  manifest m ids blocks -> blocks !! i = Some b ->
  exists id, ids !! i = Some id /\ stored_as m id b.
Proof. intros Hm Hb. by eapply Forall2_lookup_r in Hm. Qed.

Lemma manifest_zlen m ids blocks : manifest m ids blocks -> zlen ids = zlen blocks.
Proof. intros Hm%Forall2_length. unfold zlen. lia. Qed.

(** Occurrences in a list of ids. *)
Fixpoint occurs (id : list Z) (ids : list (list Z)) : Z :=
  match ids with
  | [] => 0
  | i :: l => (if bool_decide (i = id) then 1 else 0) + occurs id l
  end.

Lemma occurs_app id a b : occurs id (a ++ b) = occurs id a + occurs id b.
Proof. induction a as [|x a IH]; simpl; [done|]. rewrite IH. lia. Qed.
Lemma occurs_nonneg id a : 0 <= occurs id a.
Proof. induction a as [|x a IH]; simpl; [lia|]. case_bool_decide; lia. Qed.

Lemma occurs_split id l i n :
  occurs id (take i l) + occurs id (take n (drop i l)) + occurs id (drop (i + n) l) = occurs id l.
Proof.
  rewrite <-!occurs_app. rewrite <-drop_drop, <-app_assoc, !take_drop. done.
Qed.

Lemma replace_chunks_zip news cs i :
  0 <= i -> i + zlen news <= zlen cs ->
  replace_chunks cs (zip (seqZ i (zlen news)) news)
  = take (Z.to_nat i) cs ++ news ++ drop (Z.to_nat (i + zlen news)) cs.
Proof.
  revert cs i. induction news as [|x news IH]; intros cs i Hi Hl.
  - simpl. rewrite zlen_nil, Z.add_0_r. by rewrite take_drop.
  - rewrite zlen_cons in *. pose proof (zlen_nonneg news).
    rewrite seqZ_cons by lia. replace (Z.pred (1 + zlen news)) with (zlen news) by lia.
    cbn [zip zip_with]. unfold replace_chunks. cbn [foldl].
    fold (replace_chunks (<[Z.to_nat i := x]> cs) (zip (seqZ (Z.succ i) (zlen news)) news)).
    cbn [fst snd]. assert (zlen (<[Z.to_nat i := x]> cs) = zlen cs) as Hz
      by (unfold zlen; by rewrite length_insert).
    rewrite IH by lia. assert (Z.to_nat i < length cs)%nat by (unfold zlen in *; lia).
    rewrite Z2Nat.inj_succ by done. rewrite (take_S_r _ _ x).
    2: { by rewrite list_lookup_insert_eq. }
    rewrite take_insert_ge, drop_insert_lt by lia. rewrite <-app_assoc. simpl.
    do 3 f_equal. f_equal. lia.
Qed.

Lemma unwrap_zip_run {S : Type} (s : S) news cs i :
  0 <= i -> i + zlen news <= zlen cs ->
  (mapM (fun r : Z * list Z => unwrap (cs !! Z.to_nat r.1)) (zip (seqZ i (zlen news)) news)
    : action Error S (list (list Z))) s
  = (Ok (take (length news) (drop (Z.to_nat i) cs)), s).
Proof.
  revert i. induction news as [|x news IH]; intros i Hi Hl; [done|].
  rewrite zlen_cons in *. pose proof (zlen_nonneg news).
  rewrite seqZ_cons by lia. replace (Z.pred (1 + zlen news)) with (zlen news) by lia.
  cbn [zip zip_with mapM fst].
  destruct (lookup_lt_is_Some_2 cs (Z.to_nat i)) as [y Hy]; [unfold zlen in *; lia|].
  rewrite Hy. erewrite bind_ok by done. fold (zip (seqZ (Z.succ i) (zlen news)) news).
  erewrite bind_ok; [|apply IH; lia]. unfold ret. do 2 f_equal. simpl.
  rewrite (drop_S cs y _ Hy). simpl. by rewrite Z2Nat.inj_succ by done.
Qed.

Section Content.
Context {St : Type} {CS : ContentStore St} {CL : ContentStoreLaws St}.
Context (blake3 : list Z -> list Z).
Abbreviation core := (Core St).

(** The chunk store half of the state: in order, with room for [n] records. *)
Definition store_ok (n : Z) (c : core) : Prop := cs_inv (core_store c) /\ cs_room n (core_store c).
Abbreviation contents c := (cs_abs (core_store c)).

Lemma on_store_read c id b :
  cs_inv (core_store c) -> stored_as (contents c) id b ->
  exists c', on_store (cs_read id) c = (Ok b, c') /\ core_db c' = core_db c
    /\ promoted_origins c' = promoted_origins c
    /\ cs_inv (core_store c') /\ contents c' = contents c
    /\ (forall n, cs_room n (core_store c) -> cs_room n (core_store c')).
Proof.
  intros Hi [k Hk]. destruct (cs_read_law (core_store c) id Hi) as (s' & Hr & Hi' & Ha & Hroom).
  rewrite Hk in Hr. unfold on_store, zoom. rewrite Hr. eexists. by split_and!.
Qed.

(** ** Reading *)

Section Read.
Context (flat : list Z) (blocks ids : list (list Z)).
Hypothesis Hdense : dense flat blocks.

Lemma read_chunk_part_run c off end_ i acc :
  cs_inv (core_store c) -> manifest (contents c) ids blocks ->
  0 <= off -> off < end_ <= zlen flat ->
  off / CHUNK_SIZE <= i <= (end_ - 1) / CHUNK_SIZE ->
  acc = slice flat off (Z.max 0 (i * CHUNK_SIZE - off)) ->
  exists c', read_chunk_part ids off end_ i acc c
      = (Ok (slice flat off (Z.min end_ ((i + 1) * CHUNK_SIZE) - off)), c')
    /\ core_db c' = core_db c /\ promoted_origins c' = promoted_origins c
    /\ cs_inv (core_store c') /\ contents c' = contents c.
Proof.
  intros Hi Hm Hoff Hend Hix ->. pose proof CHUNK_SIZE_pos.
  assert (0 <= off / CHUNK_SIZE) by (apply Z.div_pos; lia).
  assert (i * CHUNK_SIZE <= end_ - 1) as Hlow.
  { transitivity ((end_ - 1) / CHUNK_SIZE * CHUNK_SIZE); [nia|].
    rewrite Z.mul_comm. apply Z.mul_div_le. lia. }
  assert (off < (i + 1) * CHUNK_SIZE) as Hhigh.
  { apply Z.lt_le_trans with ((off / CHUNK_SIZE + 1) * CHUNK_SIZE); [|nia].
    rewrite Z.mul_comm. pose proof (Z.mul_succ_div_gt off CHUNK_SIZE). lia. }
  assert (0 <= i < zlen blocks) as Hb.
  { split; [lia|]. destruct Hdense as [_ Hd]. nia. }
  pose proof (dense_lookup _ _ _ Hdense Hb) as Hblk.
  destruct (manifest_lookup _ _ _ _ _ Hm Hblk) as (id & Hid & Hst).
  destruct (on_store_read c id _ Hi Hst) as (c' & Hr & H1 & H2 & H3 & H4 & _).
  exists c'. split; [|done]. unfold read_chunk_part. rewrite Hid.
  erewrite bind_ok by done. erewrite bind_ok by done. cbv zeta.
  rewrite zlen_block by lia. set (L := block_len (zlen flat) i).
  assert (L = Z.min (zlen flat - i * CHUNK_SIZE) CHUNK_SIZE) as HL.
  { unfold L, block_len, saturating_sub. lia. }
  unfold saturating_sub. erewrite bind_ok; last first.
  { unfold guard. rewrite (proj2 (Z.leb_le _ _)); [done|]. lia. }
  unfold ret. do 2 f_equal. unfold block. fold L. rewrite slice_slice by lia.
  destruct (decide (i * CHUNK_SIZE <= off)) as [Hle|Hgt].
  - replace (Z.max 0 (i * CHUNK_SIZE - off)) with 0 by lia. rewrite slice_nil_len. simpl.
    f_equal; lia.
  - replace (Z.max 0 (i * CHUNK_SIZE - off)) with (i * CHUNK_SIZE - off) by lia.
    replace (i * CHUNK_SIZE + Z.max 0 (off - i * CHUNK_SIZE))
      with (off + (i * CHUNK_SIZE - off)) by lia.
    rewrite <-slice_split by lia. f_equal. lia.
Qed.

Lemma read_loop_run n c off end_ i acc :
  cs_inv (core_store c) -> manifest (contents c) ids blocks ->
  0 <= off -> off < end_ <= zlen flat ->
  off / CHUNK_SIZE <= i -> i + Z.of_nat n = (end_ - 1) / CHUNK_SIZE + 1 ->
  acc = slice flat off (Z.max 0 (Z.min end_ (i * CHUNK_SIZE) - off)) ->
  exists c', foldM (fun acc i => read_chunk_part ids off end_ i acc) acc (seqZ i (Z.of_nat n)) c
      = (Ok (slice flat off (end_ - off)), c')
    /\ core_db c' = core_db c /\ promoted_origins c' = promoted_origins c
    /\ cs_inv (core_store c') /\ contents c' = contents c.
Proof.
  revert c i acc. pose proof CHUNK_SIZE_pos.
  induction n as [|n IH]; intros c i acc Hi Hm Hoff Hend Hix Hn ->.
  - exists c. simpl. split; [|done]. unfold ret. do 2 f_equal.
    pose proof (Z.mul_succ_div_gt (end_ - 1) CHUNK_SIZE). f_equal. nia.
  - rewrite seqZ_cons by lia. cbn [foldM].
    assert (i * CHUNK_SIZE <= end_ - 1) as Hlow.
    { transitivity ((end_ - 1) / CHUNK_SIZE * CHUNK_SIZE); [nia|].
      rewrite Z.mul_comm. apply Z.mul_div_le. lia. }
    destruct (read_chunk_part_run c off end_ i
      (slice flat off (Z.max 0 (i * CHUNK_SIZE - off)))) as (c1 & Hr & H1 & H2 & H3 & H4);
      [done..|lia|done|].
    replace (Z.min end_ (i * CHUNK_SIZE)) with (i * CHUNK_SIZE) by lia.
    erewrite bind_ok by done.
    destruct (IH c1 (Z.succ i) (slice flat off (Z.min end_ ((i + 1) * CHUNK_SIZE) - off)))
      as (c2 & Hr2 & E1 & E2 & E3 & E4); [done|by rewrite H4|done|done|lia|lia| |].
    { f_equal. pose proof (Z.mul_succ_div_gt off CHUNK_SIZE). nia. }
    replace (Z.pred (Z.of_nat (S n))) with (Z.of_nat n) by lia.
    exists c2. split; [done|]. split_and!; congruence.
Qed.

(** Reading a file is taking a slice of it, cut at the end of the file. *)
Lemma read_chunks_run c off len :
  cs_inv (core_store c) -> manifest (contents c) ids blocks ->
  zlen flat < 2 ^ 64 -> 0 <= off -> 0 <= len ->
  exists c', read_chunks ids (zlen flat) off len c = (Ok (slice flat off len), c')
    /\ core_db c' = core_db c /\ promoted_origins c' = promoted_origins c
    /\ cs_inv (core_store c') /\ contents c' = contents c.
Proof.
  intros Hi Hm Hbig Hoff Hlen. unfold read_chunks.
  destruct (zlen flat <=? off) eqn:H1; [|destruct (len =? 0) eqn:H2]; simpl.
  - apply Z.leb_le in H1. exists c. split; [|done]. unfold ret. do 2 f_equal.
    unfold slice. rewrite drop_ge by (unfold zlen in *; lia). by rewrite take_nil.
  - apply Z.eqb_eq in H2 as ->. exists c. by rewrite slice_nil_len.
  - apply Z.leb_gt in H1. apply Z.eqb_neq in H2. pose proof CHUNK_SIZE_pos.
    set (end_ := Z.min (zlen flat) (Z.min (2 ^ 64 - 1) (off + len))).
    assert (off < end_ <= zlen flat) as Hend by lia.
    assert (off / CHUNK_SIZE <= (end_ - 1) / CHUNK_SIZE) as Hdiv
      by (apply Z.div_le_mono; lia).
    destruct (read_loop_run (Z.to_nat ((end_ - 1) / CHUNK_SIZE - off / CHUNK_SIZE + 1)) c off
      end_ (off / CHUNK_SIZE) []) as (c' & Hr & Hrest); [done|done|done|done|lia|lia| |].
    { pose proof (Z.mul_div_le off CHUNK_SIZE).
      replace (Z.max 0 _) with 0 by lia. by rewrite slice_nil_len. }
    rewrite Z2Nat.id in Hr by lia. exists c'. split; [|done]. rewrite Hr.
    do 2 f_equal. destruct (decide (off + len <= zlen flat)); [f_equal; lia|].
    unfold slice. rewrite !take_ge; [done|rewrite length_drop; unfold zlen in *; lia..].
Qed.
End Read.

(** ** Storing and releasing blocks *)

(** A step that touches the chunk store only: contents kept, [k] records of
    room left, and reference counts changed by [delta]. *)
Record store_step (k : Z) (delta : list Z -> Z) (c c' : core) : Prop := {
  ss_db : core_db c' = core_db c;
  ss_promoted : promoted_origins c' = promoted_origins c;
  ss_ok : store_ok k c';
  ss_keeps : keeps_content (contents c) (contents c');
  ss_refs : forall j, refs_of (contents c') j = refs_of (contents c) j + delta j }.

Lemma store_step_trans k1 k2 f g c1 c2 c3 :
  store_step k1 f c1 c2 -> store_step k2 g c2 c3 ->
  store_step k2 (fun j => f j + g j) c1 c3.
Proof.
  intros [] []. split; [congruence|congruence|done|by etransitivity|].
  intros j. rewrite ss_refs1, ss_refs0. lia.
Qed.

Lemma store_step_ext k f g c c' :
  store_step k f c c' -> (forall j, f j = g j) -> store_step k g c c'.
Proof. intros [] H. split; try done. intros j. by rewrite <-H. Qed.

Lemma store_step_refl k c : store_ok k c -> store_step k (fun _ => 0) c c.
Proof. intros. split; [done..|]. intros. lia. Qed.

Lemma put_pinned_run c b k :
  store_ok (k + 1) c -> cs_distinct b -> zlen b <= CHUNK_SIZE -> 0 <= k ->
  exists id c', put_pinned b c = (Ok id, c')
    /\ store_step k (fun j => if bool_decide (id = j) then 1 else 0) c c'
    /\ stored_as (contents c') id b.
Proof.
  intros [Hi Hroom] Hdi Hb Hk.
  destruct (cs_put_ok (core_store c) b k Hi Hdi Hb Hk Hroom) as (id & s1 & Hp & Hr1).
  destruct (cs_put_any _ _ _ _ Hi Hp) as (Hi1 & Ha & Hst).
  destruct (Hst Hdi id eq_refl) as [n Hn].
  pose proof (cs_pin_law s1 id Hi1) as Hpin. rewrite Hn in Hpin.
  destruct Hpin as (s2 & Hp2 & Hi2 & Ha2 & Hr2).
  exists id, (set_store s2 (set_store s1 c)). split; [|split; [split; simpl|]].
  - unfold put_pinned. erewrite bind_ok; last first.
    { unfold on_store, zoom. by rewrite Hp. }
    erewrite bind_ok; [done|]. unfold on_store, zoom. simpl. by rewrite Hp2.
  - done.
  - done.
  - split; [done|]. by apply Hr2.
  - intros j b' [m Hm]. unfold stored_as. rewrite Ha2. destruct (decide (j = id)) as [->|Hne].
    + rewrite lookup_insert_eq. assert (cs_abs s1 !! id = Some (b', m)) as Hm'.
      { destruct Ha as [->|(i & Hno & ->)]; [done|]. by rewrite lookup_insert_ne by congruence. }
      rewrite Hn in Hm'. injection Hm' as -> ->. eauto.
    + rewrite lookup_insert_ne by done. exists m.
      destruct Ha as [->|(i & Hno & ->)]; [done|]. by rewrite lookup_insert_ne by congruence.
  - intros j. unfold refs_of. rewrite Ha2.
    assert (default 0 (snd <$> cs_abs s1 !! j) = default 0 (snd <$> contents c !! j)) as <-.
    { destruct Ha as [->|(i & Hno & ->)]; [done|]. destruct (decide (j = i)) as [->|Hne].
      - by rewrite lookup_insert_eq, Hno.
      - by rewrite lookup_insert_ne. }
    case_bool_decide as Hj; [subst j|].
    + by rewrite lookup_insert_eq, Hn.
    + rewrite lookup_insert_ne by done. lia.
  - simpl. exists (n + 1). by rewrite Ha2, lookup_insert_eq.
Qed.

Lemma unpin_all_run l c k :
  store_ok k c -> (forall id, occurs id l <= refs_of (contents c) id) ->
  exists c', unpin_all l c = (Ok tt, c') /\ store_step k (fun j => - occurs j l) c c'.
Proof.
  revert c. induction l as [|id l IH]; intros c [Hi Hroom] Hocc; unfold unpin_all, forM in *.
  { exists c. split; [done|]. eapply store_step_ext; [by apply store_step_refl|]. simpl. lia. }
  pose proof (Hocc id) as Hid. cbn [occurs] in Hid.
  rewrite bool_decide_eq_true_2 in Hid by done. pose proof (occurs_nonneg id l).
  pose proof (cs_unpin_law (core_store c) id Hi) as Hu.
  destruct (contents c !! id) as [[b n]|] eqn:Hn; last first.
  { unfold refs_of in Hid. rewrite Hn in Hid. simpl in Hid. lia. }
  assert (n = refs_of (contents c) id) as Hrn by (unfold refs_of; by rewrite Hn).
  rewrite (proj2 (Z.ltb_lt _ _)) in Hu by lia.
  destruct Hu as (s1 & Hp & Hi1 & Ha1 & Hr1).
  assert (store_step k (fun j => if bool_decide (id = j) then -1 else 0) c (set_store s1 c)) as H1.
  { split; simpl; [done|done|split; [done|by apply Hr1]| |].
    - intros j b' [m Hm]. unfold stored_as. rewrite Ha1. destruct (decide (j = id)) as [->|Hne].
      + rewrite lookup_insert_eq. rewrite Hn in Hm. injection Hm as -> ->. eauto.
      + rewrite lookup_insert_ne by done. eauto.
    - intros j. unfold refs_of. rewrite Ha1. case_bool_decide as Hj; [subst j|].
      + rewrite lookup_insert_eq, Hn. simpl. lia.
      + rewrite lookup_insert_ne by done. lia. }
  destruct (IH (set_store s1 c)) as (c' & Hr & H2); [apply H1| |].
  { intros j. rewrite (ss_refs _ _ _ _ H1). specialize (Hocc j). cbn [occurs] in Hocc.
    case_bool_decide; lia. }
  exists c'. cbn [foldM]. erewrite bind_ok; last first.
  { unfold on_store, zoom. by rewrite Hp. }
  split; [exact Hr|]. eapply store_step_ext; [by eapply store_step_trans|].
  intros j. cbn [occurs]. case_bool_decide; lia.
Qed.

(** The blocks that extension pushes: all zeros. *)
Definition zero_blocks (size i n : Z) : list (list Z) :=
  (fun i => replicate (Z.to_nat (block_len size i)) 0) <$> seqZ i n.

Lemma extend_run n size c ids i k :
  store_ok (Z.of_nat n + k) c -> 0 <= k ->
  Forall cs_distinct (zero_blocks size i (Z.of_nat n)) ->
  exists new c', foldM (extend_zero size) ids (seqZ i (Z.of_nat n)) c = (Ok (ids ++ new), c')
    /\ store_step k (fun j => occurs j new) c c'
    /\ manifest (contents c') new (zero_blocks size i (Z.of_nat n)).
Proof.
  revert c ids i. induction n as [|n IH]; intros c ids i Hok Hk Hdi.
  { exists [], c. rewrite app_nil_r. split; [done|]. split; [by apply store_step_refl|constructor]. }
  rewrite seqZ_cons by lia. replace (Z.pred (Z.of_nat (S n))) with (Z.of_nat n) by lia.
  unfold zero_blocks in Hdi. rewrite seqZ_cons in Hdi by lia.
  replace (Z.pred (Z.of_nat (S n))) with (Z.of_nat n) in Hdi by lia.
  apply Forall_cons_1 in Hdi as [Hdi1 Hdi]. pose proof (block_len_bounds size i).
  destruct (put_pinned_run c (replicate (Z.to_nat (block_len size i)) 0) (Z.of_nat n + k))
    as (id & c1 & Hp & H1 & Hst).
  { destruct Hok as [Hi Hr]. split; [done|]. by replace (_ + 1) with (Z.of_nat (S n) + k) by lia. }
  { done. } { rewrite zlen_replicate. lia. } { lia. }
  destruct (IH c1 (ids ++ [id]) (Z.succ i)) as (new & c2 & Hr & H2 & Hm); [apply H1|done|done|].
  exists (id :: new), c2. cbn [foldM]. erewrite bind_ok; last first.
  { unfold extend_zero. erewrite bind_ok by done. done. }
  split; [rewrite Hr; by rewrite <-app_assoc|]. split.
  - eapply store_step_ext; [by eapply store_step_trans|]. done.
  - unfold zero_blocks. rewrite seqZ_cons by lia.
    replace (Z.pred (Z.of_nat (S n))) with (Z.of_nat n) by lia.
    constructor; [|done]. by apply (ss_keeps _ _ _ _ H2).
Qed.

(** ** Writing *)

Section Write.
Context (flat bytes : list Z) (off : Z).
Hypothesis Hoff : 0 <= off.
Hypothesis Hbytes : bytes <> [].

Abbreviation written_file := (splice flat off bytes).
Abbreviation first := (off / CHUNK_SIZE).
Abbreviation last := ((off + zlen bytes - 1) / CHUNK_SIZE).

Lemma bytes_pos : 0 < zlen bytes.
Proof. unfold zlen. destruct bytes; [done|]. simpl. lia. Qed.

Lemma first_last : 0 <= first <= last.
Proof.
  pose proof bytes_pos. pose proof CHUNK_SIZE_pos. split; [apply Z.div_pos; lia|].
  apply Z.div_le_mono; lia.
Qed.

(** The range of a touched block that the write covers. *)
Lemma touched_range i :
  first <= i <= last ->
  i * CHUNK_SIZE < off + zlen bytes /\ off < (i + 1) * CHUNK_SIZE.
Proof.
  intros Hi. pose proof CHUNK_SIZE_pos. pose proof bytes_pos. split.
  - pose proof (Z.mul_div_le (off + zlen bytes - 1) CHUNK_SIZE). nia.
  - pose proof (Z.mul_succ_div_gt off CHUNK_SIZE). nia.
Qed.

(** What the loop body computes for a block. *)
Lemma new_block i :
  first <= i <= last ->
  let L := block_len (zlen written_file) i in
  let ws := Z.max off (i * CHUNK_SIZE) in
  let we := Z.min (off + zlen bytes) (i * CHUNK_SIZE + L) in
  0 <= ws - off /\ 0 <= we - ws /\ (ws - off) + (we - ws) <= zlen bytes
  /\ 0 <= ws - i * CHUNK_SIZE /\ we - i * CHUNK_SIZE <= L
  /\ take (Z.to_nat (ws - i * CHUNK_SIZE)) (resize_zero (block flat i) L)
     ++ slice bytes (ws - off) (we - ws)
     ++ drop (Z.to_nat (we - i * CHUNK_SIZE)) (resize_zero (block flat i) L)
     = block written_file i.
Proof.
  intros Hi L ws we. pose proof CHUNK_SIZE_pos. pose proof bytes_pos.
  pose proof first_last. destruct (touched_range i Hi) as [Ht1 Ht2].
  pose proof (block_len_bounds (zlen written_file) i) as HL0. fold L in HL0.
  assert (off + zlen bytes <= zlen written_file) as Hlong by (rewrite zlen_splice; lia).
  assert (L = Z.min (zlen written_file - i * CHUNK_SIZE) CHUNK_SIZE) as HL.
  { unfold L, block_len, saturating_sub. lia. }
  assert (0 <= ws - off) by lia. assert (0 <= we - ws) by lia.
  assert (0 <= ws - i * CHUNK_SIZE) by lia. assert (we - i * CHUNK_SIZE <= L) by lia.
  split_and!; [lia..|].
  assert (zlen (slice bytes (ws - off) (we - ws)) = we - ws) as Hsl
    by (apply zlen_slice; lia).
  apply byte_at_ext.
  - rewrite !zlen_app, zlen_take, zlen_drop, Hsl, zlen_resize_zero, zlen_block by lia.
    fold L. lia.
  - intros k Hk. rewrite !zlen_app, zlen_take, zlen_drop, Hsl, zlen_resize_zero in Hk by lia.
    assert (0 <= k < L) as HkL by lia.
    rewrite byte_at_block by lia. rewrite byte_at_splice by nia.
    rewrite byte_at_app, zlen_take, zlen_resize_zero by lia.
    replace (Z.min _ L) with (ws - i * CHUNK_SIZE) by lia.
    assert (byte_at (resize_zero (block flat i) L) k
      = if k <? L then byte_at flat (i * CHUNK_SIZE + k) else 0) as Hrz.
    { rewrite byte_at_resize_zero by lia. destruct (k <? L); [|done].
      apply byte_at_block; lia. }
    destruct (Z.ltb_spec k (ws - i * CHUNK_SIZE)) as [C1|C1].
    + rewrite byte_at_take, (proj2 (Z.ltb_lt _ _)), Hrz, (proj2 (Z.ltb_lt _ _)) by lia.
      rewrite (proj2 (Z.leb_gt _ _)) by lia. done.
    + rewrite byte_at_app by lia. rewrite Hsl. rewrite (proj2 (Z.leb_le _ _)) by lia.
      destruct (Z.ltb_spec (k - (ws - i * CHUNK_SIZE)) (we - ws)) as [C2|C2].
      * rewrite (proj2 (Z.ltb_lt (i * CHUNK_SIZE + k) _)) by lia. simpl.
        rewrite byte_at_slice, (proj2 (Z.ltb_lt _ _)) by lia. f_equal. lia.
      * rewrite (proj2 (Z.ltb_ge (i * CHUNK_SIZE + k) _)) by lia. simpl.
        rewrite byte_at_drop by lia.
        replace (Z.of_nat _ + _) with k by lia.
        by rewrite Hrz, (proj2 (Z.ltb_lt _ _)) by lia.
Qed.

Lemma write_chunk_run c ids blocks i k :
  store_ok (k + 1) c -> 0 <= k -> manifest (contents c) ids blocks -> dense flat blocks ->
  first <= i <= last -> i < zlen blocks -> cs_distinct (block written_file i) ->
  exists id c', write_chunk ids (zlen written_file) off bytes i c = (Ok (i, id), c')
    /\ store_step k (fun j => if bool_decide (id = j) then 1 else 0) c c'
    /\ stored_as (contents c') id (block written_file i).
Proof.
  intros [Hi Hroom] Hk Hm Hd Hix Hlen Hdi. pose proof first_last.
  pose proof (dense_lookup _ _ i Hd ltac:(lia)) as Hb.
  destruct (manifest_lookup _ _ _ _ _ Hm Hb) as (id0 & Hid0 & Hst0).
  destruct (on_store_read c id0 _ Hi Hst0) as (c1 & Hr & E1 & E2 & E3 & E4 & E5).
  destruct (new_block i Hix) as (N1 & N2 & N3 & N4 & N5 & N6).
  destruct (put_pinned_run c1 (block written_file i) k) as (id & c2 & Hp & [] & Hs).
  { split; [done|]. by apply E5. } { done. }
  { rewrite zlen_block by lia. apply block_len_bounds. } { done. }
  exists id, c2. split; [|split; [split|done]].
  - unfold write_chunk. cbv zeta. rewrite Hid0. erewrite bind_ok by done.
    fold (block_len (zlen written_file) i).
    erewrite bind_ok; last first.
    { unfold index_slice.
      rewrite !(proj2 (Z.leb_le _ _)) by lia. done. }
    erewrite bind_ok; last first.
    { unfold copy_from_slice. rewrite zlen_slice by lia.
      rewrite zlen_resize_zero by apply block_len_bounds.
      rewrite !(proj2 (Z.leb_le _ _)) by lia. simpl.
      replace (_ - i * CHUNK_SIZE + (_ - _)) with
        (Z.min (off + zlen bytes) (i * CHUNK_SIZE + block_len (zlen written_file) i)
         - i * CHUNK_SIZE) by lia.
      rewrite N6. done. }
    erewrite bind_ok by done. done.
  - congruence.
  - congruence.
  - done.
  - by rewrite <-E4.
  - intros j. by rewrite ss_refs0, E4.
Qed.

Lemma write_loop_run n c ids blocks i k :
  store_ok (Z.of_nat n + k) c -> 0 <= k -> manifest (contents c) ids blocks ->
  dense flat blocks -> first <= i -> i + Z.of_nat n <= last + 1 -> last < zlen blocks ->
  (forall j, first <= j <= last -> cs_distinct (block written_file j)) ->
  exists news c',
    mapM (write_chunk ids (zlen written_file) off bytes) (seqZ i (Z.of_nat n)) c
      = (Ok (zip (seqZ i (Z.of_nat n)) news), c')
    /\ length news = n
    /\ store_step k (fun j => occurs j news) c c'
    /\ manifest (contents c') news (blocks_from written_file i (Z.of_nat n)).
Proof.
  revert c i. induction n as [|n IH]; intros c i Hok Hk Hm Hd Hi Hn Hl Hdi.
  { exists [], c. split; [done|]. split; [done|]. split; [by apply store_step_refl|constructor]. }
  unfold blocks_from. rewrite seqZ_cons by lia.
  replace (Z.pred (Z.of_nat (S n))) with (Z.of_nat n) by lia.
  destruct (write_chunk_run c ids blocks i (Z.of_nat n + k)) as (id & c1 & Hp & H1 & Hs);
    [|lia|done|done|lia|lia|apply Hdi; lia|].
  { by replace (Z.of_nat n + k + 1) with (Z.of_nat (S n) + k) by lia. }
  destruct (IH c1 (Z.succ i)) as (news & c2 & Hr & Hlen & H2 & Hm2);
    [apply H1|done|by eapply manifest_keeps; [apply H1|]|done|lia|lia|done|done|].
  exists (id :: news), c2. cbn [mapM]. erewrite bind_ok by done. erewrite bind_ok by done.
  split; [done|]. split; [simpl; lia|]. split.
  - eapply store_step_ext; [by eapply store_step_trans|]. done.
  - simpl. constructor; [|done]. by apply (ss_keeps _ _ _ _ H2).
Qed.
End Write.

(** ** A private file *)

(** The inode row and manifest of a file with content [flat]; [other] counts
    the references that other manifests hold. *)
Record file_ok (ws : string) (ino : InodeRecord) (flat : list Z) (other : list Z -> Z)
    (c : core) : Prop := {
  fo_blocks : exists blocks, manifest (contents c) (ino_chunks ino) blocks /\ dense flat blocks;
  fo_size : ino_size ino = zlen flat;
  fo_row : exists row, inodes (core_db c) !! ino_id ino = Some row /\ i_workspace row = ws
    /\ i_kind row = ino_kind ino /\ i_size row = ino_size ino
    /\ i_chunks row = ino_chunks ino;
  fo_refs : forall j, refs_of (contents c) j = occurs j (ino_chunks ino) + other j;
  fo_other : forall j, 0 <= other j }.

Lemma update_inode_run ws ino flat other c size chunks now :
  file_ok ws ino flat other c -> 0 <= size < 2 ^ 63 ->
  exists c' row', update_inode ws (ino_id ino) size chunks now c = (Ok tt, c')
    /\ core_store c' = core_store c
    /\ core_db c' = with_inodes (<[ino_id ino := row']> (inodes (core_db c))) (core_db c)
    /\ i_workspace row' = ws /\ i_kind row' = ino_kind ino /\ i_size row' = size
    /\ i_chunks row' = chunks.
Proof.
  intros [_ _ (row & Hr & Hw & Hk & _) _ _] Hs. unfold update_inode.
  erewrite bind_ok by done. cbn beta. rewrite Hr.
  erewrite bind_ok by (unfold guard; by rewrite bool_decide_eq_true_2).
  erewrite bind_ok; last first.
  { unfold guard, size_column, as_i64. rewrite (proj2 (Z.ltb_lt _ _)) by lia.
    by rewrite (proj2 (Z.leb_le _ _)) by lia. }
  eexists _, _. split; [done|]. simpl. by split_and!.
Qed.

(** The database after a write: one inode row and the journal counter. *)
Definition written (ws : string) (ino : InodeRecord) (size : Z) (chunks : list (list Z))
    (row : InodeRow) (d d' : Db) : Prop :=
  let n := journal_seq d + 1 in
  d' = with_inodes (<[ino_id ino := row]> (inodes d))
         (with_journal_seq n (with_journal (delete n (journal d)) d))
  /\ i_workspace row = ws /\ i_kind row = ino_kind ino /\ i_size row = size
  /\ i_chunks row = chunks.

Section WriteInode.
Context (ws : string) (ino : InodeRecord) (flat bytes : list Z) (other : list Z -> Z)
  (off now : Z).
Hypothesis Hoff : 0 <= off.
Hypothesis Hbytes : bytes <> [].
Hypothesis Hend : Z.max (zlen flat) (off + zlen bytes) < 2 ^ 63.
Hypothesis Hgap : off / CHUNK_SIZE * CHUNK_SIZE <= zlen flat.
Hypothesis Hempty : cs_distinct [].
Hypothesis Hnew : forall j, off / CHUNK_SIZE <= j <= (off + zlen bytes - 1) / CHUNK_SIZE ->
  cs_distinct (block (splice flat off bytes) j).

Abbreviation first := (off / CHUNK_SIZE).
Abbreviation last := ((off + zlen bytes - 1) / CHUNK_SIZE).

Lemma zero_distinct blocks n :
  dense flat blocks -> Forall cs_distinct (zero_blocks (zlen flat) (zlen blocks) n).
Proof.
  intros [_ Hl]. pose proof CHUNK_SIZE_pos. apply Forall_fmap, Forall_seqZ.
  intros j Hj. simpl. replace (Z.to_nat _) with 0%nat; [done|].
  unfold block_len, saturating_sub. nia.
Qed.

(** Extension and replacement: the new manifest, before the row changes. *)
Lemma write_blocks_run c :
  file_ok ws ino flat other c -> store_ok (2 * (last + 1)) c ->
  exists ids1 ids2 news old c',
    (let! chunks := foldM (extend_zero (ino_size ino)) (ino_chunks ino)
       (seqZ (zlen (ino_chunks ino)) (last + 1 - zlen (ino_chunks ino))) in
     let! r := mapM (write_chunk chunks (Z.max (ino_size ino) (off + zlen bytes)) off bytes)
       (seqZ first (last - first + 1)) in
     let! old := mapM (fun r : Z * list Z => unwrap (chunks !! Z.to_nat r.1)) r in
     ret (chunks, r, old)) c = (Ok (ids1, zip (seqZ first (zlen news)) news, old), c')
    /\ replace_chunks ids1 (zip (seqZ first (zlen news)) news) = ids2
    /\ store_step 0 (fun j => occurs j ids2 + occurs j old - occurs j (ino_chunks ino)) c c'
    /\ (forall j, occurs j (ino_chunks ino) <= occurs j ids2 + occurs j old)
    /\ exists blocks2, manifest (contents c') ids2 blocks2
         /\ dense (splice flat off bytes) blocks2.
Proof.
  intros [(blocks & Hm & Hd) Hsize Hrow Hrefs Hoth] Hok. pose proof CHUNK_SIZE_pos.
  pose proof (first_last bytes off Hoff Hbytes) as Hfl.
  pose proof (manifest_zlen _ _ _ Hm) as Hzl. pose proof (zlen_nonneg blocks).
  set (n := Z.to_nat (last + 1 - zlen (ino_chunks ino))).
  assert (seqZ (zlen (ino_chunks ino)) (last + 1 - zlen (ino_chunks ino))
    = seqZ (zlen (ino_chunks ino)) (Z.of_nat n)) as Hseq.
  { destruct (decide (0 <= last + 1 - zlen (ino_chunks ino))).
    - unfold n. by rewrite Z2Nat.id by lia.
    - unfold n. rewrite !seqZ_nil by lia. done. }
  set (m := Z.to_nat (last - first + 1)).
  destruct (extend_run n (ino_size ino) c (ino_chunks ino) (zlen (ino_chunks ino))
    (2 * (last + 1) - Z.of_nat n)) as (new & c1 & Hr1 & H1 & Hm1).
  { destruct Hok as [Hi Hr]. split; [done|].
    by replace (Z.of_nat n + _) with (2 * (last + 1)) by lia. } { lia. }
  { rewrite Hsize, Hzl. by apply zero_distinct. }
  rewrite Hsize in Hm1. unfold zero_blocks in Hm1. rewrite Hzl in Hm1.
  destruct (dense_extend flat blocks (Z.of_nat n) Hd ltac:(lia)) as [Hzero Hd1].
  rewrite Hzero in Hm1.
  assert (manifest (contents c1) (ino_chunks ino ++ new)
    (blocks ++ blocks_from flat (zlen blocks) (Z.of_nat n))) as Hm1'.
  { apply Forall2_app; [|done]. eapply manifest_keeps; [apply H1|done]. }
  set (ids1 := ino_chunks ino ++ new) in *.
  set (blocks1 := blocks ++ blocks_from flat (zlen blocks) (Z.of_nat n)) in *.
  assert (last < zlen blocks1) as Hlast1.
  { unfold blocks1. rewrite zlen_app, zlen_blocks_from by lia. lia. }
  destruct (write_loop_run flat bytes off Hoff Hbytes m c1 ids1 blocks1 first
    (2 * (last + 1) - Z.of_nat n - Z.of_nat m)) as (news & c2 & Hr2 & Hlen & H2 & Hm2);
    [|lia|done|done|lia|lia|done|done|].
  { destruct (ss_ok _ _ _ _ H1) as [Hi Hr]. split; [done|].
    by replace (Z.of_nat m + _) with (2 * (last + 1) - Z.of_nat n) by lia. }
  assert (zlen news = Z.of_nat m) as Hzn by (unfold zlen; lia).
  pose proof (manifest_zlen _ _ _ Hm1') as Hzl1.
  exists ids1, (take (Z.to_nat first) ids1 ++ news ++ drop (Z.to_nat (first + zlen news)) ids1),
    news, (take (length news) (drop (Z.to_nat first) ids1)), c2.
  assert (forall j, occurs j ids1 = occurs j (ino_chunks ino) + occurs j new) as Ho1.
  { intros j. apply occurs_app. }
  assert (forall j, occurs j (take (Z.to_nat first) ids1 ++ news
      ++ drop (Z.to_nat (first + zlen news)) ids1)
    + occurs j (take (length news) (drop (Z.to_nat first) ids1))
    = occurs j ids1 + occurs j news) as Hsum.
  { intros j. rewrite !occurs_app. rewrite <-(occurs_split j ids1 (Z.to_nat first) (length news)).
    replace (Z.to_nat (first + zlen news)) with (Z.to_nat first + length news)%nat
      by (unfold zlen; lia). lia. }
  split_and!.
  - rewrite Hseq. erewrite bind_ok by done.
    erewrite bind_ok; last first.
    { rewrite Hsize, <-zlen_splice by done.
      replace (last - first + 1) with (Z.of_nat m) by lia. exact Hr2. }
    rewrite <-Hzn. erewrite bind_ok; [done|]. apply unwrap_zip_run; lia.
  - apply replace_chunks_zip; lia.
  - apply (store_step_ext 0 (fun j => occurs j new + occurs j news)).
    + destruct (store_step_trans _ _ _ _ _ _ _ H1 H2). split; [done|done| |done|done].
      destruct ss_ok0 as [Hi Hr]. split; [done|]. eapply cs_room_mono; [|exact Hr]; lia.
    + intros j. cbv beta. specialize (Hsum j). rewrite Ho1 in Hsum. lia.
  - intros j. specialize (Hsum j). rewrite Ho1 in Hsum.
    pose proof (occurs_nonneg j new). pose proof (occurs_nonneg j news). lia.
  - exists (take (Z.to_nat first) blocks1
      ++ blocks_from (splice flat off bytes) first (last - first + 1)
      ++ drop (Z.to_nat (last + 1)) blocks1).
    replace (first + zlen news) with (last + 1) by lia. split; [|apply splice_dense; (done || lia)].
    replace (last - first + 1) with (Z.of_nat m) by lia.
    pose proof (manifest_keeps _ _ _ _ (ss_keeps _ _ _ _ H2) Hm1') as Hk1.
    apply Forall2_app; [by apply Forall2_take|].
    apply Forall2_app; [done|by apply Forall2_drop].
Qed.

(** The journalled row update that follows. *)
Lemma journalled_update_run c size chunks other' :
  file_ok ws ino flat other' c -> 0 <= size < 2 ^ 63 -> journal_seq (core_db c) < I64_MAX ->
  exists c' row',
    (let! journal_id := begin_namespace_journal ws "write" (ino_id ino, size, chunks) in
     update_inode ws (ino_id ino) size chunks now ;;;
     complete_namespace_journal journal_id) c = (Ok tt, c')
    /\ core_store c' = core_store c
    /\ written ws ino size chunks row' (core_db c) (core_db c').
Proof.
  intros Hf Hs Hj. unfold begin_namespace_journal.
  set (n := journal_seq (core_db c)) in *.
  set (d1 := with_journal_seq (n + 1) (with_journal
    (<[n + 1 := mkJournalRow ws "write" false (ino_id ino, size, chunks)]>
       (journal (core_db c))) (core_db c))).
  assert (file_ok ws ino flat other' (set_db d1 c)) as Hf1 by by destruct Hf.
  destruct (update_inode_run _ _ _ _ _ size chunks now Hf1 Hs)
    as (c2 & row & Hu & Hst & Hdb & Hrow).
  assert (journal (core_db c2) !! (n + 1)
    = Some (mkJournalRow ws "write" false (ino_id ino, size, chunks))) as Hjr.
  { rewrite Hdb. simpl. by rewrite lookup_insert_eq. }
  exists (set_db (with_journal (delete (n + 1) (journal (core_db c2))) (core_db c2)) c2), row.
  split_and!; [|done|].
  - erewrite bind_ok; last first.
    { erewrite bind_ok by done. fold n. erewrite bind_ok; last first.
      { unfold guard. by rewrite (proj2 (Z.ltb_lt _ _)). }
      erewrite bind_ok by done. done. }
    change (set_db _ c) with (set_db d1 c). erewrite bind_ok by done.
    unfold complete_namespace_journal. erewrite bind_ok by done. rewrite Hjr.
    by erewrite bind_ok by done.
  - simpl. rewrite Hdb. simpl. by rewrite delete_insert_eq.
Qed.

(** Writing succeeds, the file is the spliced one, and the reference counts
    follow the manifest exactly. *)
Lemma write_inode_run c :
  file_ok ws ino flat other c -> store_ok (2 * (last + 1)) c ->
  journal_seq (core_db c) < I64_MAX ->
  exists chunks row' c',
    let size := zlen (splice flat off bytes) in
    write_inode ws ino off bytes now c = (Ok (zlen bytes), c')
    /\ file_ok ws (mkInode (ino_id ino) (ino_kind ino) size chunks)
         (splice flat off bytes) other c'
    /\ store_ok 0 c' /\ keeps_content (contents c) (contents c')
    /\ written ws ino size chunks row' (core_db c) (core_db c').
Proof.
  intros Hf Hok Hj. destruct (write_blocks_run c Hf Hok)
    as (ids1 & ids2 & news & old & c1 & Hr & Hids & H1 & Hle & blocks2 & Hm2 & Hd2).
  set (size := zlen (splice flat off bytes)).
  assert (size = Z.max (ino_size ino) (off + zlen bytes)) as Hsize.
  { unfold size. rewrite zlen_splice by done. by rewrite (fo_size _ _ _ _ _ Hf). }
  assert (file_ok ws ino flat (fun j => occurs j ids2 + occurs j old
      - occurs j (ino_chunks ino) + other j) c1) as Hf1.
  { destruct Hf as [(bl & Hm & Hd) ? Hrow Hrefs Hoth]. split; [|done|by rewrite (ss_db _ _ _ _ H1)| |].
    - exists bl. split; [|done]. eapply manifest_keeps; [apply H1|done].
    - intros j. rewrite (ss_refs _ _ _ _ H1), Hrefs. lia.
    - intros j. specialize (Hle j). specialize (Hoth j). lia. }
  destruct (journalled_update_run c1 size ids2 _ Hf1) as (c2 & row & Hu & Hst2 & Hw).
  { pose proof (zlen_nonneg flat). rewrite (fo_size _ _ _ _ _ Hf) in Hsize. lia. }
  { by rewrite (ss_db _ _ _ _ H1). }
  destruct (unpin_all_run old c2 0) as (c3 & Hun & H3).
  { unfold store_ok. rewrite Hst2. apply H1. }
  { intros j. rewrite Hst2, (fo_refs _ _ _ _ _ Hf1). pose proof (occurs_nonneg j ids2).
    pose proof (fo_other _ _ _ _ _ Hf j). lia. }
  exists ids2, row, c3. cbv zeta.
  assert (keeps_content (contents c) (contents c3)) as Hkeep.
  { etransitivity; [apply H1|]. rewrite <-Hst2. apply H3. }
  rewrite <-(ss_db _ _ _ _ H1). rewrite <-(ss_db _ _ _ _ H3) in Hw.
  split_and!; [|split|apply H3|done|done].
  - apply bind_ok_inv in Hr as (? & s1 & Hr1 & Hr).
    apply bind_ok_inv in Hr as (? & s2 & Hr2 & Hr).
    apply bind_ok_inv in Hr as (? & s3 & Hr3 & Hr). injection Hr as -> -> -> ->.
    apply bind_ok_inv in Hu as (jid & s4 & Hu1 & Hu).
    apply bind_ok_inv in Hu as (? & s5 & Hu2 & Hu).
    unfold write_inode. rewrite bool_decide_eq_false_2 by done. cbv zeta.
    erewrite bind_ok by (unfold guard; by rewrite (proj2 (Z.ltb_lt _ _)) by lia).
    do 3 erewrite bind_ok by done. rewrite Hids, <-Hsize.
    do 4 erewrite bind_ok by done. done.
  - exists blocks2. split; [|done]. eapply manifest_keeps; [apply H3|]. by rewrite Hst2.
  - done.
  - exists row. destruct Hw as (Hdb & ? & ? & ? & ?). rewrite Hdb. cbn [ino_id ino_kind ino_size ino_chunks inodes with_inodes].
    split_and!; try done. simpl. by rewrite lookup_insert_eq.
  - intros j. rewrite (ss_refs _ _ _ _ H3), Hst2, (fo_refs _ _ _ _ _ Hf1). simpl. lia.
  - apply Hf.
Qed.
End WriteInode.
End Content.
