(* ===== verification/FileResize.v ===== *)
(** Truncation: [truncate_inode] turns a file into its zero-extended or cut
    form, over any content store. *)

From S2P Require Import Prelude Error RustStr PathPolicy ChunkStore Bytes ContentStore Tracker Core Layers Namespace FileContent.
#[local] Open Scope Z_scope.
#[local] Opaque CHUNK_SIZE.

Lemma resize_zero_id f : resize_zero f (zlen f) = f.
Proof. rewrite resize_zero_take by lia. apply take_ge. unfold zlen. lia. Qed.

Lemma resize_zero_nil n : resize_zero [] n = replicate (Z.to_nat n) 0.
Proof. unfold resize_zero. rewrite take_nil. simpl. f_equal. lia. Qed.

(** A block of the resized file is the resized block. *)
Lemma block_resize flat n i :
  0 <= n -> 0 <= i -> block (resize_zero flat n) i = resize_zero (block flat i) (block_len n i).
Proof.
  intros Hn Hi. pose proof CHUNK_SIZE_pos. pose proof (block_len_bounds n i).
  assert (zlen (block (resize_zero flat n) i) = block_len n i) as Hz
    by (rewrite zlen_block, zlen_resize_zero by done; done).
  apply byte_at_ext; [by rewrite Hz, zlen_resize_zero by lia|]. intros k Hk. rewrite Hz in Hk.
  rewrite byte_at_resize_zero, (proj2 (Z.ltb_lt _ _)) by lia. rewrite !byte_at_block by lia.
  rewrite byte_at_resize_zero by nia. rewrite (proj2 (Z.ltb_lt _ _)); [done|].
  unfold block_len, saturating_sub in Hk. lia.
Qed.

Lemma occurs_insert j l i x y :
  l !! i = Some y ->
  occurs j (<[i := x]> l) + occurs j [y] = occurs j l + occurs j [x].
Proof.
  intros Hi. pose proof (lookup_lt_Some _ _ _ Hi).
  rewrite (insert_take_drop l i x) by done. rewrite <-(take_drop_middle l i y) at 3 by done.
  rewrite !occurs_app. simpl. lia.
Qed.

(** The number of chunks a size needs. *)
Lemma required_eq n :
  (if n =? 0 then 0 else (n - 1) / CHUNK_SIZE + 1) = (n - 1) / CHUNK_SIZE + 1.
Proof.
  destruct (n =? 0) eqn:H; [|done]. apply Z.eqb_eq in H as ->. pose proof CHUNK_SIZE_pos.
  rewrite <-(Z.div_unique_pos (0 - 1) CHUNK_SIZE (-1) (CHUNK_SIZE - 1)); lia.
Qed.

Lemma required_bounds n :
  0 < n -> let q := (n - 1) / CHUNK_SIZE + 1 in
  (q - 1) * CHUNK_SIZE < n /\ n <= q * CHUNK_SIZE.
Proof.
  intros Hn q. pose proof CHUNK_SIZE_pos. unfold q.
  pose proof (Z.mul_div_le (n - 1) CHUNK_SIZE). pose proof (Z.mul_succ_div_gt (n - 1) CHUNK_SIZE).
  lia.
Qed.

(** The blocks kept and pushed are those of the resized file, the last one up
    to its length, unless the file grows across the end of a short block. *)
Lemma resize_blocks flat blocks n :
  let q := (n - 1) / CHUNK_SIZE + 1 in
  let kept := take (Z.to_nat q) blocks in
  let new := resize_zero flat n in
  let ext := kept ++ zero_blocks n (zlen kept) (q - zlen kept) in
  dense flat blocks -> 0 < n -> (n - 1) / CHUNK_SIZE * CHUNK_SIZE <= zlen flat ->
  zlen ext = q /\ take (Z.to_nat (q - 1)) ext = blocks_from new 0 (q - 1)
  /\ exists b, ext !! Z.to_nat (q - 1) = Some b
       /\ resize_zero b (n - (q - 1) * CHUNK_SIZE) = block new (q - 1)
       /\ dense new (blocks_from new 0 q).
Proof.
  intros q kept new ext Hd Hn Hgap. pose proof CHUNK_SIZE_pos.
  assert (1 <= q) by (pose proof (Z.div_pos (n - 1) CHUNK_SIZE); lia).
  replace ((n - 1) / CHUNK_SIZE) with (q - 1) in Hgap by lia.
  destruct (required_bounds n Hn) as [Hlo Hhi]. fold q in Hlo, Hhi.
  assert (zlen new = n) as Hzn by (apply zlen_resize_zero; lia).
  assert (block_len n (q - 1) = n - (q - 1) * CHUNK_SIZE) as Hbl
    by (unfold block_len, saturating_sub; lia).
  assert (blocks_from flat 0 (q - 1) = blocks_from new 0 (q - 1)) as Hfull.
  { apply blocks_from_ext. intros j Hj. unfold new. rewrite block_resize by lia.
    replace (block_len n j) with (zlen (block flat j)); [by rewrite resize_zero_id|].
    rewrite zlen_block by lia. unfold block_len, saturating_sub. nia. }
  cut (exists b, ext = blocks_from new 0 (q - 1) ++ [b]
    /\ resize_zero b (n - (q - 1) * CHUNK_SIZE) = block new (q - 1)).
  { intros (b & -> & Hb). pose proof (zlen_blocks_from new 0 (q - 1) ltac:(lia)) as Hz.
    split; [rewrite zlen_app, Hz; unfold zlen; simpl; lia|].
    split; [apply take_app_length'; unfold zlen in Hz; lia|]. exists b.
    split; [apply list_lookup_middle; unfold zlen in Hz; lia|]. split; [done|].
    split; rewrite zlen_blocks_from by lia; [done|lia]. }
  rewrite <-Hfull, <-Hbl. unfold new. rewrite block_resize by lia.
  destruct (decide (q <= zlen blocks)) as [Hq|Hq].
  - exists (block flat (q - 1)). split; [|done].
    destruct (dense_take_drop flat blocks q Hd ltac:(lia)) as [Hk _].
    unfold ext, kept. rewrite Hk, zlen_blocks_from by lia. unfold zero_blocks.
    rewrite seqZ_nil by lia. simpl. rewrite app_nil_r.
    replace q with ((q - 1) + 1) at 1 by lia. by rewrite blocks_from_app by lia.
  - assert (zlen blocks = q - 1) as Hlen by (destruct Hd as [_ Hd]; nia).
    assert (zlen flat = (q - 1) * CHUNK_SIZE) as Hflat by (destruct Hd as [_ Hd]; nia).
    assert (kept = blocks) as Hk by (apply take_ge; unfold zlen in *; lia).
    exists (replicate (Z.to_nat (block_len n (q - 1))) 0). split.
    + unfold ext. rewrite Hk, Hlen. destruct Hd as [Hd _]. rewrite Hd at 1. rewrite Hlen.
      by replace (q - (q - 1)) with 1 by lia.
    + pose proof (block_len_bounds n (q - 1)).
      replace (block flat (q - 1)) with (@nil Z).
      * rewrite resize_zero_nil. rewrite <-(resize_zero_id (replicate _ _)) at 2.
        by rewrite zlen_replicate, Z2Nat.id by lia.
      * symmetry. apply zlen_zero. rewrite zlen_block by lia. unfold block_len, saturating_sub. lia.
Qed.

Section Resize.
Context {St : Type} {CS : ContentStore St} {CL : ContentStoreLaws St}.
Abbreviation core := (Core St).
Abbreviation contents c := (cs_abs (core_store c)).
Context (ws : string) (ino : InodeRecord) (flat : list Z) (other : list Z -> Z) (n now : Z).
Hypothesis Hn : 0 <= n < 2 ^ 63.
Hypothesis Hgap : (n - 1) / CHUNK_SIZE * CHUNK_SIZE <= zlen flat.
Hypothesis Hlast : cs_distinct (block (resize_zero flat n) ((n - 1) / CHUNK_SIZE)).

Abbreviation required := ((n - 1) / CHUNK_SIZE + 1).
Abbreviation new_file := (resize_zero flat n).

(** The last block brought to its length. *)
Lemma truncate_last_run c ids blocks b k :
  store_ok (k + 1) c -> 0 <= k -> manifest (contents c) ids blocks -> 0 < n ->
  zlen blocks = required -> take (Z.to_nat (required - 1)) blocks = blocks_from new_file 0 (required - 1) ->
  blocks !! Z.to_nat (required - 1) = Some b ->
  resize_zero b (n - (required - 1) * CHUNK_SIZE) = block new_file (required - 1) ->
  exists ids' replaced c', truncate_last n required ids c = (Ok (ids', replaced), c')
    /\ store_step k (fun j => occurs j ids' + occurs j replaced - occurs j ids) c c'
    /\ (forall j, occurs j ids <= occurs j ids' + occurs j replaced)
    /\ manifest (contents c') ids' (blocks_from new_file 0 required).
Proof.
  intros Hok Hk Hm Hpos Hlen Htake Hb Hres. pose proof CHUNK_SIZE_pos.
  assert (1 <= required) by (pose proof (Z.div_pos (n - 1) CHUNK_SIZE); lia).
  destruct (required_bounds n Hpos) as [Hlo Hhi].
  destruct (manifest_lookup _ _ _ _ _ Hm Hb) as (id & Hid & Hst).
  destruct (on_store_read c id b (proj1 Hok) Hst) as (c1 & Hr & E1 & E2 & E3 & E4 & E5).
  assert (blocks_from new_file 0 required
    = take (Z.to_nat (required - 1)) blocks ++ [block new_file (required - 1)]) as Hblocks.
  { rewrite Htake. replace required with ((required - 1) + 1) at 1 by lia.
    by rewrite blocks_from_app by lia. }
  unfold truncate_last. rewrite (proj2 (Z.leb_gt _ _)) by lia. rewrite Hid.
  erewrite bind_ok by done. erewrite bind_ok by done.
  destruct (zlen b =? _) eqn:Hz.
  - apply Z.eqb_eq in Hz. exists ids, [], c1. split; [done|].
    split; [|split; [intros j; simpl; lia|]].
    + split; [done|done|split; [done|]| |].
      * apply E5. eapply cs_room_mono; [|apply Hok]. lia.
      * by rewrite E4.
      * intros j. rewrite E4. simpl. lia.
    + rewrite E4, Hblocks, <-Hres, <-Hz, resize_zero_id.
      rewrite <-(take_S_r _ _ _ Hb), take_ge; [done|unfold zlen in *; lia].
  - destruct (put_pinned_run c1 (block new_file (required - 1)) k) as (id' & c2 & Hp & H2 & Hs2).
    { split; [done|]. apply E5, Hok. }
    { by replace (required - 1) with ((n - 1) / CHUNK_SIZE) by lia. }
    { rewrite zlen_block by lia. apply block_len_bounds. } { done. }
    rewrite Hres. erewrite bind_ok by done.
    exists (<[Z.to_nat (required - 1) := id']> ids), [id], c2. split; [done|].
    pose proof (fun j => occurs_insert j ids _ id' id Hid) as Hocc.
    split; [|split].
    + destruct H2. split; [congruence|congruence|done|by rewrite <-E4|].
      intros j. rewrite ss_refs, E4. specialize (Hocc j). simpl in *. lia.
    + intros j. rewrite Hocc. simpl. case_bool_decide; lia.
    + rewrite Hblocks.
      pose proof (lookup_lt_Some _ _ _ Hid) as Hlt. pose proof (manifest_zlen _ _ _ Hm).
      rewrite (insert_take_drop ids) by done. rewrite (drop_ge ids) by (unfold zlen in *; lia).
      apply Forall2_app; [|by constructor].
      apply Forall2_take. eapply manifest_keeps; [apply H2|]. by rewrite E4.
Qed.

Lemma extension_distinct blocks :
  dense flat blocks -> 0 < n ->
  let kept := take (Z.to_nat required) blocks in
  zlen kept <= required <= zlen kept + 1
  /\ Forall cs_distinct (zero_blocks n (zlen kept) (required - zlen kept)).
Proof.
  intros Hd Hpos kept. pose proof CHUNK_SIZE_pos.
  assert (1 <= required) by (pose proof (Z.div_pos (n - 1) CHUNK_SIZE); lia).
  destruct (required_bounds n Hpos) as [Hlo Hhi].
  destruct (resize_blocks flat blocks n Hd Hpos Hgap) as (_ & _ & b & Hb & Hres & _).
  fold kept in Hb. assert (zlen kept <= required <= zlen kept + 1) as Hle.
  { unfold kept. rewrite zlen_take. destruct Hd as [_ Hd]. nia. }
  split; [done|]. unfold zero_blocks in *.
  destruct (decide (zlen kept = required)) as [Heq|Hne].
  - rewrite seqZ_nil by lia. constructor.
  - replace (required - zlen kept) with 1 in * by lia.
    rewrite lookup_app_r in Hb by (unfold zlen in *; lia).
    replace (Z.to_nat _ - length kept)%nat with 0%nat in Hb by (unfold zlen in *; lia).
    injection Hb as Hb. constructor; [|constructor]. rewrite Hb.
    replace ((n - 1) / CHUNK_SIZE) with (required - 1) in Hlast by lia.
    rewrite <-Hres in Hlast. replace (n - _) with (zlen b) in Hlast.
    + by rewrite resize_zero_id in Hlast.
    + rewrite <-Hb, zlen_replicate. replace (zlen kept) with (required - 1) by lia.
      unfold block_len, saturating_sub. lia.
Qed.

Lemma resize_run c :
  file_ok ws ino flat other c -> store_ok 2 c ->
  let kept := take (Z.to_nat required) (ino_chunks ino) in
  exists ids' replaced c',
    (let! chunks := foldM (truncate_extend n) kept (seqZ (zlen kept) (required - zlen kept)) in
     truncate_last n required chunks) c = (Ok (ids', replaced), c')
    /\ store_step 0 (fun j => occurs j ids' + occurs j replaced - occurs j kept) c c'
    /\ (forall j, occurs j kept <= occurs j ids' + occurs j replaced)
    /\ exists blocks', manifest (contents c') ids' blocks' /\ dense new_file blocks'.
Proof.
  intros [(blocks & Hm & Hd) _ _ _ _] Hok kept. pose proof CHUNK_SIZE_pos.
  destruct (decide (n = 0)) as [Hz|Hz].
  { pose proof (required_eq n) as Hq. rewrite (proj2 (Z.eqb_eq _ _) Hz) in Hq.
    exists [], [], c. unfold kept. rewrite <-Hq. simpl. split; [done|]. split; [|split].
    - eapply store_step_ext; [apply store_step_refl|simpl; lia].
      destruct Hok as [? Hr]. split; [done|]. eapply cs_room_mono; [|done]. lia.
    - simpl. lia.
    - exists []. split; [constructor|]. rewrite Hz. by split. }
  assert (0 < n) as Hpos by lia.
  destruct (resize_blocks flat blocks n Hd Hpos Hgap) as (Hlen & Htake & b & Hb & Hres & Hdn).
  destruct (extension_distinct blocks Hd Hpos) as [Hle Hdis].
  pose proof (manifest_zlen _ _ _ Hm) as Hzl.
  assert (zlen kept = zlen (take (Z.to_nat required) blocks)) as Hkl
    by (unfold kept; by rewrite !zlen_take, Hzl).
  rewrite <-Hkl in *. set (m := Z.to_nat (required - zlen kept)).
  replace (required - zlen kept) with (Z.of_nat m) in * by lia.
  destruct (extend_run m n c kept (zlen kept) (2 - Z.of_nat m)) as (new & c1 & Hr1 & H1 & Hm1);
    [|lia|done|].
  { destruct Hok as [? Hr]. split; [done|]. by replace (_ + _) with 2 by lia. }
  destruct (truncate_last_run c1 (kept ++ new)
    (take (Z.to_nat required) blocks ++ zero_blocks n (zlen kept) (Z.of_nat m)) b 0) as (ids' & rep & c2 & Hr2 & H2 & Hge & Hm2);
    [|lia| |done|exact Hlen|exact Htake|exact Hb|exact Hres|].
  { destruct (ss_ok _ _ _ _ H1) as [? Hr]. split; [done|]. eapply cs_room_mono; [|exact Hr]. lia. }
  { apply Forall2_app; [|done]. apply Forall2_take. eapply manifest_keeps; [apply H1|done]. }
  exists ids', rep, c2. split; [|split; [|split]].
  - change (truncate_extend n) with (@extend_zero St CS n). by erewrite bind_ok by done.
  - eapply store_step_ext; [by eapply store_step_trans|]. intros j. cbv beta.
    rewrite occurs_app. lia.
  - intros j. specialize (Hge j). rewrite occurs_app in Hge. pose proof (occurs_nonneg j new). lia.
  - by exists (blocks_from new_file 0 required).
Qed.

(** Truncation succeeds, the file is the resized one, and the reference
    counts follow the manifest exactly. *)
Lemma truncate_inode_run c :
  file_ok ws ino flat other c -> store_ok 2 c ->
  exists chunks row' c', truncate_inode ws ino n now c = (Ok tt, c')
    /\ file_ok ws (mkInode (ino_id ino) (ino_kind ino) n chunks) new_file other c'
    /\ store_ok 0 c' /\ keeps_content (contents c) (contents c')
    /\ core_db c' = with_inodes (<[ino_id ino := row']> (inodes (core_db c))) (core_db c).
Proof.
  intros Hf Hok.
  destruct (resize_run c Hf Hok) as (ids' & rep & c1 & Hr & H1 & Hge & blocks' & Hm' & Hd').
  set (kept := take (Z.to_nat required) (ino_chunks ino)) in *.
  set (removed := drop (Z.to_nat required) (ino_chunks ino)).
  assert (forall j, occurs j (ino_chunks ino) = occurs j kept + occurs j removed) as Hsplit.
  { intros j. rewrite <-(take_drop (Z.to_nat required) (ino_chunks ino)) at 1. apply occurs_app. }
  assert (file_ok ws ino flat (fun j => occurs j ids' + occurs j rep - occurs j kept + other j) c1)
    as Hf1.
  { destruct Hf as [(bl & Hm & Hd) ? Hrow Hrefs Hoth].
    split; [|done|by rewrite (ss_db _ _ _ _ H1)| |].
    - exists bl. split; [|done]. eapply manifest_keeps; [apply H1|done].
    - intros j. rewrite (ss_refs _ _ _ _ H1), Hrefs. lia.
    - intros j. specialize (Hge j). specialize (Hoth j). lia. }
  destruct (update_inode_run ws ino flat _ c1 n ids' now Hf1 Hn)
    as (c2 & row & Hu & Hst2 & Hdb & Hrow).
  destruct (unpin_all_run (removed ++ rep) c2 0) as (c3 & Hun & H3).
  { unfold store_ok. rewrite Hst2. apply H1. }
  { intros j. rewrite Hst2, (fo_refs _ _ _ _ _ Hf1), Hsplit, occurs_app.
    pose proof (occurs_nonneg j ids'). pose proof (fo_other _ _ _ _ _ Hf j). lia. }
  exists ids', row, c3. rewrite (ss_db _ _ _ _ H1) in Hdb.
  split; [|split; [split|split; [apply H3|split]]].
  - apply bind_ok_inv in Hr as (? & s1 & Hr1 & Hr2). unfold truncate_inode. rewrite required_eq.
    cbv zeta. do 2 erewrite bind_ok by done. cbn beta iota. by erewrite bind_ok by done.
  - exists blocks'. split; [|done]. eapply manifest_keeps; [apply H3|]. by rewrite Hst2.
  - simpl. symmetry. apply zlen_resize_zero. lia.
  - exists row. rewrite (ss_db _ _ _ _ H3), Hdb. simpl. by rewrite lookup_insert_eq.
  - intros j. rewrite (ss_refs _ _ _ _ H3), Hst2, (fo_refs _ _ _ _ _ Hf1), Hsplit, occurs_app.
    simpl. lia.
  - apply Hf.
  - etransitivity; [apply H1|]. rewrite <-Hst2. apply H3.
  - by rewrite (ss_db _ _ _ _ H3), Hdb.
Qed.
End Resize.
