(* ===== verification/View.v ===== *)
(** What a workspace sees of the database: its own rows and the shared,
    immutable layers.  Two databases that agree on a workspace's rows answer
    each of its queries alike. *)

From S2P Require Import Prelude Error RustStr PathPolicy ChunkStore Bytes ContentStore Tracker Core Layers Namespace.
#[local] Open Scope string_scope.
#[local] Open Scope list_scope.
#[local] Open Scope Z_scope.

(** ** Well-formed tables *)

(** The inode exists and belongs to the workspace. *)
Definition owned (ws : string) (id : Z) (d : Db) : Prop :=
  exists r, inodes d !! id = Some r /\ i_workspace r = ws.

(** Ids are handed out in sequence, and names, origins and hardlink promotions
    of a workspace lead to its own inodes. *)
Record db_ok (d : Db) : Prop := {
  ok_seq : forall id, is_Some (inodes d !! id) -> id <= inode_seq d;
  ok_entries : forall w p id, entries d !! (w, p) = Some (Some id) -> owned w id d;
  ok_origins : forall w o id, inode_origins d !! (w, o) = Some id -> owned w id d;
  ok_promotions : forall w k id, hardlink_promotions d !! (w, k) = Some id -> owned w id d }.

(** The tables that belong to no single workspace, and the layer bindings. *)
Definition shared (d : Db) :=
  (workspaces d, pairs d, proposals d, proposal_hardlinks d, bases d, base_entries d,
   dirty_layers d, dirty_entries d, workspace_layers d, overlay_templates d, tracker d).

(** [agree_on P]: the rows of the workspaces in [P] are the same. *)
Record agree_on (P : string -> Prop) (d d' : Db) : Prop := {
  ag_shared : shared d = shared d';
  ag_inodes : forall id r, P (i_workspace r) ->
    inodes d !! id = Some r <-> inodes d' !! id = Some r;
  ag_entries : forall w p, P w -> entries d !! (w, p) = entries d' !! (w, p);
  ag_origins : forall w o, P w -> inode_origins d !! (w, o) = inode_origins d' !! (w, o);
  ag_promotions : forall w k, P w ->
    hardlink_promotions d !! (w, k) = hardlink_promotions d' !! (w, k);
  ag_redirects : forall w p, P w -> redirects d !! (w, p) = redirects d' !! (w, p) }.

(** Nothing outside [ws] changed. *)
Definition others (ws : string) : Db -> Db -> Prop := agree_on (fun w => w <> ws).

(** Everything [ws] sees is the same: its rows, its layer binding and the rows
    of the two layers it is bound to. *)
Record agree (ws : string) (d d' : Db) : Prop := {
  av_binding : workspace_layers d !! ws = workspace_layers d' !! ws;
  av_layers : forall b dl, workspace_layers d !! ws = Some (b, dl) ->
    layer_rows b (base_entries d) = layer_rows b (base_entries d')
    /\ layer_rows dl (dirty_entries d) = layer_rows dl (dirty_entries d');
  av_inodes : forall id r, i_workspace r = ws ->
    inodes d !! id = Some r <-> inodes d' !! id = Some r;
  av_entries : forall p, entries d !! (ws, p) = entries d' !! (ws, p);
  av_origins : forall o, inode_origins d !! (ws, o) = inode_origins d' !! (ws, o);
  av_promotions : forall k, hardlink_promotions d !! (ws, k) = hardlink_promotions d' !! (ws, k);
  av_redirects : forall p, redirects d !! (ws, p) = redirects d' !! (ws, p) }.

#[export] Instance agree_preorder ws : PreOrder (agree ws).
Proof.
  split; [by split|]. intros a b c [] []. split; try congruence.
  - intros x y Hb. destruct (av_layers0 x y Hb) as [-> ->]. apply av_layers1. congruence.
  - intros id r Hr. by rewrite av_inodes0, av_inodes1.
Qed.

#[export] Instance agree_on_equiv P : Equivalence (agree_on P).
Proof.
  split.
  - intros d. by split.
  - intros d d' []. split; [done|..]; intros; symmetry; auto.
  - intros a b c Hab Hbc. split.
    + by rewrite (ag_shared _ _ _ Hab), (ag_shared _ _ _ Hbc).
    + intros id r Hr. by rewrite (ag_inodes _ _ _ Hab), (ag_inodes _ _ _ Hbc).
    + intros w p Hw. by rewrite (ag_entries _ _ _ Hab), (ag_entries _ _ _ Hbc).
    + intros w p Hw. by rewrite (ag_origins _ _ _ Hab), (ag_origins _ _ _ Hbc).
    + intros w p Hw. by rewrite (ag_promotions _ _ _ Hab), (ag_promotions _ _ _ Hbc).
    + intros w p Hw. by rewrite (ag_redirects _ _ _ Hab), (ag_redirects _ _ _ Hbc).
Qed.
#[export] Instance others_equiv ws : Equivalence (others ws).
Proof. apply _. Qed.

Lemma others_agree ws ws' d d' : others ws d d' -> ws' <> ws -> agree ws' d d'.
Proof.
  intros [Hs Hi He Ho Hp Hr] Hne. unfold shared in Hs. simplify_eq.
  split; [congruence|intros; split; congruence|..]; intros; subst; auto.
Qed.

(** ** Queries *)

Section Queries.
Context (ws : string) (d d' : Db).
Hypothesis (Hok : db_ok d) (Hok' : db_ok d') (Ha : agree ws d d').

Lemma agree_owned id : owned ws id d -> inodes d' !! id = inodes d !! id.
Proof. intros (r & Hr & Hw). rewrite Hr. by apply (av_inodes _ _ _ Ha). Qed.

Lemma agree_inode_of id :
  match inodes d !! id with
  | Some r => if bool_decide (i_workspace r = ws) then Some r else None
  | None => None end
  = match inodes d' !! id with
    | Some r => if bool_decide (i_workspace r = ws) then Some r else None
    | None => None end.
Proof.
  pose proof (av_inodes _ _ _ Ha id) as Hi.
  destruct (inodes d !! id) as [r|] eqn:H1; [case_bool_decide as Hw|].
  - pose proof (proj1 (Hi r Hw) eq_refl) as ->. by rewrite bool_decide_eq_true_2.
  - destruct (inodes d' !! id) as [r'|]; [|done]. case_bool_decide as Hw'; [|done].
    pose proof (proj2 (Hi r' Hw') eq_refl). congruence.
  - destruct (inodes d' !! id) as [r'|]; [|done]. case_bool_decide as Hw'; [|done].
    pose proof (proj2 (Hi r' Hw') eq_refl). congruence.
Qed.

Lemma agree_load_inode_for_id id : load_inode_for_id ws id d = load_inode_for_id ws id d'.
Proof.
  pose proof (agree_inode_of id) as H. unfold load_inode_for_id.
  destruct (inodes d !! id), (inodes d' !! id); repeat case_bool_decide; congruence.
Qed.

Lemma agree_load_inode_for_path p : load_inode_for_path ws p d = load_inode_for_path ws p d'.
Proof.
  unfold load_inode_for_path. rewrite <-(av_entries _ _ _ Ha) by done.
  destruct (entries d !! (ws, p)) as [[id|]|] eqn:He; [|done..].
  by rewrite (agree_owned id) by by eapply ok_entries.
Qed.

Lemma agree_load_inode_for_origin o :
  load_inode_for_origin ws o d = load_inode_for_origin ws o d'.
Proof.
  unfold load_inode_for_origin. rewrite <-(av_origins _ _ _ Ha) by done.
  destruct (inode_origins d !! (ws, o)) as [id|] eqn:He; [|done].
  by rewrite (agree_owned id) by by eapply ok_origins.
Qed.

Lemma agree_load_inode_for_hardlink_key k :
  load_inode_for_hardlink_key ws k d = load_inode_for_hardlink_key ws k d'.
Proof.
  unfold load_inode_for_hardlink_key. rewrite <-(av_promotions _ _ _ Ha) by done.
  destruct (hardlink_promotions d !! (ws, k)); [|done]. apply agree_load_inode_for_id.
Qed.

Lemma agree_workspace_entries : workspace_entries ws d = workspace_entries ws d'.
Proof.
  unfold workspace_entries. do 2 f_equal. apply map_filter_strong_ext. intros [w p] x. simpl.
  split; intros [-> H]; (split; [done|]); rewrite <-H; [symmetry|];
    by rewrite (av_entries _ _ _ Ha).
Qed.

Lemma agree_workspace_redirects : workspace_redirects ws d = workspace_redirects ws d'.
Proof.
  unfold workspace_redirects. do 2 f_equal. apply map_filter_strong_ext. intros [w p] x. simpl.
  split; intros [-> H]; (split; [done|]); rewrite <-H; [symmetry|];
    by rewrite (av_redirects _ _ _ Ha).
Qed.

Lemma agree_lookup_layers b dl p :
  workspace_layers d !! ws = Some (b, dl) -> lookup_layers b dl p d = lookup_layers b dl p d'.
Proof.
  intros Hb. destruct (av_layers _ _ _ Ha b dl Hb) as [H1 H2]. unfold lookup_layers.
  assert (forall id (t t' : gmap (string * string) LayerRow),
    layer_rows id t = layer_rows id t' -> t !! (id, p) = t' !! (id, p)) as Hrows.
  { intros id t t' Heq. apply option_eq. intros r.
    assert (forall u : gmap (string * string) LayerRow,
      layer_rows id u !! (id, p) = Some r <-> u !! (id, p) = Some r) as Hu.
    { intros u. unfold layer_rows. rewrite map_lookup_filter_Some. by split; [intros []|]. }
    by rewrite <-(Hu t), <-(Hu t'), Heq. }
  by rewrite (Hrows _ _ _ H1), (Hrows _ _ _ H2).
Qed.

Lemma agree_promoted_paths id : promoted_paths ws id d = promoted_paths ws id d'.
Proof.
  unfold promoted_paths. rewrite <-(av_binding _ _ _ Ha).
  destruct (workspace_layers d !! ws) as [[b dl]|] eqn:Hb; [|done]. do 2 f_equal.
  destruct (av_layers _ _ _ Ha b dl Hb) as [_ ->]. apply list_filter_iff. intros [[w p] r]. simpl.
  destruct (l_hardlink_key r) as [k|]; simpl; [|done]. by rewrite (av_promotions _ _ _ Ha).
Qed.

Lemma agree_load_metadata_for_inode id :
  load_metadata_for_inode ws id d = load_metadata_for_inode ws id d'.
Proof.
  unfold load_metadata_for_inode.
  assert (link_count ws id d = link_count ws id d') as ->.
  { unfold link_count. rewrite agree_promoted_paths, agree_workspace_entries. f_equal. f_equal.
    apply list_filter_iff. intros p. by rewrite (av_entries _ _ _ Ha). }
  pose proof (agree_inode_of id) as H.
  destruct (inodes d !! id), (inodes d' !! id); repeat case_bool_decide; congruence.
Qed.

Lemma agree_overlay_entry p : overlay_entry ws p d = overlay_entry ws p d'.
Proof.
  unfold overlay_entry. rewrite <-(av_entries _ _ _ Ha) by done.
  destruct (entries d !! (ws, p)) as [[id|]|]; [|done..]. apply agree_load_metadata_for_inode.
Qed.

Lemma agree_ancestor_tombstoned p : ancestor_tombstoned ws p d = ancestor_tombstoned ws p d'.
Proof.
  unfold ancestor_tombstoned. generalize (String.length p). intros n. revert p.
  induction n as [|n IH]; intros p; simpl; rewrite <-(av_entries _ _ _ Ha) by done; [done|].
  destruct (rsplit_once slash p) as [[q ?]|]; [|done]. by rewrite IH.
Qed.

Lemma agree_has_overlay_descendant p :
  has_overlay_descendant ws p d = has_overlay_descendant ws p d'.
Proof. unfold has_overlay_descendant. by rewrite agree_workspace_entries. Qed.

Lemma agree_translate_redirect p : translate_redirect ws p d = translate_redirect ws p d'.
Proof. unfold translate_redirect. by rewrite agree_workspace_redirects. Qed.

Lemma agree_pristine_overlay : pristine_overlay ws d = pristine_overlay ws d'.
Proof. unfold pristine_overlay. by rewrite agree_workspace_entries, agree_workspace_redirects. Qed.

Lemma agree_touched_names p : touched_names ws p d = touched_names ws p d'.
Proof. unfold touched_names. by rewrite agree_workspace_entries, agree_workspace_redirects. Qed.
End Queries.

(** ** Read-only actions *)

Create HintDb same.

Section Same.
Context {St : Type} {CS : ContentStore St}.
Context (blake3 : list Z -> list Z).
Abbreviation core := (Core St).
Context (ws : string).

(** [same m]: [m] changes nothing and answers alike on agreeing states. *)
Definition same {A} (m : action Error core A) : Prop :=
  forall c c' : core, db_ok (core_db c) -> db_ok (core_db c') ->
    agree ws (core_db c) (core_db c') -> exists r, m c = (r, c) /\ m c' = (r, c').

Lemma same_lift {A} (r : result A) : same (lift r).
Proof. intros c c' ???. by exists r. Qed.
Lemma same_ret {A} (a : A) : same (ret a).
Proof. intros c c' ???. by eexists. Qed.
Lemma same_throw {A} e : same (@throw _ _ A e).
Proof. intros c c' ???. by eexists. Qed.
Lemma same_guard b e : same (guard b e).
Proof. destruct b; [apply same_ret|apply same_throw]. Qed.
Lemma same_ok_or {A} (o : option A) e : same (ok_or o e).
Proof. destruct o; [apply same_ret|apply same_throw]. Qed.

Lemma same_query {A} (f : Db -> A) :
  (forall d d', db_ok d -> db_ok d' -> agree ws d d' -> f d = f d') -> same (query f).
Proof.
  intros Hf c c' H1 H2 H3. exists (Ok (f (core_db c))). split; [done|].
  unfold query, gets. by rewrite (Hf _ _ H1 H2 H3).
Qed.

Lemma same_bind {A B} (m : action Error core A) (k : A -> action Error core B) :
  same m -> (forall a, same (k a)) -> same (bind m k).
Proof.
  intros Hm Hk c c' H1 H2 H3. destruct (Hm c c' H1 H2 H3) as (r & E1 & E2).
  unfold bind. rewrite E1, E2. destruct r as [a|e|]; [by apply Hk|by eexists..].
Qed.

Lemma same_foldM {A B} (f : B -> A -> action Error core B) l b :
  (forall b a, same (f b a)) -> same (foldM f b l).
Proof.
  intros Hf. revert b. induction l as [|a l IH]; intros b; simpl; [apply same_ret|].
  by apply same_bind.
Qed.

(** Open an action and prove each step read-only. *)
Ltac same_step :=
  match goal with
  | |- same (bind _ _) => apply same_bind; [|intros ?]
  | |- same (ret _) => apply same_ret
  | |- same (throw _) => apply same_throw
  | |- same (guard _ _) => apply same_guard
  | |- same (ok_or _ _) => apply same_ok_or
  | |- same (lift _) => apply same_lift
  | |- same (foldM _ _ _) => apply same_foldM; intros ??
  | |- same (query _) => apply same_query; intros ?? ?? Hagree
  | |- same (match ?x with _ => _ end) => destruct x
  | |- same (if ?b then _ else _) => destruct b
  end.
Ltac same_tac := repeat (same_step; try done).

(** Queries that go through the layer binding. *)
Lemma same_bound {A} (f : string -> string -> Db -> A) :
  (forall b dl d d', workspace_layers d !! ws = Some (b, dl) -> agree ws d d' ->
     f b dl d = f b dl d') ->
  same (let! (b, dl) := layers_of ws in query (f b dl)).
Proof.
  intros Hf c c' H1 H2 H3. unfold layers_of, query, gets, ok_or, bind, ret, throw.
  pose proof (av_binding _ _ _ H3) as Hb. rewrite <-Hb.
  destruct (workspace_layers (core_db c) !! ws) as [[b dl]|] eqn:Hl; [|by eexists].
  eexists. split; [done|]. by rewrite (Hf b dl (core_db c) (core_db c')).
Qed.

Lemma same_lookup p : same (lookup ws p).
Proof.
  apply (same_bound (fun b dl => lookup_layers b dl p)). intros b dl d d' Hb Ha.
  by apply (agree_lookup_layers ws).
Qed.

Lemma same_list_entries p : same (list_entries ws p).
Proof.
  apply (same_bound (fun b dl d => foldl add_child (foldl add_child ∅
    (children (base_entries d) b p)) (children (dirty_entries d) dl p))).
  intros b dl d d' Hb Ha. unfold children.
  by destruct (av_layers _ _ _ Ha b dl Hb) as [-> ->].
Qed.

Lemma same_has_descendant p : same (has_descendant ws p).
Proof.
  apply (same_bound (fun b dl d => any_path_like (base_entries d) b (descendant_pattern p)
    || any_path_like (dirty_entries d) dl (descendant_pattern p))).
  intros b dl d d' Hb Ha. unfold any_path_like.
  by destruct (av_layers _ _ _ Ha b dl Hb) as [-> ->].
Qed.

Lemma same_promoted key :
  same (query (fun d => match key with
    | Some key => load_inode_for_hardlink_key ws key d | None => None end)).
Proof. apply same_query. intros. destruct key; [by apply agree_load_inode_for_hardlink_key|done]. Qed.

Hint Resolve agree_load_inode_for_id agree_load_inode_for_path agree_load_inode_for_origin
  agree_load_inode_for_hardlink_key agree_load_metadata_for_inode agree_overlay_entry
  agree_ancestor_tombstoned agree_has_overlay_descendant agree_translate_redirect
  agree_pristine_overlay agree_touched_names : same.
Hint Resolve same_lookup same_has_descendant same_list_entries same_promoted : same.
Ltac same_auto := repeat first [solve [eauto with same] | same_step; try done].

Lemma same_metadata_at p : same (metadata_at blake3 ws p).
Proof. unfold metadata_at. same_auto. Qed.

Lemma same_metadata p : same (metadata blake3 ws p).
Proof. unfold metadata. same_auto. apply same_metadata_at. Qed.

Lemma same_resolve_inode p : same (resolve_inode ws p).
Proof. unfold resolve_inode. same_auto. Qed.

Lemma same_ensure_parent_directory p : same (ensure_parent_directory blake3 ws p).
Proof. unfold ensure_parent_directory. same_auto. apply same_metadata. Qed.

Lemma same_read_dir p : same (read_dir blake3 ws p).
Proof.
  unfold read_dir. same_auto; try apply same_metadata. unfold layer_child_metadata. same_auto.
Qed.
End Same.
