(* ===== verification/Isolation.v ===== *)
(** Workspaces do not interfere: every operation of one workspace keeps the
    tables well formed and leaves every row of every other workspace, the
    immutable layers and all stored content as they were. *)

From S2P Require Import Prelude Error RustStr PathPolicy ChunkStore Bytes ContentStore Tracker Core Layers Namespace FileContent View.
#[local] Open Scope string_scope.
#[local] Open Scope list_scope.
#[local] Open Scope Z_scope.

Section Isolation.
Context {St : Type} {CS : ContentStore St} {CL : ContentStoreLaws St}.
Context (blake3 : list Z -> list Z) (ws : string).
Abbreviation core := (Core St).
Abbreviation WS := (action Error core).
Abbreviation contents c := (cs_abs (core_store c)).

Definition good (c : core) : Prop := db_ok (core_db c) /\ cs_inv (core_store c).

(** What an operation of [ws] may do to the rest of the state. *)
Record frame (c c' : core) : Prop := {
  fr_others : others ws (core_db c) (core_db c');
  fr_content : keeps_content (contents c) (contents c');
  fr_promoted : forall w o, w <> ws ->
    promoted_origins c !! (w, o) = promoted_origins c' !! (w, o) }.

(** The same, with every inode of [ws] still there. *)
Definition frame_own (c c' : core) : Prop :=
  frame c c' /\ forall id, owned ws id (core_db c) -> owned ws id (core_db c').

#[export] Instance frame_preorder : PreOrder frame.
Proof.
  split; [by split|]. intros a b c [] []. split; [by etransitivity|by etransitivity|].
  intros w o Hw. by rewrite fr_promoted0, fr_promoted1.
Qed.
#[export] Instance frame_own_preorder : PreOrder frame_own.
Proof. split; [by split|]. intros a b c [] []. split; [by etransitivity|auto]. Qed.

(** [triple R P m Q]: from a good state in [P], whatever the exit, [m] ends in
    a good state related by [R], and in [Q] on success. *)
Definition triple (R : core -> core -> Prop) {A} (P : core -> Prop) (m : WS A)
    (Q : A -> core -> Prop) : Prop :=
  forall c r c', good c -> P c -> m c = (r, c') ->
    good c' /\ R c c' /\ forall a, r = Ok a -> Q a c'.

Section Rules.
Context (R : core -> core -> Prop) `{!PreOrder R}.

Lemma triple_conseq {A} (P P' : core -> Prop) (m : WS A) (Q Q' : A -> core -> Prop) :
  triple R P m Q -> (forall c, good c -> P' c -> P c) -> (forall a c, Q a c -> Q' a c) ->
  triple R P' m Q'.
Proof. intros Hm HP HQ c r c' Hg Hp Hr. destruct (Hm c r c') as (? & ? & ?); auto. Qed.

Lemma triple_ret {A} (P : core -> Prop) (a : A) (Q : A -> core -> Prop) :
  (forall c, good c -> P c -> Q a c) -> triple R P (ret a) Q.
Proof. intros HQ c r c' Hg Hp [= <- <-]. split_and!; [done|done|]. intros ? [= <-]. auto. Qed.

Lemma triple_throw {A} P e (Q : A -> core -> Prop) : triple R P (throw e) Q.
Proof. intros c r c' Hg Hp [= <- <-]. by split_and!. Qed.

Lemma triple_bind {A B} P (m : WS A) (k : A -> WS B) Q Q' :
  triple R P m Q -> (forall a, triple R (Q a) (k a) Q') -> triple R P (bind m k) Q'.
Proof.
  intros Hm Hk c r c' Hg Hp. unfold bind. destruct (m c) as [r1 c1] eqn:H1.
  destruct (Hm c r1 c1 Hg Hp H1) as (Hg1 & HR1 & HQ1). destruct r1 as [a|e|].
  - intros H2. destruct (Hk a c1 r c' Hg1 (HQ1 a eq_refl) H2) as (Hg2 & HR2 & HQ2).
    split_and!; [done|by etransitivity|done].
  - intros [= <- <-]. by split_and!.
  - intros [= <- <-]. by split_and!.
Qed.

(** Actions that do not change the state. *)
Lemma triple_same {A} w P (m : WS A) : same w m -> triple R P m (fun _ => P).
Proof.
  intros Hs c r c' Hg Hp Hm. destruct (Hs c c) as (r0 & H0 & _); [apply Hg..|done|].
  rewrite H0 in Hm. injection Hm as <- <-. by split_and!.
Qed.

Lemma triple_query {A} P (f : Db -> A) :
  triple R P (query f) (fun a c => P c /\ a = f (core_db c)).
Proof.
  intros c r c' Hg Hp [= <- <-]. split_and!; [done..|]. by intros a [= <-].
Qed.

Lemma triple_guard P (b : bool) e : triple R P (guard b e) (fun _ c => P c /\ b = true).
Proof. destruct b; [by apply triple_ret|apply triple_throw]. Qed.

Lemma triple_ok_or {A} P (o : option A) e :
  triple R P (ok_or o e) (fun a c => P c /\ o = Some a).
Proof. destruct o; [by apply triple_ret|apply triple_throw]. Qed.

Lemma triple_frame {A} P (F : core -> Prop) (m : WS A) Q :
  (forall c c', R c c' -> F c -> F c') -> triple R P m Q ->
  triple R (fun c => P c /\ F c) m (fun a c => Q a c /\ F c).
Proof.
  intros HF Hm c r c' Hg [Hp Hf] Hr. destruct (Hm c r c' Hg Hp Hr) as (? & HR & ?).
  split_and!; [done..|]. intros. split; [auto|]. by apply (HF _ _ HR).
Qed.

Lemma triple_foldM {A B} P (f : B -> A -> WS B) l b :
  (forall b a, a ∈ l -> triple R P (f b a) (fun _ => P)) ->
  triple R P (foldM f b l) (fun _ => P).
Proof.
  revert b. induction l as [|a l IH]; intros b Hf; simpl; [by apply triple_ret|].
  eapply triple_bind; [apply Hf; by left|]. intros b'. apply IH. intros. apply Hf. by right.
Qed.

Lemma triple_forM {A} P (f : A -> WS unit) l :
  (forall a, a ∈ l -> triple R P (f a) (fun _ => P)) ->
  triple R P (forM l f) (fun _ => P).
Proof. intros Hf. apply triple_foldM. intros _ a Ha. by apply Hf. Qed.

Lemma triple_mapM {A B} P (f : A -> WS B) l :
  (forall a, triple R P (f a) (fun _ => P)) -> triple R P (mapM f l) (fun _ => P).
Proof.
  intros Hf. induction l as [|a l IH]; simpl; [by apply triple_ret|].
  eapply triple_bind; [apply Hf|]. intros b.
  eapply triple_bind; [apply IH|]. intros bs. by apply triple_ret.
Qed.

Lemma triple_and {A} P (m : WS A) Q1 Q2 :
  triple R P m Q1 -> triple R P m Q2 -> triple R P m (fun a c => Q1 a c /\ Q2 a c).
Proof.
  intros H1 H2 c r c' Hg Hp Hr. destruct (H1 c r c' Hg Hp Hr) as (? & ? & ?).
  destruct (H2 c r c' Hg Hp Hr) as (_ & _ & ?). split_and!; auto.
Qed.
End Rules.

Lemma triple_weak {A} P (m : WS A) Q : triple frame_own P m Q -> triple frame P m Q.
Proof. intros Hm c r c' Hg Hp Hr. destruct (Hm c r c' Hg Hp Hr) as (? & [] & ?). auto. Qed.

(** A failed transaction keeps what the body did to the chunk store. *)
Lemma triple_transact {A} P (m : WS A) Q : triple frame P m Q -> triple frame P (transact m) Q.
Proof.
  intros Hm c r c' Hg Hp. unfold transact. destruct (m c) as [r1 c1] eqn:H1.
  destruct (Hm c r1 c1 Hg Hp H1) as (Hg1 & [] & HQ1).
  destruct r1 as [a|e|]; intros [= <- <-]; [done|..].
  - split_and!; [split; [apply Hg|apply Hg1]|by split|done].
  - split_and!; [split; [apply Hg|apply Hg1]|by split|done].
Qed.
Lemma triple_transact_own {A} P (m : WS A) Q :
  triple frame_own P m Q -> triple frame_own P (transact m) Q.
Proof.
  intros Hm c r c' Hg Hp Hr. destruct (triple_transact P m Q (triple_weak _ _ _ Hm) c r c' Hg Hp Hr)
    as (Hg' & Hfr & HQ). split_and!; [done| |done]. split; [done|]. intros id Hid.
  unfold transact in Hr. destruct (m c) as [r1 c1] eqn:H1.
  destruct (Hm c r1 c1 Hg Hp H1) as (_ & [_ Ho] & _).
  destruct r1; injection Hr as <- <-; [by apply Ho|done..].
Qed.

Definition anything (c : core) : Prop := True.
Abbreviation op_ok m := (triple frame_own anything m (fun _ => anything)).

(** What stays true while inodes of [ws] stay. *)
Definition stable (P : core -> Prop) : Prop := forall c c', frame_own c c' -> P c -> P c'.

Lemma triple_stable {A} P (m : WS A) Q :
  stable P -> triple frame_own anything m Q ->
  triple frame_own P m (fun a c => Q a c /\ P c).
Proof.
  intros HP Hm. eapply triple_conseq; [by apply (triple_frame frame_own anything P)| |done].
  intros c _ Hp. by split.
Qed.

Lemma triple_keep {A} P (m : WS A) Q :
  stable P -> triple frame_own P m Q -> triple frame_own P m (fun _ => P).
Proof.
  intros HP Hm c r c' Hg Hp Hr. destruct (Hm c r c' Hg Hp Hr) as (H1 & H2 & _).
  split_and!; [done..|]. intros _ _. by eapply HP.
Qed.
Lemma op_keep {A} P (m : WS A) : stable P -> op_ok m -> triple frame_own P m (fun _ => P).
Proof. intros HP Hm. eapply triple_keep; [done|]. by eapply triple_conseq. Qed.

Lemma triple_any {A} R P (m : WS A) Q : triple R anything m Q -> triple R P m Q.
Proof. intros Hm c r c' Hg _. by apply Hm. Qed.

Lemma stable_owned id : stable (fun c => owned ws id (core_db c)).
Proof. intros c c' [_ Ho]. apply Ho. Qed.
Lemma stable_anything : stable anything.
Proof. done. Qed.

(** ** The chunk store *)

Lemma op_on_store {A} (m : action Error St A) :
  (forall s r s', cs_inv s -> m s = (r, s') ->
     cs_inv s' /\ keeps_content (cs_abs s) (cs_abs s')) ->
  op_ok (on_store m).
Proof.
  intros Hm c r c' [Hd Hi] _. unfold on_store, zoom.
  destruct (m (core_store c)) as [r1 s1] eqn:H1. intros [= <- <-].
  destruct (Hm _ _ _ Hi H1). by split_and!.
Qed.

Lemma op_read id : op_ok (on_store (cs_read id)).
Proof.
  apply op_on_store. intros s r s' Hi Hr.
  destruct (cs_read_law s id Hi) as (s1 & Hr1 & Hi1 & Ha & _). rewrite Hr1 in Hr.
  injection Hr as _ <-. by rewrite Ha.
Qed.

Lemma keeps_insert (m : content_map) id b n n' :
  m !! id = Some (b, n) -> keeps_content m (<[id := (b, n')]> m).
Proof.
  intros Hm j b' [k Hk]. unfold stored_as. destruct (decide (j = id)) as [->|Hne].
  - rewrite lookup_insert_eq. rewrite Hm in Hk. injection Hk as -> _. eauto.
  - rewrite lookup_insert_ne by done. eauto.
Qed.

Lemma op_pin id : op_ok (on_store (cs_pin id)).
Proof.
  apply op_on_store. intros s r s' Hi Hr. pose proof (cs_pin_law s id Hi) as Hp.
  destruct (cs_abs s !! id) as [[b n]|] eqn:Hn.
  - destruct Hp as (s1 & Hp & Hi1 & Ha & _). rewrite Hp in Hr. injection Hr as _ <-.
    split; [done|]. rewrite Ha. by eapply keeps_insert.
  - destruct Hp as [e Hp]. rewrite Hp in Hr. by injection Hr as _ <-.
Qed.

Lemma op_unpin id : op_ok (on_store (cs_unpin id)).
Proof.
  apply op_on_store. intros s r s' Hi Hr. pose proof (cs_unpin_law s id Hi) as Hp.
  destruct (cs_abs s !! id) as [[b n]|] eqn:Hn; [destruct (0 <? n)|].
  - destruct Hp as (s1 & Hp & Hi1 & Ha & _). rewrite Hp in Hr. injection Hr as _ <-.
    split; [done|]. rewrite Ha. by eapply keeps_insert.
  - destruct Hp as [e Hp]. rewrite Hp in Hr. by injection Hr as _ <-.
  - destruct Hp as [e Hp]. rewrite Hp in Hr. by injection Hr as _ <-.
Qed.

Lemma op_put b : op_ok (on_store (cs_put b)).
Proof.
  apply op_on_store. intros s r s' Hi Hr. destruct (cs_put_any s b r s' Hi Hr) as (Hi' & Ha & _).
  split; [done|]. destruct Ha as [->|(id & Hn & ->)]; [done|].
  intros j b' [k Hk]. exists k. by rewrite lookup_insert_ne by congruence.
Qed.

Lemma op_put_stream b : op_ok (on_store (cs_put_stream b)).
Proof.
  apply op_on_store. intros s r s' Hi Hr. destruct (cs_stream_any s b r s' Hi Hr) as (Hi' & Ha & _).
  split; [done|]. intros j b' [k Hk]. exists k. by apply Ha.
Qed.

Lemma op_bind {A B} (m : WS A) (k : A -> WS B) :
  op_ok m -> (forall a, op_ok (k a)) -> op_ok (bind m k).
Proof. intros Hm Hk. by eapply triple_bind; [apply _|exact Hm|]. Qed.
Lemma op_ret {A} (a : A) : op_ok (ret a).
Proof. by apply triple_ret; [apply _|]. Qed.
Lemma op_throw {A} e : op_ok (@throw _ _ A e).
Proof. apply triple_throw, _. Qed.
Lemma op_panic {A} : op_ok (@panic _ _ A).
Proof. intros c r c' Hg Hp [= <- <-]. by split_and!. Qed.
Lemma op_guard b e : op_ok (guard b e).
Proof. destruct b; [apply op_ret|apply op_throw]. Qed.
Lemma op_ok_or {A} (o : option A) e : op_ok (ok_or o e).
Proof. destruct o; [apply op_ret|apply op_throw]. Qed.
Lemma op_unwrap {A} (o : option A) : op_ok (unwrap o).
Proof. destruct o; [apply op_ret|apply op_panic]. Qed.
Lemma op_lift {A} (r : result A) : op_ok (lift r).
Proof. intros c r' c' Hg Hp [= <- <-]. by split_and!. Qed.
Lemma op_gets {A} (f : core -> A) : op_ok (gets f).
Proof. intros c r' c' Hg Hp [= <- <-]. by split_and!. Qed.
Lemma op_same {A} w (m : WS A) : same w m -> op_ok m.
Proof. apply triple_same, _. Qed.
Lemma op_foldM {A B} (f : B -> A -> WS B) l b : (forall b a, op_ok (f b a)) -> op_ok (foldM f b l).
Proof. intros Hf. apply triple_foldM; [apply _|]. intros; apply Hf. Qed.
Lemma op_forM {A} (f : A -> WS unit) l : (forall a, op_ok (f a)) -> op_ok (forM l f).
Proof. intros Hf. apply triple_forM; [apply _|]. intros; apply Hf. Qed.
Lemma op_mapM {A B} (f : A -> WS B) l : (forall a, op_ok (f a)) -> op_ok (mapM f l).
Proof. intros Hf. apply triple_mapM; [apply _|]. intros; apply Hf. Qed.
Lemma op_transact {A} (m : WS A) : op_ok m -> op_ok (transact m).
Proof. apply triple_transact_own. Qed.

(** ** Row changes *)

Definition row_step (d d' : Db) : Prop :=
  db_ok d' /\ others ws d d' /\ forall id, owned ws id d -> owned ws id d'.

Lemma triple_execute P f :
  (forall c, good c -> P c -> row_step (core_db c) (f (core_db c))) ->
  triple frame_own P (execute f) (fun _ => anything).
Proof.
  intros Hf c r c' Hg Hp [= <- <-]. destruct (Hf c Hg Hp) as (H1 & H2 & H3).
  split_and!; [split; [done|apply Hg]|by split|done].
Qed.

Lemma row_set_inode d id r r' :
  db_ok d -> inodes d !! id = Some r -> i_workspace r = ws -> i_workspace r' = ws ->
  row_step d (with_inodes (<[id := r']> (inodes d)) d).
Proof.
  intros [] Hr Hw Hw'. set (d' := with_inodes _ d).
  assert (forall w i, owned w i d -> owned w i d') as Ho.
  { intros w i (q & Hq & Hqw). unfold owned, d'. simpl. destruct (decide (i = id)) as [->|Hne].
    - rewrite lookup_insert_eq. exists r'. split; [done|]. congruence.
    - rewrite lookup_insert_ne by done. eauto. }
  split_and!; [split|split|auto]; try done; simpl; eauto.
  - intros i Hi. apply ok_seq. destruct (decide (i = id)) as [->|Hne]; [by eexists|].
    by rewrite lookup_insert_ne in Hi by done.
  - intros i q Hq. destruct (decide (i = id)) as [->|Hne].
    + rewrite lookup_insert_eq, Hr. split; intros [= <-]; congruence.
    + by rewrite lookup_insert_ne by done.
Qed.

Lemma row_new_inode d r :
  db_ok d -> i_workspace r = ws ->
  let d' := with_inode_seq (inode_seq d + 1)
    (with_inodes (<[inode_seq d + 1 := r]> (inodes d)) d) in
  row_step d d' /\ owned ws (inode_seq d + 1) d'.
Proof.
  intros [] Hw d'.
  assert (inodes d !! (inode_seq d + 1) = None) as Hnew.
  { apply eq_None_not_Some. intros H%ok_seq. lia. }
  assert (forall w i, owned w i d -> owned w i d') as Ho.
  { intros w i (q & Hq & Hqw). exists q. unfold d'. simpl. by rewrite lookup_insert_ne by congruence. }
  split; [split_and!; [split|split|auto]; try done; simpl; eauto|].
  - intros i Hi. destruct (decide (i = inode_seq d + 1)) as [->|Hne]; [lia|].
    rewrite lookup_insert_ne in Hi by done. apply ok_seq in Hi. lia.
  - intros i q Hq. destruct (decide (i = inode_seq d + 1)) as [->|Hne].
    + rewrite lookup_insert_eq, Hnew. split; [done|]. intros [= <-]. congruence.
    + by rewrite lookup_insert_ne by done.
  - exists r. unfold d'. simpl. by rewrite lookup_insert_eq.
Qed.

Lemma row_set_entry d p x :
  db_ok d -> (forall id, x = Some id -> owned ws id d) ->
  row_step d (with_entries (<[(ws, p) := x]> (entries d)) d).
Proof.
  intros [] Hx. split_and!; [split|split|]; try done; simpl.
  - intros w q id. destruct (decide ((w, q) = (ws, p))) as [[= -> ->]|Hne].
    + rewrite lookup_insert_eq. intros [= ->]. by apply Hx.
    + rewrite lookup_insert_ne by done. apply ok_entries.
  - intros w q Hw. rewrite lookup_insert_ne by congruence. done.
Qed.

Lemma row_delete_entry d p :
  db_ok d -> row_step d (with_entries (delete (ws, p) (entries d)) d).
Proof.
  intros []. split_and!; [split|split|]; try done; simpl.
  - intros w q id [_ H]%lookup_delete_Some. by eapply ok_entries.
  - intros w q Hw. rewrite lookup_delete_ne by congruence. done.
Qed.

Lemma row_set_origin d o id :
  db_ok d -> owned ws id d ->
  row_step d (with_inode_origins (<[(ws, o) := id]> (inode_origins d)) d).
Proof.
  intros [] Hx. split_and!; [split|split|]; try done; simpl.
  - intros w q i. destruct (decide ((w, q) = (ws, o))) as [[= -> ->]|Hne].
    + rewrite lookup_insert_eq. by intros [= ->].
    + rewrite lookup_insert_ne by done. apply ok_origins.
  - intros w q Hw. rewrite lookup_insert_ne by congruence. done.
Qed.

Lemma row_set_promotion d k id :
  db_ok d -> owned ws id d ->
  row_step d (with_hardlink_promotions (<[(ws, k) := id]> (hardlink_promotions d)) d).
Proof.
  intros [] Hx. split_and!; [split|split|]; try done; simpl.
  - intros w q i. destruct (decide ((w, q) = (ws, k))) as [[= -> ->]|Hne].
    + rewrite lookup_insert_eq. by intros [= ->].
    + rewrite lookup_insert_ne by done. apply ok_promotions.
  - intros w q Hw. rewrite lookup_insert_ne by congruence. done.
Qed.

Lemma row_set_redirect d p q :
  db_ok d -> row_step d (with_redirects (<[(ws, p) := q]> (redirects d)) d).
Proof.
  intros []. split_and!; [split|split|]; try done; simpl.
  intros w x Hw. rewrite lookup_insert_ne by congruence. done.
Qed.

Lemma row_journal d j n :
  db_ok d -> row_step d (with_journal_seq n (with_journal j d)) /\ row_step d (with_journal j d).
Proof. intros []. split; (split_and!; [split|split|]); done. Qed.

(** ** Operations on rows *)

Lemma op_update_inode id size chunks now : op_ok (update_inode ws id size chunks now).
Proof.
  unfold update_inode. eapply triple_bind; [apply _|apply triple_query, _|].
  intros [r|]; [|apply triple_throw, _].
  eapply triple_bind; [apply _|apply triple_guard, _|]. intros ?.
  eapply triple_bind; [apply _|apply triple_guard, _|]. intros ?.
  apply triple_execute. intros c [Hd _] [[[_ Hr] Hw%bool_decide_eq_true] _].
  by eapply row_set_inode.
Qed.

Lemma op_set_inode_metadata id m a t now : op_ok (set_inode_metadata ws id m a t now).
Proof.
  unfold set_inode_metadata. eapply triple_bind; [apply _|apply triple_query, _|].
  intros [r|]; [|apply triple_throw, _].
  eapply triple_bind; [apply _|apply triple_guard, _|]. intros ?.
  apply triple_execute. intros c [Hd _] [[_ Hr] Hw%bool_decide_eq_true].
  by eapply row_set_inode.
Qed.

Lemma op_begin_journal o x : op_ok (begin_namespace_journal ws o x).
Proof.
  unfold begin_namespace_journal. eapply triple_bind; [apply _|apply triple_query, _|].
  intros n. eapply triple_bind; [apply _|apply triple_guard, _|]. intros ?.
  eapply triple_bind; [apply _| |intros ?; apply op_ret].
  apply triple_execute. intros c [Hd _] _. by apply row_journal.
Qed.

Lemma op_complete_journal j : op_ok (complete_namespace_journal j).
Proof.
  unfold complete_namespace_journal. eapply triple_bind; [apply _|apply triple_query, _|].
  intros n. eapply triple_bind; [apply _|apply triple_guard, _|]. intros ?.
  apply triple_execute. intros c [Hd _] _. by apply row_journal.
Qed.

Lemma op_insert_inode kind mode size modified chunks :
  triple frame_own anything (insert_inode ws kind mode size modified chunks)
    (fun id c => owned ws id (core_db c)).
Proof.
  intros c r c' [Hd Hi] _. unfold insert_inode, query, gets, guard, execute, modify, bind.
  cbn -[row_new_inode]. destruct (_ && _ && _); intros [= <- <-]; [|by split_and!].
  destruct (row_new_inode (core_db c) (mkInodeRow ws kind mode size modified modified modified chunks)
    Hd eq_refl) as ((H1 & H2 & H3) & H4).
  split_and!; [by split|by split|]. by intros a [= <-].
Qed.

Lemma op_insert_entry p id :
  triple frame_own (fun c => owned ws id (core_db c)) (insert_entry ws p id) (fun _ => anything).
Proof.
  unfold insert_entry. eapply triple_bind; [apply _|apply triple_query, _|].
  intros d. eapply triple_bind; [apply _|apply triple_guard, _|]. intros ?.
  apply triple_execute. intros c [Hd _] [[Ho _] _]. apply row_set_entry; [done|].
  by intros ? [= <-].
Qed.

Lemma op_insert_tombstone p : op_ok (insert_tombstone ws p).
Proof.
  unfold insert_tombstone. eapply triple_bind; [apply _|apply triple_query, _|].
  intros d. eapply triple_bind; [apply _|apply triple_guard, _|]. intros ?.
  apply triple_execute. intros c [Hd _] _. by apply row_set_entry.
Qed.

Lemma op_insert_origin o id :
  triple frame_own (fun c => owned ws id (core_db c)) (insert_origin ws o id) (fun _ => anything).
Proof.
  unfold insert_origin. eapply triple_bind; [apply _|apply triple_query, _|].
  intros m. eapply triple_bind; [apply _|apply triple_guard, _|]. intros ?.
  apply triple_execute. intros c [Hd _] [[Ho _] _]. by apply row_set_origin.
Qed.

Lemma op_insert_promotion k id :
  triple frame_own (fun c => owned ws id (core_db c)) (insert_promotion ws k id)
    (fun _ => anything).
Proof.
  unfold insert_promotion. eapply triple_bind; [apply _|apply triple_query, _|].
  intros m. eapply triple_bind; [apply _|apply triple_guard, _|]. intros ?.
  apply triple_execute. intros c [Hd _] [[Ho _] _]. by apply row_set_promotion.
Qed.

Lemma op_remember_promotion o id : op_ok (remember_promotion ws o id).
Proof.
  intros c r c' [Hd Hi] _ [= <- <-]. split_and!; [done| |done]. split; [|done].
  split; [done|done|]. intros w q Hw. simpl. by rewrite lookup_insert_ne by congruence.
Qed.

(** ** File content *)

Create HintDb iso.
Hint Resolve op_read op_pin op_unpin op_put op_put_stream op_update_inode
  op_set_inode_metadata op_begin_journal op_complete_journal op_insert_tombstone
  op_remember_promotion op_ret op_throw op_panic op_guard op_ok_or op_unwrap op_lift
  op_gets : iso.
Ltac op_step :=
  match goal with
  | |- triple _ _ (bind _ _) _ => apply op_bind; [|intros ?]
  | |- triple _ _ (forM _ _) _ => apply op_forM; intros ?
  | |- triple _ _ (foldM _ _ _) _ => apply op_foldM; intros ??
  | |- triple _ _ (mapM _ _) _ => apply op_mapM; intros ?
  | |- triple _ _ (transact _) _ => apply op_transact
  | |- triple _ _ (query _) _ => apply op_gets
  | |- triple _ _ (match ?x with _ => _ end) _ => destruct x
  | |- triple _ _ (if ?b then _ else _) _ => destruct b
  | |- triple _ _ (let _ := _ in _) _ => cbv zeta
  end.
Ltac op_auto := repeat first [solve [eauto with iso] | op_step].

Lemma op_pin_all ids : op_ok (pin_all ids).
Proof. unfold pin_all. op_auto. Qed.
Lemma op_unpin_all ids : op_ok (unpin_all ids).
Proof. unfold unpin_all. op_auto. Qed.
Lemma op_put_pinned b : op_ok (put_pinned b).
Proof. unfold put_pinned. op_auto. Qed.
Hint Resolve op_pin_all op_unpin_all op_put_pinned : iso.

Lemma op_read_chunks ids size o n : op_ok (read_chunks ids size o n).
Proof. unfold read_chunks, read_chunk_part. op_auto. Qed.

Lemma op_write_inode ino o b now : op_ok (write_inode ws ino o b now).
Proof.
  unfold write_inode, extend_zero, write_chunk, index_slice, copy_from_slice. op_auto.
Qed.

Lemma op_truncate_inode ino n now : op_ok (truncate_inode ws ino n now).
Proof. unfold truncate_inode, truncate_extend, truncate_last. op_auto. Qed.
Hint Resolve op_read_chunks op_write_inode op_truncate_inode : iso.

(** ** Promotion *)

(** The inode found for a path, an origin or a hardlink key is the
    workspace's own. *)
Lemma load_path_owned p d i :
  db_ok d -> load_inode_for_path ws p d = Some i -> owned ws (ino_id i) d.
Proof.
  intros Hd. unfold load_inode_for_path.
  destruct (entries d !! (ws, p)) as [[id|]|] eqn:He; [|done..].
  destruct (inodes d !! id) as [r|] eqn:Hr; [|done]. intros [= <-].
  by eapply (ok_entries d Hd).
Qed.

Lemma load_id_owned id d i :
  load_inode_for_id ws id d = Some i -> owned ws (ino_id i) d.
Proof.
  unfold load_inode_for_id. destruct (inodes d !! id) as [r|] eqn:Hr; [|done].
  case_bool_decide as Hw; [|done]. intros [= <-]. by exists r.
Qed.

Lemma load_key_owned k d i :
  load_inode_for_hardlink_key ws k d = Some i -> owned ws (ino_id i) d.
Proof.
  unfold load_inode_for_hardlink_key. destruct (hardlink_promotions d !! (ws, k)); [|done].
  apply load_id_owned.
Qed.

Lemma load_origin_owned o d i :
  db_ok d -> load_inode_for_origin ws o d = Some i -> owned ws (ino_id i) d.
Proof.
  intros Hd. unfold load_inode_for_origin.
  destruct (inode_origins d !! (ws, o)) as [id|] eqn:He; [|done].
  destruct (inodes d !! id) as [r|] eqn:Hr; [|done]. intros [= <-].
  by eapply (ok_origins d Hd).
Qed.

Lemma known_owned o key d i :
  db_ok d ->
  match load_inode_for_origin ws o d with
  | Some inode => Some inode
  | None => match key with Some k => load_inode_for_hardlink_key ws k d | None => None end
  end = Some i -> owned ws (ino_id i) d.
Proof.
  intros Hd. destruct (load_inode_for_origin ws o d) as [j|] eqn:Ho.
  - intros [= <-]. by eapply load_origin_owned.
  - destruct key; [apply load_key_owned|done].
Qed.

Abbreviation own_result := (fun (x : InodeRecord * bool * bool) (c : core) => owned ws (ino_id x.1.1) (core_db c)).

Lemma op_bind_private p o key src mode :
  triple frame_own anything (bind_private ws p o key src mode) own_result.
Proof.
  unfold bind_private. apply triple_transact_own.
  eapply triple_bind; [apply _|apply triple_query, _|]. intros [i|].
  { apply triple_ret; [apply _|]. intros c [Hd _] [_ Hi]. simpl. by eapply load_path_owned. }
  eapply triple_bind; [apply _|apply triple_query, _|]. intros [i|].
  - eapply triple_bind; [apply _| |intros ?; apply triple_ret; [apply _|]; intros c _ Hc; exact Hc].
    eapply triple_conseq; [eapply triple_keep; [apply (stable_owned (ino_id i))|apply op_insert_entry]| |].
    + intros c [Hd _] [_ Hi]. by eapply known_owned.
    + done.
  - eapply triple_bind; [apply _| |].
    { eapply triple_conseq; [apply op_insert_inode|done|]. intros a c H. exact H. }
    intros id. eapply triple_bind; [apply _| |intros ?].
    { eapply triple_keep; [apply stable_owned|apply op_insert_origin]. }
    eapply triple_bind; [apply _| |intros ?].
    { instantiate (1 := fun _ c => owned ws id (core_db c)). destruct key.
      - eapply triple_keep; [apply stable_owned|apply op_insert_promotion].
      - by apply triple_ret; [apply _|]. }
    eapply triple_bind; [apply _| |intros ?].
    { eapply triple_keep; [apply stable_owned|apply op_insert_entry]. }
    by apply triple_ret; [apply _|].
Qed.

Lemma op_metadata p : op_ok (metadata blake3 ws p).
Proof. eapply op_same, (same_metadata blake3 ws). Qed.
Lemma op_lookup p : op_ok (lookup ws p).
Proof. eapply op_same, (same_lookup ws). Qed.
Lemma op_resolve_inode p : op_ok (resolve_inode ws p).
Proof. eapply op_same, (same_resolve_inode ws). Qed.
Lemma op_read_dir p : op_ok (read_dir blake3 ws p).
Proof. eapply op_same, (same_read_dir blake3 ws). Qed.
Lemma op_ensure_parent p : op_ok (ensure_parent_directory blake3 ws p).
Proof. eapply op_same, (same_ensure_parent_directory blake3 ws). Qed.
Hint Resolve op_metadata op_lookup op_resolve_inode op_read_dir op_ensure_parent : iso.

(** Steps that lead up to a triple whose precondition is trivial. *)
Lemma triple_seq {A B} (m : WS A) (k : A -> WS B) Q :
  op_ok m -> (forall a, triple frame_own anything (k a) Q) ->
  triple frame_own anything (bind m k) Q.
Proof. intros Hm Hk. by eapply triple_bind; [apply _|exact Hm|]. Qed.

Lemma op_materialize p :
  triple frame_own anything (materialize blake3 ws p)
    (fun i c => owned ws (ino_id i) (core_db c)).
Proof.
  unfold materialize. eapply triple_bind; [apply _|apply triple_query, _|]. intros [i|].
  { apply triple_ret; [apply _|]. intros c [Hd _] [_ Hi]. by eapply load_path_owned. }
  apply triple_any. do 9 (apply triple_seq; [op_auto|intros ?]).
  eapply triple_bind; [apply _|apply op_bind_private|]. intros [[i created] bound].
  pose proof (stable_owned (ino_id i)) as Hst.
  eapply triple_bind; [apply _|apply (op_keep _ _ Hst); op_auto|intros ?].
  eapply triple_bind; [apply _|apply (op_keep _ _ Hst); op_auto|intros ?].
  by apply triple_ret; [apply _|].
Qed.

Lemma op_drop {A} (m : WS A) Q : triple frame_own anything m Q -> op_ok m.
Proof. intros Hm. by eapply triple_conseq. Qed.
Lemma op_materialize_any p : op_ok (materialize blake3 ws p).
Proof. eapply op_drop, op_materialize. Qed.
Hint Resolve op_materialize_any : iso.

(** ** The operations of a workspace handle *)

Lemma op_write p o b now : op_ok (write blake3 ws p o b now).
Proof. unfold write. op_auto. Qed.
Lemma op_truncate p n now : op_ok (truncate blake3 ws p n now).
Proof. unfold truncate. op_auto. Qed.
Lemma op_set_metadata p m a t now : op_ok (set_metadata blake3 ws p m a t now).
Proof. unfold set_metadata. op_auto. Qed.
Lemma op_read_file p o n : op_ok (read_file ws p o n).
Proof. unfold read_file. op_auto. Qed.
Hint Resolve op_read_file : iso.
Lemma op_read_symlink p : op_ok (read_symlink blake3 ws p).
Proof. unfold read_symlink. op_auto. Qed.

Lemma op_create_node p kind mode content now : op_ok (create_node blake3 ws p kind mode content now).
Proof.
  unfold create_node. do 5 (apply triple_seq; [op_auto|intros ?]).
  apply triple_transact_own. eapply triple_bind; [apply _|apply op_insert_inode|].
  intros id. apply op_insert_entry.
Qed.
Hint Resolve op_create_node : iso.

Lemma op_symlink p t now : op_ok (symlink blake3 ws p t now).
Proof. unfold symlink. op_auto. Qed.

Lemma op_hard_link p q : op_ok (hard_link blake3 ws p q).
Proof.
  unfold hard_link. do 4 (apply triple_seq; [op_auto|intros ?]).
  eapply triple_bind; [apply _|apply op_materialize|]. intros i.
  pose proof (stable_owned (ino_id i)) as Hst.
  eapply triple_bind; [apply _|apply (op_keep _ _ Hst); op_auto|intros ?].
  eapply triple_bind; [apply _|apply (op_keep _ _ Hst); op_auto|intros ?].
  eapply triple_bind; [apply _|apply (op_keep _ _ Hst); op_auto|intros ?].
  apply triple_execute. intros c [Hd _] Ho. apply row_set_entry; [done|]. by intros ? [= <-].
Qed.

Lemma op_unlink p : op_ok (unlink blake3 ws p).
Proof. unfold unlink. op_auto. Qed.

(** ** Renaming *)

Lemma workspace_entries_elem d p x : (p, x) ∈ workspace_entries ws d <-> entries d !! (ws, p) = Some x.
Proof.
  unfold workspace_entries. rewrite list_elem_of_fmap. split.
  - intros ([[w q] y] & [= -> ->] & Hin%elem_of_map_to_list).
    by apply map_lookup_filter_Some in Hin as [? <-].
  - intros H. exists (ws, p, x). split; [done|]. apply elem_of_map_to_list.
    by apply map_lookup_filter_Some.
Qed.

(** Deleting an inode of [ws] that no name of [ws] refers to. *)
Lemma row_delete_inode d id r :
  db_ok d -> inodes d !! id = Some r -> i_workspace r = ws -> live_links ws id d = [] ->
  db_ok (delete_inode id d) /\ others ws d (delete_inode id d).
Proof.
  intros Hd Hr Hw Hlive.
  assert (forall w i, owned w i d -> i <> id -> owned w i (delete_inode id d)) as Ho.
  { intros w i (q & Hq & Hqw) Hne. exists q. simpl. by rewrite lookup_delete_ne. }
  assert (forall w i, w <> ws -> owned w i d -> i <> id) as Hother.
  { intros w i Hne (q & Hq & Hqw) ->. congruence. }
  assert (forall p, entries d !! (ws, p) <> Some (Some id)) as Hno.
  { intros p Hp%workspace_entries_elem. assert ((p, Some id) ∈ live_links ws id d) as Hin.
    { unfold live_links. by apply list_elem_of_filter. }
    rewrite Hlive in Hin. by apply not_elem_of_nil in Hin. }
  pose proof (ok_entries d Hd) as He. pose proof (ok_origins d Hd) as Hor.
  pose proof (ok_promotions d Hd) as Hpr. split; [split|split]; try done; simpl.
  - intros i Hi. apply (ok_seq d Hd). destruct (decide (i = id)) as [->|Hne]; [by eexists|].
    by rewrite lookup_delete_ne in Hi.
  - intros w p i Hi. apply Ho; [by eapply He|]. intros ->.
    destruct (He _ _ _ Hi) as (q & Hq & Hqw). rewrite Hr in Hq. injection Hq as <-.
    rewrite <-Hqw, Hw in Hi. by eapply Hno.
  - intros w p i [Hi Hne]%map_lookup_filter_Some. apply Ho; [by eapply Hor|done].
  - intros w p i [Hi Hne]%map_lookup_filter_Some. apply Ho; [by eapply Hpr|done].
  - intros i q Hq. destruct (decide (i = id)) as [->|Hne].
    + rewrite lookup_delete_eq, Hr. split; [intros [= <-]; congruence|done].
    + by rewrite lookup_delete_ne by done.
  - intros w o Hne. symmetry. destruct (inode_origins d !! (w, o)) as [i|] eqn:Hi.
    + apply map_lookup_filter_Some. split; [done|]. apply (Hother w); [done|by eapply Hor].
    + apply map_lookup_filter_None. by left.
  - intros w o Hne. symmetry. destruct (hardlink_promotions d !! (w, o)) as [i|] eqn:Hi.
    + apply map_lookup_filter_Some. split; [done|]. apply (Hother w); [done|by eapply Hpr].
    + apply map_lookup_filter_None. by left.
Qed.

Abbreviation op_weak m := (triple frame anything m (fun _ => anything)).

Lemma op_rename_file p q i :
  triple frame (fun c => owned ws (ino_id i) (core_db c)) (rename_file ws p q i)
    (fun _ => anything).
Proof.
  unfold rename_file. apply triple_transact.
  eapply triple_bind; [apply _|apply triple_query, _|]. intros rep.
  eapply triple_bind; [apply _| |intros ?].
  { apply triple_weak. eapply triple_conseq; [apply op_insert_entry|by intros c _ []|done]. }
  eapply triple_bind; [apply _|apply triple_weak, op_insert_tombstone|intros ?].
  destruct rep as [old|]; [|by apply triple_ret; [apply _|]].
  eapply triple_bind; [apply _|apply triple_query, _|]. intros links.
  eapply triple_bind; [apply _|apply triple_query, _|]. intros row.
  case_bool_decide as Hl; [|by apply triple_ret; [apply _|]].
  eapply triple_bind; [apply _| |intros ?; by apply triple_ret; [apply _|]].
  instantiate (1 := fun _ => anything). destruct row as [r|]; [|by apply triple_ret; [apply _|]].
  case_bool_decide as Hw; [|by apply triple_ret; [apply _|]].
  intros c r' c' [Hd Hi] [[_ Hlive] Hrow] [= <- <-]. subst links.
  destruct (row_delete_inode (core_db c) (ino_id old) r) as [H1 H2]; [done..|].
  by split_and!.
Qed.

Lemma op_move_entry p q e :
  triple frame_own (fun c => forall id, e.2 = Some id -> owned ws id (core_db c))
    (move_entry ws p q e) (fun _ => anything).
Proof.
  destruct e as [old x]. unfold move_entry.
  set (P := fun c : core => forall id, x = Some id -> owned ws id (core_db c)).
  assert (stable P) as Hst. { intros c c' [_ Ho] Hp id Hid. by apply Ho, Hp. }
  eapply triple_bind; [apply _| |intros ?].
  { eapply (triple_keep P); [done|]. apply triple_execute. intros c [Hd _] _.
    by apply row_delete_entry. }
  destruct x as [id|]; [|apply triple_any, op_insert_tombstone].
  eapply triple_conseq; [apply op_insert_entry| |done]. intros c _ Hp. by apply Hp.
Qed.

Lemma op_rename_directory p q : op_ok (rename_directory ws p q).
Proof.
  unfold rename_directory. apply triple_seq; [op_auto|intros t]. apply op_transact.
  do 2 (apply triple_seq; [op_auto|intros ?]). apply triple_seq; [|intros ?].
  { apply triple_execute. intros c [Hd _] _. by apply row_set_redirect. }
  cbv zeta. eapply triple_bind; [apply _|apply triple_query, _|]. intros moved.
  set (P := fun c : core => forall e id, e ∈ moved -> e.2 = Some id -> owned ws id (core_db c)).
  apply (triple_bind _ _ _ _ (fun _ => anything)); [|intros ?; apply op_insert_tombstone].
  eapply (triple_conseq _ P _ _ (fun _ => P)); [apply triple_forM; [apply _|]| |done].
  - intros e He. eapply triple_keep.
    { intros c c' [_ Ho] Hp e' id Hin Hid. by eapply Ho, Hp. }
    eapply triple_conseq; [apply op_move_entry| |done]. intros c _ Hp id Hid. by eapply Hp.
  - intros c [Hd _] [_ Hm] [pth x] id Hin Hid. rewrite Hm in Hin. simpl in Hid. subst x.
    apply list_elem_of_filter in Hin as [_ Hin%workspace_entries_elem].
    by eapply (ok_entries _ Hd).
Qed.

Lemma op_rename p q : op_weak (rename blake3 ws p q).
Proof.
  unfold rename. do 6 (eapply triple_bind; [apply _|apply triple_weak; op_auto|intros ?]).
  destruct (negb _).
  - eapply triple_bind; [apply _|apply triple_weak; op_auto|intros ?].
    eapply triple_bind; [apply _|apply triple_weak, op_materialize|intros i].
    eapply triple_bind; [apply _|apply op_rename_file|intros ?].
    apply triple_weak, op_unpin_all.
  - eapply triple_bind; [apply _|apply triple_weak; op_auto|intros ?].
    apply triple_weak, op_rename_directory.
Qed.

(** ** Open files *)

Lemma op_load_open_inode h : op_ok (load_open_inode h).
Proof. unfold load_open_inode. op_auto. Qed.
Hint Resolve op_load_open_inode : iso.
Lemma op_open_workspace w : op_ok (open_workspace w).
Proof. unfold open_workspace. op_auto. Qed.

Lemma open_workspace_id w (c : core) w' c' : open_workspace w c = (Ok w', c') -> w' = w.
Proof. unfold open_workspace. intros H. run_inv. done. Qed.

Lemma op_promote_open_file h : fh_workspace h = ws -> op_ok (promote_open_file blake3 h).
Proof.
  intros Hh. unfold promote_open_file. apply op_bind; [op_auto|]. intros [i|]; [op_auto|].
  destruct (fh_backing h) as [|p]; [op_auto|].
  apply (triple_bind _ _ _ _ (fun w _ => w = ws)).
  - intros c r c' Hg Hp Hr. destruct (op_open_workspace _ c r c' Hg Hp Hr) as (? & ? & _).
    split_and!; [done..|]. intros w ->. rewrite <-Hh. exact (open_workspace_id _ _ _ _ Hr).
  - intros w c r c' Hg -> Hr. exact (op_materialize_any p c r c' Hg I Hr).
Qed.

Hint Resolve op_promote_open_file : iso.
Lemma op_write_open_file h o b now :
  fh_workspace h = ws -> op_ok (write_open_file blake3 h o b now).
Proof. intros Hh. unfold write_open_file. rewrite Hh. op_auto. Qed.
Lemma op_truncate_open_file h n now :
  fh_workspace h = ws -> op_ok (truncate_open_file blake3 h n now).
Proof. intros Hh. unfold truncate_open_file. rewrite Hh. op_auto. Qed.
Lemma op_set_metadata_open_file h m a t now :
  fh_workspace h = ws -> op_ok (set_metadata_open_file blake3 h m a t now).
Proof. intros Hh. unfold set_metadata_open_file. rewrite Hh. op_auto. Qed.
Lemma op_read_open_file h o n : op_ok (read_open_file h o n).
Proof. unfold read_open_file. op_auto. Qed.
Lemma op_metadata_open_file h : op_ok (metadata_open_file h).
Proof. unfold metadata_open_file. op_auto. Qed.
Lemma op_materialize_open_file h :
  fh_workspace h = ws -> op_ok (materialize_open_file blake3 h).
Proof. intros Hh. unfold materialize_open_file. op_auto. apply op_metadata_open_file. Qed.
Lemma op_open_file p : op_ok (open_file blake3 ws p).
Proof. unfold open_file. op_auto. Qed.
Lemma op_open_file_read_only p : op_ok (open_file_read_only blake3 ws p).
Proof. unfold open_file_read_only. op_auto. Qed.
Lemma op_open_file_inode i : op_ok (open_file_inode ws i).
Proof. unfold open_file_inode. op_auto. Qed.
End Isolation.

(** ** Requests

    What a client of a workspace handle, or of the files it opened, may ask. *)

Inductive request : Type :=
| RMetadata (path : string)
| RRead (path : string) (offset length : Z)
| RReadDir (path : string)
| RReadSymlink (path : string)
| RWrite (path : string) (offset : Z) (bytes : list Z)
| RTruncate (path : string) (size : Z)
| RSetMetadata (path : string) (mode accessed modified : option Z)
| RCreateFile (path : string) (mode : Z)
| RMkdir (path : string) (mode : Z)
| RSymlink (path : string) (target : list Z)
| RHardLink (source destination : string)
| RUnlink (path : string)
| RRename (source destination : string)
| ROpenFile (path : string)
| ROpenFileReadOnly (path : string)
| ROpenFileInode (inode : Z)
| RReadOpen (h : WorkspaceFileHandle) (offset length : Z)
| RMetadataOpen (h : WorkspaceFileHandle)
| RWriteOpen (h : WorkspaceFileHandle) (offset : Z) (bytes : list Z)
| RMaterializeOpen (h : WorkspaceFileHandle)
| RTruncateOpen (h : WorkspaceFileHandle) (size : Z)
| RSetMetadataOpen (h : WorkspaceFileHandle) (mode accessed modified : option Z).

(** The handles a client holds are those of its own workspace. *)
Definition own_handle (ws : string) (q : request) : Prop :=
  match q with
  | RReadOpen h _ _ | RMetadataOpen h | RWriteOpen h _ _ | RMaterializeOpen h
  | RTruncateOpen h _ | RSetMetadataOpen h _ _ _ => fh_workspace h = ws
  | _ => True
  end.

Section Requests.
Context {St : Type} {CS : ContentStore St} {CL : ContentStoreLaws St}.
Context (blake3 : list Z -> list Z).
Abbreviation core := (Core St).
Abbreviation contents c := (cs_abs (core_store c)).

Definition discard {A} (m : action Error core A) : action Error core unit := m ;;; ret tt.

Definition serve (ws : string) (q : request) (now : Z) : action Error core unit :=
  match q with
  | RMetadata p => discard (metadata blake3 ws p)
  | RRead p o n => discard (read_file ws p o n)
  | RReadDir p => discard (read_dir blake3 ws p)
  | RReadSymlink p => discard (read_symlink blake3 ws p)
  | RWrite p o b => discard (write blake3 ws p o b now)
  | RTruncate p n => truncate blake3 ws p n now
  | RSetMetadata p m a t => set_metadata blake3 ws p m a t now
  | RCreateFile p m => create_file blake3 ws p m now
  | RMkdir p m => mkdir blake3 ws p m now
  | RSymlink p t => symlink blake3 ws p t now
  | RHardLink p q => hard_link blake3 ws p q
  | RUnlink p => unlink blake3 ws p
  | RRename p q => rename blake3 ws p q
  | ROpenFile p => discard (open_file blake3 ws p)
  | ROpenFileReadOnly p => discard (open_file_read_only blake3 ws p)
  | ROpenFileInode i => discard (open_file_inode ws i)
  | RReadOpen h o n => discard (read_open_file h o n)
  | RMetadataOpen h => discard (metadata_open_file h)
  | RWriteOpen h o b => discard (write_open_file blake3 h o b now)
  | RMaterializeOpen h => discard (materialize_open_file blake3 h)
  | RTruncateOpen h n => truncate_open_file blake3 h n now
  | RSetMetadataOpen h m a t => set_metadata_open_file blake3 h m a t now
  end.

Lemma serve_frame ws q now c r c' :
  own_handle ws q -> good c -> serve ws q now c = (r, c') -> good c' /\ frame ws c c'.
Proof.
  intros Ho Hg Hs.
  assert (triple (frame ws) anything (serve ws q now) (fun _ => anything)) as Ht.
  { assert (forall A (m : action Error core A),
      triple (frame_own ws) anything m (fun _ => anything) ->
      triple (frame ws) anything (discard m) (fun _ => anything)) as Hdis.
    { intros A m Hm. apply triple_weak, op_bind; [done|]. intros. apply op_ret. }
    destruct q; simpl in *; try apply Hdis.
    all: first [apply op_rename|apply triple_weak|idtac].
    all: eauto using op_metadata, op_read_file, op_read_dir, op_read_symlink, op_write, op_truncate,
      op_set_metadata, op_create_node, op_symlink, op_hard_link, op_unlink, op_rename,
      op_open_file, op_open_file_read_only, op_open_file_inode, op_read_open_file,
      op_metadata_open_file, op_write_open_file, op_materialize_open_file,
      op_truncate_open_file, op_set_metadata_open_file. }
  destruct (Ht c r c' Hg I Hs) as (? & ? & _). done.
Qed.

(** ** What the others see *)

(** A read that succeeds keeps its answer while the chunks it needs are kept. *)
Lemma on_store_read_sim (c c' : core) id b c1 :
  cs_inv (core_store c) -> cs_inv (core_store c') ->
  (stored_as (contents c) id b -> stored_as (contents c') id b) ->
  on_store (cs_read id) c = (Ok b, c1) ->
  exists c1', on_store (cs_read id) c' = (Ok b, c1')
    /\ cs_inv (core_store c1) /\ cs_inv (core_store c1')
    /\ contents c1 = contents c /\ contents c1' = contents c'.
Proof.
  intros Hi Hi' Hk Hr. assert (stored_as (contents c) id b) as Hst.
  { destruct (cs_read_law (core_store c) id Hi) as (s1 & H1 & _). unfold on_store, zoom in Hr.
    rewrite H1 in Hr. destruct (contents c !! id) as [[b' n]|] eqn:Hn; [|done].
    injection Hr as <- _. by exists n. }
  destruct (on_store_read c id b Hi Hst) as (c2 & H2 & _ & _ & Hi2 & Ha2 & _).
  destruct (on_store_read c' id b Hi' (Hk Hst)) as (c2' & H2' & _ & _ & Hi2' & Ha2' & _).
  rewrite H2 in Hr. injection Hr as <-. by exists c2'.
Qed.

Lemma read_chunks_sim (c c' : core) ids size o n b c1 :
  cs_inv (core_store c) -> cs_inv (core_store c') ->
  (forall id x, id ∈ ids -> stored_as (contents c) id x -> stored_as (contents c') id x) ->
  read_chunks ids size o n c = (Ok b, c1) ->
  exists c1', read_chunks ids size o n c' = (Ok b, c1').
Proof.
  intros Hi Hi' Hk. unfold read_chunks. destruct (_ || _); [intros [= <- <-]; by eexists|].
  cbv zeta. set (e := Z.min size _). generalize (@nil Z) as acc.
  generalize (seqZ (o / CHUNK_SIZE) ((e - 1) / CHUNK_SIZE - o / CHUNK_SIZE + 1)) as l.
  intros l. revert c c' Hi Hi' Hk.
  induction l as [|i l IH]; intros c c' Hi Hi' Hk acc Hr; cbn [foldM] in *.
  { injection Hr as <- <-. by eexists. }
  apply bind_ok_inv in Hr as (acc1 & c2 & Hp & Hr). unfold read_chunk_part in Hp.
  apply bind_ok_inv in Hp as (id & c3 & [Hid ->]%ok_or_ok_inv & Hp).
  apply bind_ok_inv in Hp as (chunk & c4 & Hrd & Hp).
  apply bind_ok_inv in Hp as (u & c5 & [Hg ->]%guard_ok_inv & Hp). injection Hp as <- <-.
  destruct (on_store_read_sim c c' id chunk c4 Hi Hi') as (c4' & Hrd' & Hi4 & Hi4' & Ha4 & Ha4');
    [apply Hk; by eapply list_elem_of_lookup_2|done|].
  destruct (IH c4 c4' Hi4 Hi4' ltac:(by rewrite Ha4, Ha4') _ Hr) as (c6' & H6). exists c6'.
  erewrite bind_ok; [exact H6|]. unfold read_chunk_part. rewrite Hid.
  erewrite bind_ok by done. erewrite bind_ok by done. by rewrite Hg.
Qed.

Lemma same_run {A} w (m : action Error core A) (c c' : core) :
  same w m -> db_ok (core_db c) -> db_ok (core_db c') ->
  agree w (core_db c) (core_db c') -> fst (m c') = fst (m c).
Proof. intros Hs H1 H2 H3. destruct (Hs c c' H1 H2 H3) as (r & -> & ->). done. Qed.

(** [undisturbed w c c']: everything [w] could read in [c] it reads in [c']. *)
Record undisturbed (w : string) (c c' : core) : Prop := {
  un_metadata : forall p, fst (metadata blake3 w p c') = fst (metadata blake3 w p c);
  un_read_dir : forall p, fst (read_dir blake3 w p c') = fst (read_dir blake3 w p c);
  un_read : forall p o n b, fst (read_file w p o n c) = Ok b -> fst (read_file w p o n c') = Ok b;
  un_read_open : forall h o n b, fh_workspace h = w ->
    fst (read_open_file h o n c) = Ok b -> fst (read_open_file h o n c') = Ok b }.

#[export] Instance undisturbed_preorder w : PreOrder (undisturbed w).
Proof.
  split; [by split|]. intros a b c [] []. split; intros.
  - by rewrite un_metadata1.
  - by rewrite un_read_dir1.
  - auto.
  - auto.
Qed.

(** The chunks of what a workspace sees under a name. *)
Definition seen_chunk (w : string) (c : core) (id : list Z) : Prop :=
  exists p i, fst (resolve_inode w p c) = Ok i /\ id ∈ ino_chunks i.

Lemma read_file_sim w p o n b (c c' : core) :
  good c -> good c' -> agree w (core_db c) (core_db c') ->
  (forall id x, seen_chunk w c id -> stored_as (contents c) id x -> stored_as (contents c') id x) ->
  fst (read_file w p o n c) = Ok b -> fst (read_file w p o n c') = Ok b.
Proof.
  intros [Hd Hi] [Hd' Hi'] Ha Hk Hr. destruct (read_file w p o n c) as [r c1] eqn:Hf.
  simpl in Hr. subst r. unfold read_file in Hf.
  apply bind_ok_inv in Hf as (p' & s1 & Hn & Hf). injection Hn as Hp <-.
  apply bind_ok_inv in Hf as (i & s2 & Hres & Hf).
  destruct (same_resolve_inode w p' c c' Hd Hd' Ha) as (r & H1 & H2). rewrite H1 in Hres.
  injection Hres as -> <-.
  apply bind_ok_inv in Hf as (u & s3 & [Hg ->]%guard_ok_inv & Hf).
  destruct (read_chunks_sim c c' _ _ _ _ _ _ Hi Hi'
    ltac:(intros id x Hin; apply Hk; exists p', i; by rewrite H1) Hf) as (c1' & Hf').
  unfold read_file. rewrite Hp. erewrite bind_ok by done. erewrite bind_ok by done.
  rewrite Hg. erewrite bind_ok by done. by rewrite Hf'.
Qed.

Lemma read_open_file_sim h o n b (c c' : core) :
  good c -> good c' -> agree (fh_workspace h) (core_db c) (core_db c') ->
  keeps_content (contents c) (contents c') ->
  (forall x, promoted_origins c !! (fh_workspace h, x) = promoted_origins c' !! (fh_workspace h, x)) ->
  fst (read_open_file h o n c) = Ok b -> fst (read_open_file h o n c') = Ok b.
Proof.
  intros [Hd Hi] [Hd' Hi'] Ha Hk Hpr Hr.
  assert (exists r, load_open_inode h c = (r, c) /\ load_open_inode h c' = (r, c'))
    as (r & Hl & Hl').
  { unfold load_open_inode. destruct (fh_backing h) as [i|v x m ids].
    - apply (same_bind (fh_workspace h)); [apply same_guard| |done..]. intros _.
      apply same_bind; [apply same_query; intros; by apply agree_load_inode_for_id|]. intros r.
      apply same_bind; [apply same_ok_or|]. intros. apply same_ret.
    - erewrite (bind_ok (gets _) _ c), (bind_ok (gets _) _ c') by done. rewrite <-Hpr.
      destruct (promoted_origins c !! (fh_workspace h, x)) as [i|]; [|by eexists].
      apply (same_bind (fh_workspace h)); [|intros r|done..].
      + apply same_query; intros; by apply agree_load_inode_for_id.
      + apply same_bind; [apply same_ok_or|]. intros. apply same_ret. }
  destruct (read_open_file h o n c) as [rr c1] eqn:Hf. simpl in Hr. subst rr.
  unfold read_open_file in *. apply bind_ok_inv in Hf as (own & s1 & H1 & Hf).
  rewrite Hl in H1. injection H1 as -> <-. erewrite bind_ok by done.
  destruct own as [i|]; [|destruct (fh_backing h) as [|v x m ids]; [done|]].
  - destruct (read_chunks_sim c c' _ _ _ _ _ _ Hi Hi' ltac:(auto) Hf) as (c1' & ->). done.
  - destruct (read_chunks_sim c c' _ _ _ _ _ _ Hi Hi' ltac:(auto) Hf) as (c1' & ->). done.
Qed.

Lemma undisturbed_intro w c c' :
  good c -> good c' -> agree w (core_db c) (core_db c') ->
  keeps_content (contents c) (contents c') ->
  (forall o, promoted_origins c !! (w, o) = promoted_origins c' !! (w, o)) ->
  undisturbed w c c'.
Proof.
  intros Hg Hg' Ha Hk Hp. split.
  - intros p. apply (same_run w); [apply same_metadata|apply Hg|apply Hg'|done].
  - intros p. apply (same_run w); [apply same_read_dir|apply Hg|apply Hg'|done].
  - intros p o n b. apply read_file_sim; auto.
  - intros h o n b <-. apply read_open_file_sim; auto.
Qed.

Lemma serve_undisturbed ws w q now c r c' :
  own_handle ws q -> w <> ws -> good c -> serve ws q now c = (r, c') ->
  good c' /\ undisturbed w c c'.
Proof.
  intros Ho Hne Hg Hs. destruct (serve_frame ws q now c r c' Ho Hg Hs) as [Hg' [Hf Hk Hp]].
  split; [done|]. apply undisturbed_intro; auto. by eapply others_agree.
Qed.

(** Requests of any workspaces, one after the other. *)
Fixpoint serve_all (l : list (string * request * Z)) (c : core) : core :=
  match l with
  | [] => c
  | (ws, q, now) :: l => serve_all l (serve ws q now c).2
  end.

Lemma serve_all_undisturbed w l c :
  Forall (fun x => own_handle x.1.1 x.1.2) l -> Forall (fun x => x.1.1 <> w) l -> good c ->
  good (serve_all l c) /\ undisturbed w c (serve_all l c).
Proof.
  revert c. induction l as [|[[ws q] now] l IH]; intros c Ho Hw Hg; simpl; [done|].
  apply Forall_cons_1 in Ho as [Ho1 Ho]. apply Forall_cons_1 in Hw as [Hw1 Hw]. simpl in *.
  destruct (serve ws q now c) as [r c1] eqn:Hs. simpl.
  destruct (serve_undisturbed ws w q now c r c1 Ho1 (not_eq_sym Hw1) Hg Hs) as [Hg1 Hu1].
  destruct (IH c1 Ho Hw Hg1) as [Hg2 Hu2]. split; [done|]. by etransitivity.
Qed.
End Requests.
