(* ===== verification/NamespaceFacts.v ===== *)
(** Operations on paths: files read, overwritten and resized as byte arrays;
    new files, promotion that keeps content, removal and renaming. *)

From S2P Require Import Prelude Error RustStr PathPolicy ChunkStore Bytes ContentStore Tracker Core Layers Namespace FileContent FileResize View Isolation.
#[local] Open Scope string_scope.
#[local] Open Scope list_scope.
#[local] Open Scope Z_scope.
#[local] Opaque CHUNK_SIZE.

(** A stream is stored as the blocks of its content. *)
Lemma chunk_list_blocks fuel b i :
  0 <= i -> zlen b <= Z.of_nat fuel + i * CHUNK_SIZE ->
  exists n, 0 <= n /\ chunk_list fuel (drop (Z.to_nat (i * CHUNK_SIZE)) b) = blocks_from b i n
    /\ zlen b <= (i + n) * CHUNK_SIZE.
Proof.
  pose proof CHUNK_SIZE_pos. revert i. induction fuel as [|fuel IH]; intros i Hi Hl.
  { exists 0. split_and!; [done|done|lia]. }
  cbn [chunk_list]. destruct (decide (zlen b <= i * CHUNK_SIZE)) as [Hle|Hgt].
  - rewrite drop_ge by (unfold zlen in *; lia). exists 0. split_and!; [done|done|lia].
  - destruct (drop (Z.to_nat (i * CHUNK_SIZE)) b) as [|x l] eqn:Hd.
    { apply (f_equal length) in Hd. rewrite length_drop in Hd. unfold zlen in *. simpl in Hd. lia. }
    rewrite <-Hd, drop_drop.
    destruct (IH (i + 1)) as (n & Hn & Hc & Hb); [lia|nia|]. exists (n + 1).
    split_and!; [lia| |lia]. rewrite (Z.add_comm n 1), (blocks_from_app b i 1 n) by lia.
    replace (Z.to_nat (i * CHUNK_SIZE) + Z.to_nat CHUNK_SIZE)%nat
      with (Z.to_nat ((i + 1) * CHUNK_SIZE)) by lia.
    rewrite Hc. change (blocks_from b i 1) with [block b i]. cbn [app]. f_equal.
    apply byte_at_ext; rewrite zlen_take, zlen_drop, ?zlen_block by done.
    + unfold block_len, saturating_sub. lia.
    + intros k Hk. rewrite byte_at_take, (proj2 (Z.ltb_lt _ _)), byte_at_drop by lia.
      rewrite byte_at_block by lia. f_equal. lia.
Qed.

Lemma stream_dense b : dense b (stream_chunks b).
Proof.
  pose proof CHUNK_SIZE_pos.
  destruct (decide (b = [])) as [->|Hb]; [by split|].
  destruct (chunk_list_blocks (length b) b 0) as (n & Hn & Hc & Hl); [done|unfold zlen; lia|].
  rewrite Z.mul_0_l in Hc. simpl in Hc.
  assert (stream_chunks b = blocks_from b 0 n) as -> by (by destruct b).
  split; rewrite zlen_blocks_from by done; [done|lia].
Qed.

Lemma normalize_root path :
  normalize_path path false = Ok path -> normalize_path path true = Ok path /\ path <> "".
Proof.
  unfold normalize_path. destruct (normal_parts path (components path)) as [parts| |]; [|done..].
  simpl. case_bool_decide as Hj; [done|]. simpl. intros [= Hp]. rewrite Hp in *. done.
Qed.

Section Files.
Context {St : Type} {CS : ContentStore St} {CL : ContentStoreLaws St}.
Context (blake3 : list Z -> list Z).
Abbreviation core := (Core St).
Abbreviation contents c := (cs_abs (core_store c)).

(** [path] names the private file [ino] of [ws], whose bytes are [flat]; the
    references of all other manifests are [other]. *)
Record private_file (ws path : string) (ino : InodeRecord) (flat : list Z)
    (other : list Z -> Z) (c : core) : Prop := {
  pf_path : normalize_path path false = Ok path;
  pf_entry : load_inode_for_path ws path (core_db c) = Some ino;
  pf_kind : ino_kind ino = File;
  pf_file : file_ok ws ino flat other c }.

Lemma load_written ws path ino size chunks row d d' :
  load_inode_for_path ws path d = Some ino -> inodes d' = <[ino_id ino := row]> (inodes d) ->
  entries d' = entries d -> i_kind row = ino_kind ino -> i_size row = size ->
  i_chunks row = chunks ->
  load_inode_for_path ws path d' = Some (mkInode (ino_id ino) (ino_kind ino) size chunks).
Proof.
  unfold load_inode_for_path. intros Hl Hi He <- <- <-. rewrite He.
  destruct (entries d !! (ws, path)) as [[id|]|]; [|done..].
  destruct (inodes d !! id) as [r|] eqn:Hr; [|done]. injection Hl as <-. simpl in *.
  by rewrite Hi, lookup_insert_eq.
Qed.

Lemma materialize_private ws path ino (c : core) :
  load_inode_for_path ws path (core_db c) = Some ino ->
  materialize blake3 ws path c = (Ok ino, c).
Proof. intros Hl. unfold materialize. erewrite bind_ok by done. by rewrite Hl. Qed.

Lemma resolve_private ws path ino (c : core) :
  load_inode_for_path ws path (core_db c) = Some ino ->
  resolve_inode ws path c = (Ok ino, c).
Proof. intros Hl. unfold resolve_inode. erewrite bind_ok by done. by rewrite Hl. Qed.

Lemma read_private ws path ino flat other c off len :
  private_file ws path ino flat other c -> cs_inv (core_store c) -> zlen flat < 2 ^ 64 ->
  0 <= off -> 0 <= len ->
  exists c', read_file ws path off len c = (Ok (slice flat off len), c')
    /\ core_db c' = core_db c /\ cs_inv (core_store c') /\ contents c' = contents c.
Proof.
  intros [Hp Hl Hk Hf] Hi Hbig Ho Hn. unfold read_file. rewrite Hp. erewrite bind_ok by done.
  erewrite bind_ok by by apply resolve_private. rewrite Hk. erewrite bind_ok by done.
  destruct (fo_blocks _ _ _ _ _ Hf) as (blocks & Hm & Hd). rewrite (fo_size _ _ _ _ _ Hf).
  destruct (read_chunks_run flat blocks (ino_chunks ino) Hd c off len) as (c' & Hr & ? & ? & ? & ?); [done..|].
  by exists c'.
Qed.

(** A handle opened on the layer reads the promoted file. *)
Lemma read_promoted ws path ino flat other c o vp m chunks off len :
  private_file ws path ino flat other c -> cs_inv (core_store c) -> zlen flat < 2 ^ 64 ->
  promoted_origins c !! (ws, o) = Some (ino_id ino) -> 0 <= off -> 0 <= len ->
  fst (read_open_file (mkHandle ws (Immutable vp o m chunks)) off len c)
  = Ok (slice flat off len).
Proof.
  intros [_ _ _ Hf] Hi Hbig Hc Ho Hn. unfold read_open_file, load_open_inode. simpl.
  destruct (fo_row _ _ _ _ _ Hf) as (row & Hrow & Hw & Hk & Hs & Hch).
  destruct (fo_blocks _ _ _ _ _ Hf) as (blocks & Hm & Hd).
  assert (load_inode_for_id ws (ino_id ino) (core_db c) = Some ino) as Hl.
  { unfold load_inode_for_id. rewrite Hrow, bool_decide_eq_true_2 by done. unfold inode_record.
    rewrite Hk, Hs, Hch. by destruct ino. }
  destruct (read_chunks_run flat blocks (ino_chunks ino) Hd c off len) as (c' & Hr & _); [done..|].
  erewrite bind_ok; last first.
  { erewrite bind_ok by done. rewrite Hc. erewrite bind_ok by done. rewrite Hl.
    by erewrite bind_ok by done. }
  cbn beta iota. by rewrite (fo_size _ _ _ _ _ Hf), Hr.
Qed.

Lemma write_private ws path ino flat other c off bytes now :
  private_file ws path ino flat other c ->
  0 <= off -> bytes <> [] -> Z.max (zlen flat) (off + zlen bytes) < 2 ^ 63 ->
  off / CHUNK_SIZE * CHUNK_SIZE <= zlen flat ->
  cs_distinct [] ->
  (forall j, off / CHUNK_SIZE <= j <= (off + zlen bytes - 1) / CHUNK_SIZE ->
     cs_distinct (block (splice flat off bytes) j)) ->
  store_ok (2 * ((off + zlen bytes - 1) / CHUNK_SIZE + 1)) c ->
  journal_seq (core_db c) < I64_MAX ->
  exists ino' c', write blake3 ws path off bytes now c = (Ok (zlen bytes), c')
    /\ private_file ws path ino' (splice flat off bytes) other c' /\ store_ok 0 c'
    /\ ino_id ino' = ino_id ino /\ keeps_content (contents c) (contents c').
Proof.
  intros [Hp Hl Hk Hf] Ho Hb Hend Hgap He Hnew Hok Hj.
  destruct (write_inode_run ws ino flat bytes other off now Ho Hb Hend Hgap He Hnew c Hf Hok Hj)
    as (chunks & row & c' & Hw & Hf' & Hok' & Hkeep & Hdb & _ & Hkind & Hsize & Hchunks).
  eexists _, c'. split_and!; [|split; [done| | |exact Hf']|done|done|done].
  - unfold write. rewrite Hp. erewrite bind_ok by done.
    erewrite bind_ok by by apply materialize_private. rewrite Hk. erewrite bind_ok by done.
    exact Hw.
  - by eapply load_written; [exact Hl|rewrite Hdb|rewrite Hdb|..].
  - done.
Qed.

Lemma truncate_private ws path ino flat other c n now :
  private_file ws path ino flat other c -> 0 <= n < 2 ^ 63 ->
  (n - 1) / CHUNK_SIZE * CHUNK_SIZE <= zlen flat ->
  cs_distinct (block (resize_zero flat n) ((n - 1) / CHUNK_SIZE)) -> store_ok 2 c ->
  exists ino' c', truncate blake3 ws path n now c = (Ok tt, c')
    /\ private_file ws path ino' (resize_zero flat n) other c' /\ store_ok 0 c'
    /\ keeps_content (contents c) (contents c').
Proof.
  intros [Hp Hl Hk Hf] Hn Hgap Hnew Hok.
  destruct (truncate_inode_run ws ino flat other n now Hn Hgap Hnew c Hf Hok)
    as (chunks & row & c' & Hw & Hf' & Hok' & Hkeep & Hdb).
  destruct (fo_row _ _ _ _ _ Hf') as (row' & Hrow & _ & Hkind & Hsize & Hchunks).
  eexists _, c'. split_and!; [|split; [done| | |exact Hf']|done|done].
  - unfold truncate. rewrite Hp. erewrite bind_ok by done.
    erewrite bind_ok by by apply materialize_private. rewrite Hk. erewrite bind_ok by done.
    exact Hw.
  - rewrite Hdb in Hrow. simpl in Hrow. rewrite lookup_insert_eq in Hrow. injection Hrow as ->.
    by eapply load_written; [exact Hl|rewrite Hdb|rewrite Hdb|..].
  - done.
Qed.

(** ** Creating *)

Lemma pin_all_run l c k :
  store_ok k c -> Forall (fun id => exists b, stored_as (contents c) id b) l ->
  exists c', pin_all l c = (Ok tt, c') /\ store_step k (fun j => occurs j l) c c'.
Proof.
  revert c. induction l as [|id l IH]; intros c [Hi Hroom] Hl; unfold pin_all, forM in *.
  { exists c. split; [done|]. by apply store_step_refl. }
  apply Forall_cons_1 in Hl as [(b & n & Hn) Hl].
  pose proof (cs_pin_law (core_store c) id Hi) as Hp. rewrite Hn in Hp.
  destruct Hp as (s1 & Hp & Hi1 & Ha1 & Hr1).
  assert (store_step k (fun j => if bool_decide (id = j) then 1 else 0) c (set_store s1 c)) as H1.
  { split; simpl; [done|done|split; [done|by apply Hr1]|rewrite Ha1; by eapply keeps_insert|].
    intros j. unfold refs_of. rewrite Ha1. case_bool_decide as Hj; [subst j|].
    - by rewrite lookup_insert_eq, Hn.
    - rewrite lookup_insert_ne by done. lia. }
  destruct (IH (set_store s1 c)) as (c' & Hr & H2); [apply H1| |].
  { eapply Forall_impl; [exact Hl|]. intros j [b' Hj]. exists b'. by apply (ss_keeps _ _ _ _ H1). }
  exists c'. cbn [foldM]. erewrite bind_ok; last first.
  { unfold on_store, zoom. by rewrite Hp. }
  split; [exact Hr|]. eapply store_step_ext; [by eapply store_step_trans|]. done.
Qed.

(** Storing and pinning the content of a new node. *)
Lemma store_content_run content c k :
  cs_inv (core_store c) -> Forall cs_distinct (stream_chunks content) -> 0 <= k ->
  cs_room (zlen (stream_chunks content) + k) (core_store c) ->
  exists ids c',
    (let! (chunks, _) := on_store (cs_put_stream content) in
     pin_all chunks ;;; ret chunks) c = (Ok ids, c')
    /\ store_ok k c' /\ core_db c' = core_db c /\ promoted_origins c' = promoted_origins c
    /\ manifest (contents c') ids (stream_chunks content)
    /\ keeps_content (contents c) (contents c').
Proof.
  intros Hi Hd Hk Hroom.
  destruct (cs_stream_ok (core_store c) content k Hi Hd Hk Hroom) as (ids & s1 & Hp & Hr1).
  destruct (cs_stream_any _ _ _ _ Hi Hp) as (Hi1 & Ha & Hst).
  destruct (Hst Hd ids (zlen content) eq_refl) as [_ Hm].
  destruct (pin_all_run ids (set_store s1 c) k) as (c2 & Hp2 & []); [done| |].
  { apply Forall_forall. intros id [i Hid]%list_elem_of_lookup.
    destruct (Forall2_lookup_l _ _ _ _ _ Hm Hid) as (b & _ & n & Hn). exists b, n. done. }
  exists ids, c2. split_and!; [|done|done|done| |].
  - erewrite bind_ok; last first. { unfold on_store, zoom. by rewrite Hp. }
    simpl. by erewrite bind_ok by done.
  - eapply manifest_keeps; [exact ss_keeps|]. exact Hm.
  - etransitivity; [|exact ss_keeps]. intros j b [n Hn]. exists n. by apply Ha.
Qed.

(** A new file or symlink holds its content. *)
Lemma create_node_run ws path kind mode content now c :
  normalize_path path false = Ok path -> kind <> Directory -> good c ->
  fst (metadata blake3 ws path c) = Ok None ->
  fst (ensure_parent_directory blake3 ws path c) = Ok tt ->
  is_Some (workspaces (core_db c) !! ws) -> inode_seq (core_db c) < I64_MAX ->
  zlen content < 2 ^ 63 -> Forall cs_distinct (stream_chunks content) ->
  cs_room (zlen (stream_chunks content)) (core_store c) ->
  exists ids c', create_node blake3 ws path kind mode content now c = (Ok tt, c')
    /\ let id := inode_seq (core_db c) + 1 in
       load_inode_for_path ws path (core_db c') = Some (mkInode id kind (zlen content) ids)
    /\ entries (core_db c') !! (ws, path) = Some (Some id)
    /\ inodes (core_db c') !! id = Some (mkInodeRow ws kind mode (zlen content) now now now ids)
    /\ manifest (contents c') ids (stream_chunks content)
    /\ good c' /\ keeps_content (contents c) (contents c').
Proof.
  intros Hp Hk Hg Hmeta Hpar Hws Hseq Hsz Hd Hroom.
  destruct (store_content_run content c 0) as (ids & c1 & Hs & [Hi1 _] & Hdb & _ & Hm & Hkeep);
    [apply Hg|done|done|by rewrite Z.add_0_r|].
  pose proof (zlen_nonneg content).
  set (id := inode_seq (core_db c) + 1).
  set (row := mkInodeRow ws kind mode (zlen content) now now now ids).
  set (d2 := with_inode_seq id (with_inodes (<[id := row]> (inodes (core_db c))) (core_db c))).
  set (d3 := with_entries (<[(ws, path) := Some id]> (entries d2)) d2).
  assert (create_node blake3 ws path kind mode content now c = (Ok tt, set_db d3 c1)) as Hc.
  { unfold create_node. rewrite Hp. erewrite bind_ok by done.
    destruct (same_metadata blake3 ws path c c) as (r & Hr & _); [apply Hg..|done|].
    rewrite Hr in Hmeta. simpl in Hmeta. subst r. erewrite bind_ok by done.
    rewrite bool_decide_eq_true_2 by done. erewrite bind_ok by done.
    destruct (same_ensure_parent_directory blake3 ws path c c) as (r & Hr' & _); [apply Hg..|done|].
    rewrite Hr' in Hpar. simpl in Hpar. subst r. erewrite bind_ok by done.
    rewrite bool_decide_eq_false_2 by done. erewrite bind_ok by done.
    unfold transact, insert_inode, insert_entry, query, execute, modify, gets, bind, guard, ret.
    simpl. rewrite Hdb. fold id.
    rewrite (bool_decide_eq_true_2 (is_Some (workspaces _ !! ws))) by done.
    unfold size_column, as_i64. rewrite (proj2 (Z.ltb_lt (zlen content) _)) by lia.
    rewrite (proj2 (Z.leb_le 0 (zlen content))) by lia.
    rewrite (proj2 (Z.ltb_lt (inode_seq _) _)) by lia. simpl. rewrite Hdb. fold id row.
    rewrite (bool_decide_eq_true_2 (is_Some (workspaces _ !! ws))) by done.
    rewrite lookup_insert_eq, bool_decide_eq_true_2 by done. done. }
  exists ids, (set_db d3 c1). split; [done|]. cbv zeta. fold id row.
  destruct (op_create_node blake3 ws path kind mode content now c _ _ Hg I Hc) as (Hg' & _ & _).
  split_and!; [| | |done|done|done].
  - unfold load_inode_for_path. simpl. by rewrite !lookup_insert_eq.
  - simpl. by rewrite lookup_insert_eq.
  - simpl. by rewrite lookup_insert_eq.
Qed.

(** ** Promotion *)

(** [path] shows the regular file [e] of an immutable layer, and nothing of
    the workspace stands for it yet. *)
Record layer_file (ws path : string) (e : LayerEntry) (m : NodeMetadata) (flat : list Z)
    (c : core) : Prop := {
  lf_path : normalize_path path false = Ok path;
  lf_private : load_inode_for_path ws path (core_db c) = None;
  lf_visible : ancestor_tombstoned ws path (core_db c) = false;
  lf_entry : fst (lookup ws (translate_redirect ws path (core_db c)) c) = Ok (Some e);
  lf_kind : le_kind e = LFile;
  lf_single : le_hardlink_key e = None;
  lf_fresh : inode_origins (core_db c) !! (ws, translate_redirect ws path (core_db c)) = None;
  lf_metadata : fst (metadata blake3 ws path c) = Ok (Some m);
  lf_size : le_size e = zlen flat;
  lf_content : exists blocks, manifest (contents c) (le_chunks e) blocks /\ dense flat blocks }.

Lemma same_fst {A} ws (m : action Error core A) (c : core) r :
  same ws m -> db_ok (core_db c) -> fst (m c) = r -> m c = (r, c).
Proof.
  intros Hs Hd Hf. destruct (Hs c c) as (r' & Hr & _); [done..|]. by rewrite Hr in *; subst.
Qed.

Lemma resolve_layer ws path e m flat c :
  layer_file ws path e m flat c -> good c ->
  resolve_inode ws path c = (Ok (mkInode 0 File (zlen flat) (le_chunks e)), c).
Proof.
  intros [] [Hd _]. unfold resolve_inode. erewrite bind_ok by done. rewrite lf_private0.
  erewrite bind_ok by done. rewrite lf_visible0. erewrite bind_ok by done.
  erewrite bind_ok by done.
  erewrite bind_ok by by apply (same_fst ws); [apply same_lookup| |].
  erewrite bind_ok by done. erewrite bind_ok by done. rewrite lf_single0, lf_kind0, <-lf_size0.
  by erewrite bind_ok by done.
Qed.

Lemma unique_fresh (ws key : string) (m : gmap (string * string) Z) id :
  m !! (ws, key) = None -> (forall w k i, m !! (w, k) = Some i -> i < id) ->
  unique_binding ws key id m = true.
Proof.
  intros Hk Hlt. unfold unique_binding. rewrite Hk. simpl. apply bool_decide_eq_true.
  intros [w k] i Hi [_ ->]. apply Hlt in Hi. lia.
Qed.

Lemma bind_private_new ws path e m flat src mode c :
  layer_file ws path e m flat c -> good c ->
  is_Some (workspaces (core_db c) !! ws) -> inode_seq (core_db c) < I64_MAX ->
  0 <= ino_size src < 2 ^ 63 ->
  let d := core_db c in
  let id := inode_seq d + 1 in
  let o := translate_redirect ws path d in
  exists d', bind_private ws path o None src mode c
      = (Ok (mkInode id (ino_kind src) (ino_size src) (ino_chunks src), true, true), set_db d' c)
    /\ inodes d' = <[id := mkInodeRow ws (ino_kind src) mode (ino_size src) 0 0 0 (ino_chunks src)]>
         (inodes d)
    /\ entries d' = <[(ws, path) := Some id]> (entries d)
    /\ journal_seq d' = journal_seq d.
Proof.
  intros [] [Hd _] Hws Hseq Hsz d id o. unfold bind_private, transact.
  erewrite bind_ok by done. rewrite lf_private0. erewrite bind_ok by done.
  assert (load_inode_for_origin ws o (core_db c) = None) as ->
    by (unfold load_inode_for_origin, o, d; by rewrite lf_fresh0).
  unfold insert_inode, insert_origin, insert_entry, query, execute, modify, gets, bind, guard, ret.
  simpl. rewrite (bool_decide_eq_true_2 (is_Some (workspaces _ !! ws))) by done.
  unfold size_column, as_i64. rewrite (proj2 (Z.ltb_lt (ino_size src) _)) by lia.
  rewrite (proj2 (Z.leb_le 0 (ino_size src))) by lia.
  rewrite (proj2 (Z.ltb_lt (inode_seq _) _)) by lia. simpl.
  rewrite unique_fresh; last first.
  { intros w k i (r & Hr & _)%(ok_origins _ Hd). pose proof (ok_seq _ Hd i ltac:(by eexists)). lia. }
  { done. }
  simpl. rewrite (bool_decide_eq_true_2 (is_Some (workspaces _ !! ws))) by done.
  rewrite lookup_insert_eq, bool_decide_eq_true_2 by done. simpl.
  eexists. split; [reflexivity|]. by split_and!.
Qed.

Lemma refs_nonneg c j : cs_inv (core_store c) -> 0 <= refs_of (contents c) j.
Proof.
  intros Hi. unfold refs_of. destruct (contents c !! j) as [[b n]|] eqn:H; simpl; [|lia].
  by eapply cs_refs_nonneg.
Qed.

Lemma layer_file_step ws path e m flat k delta c c' :
  layer_file ws path e m flat c -> good c -> store_step k delta c c' ->
  layer_file ws path e m flat c' /\ good c'.
Proof.
  intros [] [Hd Hi] []. split; [|by split; [rewrite ss_db|apply ss_ok]].
  assert (forall A (a : action Error core A), same ws a -> fst (a c') = fst (a c)) as Hsame.
  { intros A a Ha. apply (same_run ws); [done|done|by rewrite ss_db|by rewrite ss_db]. }
  split; rewrite ?ss_db; try done.
  - by rewrite Hsame by apply same_lookup.
  - by rewrite Hsame by apply same_metadata.
  - destruct lf_content0 as (blocks & Hm & Hden). exists blocks. split; [|done].
    by eapply manifest_keeps.
Qed.

(** Promotion gives the path a private file with the content of the layer,
    holding its own references. *)
Lemma copy_up_run ws path e m flat c k :
  layer_file ws path e m flat c -> good c -> cs_room k (core_store c) ->
  is_Some (workspaces (core_db c) !! ws) -> inode_seq (core_db c) < I64_MAX ->
  zlen flat < 2 ^ 63 ->
  exists ino c', materialize blake3 ws path c = (Ok ino, c')
    /\ private_file ws path ino flat (refs_of (contents c)) c'
    /\ store_ok k c' /\ good c' /\ keeps_content (contents c) (contents c')
    /\ journal_seq (core_db c') = journal_seq (core_db c)
    /\ promoted_origins c' !! (ws, translate_redirect ws path (core_db c)) = Some (ino_id ino).
Proof.
  intros Hl Hg Hroom Hws Hseq Hsz. pose proof Hl as []. pose proof Hg as [Hd Hi].
  destruct lf_content0 as (blocks & Hm & Hden). pose proof (zlen_nonneg flat).
  set (src := mkInode 0 File (zlen flat) (le_chunks e)).
  set (o := translate_redirect ws path (core_db c)) in *.
  destruct (pin_all_run (le_chunks e) c k) as (c1 & Hp & H1); [done| |].
  { apply Forall_forall. intros id [i Hid]%list_elem_of_lookup.
    destruct (Forall2_lookup_l _ _ _ _ _ Hm Hid) as (b & _ & ?). by exists b. }
  destruct (layer_file_step ws path e m flat _ _ c c1 Hl Hg H1) as [Hl1 Hg1].
  destruct (bind_private_new ws path e m flat src (m_mode m) c1) as (d' & Hb & Hin & Hen & Hj);
    rewrite ?(ss_db _ _ _ _ H1) in *; [done..|simpl; lia|].
  set (ino := mkInode (inode_seq (core_db c) + 1) File (zlen flat) (le_chunks e)).
  set (c2 := set_promoted (<[(ws, o) := ino_id ino]> (promoted_origins c1)) (set_db d' c1)).
  assert (materialize blake3 ws path c = (Ok ino, c2)) as Hmat.
  { unfold materialize. erewrite bind_ok by done. rewrite lf_private0.
    erewrite bind_ok by done. rewrite lf_visible0. erewrite bind_ok by done.
    erewrite bind_ok by done. fold o.
    erewrite bind_ok by by apply (same_fst ws); [apply same_lookup| |].
    erewrite bind_ok by done. erewrite bind_ok by by eapply resolve_layer.
    erewrite bind_ok by by apply (same_fst ws); [apply same_metadata| |].
    erewrite bind_ok by done. erewrite bind_ok by done. rewrite lf_single0.
    erewrite bind_ok by done. cbn beta iota. erewrite bind_ok by done.
    by erewrite bind_ok by done. }
  exists ino, c2. split; [done|].
  destruct (op_materialize_any blake3 ws path c _ _ Hg I Hmat) as (Hg2 & _ & _).
  assert (store_ok k c2) as Hok2 by apply H1.
  split_and!; [|done|done|apply H1|done|simpl; by rewrite lookup_insert_eq].
  split; [done| |done|split].
  - unfold load_inode_for_path. simpl. rewrite Hen, lookup_insert_eq, Hin, lookup_insert_eq. done.
  - exists blocks. split; [|done]. eapply manifest_keeps; [apply H1|done].
  - done.
  - eexists. simpl. rewrite Hin, lookup_insert_eq. by split_and!.
  - intros j. simpl. rewrite (ss_refs _ _ _ _ H1). lia.
  - intros j. by apply refs_nonneg.
Qed.

(** Reading a path whose private inode holds a stored stream. *)
Lemma read_stream ws path id kind content ids c o n :
  normalize_path path false = Ok path -> kind <> Directory ->
  load_inode_for_path ws path (core_db c) = Some (mkInode id kind (zlen content) ids) ->
  manifest (contents c) ids (stream_chunks content) -> cs_inv (core_store c) ->
  zlen content < 2 ^ 63 -> 0 <= o -> 0 <= n ->
  exists c', read_file ws path o n c = (Ok (slice content o n), c').
Proof.
  intros Hp Hk Hl Hm Hi Hsz Ho Hn. unfold read_file. rewrite Hp. erewrite bind_ok by done.
  erewrite bind_ok by by apply resolve_private. simpl.
  rewrite bool_decide_eq_false_2 by done. erewrite bind_ok by done.
  destruct (read_chunks_run content _ ids (stream_dense content) c o n) as (c' & Hr & _);
    [done|done|lia|done|done|by exists c'].
Qed.

(** ** Removal *)

Lemma tombstone_below ws path rest d :
  entries d !! (ws, path) = Some None ->
  ancestor_tombstoned ws (path +:+ String slash rest) d = true.
Proof.
  intros Ht. unfold ancestor_tombstoned. rewrite length_string_app. simpl.
  assert (String.length rest < String.length path + S (String.length rest))%nat as Hl by lia.
  revert Hl. generalize (String.length path + S (String.length rest))%nat as fuel.
  intros fuel. revert rest. induction fuel as [|fuel IH]; intros rest Hl; [lia|].
  cbn [ancestor_tombstoned_from]. apply orb_true_iff. right.
  destruct (rsplit_once slash rest) as [[a b]|] eqn:Hs.
  - apply rsplit_once_Some in Hs as [-> Hb].
    assert (rsplit_once slash (path +:+ String slash (a +:+ String slash b))
      = Some (path +:+ String slash a, b)) as ->.
    { apply rsplit_once_Some. split; [|done]. by rewrite app_string_assoc. }
    apply IH. rewrite length_string_app in Hl. simpl in Hl. lia.
  - apply rsplit_once_None in Hs.
    assert (rsplit_once slash (path +:+ String slash rest) = Some (path, rest)) as ->
      by by apply rsplit_once_Some.
    destruct fuel; simpl; by rewrite (bool_decide_eq_true_2 (entries d !! (ws, path) = Some None)).
Qed.

Lemma tombstone_at ws path d :
  entries d !! (ws, path) = Some None -> ancestor_tombstoned ws path d = true.
Proof.
  intros Ht. unfold ancestor_tombstoned. destruct (String.length path); simpl;
    by rewrite (bool_decide_eq_true_2 (entries d !! (ws, path) = Some None)).
Qed.

Lemma not_pristine ws path x d :
  entries d !! (ws, path) = Some x -> pristine_overlay ws d = false.
Proof.
  intros Hp. unfold pristine_overlay. apply andb_false_iff. left. apply bool_decide_eq_false.
  intros Hnil. apply (workspace_entries_elem ws) in Hp. rewrite Hnil in Hp.
  by apply not_elem_of_nil in Hp.
Qed.

Lemma hidden_absent ws path q x (c : core) :
  entries (core_db c) !! (ws, path) = Some x -> q <> "" -> normalize_path q true = Ok q ->
  normalize_path q false = Ok q -> load_inode_for_path ws q (core_db c) = None ->
  ancestor_tombstoned ws q (core_db c) = true ->
  metadata blake3 ws q c = (Ok None, c)
  /\ (forall o n, read_file ws q o n c = (Err (NotFound q), c)).
Proof.
  intros Hp Hne Hq1 Hq Hl Ht. split.
  - unfold metadata. rewrite Hq1. erewrite bind_ok by done.
    rewrite bool_decide_eq_false_2 by done. unfold metadata_at. erewrite bind_ok by done.
    rewrite (not_pristine ws path x) by done.
    erewrite bind_ok by done.
    assert (overlay_entry ws q (core_db c) = None) as ->.
    { unfold overlay_entry, load_metadata_for_inode, load_inode_for_path in *.
      destruct (entries (core_db c) !! (ws, q)) as [[id|]|]; [|done..].
      by destruct (inodes (core_db c) !! id). }
    erewrite bind_ok by done. by rewrite Ht.
  - intros o n. unfold read_file. rewrite Hq. erewrite bind_ok by done. apply bind_err.
    unfold resolve_inode. erewrite bind_ok by done. rewrite Hl. erewrite bind_ok by done.
    by rewrite Ht.
Qed.

(** The metadata of a private node is that of its row. *)
Lemma metadata_private ws path id row (c : core) :
  normalize_path path false = Ok path ->
  entries (core_db c) !! (ws, path) = Some (Some id) -> inodes (core_db c) !! id = Some row ->
  i_workspace row = ws ->
  metadata blake3 ws path c
  = (Ok (Some (mkMetadata (i_kind row) (i_mode row) (i_size row) id (link_count ws id (core_db c))
                 (i_accessed row) (i_modified row) (i_changed row))), c).
Proof.
  intros Hp He Hr Hw. destruct (normalize_root path Hp) as [Hp' Hne].
  unfold metadata. rewrite Hp'. erewrite bind_ok by done.
  rewrite bool_decide_eq_false_2 by done. unfold metadata_at. erewrite bind_ok by done.
  rewrite (not_pristine ws path (Some id)) by done. erewrite bind_ok by done.
  unfold overlay_entry. rewrite He. unfold load_metadata_for_inode.
  by rewrite Hr, bool_decide_eq_true_2.
Qed.

Lemma unlink_run ws path m ino c c1 :
  normalize_path path false = Ok path -> good c ->
  fst (metadata blake3 ws path c) = Ok (Some m) ->
  (m_kind m = Directory -> fst (read_dir blake3 ws path c) = Ok []) ->
  materialize blake3 ws path c = (Ok ino, c1) -> is_Some (workspaces (core_db c) !! ws) ->
  let d' := with_entries (<[(ws, path) := None]> (entries (core_db c1))) (core_db c1) in
  unlink blake3 ws path c = (Ok tt, set_db d' c1).
Proof.
  intros Hp Hg Hm Hk Hmat Hws d'. unfold unlink. rewrite Hp. erewrite bind_ok by done.
  erewrite bind_ok by by apply (same_fst ws); [apply same_metadata|apply Hg|].
  erewrite bind_ok by done. erewrite bind_ok; last first.
  { case_bool_decide as Hdir; [|done].
    erewrite bind_ok by (apply (same_fst ws); [apply same_read_dir|apply Hg|by apply Hk]). done. }
  erewrite bind_ok by done.
  unfold transact, insert_tombstone, query, gets, execute, modify, bind, guard, ret. simpl.
  destruct (op_materialize_any blake3 ws path c _ _ Hg I Hmat) as (_ & [Hf _] & _).
  pose proof (ag_shared _ _ _ (fr_others _ _ _ Hf)) as Hsh. unfold shared in Hsh.
  assert (workspaces (core_db c1) = workspaces (core_db c)) as -> by (by simplify_eq).
  by rewrite bool_decide_eq_true_2.
Qed.

(** ** Renaming a file *)

Definition renamed (ws p q : string) (id : Z) (d : Db) : Db :=
  with_entries (<[(ws, p) := None]> (<[(ws, q) := Some id]> (entries d))) d.

Lemma rename_rows_run ws p q id (c : core) :
  is_Some (workspaces (core_db c) !! ws) -> owned ws id (core_db c) ->
  (insert_entry ws q id ;;; insert_tombstone ws p) c
  = (Ok tt, set_db (renamed ws p q id (core_db c)) c).
Proof.
  intros Hws (r & Hr & _).
  unfold insert_entry, insert_tombstone, query, gets, execute, modify, bind, guard, ret. simpl.
  rewrite (bool_decide_eq_true_2 (is_Some (workspaces _ !! ws))) by done.
  rewrite Hr, bool_decide_eq_true_2 by done. simpl.
  by rewrite (bool_decide_eq_true_2 (is_Some (workspaces _ !! ws))).
Qed.

Lemma rename_file_run ws p q ino (c : core) :
  p <> q -> is_Some (workspaces (core_db c) !! ws) -> owned ws (ino_id ino) (core_db c) ->
  exists d' released, rename_file ws p q ino c = (Ok released, set_db d' c)
    /\ entries d' = entries (renamed ws p q (ino_id ino) (core_db c))
    /\ inodes d' !! ino_id ino = inodes (core_db c) !! ino_id ino
    /\ (released = []
        \/ exists old, load_inode_for_path ws q (core_db c) = Some old /\ released = ino_chunks old).
Proof.
  intros Hne Hws Ho. set (d1 := renamed ws p q (ino_id ino) (core_db c)).
  assert (forall A (k : unit -> action Error core A),
    (insert_entry ws q (ino_id ino) ;;; (let! u := insert_tombstone ws p in k u)) c
    = k tt (set_db d1 c)) as Hrows.
  { intros A k. pose proof (rename_rows_run ws p q (ino_id ino) c Hws Ho) as Hr.
    apply bind_ok_inv in Hr as (u & c1 & H1 & H2). erewrite bind_ok by done.
    by erewrite bind_ok by done. }
  unfold rename_file, transact. erewrite bind_ok by done. rewrite Hrows.
  destruct (load_inode_for_path ws q (core_db c)) as [old|]; last first.
  { exists d1, []. split_and!; [done|done|done|by left]. }
  do 2 (erewrite bind_ok by done).
  case_bool_decide as Hlive; last first. { exists d1, []. split_and!; [done|done|done|by left]. }
  assert (ino_id old <> ino_id ino) as Hdiff.
  { intros Heq. assert ((q, Some (ino_id ino)) ∈ live_links ws (ino_id old) d1) as Hin.
    { unfold live_links. apply list_elem_of_filter. split; [by rewrite Heq|].
      apply workspace_entries_elem. simpl. rewrite lookup_insert_ne by congruence.
      by rewrite lookup_insert_eq. }
    simpl in Hlive. rewrite Hlive in Hin. by apply not_elem_of_nil in Hin. }
  simpl. destruct (inodes (core_db c) !! ino_id old) as [r|].
  - case_bool_decide.
    + exists (delete_inode (ino_id old) d1), (ino_chunks old). split_and!; [done|done| |eauto].
      simpl. by rewrite lookup_delete_ne.
    + exists d1, (ino_chunks old). split_and!; [done|done|done|eauto].
  - exists d1, (ino_chunks old). split_and!; [done|done|done|eauto].
Qed.

Lemma rename_run ws p q m dm ino c c1 k :
  normalize_path p false = Ok p -> normalize_path q false = Ok q ->
  q <> p -> starts_with (p +:+ "/") q = false -> good c ->
  fst (metadata blake3 ws p c) = Ok (Some m) -> m_kind m <> Directory ->
  fst (metadata blake3 ws q c) = Ok dm ->
  (forall x, dm = Some x -> m_kind x <> Directory) ->
  materialize blake3 ws p c = (Ok ino, c1) ->
  is_Some (workspaces (core_db c1) !! ws) -> load_inode_for_path ws p (core_db c1) = Some ino ->
  store_ok k c1 ->
  (forall old, load_inode_for_path ws q (core_db c1) = Some old ->
     forall j, occurs j (ino_chunks old) <= refs_of (contents c1) j) ->
  exists c', rename blake3 ws p q c = (Ok tt, c')
    /\ load_inode_for_path ws q (core_db c') = Some ino
    /\ entries (core_db c') !! (ws, p) = Some None
    /\ good c' /\ keeps_content (contents c1) (contents c').
Proof.
  intros Hp Hq Hne Hst Hg Hm Hk Hdm Hdk Hmat Hws Hl Hok Hrel.
  destruct (op_materialize blake3 ws p c _ _ Hg I Hmat) as (Hg1 & _ & Hown).
  specialize (Hown ino eq_refl).
  destruct (rename_file_run ws p q ino c1 (not_eq_sym Hne) Hws Hown)
    as (d' & rel & Hr & Hen & Hin & Hwhich).
  destruct (unpin_all_run rel (set_db d' c1) k) as (c2 & Hu & H2); [done| |].
  { intros j. simpl. destruct Hwhich as [->|(old & Hold & ->)]; [|by eapply Hrel].
    simpl. apply refs_nonneg, Hg1. }
  assert (rename blake3 ws p q c = (Ok tt, c2)) as Hrun.
  { unfold rename. rewrite Hp, Hq. do 2 (erewrite bind_ok by done).
    rewrite bool_decide_eq_false_2, Hst by done. erewrite bind_ok by done.
    erewrite bind_ok by by apply (same_fst ws); [apply same_metadata|apply Hg|].
    erewrite bind_ok by done.
    erewrite bind_ok by by apply (same_fst ws); [apply same_metadata|apply Hg|].
    rewrite bool_decide_eq_false_2 by done. cbn [negb].
    erewrite bind_ok; last first.
    { destruct dm as [x|]; [|done]. by rewrite bool_decide_eq_false_2 by by apply Hdk. }
    do 2 (erewrite bind_ok by done). exact Hu. }
  exists c2. split; [done|]. rewrite (ss_db _ _ _ _ H2). simpl.
  destruct (op_rename blake3 ws p q c _ _ Hg I Hrun) as (Hg2 & _ & _).
  split_and!; [| |done|apply H2].
  - unfold load_inode_for_path in *. rewrite Hen. simpl.
    rewrite lookup_insert_ne by congruence. rewrite lookup_insert_eq, Hin.
    destruct (entries (core_db c1) !! (ws, p)) as [[id|]|]; [|done..].
    destruct (inodes (core_db c1) !! id) as [r|] eqn:Hr'; [|done]. injection Hl as <-.
    simpl. by rewrite Hr'.
  - rewrite Hen. simpl. by rewrite lookup_insert_eq.
Qed.

(** ** The promotion cache *)

Definition same_cache (c c' : core) : Prop := promoted_origins c' = promoted_origins c.
#[export] Instance same_cache_preorder : PreOrder same_cache.
Proof. split; [done|]. unfold same_cache. intros a b c H1 H2. congruence. Qed.

Lemma cache_on_store {A} (m : action Error St A) : keeps same_cache (on_store m).
Proof. intros c r c'. unfold on_store, zoom. destruct (m _). by intros [= <- <-]. Qed.
Lemma cache_execute f : keeps same_cache (execute f).
Proof. by intros c r c' [= <- <-]. Qed.
Lemma cache_query {A} (f : Db -> A) : keeps same_cache (query f).
Proof. by intros c r c' [= <- <-]. Qed.
Hint Resolve cache_on_store cache_execute cache_query : act.

Lemma write_inode_cache ws ino off bytes now :
  keeps same_cache (write_inode ws ino off bytes now).
Proof.
  assert (forall b, keeps same_cache (put_pinned b)) as Hput.
  { intros b. unfold put_pinned. apply keeps_bind; [apply _|auto with act|]. intros id.
    apply keeps_bind; [apply _|auto with act|]. intros. apply keeps_ret, _. }
  unfold write_inode, extend_zero, write_chunk, index_slice, copy_from_slice, update_inode,
    begin_namespace_journal, complete_namespace_journal, unpin_all.
  repeat first
    [ solve [auto with act]
    | apply keeps_bind; [apply _| |intros ?]
    | apply keeps_foldM; [apply _|intros ??]
    | apply keeps_forM; [apply _|intros ?]
    | apply keeps_mapM; [apply _|intros ?]
    | apply keeps_ret, _ | apply keeps_throw, _ | apply keeps_panic, _ | apply keeps_guard, _
    | apply keeps_unwrap, _
    | match goal with
      | |- keeps _ (if ?b then _ else _) => destruct b
      | |- keeps _ (match ?x with _ => _ end) => destruct x
      end ].
Qed.
End Files.
