(* ===== verification/Demo.v ===== *)
(** A small concrete workspace for the worked examples: two workspaces over one
    base layer that holds the file [g], with a private file [f] in one of them,
    on the chunk store with a digest that is injective by construction. *)

From S2P Require Import Prelude Error RustStr PathPolicy ChunkStore Bytes ChunkStoreFacts ChunkRecovery ContentStore ChunkSpec Tracker Core Layers Namespace FileContent View Isolation NamespaceFacts.
#[local] Open Scope string_scope.
#[local] Open Scope list_scope.
#[local] Open Scope Z_scope.

Definition demo_digest (b : list Z) : list Z := Zpos (encode b) :: replicate 31 0.

Lemma demo_digest_len b : zlen (demo_digest b) = 32.
Proof. done. Qed.
Lemma demo_distinct b : no_collision demo_digest b.
Proof. intros b'. unfold demo_digest. intros [= H]. by apply (inj encode) in H. Qed.

#[export] Instance demo_store : ContentStore ChunkStore := chunk_content_store demo_digest.
#[export] Instance demo_laws : ContentStoreLaws ChunkStore :=
  chunk_content_laws demo_digest demo_digest_len.

Definition demo_bytes : list Z := [1; 2; 3].
Definition demo_id : list Z := demo_digest demo_bytes.

(** The store with one chunk, referred to by the private file and by the layer. *)
Definition demo_chunks : ChunkStore :=
  ((let! id := cs_put demo_bytes in cs_pin id ;;; cs_pin id) new_store).2.

Lemma demo_new_inv : inv demo_digest new_store.
Proof.
  assert (disk_ok demo_digest empty_disk) as Hd.
  { split; simpl.
    - intros id row. by rewrite lookup_empty.
    - intros seg c. by rewrite lookup_empty.
    - intros seg. rewrite lookup_empty. by intros [].
    - done. }
  unfold new_store. rewrite (open_run demo_digest demo_digest_len empty_disk Hd). simpl.
  by apply (inv_reopened demo_digest).
Qed.

Lemma demo_chunks_inv : cs_inv demo_chunks.
Proof.
  assert (forall id, preserves cs_inv (cs_pin (St := ChunkStore) id)) as Hpin.
  { intros id s r s' Hi Hr. pose proof (cs_pin_law s id Hi) as Hp.
    destruct (cs_abs s !! id) as [[b n]|].
    - destruct Hp as (s1 & Hp & Hi1 & _). rewrite Hp in Hr. by injection Hr as _ <-.
    - destruct Hp as [e Hp]. rewrite Hp in Hr. by injection Hr as _ <-. }
  cut (preserves cs_inv (let! id := cs_put (St := ChunkStore) demo_bytes in cs_pin id ;;; cs_pin id)).
  { intros Hp. unfold demo_chunks. eapply (Hp new_store); [exact demo_new_inv|].
    apply surjective_pairing. }
  apply preserves_bind; [|intros id].
  - intros s0 r0 s1 Hi Hp. by destruct (cs_put_any s0 _ r0 s1 Hi Hp).
  - by apply preserves_bind.
Qed.

Lemma demo_chunks_abs : cs_abs demo_chunks = {[ demo_id := (demo_bytes, 2) ]}.
Proof. vm_compute. reflexivity. Qed.

Lemma demo_chunks_room n : n <= I64_MAX - 1 -> cs_room n demo_chunks.
Proof.
  intros Hn seg Hs. replace (cow_segments demo_chunks) with ({[ 1 := 43 ]} : gmap Z Z) in Hs
    by (vm_compute; reflexivity).
  destruct Hs as [c Hs]. apply lookup_singleton_Some in Hs as [<- _]. lia.
Qed.

(** ** The database *)

Definition demo_baseline : BaselineSnapshot :=
  mkBaseline "/repo" "commit" "hash" "index" [] [] [] [] None None.
Definition demo_workspace : WorkspaceRow :=
  mkWorkspaceRow "/repo" "commit" "hash" demo_baseline WReady.
Definition demo_inode : InodeRow := mkInodeRow "w" File 420 3 0 0 0 [demo_id].
Definition demo_layer_row : LayerRow := mkLayerRow "" "g" LFile 420 3 0 [demo_id] None 1.
Definition demo_tracker : TrackerDb := mkTrackerDb ∅ ∅ ∅ ∅ ∅.

Definition demo_db : Db :=
  mkDb {[ "w" := demo_workspace; "v" := demo_workspace ]} ∅ {[ 1 := demo_inode ]} 1
    {[ ("w", "f") := Some 1 ]} ∅ ∅ ∅ ∅ 0 ∅ ∅ {[ "base" := mkBaseRow "/repo" "commit" true ]}
    {[ ("base", "g") := demo_layer_row ]} [mkDirtyLayerRow "dirty" "base" demo_baseline] ∅
    {[ "w" := ("base", "dirty"); "v" := ("base", "dirty") ]} ∅ demo_tracker.

Definition demo_core : Core ChunkStore := mkCore demo_db demo_chunks ∅.

Lemma demo_db_ok : db_ok demo_db.
Proof.
  split; simpl.
  - intros id [r Hr]. apply lookup_singleton_Some in Hr as [<- _]. lia.
  - intros w p id Hp. apply lookup_singleton_Some in Hp as [[= <- <-] [= <-]].
    exists demo_inode. split; [vm_compute; reflexivity|done].
  - intros w o id. by rewrite lookup_empty.
  - intros w k id. by rewrite lookup_empty.
Qed.

Lemma demo_good : good demo_core.
Proof. split; [exact demo_db_ok|exact demo_chunks_inv]. Qed.

Lemma demo_store_ok n : n <= I64_MAX - 1 -> store_ok n demo_core.
Proof. intros Hn. split; [exact demo_chunks_inv|by apply demo_chunks_room]. Qed.

(** The layer's reference. *)
Definition demo_other (j : list Z) : Z := if bool_decide (demo_id = j) then 1 else 0.

Lemma demo_stored : stored_as (cs_abs demo_chunks) demo_id demo_bytes.
Proof. exists 2. by rewrite demo_chunks_abs, lookup_singleton_eq. Qed.

Lemma demo_content :
  exists blocks, manifest (cs_abs demo_chunks) [demo_id] blocks /\ dense demo_bytes blocks.
Proof.
  exists [demo_bytes]. split; [constructor; [exact demo_stored|constructor]|].
  split; vm_compute; [reflexivity|discriminate].
Qed.

Lemma demo_private : private_file "w" "f" (mkInode 1 File 3 [demo_id]) demo_bytes demo_other demo_core.
Proof.
  split; [vm_compute; reflexivity..|]. split.
  - exact demo_content.
  - done.
  - exists demo_inode. split_and!; [vm_compute; reflexivity|done..].
  - intros j. change (refs_of (cs_abs demo_chunks) j = occurs j [demo_id] + demo_other j).
    rewrite demo_chunks_abs. unfold refs_of, demo_other. cbn [occurs]. case_bool_decide as Hj.
    + rewrite <-Hj. by rewrite lookup_singleton_eq.
    + by rewrite lookup_singleton_ne.
  - intros j. unfold demo_other. case_bool_decide; lia.
Qed.

Definition demo_layer_entry : LayerEntry := row_entry demo_layer_row.
Definition demo_metadata : NodeMetadata :=
  mkMetadata File 420 3 (stable_inode demo_digest "w" "g") 1 0 0 0.

Lemma demo_layer_file :
  layer_file demo_digest "w" "g" demo_layer_entry demo_metadata demo_bytes demo_core.
Proof. split; [vm_compute; reflexivity..|]. exact demo_content. Qed.
