(* ===== verification/NamespaceSpec.v ===== *)
(** What a workspace promises its clients, with concrete runs: isolation
    between workspaces, copy on write, byte-array semantics of files, creation,
    symlinks, removal and renaming. *)

From S2P Require Import Prelude Error RustStr PathPolicy ChunkStore Bytes ChunkStoreFacts ContentStore ChunkSpec Tracker Core Layers Namespace FileContent FileResize View Isolation NamespaceFacts Demo.
#[local] Open Scope string_scope.
#[local] Open Scope list_scope.
#[local] Open Scope Z_scope.

Section Claims.
Context {St : Type} {CS : ContentStore St} {CL : ContentStoreLaws St}.
Context (blake3 : list Z -> list Z).
#[local] Opaque CHUNK_SIZE.
Abbreviation core := (Core St).
Abbreviation contents c := (cs_abs (core_store c)).

(** C1: Workspaces are isolated.  Whatever requests the handles of other
    workspaces serve, in whatever order and with whatever outcome, a
    workspace keeps its view: the same metadata and directory listings, and
    every read of a path or of an open file that succeeded before returns
    the same bytes after.  The tables stay well formed. *)
Theorem workspace_isolation w (l : list (string * request * Z)) (c : core) :
  good c -> Forall (fun x => own_handle x.1.1 x.1.2) l -> Forall (fun x => x.1.1 <> w) l ->
  good (serve_all blake3 l c) /\ undisturbed blake3 w c (serve_all blake3 l c).
Proof. intros Hg Ho Hw. by apply serve_all_undisturbed. Qed.

(** Writing to a private file succeeds, reports every byte written, and
    makes the file its old bytes with the new ones spliced in; every later
    read returns that, and each chunk is counted once per manifest that
    refers to it.  (The write may not start beyond the block that holds the
    end of the file.) *)
Theorem write_overwrites ws path ino flat other c off bytes now :
  private_file ws path ino flat other c ->
  0 <= off -> bytes <> [] -> Z.max (zlen flat) (off + zlen bytes) < 2 ^ 63 ->
  off / CHUNK_SIZE * CHUNK_SIZE <= zlen flat ->
  cs_distinct [] ->
  (forall j, off / CHUNK_SIZE <= j <= (off + zlen bytes - 1) / CHUNK_SIZE ->
     cs_distinct (block (splice flat off bytes) j)) ->
  store_ok (2 * ((off + zlen bytes - 1) / CHUNK_SIZE + 1)) c ->
  journal_seq (core_db c) < I64_MAX ->
  exists ino' c', write blake3 ws path off bytes now c = (Ok (zlen bytes), c')
    /\ private_file ws path ino' (splice flat off bytes) other c'
    /\ (forall o n, 0 <= o -> 0 <= n ->
          fst (read_file ws path o n c') = Ok (slice (splice flat off bytes) o n)).
Proof.
  intros Hf Ho Hb Hend Hgap He Hnew Hok Hj.
  destruct (write_private blake3 ws path ino flat other c off bytes now Hf Ho Hb Hend Hgap He
    Hnew Hok Hj) as (ino' & c' & Hw & Hf' & [Hi' _] & _).
  exists ino', c'. split_and!; [done..|]. intros o n Hon Hn.
  destruct (read_private ws path ino' _ other c' o n Hf' Hi') as (c'' & -> & _);
    [rewrite zlen_splice by done; lia|done..].
Qed.

(** Truncating a private file cuts it or extends it with zeros to the
    requested size, and every later read returns the resized bytes.  (An
    extension may not pass the end of the block after which the old content
    ends.) *)
Theorem truncate_resizes ws path ino flat other c size now :
  private_file ws path ino flat other c -> 0 <= size < 2 ^ 63 ->
  (size - 1) / CHUNK_SIZE * CHUNK_SIZE <= zlen flat ->
  cs_distinct (block (resize_zero flat size) ((size - 1) / CHUNK_SIZE)) -> store_ok 2 c ->
  exists ino' c', truncate blake3 ws path size now c = (Ok tt, c')
    /\ private_file ws path ino' (resize_zero flat size) other c'
    /\ (forall o n, 0 <= o -> 0 <= n ->
          fst (read_file ws path o n c') = Ok (slice (resize_zero flat size) o n)).
Proof.
  intros Hf Hs Hgap Hnew Hok.
  destruct (truncate_private blake3 ws path ino flat other c size now Hf Hs Hgap Hnew Hok)
    as (ino' & c' & Hw & Hf' & [Hi' _] & _).
  exists ino', c'. split_and!; [done..|]. intros o n Hon Hn.
  destruct (read_private ws path ino' _ other c' o n Hf' Hi') as (c'' & -> & _);
    [rewrite zlen_resize_zero; lia|done..].
Qed.

Lemma write_promoted ws path off bytes now ino c c1 :
  normalize_path path false = Ok path ->
  materialize blake3 ws path c = (Ok ino, c1) ->
  load_inode_for_path ws path (core_db c1) = Some ino ->
  write blake3 ws path off bytes now c = write blake3 ws path off bytes now c1.
Proof.
  intros Hp Hm Hl. unfold write. rewrite Hp. do 2 (erewrite bind_ok by done).
  symmetry. erewrite bind_ok by done. by erewrite bind_ok by by apply materialize_private.
Qed.

Lemma write_cache ws path off bytes now ino c r c' :
  load_inode_for_path ws path (core_db c) = Some ino ->
  normalize_path path false = Ok path ->
  write blake3 ws path off bytes now c = (Ok r, c') ->
  promoted_origins c' = promoted_origins c.
Proof.
  intros Hl Hp. unfold write. rewrite Hp. erewrite bind_ok by done.
  erewrite bind_ok by by apply materialize_private. intros H.
  apply bind_ok_inv in H as (u & s & [_ ->]%guard_ok_inv & H).
  by apply write_inode_cache in H.
Qed.

(** C2: Copy on write.  Take a regular file that the workspace sees in an
    immutable layer, without a hard link key and not yet copied, and a write
    of at least one byte that does not start past the block in which the file
    ends; let the ids, the journal and the chunk store have room and the
    digests of the new blocks not collide.  Then the write succeeds and gives
    the workspace a private file with the layer's bytes and the new ones
    spliced in.  A file opened read-only before the write reads the new bytes
    too, and every other workspace still has its view. *)
Theorem copy_on_write ws path e m flat c off bytes now :
  layer_file blake3 ws path e m flat c -> good c ->
  is_Some (workspaces (core_db c) !! ws) -> inode_seq (core_db c) < I64_MAX ->
  journal_seq (core_db c) < I64_MAX ->
  0 <= off -> bytes <> [] -> Z.max (zlen flat) (off + zlen bytes) < 2 ^ 63 ->
  off / CHUNK_SIZE * CHUNK_SIZE <= zlen flat ->
  cs_distinct [] ->
  (forall j, off / CHUNK_SIZE <= j <= (off + zlen bytes - 1) / CHUNK_SIZE ->
     cs_distinct (block (splice flat off bytes) j)) ->
  cs_room (2 * ((off + zlen bytes - 1) / CHUNK_SIZE + 1)) (core_store c) ->
  let new := splice flat off bytes in
  let h := mkHandle ws (Immutable path (translate_redirect ws path (core_db c)) m (le_chunks e)) in
  exists c', write blake3 ws path off bytes now c = (Ok (zlen bytes), c')
    /\ (forall o n, 0 <= o -> 0 <= n -> fst (read_file ws path o n c') = Ok (slice new o n))
    /\ (forall o n, 0 <= o -> 0 <= n -> fst (read_open_file h o n c') = Ok (slice new o n))
    /\ (forall w, w <> ws -> undisturbed blake3 w c c').
Proof.
  intros Hl Hg Hws Hseq Hj Ho Hb Hend Hgap He Hnew Hroom new h.
  destruct (copy_up_run blake3 ws path e m flat c _ Hl Hg Hroom Hws Hseq ltac:(lia))
    as (ino & c1 & Hm & Hf & Hok & Hg1 & _ & Hj1 & Hcache).
  destruct (write_private blake3 ws path ino flat _ c1 off bytes now Hf Ho Hb Hend Hgap He Hnew
    Hok ltac:(lia)) as (ino' & c' & Hw & Hf' & [Hi' _] & Hid & _).
  pose proof (write_cache _ _ _ _ _ _ _ _ _ (pf_entry _ _ _ _ _ _ Hf) (lf_path _ _ _ _ _ _ _ Hl)
    Hw) as Hcache'.
  rewrite <-(write_promoted ws path off bytes now ino c c1) in Hw; [|apply Hl|done|apply Hf].
  exists c'. split; [done|].
  assert (zlen new < 2 ^ 64) as Hbig by (unfold new; rewrite zlen_splice by done; lia).
  split_and!.
  - intros o n Hon Hn. by destruct (read_private ws path ino' new _ c' o n Hf' Hi') as (c'' & -> & _).
  - intros o n Hon Hn. eapply read_promoted; [done..| |done|done]. by rewrite Hcache', Hid.
  - intros w Hw'. eapply (serve_undisturbed blake3 ws w (RWrite path off bytes) now c (Ok tt));
      [done..|]. simpl. unfold discard. by erewrite bind_ok by done.
Qed.

(** A new node is there: creating a file or a symlink at a free path whose
    parent is a directory succeeds, its metadata shows the kind, mode, size
    and times it was created with, reads return its content, and creating it
    again is refused and changes nothing. *)
Theorem create_then_read ws path kind mode content now c :
  normalize_path path false = Ok path -> kind <> Directory -> good c ->
  fst (metadata blake3 ws path c) = Ok None ->
  fst (ensure_parent_directory blake3 ws path c) = Ok tt ->
  is_Some (workspaces (core_db c) !! ws) -> inode_seq (core_db c) < I64_MAX ->
  zlen content < 2 ^ 63 -> Forall cs_distinct (stream_chunks content) ->
  cs_room (zlen (stream_chunks content)) (core_store c) ->
  exists c', create_node blake3 ws path kind mode content now c = (Ok tt, c')
    /\ (exists id links, fst (metadata blake3 ws path c')
          = Ok (Some (mkMetadata kind mode (zlen content) id links now now now)))
    /\ (forall o n, 0 <= o -> 0 <= n -> fst (read_file ws path o n c') = Ok (slice content o n))
    /\ (forall kind' mode' content' now', create_node blake3 ws path kind' mode' content' now' c'
          = (Err (AlreadyExists path), c')).
Proof.
  intros Hp Hk Hg Hm Hpar Hws Hseq Hsz Hd Hroom.
  destruct (create_node_run blake3 ws path kind mode content now c Hp Hk Hg Hm Hpar Hws Hseq Hsz
    Hd Hroom) as (ids & c' & Hc & Hl & He & Hrow & Hman & [Hd' Hi'] & _).
  exists c'. split; [done|]. set (id := inode_seq (core_db c) + 1) in *.
  pose proof (metadata_private blake3 ws path id _ c' Hp He Hrow eq_refl) as Hmeta.
  split_and!.
  - rewrite Hmeta. by eexists _, _.
  - intros o n Ho Hn.
    by destruct (read_stream ws path id kind content ids c' o n) as (c'' & ->).
  - intros. unfold create_node. rewrite Hp. do 2 (erewrite bind_ok by done). done.
Qed.

(** A symlink gives back its target: a target that stays inside the
    workspace is stored, and [read_symlink] returns exactly its bytes. *)
Theorem symlink_roundtrip ws path target now c :
  normalize_path path false = Ok path -> good c ->
  validate_symlink_target path target = Ok tt ->
  fst (metadata blake3 ws path c) = Ok None ->
  fst (ensure_parent_directory blake3 ws path c) = Ok tt ->
  is_Some (workspaces (core_db c) !! ws) -> inode_seq (core_db c) < I64_MAX ->
  zlen target < 2 ^ 63 -> Forall cs_distinct (stream_chunks target) ->
  cs_room (zlen (stream_chunks target)) (core_store c) ->
  exists c', symlink blake3 ws path target now c = (Ok tt, c')
    /\ fst (read_symlink blake3 ws path c') = Ok target.
Proof.
  intros Hp Hg Hv Hm Hpar Hws Hseq Hsz Hd Hroom.
  destruct (create_node_run blake3 ws path Symlink 40960 target now c Hp ltac:(done) Hg Hm Hpar Hws
    Hseq Hsz Hd Hroom) as (ids & c' & Hc & Hl & He & Hrow & Hman & [Hd' Hi'] & _).
  exists c'. set (id := inode_seq (core_db c) + 1) in *.
  pose proof (metadata_private blake3 ws path id _ c' Hp He Hrow eq_refl) as Hmeta. split.
  - unfold symlink. rewrite Hp. erewrite bind_ok by done. rewrite Hv. by erewrite bind_ok by done.
  - unfold read_symlink. rewrite Hp. do 3 (erewrite bind_ok by done). erewrite bind_ok by done.
    destruct (read_stream ws path id Symlink target ids c' 0 (2 ^ 64 - 1)) as (c'' & Hr); [done..|].
    erewrite bind_ok by done.
    assert (slice target 0 (2 ^ 64 - 1) = target) as ->.
    { unfold slice. rewrite drop_0. apply take_ge. unfold zlen in Hsz. lia. }
    rewrite Hv. by erewrite bind_ok by done.
Qed.

(** A removed path is gone: unlinking a file, or a directory that lists
    empty, succeeds; afterwards the path has no metadata and reading it is
    [NotFound], and nothing that an immutable layer holds below it is visible
    (unless the workspace itself has an entry there). *)
Theorem unlink_hides ws path m ino c c1 :
  normalize_path path false = Ok path -> good c ->
  fst (metadata blake3 ws path c) = Ok (Some m) ->
  (m_kind m = Directory -> fst (read_dir blake3 ws path c) = Ok []) ->
  materialize blake3 ws path c = (Ok ino, c1) -> is_Some (workspaces (core_db c) !! ws) ->
  exists c', unlink blake3 ws path c = (Ok tt, c')
    /\ fst (metadata blake3 ws path c') = Ok None
    /\ (forall o n, fst (read_file ws path o n c') = Err (NotFound path))
    /\ (forall rest, let q := path +:+ String slash rest in
          normalize_path q false = Ok q -> load_inode_for_path ws q (core_db c') = None ->
          fst (metadata blake3 ws q c') = Ok None
          /\ (forall o n, fst (read_file ws q o n c') = Err (NotFound q))).
Proof.
  intros Hp Hg Hm Hk Hmat Hws.
  pose proof (unlink_run blake3 ws path m ino c c1 Hp Hg Hm Hk Hmat Hws) as Hu. cbv zeta in Hu.
  eexists. split; [exact Hu|]. set (c' := set_db _ c1).
  assert (entries (core_db c') !! (ws, path) = Some None) as He
    by (simpl; by rewrite lookup_insert_eq).
  assert (forall q, normalize_path q false = Ok q -> load_inode_for_path ws q (core_db c') = None ->
    ancestor_tombstoned ws q (core_db c') = true ->
    fst (metadata blake3 ws q c') = Ok None
    /\ forall o n, fst (read_file ws q o n c') = Err (NotFound q)) as Hhide.
  { intros q Hq Hl Ht. destruct (normalize_root q Hq) as [Hq' Hne].
    destruct (hidden_absent blake3 ws path q None c') as [-> Hr]; [done..|].
    split; [done|]. intros o n. by rewrite Hr. }
  destruct (Hhide path) as [H1 H2]; [done| |by apply tombstone_at|].
  { unfold load_inode_for_path. by rewrite He. }
  split_and!; [done|done|]. intros rest q Hq Hl. apply Hhide; [done|done|].
  by apply tombstone_below.
Qed.

(** Renaming a file moves it: the destination then has the bytes of the
    source, whatever it held before, and the source is gone. *)
Theorem rename_moves_file ws p q m dm ino flat other c c1 k :
  normalize_path q false = Ok q -> q <> p -> starts_with (p +:+ "/") q = false -> good c ->
  fst (metadata blake3 ws p c) = Ok (Some m) -> m_kind m <> Directory ->
  fst (metadata blake3 ws q c) = Ok dm ->
  (forall x, dm = Some x -> m_kind x <> Directory) ->
  materialize blake3 ws p c = (Ok ino, c1) -> private_file ws p ino flat other c1 ->
  is_Some (workspaces (core_db c1) !! ws) -> store_ok k c1 -> zlen flat < 2 ^ 64 ->
  (forall old, load_inode_for_path ws q (core_db c1) = Some old ->
     forall j, occurs j (ino_chunks old) <= refs_of (contents c1) j) ->
  exists c', rename blake3 ws p q c = (Ok tt, c')
    /\ (forall o n, 0 <= o -> 0 <= n -> fst (read_file ws q o n c') = Ok (slice flat o n))
    /\ fst (metadata blake3 ws p c') = Ok None
    /\ (forall o n, fst (read_file ws p o n c') = Err (NotFound p)).
Proof.
  intros Hq Hne Hst Hg Hm Hk Hdm Hdk Hmat Hf Hws Hok Hbig Hrel.
  pose proof Hf as [Hp Hl Hfile [(bl & Hman & Hden) Hsize _ _ _]].
  destruct (rename_run blake3 ws p q m dm ino c c1 k) as (c' & Hr & Hlq & Hep & [Hd' Hi'] & Hkeep);
    [done..|].
  exists c'. split; [done|]. split.
  - intros o n Ho Hn. unfold read_file. rewrite Hq. erewrite bind_ok by done.
    erewrite bind_ok by by apply resolve_private. rewrite Hfile. erewrite bind_ok by done.
    destruct (read_chunks_run flat bl (ino_chunks ino) Hden c' o n) as (c'' & Hrd & _);
      [done|by eapply manifest_keeps|done..|]. by rewrite Hsize, Hrd.
  - destruct (normalize_root p Hp) as [Hp' Hpne].
    destruct (hidden_absent blake3 ws p p None c') as [-> Hr']; [done..| |by apply tombstone_at|].
    { unfold load_inode_for_path. by rewrite Hep. }
    split; [done|]. intros o n. by rewrite Hr'.
Qed.
End Claims.

(** ** Worked examples *)

Lemma workspace_isolation_witness :
  undisturbed demo_digest "v" demo_core
    (serve_all demo_digest [("w", RWrite "f" 1 [9], 5); ("w", RUnlink "g", 6)] demo_core).
Proof.
  apply (workspace_isolation demo_digest "v").
  - exact demo_good.
  - repeat constructor.
  - repeat constructor; discriminate.
Defined.

Lemma demo_blocks flat j : cs_distinct (block flat j).
Proof. apply demo_distinct. Qed.

Lemma write_overwrites_witness :
  exists c', write demo_digest "w" "f" 1 [9] 5 demo_core = (Ok 1, c')
    /\ fst (read_file "w" "f" 0 10 c') = Ok [1; 9; 3].
Proof.
  destruct (write_overwrites demo_digest "w" "f" (mkInode 1 File 3 [demo_id]) demo_bytes demo_other
    demo_core 1 [9] 5) as (ino' & c' & Hw & _ & Hr).
  - exact demo_private.
  - lia.
  - discriminate.
  - vm_compute. reflexivity.
  - vm_compute. discriminate.
  - apply demo_distinct.
  - intros. apply demo_blocks.
  - apply demo_store_ok. vm_compute. discriminate.
  - vm_compute. reflexivity.
  - exists c'. split; [exact Hw|]. rewrite Hr by lia. vm_compute. reflexivity.
Defined.

Lemma truncate_resizes_witness :
  exists c', truncate demo_digest "w" "f" 5 5 demo_core = (Ok tt, c')
    /\ fst (read_file "w" "f" 0 10 c') = Ok [1; 2; 3; 0; 0].
Proof.
  destruct (truncate_resizes demo_digest "w" "f" (mkInode 1 File 3 [demo_id]) demo_bytes demo_other
    demo_core 5 5) as (ino' & c' & Hw & _ & Hr).
  - exact demo_private.
  - lia.
  - vm_compute. discriminate.
  - apply demo_blocks.
  - apply demo_store_ok. vm_compute. discriminate.
  - exists c'. split; [exact Hw|]. rewrite Hr by lia. vm_compute. reflexivity.
Defined.

Lemma copy_on_write_witness :
  exists c', write demo_digest "w" "g" 1 [9] 5 demo_core = (Ok 1, c')
    /\ fst (read_file "w" "g" 0 10 c') = Ok [1; 9; 3]
    /\ fst (read_file "v" "g" 0 10 c') = Ok [1; 2; 3].
Proof.
  destruct (copy_on_write demo_digest "w" "g" demo_layer_entry demo_metadata demo_bytes demo_core
    1 [9] 5) as (c' & Hw & Hr & _ & Hother).
  - exact demo_layer_file.
  - exact demo_good.
  - vm_compute. eexists. reflexivity.
  - vm_compute. reflexivity.
  - vm_compute. reflexivity.
  - lia.
  - discriminate.
  - vm_compute. reflexivity.
  - vm_compute. discriminate.
  - apply demo_distinct.
  - intros. apply demo_blocks.
  - apply demo_store_ok. vm_compute. discriminate.
  - exists c'. split; [exact Hw|]. split.
    + rewrite Hr by lia. vm_compute. reflexivity.
    + apply (Hother "v"); [discriminate|]. vm_compute. reflexivity.
Defined.

Lemma demo_stream b : Forall cs_distinct (stream_chunks b).
Proof. apply Forall_forall. intros c _. apply demo_distinct. Qed.

Lemma create_then_read_witness :
  exists c', create_node demo_digest "w" "h" File 384 [7; 8] 5 demo_core = (Ok tt, c')
    /\ fst (read_file "w" "h" 1 9 c') = Ok [8].
Proof.
  destruct (create_then_read demo_digest "w" "h" File 384 [7; 8] 5 demo_core)
    as (c' & Hc & _ & Hr & _).
  - vm_compute. reflexivity.
  - discriminate.
  - exact demo_good.
  - vm_compute. reflexivity.
  - vm_compute. reflexivity.
  - vm_compute. eexists. reflexivity.
  - vm_compute. reflexivity.
  - vm_compute. reflexivity.
  - apply demo_stream.
  - apply demo_store_ok. vm_compute. discriminate.
  - exists c'. split; [exact Hc|]. rewrite Hr by lia. vm_compute. reflexivity.
Defined.

Lemma symlink_roundtrip_witness :
  exists c', symlink demo_digest "w" "l" [103] 5 demo_core = (Ok tt, c')
    /\ fst (read_symlink demo_digest "w" "l" c') = Ok [103].
Proof.
  destruct (symlink_roundtrip demo_digest "w" "l" [103] 5 demo_core) as (c' & Hc & Hr).
  - vm_compute. reflexivity.
  - exact demo_good.
  - vm_compute. reflexivity.
  - vm_compute. reflexivity.
  - vm_compute. reflexivity.
  - vm_compute. eexists. reflexivity.
  - vm_compute. reflexivity.
  - vm_compute. reflexivity.
  - apply demo_stream.
  - apply demo_store_ok. vm_compute. discriminate.
  - exists c'. split; [exact Hc|exact Hr].
Defined.

Lemma unlink_hides_witness :
  exists c', unlink demo_digest "w" "g" demo_core = (Ok tt, c')
    /\ fst (metadata demo_digest "w" "g" c') = Ok None.
Proof.
  destruct (copy_up_run demo_digest "w" "g" demo_layer_entry demo_metadata demo_bytes demo_core 0)
    as (ino & c1 & Hm & _).
  - exact demo_layer_file.
  - exact demo_good.
  - apply demo_store_ok. vm_compute. discriminate.
  - vm_compute. eexists. reflexivity.
  - vm_compute. reflexivity.
  - vm_compute. reflexivity.
  - destruct (unlink_hides demo_digest "w" "g" demo_metadata ino demo_core c1)
      as (c' & Hu & Hmeta & _).
    + vm_compute. reflexivity.
    + exact demo_good.
    + vm_compute. reflexivity.
    + discriminate.
    + exact Hm.
    + vm_compute. eexists. reflexivity.
    + exists c'. split; [exact Hu|exact Hmeta].
Defined.

Lemma rename_moves_file_witness :
  exists c', rename demo_digest "w" "f" "k" demo_core = (Ok tt, c')
    /\ fst (read_file "w" "k" 0 10 c') = Ok [1; 2; 3].
Proof.
  destruct (rename_moves_file demo_digest "w" "f" "k"
    (mkMetadata File 420 3 1 1 0 0 0) None (mkInode 1 File 3 [demo_id]) demo_bytes demo_other
    demo_core demo_core 0) as (c' & Hr & Hread & _).
  - vm_compute. reflexivity.
  - discriminate.
  - vm_compute. reflexivity.
  - exact demo_good.
  - vm_compute. reflexivity.
  - discriminate.
  - vm_compute. reflexivity.
  - discriminate.
  - vm_compute. reflexivity.
  - exact demo_private.
  - vm_compute. eexists. reflexivity.
  - apply demo_store_ok. vm_compute. discriminate.
  - vm_compute. reflexivity.
  - intros old. vm_compute. discriminate.
  - exists c'. split; [exact Hr|]. rewrite Hread by lia. vm_compute. reflexivity.
Defined.

(** The condition on writes and truncations is needed, as a file of three bytes
    shows.  A write that starts a whole block after its end, or a truncation
    that extends it past its block, succeeds and reports the new size, but the
    hole is not filled: reading across it drops the hole's bytes, and reading
    inside it fails as corrupt. *)
Example holes_are_lost :
  let written := (write demo_digest "w" "f" CHUNK_SIZE [9] 5 demo_core).2 in
  let extended := (truncate demo_digest "w" "f" (CHUNK_SIZE + 1) 5 demo_core).2 in
  fst (write demo_digest "w" "f" CHUNK_SIZE [9] 5 demo_core) = Ok 1
  /\ fst (truncate demo_digest "w" "f" (CHUNK_SIZE + 1) 5 demo_core) = Ok tt
  /\ Forall (fun c =>
       load_inode_for_path "w" "f" (core_db c) ≫= (fun i => Some (ino_size i)) = Some (CHUNK_SIZE + 1)
       /\ fst (read_file "w" "f" 10 5 c) = Err (Corrupt "chunk bounds disagree with inode size"))
       [written; extended]
  /\ fst (read_file "w" "f" 0 (CHUNK_SIZE + 1) written) = Ok [1; 2; 3; 9]
  /\ fst (read_file "w" "f" 0 (CHUNK_SIZE + 1) extended) = Ok [1; 2; 3; 0].
Proof. split_and!; [..|repeat constructor| |]; vm_compute; reflexivity. Qed.
