(* ===== verification/LifecycleFacts.v ===== *)
(** Recovery and garbage collection: reference counts against the manifests,
    and what is left of pairs and layers. *)

From S2P Require Import Prelude Error RustStr PathPolicy ChunkStore Bytes ContentStore Tracker Core Layers Namespace Lifecycle FileContent View Isolation NamespaceFacts.
#[local] Open Scope string_scope.
#[local] Open Scope list_scope.
#[local] Open Scope Z_scope.

(** ** Counting references *)

Definition count_map (chunks : list (list Z)) : gmap (list Z) Z :=
  foldr (fun id m => <[id := default 0 (m !! id) + 1]> m) ∅ chunks.

Lemma count_map_lookup chunks id :
  count_map chunks !! id = if bool_decide (id ∈ chunks) then Some (occurs id chunks) else None.
Proof.
  induction chunks as [|x l IH]; simpl; [by rewrite lookup_empty|].
  destruct (decide (x = id)) as [->|Hne].
  - rewrite lookup_insert_eq, IH. rewrite (bool_decide_eq_true_2 (id ∈ id :: l)) by by left.
    rewrite (bool_decide_eq_true_2 (id = id)) by done. f_equal.
    case_bool_decide as Hin; simpl; [lia|]. assert (occurs id l = 0); [|lia].
    clear IH. induction l as [|y l IH]; [done|]. apply not_elem_of_cons in Hin as [Hy Hl].
    simpl. rewrite bool_decide_eq_false_2 by done. rewrite IH by done. done.
  - rewrite lookup_insert_ne, IH by done. rewrite (bool_decide_eq_false_2 (x = id)) by done.
    destruct (decide (id ∈ l)) as [Hin|Hin].
    + rewrite !bool_decide_eq_true_2 by (done || by right). f_equal.
    + rewrite !bool_decide_eq_false_2; [done| |done]. intros [?|?]%elem_of_cons; congruence.
Qed.

Lemma occurs_pos id l : id ∈ l <-> 0 < occurs id l.
Proof.
  induction l as [|x l IH]; simpl.
  - split; [by intros ?%not_elem_of_nil|lia].
  - rewrite elem_of_cons, IH. pose proof (occurs_nonneg id l). case_bool_decide; split; intros H1.
    + lia.
    + by left.
    + destruct H1 as [H1|H1]; [congruence|lia].
    + right. lia.
Qed.

Lemma expected_references_count d :
  expected_references d = count_map (manifest_chunks d).
Proof. unfold expected_references, chunk_counts. by rewrite list_to_map_to_list. Qed.

Lemma expected_default d id :
  default 0 (expected_references d !! id) = occurs id (manifest_chunks d).
Proof.
  rewrite expected_references_count, count_map_lookup. case_bool_decide as Hin; [done|].
  simpl. rewrite occurs_pos in Hin. pose proof (occurs_nonneg id (manifest_chunks d)). lia.
Qed.

(** ** Rows that only go away *)

(** [removes P]: rows went away, none of them a layer's or one of a workspace
    outside [P]. *)
Record removes (P : string -> Prop) (d d' : Db) : Prop := {
  rm_inodes : inodes d' ⊆ inodes d;
  rm_workspaces : workspaces d' ⊆ workspaces d;
  rm_pairs : pairs d' ⊆ pairs d;
  rm_layers : (base_entries d', dirty_entries d', dirty_layers d')
              = (base_entries d, dirty_entries d, dirty_layers d);
  rm_ok : db_ok d -> db_ok d';
  rm_kept : forall w, ~ P w ->
    agree w d d' /\ workspaces d' !! w = workspaces d !! w }.

#[export] Instance removes_preorder P : PreOrder (removes P).
Proof.
  split; [by split|]. intros a b c [] []. split; [by etransitivity..| |auto|].
  - by rewrite rm_layers1, rm_layers0.
  - intros w Hw. destruct (rm_kept0 w Hw) as [? <-], (rm_kept1 w Hw) as [? <-].
    split; [by etransitivity|done].
Qed.

Lemma removes_mono (P Q : string -> Prop) d d' :
  (forall w, P w -> Q w) -> removes P d d' -> removes Q d d'.
Proof. intros HPQ []. split; auto. Qed.

Lemma removes_manifest P d d' id :
  removes P d d' -> id ∈ manifest_chunks d' -> id ∈ manifest_chunks d.
Proof.
  intros [Hi _ _ Hl _ _]. injection Hl as H1 H2 H3. unfold manifest_chunks, count_references.
  rewrite H1, H2, H3, !elem_of_app. intros [Hin|Hin]; [left|by right].
  apply list_elem_of_bind in Hin as ([k r] & Hc & Hk%elem_of_map_to_list).
  apply list_elem_of_bind. exists (k, r). split; [done|]. apply elem_of_map_to_list.
  by eapply lookup_weaken.
Qed.

#[export] Instance occurs_Permutation id : Proper (Permutation ==> eq) (occurs id).
Proof. induction 1; simpl; lia. Qed.

Lemma occurs_length id l : occurs id l <= zlen l.
Proof.
  induction l as [|x l IH]; [done|]. rewrite zlen_cons. simpl. case_bool_decide; lia.
Qed.

Lemma occurs_removed P d d' id :
  removes P d d' -> occurs id (manifest_chunks d') <= occurs id (manifest_chunks d).
Proof.
  intros [Hi _ _ Hl _ _]. injection Hl as H1 H2 H3. unfold manifest_chunks, count_references.
  rewrite H1, H2, H3, !occurs_app. apply Z.add_le_mono_r.
  apply map_to_list_submseteq, submseteq_Permutation in Hi as [k Hk].
  rewrite Hk, bind_app, occurs_app.
  pose proof (occurs_nonneg id (k ≫= (fun x : Z * InodeRow => i_chunks x.2))). lia.
Qed.

Lemma filter_key_lookup {V} (ids : list string) (m : gmap (string * string) V) w p :
  w ∉ ids -> filter (fun x : string * string * V => x.1.1 ∉ ids) m !! (w, p) = m !! (w, p).
Proof.
  intros Hw. apply option_eq. intros v. rewrite map_lookup_filter_Some. simpl. naive_solver.
Qed.

Lemma delete_workspaces_owned ids d w id :
  w ∉ ids -> owned w id d -> owned w id (delete_workspaces ids d).
Proof.
  intros Hw (r & Hr & Hi). exists r. split; [|done]. simpl. apply map_lookup_filter_Some.
  split; [done|]. simpl. congruence.
Qed.

Lemma delete_workspaces_removes ids d :
  removes (fun w => w ∈ ids) d (delete_workspaces ids d).
Proof.
  split; [apply map_filter_subseteq|apply map_filter_subseteq|done|done|..].
  - intros [Hs He Ho Hp]. split; simpl.
    + intros id [r Hr]. apply map_lookup_filter_Some in Hr as [Hr _]. by apply Hs.
    + intros w p id [Hr Hw]%map_lookup_filter_Some. apply delete_workspaces_owned; eauto.
    + intros w p id [Hr Hw]%map_lookup_filter_Some. apply delete_workspaces_owned; eauto.
    + intros w p id [Hr Hw]%map_lookup_filter_Some. apply delete_workspaces_owned; eauto.
  - intros w Hw.
    assert (forall V (m : gmap string V),
      filter (fun x : string * V => x.1 ∉ ids) m !! w = m !! w) as Hk.
    { intros V m. apply option_eq. intros v. rewrite map_lookup_filter_Some. simpl. naive_solver. }
    split; [|apply Hk]. split; simpl.
    + by rewrite Hk.
    + done.
    + intros id r <-. rewrite map_lookup_filter_Some. simpl. naive_solver.
    + intros p. by rewrite filter_key_lookup.
    + intros p. by rewrite filter_key_lookup.
    + intros p. by rewrite filter_key_lookup.
    + intros p. by rewrite filter_key_lookup.
Qed.

Section Recovery.
Context {St : Type} {CS : ContentStore St} {CL : ContentStoreLaws St}.
Abbreviation core := (Core St).
Abbreviation contents c := (cs_abs (core_store c)).

(** The store counts each chunk once per manifest reference. *)
Definition refcounts_exact (c : core) : Prop :=
  forall id, refs_of (contents c) id = occurs id (manifest_chunks (core_db c)).

Lemma touch_run repos now (c : core) :
  0 <= as_i64 now ->
  exists t, touch_unreferenced_repository_trackers repos now c
    = (Ok tt, set_db (with_tracker t (core_db c)) c).
Proof.
  intros Hnow. unfold touch_unreferenced_repository_trackers, forM. revert c.
  induction repos as [|r l IH]; intros c; cbn [foldM].
  { exists (tracker (core_db c)). destruct c as [[] ? ?]. done. }
  erewrite bind_ok; last first.
  { erewrite bind_ok by done. instantiate (1 := set_db (with_tracker
      (if repository_referenced (core_db c) r then tracker (core_db c)
       else set_tracker_use (<[r := match tracker_use (tracker (core_db c)) !! r with
              | Some used => Z.max used (as_i64 now) | None => as_i64 now end]>
              (tracker_use (tracker (core_db c)))) (tracker (core_db c))) (core_db c)) c).
    destruct (repository_referenced (core_db c) r).
    - destruct c as [[] ? ?]. done.
    - unfold on_tracker, zoom, touch, bind, guard. rewrite (proj2 (Z.leb_le _ _)) by done. done. }
  destruct (IH (set_db (with_tracker
      (if repository_referenced (core_db c) r then tracker (core_db c)
       else set_tracker_use (<[r := match tracker_use (tracker (core_db c)) !! r with
              | Some used => Z.max used (as_i64 now) | None => as_i64 now end]>
              (tracker_use (tracker (core_db c)))) (tracker (core_db c))) (core_db c)) c)) as (t & ->).
  by exists t.
Qed.

Section Loop.
Context (lease_free : string -> bool) (now : Z).
Hypothesis Hnow : 0 <= as_i64 now.

(** One step of the recovery loop. *)
Definition recover_pair (x : string * string) : action Error core unit :=
  let '(content_id, git_id) := x in
  if lease_free content_id then
    let! repositories := query (tracked_repositories [content_id; git_id]) in
    execute (delete_workspaces [content_id; git_id]) ;;;
    execute (fun d => match pair_row content_id git_id d with
                      | Some _ => with_pairs (delete content_id (pairs d)) d
                      | None => d
                      end) ;;;
    touch_unreferenced_repository_trackers repositories now
  else ret tt.

(** The pair and both workspaces are gone. *)
Definition pair_gone (x : string * string) (d : Db) : Prop :=
  pair_row x.1 x.2 d = None /\ workspaces d !! x.1 = None /\ workspaces d !! x.2 = None.

Lemma pair_gone_removes P x d d' : removes P d d' -> pair_gone x d -> pair_gone x d'.
Proof.
  intros Hs (H1 & H2 & H3). unfold pair_gone, pair_row in *. split_and!.
  - destruct (pairs d' !! x.1) as [p|] eqn:Hp; [|done].
    rewrite (lookup_weaken _ _ _ _ Hp (rm_pairs _ _ _ Hs)) in H1. done.
  - eapply lookup_weaken_None; [exact H2|apply Hs].
  - eapply lookup_weaken_None; [exact H3|apply Hs].
Qed.

(** The two deletions of a recovered pair. *)
Definition drop_pair (content git : string) (d : Db) : Db :=
  match pair_row content git d with
  | Some _ => with_pairs (delete content (pairs d)) d
  | None => d
  end.

Lemma three_steps {A B} (f : Db -> A) g h (k : A -> action Error core B) (c : core) :
  (let! r := query f in execute g ;;; execute h ;;; k r) c
  = k (f (core_db c)) (set_db (h (g (core_db c))) c).
Proof. done. Qed.

Lemma recover_pair_unfold content git (c : core) t :
  lease_free content = true ->
  touch_unreferenced_repository_trackers (tracked_repositories [content; git] (core_db c)) now
    (set_db (drop_pair content git (delete_workspaces [content; git] (core_db c))) c)
    = (Ok tt, t) ->
  recover_pair (content, git) c = (Ok tt, t).
Proof.
  intros Hl Ht. unfold recover_pair. rewrite Hl.
  fold (drop_pair content git). rewrite three_steps. exact Ht.
Qed.

(** The workspaces that recovering the pair takes away. *)
Definition abandoned (x : string * string) (w : string) : Prop :=
  lease_free x.1 = true /\ (w = x.1 \/ w = x.2).

Lemma drop_pair_removes P content git d : removes P d (drop_pair content git d).
Proof.
  unfold drop_pair. destruct (pair_row content git d); [|done].
  split; [done|done|apply delete_subseteq|done|by intros []|done].
Qed.

Lemma recover_pair_run x (c : core) :
  exists d', recover_pair x c = (Ok tt, set_db d' c) /\ removes (abandoned x) (core_db c) d'
    /\ (lease_free x.1 = true -> pair_gone x d')
    /\ (forall k, k <> x.1 \/ lease_free x.1 = false -> pairs d' !! k = pairs (core_db c) !! k).
Proof.
  destruct x as [content git]. destruct (lease_free content) eqn:Hl.
  2: { unfold recover_pair. rewrite Hl. exists (core_db c). split_and!; [by destruct c|done|simpl; congruence|done]. }
  set (d1 := delete_workspaces [content; git] (core_db c)).
  set (d2 := drop_pair content git d1).
  destruct (touch_run (tracked_repositories [content; git] (core_db c)) now (set_db d2 c) Hnow)
    as (t & Ht). rewrite core_db_set, set_db_twice in Ht.
  exists (with_tracker t d2). split; [by apply recover_pair_unfold|].
  pose proof (drop_pair_removes (abandoned (content, git)) content git d1) as H2. fold d2 in H2.
  assert (removes (abandoned (content, git)) d2 (with_tracker t d2)) as H3
    by (split; [done|done|done|done|by intros []|done]).
  split.
  { transitivity d1; [|by transitivity d2].
    eapply removes_mono; [|apply delete_workspaces_removes]. intros w Hw. split; [done|].
    simpl. set_solver. }
  split.
  - intros _. apply (pair_gone_removes _ _ d2 _ H3). unfold pair_gone. simpl.
    assert (forall w, w ∈ [content; git] -> workspaces d2 !! w = None) as Hw.
    { intros w Hw. eapply lookup_weaken_None; [|apply H2]. unfold d1. simpl.
      apply map_lookup_filter_None. right. intros r _. simpl. by intros []. }
    split_and!; [|apply Hw; by left|apply Hw; right; by left].
    unfold d2, drop_pair. destruct (pair_row content git d1) eqn:Hp; [|done].
    unfold pair_row. simpl. by rewrite lookup_delete_eq.
  - intros k [Hk|Hk]; [|simpl in Hk; congruence]. simpl. unfold d2, drop_pair.
    destruct (pair_row content git d1); [|done]. simpl. by rewrite lookup_delete_ne.
Qed.

Lemma recover_pairs_run l (c : core) :
  exists d', forM l recover_pair c = (Ok tt, set_db d' c)
    /\ removes (fun w => exists x, x ∈ l /\ abandoned x w) (core_db c) d'
    /\ (forall x, x ∈ l -> lease_free x.1 = true -> pair_gone x d')
    /\ (forall k, (forall x, x ∈ l -> x.1 = k -> lease_free k = false) ->
          pairs d' !! k = pairs (core_db c) !! k).
Proof.
  unfold forM. revert c. induction l as [|x l IH]; intros c; cbn [foldM].
  { exists (core_db c). split_and!; [by destruct c|done|by intros ? ?%not_elem_of_nil|done]. }
  destruct (recover_pair_run x c) as (d1 & Hr & Hs1 & Hg1 & Hk1).
  destruct (IH (set_db d1 c)) as (d2 & Hr2 & Hs2 & Hg2 & Hk2). simpl in *.
  exists d2. split_and!.
  - by erewrite bind_ok by done.
  - etransitivity; eapply removes_mono; [|exact Hs1| |exact Hs2].
    + intros w Hw. exists x. split; [by left|done].
    + intros w (y & Hy & Hw). exists y. split; [by right|done].
  - intros y [->|Hy]%elem_of_cons Hl; [|by apply Hg2].
    by eapply pair_gone_removes, Hg1.
  - intros k Hk. rewrite Hk2; [|intros y Hy; apply Hk; by right]. apply Hk1.
    destruct (decide (k = x.1)) as [->|]; [right; by apply (Hk x); [left|]|by left].
Qed.
End Loop.

Lemma validate_ids_run (l : list (string * string)) (c : core) :
  Forall (fun x => validate_workspace_id x.1 = Ok tt) l ->
  (forM l (fun '(content_id, _) => lift (validate_workspace_id content_id))
    : action Error core unit) c = (Ok tt, c).
Proof.
  unfold forM. induction 1 as [|[x y] l Hx _ IH]; [done|]. cbn [foldM]. simpl in Hx. rewrite Hx.
  by erewrite bind_ok by done.
Qed.

(** [recover] in its parts: pairs, verification, counts, journal. *)
Lemma recover_run lease_free now (c : core) :
  cs_inv (core_store c) -> 0 <= as_i64 now ->
  Forall (fun x => validate_workspace_id x.1 = Ok tt) (recoverable_pairs (core_db c)) ->
  (forall id, id ∈ manifest_chunks (core_db c) -> is_Some (contents c !! id)) ->
  zlen (manifest_chunks (core_db c)) <= I64_MAX ->
  exists d' c', recover lease_free now c = (Ok tt, c')
    /\ core_db c' = with_journal ∅ d'
    /\ removes (fun w => exists x, x ∈ recoverable_pairs (core_db c) /\ abandoned lease_free x w)
         (core_db c) d'
    /\ promoted_origins c' = promoted_origins c
    /\ cs_inv (core_store c')
    /\ contents c' = map_imap (fun id x => Some (x.1, occurs id (manifest_chunks d'))) (contents c)
    /\ (forall x, x ∈ recoverable_pairs (core_db c) -> lease_free x.1 = true -> pair_gone x d')
    /\ (forall k, (forall x, x ∈ recoverable_pairs (core_db c) -> x.1 = k -> lease_free k = false) ->
          pairs d' !! k = pairs (core_db c) !! k).
Proof.
  intros Hi Hnow Hids Hst Hlen. set (l := recoverable_pairs (core_db c)) in *.
  destruct (recover_pairs_run lease_free now Hnow l c) as (d' & Hr & Hs & Hg & Hk).
  destruct (cs_verify_law (core_store c) Hi) as (s1 & Hv & Hi1 & Ha1).
  destruct (cs_reconcile_law s1 (expected_references d') Hi1) as (s2 & Hrec & Hi2 & Ha2).
  { intros id n. rewrite expected_references_count, count_map_lookup. case_bool_decide; [|done].
    intros [= <-]. pose proof (occurs_nonneg id (manifest_chunks d')).
    pose proof (occurs_removed _ _ _ id Hs). pose proof (occurs_length id (manifest_chunks (core_db c))). lia. }
  { intros id. rewrite expected_references_count, count_map_lookup, Ha1. case_bool_decide as Hin.
    - intros _. by eapply Hst, removes_manifest.
    - by intros []. }
  exists d', (set_db (with_journal ∅ d') (set_store s2 (set_store s1 (set_db d' c)))).
  split_and!; [|done|done|done|done| |done|done].
  - unfold recover. erewrite bind_ok by done. fold l.
    erewrite bind_ok by by apply validate_ids_run.
    erewrite bind_ok; last first.
    { unfold transact. change (fun '(content_id, git_id) => _) with (recover_pair lease_free now).
      rewrite Hr. reflexivity. }
    erewrite bind_ok; last first. { unfold on_store, zoom. simpl. rewrite Hv. reflexivity. }
    erewrite bind_ok by done.
    erewrite bind_ok; last first. { unfold on_store, zoom. simpl. rewrite Hrec. reflexivity. }
    reflexivity.
  - simpl. rewrite Ha2, Ha1. apply map_imap_ext. intros id. by rewrite expected_default.
Qed.
End Recovery.
