(* ===== verification/LayerGc.v ===== *)
(** Garbage collection of the workspace core: layers that nothing binds are
    dropped, their references are released, and the chunk store forgets what is
    no longer referenced.  Reference counts stay exact throughout. *)

From S2P Require Import Prelude Error RustStr PathPolicy ChunkStore Bytes ContentStore Tracker Core Layers Namespace Lifecycle FileContent View Isolation NamespaceFacts LifecycleFacts.
#[local] Open Scope string_scope.
#[local] Open Scope list_scope.
#[local] Open Scope Z_scope.

(** ** Occurrences in tables *)

(** How often a chunk occurs in the rows of a table. *)
Definition tally {K V} `{Countable K} (g : V -> list (list Z)) (id : list Z) (m : gmap K V) : Z :=
  occurs id (map_to_list m ≫= (fun x : K * V => g x.2)).

Lemma occurs_bind_split {A} (P : A -> Prop) `{!forall x, Decision (P x)} (g : A -> list (list Z))
    id l :
  occurs id (l ≫= g) = occurs id (filter P l ≫= g) + occurs id (filter (fun x => ~ P x) l ≫= g).
Proof.
  induction l as [|x l IH]; [done|]. rewrite !filter_cons. cbn [mbind list_bind].
  rewrite occurs_app. destruct (decide (P x)) as [Hx|Hx].
  - rewrite decide_False by auto. cbn [mbind list_bind]. rewrite occurs_app. lia.
  - rewrite decide_True by done. cbn [mbind list_bind]. rewrite occurs_app. lia.
Qed.

Lemma occurs_bind_concat {A} (g : A -> list (list Z)) id l :
  occurs id (l ≫= g) = occurs id (concat (g <$> l)).
Proof. induction l as [|x l IH]; [done|]. cbn. rewrite !occurs_app. by rewrite IH. Qed.

Section Tally.
Context {K V : Type} `{Countable K} (g : V -> list (list Z)) (id : list Z).

Lemma tally_filter (P : K * V -> Prop) `{!forall x, Decision (P x)} (m : gmap K V) :
  occurs id (filter P (map_to_list m) ≫= (fun x : K * V => g x.2)) = tally g id (filter P m).
Proof. unfold tally. by rewrite map_to_list_filter_perm. Qed.

Lemma tally_split (P : K * V -> Prop) `{!forall x, Decision (P x)} (m : gmap K V) :
  tally g id m = tally g id (filter P m) + tally g id (filter (fun x => ~ P x) m).
Proof.
  unfold tally at 1. rewrite (occurs_bind_split P). by rewrite !tally_filter.
Qed.

Lemma tally_pos k v (m : gmap K V) : m !! k = Some v -> id ∈ g v -> 0 < tally g id m.
Proof.
  intros Hk Hin. apply occurs_pos, list_elem_of_bind. exists (k, v). split; [done|].
  by apply elem_of_map_to_list.
Qed.
End Tally.

Lemma tally_ext {K V} `{Countable K} (g : V -> list (list Z)) id (m m' : gmap K V) :
  m = m' -> tally g id m = tally g id m'.
Proof. by intros ->. Qed.

(** The rows of several groups, group by group. *)
Lemma tally_groups {V} (g : V -> list (list Z)) (id : list Z) (ids : list string)
    (m : gmap (string * string) V) :
  NoDup ids ->
  occurs id (ids ≫= (fun i => filter (fun x : string * string * V => x.1.1 = i) (map_to_list m)
                               ≫= (fun x : string * string * V => g x.2)))
  = tally g id (filter (fun x : string * string * V => x.1.1 ∈ ids) m).
Proof.
  revert m. induction ids as [|i ids IH]; intros m Hnd.
  - assert (filter (fun x : string * string * V => x.1.1 ∈ []) m = ∅) as ->; [|done].
    apply map_empty_filter. intros k v _. apply not_elem_of_nil.
  - apply NoDup_cons in Hnd as [Hi Hnd]. cbn [mbind list_bind]. rewrite occurs_app, tally_filter.
    rewrite (IH m Hnd).
    rewrite (tally_split g id (fun x : string * string * V => x.1.1 = i)
               (filter (fun x : string * string * V => x.1.1 ∈ i :: ids) m)).
    f_equal; apply tally_ext; rewrite map_filter_filter; apply map_filter_ext;
      intros [k p] v _; simpl; rewrite elem_of_cons; naive_solver.
Qed.

Lemma filter_ext_in {A} (P Q : A -> Prop) `{!forall x, Decision (P x), !forall x, Decision (Q x)} (l : list A) :
  (forall x, x ∈ l -> P x <-> Q x) -> filter P l = filter Q l.
Proof.
  induction l as [|x l IH]; intros Heq; [done|]. rewrite !filter_cons.
  rewrite IH by (intros y Hy; apply Heq; by right). pose proof (Heq x ltac:(by left)).
  destruct (decide (P x)), (decide (Q x)); tauto.
Qed.

(** ** The manifests *)

Definition row_tally (id : list Z) (m : gmap (string * string) LayerRow) : Z := tally l_chunks id m.

Lemma manifest_tally id d :
  occurs id (manifest_chunks d)
  = tally i_chunks id (inodes d) + row_tally id (base_entries d) + row_tally id (dirty_entries d)
    + occurs id (dirty_layers d ≫= (fun l => bl_index_chunks (dl_baseline l))).
Proof.
  unfold manifest_chunks, count_references, row_tally, tally.
  rewrite !concat_app, !occurs_app, <-!occurs_bind_concat. unfold list_fmap. lia.
Qed.

(** What a workspace sees under a name is a manifest's. *)
Lemma inode_manifest d k r id : inodes d !! k = Some r -> id ∈ i_chunks r -> id ∈ manifest_chunks d.
Proof.
  intros Hk Hin. apply elem_of_app. left. apply list_elem_of_bind. exists (k, r).
  split; [done|]. by apply elem_of_map_to_list.
Qed.

Lemma layer_manifest d k r id :
  base_entries d !! k = Some r \/ dirty_entries d !! k = Some r ->
  id ∈ l_chunks r -> id ∈ manifest_chunks d.
Proof.
  intros Hk Hin. unfold manifest_chunks, count_references. rewrite !concat_app, !elem_of_app.
  assert (forall m, m !! k = Some r ->
    id ∈ concat ((fun x : string * string * LayerRow => l_chunks x.2) <$> map_to_list m)) as Hm.
  { intros m Hm. apply list_elem_of_In, in_concat. exists (l_chunks r).
    split; [|by apply list_elem_of_In]. apply list_elem_of_In, list_elem_of_fmap.
    exists (k, r). split; [done|]. by apply elem_of_map_to_list. }
  destruct Hk as [Hk|Hk]; auto.
Qed.

Lemma lookup_layers_manifest b dl p d e id :
  lookup_layers b dl p d = Some e -> id ∈ le_chunks e -> id ∈ manifest_chunks d.
Proof.
  unfold lookup_layers. destruct (dirty_entries d !! (dl, p)) as [r|] eqn:Hr.
  - case_bool_decide; [done|]. intros [= <-]. simpl. apply (layer_manifest d (dl, p)). by right.
  - intros (r & Hb & ->)%fmap_Some_1.
    simpl. apply (layer_manifest d (b, p)). by left.
Qed.

Section Collection.
Context {St : Type} {CS : ContentStore St} {CL : ContentStoreLaws St}.
Abbreviation core := (Core St).
Abbreviation contents c := (cs_abs (core_store c)).

Lemma seen_manifest w (c : core) id : seen_chunk w c id -> id ∈ manifest_chunks (core_db c).
Proof.
  intros (p & i & Hr & Hin). destruct (resolve_inode w p c) as [r c1] eqn:Hres. simpl in Hr. subst r.
  assert (forall k j, load_inode_for_id w k (core_db c) = Some j -> j = i ->
    id ∈ manifest_chunks (core_db c)) as Hid.
  { intros k j. unfold load_inode_for_id. destruct (inodes (core_db c) !! k) as [r|] eqn:Hk; [|done].
    case_bool_decide; [|done]. intros [= <-] <-. by apply (inode_manifest _ k r). }
  unfold resolve_inode in Hres.
  apply bind_ok_inv in Hres as (own & s1 & [= <- <-] & Hres).
  destruct (load_inode_for_path w p (core_db c)) as [j|] eqn:Hown.
  { injection Hres as -> _. unfold load_inode_for_path in Hown.
    destruct (entries (core_db c) !! (w, p)) as [[k|]|]; [|done..].
    apply fmap_Some_1 in Hown as (r & Hk & ->). by apply (inode_manifest _ k r). }
  apply bind_ok_inv in Hres as (h & s2 & [= <- <-] & Hres).
  apply bind_ok_inv in Hres as (u & s3 & [_ ->]%guard_ok_inv & Hres).
  apply bind_ok_inv in Hres as (t & s4 & [= <- <-] & Hres).
  apply bind_ok_inv in Hres as (e & s5 & Hl & Hres).
  unfold lookup in Hl. apply bind_ok_inv in Hl as ([b dl] & s6 & Hb & Hl).
  unfold layers_of in Hb. apply bind_ok_inv in Hb as (x & s7 & [= <- <-] & Hb).
  apply ok_or_ok_inv in Hb as [_ ->]. injection Hl as <- <-.
  apply bind_ok_inv in Hres as (e & s8 & [He ->]%ok_or_ok_inv & Hres).
  apply bind_ok_inv in Hres as (pr & s9 & [= <- <-] & Hres).
  destruct (le_hardlink_key e) as [key|].
  - destruct (load_inode_for_hardlink_key w key (core_db c)) as [j|] eqn:Hj.
    + injection Hres as -> _. unfold load_inode_for_hardlink_key in Hj.
      destruct (hardlink_promotions (core_db c) !! (w, key)) as [k|]; [|done]. by apply (Hid k i).
    + apply bind_ok_inv in Hres as (kd & s10 & Hkd & Hres). injection Hres as <- _.
      by eapply lookup_layers_manifest.
  - apply bind_ok_inv in Hres as (kd & s10 & Hkd & Hres). injection Hres as <- _.
    by eapply lookup_layers_manifest.
Qed.

(** ** Dropping layers *)

(** Layer ids are unique, the rows of a dirty layer carry the chunks of its
    snapshot, and a workspace is bound to a dirty layer and to that layer's
    base. *)
Record layers_ok (d : Db) : Prop := {
  lo_ids : NoDup (dl_id <$> dirty_layers d);
  lo_chunks : forall l id, l ∈ dirty_layers d ->
    occurs id (bl_entries (dl_baseline l) ≫= e_chunks)
    = row_tally id (layer_rows (dl_id l) (dirty_entries d));
  lo_bound : forall w b dl, workspace_layers d !! w = Some (b, dl) ->
    exists l, l ∈ dirty_layers d /\ dl_id l = dl /\ dl_base_id l = b }.

Definition dead_layers (d : Db) : list DirtyLayerRow :=
  filter (fun l => dirty_unreferenced d l = true) (dirty_layers d).
Definition dead_bases (d : Db) : list string :=
  filter (fun id => base_unreferenced d id = true) (map_to_list (bases d)).*1.
Definition base_chunks (ids : list string) (d : Db) : list (list Z) :=
  ids ≫= (fun id => (filter (fun x : string * string * LayerRow => x.1.1 = id)
      (map_to_list (base_entries d))) ≫= (fun x => l_chunks x.2)).

(** The tables after [remove_unreferenced]. *)
Definition without_dead (d : Db) : Db :=
  let d1 := delete_dirty_layers (dl_id <$> dead_layers d) d in delete_bases (dead_bases d1) d1.
Definition released (d : Db) : list (list Z) :=
  let d1 := delete_dirty_layers (dl_id <$> dead_layers d) d in
  (dead_layers d ≫= (fun l => snapshot_chunks (dl_baseline l))) ++ base_chunks (dead_bases d1) d1.

Lemma dead_by_id d l l' :
  l' ∈ dirty_layers d -> dl_id l' = dl_id l ->
  dl_id l ∈ dl_id <$> dead_layers d -> l' ∈ dead_layers d.
Proof.
  intros Hl' Hid (x & Hx & Hd)%list_elem_of_fmap. unfold dead_layers in *.
  apply list_elem_of_filter in Hd as [Hd _]. apply list_elem_of_filter. split; [|done].
  rewrite <-Hd. unfold dirty_unreferenced. by rewrite Hid, Hx.
Qed.

(** The layers that go, counted by their rows. *)
Lemma dead_rows d id :
  layers_ok d ->
  occurs id (dead_layers d ≫= (fun l => snapshot_chunks (dl_baseline l)))
  = row_tally id (filter (fun x : string * string * LayerRow => x.1.1 ∈ dl_id <$> dead_layers d)
                    (dirty_entries d))
    + occurs id (dead_layers d ≫= (fun l => bl_index_chunks (dl_baseline l))).
Proof.
  intros [Hids Hch _].
  assert (NoDup (dl_id <$> dead_layers d)) as Hnd.
  { eapply sublist_NoDup; [exact Hids|]. apply fmap_sublist, sublist_filter. }
  unfold row_tally. rewrite <-(tally_groups l_chunks id _ _ Hnd).
  assert (Forall (fun l => l ∈ dirty_layers d) (dead_layers d)) as Hall.
  { apply Forall_forall. intros l Hl. by apply list_elem_of_filter in Hl as [_ Hl]. }
  clear Hnd. induction Hall as [|l ls Hl _ IH]; [done|].
  cbn [mbind list_bind fmap list_fmap]. unfold snapshot_chunks at 1.
  rewrite !occurs_app, IH, (Hch l id Hl), tally_filter. unfold row_tally, layer_rows. lia.
Qed.

Lemma dirty_layers_split d :
  filter (fun l => dl_id l ∉ dl_id <$> dead_layers d) (dirty_layers d)
  = filter (fun l => ~ dirty_unreferenced d l = true) (dirty_layers d).
Proof.
  apply filter_ext_in. intros l Hl. split; intros H Hin; apply H.
  - apply list_elem_of_fmap_2, list_elem_of_filter. done.
  - by apply (dead_by_id d l l Hl eq_refl), list_elem_of_filter in Hin as [? _].
Qed.

Lemma NoDup_dead_bases d : NoDup (dead_bases d).
Proof. apply NoDup_filter, NoDup_fst_map_to_list. Qed.

Lemma released_count d id :
  layers_ok d ->
  occurs id (manifest_chunks d)
  = occurs id (manifest_chunks (without_dead d)) + occurs id (released d).
Proof.
  intros Hok. unfold released. set (d1 := delete_dirty_layers _ d).
  rewrite !manifest_tally, occurs_app, (dead_rows d id Hok).
  unfold base_chunks. rewrite (tally_groups l_chunks id _ _ (NoDup_dead_bases d1)).
  unfold without_dead. fold d1. cbn [inodes base_entries dirty_entries dirty_layers
    delete_bases with_bases with_base_entries]. unfold row_tally.
  rewrite (tally_split l_chunks id (fun x : string * string * LayerRow =>
    x.1.1 ∈ dl_id <$> dead_layers d) (dirty_entries d)).
  rewrite (tally_split l_chunks id (fun x : string * string * LayerRow =>
    x.1.1 ∈ dead_bases d1) (base_entries d)).
  rewrite (occurs_bind_split (fun l => dirty_unreferenced d l = true) _ id (dirty_layers d)).
  rewrite <-dirty_layers_split. simpl. fold (dead_layers d). lia.
Qed.

(** Bound layers stay. *)
Lemma bound_layer_alive d w b dl :
  layers_ok d -> workspace_layers d !! w = Some (b, dl) -> dl ∉ dl_id <$> dead_layers d.
Proof.
  intros Hok Hw (l & -> & Hl)%list_elem_of_fmap. apply list_elem_of_filter in Hl as [Hl _].
  unfold dirty_unreferenced in Hl. rewrite !andb_true_iff in Hl. destruct Hl as [[Hl _] _].
  apply bool_decide_eq_true in Hl. by apply (Hl w (b, dl_id l) Hw).
Qed.

Lemma bound_base_alive d w b dl :
  layers_ok d -> workspace_layers d !! w = Some (b, dl) ->
  b ∉ dead_bases (delete_dirty_layers (dl_id <$> dead_layers d) d).
Proof.
  intros Hok Hw [Hb _]%list_elem_of_filter. destruct (lo_bound d Hok w b dl Hw) as (l & Hl & Hd & <-).
  unfold base_unreferenced in Hb. rewrite forallb_forall in Hb.
  specialize (Hb l). rewrite bool_decide_eq_true_2 in Hb by done. cbn in Hb.
  discriminate Hb. apply list_elem_of_In, list_elem_of_filter. split; [|done].
  rewrite Hd. by eapply bound_layer_alive.
Qed.

Lemma without_dead_agree d w : layers_ok d -> agree w d (without_dead d).
Proof.
  intros Hok. split; [done| |done..]. intros b dl Hw. simpl. unfold layer_rows.
  split; rewrite map_filter_filter; apply map_filter_ext; intros [k p] r _; simpl.
  - split; [intros ->|by intros []]. split; [done|by eapply bound_base_alive].
  - split; [intros ->|by intros []]. split; [done|by eapply bound_layer_alive].
Qed.

(** ** What a collection of layers leaves

    A dirty layer is needed when a workspace is bound to it, when it is the
    layer of a proposal's baseline, or when a template names it. *)
Definition layer_needed (d : Db) (id : string) : Prop :=
  (exists w b, workspace_layers d !! w = Some (b, id)) \/
  (exists k p, proposals d !! k = Some p /\ id = "dirty:" +:+ pr_baseline_hash p) \/
  (exists k, overlay_templates d !! k = Some id).

(** The needed dirty layers stay, with their rows; then the bases of these
    layers stay, with theirs; everything else of the layers is gone. *)
Record layers_collected (d d' : Db) : Prop := {
  lc_layers : forall l, l ∈ dirty_layers d' <-> l ∈ dirty_layers d /\ layer_needed d (dl_id l);
  lc_rows : forall l p, l ∈ dirty_layers d' ->
    dirty_entries d' !! (dl_id l, p) = dirty_entries d !! (dl_id l, p);
  lc_dead_rows : forall l p, l ∈ dirty_layers d -> l ∉ dirty_layers d' ->
    dirty_entries d' !! (dl_id l, p) = None;
  lc_bases : forall b r, bases d' !! b = Some r <->
    bases d !! b = Some r /\ exists l, l ∈ dirty_layers d' /\ dl_base_id l = b;
  lc_base_rows : forall b r p, bases d !! b = Some r ->
    base_entries d' !! (b, p) = match bases d' !! b with Some _ => base_entries d !! (b, p) | None => None end }.

Lemma dirty_unreferenced_needed d l : dirty_unreferenced d l = true <-> ~ layer_needed d (dl_id l).
Proof.
  unfold dirty_unreferenced, layer_needed, map_Forall. rewrite !andb_true_iff, !bool_decide_eq_true.
  split.
  - intros [[H1 H2] H3] [(w & b & H)|[(k & p & H & E)|(k & H)]];
      [by apply (H1 _ _ H)|by apply (H2 _ _ H)|by apply (H3 _ _ H)].
  - intros Hn. split_and!.
    + intros w [b x] H E. simpl in E. subst x. apply Hn. eauto.
    + intros k p H E. apply Hn. right. left. eauto.
    + intros k t H ->. apply Hn. eauto.
Qed.

Lemma needed_stable d l : ~ ~ layer_needed d (dl_id l) -> layer_needed d (dl_id l).
Proof.
  rewrite <- dirty_unreferenced_needed, not_true_iff_false. unfold dirty_unreferenced, layer_needed.
  rewrite !andb_false_iff, !bool_decide_eq_false. intros [[H|H]|H];
    apply map_not_Forall in H as (k & x & Hk & Hx); try apply _; apply dec_stable in Hx.
  - destruct x as [b y]. simpl in Hx. subst y. eauto.
  - right. left. eauto.
  - right. right. exists k. by rewrite Hk, <- Hx.
Qed.

Lemma base_used_dec d b : Decision (exists l, l ∈ dirty_layers d /\ dl_base_id l = b).
Proof.
  destruct (decide (Exists (fun l => dl_base_id l = b) (dirty_layers d))) as [H|H];
    rewrite Exists_exists in H; [by left|by right].
Qed.

Lemma base_unreferenced_iff d b :
  base_unreferenced d b = true <-> ~ exists l, l ∈ dirty_layers d /\ dl_base_id l = b.
Proof.
  unfold base_unreferenced. rewrite forallb_forall. split.
  - intros H (l & Hl & Hb). specialize (H l). rewrite bool_decide_eq_true_2 in H by done.
    by specialize (H (proj1 (list_elem_of_In _ _) Hl)).
  - intros H l Hl. apply negb_true_iff, bool_decide_eq_false. intros Hb. apply H.
    exists l. split; [|done]. by apply list_elem_of_In.
Qed.

Lemma without_dead_collected d : layers_collected d (without_dead d).
Proof.
  assert (forall l, l ∈ dirty_layers (without_dead d)
                    <-> l ∈ dirty_layers d /\ layer_needed d (dl_id l)) as Hl.
  { intros l. simpl. rewrite dirty_layers_split, list_elem_of_filter, dirty_unreferenced_needed.
    split; [intros [Hn Hin]; split; [done|by apply needed_stable]|]. naive_solver. }
  split; [exact Hl| | | |].
  - intros l p [Hd _]%list_elem_of_filter. apply filter_key_lookup, Hd.
  - intros l p Hin Hd. apply map_lookup_filter_None. right. intros r _. simpl. intros Hno. apply Hd.
    by apply list_elem_of_filter.
  - intros b r. simpl. rewrite map_lookup_filter_Some. simpl. split.
    + intros [Hb Hno]. split; [done|].
      destruct (base_used_dec (without_dead d) b) as [?|Hex]; [done|]. destruct Hno.
      apply list_elem_of_filter. split; [by apply base_unreferenced_iff|].
      apply list_elem_of_fmap. exists (b, r). split; [done|]. by apply elem_of_map_to_list.
    + intros [Hb Hex]. split; [done|]. intros [Hu _]%list_elem_of_filter.
      by apply base_unreferenced_iff in Hu.
  - intros b r p Hb. simpl. set (dead := dead_bases _).
    destruct (decide (b ∈ dead)) as [Hd|Hd].
    + rewrite (map_lookup_filter_None_2 _ (bases d)) by (right; intros ? _ []; done).
      apply map_lookup_filter_None. right. intros ? _ Hno. by apply Hno.
    + rewrite filter_key_lookup by done.
      by rewrite (map_lookup_filter_Some_2 _ (bases d) b r Hb Hd).
Qed.

Lemma without_dead_ok d : db_ok d -> db_ok (without_dead d).
Proof. by intros []. Qed.

(** ** The collection *)

(** Releasing references adds no chunk. *)
Lemma unpin_all_dom l (c c' : core) :
  cs_inv (core_store c) -> unpin_all l c = (Ok tt, c') -> dom (contents c') = dom (contents c).
Proof.
  unfold unpin_all, forM. revert c. induction l as [|id l IH]; intros c Hi; cbn [foldM].
  { by intros [= <-]. }
  intros ([] & c1 & Hp & Hr)%bind_ok_inv. pose proof (cs_unpin_law (core_store c) id Hi) as Hu.
  unfold on_store, zoom in Hp. destruct (contents c !! id) as [[b n]|] eqn:Hn.
  - destruct (0 <? n).
    + destruct Hu as (s1 & Hu & Hi1 & Ha1 & _). rewrite Hu in Hp. injection Hp as <-.
      rewrite (IH (set_store s1 c) Hi1 Hr). simpl. rewrite Ha1. apply dom_insert_lookup_L. eauto.
    + destruct Hu as [e Hu]. by rewrite Hu in Hp.
  - destruct Hu as [e Hu]. by rewrite Hu in Hp.
Qed.

Lemma remove_unreferenced_run k (c : core) :
  layers_ok (core_db c) -> refcounts_exact c -> store_ok k c ->
  exists c', remove_unreferenced c = (Ok tt, c')
    /\ store_step k (fun j => - occurs j (released (core_db c)))
         (set_db (without_dead (core_db c)) c) c'
    /\ dom (contents c') = dom (contents c).
Proof.
  intros Hok Hex Hst. set (d := core_db c). set (c1 := set_db (without_dead d) c).
  destruct (unpin_all_run (released d) c1 k) as (c' & Hu & Hstep).
  { done. }
  { intros id. change (contents c1) with (contents c). rewrite (Hex id), (released_count _ _ Hok).
    pose proof (occurs_nonneg id (manifest_chunks (without_dead d))). fold d. lia. }
  exists c'. split; [|split; [done|by eapply unpin_all_dom in Hu; [|apply Hst]]].
  unfold remove_unreferenced.
  set (d1 := delete_dirty_layers (dl_id <$> dead_layers d) d).
  do 4 (erewrite bind_ok by done). erewrite bind_ok by done. fold d. fold (dead_layers d). fold d1.
  rewrite bool_decide_eq_true_2; [|intros w [b dl] Hw; by eapply bound_base_alive].
  erewrite bind_ok by done. erewrite bind_ok by done. exact Hu.
Qed.

Lemma without_dead_layers d : layers_ok d -> layers_ok (without_dead d).
Proof.
  intros Hok. pose proof Hok as [Hids Hch Hb]. split.
  - simpl. eapply sublist_NoDup; [exact Hids|]. apply fmap_sublist, sublist_filter.
  - simpl. intros l id [Hl Hin]%list_elem_of_filter. rewrite (Hch l id Hin). apply tally_ext.
    unfold layer_rows. rewrite map_filter_filter. apply map_filter_ext. intros [k p] r _. simpl.
    split; [intros ->; done|by intros []].
  - simpl. intros w b dl Hw. destruct (Hb w b dl Hw) as (l & Hl & Hd & Hbase).
    exists l. split_and!; [|done..]. apply list_elem_of_filter. split; [|done].
    rewrite Hd. by eapply bound_layer_alive.
Qed.

Lemma core_gc_run (c : core) :
  good c -> layers_ok (core_db c) -> refcounts_exact c ->
  cs_room (1 + Z.of_nat (size (contents c))) (core_store c) ->
  exists rep c', core_gc c = (Ok rep, c') /\ core_db c' = without_dead (core_db c)
    /\ good c' /\ refcounts_exact c' /\ promoted_origins c' = promoted_origins c
    /\ (forall id b, id ∈ manifest_chunks (core_db c') ->
          stored_as (contents c) id b -> stored_as (contents c') id b)
    /\ (forall id, is_Some (contents c' !! id) -> id ∈ manifest_chunks (core_db c')).
Proof.
  intros [Hd Hi] Hok Hex Hroom.
  destruct (remove_unreferenced_run _ c Hok Hex (conj Hi Hroom)) as (c1 & Hr & [Hdb Hpr [Hi1 Hr1] Hk Hrefs] & Hdom).
  destruct (cs_gc_law (core_store c1) Hi1) as (rep & s2 & Hgc & Hi2 & Ha2).
  { by rewrite <-(size_dom (D := gset _)), Hdom, size_dom. }
  assert (forall id, refs_of (contents c1) id = occurs id (manifest_chunks (without_dead (core_db c))))
    as Hex1.
  { intros id. rewrite Hrefs. change (contents (set_db _ c)) with (contents c).
    rewrite (Hex id), (released_count _ id Hok). lia. }
  exists rep, (set_store s2 c1). split_and!.
  - unfold core_gc. erewrite bind_ok by done. unfold on_store, zoom. by rewrite Hgc.
  - done.
  - split; [simpl; rewrite Hdb; by apply without_dead_ok|done].
  - intros id. simpl. rewrite Hdb. simpl. rewrite <-Hex1. unfold refs_of. rewrite Ha2.
    unfold drop_unreferenced. destruct (contents c1 !! id) as [[b n]|] eqn:Hid.
    + destruct (decide (n = 0)) as [->|Hn].
      * rewrite map_lookup_filter_None_2; [done|]. right. intros x Hx. simplify_eq. simpl. lia.
      * by rewrite (map_lookup_filter_Some_2 _ _ _ _ Hid).
    + by rewrite map_lookup_filter_None_2 by (by left).
  - exact Hpr.
  - intros id b Hin [n Hst]. destruct (Hk id b (ex_intro _ n Hst)) as [n' Hst'].
    exists n'. simpl in *. rewrite Ha2. apply map_lookup_filter_Some_2; [done|]. simpl.
    rewrite Hdb in Hin. apply occurs_pos in Hin. simpl in Hin. rewrite <-Hex1 in Hin.
    unfold refs_of in Hin. rewrite Hst' in Hin. simpl in Hin. lia.
  - intros id [[b n] Hid]. simpl in *. rewrite Ha2 in Hid.
    apply map_lookup_filter_Some in Hid as [Hid Hn]. simpl in Hn.
    rewrite Hdb. apply occurs_pos. simpl. rewrite <-Hex1. unfold refs_of. rewrite Hid. simpl.
    pose proof (cs_refs_nonneg _ _ _ _ Hi1 Hid). lia.
Qed.

(** ** Removing workspaces *)

(** The rows of an inode table that belong to some workspaces. *)
Definition inodes_of (ids : list string) (d : Db) : gmap Z InodeRow :=
  filter (fun x : Z * InodeRow => i_workspace x.2 ∈ ids) (inodes d).

Lemma workspace_chunks_tally ws d id :
  occurs id (workspace_chunks ws d) = tally i_chunks id (inodes_of [ws] d).
Proof.
  unfold workspace_chunks, inodes_of. rewrite merge_sort_Permutation, <-tally_filter.
  assert (forall k r, (k, r) ∈ map_to_list (inodes d) -> inodes d !! k = Some r) as Hl
    by (intros k r; apply elem_of_map_to_list). revert Hl.
  generalize (map_to_list (inodes d)) as l. intros l. induction l as [|[k r] l IH]; intros Hl; [done|].
  cbn [fmap list_fmap mbind list_bind fst]. rewrite (Hl k r) by by left.
  rewrite filter_cons. cbn [snd]. rewrite occurs_app, IH by (intros; apply Hl; by right).
  case_bool_decide as Hw.
  - rewrite decide_True by (by apply list_elem_of_singleton). cbn [mbind list_bind].
    by rewrite occurs_app.
  - rewrite decide_False by (by rewrite list_elem_of_singleton). done.
Qed.

Lemma inodes_of_cons w ids d id :
  w ∉ ids ->
  tally i_chunks id (inodes_of (w :: ids) d)
  = tally i_chunks id (inodes_of [w] d) + tally i_chunks id (inodes_of ids d).
Proof.
  intros Hw. rewrite (tally_split i_chunks id (fun x : Z * InodeRow => i_workspace x.2 = w)
    (inodes_of (w :: ids) d)).
  f_equal; apply tally_ext; unfold inodes_of; rewrite map_filter_filter; apply map_filter_ext;
    intros k r _; simpl; rewrite !elem_of_cons; rewrite ?elem_of_nil; naive_solver.
Qed.

Lemma deleted_count ids d id :
  occurs id (manifest_chunks d)
  = occurs id (manifest_chunks (delete_workspaces ids d)) + tally i_chunks id (inodes_of ids d).
Proof.
  rewrite !manifest_tally. simpl. unfold inodes_of.
  rewrite (tally_split i_chunks id (fun x : Z * InodeRow => i_workspace x.2 ∈ ids) (inodes d)). lia.
Qed.

Lemma manifest_with_tracker t d : manifest_chunks (with_tracker t d) = manifest_chunks d.
Proof. done. Qed.

(** Once the rows are gone, their references can be released. *)
Lemma release_run ids chunks d' (c c1 : core) :
  refcounts_exact c -> store_ok 0 c ->
  core_db c1 = d' -> core_store c1 = core_store c ->
  (forall id, occurs id (manifest_chunks d')
              = occurs id (manifest_chunks (delete_workspaces ids (core_db c)))) ->
  (forall id, occurs id chunks = tally i_chunks id (inodes_of ids (core_db c))) ->
  exists c', unpin_all chunks c1 = (Ok tt, c') /\ refcounts_exact c'
    /\ core_db c' = d' /\ promoted_origins c' = promoted_origins c1
    /\ cs_inv (core_store c') /\ keeps_content (contents c) (contents c').
Proof.
  intros Hex Hst Hd1 Hs1 Hman Hch.
  destruct (unpin_all_run chunks c1 0) as (c' & Hu & [Hdb Hpr [Hi _] Hk Hrefs]).
  { unfold store_ok in *. by rewrite Hs1. }
  { intros id. rewrite Hs1, (Hex id), (deleted_count ids), Hch.
    pose proof (occurs_nonneg id (manifest_chunks (delete_workspaces ids (core_db c)))). lia. }
  exists c'. rewrite Hs1 in *. split_and!; [done| |congruence|done..].
  intros id. rewrite Hrefs, (Hex id), (deleted_count ids), Hdb, Hd1, Hman, Hch. lia.
Qed.

(** No table has a row of the workspace. *)
Definition no_row_of (ws : string) (d : Db) : Prop :=
  workspaces d !! ws = None /\ workspace_layers d !! ws = None
  /\ (forall i r, inodes d !! i = Some r -> i_workspace r <> ws)
  /\ forall p, entries d !! (ws, p) = None /\ inode_origins d !! (ws, p) = None
       /\ hardlink_promotions d !! (ws, p) = None /\ redirects d !! (ws, p) = None.

Lemma delete_workspaces_no_row ids d ws : ws ∈ ids -> no_row_of ws (delete_workspaces ids d).
Proof.
  intros Hws. unfold no_row_of. simpl.
  assert (forall V (m : gmap (string * string) V) p,
    filter (fun x : string * string * V => x.1.1 ∉ ids) m !! (ws, p) = None) as Hk
    by (intros V m p; apply map_lookup_filter_None; right; intros r _ Hno; by apply Hno).
  split_and!.
  - apply map_lookup_filter_None. right. intros r _ Hno. by apply Hno.
  - apply map_lookup_filter_None. right. intros r _ Hno. by apply Hno.
  - intros i r [_ Hno]%map_lookup_filter_Some Hw. apply Hno. simpl. by rewrite Hw.
  - intros p. rewrite !Hk. done.
Qed.

Lemma no_row_with_tracker ws t d : no_row_of ws d -> no_row_of ws (with_tracker t d).
Proof. done. Qed.

Lemma remove_workspace_run ws now (c : core) :
  good c -> refcounts_exact c -> cs_room 0 (core_store c) -> 0 <= as_i64 now ->
  exists c', remove_workspace ws now c = (Ok tt, c') /\ good c' /\ refcounts_exact c'
    /\ no_row_of ws (core_db c')
    /\ (forall id, refs_of (contents c') id
                   = refs_of (contents c) id - tally i_chunks id (inodes_of [ws] (core_db c)))
    /\ removes (fun w => w = ws) (core_db c) (core_db c')
    /\ keeps_content (contents c) (contents c')
    /\ (forall w o, w <> ws -> promoted_origins c' !! (w, o) = promoted_origins c !! (w, o)).
Proof.
  intros [Hd Hi] Hex Hroom Hnow. set (d1 := delete_workspaces [ws] (core_db c)).
  destruct (touch_run (tracked_repositories [ws] (core_db c)) now (set_db d1 c) Hnow) as (t & Ht).
  rewrite core_db_set, set_db_twice in Ht. set (d' := with_tracker t d1) in *.
  set (c1 := set_promoted (filter (fun x : string * string * Z => x.1.1 <> ws)
    (promoted_origins c)) (set_db d' c)).
  assert (removes (fun w => w = ws) (core_db c) d') as Hrm.
  { transitivity d1.
    - eapply removes_mono; [|apply delete_workspaces_removes]. intros w. apply list_elem_of_singleton.
    - split; [done|done|done|done|by intros []|done]. }
  destruct (release_run [ws] (workspace_chunks ws (core_db c)) d' c c1 Hex (conj Hi Hroom) eq_refl
    eq_refl) as (c' & Hu & Hex' & Hdb & Hpr & Hi' & Hk).
  { intros id. apply f_equal, manifest_with_tracker. }
  { intros id. apply workspace_chunks_tally. }
  exists c'. split_and!; [|split; [|done]|done| | | |done|].
  - unfold remove_workspace. erewrite bind_ok by done.
    erewrite bind_ok; last first.
    { unfold transact. erewrite bind_ok by done. erewrite bind_ok by apply execute_run.
      fold d1. rewrite Ht. reflexivity. }
    by erewrite bind_ok by done.
  - rewrite Hdb. by apply Hrm.
  - rewrite Hdb. apply no_row_with_tracker, delete_workspaces_no_row. by left.
  - intros id. rewrite (Hex' id), (Hex id), (deleted_count [ws] (core_db c)), Hdb.
    unfold d'. rewrite manifest_with_tracker. unfold d1. lia.
  - by rewrite Hdb.
  - intros w o Hw. rewrite Hpr. simpl. apply option_eq. intros i.
    rewrite map_lookup_filter_Some. simpl. naive_solver.
Qed.

Lemma manifest_with_pairs m d : manifest_chunks (with_pairs m d) = manifest_chunks d.
Proof. done. Qed.

Lemma remove_pair_ids_run content git p require_ready now (c : core) :
  good c -> refcounts_exact c -> cs_room 0 (core_store c) -> 0 <= as_i64 now ->
  content <> git -> pair_row content git (core_db c) = Some p ->
  negb require_ready || bool_decide (p_state p = PReady) || bool_decide (p_state p = PKept) = true ->
  exists c', remove_workspace_pair_ids content git require_ready now c = (Ok tt, c')
    /\ good c' /\ refcounts_exact c' /\ pair_gone (content, git) (core_db c')
    /\ removes (fun w => w = content \/ w = git) (core_db c) (core_db c')
    /\ keeps_content (contents c) (contents c')
    /\ promoted_origins c' = promoted_origins c.
Proof.
  intros [Hd Hi] Hex Hroom Hnow Hne Hp Hready.
  set (d1 := delete_workspaces [content; git] (core_db c)).
  set (d2 := with_pairs (delete content (pairs d1)) d1).
  destruct (touch_run (tracked_repositories [content; git] (core_db c)) now (set_db d2 c) Hnow)
    as (t & Ht). rewrite core_db_set, set_db_twice in Ht.
  set (d' := with_tracker t d2) in *. set (c1 := set_db d' c).
  assert (removes (fun w => w = content \/ w = git) d1 d2) as H12
    by (split; [done|done|apply delete_subseteq|done|by intros []|done]).
  assert (removes (fun w => w = content \/ w = git) (core_db c) d') as Hrm.
  { transitivity d1; [|transitivity d2; [done|]].
    - eapply removes_mono; [|apply delete_workspaces_removes]. intros w. rewrite elem_of_cons.
      rewrite list_elem_of_singleton. done.
    - split; [done|done|done|done|by intros []|done]. }
  destruct (release_run [content; git] (workspace_chunks content (core_db c)
    ++ workspace_chunks git (core_db c)) d' c c1 Hex (conj Hi Hroom) eq_refl eq_refl)
    as (c' & Hu & Hex' & Hdb & Hpr & Hi' & Hk).
  { intros id. apply f_equal. unfold d'. rewrite manifest_with_tracker. apply manifest_with_pairs. }
  { intros id. rewrite occurs_app, !workspace_chunks_tally, <-inodes_of_cons; [done|].
    by rewrite list_elem_of_singleton. }
  exists c'. split_and!; [|split; [|done]|done| | |done|done].
  - unfold remove_workspace_pair_ids. erewrite bind_ok by done. rewrite Hp.
    erewrite bind_ok by done. rewrite Hready. erewrite bind_ok by done. erewrite bind_ok by done.
    erewrite bind_ok; last first.
    { unfold transact. rewrite three_steps. fold d1. fold d2. rewrite Ht. reflexivity. }
    exact Hu.
  - rewrite Hdb. by apply Hrm.
  - rewrite Hdb. apply (pair_gone_removes (fun _ => True) _ d2);
      [split; [done|done|done|done|by intros []|done]|].
    unfold pair_gone, pair_row. simpl. rewrite lookup_delete_eq. split; [done|].
    split; apply map_lookup_filter_None; right; intros r _ Hin; apply Hin; [by left|right; by left].
  - by rewrite Hdb.
Qed.
End Collection.
