(* ===== verification/LifecycleSpec.v ===== *)
(** What recovery, removal and garbage collection promise: reference counts
    agree with the manifests, abandoned work disappears, and whoever is left
    notices nothing. *)

From S2P Require Import Prelude Error RustStr PathPolicy ChunkStore Bytes ContentStore Tracker Core Layers Namespace Lifecycle FileContent View Isolation NamespaceFacts Demo LifecycleFacts LayerGc.
#[local] Open Scope string_scope.
#[local] Open Scope list_scope.
#[local] Open Scope Z_scope.

Section Lifecycle_.
Context {St : Type} {CS : ContentStore St} {CL : ContentStoreLaws St}.
Context (blake3 : list Z -> list Z).
Abbreviation core := (Core St).
Abbreviation contents c := (cs_abs (core_store c)).

Lemma elem_of_recoverable d content git :
  (content, git) ∈ recoverable_pairs d <->
  exists p, pairs d !! content = Some p /\ p_state p <> PKept /\ git = p_git_id p.
Proof.
  unfold recoverable_pairs. rewrite list_elem_of_fmap. split.
  - intros ([k p] & [= -> ->] & Hin). apply list_elem_of_filter in Hin as [Hs Hin].
    apply elem_of_map_to_list in Hin. eauto.
  - intros (p & Hp & Hs & ->). exists (content, p). split; [done|].
    apply list_elem_of_filter. split; [done|]. by apply elem_of_map_to_list.
Qed.

(** A pair that recovery takes away: not kept, and no live process holds its
    lease. *)
Definition left_behind (lease_free : string -> bool) (d : Db) (content : string) (p : PairRow)
  : Prop := pairs d !! content = Some p /\ p_state p <> PKept /\ lease_free content = true.

(** C24: Recovery restores consistency whatever the reference counts and the
    journal were: on a database whose rows are consistent, with a chunk store
    that satisfies its invariant and still stores every chunk a manifest
    names, fewer than 2^63 references in all, recorded pairs with valid ids,
    and a clock that fits its column, it completes; afterwards every chunk is
    counted once per reference in a manifest, the journal is empty, every pair
    that was neither kept nor held by a live process is gone together with
    both its workspaces, all other pairs are as they were, and every workspace
    outside the abandoned pairs still has its view. *)
Theorem recover_exact lease_free now (c : core) :
  good c -> 0 <= as_i64 now ->
  Forall (fun x => validate_workspace_id x.1 = Ok tt) (recoverable_pairs (core_db c)) ->
  (forall id, id ∈ manifest_chunks (core_db c) -> is_Some (contents c !! id)) ->
  zlen (manifest_chunks (core_db c)) <= I64_MAX ->
  exists c', recover lease_free now c = (Ok tt, c')
    /\ good c' /\ refcounts_exact c' /\ journal (core_db c') = ∅
    /\ (forall content p, left_behind lease_free (core_db c) content p ->
          pair_gone (content, p_git_id p) (core_db c'))
    /\ (forall content, (forall p, ~ left_behind lease_free (core_db c) content p) ->
          pairs (core_db c') !! content = pairs (core_db c) !! content)
    /\ (forall w, (forall content p, left_behind lease_free (core_db c) content p ->
                     w <> content /\ w <> p_git_id p) ->
          workspaces (core_db c') !! w = workspaces (core_db c) !! w
          /\ undisturbed blake3 w c c').
Proof.
  intros [Hd Hi] Hnow Hids Hst Hlen.
  destruct (recover_run lease_free now c Hi Hnow Hids Hst Hlen)
    as (d' & c' & Hr & Hdb & Hrm & Hpr & Hi' & Ha & Hgone & Hkept).
  assert (good c') as Hg'.
  { split; [|done]. rewrite Hdb. pose proof (rm_ok _ _ _ Hrm Hd) as []. by split. }
  exists c'. split; [done|]. split; [done|]. split; [|split; [by rewrite Hdb|split; [|split]]].
  - intros id. rewrite Hdb. change (manifest_chunks (with_journal ∅ d')) with (manifest_chunks d').
    unfold refs_of. rewrite Ha, map_lookup_imap.
    destruct (contents c !! id) as [[b n]|] eqn:Hid; [done|]. simpl.
    destruct (decide (id ∈ manifest_chunks d')) as [Hin|Hin].
    + destruct (Hst id) as [x Hx]; [by eapply removes_manifest|]. congruence.
    + rewrite occurs_pos in Hin. pose proof (occurs_nonneg id (manifest_chunks d')). lia.
  - intros content p (Hp & Hs & Hl). rewrite Hdb.
    apply (Hgone (content, p_git_id p)); [|done]. apply elem_of_recoverable. eauto.
  - intros content Hno. rewrite Hdb. apply Hkept. intros [k git] Hin. simpl. intros ->.
    apply elem_of_recoverable in Hin as (p & Hp & Hs & _).
    destruct (lease_free content) eqn:Hl; [|done]. by destruct (Hno p).
  - intros w Hw. destruct (rm_kept _ _ _ Hrm w) as [Hag Hws].
    { intros ([k git] & Hin & Hl & Hor). apply elem_of_recoverable in Hin as (p & Hp & Hs & ->).
      simpl in *. destruct (Hw k p) as [??]; [done|]. by destruct Hor. }
    split; [by rewrite Hdb|]. apply undisturbed_intro; [done..| | |by rewrite Hpr].
    + rewrite Hdb. etransitivity; [exact Hag|]. by split.
    + intros id b [n Hn]. unfold stored_as. rewrite Ha, map_lookup_imap, Hn. simpl. eauto.
Qed.

(** C23: Garbage collection of the core is safe and complete: with exact
    reference counts, consistent layer tables and room for the new segments
    of the chunk store it succeeds; the dirty layers left are exactly those to
    which a workspace is bound or that a proposal or a template names, the
    bases left are exactly those of a remaining dirty layer, both with all
    their rows and with no row of the others; exactly the chunks that a
    manifest still refers to are stored, the counts are exact, and no
    workspace notices: metadata, listings and every successful read are as
    before. *)
Theorem gc_keeps_views (c : core) :
  good c -> layers_ok (core_db c) -> refcounts_exact c ->
  cs_room (1 + Z.of_nat (size (contents c))) (core_store c) ->
  exists rep c', core_gc c = (Ok rep, c')
    /\ good c' /\ layers_ok (core_db c') /\ refcounts_exact c'
    /\ layers_collected (core_db c) (core_db c')
    /\ (forall id, is_Some (contents c' !! id) <-> id ∈ manifest_chunks (core_db c'))
    /\ (forall w p, fst (metadata blake3 w p c') = fst (metadata blake3 w p c)
          /\ fst (read_dir blake3 w p c') = fst (read_dir blake3 w p c)
          /\ (forall o n b, fst (read_file w p o n c) = Ok b -> fst (read_file w p o n c') = Ok b)).
Proof.
  intros Hg Hok Hex Hroom.
  destruct (core_gc_run c Hg Hok Hex Hroom) as (rep & c' & Hr & Hdb & Hg' & Hex' & Hpr & Hk & Hmin).
  assert (forall w, agree w (core_db c) (core_db c')) as Ha
    by (intros w; rewrite Hdb; by apply without_dead_agree).
  exists rep, c'. split_and!; [done|done|rewrite Hdb; by apply without_dead_layers|done
    |rewrite Hdb; apply without_dead_collected| |].
  - intros id. split; [apply Hmin|]. intros Hin%occurs_pos. rewrite <-(Hex' id) in Hin.
    unfold refs_of in Hin. destruct (contents c' !! id); [done|simpl in Hin; lia].
  - intros w p. split_and!.
    + apply (same_run w); [apply same_metadata|apply Hg|apply Hg'|done].
    + apply (same_run w); [apply same_read_dir|apply Hg|apply Hg'|done].
    + intros o n b. apply read_file_sim; [done..|]. intros id x Hseen. apply Hk.
      apply (seen_manifest w). destruct Hseen as (q & i & Hres & Hin). exists q, i.
      split; [|done]. rewrite <-Hres.
      apply (same_run w); [apply same_resolve_inode|apply Hg|apply Hg'|done].
Qed.

(** C25: Removing a workspace of a good state with exact counts, at a time the
    clock column can hold, succeeds: no table keeps a row of it (workspace,
    layer binding, inodes, entries, inode origins, hardlink promotions,
    redirects), the count of every chunk drops by the number of times its
    inodes referred to the chunk, so that the counts stay exact, and no other
    workspace notices. *)
Theorem remove_workspace_exact ws now (c : core) :
  good c -> refcounts_exact c -> cs_room 0 (core_store c) -> 0 <= as_i64 now ->
  exists c', remove_workspace ws now c = (Ok tt, c')
    /\ good c' /\ refcounts_exact c' /\ no_row_of ws (core_db c')
    /\ (forall id, refs_of (contents c') id
          = refs_of (contents c) id - tally i_chunks id (inodes_of [ws] (core_db c)))
    /\ (forall w, w <> ws -> workspaces (core_db c') !! w = workspaces (core_db c) !! w
          /\ undisturbed blake3 w c c').
Proof.
  intros Hg Hex Hroom Hnow.
  destruct (remove_workspace_run ws now c Hg Hex Hroom Hnow)
    as (c' & Hr & Hg' & Hex' & Hws & Hrefs & Hrm & Hk & Hpr).
  exists c'. split_and!; [done..|]. intros w Hw. destruct (rm_kept _ _ _ Hrm w Hw) as [Ha Hrow].
  split; [done|]. apply undisturbed_intro; [done..|]. intros o. by rewrite Hpr.
Qed.

(** Removing or aborting a pair takes both workspaces and the pair's row
    away in one step, releases exactly their references, and no other
    workspace notices.  (A removal is refused unless the pair is ready or
    kept; an abort is not.) *)
Theorem remove_pair_exact content git p require_ready now (c : core) :
  good c -> refcounts_exact c -> cs_room 0 (core_store c) -> 0 <= as_i64 now ->
  content <> git -> pair_row content git (core_db c) = Some p ->
  let r := remove_workspace_pair_ids content git require_ready now c in
  if negb require_ready || bool_decide (p_state p = PReady) || bool_decide (p_state p = PKept)
  then fst r = Ok tt /\ good (snd r) /\ refcounts_exact (snd r)
    /\ pair_gone (content, git) (core_db (snd r))
    /\ (forall w, w <> content -> w <> git -> undisturbed blake3 w c (snd r))
  else r = (Err (InvalidPath "workspace pair is not ready or kept"), c).
Proof.
  intros Hg Hex Hroom Hnow Hne Hp r. destruct (_ || _) eqn:Hready.
  - destruct (remove_pair_ids_run content git p require_ready now c Hg Hex Hroom Hnow Hne Hp Hready)
      as (c' & Hr & Hg' & Hex' & Hgone & Hrm & Hk & Hpr).
    unfold r. rewrite Hr. split_and!; [done..|]. intros w H1 H2.
    destruct (rm_kept _ _ _ Hrm w) as [Ha _]; [by intros []|].
    apply undisturbed_intro; [done..|]. simpl. by rewrite Hpr.
  - unfold r, remove_workspace_pair_ids. erewrite bind_ok by done. rewrite Hp.
    erewrite bind_ok by done. by rewrite Hready.
Qed.
End Lifecycle_.

(** ** On the concrete workspaces *)

Lemma demo_layers_ok : layers_ok demo_db.
Proof.
  split; simpl.
  - apply NoDup_singleton.
  - intros l id ->%list_elem_of_singleton. done.
  - intros w b dl Hw. exists (mkDirtyLayerRow "dirty" "base" demo_baseline).
    apply lookup_insert_Some in Hw as [[_ [= <- <-]]|[_ Hw]];
      [|apply lookup_singleton_Some in Hw as [_ [= <- <-]]];
      (split_and!; [by apply list_elem_of_singleton|done..]).
Qed.

Lemma demo_refcounts : refcounts_exact demo_core.
Proof.
  intros id. change (refs_of (cs_abs demo_chunks) id = occurs id (manifest_chunks demo_db)).
  rewrite demo_chunks_abs. replace (manifest_chunks demo_db) with [demo_id; demo_id]
    by (vm_compute; reflexivity).
  unfold refs_of. simpl. case_bool_decide as Hid.
  - by rewrite <-Hid, lookup_singleton_eq.
  - by rewrite lookup_singleton_ne.
Qed.

Lemma demo_gc_room : cs_room (1 + Z.of_nat (size (cs_abs demo_chunks))) demo_chunks.
Proof. apply demo_chunks_room. vm_compute. discriminate. Qed.

(** A pair whose creation was interrupted, on top of the two workspaces. *)
Definition crashed_core : Core ChunkStore :=
  set_db (with_pairs {[ "w" := mkPairRow "v" PCreating ]} demo_db) demo_core.

Lemma crashed_good : good crashed_core.
Proof. destruct demo_good as [[] ?]. by split. Qed.

Lemma recover_exact_witness :
  exists c', recover (fun _ => true) 7 crashed_core = (Ok tt, c')
    /\ pair_gone ("w", "v") (core_db c') /\ refcounts_exact c'.
Proof.
  destruct (recover_exact demo_digest (fun _ => true) 7 crashed_core)
    as (c' & Hr & _ & Hex & _ & Hgone & _).
  - exact crashed_good.
  - vm_compute. discriminate.
  - vm_compute. repeat constructor.
  - intros id Hin. change (is_Some (cs_abs demo_chunks !! id)). rewrite demo_chunks_abs.
    replace (manifest_chunks (core_db crashed_core)) with [demo_id; demo_id] in Hin
      by (vm_compute; reflexivity).
    assert (id = demo_id) as -> by set_solver. rewrite lookup_singleton_eq. eauto.
  - vm_compute. discriminate.
  - exists c'. split; [exact Hr|]. split; [|exact Hex].
    apply (Hgone "w" (mkPairRow "v" PCreating)). vm_compute. by split_and!.
Defined.

Lemma gc_keeps_views_witness :
  exists rep c', core_gc demo_core = (Ok rep, c') /\ refcounts_exact c'
    /\ fst (read_file "w" "f" 0 3 c') = Ok [1; 2; 3].
Proof.
  destruct (gc_keeps_views demo_digest demo_core demo_good demo_layers_ok demo_refcounts demo_gc_room)
    as (rep & c' & Hr & _ & _ & Hex & _ & _ & Hv).
  exists rep, c'. split; [exact Hr|]. split; [exact Hex|]. apply (Hv "w" "f").
  vm_compute. reflexivity.
Defined.

Lemma remove_workspace_exact_witness :
  exists c', remove_workspace "w" 7 demo_core = (Ok tt, c') /\ refcounts_exact c'
    /\ undisturbed demo_digest "v" demo_core c'.
Proof.
  destruct (remove_workspace_exact demo_digest "w" 7 demo_core demo_good demo_refcounts)
    as (c' & Hr & _ & Hex & _ & _ & Hv).
  - apply demo_chunks_room. vm_compute. discriminate.
  - vm_compute. discriminate.
  - exists c'. split; [exact Hr|]. split; [exact Hex|]. by apply Hv.
Defined.

Lemma remove_pair_exact_witness :
  refcounts_exact (snd (remove_workspace_pair_ids "w" "v" false 7 crashed_core)).
Proof.
  apply (remove_pair_exact demo_digest "w" "v" (mkPairRow "v" PCreating) false 7 crashed_core).
  - exact crashed_good.
  - exact demo_refcounts.
  - apply demo_chunks_room. vm_compute. discriminate.
  - vm_compute. discriminate.
  - discriminate.
  - reflexivity.
Defined.
