(* ===== verification/CoreError.v ===== *)
(** The error type of the crates outside the workspace core
    (crates/core/src/error.rs).  An I/O source is reduced to its kind; the text
    that [format!] builds is reduced to its constant part, followed by the path
    it is about where a caller tells errors apart by it. *)

From S2P Require Import Prelude.

Inductive Error : Type :=
| Io (context source : string)
| NotFound (path : string)
| NotImplemented (feature reason : string)
| OutOfScope (feature : string)
| Invalid (message : string)
| Parse (message : string)
| Store (message : string)
| Index (message : string)
| AdmissionDeferred (root detail : string)
| Workspace (message : string)
| Lock (message : string)
| Budget (message : string)
| Config (message : string).

#[export] Instance CoreError_eq_dec : EqDecision Error.
Proof. solve_decision. Defined.

Abbreviation result := (res Error).
