(* ===== verification/EditTxn.v ===== *)
(** The in-memory half of an edit transaction (crates/edit/src/txn.rs):
    operations on byte ranges of one immutable snapshot are checked for
    overlaps, applied from the highest to the lowest offset, and the result is
    checked to differ from the snapshot only inside the declared ranges.

    Offsets into a [Vec<u8>] are [nat]: a vector never has more than
    [isize::MAX] bytes, so the additions on offsets of the code do not
    overflow.  [sha256_hex] is a parameter. *)

From Stdlib Require Import Sorting.Sorted.
From S2P Require Import Prelude CoreError.
#[local] Open Scope string_scope.
#[local] Open Scope list_scope.
#[local] Open Scope nat_scope.

Record PlannedOp : Type := mkPlannedOp {
  op_id : string; op_range : nat * nat; op_replacement : list Z }.
Record Snapshot : Type := mkSnapshot {
  sn_path : string; sn_content : list Z; sn_file_sha256 : string }.
Record Applied : Type := mkApplied {
  ap_content : list Z; ap_file_sha256 : string; ap_changed_ranges : list (nat * nat) }.

Abbreviation op_start op := (op_range op).1.
Abbreviation op_end op := (op_range op).2.

(** ** Standard library *)

(** [slice::sort_by_key] is stable: an element goes before the first one whose
    key is not smaller. *)
Fixpoint insert_by_key {A} (key : A -> nat) (x : A) (l : list A) : list A :=
  match l with
  | [] => [x]
  | y :: l => if key x <=? key y then x :: y :: l else y :: insert_by_key key x l
  end.
Definition sort_by_key {A} (key : A -> nat) (l : list A) : list A :=
  foldr (insert_by_key key) [] l.

(** [slice::get] of a range. *)
Definition get_range (b : list Z) (start end_ : nat) : option (list Z) :=
  if (start <=? end_) && (end_ <=? length b) then Some (take (end_ - start) (drop start b))
  else None.
Definition get_from (b : list Z) (start : nat) : option (list Z) :=
  if start <=? length b then Some (drop start b) else None.

(** [Vec::splice] panics when the range is not one of the vector's. *)
Definition splice_vec (b : list Z) (range : nat * nat) (new : list Z) : result (list Z) :=
  if (range.1 <=? range.2) && (range.2 <=? length b)
  then Ok (take range.1 b ++ new ++ drop range.2 b) else Panic.

(** ** Overlaps *)

Definition mutation_ranges_overlap (first second : nat * nat) : bool :=
  match first.1 =? first.2, second.1 =? second.2 with
  | true, true => false
  | true, false => (second.1 <=? first.1) && (first.1 <? second.2)
  | false, true => (first.1 <=? second.1) && (second.1 <? first.2)
  | false, false => (first.1 <? second.2) && (second.1 <? first.2)
  end.

Fixpoint any_overlap (ops : list PlannedOp) : bool :=
  match ops with
  | [] => false
  | first :: rest =>
      existsb (fun second => mutation_ranges_overlap (op_range first) (op_range second)) rest
      || any_overlap rest
  end.

Definition op_outside (b : list Z) (op : PlannedOp) : bool :=
  (op_end op <? op_start op) || (length b <? op_end op).

(** ** Application *)

Fixpoint splice_all (b : list Z) (ops : list PlannedOp) : result (list Z) :=
  match ops with
  | [] => Ok b
  | op :: ops => res_bind (splice_vec b (op_range op) (op_replacement op)) (fun b => splice_all b ops)
  end.

Section Txn.
Context (sha256_hex : list Z -> string).

Definition apply_in_memory (snapshot : Snapshot) (ops : list PlannedOp) : result Applied :=
  if existsb (op_outside (sn_content snapshot)) ops
  then Err (Invalid "operation: range outside file")
  else
    let sorted := sort_by_key (fun op => op_start op) ops in
    if any_overlap sorted
    then Err (Invalid "operations overlap; nothing was changed")
    else
      res_bind (splice_all (sn_content snapshot) (reverse sorted)) (fun content =>
      Ok (mkApplied content (sha256_hex content) ((fun op => op_range op) <$> sorted))).
End Txn.

(** The loop of [outside_ranges_unchanged], with the cursors [b] and [a];
    [start - b] panics when it is negative. *)
Fixpoint outside_loop (before after : list Z) (b a : nat) (ops : list PlannedOp) : result bool :=
  match ops with
  | [] => Ok (bool_decide (get_from before b = get_from after a))
  | op :: ops =>
      if op_start op <? b then Panic
      else
        if bool_decide (get_range before b (op_start op)
                        = get_range after a (a + (op_start op - b)))
        then outside_loop before after (op_end op)
               (a + (op_start op - b) + length (op_replacement op)) ops
        else Ok false
  end.

Definition outside_ranges_unchanged (before after : list Z) (ops : list PlannedOp) : result bool :=
  outside_loop before after 0 0 (sort_by_key (fun op => op_start op) ops).

(** The in-memory transaction against its reference: the kept parts of the
    snapshot interleaved with the replacements, from left to right. *)

#[local] Open Scope string_scope.
#[local] Open Scope list_scope.
#[local] Open Scope nat_scope.

(** What is left of the snapshot from [pos] on, with the operations done. *)
Fixpoint weave (b : list Z) (pos : nat) (ops : list PlannedOp) : list Z :=
  match ops with
  | [] => drop pos b
  | op :: ops =>
      take (op_start op - pos) (drop pos b) ++ op_replacement op ++ weave b (op_end op) ops
  end.

(** ** Sorting *)

Section Sort.
Context {A : Type} (key : A -> nat).

Lemma insert_by_key_perm x l : insert_by_key key x l ≡ₚ x :: l.
Proof.
  induction l as [|y l IH]; simpl; [done|]. destruct (key x <=? key y); [done|].
  rewrite IH. constructor.
Qed.

Lemma sort_by_key_perm l : sort_by_key key l ≡ₚ l.
Proof.
  unfold sort_by_key. induction l as [|x l IH]; simpl; [done|].
  by rewrite insert_by_key_perm, IH.
Qed.

Lemma insert_by_key_sorted x l :
  StronglySorted (fun a b => key a <= key b) l ->
  StronglySorted (fun a b => key a <= key b) (insert_by_key key x l).
Proof.
  induction 1 as [|y l Hs IH Hy]; simpl; [by repeat constructor|].
  destruct (Nat.leb_spec (key x) (key y)).
  - constructor; [by constructor|]. constructor; [done|]. eapply List.Forall_impl; [|exact Hy].
    simpl. lia.
  - constructor; [done|]. rewrite insert_by_key_perm. constructor; [lia|done].
Qed.

Lemma sort_by_key_sorted l : StronglySorted (fun a b => key a <= key b) (sort_by_key key l).
Proof.
  unfold sort_by_key. induction l; simpl; [constructor|]. by apply insert_by_key_sorted.
Qed.
End Sort.

(** ** Overlaps do not depend on the order *)

Lemma mutation_ranges_overlap_sym r s :
  mutation_ranges_overlap r s = mutation_ranges_overlap s r.
Proof.
  unfold mutation_ranges_overlap.
  destruct (r.1 =? r.2), (s.1 =? s.2); try done. apply andb_comm.
Qed.

#[export] Instance existsb_perm {A} (f : A -> bool) : Proper (Permutation ==> eq) (existsb f).
Proof.
  induction 1; simpl; [done|congruence| |congruence].
  rewrite !orb_assoc. f_equal. apply orb_comm.
Qed.

#[export] Instance any_overlap_perm : Proper (Permutation ==> eq) any_overlap.
Proof.
  induction 1 as [|x l l' Hp IH|x y l|]; simpl; [done| | |congruence].
  - by rewrite IH, Hp.
  - rewrite (mutation_ranges_overlap_sym (op_range y)).
    destruct (mutation_ranges_overlap _ _); simpl; [done|].
    rewrite !orb_assoc. f_equal. apply orb_comm.
Qed.

(** ** Operations in order *)

(** Ranges in range and in order, each after the end of the one before. *)
Fixpoint chained (len pos : nat) (ops : list PlannedOp) : Prop :=
  match ops with
  | [] => pos <= len
  | op :: ops => pos <= op_start op <= op_end op /\ op_end op <= len /\ chained len (op_end op) ops
  end.

Lemma chained_pos len pos ops : chained len pos ops -> pos <= len.
Proof. destruct ops; simpl; lia. Qed.

Lemma no_overlap_ordered r s :
  r.1 <= r.2 -> s.1 <= s.2 -> r.1 <= s.1 -> mutation_ranges_overlap r s = false -> r.2 <= s.1.
Proof.
  unfold mutation_ranges_overlap. intros.
  destruct (Nat.eqb_spec r.1 r.2), (Nat.eqb_spec s.1 s.2); [lia|lia|..];
    match goal with H : (_ && _) = false |- _ => apply andb_false_iff in H as [H|H] end;
    first [apply Nat.leb_gt in H2|apply Nat.ltb_ge in H2]; lia.
Qed.

Lemma chained_intro b ops pos :
  StronglySorted (fun x y => op_start x <= op_start y) ops ->
  existsb (op_outside b) ops = false -> any_overlap ops = false ->
  pos <= length b -> Forall (fun op => pos <= op_start op) ops -> chained (length b) pos ops.
Proof.
  intros Hs. revert pos. induction Hs as [|op ops Hs IH Hop]; simpl; [done|].
  intros pos [Ho Hos]%orb_false_iff [Hov Hovs]%orb_false_iff Hpos [Hp _]%Forall_cons.
  unfold op_outside in Ho. apply orb_false_iff in Ho as [H1%Nat.ltb_ge H2%Nat.ltb_ge].
  split_and!; [done..|]. apply IH; [done..|]. apply List.Forall_forall. intros x Hx.
  rewrite List.Forall_forall in Hop.
  assert (mutation_ranges_overlap (op_range op) (op_range x) = false) as Hx'.
  { apply not_true_is_false. intros Ht. apply not_true_iff_false in Hov. apply Hov.
    apply existsb_exists. by exists x. }
  assert (op_outside b x = false) as Hxo.
  { apply not_true_is_false. intros Ht. apply not_true_iff_false in Hos. apply Hos.
    apply existsb_exists. by exists x. }
  unfold op_outside in Hxo. apply orb_false_iff in Hxo as [Hx1%Nat.ltb_ge _].
  by apply no_overlap_ordered; [..|apply Hop|].
Qed.

Lemma sorted_chained b ops :
  existsb (op_outside b) ops = false -> any_overlap ops = false ->
  chained (length b) 0 (sort_by_key (fun op => op_start op) ops).
Proof.
  intros Ho Hov. apply chained_intro; [apply sort_by_key_sorted|by rewrite sort_by_key_perm..|lia|].
  apply List.Forall_forall. lia.
Qed.

Lemma splice_all_app b l1 l2 :
  splice_all b (l1 ++ l2) = res_bind (splice_all b l1) (fun b => splice_all b l2).
Proof.
  revert b. induction l1 as [|op l1 IH]; intros b; simpl; [done|].
  destruct (splice_vec b (op_range op) (op_replacement op)); simpl; auto.
Qed.

Lemma splice_all_weave b pos ops :
  chained (length b) pos ops -> splice_all b (reverse ops) = Ok (take pos b ++ weave b pos ops).
Proof.
  revert pos. induction ops as [|op ops IH]; intros pos; simpl.
  { intros _. by rewrite take_drop. }
  intros ([H1 H2] & H3 & Hc). rewrite reverse_cons, splice_all_app, (IH _ Hc). simpl.
  unfold splice_vec. rewrite !(proj2 (Nat.leb_le _ _)); [|rewrite length_app, length_take; lia|done].
  simpl. f_equal. rewrite take_app_le by (rewrite length_take; lia).
  rewrite take_take, drop_app_length' by (rewrite length_take; lia).
  rewrite Nat.min_l by done. rewrite (app_assoc (take pos b)). f_equal.
  replace (op_start op) with (pos + (op_start op - pos)) at 1 by lia.
  symmetry. apply take_take_drop.
Qed.

(** ** The isolation check *)

(** Other replacements of the same lengths for the same ranges. *)
Definition same_shape : list PlannedOp -> list PlannedOp -> Prop :=
  Forall2 (fun op op' => op_range op' = op_range op
                         /\ length (op_replacement op') = length (op_replacement op)).

Lemma outside_loop_spec before after b a ops :
  chained (length before) b ops ->
  exists v, outside_loop before after b a ops = Ok v
    /\ (v = true <-> a <= length after
          /\ exists ops', same_shape ops ops' /\ drop a after = weave before b ops').
Proof.
  revert b a. induction ops as [|op ops IH]; intros b a; simpl.
  - intros Hb. eexists. split; [done|]. rewrite bool_decide_eq_true. unfold get_from.
    rewrite (proj2 (Nat.leb_le b _)) by done. split.
    + destruct (Nat.leb_spec a (length after)); [|done]. intros [= Hd]. split; [done|].
      exists []. split; [constructor|done].
    + intros (Ha & ops' & Hsh & Hd). apply Forall2_nil_inv_l in Hsh as ->. simpl in Hd.
      by rewrite (proj2 (Nat.leb_le _ _)), Hd.
  - intros ([H1 H2] & H3 & Hc). rewrite (proj2 (Nat.ltb_ge _ _)) by done.
    set (k := op_start op - b). unfold get_range.
    rewrite !(proj2 (Nat.leb_le b _)), !(proj2 (Nat.leb_le (op_start op) _)) by lia.
    rewrite (proj2 (Nat.leb_le a (a + k))) by lia. cbn [andb].
    replace (a + k - a) with k by lia. fold k.
    destruct (IH (op_end op) (a + k + length (op_replacement op)) Hc) as (v & Hv & Hiff).
    case_bool_decide as Heq.
    + exists v. split; [done|]. rewrite Hiff.
      destruct (Nat.leb_spec (a + k) (length after)); [|done]. injection Heq as Heq. split.
      * intros (Ha & ops' & Hsh & Hd). split; [lia|].
        exists (mkPlannedOp "" (op_range op)
          (take (length (op_replacement op)) (drop (a + k) after)) :: ops').
        split; [constructor; [|done]; simpl; split; [done|rewrite length_take, length_drop; lia]|].
        simpl. fold k. rewrite Heq, <-Hd.
        rewrite <-(take_drop k (drop a after)) at 1. f_equal. rewrite drop_drop.
        rewrite <-(take_drop (length (op_replacement op)) (drop (a + k) after)) at 1. f_equal.
        by rewrite drop_drop.
      * intros (Ha & ops' & Hsh & Hd). apply Forall2_cons_inv_l in Hsh as (op' & l' & [Hr Hl] & Hsh & ->).
        simpl in Hd. rewrite Hr in Hd. fold k in Hd.
        assert (length (take k (drop b before)) = k) as Hk by (rewrite length_take, length_drop; lia).
        assert (drop (a + k) after = op_replacement op' ++ weave before (op_end op) l') as Hd2.
        { rewrite <-drop_drop, Hd. by rewrite drop_app_length' by done. }
        split.
        -- apply (f_equal length) in Hd2. rewrite length_drop, length_app in Hd2. lia.
        -- exists l'. split; [done|]. rewrite <-drop_drop, Hd2. by apply drop_app_length'.
    + exists false. split; [done|]. split; [done|]. intros (Ha & ops' & Hsh & Hd). exfalso.
      apply Forall2_cons_inv_l in Hsh as (op' & l' & [Hr Hl] & Hsh & ->).
      simpl in Hd. rewrite Hr in Hd. fold k in Hd.
      assert (length (take k (drop b before)) = k) as Hk by (rewrite length_take, length_drop; lia).
      apply Heq. rewrite (proj2 (Nat.leb_le _ _)).
      * f_equal. rewrite Hd. by rewrite take_app_length'.
      * apply (f_equal length) in Hd. rewrite length_drop, !length_app, Hk in Hd. lia.
Qed.

(** ** The transaction *)

Lemma apply_in_memory_run sha256_hex snapshot ops :
  let b := sn_content snapshot in
  let sorted := sort_by_key (fun op => op_start op) ops in
  if existsb (op_outside b) ops
  then apply_in_memory sha256_hex snapshot ops = Err (Invalid "operation: range outside file")
  else if any_overlap ops
  then apply_in_memory sha256_hex snapshot ops
       = Err (Invalid "operations overlap; nothing was changed")
  else apply_in_memory sha256_hex snapshot ops
       = Ok (mkApplied (weave b 0 sorted) (sha256_hex (weave b 0 sorted))
               ((fun op => op_range op) <$> sorted))
    /\ outside_ranges_unchanged b (weave b 0 sorted) ops = Ok true.
Proof.
  intros b sorted. unfold apply_in_memory. fold b.
  destruct (existsb (op_outside b) ops) eqn:Hout; [done|].
  rewrite (any_overlap_perm _ _ (sort_by_key_perm (fun op => op_start op) ops)).
  destruct (any_overlap ops) eqn:Hov; [done|].
  pose proof (sorted_chained b ops Hout Hov) as Hc. fold sorted in Hc |- *.
  rewrite (splice_all_weave _ _ _ Hc). split; [done|].
  destruct (outside_loop_spec b (weave b 0 sorted) 0 0 sorted Hc) as (v & Hv & Hiff).
  unfold outside_ranges_unchanged. fold sorted. rewrite Hv. f_equal. apply Hiff.
  split; [lia|]. exists sorted. split; [|done]. unfold same_shape. apply Forall_Forall2_diag. by apply Forall_true.
Qed.

(** Applying operations is exact: it is refused when a range leaves the
    file or two ranges overlap, whatever the order of the operations, and
    otherwise never panics and gives the snapshot with every range replaced,
    the bytes between the ranges in place, which the isolation check then
    accepts. *)
Theorem apply_in_memory_exact sha256_hex snapshot ops :
  let b := sn_content snapshot in
  let sorted := sort_by_key (fun op => op_start op) ops in
  if existsb (op_outside b) ops
  then apply_in_memory sha256_hex snapshot ops = Err (Invalid "operation: range outside file")
  else if any_overlap ops
  then apply_in_memory sha256_hex snapshot ops
       = Err (Invalid "operations overlap; nothing was changed")
  else apply_in_memory sha256_hex snapshot ops
       = Ok (mkApplied (weave b 0 sorted) (sha256_hex (weave b 0 sorted))
               ((fun op => op_range op) <$> sorted))
    /\ outside_ranges_unchanged b (weave b 0 sorted) ops = Ok true.
Proof. apply apply_in_memory_run. Qed.

(** The isolation check is exact: for ranges that fit the file and do not
    overlap it never panics, and it accepts a result precisely when the result
    is the original with some bytes, as many as each operation declares, in
    place of each range. *)
Theorem isolation_check_exact before after ops :
  existsb (op_outside before) ops = false -> any_overlap ops = false ->
  let sorted := sort_by_key (fun op => op_start op) ops in
  exists v, outside_ranges_unchanged before after ops = Ok v
    /\ (v = true <-> exists ops', same_shape sorted ops' /\ after = weave before 0 ops').
Proof.
  intros Hout Hov sorted.
  destruct (outside_loop_spec before after 0 0 sorted (sorted_chained before ops Hout Hov))
    as (v & Hv & Hiff).
  exists v. split; [done|]. rewrite Hiff. split.
  - intros (_ & ops' & Hsh & Hd). eauto.
  - intros (ops' & Hsh & Hd). split; [lia|]. eauto.
Qed.

Lemma isolation_check_exact_witness :
  exists v, outside_ranges_unchanged [1; 2; 3; 4]%Z [9; 2; 3; 4; 8]%Z
      [mkPlannedOp "b" (4, 4) [5]%Z; mkPlannedOp "a" (0, 1) [7]%Z] = Ok v
    /\ (v = true <-> exists ops',
          same_shape [mkPlannedOp "a" (0, 1) [7]%Z; mkPlannedOp "b" (4, 4) [5]%Z] ops'
          /\ [9; 2; 3; 4; 8]%Z = weave [1; 2; 3; 4]%Z 0 ops').
Proof.
  apply (isolation_check_exact [1; 2; 3; 4]%Z [9; 2; 3; 4; 8]%Z
    [mkPlannedOp "b" (4, 4) [5]%Z; mkPlannedOp "a" (0, 1) [7]%Z]); reflexivity.
Defined.
