(* ===== verification/EditHandle.v ===== *)
(** Stateless edit handles (crates/edit/src/handle.rs): a token that binds a
    byte range to the hashes of the file and of the range, and the base64url
    codec of its text form.

    [sha256_hex] and the JSON codec of the handle are parameters. *)

From Stdlib Require Import Ascii.
From S2P Require Import Prelude CoreError RustStr EditTxn.
#[local] Open Scope string_scope.
#[local] Open Scope list_scope.
#[local] Open Scope Z_scope.

Definition HANDLE_PREFIX : string := "geh1:".

Record EditHandle : Type := mkHandle {
  h_workspace_root : string; h_path : string; h_file_sha256 : string;
  h_byte_start : nat; h_byte_end : nat; h_target_sha256 : string;
  h_signature_fingerprint : option string; h_grammar_id : option string;
  h_grammar_version : option string }.

(** ** base64url without padding *)

Definition B64 : list Z :=
  bytes_of_string "ABCDEFGHIJKLMNOPQRSTUVWXYZabcdefghijklmnopqrstuvwxyz0123456789-_".

(** [B64[n >> k & 63]]; the index is below 64 by construction. *)
Definition b64_char (n k : Z) : Z :=
  nth (Z.to_nat (Z.land (Z.shiftr n k) 63)) B64 0.

Definition b64_word (b0 b1 b2 : Z) : Z :=
  Z.lor (Z.lor (Z.shiftl b0 16) (Z.shiftl b1 8)) b2.

(** The characters of the chunks of three bytes. *)
Fixpoint base64url_chunks (data : list Z) : list Z :=
  match data with
  | [] => []
  | [b0] => let n := b64_word b0 0 0 in [b64_char n 18; b64_char n 12]
  | [b0; b1] => let n := b64_word b0 b1 0 in [b64_char n 18; b64_char n 12; b64_char n 6]
  | b0 :: b1 :: b2 :: rest =>
      let n := b64_word b0 b1 b2 in
      [b64_char n 18; b64_char n 12; b64_char n 6; b64_char n 0] ++ base64url_chunks rest
  end.

Definition base64url_encode (data : list Z) : string := string_of_bytes (base64url_chunks data).

Definition b64_val (c : Z) : option Z :=
  (fun p => Z.of_nat p.1) <$> list_find (fun b => b = c) B64.

(** [n |= val(c)? << (18 - 6 * i)] over one chunk. *)
Fixpoint b64_collect (i : Z) (n : Z) (chunk : list Z) : option Z :=
  match chunk with
  | [] => Some n
  | c :: chunk =>
      match b64_val c with
      | Some v => b64_collect (i + 1) (Z.lor n (Z.shiftl v (18 - 6 * i))) chunk
      | None => None
      end
  end.

(** The bytes of one chunk; [as u8] keeps the low eight bits. *)
Definition b64_bytes (len : nat) (n : Z) : list Z :=
  (Z.shiftr n 16) `mod` 256
  :: (if (2 <? len)%nat then [(Z.shiftr n 8) `mod` 256] else [])
  ++ (if (3 <? len)%nat then [n `mod` 256] else []).

Definition decode_chunk (chunk : list Z) : option (list Z) :=
  if (length chunk <? 2)%nat then None
  else b64_bytes (length chunk) <$> b64_collect 0 0 chunk.

Fixpoint base64url_decode_bytes (bytes : list Z) : option (list Z) :=
  match bytes with
  | [] => Some []
  | c0 :: c1 :: c2 :: c3 :: rest =>
      match decode_chunk [c0; c1; c2; c3], base64url_decode_bytes rest with
      | Some b, Some out => Some (b ++ out)
      | _, _ => None
      end
  | chunk => decode_chunk chunk
  end.

Definition base64url_decode (text : string) : option (list Z) :=
  base64url_decode_bytes (bytes_of_string text).

(** ** Handles *)

Section Handle.
Context (sha256_hex : list Z -> string)
        (to_json : EditHandle -> list Z) (from_json : list Z -> option EditHandle).

Definition for_range (workspace_root path : string) (content : list Z) (start end_ : nat)
  : result EditHandle :=
  if (length content <? end_)%nat || (end_ <? start)%nat
  then Err (Invalid "handle range outside file")
  else Ok (mkHandle workspace_root path (sha256_hex content) start end_
             (sha256_hex (take (end_ - start) (drop start content))) None None None).

Definition encode (h : EditHandle) : string := HANDLE_PREFIX +:+ base64url_encode (to_json h).

Definition decode (token : string) : result EditHandle :=
  match strip_prefix HANDLE_PREFIX token with
  | None => Err (Invalid "not an edit handle")
  | Some body =>
      match base64url_decode body with
      | None => Err (Invalid "handle is not valid base64url")
      | Some bytes =>
          match from_json bytes with
          | None => Err (Invalid "handle payload invalid")
          | Some h => Ok h
          end
      end
  end.

(** [&live_content[start..end]] panics when the range is inverted. *)
Definition verify (h : EditHandle) (live : list Z) : result (nat * nat) :=
  if negb (bool_decide (sha256_hex live = h_file_sha256 h))
  then Err (Workspace "stale handle: file changed since the handle was issued")
  else if (length live <? h_byte_end h)%nat
  then Err (Workspace "stale handle: range outside file")
  else match get_range live (h_byte_start h) (h_byte_end h) with
       | None => Panic
       | Some target =>
           if negb (bool_decide (sha256_hex target = h_target_sha256 h))
           then Err (Workspace "stale handle: target span changed")
           else Ok (h_byte_start h, h_byte_end h)
       end.
End Handle.

(** Edit handles survive their text form, and verification accepts exactly the
    file and the range they were issued for. *)

#[local] Open Scope string_scope.
#[local] Open Scope list_scope.
#[local] Open Scope Z_scope.

(** ** Bits *)

Lemma lor_shiftl_add x y k :
  0 <= k -> 0 <= y < 2 ^ k -> Z.lor (Z.shiftl x k) y = x * 2 ^ k + y.
Proof.
  intros Hk Hy. rewrite <-Z.shiftl_mul_pow2 by done.
  pose proof (Z.add_lor_land (Z.shiftl x k) y) as Hsum.
  assert (Z.land (Z.shiftl x k) y = 0) as Hz; [|lia]. clear Hsum.
  apply Z.bits_inj'. intros i Hi. rewrite Z.land_spec, Z.bits_0.
  destruct (Z.lt_ge_cases i k) as [Hlt|Hge].
  - by rewrite Z.shiftl_spec_low.
  - destruct (decide (y = 0)) as [->|Hne]; [by rewrite Z.bits_0, andb_false_r|].
    rewrite (Z.bits_above_log2 y i); [by rewrite andb_false_r|lia|].
    apply Z.lt_le_trans with k; [|done]. apply Z.log2_lt_pow2; lia.
Qed.

Lemma b64_word_sum b0 b1 b2 :
  0 <= b0 < 256 -> 0 <= b1 < 256 -> 0 <= b2 < 256 ->
  b64_word b0 b1 b2 = b0 * 65536 + b1 * 256 + b2.
Proof.
  intros H0 H1 H2. unfold b64_word.
  rewrite (lor_shiftl_add b0 (Z.shiftl b1 8) 16); [|lia|rewrite Z.shiftl_mul_pow2; lia].
  replace (b0 * 2 ^ 16 + Z.shiftl b1 8) with (Z.shiftl (b0 * 256 + b1) 8)
    by (rewrite !Z.shiftl_mul_pow2 by lia; lia).
  rewrite lor_shiftl_add by lia. lia.
Qed.

(** The six bits at position [k]. *)
Definition sextet (n k : Z) : Z := (n / 2 ^ k) `mod` 64.

Lemma sextet_bounds n k : 0 <= sextet n k < 64.
Proof. unfold sextet. apply Z.mod_pos_bound. lia. Qed.

Lemma b64_table :
  Forall (fun i => b64_val (nth (Z.to_nat i) B64 0) = Some i
                   /\ 0 <= nth (Z.to_nat i) B64 0 < 256) (seqZ 0 64).
Proof. vm_compute. repeat constructor; discriminate. Qed.

Lemma b64_char_val n k : 0 <= k -> b64_val (b64_char n k) = Some (sextet n k).
Proof.
  intros Hk. unfold b64_char. rewrite Z.shiftr_div_pow2 by done.
  change 63 with (Z.ones 6). rewrite Z.land_ones by lia. change (2 ^ 6) with 64.
  fold (sextet n k). pose proof (sextet_bounds n k).
  pose proof b64_table as Ht. rewrite Forall_forall in Ht. apply Ht, elem_of_seqZ. lia.
Qed.

Lemma b64_char_byte n k : 0 <= b64_char n k < 256.
Proof.
  unfold b64_char. change 63 with (Z.ones 6). rewrite Z.land_ones by lia. change (2 ^ 6) with 64.
  pose proof (Z.mod_pos_bound (Z.shiftr n k) 64 ltac:(lia)).
  pose proof b64_table as Ht. rewrite Forall_forall in Ht. apply Ht, elem_of_seqZ. lia.
Qed.

Lemma b64_step n i v k :
  0 <= v < 64 -> k = 18 - 6 * i -> 0 <= k ->
  n `mod` 2 ^ (k + 6) = 0 -> Z.lor n (Z.shiftl v k) = n + v * 2 ^ k.
Proof.
  intros Hv -> Hk Hn. set (k := 18 - 6 * i) in *.
  assert (n = Z.shiftl (n / 2 ^ (k + 6)) (k + 6)) as Heq.
  { rewrite Z.shiftl_mul_pow2 by lia. pose proof (Z.div_mod n (2 ^ (k + 6))). lia. }
  rewrite Heq at 1. rewrite lor_shiftl_add; [|lia|].
  - rewrite <-Z.shiftl_mul_pow2, <-Heq by lia. by rewrite Z.shiftl_mul_pow2.
  - rewrite Z.shiftl_mul_pow2 by done. rewrite Z.pow_add_r by lia. nia.
Qed.

Lemma collect_prefix n :
  0 <= n < 2 ^ 24 ->
  b64_collect 0 0 [b64_char n 18; b64_char n 12] = Some (n - n `mod` 2 ^ 12)
  /\ b64_collect 0 0 [b64_char n 18; b64_char n 12; b64_char n 6] = Some (n - n `mod` 2 ^ 6)
  /\ b64_collect 0 0 [b64_char n 18; b64_char n 12; b64_char n 6; b64_char n 0] = Some n.
Proof.
  intros Hn. cbn [b64_collect]. rewrite !b64_char_val by lia.
  pose proof (sextet_bounds n 18). pose proof (sextet_bounds n 12).
  pose proof (sextet_bounds n 6). pose proof (sextet_bounds n 0).
  rewrite (b64_step 0 0 _ 18) by (done || lia).
  rewrite (b64_step _ 1 _ 12); [|lia..|].
  2: { rewrite Z.add_0_l. apply Z.mod_mul. lia. }
  rewrite (b64_step _ 2 _ 6); [|lia..|].
  2: { replace (0 + sextet n 18 * 2 ^ 18 + sextet n 12 * 2 ^ 12)
         with ((sextet n 18 * 64 + sextet n 12) * 2 ^ (6 + 6)) by lia. apply Z.mod_mul. lia. }
  rewrite (b64_step _ 3 _ 0); [|lia..|].
  2: { replace (0 + sextet n 18 * 2 ^ 18 + sextet n 12 * 2 ^ 12 + sextet n 6 * 2 ^ 6)
         with ((sextet n 18 * 4096 + sextet n 12 * 64 + sextet n 6) * 2 ^ (0 + 6)) by lia.
       apply Z.mod_mul. lia. }
  unfold sextet. change (2 ^ 24) with 16777216 in *. change (2 ^ 18) with 262144.
  change (2 ^ 12) with 4096. change (2 ^ 6) with 64. change (2 ^ 0) with 1.
  split_and!; f_equal; Z.div_mod_to_equations; lia.
Qed.

Lemma decode_chunk_encode b0 b1 b2 :
  is_byte b0 -> is_byte b1 -> is_byte b2 ->
  let n := b64_word b0 b1 b2 in
  decode_chunk [b64_char n 18; b64_char n 12; b64_char n 6; b64_char n 0] = Some [b0; b1; b2]
  /\ (b2 = 0 -> decode_chunk [b64_char n 18; b64_char n 12; b64_char n 6] = Some [b0; b1])
  /\ (b1 = 0 -> b2 = 0 -> decode_chunk [b64_char n 18; b64_char n 12] = Some [b0]).
Proof.
  intros H0 H1 H2 n. unfold is_byte in H0, H1, H2.
  assert (n = b0 * 65536 + b1 * 256 + b2) as Hsum by by apply b64_word_sum.
  destruct (collect_prefix n) as (Hc2 & Hc3 & Hc4); [lia|].
  unfold decode_chunk. cbn [length Nat.ltb Nat.leb]. rewrite Hc2, Hc3, Hc4.
  cbn [fmap option_fmap option_map]. unfold b64_bytes. cbn [Nat.ltb Nat.leb app].
  rewrite !Z.shiftr_div_pow2 by lia. change (2 ^ 16) with 65536. change (2 ^ 12) with 4096.
  change (2 ^ 8) with 256. change (2 ^ 6) with 64.
  split_and!; [|intros ->|intros -> ->]; do 2 f_equal; try (Z.div_mod_to_equations; lia);
    do 2 f_equal; try (Z.div_mod_to_equations; lia).
Qed.

Lemma decode_encode_bytes data :
  Forall is_byte data -> base64url_decode_bytes (base64url_chunks data) = Some data.
Proof.
  revert data. fix IH 1. intros [|b0 [|b1 [|b2 rest]]] Hd; [done|..].
  - apply Forall_cons in Hd as [H0 _].
    by apply (decode_chunk_encode b0 0 0).
  - apply Forall_cons in Hd as [H0 [H1 _]%Forall_cons].
    by apply (decode_chunk_encode b0 b1 0).
  - apply Forall_cons in Hd as [H0 [H1 [H2 Hr]%Forall_cons]%Forall_cons].
    cbn [base64url_chunks app base64url_decode_bytes].
    rewrite (proj1 (decode_chunk_encode b0 b1 b2 H0 H1 H2)), (IH rest Hr). done.
Qed.

Lemma base64url_chunks_bytes data : Forall is_byte (base64url_chunks data).
Proof.
  revert data. fix IH 1. intros [|b0 [|b1 [|b2 rest]]]; cbn [base64url_chunks app];
    repeat (constructor; [apply b64_char_byte|]); [constructor..|]. apply IH.
Qed.

Section Codec.
Context (to_json : EditHandle -> list Z) (from_json : list Z -> option EditHandle).

(** A handle survives its text form: if the JSON codec reads back what it
    writes (as bytes), decoding the token of a handle gives the handle. *)
Theorem handle_roundtrip h :
  Forall is_byte (to_json h) -> from_json (to_json h) = Some h ->
  decode from_json (encode to_json h) = Ok h.
Proof.
  intros Hb Hj. unfold decode, encode. rewrite strip_prefix_app.
  unfold base64url_decode, base64url_encode.
  rewrite bytes_of_string_of_bytes by apply base64url_chunks_bytes.
  by rewrite decode_encode_bytes, Hj.
Qed.
End Codec.

Section Verify.
Context (sha256_hex : list Z -> string).

(** Verification is exact: a handle issued for a range of some content
    verifies against that content and gives the range, a handle that verifies
    has the hashes of the live file and of the live range, and it never
    verifies against content whose hash differs.  The only panic is for a token
    whose range is inverted. *)
Theorem handle_verify_exact root path content start end_ h live :
  for_range sha256_hex root path content start end_ = Ok h ->
  verify sha256_hex h content = Ok (start, end_)
  /\ (sha256_hex live <> sha256_hex content -> is_ok (verify sha256_hex h live) = false)
  /\ (forall h' r, verify sha256_hex h' live = Ok r ->
        r = (h_byte_start h', h_byte_end h') /\ (r.1 <= r.2 <= length live)%nat
        /\ sha256_hex live = h_file_sha256 h'
        /\ sha256_hex (take (r.2 - r.1) (drop r.1 live)) = h_target_sha256 h')
  /\ (forall h', verify sha256_hex h' live = Panic <->
        sha256_hex live = h_file_sha256 h' /\ (h_byte_end h' <= length live)%nat
        /\ (h_byte_end h' < h_byte_start h')%nat).
Proof.
  unfold for_range. intros Hh.
  destruct (_ || _) eqn:Hr; [done|]. injection Hh as <-.
  apply orb_false_iff in Hr as [H1%Nat.ltb_ge H2%Nat.ltb_ge]. split_and!.
  - unfold verify, get_range. simpl. rewrite bool_decide_eq_true_2 by done. cbn [negb].
    rewrite (proj2 (Nat.ltb_ge _ _)), !(proj2 (Nat.leb_le _ _)) by done. cbn [andb].
    by rewrite bool_decide_eq_true_2.
  - intros Hne. unfold verify. simpl. by rewrite bool_decide_eq_false_2.
  - intros h' r. unfold verify, get_range. case_bool_decide as Hf; [|done]. cbn [negb].
    destruct (Nat.ltb_spec (length live) (h_byte_end h')); [done|].
    destruct (Nat.leb_spec (h_byte_start h') (h_byte_end h')); [|done].
    rewrite (proj2 (Nat.leb_le _ _)) by done. cbn [andb].
    case_bool_decide as Ht; [|done]. intros [= <-]. done.
  - intros h'. unfold verify, get_range. case_bool_decide as Hf; [|simpl; naive_solver].
    cbn [negb]. destruct (Nat.ltb_spec (length live) (h_byte_end h')); [split; [done|lia]|].
    rewrite (proj2 (Nat.leb_le (h_byte_end h') _)), andb_true_r by done.
    destruct (Nat.leb_spec (h_byte_start h') (h_byte_end h')); [|naive_solver].
    destruct (bool_decide _); simpl; (split; [done|lia]).
Qed.
End Verify.

(** ** Witnesses *)

Definition sample_handle : EditHandle :=
  mkHandle "/w" "a.rs" "f" 1 3 "t" None None None.

Lemma handle_roundtrip_witness :
  decode (fun b => if bool_decide (b = [123; 125; 255; 10]) then Some sample_handle else None)
    (encode (fun _ => [123; 125; 255; 10]) sample_handle) = Ok sample_handle.
Proof.
  apply handle_roundtrip; [repeat constructor; discriminate|]. vm_compute. reflexivity.
Defined.

Lemma handle_verify_exact_witness :
  verify (fun b => string_of_bytes b) (mkHandle "/w" "a" "abc" 1 3 "bc" None None None) [97; 98; 99]
  = Ok (1%nat, 3%nat).
Proof.
  apply (handle_verify_exact (fun b => string_of_bytes b) "/w" "a" [97; 98; 99] 1 3
    (mkHandle "/w" "a" "abc" 1 3 "bc" None None None) []). reflexivity.
Defined.
