(* ===== verification/EditFs.v ===== *)
(** The file system as the editor uses it (std::fs and the tempfile crate), with
    faults.

    Regular nodes are keyed by canonical absolute path; [d_canonical] is what
    [canonicalize] makes of a directory path.  The journal directory of the
    workspace and the temporary files, whose names are fresh, are kept apart
    from the nodes.  Every operation first asks the environment's schedule: it
    may go well, fail with an I/O error, or the process may stop there.  An
    operation that is not atomic leaves a partial effect then ([0] stands for
    none); a process that stopped runs no destructor. *)

From S2P Require Import Prelude CoreError RustStr.
#[local] Open Scope string_scope.
#[local] Open Scope list_scope.
#[local] Open Scope Z_scope.

Inductive Node : Type :=
| FileNode (content : list Z) (mode : Z) (nlink : Z)
| LinkNode (target : string)
| DirNode (nlink : Z).

#[export] Instance Node_eq_dec : EqDecision Node.
Proof. solve_decision. Defined.

Record Disk : Type := mkDisk {
  d_canonical : string -> option string;
  d_nodes : gmap string Node;
  d_journal : option (gmap string (list Z));
  d_temps : list (list Z);
  d_clock : nat }.

Definition set_nodes (m : gmap string Node) (d : Disk) : Disk :=
  mkDisk (d_canonical d) m (d_journal d) (d_temps d) (d_clock d).
Definition set_journal (j : option (gmap string (list Z))) (d : Disk) : Disk :=
  mkDisk (d_canonical d) (d_nodes d) j (d_temps d) (d_clock d).
Definition set_temps (l : list (list Z)) (d : Disk) : Disk :=
  mkDisk (d_canonical d) (d_nodes d) (d_journal d) l (d_clock d).
Definition set_canonical (f : string -> option string) (d : Disk) : Disk :=
  mkDisk f (d_nodes d) (d_journal d) (d_temps d) (d_clock d).
Definition tick (d : Disk) : Disk :=
  mkDisk (d_canonical d) (d_nodes d) (d_journal d) (d_temps d) (S (d_clock d)).

Abbreviation FS := (action Error Disk).

(** ** Paths *)

(** [Path::join]: a separator is added unless the base is empty or ends with
    one; an absolute path replaces the base. *)
Definition separated (base : string) : string :=
  match last_char base with
  | Some c => if is_slash c then base else base +:+ "/"
  | None => base
  end.
Definition path_join (base rel : string) : string :=
  match rel with
  | String c _ => if is_slash c then rel else separated base +:+ rel
  | EmptyString => separated base
  end.

Definition component_text (c : Component) : string :=
  match c with
  | RootDir => "" | CurDir => "." | ParentDir => ".." | Normal s => s
  end.
Definition path_of (cs : list Component) : string :=
  match cs with
  | [RootDir] => "/"
  | cs => join "/" (component_text <$> cs)
  end.

(** [Path::file_name] and [Path::parent]. *)
Definition file_name (path : string) : option string :=
  match last (components path) with Some (Normal s) => Some s | _ => None end.
Definition parent (path : string) : string :=
  let cs := components path in path_of (take (length cs - 1) cs).

#[export] Instance Component_eq_dec : EqDecision Component.
Proof. solve_decision. Defined.

(** [Path::starts_with] compares whole components. *)
Fixpoint comps_prefix (a b : list Component) : bool :=
  match a, b with
  | [], _ => true
  | x :: a, y :: b => bool_decide (x = y) && comps_prefix a b
  | _ :: _, [] => false
  end.
Definition path_starts_with (path base : string) : bool :=
  comps_prefix (components base) (components path).

(** The node a path names once its directory is resolved. *)
Definition resolve (path : string) (d : Disk) : option string :=
  match d_canonical d (parent path), file_name path with
  | Some dir, Some name => Some (path_join dir name)
  | _, _ => None
  end.

(** The regular file an opened path leads to. *)
Definition open_target (path : string) (d : Disk) : option string :=
  match resolve path d with
  | Some key => match d_nodes d !! key with
                | Some (LinkNode target) => Some target
                | _ => Some key
                end
  | None => None
  end.

(** ** Directories that do not exist yet *)

(** [Path::exists], which follows symlinks, and [canonicalize]. *)
Definition real_path (path : string) (d : Disk) : option string :=
  match d_canonical d path with
  | Some c => Some c
  | None => match open_target path d with
            | Some key => if d_nodes d !! key is Some _ then Some key else None
            | None => None
            end
  end.

(** The nearest ancestor that exists, in canonical form, and the names below
    it; the components are given from the last to the first. *)
Fixpoint nearest (rcs : list Component) (names : list string) (d : Disk) :
    option (string * list string) :=
  match real_path (path_of (rev rcs)) d with
  | Some base => Some (base, names)
  | None => match rcs with
            | Normal name :: up => nearest up (name :: names) d
            | _ => None
            end
  end.

Definition locate (path : string) (d : Disk) : option string :=
  (fun r => foldl path_join r.1 r.2) <$> nearest (rev (components path)) [] d.

(** A directory is made under its canonical path: every path that leads there
    is resolved from now on. *)
Definition make_dir (dir : string) (d : Disk) : Disk :=
  set_canonical (fun p => match d_canonical d p with
                          | Some c => Some c
                          | None => if decide (locate p d = Some dir) then Some dir else None
                          end)
    (set_nodes (<[dir := DirNode 2]> (d_nodes d)) d).

Fixpoint make_dirs (dirs : list string) (d : Disk) : res Error unit * Disk :=
  match dirs with
  | [] => (Ok tt, d)
  | dir :: dirs => match d_nodes d !! dir with
                   | Some _ => (Err (Io dir "AlreadyExists"), d)
                   | None => make_dirs dirs (make_dir dir d)
                   end
  end.

Fixpoint paths_below (base : string) (names : list string) : list string :=
  match names with
  | [] => []
  | name :: names => path_join base name :: paths_below (path_join base name) names
  end.

Definition is_file (key : string) (d : Disk) : bool :=
  match d_nodes d !! key with Some (FileNode _ _ _) => true | _ => false end.

(** ** Operations under a schedule *)

Inductive fault : Type :=
| NoFault
| IoFault (progress : nat)
| Stop (progress : nat).

(** What the schedule can tell apart. *)
Inductive op_kind : Type :=
| KRead | KWrite | KRestore | KRename | KCreateDir | KRemoveDir.

Section Operations.
Context (faults : nat -> op_kind -> fault) (kept : string -> bool).

Definition disk_op {A} (kind : op_kind) (partial : nat -> Disk -> Disk) (act : FS A) : FS A :=
  fun d =>
  match faults (d_clock d) kind with
  | NoFault => act (tick d)
  | IoFault k => (Err (Io "io" "fault"), partial k (tick d))
  | Stop k => (Panic, partial k (tick d))
  end.

Definition no_partial (_ : nat) (d : Disk) : Disk := d.

(** How much of a file write happened: the file is truncated first. *)
Definition torn (k : nat) (b : list Z) : list Z := take (k - 1) b.

(** [std::fs::read]. *)
Definition read_path (path : string) : FS (list Z) :=
  disk_op KRead no_partial (fun d =>
    match open_target path d ≫= (fun key => d_nodes d !! key) with
    | Some (FileNode b _ _) => (Ok b, d)
    | _ => (Err (Io path "NotFound"), d)
    end).

(** Writing through an open file keeps its mode and links. *)
Definition put_content (key : string) (b : list Z) (d : Disk) : Disk :=
  set_nodes (<[key := match d_nodes d !! key with
                      | Some (FileNode _ m n) => FileNode b m n
                      | _ => FileNode b 420 1
                      end]> (d_nodes d)) d.

(** [std::fs::write]. *)
Definition write_path (kind : op_kind) (path : string) (b : list Z) : FS unit :=
  disk_op kind
    (fun k d => match k, open_target path d with
                | S _, Some key => put_content key (torn k b) d
                | _, _ => d
                end)
    (fun d => match open_target path d with
              | Some key => match d_nodes d !! key with
                            | Some (DirNode _) => (Err (Io path "IsADirectory"), d)
                            | _ => (Ok tt, put_content key b d)
                            end
              | None => (Err (Io path "NotFound"), d)
              end).

(** [symlink_metadata] and [metadata], reduced to what is looked at. *)
Definition stat_key (key : string) : FS Node :=
  disk_op KRead no_partial (fun d =>
    match d_nodes d !! key with
    | Some n => (Ok n, d)
    | None => (Err (Io key "NotFound"), d)
    end).

(** [create_dir_all]: the missing directories, from the top. *)
Definition create_dir_all (dir : string) : FS unit :=
  disk_op KCreateDir
    (fun k d => match nearest (rev (components dir)) [] d with
                | Some (base, names) =>
                    if is_file base d then d else (make_dirs (take k (paths_below base names)) d).2
                | None => d
                end)
    (fun d => match nearest (rev (components dir)) [] d with
              | Some (base, names) =>
                  if is_file base d then (Err (Io dir "NotADirectory"), d)
                  else make_dirs (paths_below base names) d
              | None => (Err (Io dir "NotFound"), d)
              end).

(** ** The journal directory *)

Definition journal_exists : FS bool := gets (fun d => bool_decide (is_Some (d_journal d))).
Definition journal_file_exists (name : string) : FS bool :=
  gets (fun d => bool_decide (is_Some (d_journal d ≫= (fun m => m !! name)))).

Definition journal_create_dir : FS unit :=
  disk_op KCreateDir no_partial (fun d => (Ok tt, set_journal (Some (default ∅ (d_journal d))) d)).

Definition put_journal_file (name : string) (b : list Z) (d : Disk) : Disk :=
  set_journal ((fun m => <[name := b]> m) <$> d_journal d) d.

Definition journal_write (name : string) (b : list Z) : FS unit :=
  disk_op KWrite
    (fun k d => match k with S _ => put_journal_file name (torn k b) d | O => d end)
    (fun d => match d_journal d with
              | Some _ => (Ok tt, put_journal_file name b d)
              | None => (Err (Io name "NotFound"), d)
              end).

Definition journal_read (name : string) : FS (list Z) :=
  disk_op KRead no_partial (fun d =>
    match d_journal d ≫= (fun m => m !! name) with
    | Some b => (Ok b, d)
    | None => (Err (Io name "NotFound"), d)
    end).

(** [rename] inside the directory is atomic. *)
Definition journal_rename (from to : string) : FS unit :=
  disk_op KRename no_partial (fun d =>
    match d_journal d ≫= (fun m => m !! from) with
    | Some b => (Ok tt, set_journal ((fun m => <[to := b]> (delete from m)) <$> d_journal d) d)
    | None => (Err (Io from "NotFound"), d)
    end).

(** [remove_dir_all] deletes the entries in some order before the directory. *)
Definition journal_remove_dir : FS unit :=
  disk_op KRemoveDir
    (fun k d => match k with
                | S _ => set_journal ((fun m => filter (fun x : string * list Z => kept x.1 = true) m)
                                        <$> d_journal d) d
                | O => d
                end)
    (fun d => match d_journal d with
              | Some _ => (Ok tt, set_journal None d)
              | None => (Err (Io "journal" "NotFound"), d)
              end).

(** ** Temporary files *)

Definition tempfile_in : FS unit :=
  disk_op KCreateDir no_partial (fun d => (Ok tt, set_temps ([] :: d_temps d) d)).

Definition set_temp (b : list Z) (d : Disk) : Disk := set_temps (b :: tail (d_temps d)) d.

Definition tempfile_write (b : list Z) : FS unit :=
  disk_op KWrite (fun k d => set_temp (torn (S k) b) d) (fun d => (Ok tt, set_temp b d)).

(** [sync_all] and [set_permissions] of the temporary file. *)
Definition tempfile_touch : FS unit := disk_op KWrite no_partial (fun d => (Ok tt, d)).

(** [persist]: an atomic rename over the target. *)
Definition tempfile_persist (key : string) (mode : Z) : FS unit :=
  disk_op KRename no_partial (fun d =>
    match d_temps d with
    | b :: rest => (Ok tt, set_temps rest (set_nodes (<[key := FileNode b mode 1]> (d_nodes d)) d))
    | [] => (Err (Io key "NotFound"), d)
    end).

(** [persist_noclobber]: the name is linked only if nothing has it. *)
Definition tempfile_persist_noclobber (key : string) (mode : Z) : FS unit :=
  disk_op KRename no_partial (fun d =>
    match d_nodes d !! key, d_temps d with
    | None, b :: rest =>
        (Ok tt, set_temps rest (set_nodes (<[key := FileNode b mode 1]> (d_nodes d)) d))
    | None, [] => (Err (Io key "NotFound"), d)
    | Some _, _ => (Err (Io key "AlreadyExists"), d)
    end).

(** The temporary file is deleted when its handle goes out of scope on an
    error. *)
Definition with_tempfile {A} (m : FS A) : FS A := fun d =>
  match m d with
  | (Err e, d') => (Err e, set_temps (tail (d_temps d')) d')
  | r => r
  end.

(** [match r { Ok(_) => .., Err(e) => .. }]. *)
Definition try_ {A} (m : FS A) : FS (A + Error) := fun d =>
  match m d with
  | (Ok a, d') => (Ok (inl a), d')
  | (Err e, d') => (Ok (inr e), d')
  | (Panic, d') => (Panic, d')
  end.
End Operations.
