(* ===== verification/EditJournal.v ===== *)
(** Publication of edits (crates/edit/src/publish.rs): one file is replaced
    or deleted atomically and only if the live file still has the planned hash,
    or created where nothing is; paths that leave the workspace, symlinks and
    hard links are refused.  [sha256_hex] is a parameter. *)

From Stdlib Require Import DecimalString DecimalNat.
From S2P Require Import Prelude CoreError RustStr EditFs.
#[local] Open Scope string_scope.
#[local] Open Scope list_scope.
#[local] Open Scope Z_scope.

Section Publish.
Context (faults : nat -> op_kind -> fault) (sha256_hex : list Z -> string).

Definition canonicalize (path : string) : FS string :=
  let! c := gets (fun d => d_canonical d path) in
  ok_or c (Io path "NotFound").

Definition require_inside_workspace (root path : string) : FS string :=
  let! root := canonicalize root in
  let! dir := canonicalize (parent path) in
  let! name := ok_or (file_name path) (Invalid "not a file path") in
  let resolved := path_join dir name in
  guard (path_starts_with resolved root) (Workspace "path escapes workspace") ;;;
  let! meta := stat_key faults resolved in
  match meta with
  | LinkNode _ => throw (Workspace "refusing to publish through symlink")
  | FileNode _ _ nlink | DirNode nlink =>
      guard (nlink <=? 1) (Workspace "refusing to publish through hardlinked file") ;;;
      ret resolved
  end.

Definition stale_plan (path : string) : Error :=
  Workspace ("stale plan: " +:+ path +:+ " changed since planning; nothing was written").

Definition node_mode (n : Node) : Z := match n with FileNode _ m _ => m | _ => 0 end.

(** [std::fs::read] of a resolved path, which is not a symlink. *)
Definition read_key (key : string) : FS (list Z) :=
  disk_op faults KRead no_partial (fun d =>
    match d_nodes d !! key with
    | Some (FileNode b _ _) => (Ok b, d)
    | _ => (Err (Io key "NotFound"), d)
    end).

Definition publish_atomic (root path : string) (content : list Z) (expected : string) : FS string :=
  let! resolved := require_inside_workspace root path in
  let! live := read_key resolved in
  guard (bool_decide (sha256_hex live = expected)) (stale_plan resolved) ;;;
  let! meta := stat_key faults resolved in
  tempfile_in faults ;;;
  with_tempfile (
    tempfile_write faults content ;;;
    tempfile_touch faults ;;;
    tempfile_touch faults ;;;
    tempfile_persist faults resolved (node_mode meta)) ;;;
  ret (sha256_hex content).

Definition publish_delete_atomic (root path : string) (expected : string) : FS unit :=
  let! resolved := require_inside_workspace root path in
  let! live := read_key resolved in
  guard (bool_decide (sha256_hex live = expected)) (stale_plan resolved) ;;;
  disk_op faults KRename no_partial (fun d =>
    (Ok tt, set_nodes (delete resolved (d_nodes d)) d)).

Definition require_new_inside_workspace (root path : string) : FS string :=
  let! root := canonicalize root in
  let! up := ok_or (match rev (components path) with
                    | [] | RootDir :: _ => None
                    | _ :: up => Some up
                    end) (Invalid "not a file path") in
  let! found := gets (nearest up []) in
  let! r := ok_or found (Invalid "invalid creation parent") in
  let! name := ok_or (file_name path) (Invalid "not a file path") in
  let resolved := path_join (foldl path_join r.1 r.2) name in
  guard (path_starts_with resolved root) (Workspace "path escapes workspace") ;;;
  disk_op faults KRead no_partial (fun d =>
    match d_nodes d !! resolved with
    | Some _ => (Err (Workspace ("creation target " +:+ resolved +:+ " already exists; nothing written")), d)
    | None => if is_file r.1 d then (Err (Io resolved "NotADirectory"), d) else (Ok resolved, d)
    end).

(** A temporary file is private to its owner unless permissions are given. *)
Definition publish_create_atomic (root path : string) (content : list Z) (permissions : option Z) : FS string :=
  let! resolved := require_new_inside_workspace root path in
  create_dir_all faults (parent resolved) ;;;
  let! checked := require_new_inside_workspace root path in
  guard (bool_decide (checked = resolved))
    (Workspace "creation parent changed since planning; nothing written") ;;;
  tempfile_in faults ;;;
  with_tempfile (
    tempfile_write faults content ;;;
    (if permissions is Some _ then tempfile_touch faults else ret tt) ;;;
    tempfile_touch faults ;;;
    tempfile_persist_noclobber faults resolved (default 384 permissions)) ;;;
  ret (sha256_hex content).
End Publish.

(** Publication of several files as one transaction, with a journal of
    pre-images, and recovery (crates/edit/src/journal.rs).

    The JSON codec of the journal and [sha256_hex] are parameters.  The
    operations take the workspace lock as held; the hooks by which the tests
    inject errors are not modelled, the fault schedule covers what they test. *)

#[local] Open Scope string_scope.
#[local] Open Scope list_scope.
#[local] Open Scope Z_scope.

Record JournalEntry : Type := mkEntry {
  je_rel_path : string; je_pre_image_file : string; je_pre_sha256 : string;
  je_post_sha256 : string }.
Record Journal : Type := mkJournal {
  j_schema_version : string; j_transaction_id : string; j_committed : bool;
  j_completed : bool; j_entries : list JournalEntry }.
Record FilePublication : Type := mkPublication {
  fp_rel_path : string; fp_expected_live_sha256 : string; fp_content : list Z }.

Inductive RecoveryAction : Type := NothingToRecover | DiscardedUncommitted | RolledBack.
Record RecoveryReport : Type := mkReport {
  rr_found_journal : bool; rr_committed : bool; rr_action : RecoveryAction;
  rr_transaction_id : option string; rr_files_considered : nat; rr_files_restored : nat }.

Definition journal_json : string := "journal.json".
Definition journal_tmp : string := "journal.tmp".

(** [format!("pre-{i:04}.bin")]. *)
Fixpoint pad_digits (n : nat) (d : Decimal.uint) : Decimal.uint :=
  match n with O => d | S n => Decimal.D0 (pad_digits n d) end.
Definition four_digits (i : nat) : Decimal.uint :=
  let d := Nat.to_uint i in pad_digits (4 - Decimal.nb_digits d) d.
Definition pre_name (i : nat) : string :=
  "pre-" +:+ NilEmpty.string_of_uint (four_digits i) +:+ ".bin".

Section Journal.
Context (faults : nat -> op_kind -> fault) (kept : string -> bool)
        (sha256_hex : list Z -> string)
        (to_json : Journal -> list Z) (from_json : list Z -> option Journal).

(** Written beside the journal and renamed over it. *)
Definition write_journal (j : Journal) : FS unit :=
  journal_write faults journal_tmp (to_json j) ;;;
  journal_rename faults journal_tmp journal_json.

Definition check_live (root : string) (f : FilePublication) : FS unit :=
  let! abs := require_inside_workspace faults root (path_join root (fp_rel_path f)) in
  let! live := read_key faults abs in
  guard (bool_decide (sha256_hex live = fp_expected_live_sha256 f)) (stale_plan (fp_rel_path f)).

Definition save_pre_image (root : string) (entries : list JournalEntry)
    (x : nat * FilePublication) : FS (list JournalEntry) :=
  let '(i, f) := x in
  let! pre := read_path faults (path_join root (fp_rel_path f)) in
  journal_write faults (pre_name i) pre ;;;
  ret (entries ++ [mkEntry (fp_rel_path f) (pre_name i) (sha256_hex pre) (sha256_hex (fp_content f))]).

(** The publication loop: how many files were published, and what stopped it. *)
Fixpoint publish_files (root : string) (files : list FilePublication) (published : nat)
  : FS (nat * option Error) :=
  match files with
  | [] => ret (published, None)
  | f :: files =>
      let! r := try_ (publish_atomic faults sha256_hex root (path_join root (fp_rel_path f))
                        (fp_content f) (fp_expected_live_sha256 f)) in
      match r with
      | inl _ => publish_files root files (S published)
      | inr e => ret (published, Some e)
      end
  end.

(** Best effort: every published file is tried; the failures are listed. *)
Definition restore_pre_image (root : string) (failures : list string)
    (x : FilePublication * JournalEntry) : FS (list string) :=
  let '(f, entry) := x in
  let! r := try_ (
    let! pre := journal_read faults (je_pre_image_file entry) in
    write_path faults KRestore (path_join root (fp_rel_path f)) pre) in
  ret (match r with inl _ => failures | inr _ => failures ++ [fp_rel_path f] end).

Definition rollback_incomplete : Error :=
  Workspace "publish failed and rollback is incomplete; the journal was kept".

Definition publish_journal_locked (root transaction_id : string) (files : list FilePublication)
  : FS unit :=
  forM files (check_live root) ;;;
  journal_create_dir faults ;;;
  let! entries := foldM (save_pre_image root) [] (imap pair files) in
  let journal := mkJournal "greppy.edit-journal.v1" transaction_id false false entries in
  write_journal journal ;;;
  write_journal (mkJournal "greppy.edit-journal.v1" transaction_id true false entries) ;;;
  let! (published, failure) := publish_files root files 0 in
  match failure with
  | Some e =>
      let! failures := foldM (restore_pre_image root) [] (take published (zip files entries)) in
      guard (bool_decide (failures = [])) rollback_incomplete ;;;
      ignore (journal_remove_dir faults kept) ;;;
      throw e
  | None =>
      ignore (write_journal (mkJournal "greppy.edit-journal.v1" transaction_id true true entries)) ;;;
      ignore (journal_remove_dir faults kept)
  end.

(** ** Recovery *)

(** [read(..).map(sha256_hex).unwrap_or_default()]. *)
Definition live_hash (root : string) (entry : JournalEntry) : FS string :=
  let! r := try_ (read_path faults (path_join root (je_rel_path entry))) in
  ret (match r with inl b => sha256_hex b | inr _ => "" end).

Definition restore_entry (root : string) (restored : nat) (x : JournalEntry * string) : FS nat :=
  let '(entry, live_sha) := x in
  if bool_decide (live_sha = je_pre_sha256 entry) then ret restored
  else
    guard (bool_decide (live_sha = je_post_sha256 entry))
      (Workspace "recover: file was modified after the crashed transaction; resolve manually") ;;;
    let! pre := journal_read faults (je_pre_image_file entry) in
    write_path faults KRestore (path_join root (je_rel_path entry)) pre ;;;
    ret (S restored).

(** What is done with the journal that was found. *)
Definition recover_journal (root : string) (journal : Journal) : FS RecoveryReport :=
  let count := length (j_entries journal) in
  let report := mkReport true true NothingToRecover (Some (j_transaction_id journal)) count 0 in
  if j_completed journal then ignore (journal_remove_dir faults kept) ;;; ret report
  else if negb (j_committed journal) then
    journal_remove_dir faults kept ;;;
    ret (mkReport true false DiscardedUncommitted (Some (j_transaction_id journal)) count 0)
  else
    let! live := mapM (live_hash root) (j_entries journal) in
    if forallb (fun x => bool_decide (x.2 = je_post_sha256 x.1)) (zip (j_entries journal) live)
    then ignore (journal_remove_dir faults kept) ;;; ret report
    else
      let! restored := foldM (restore_entry root) 0%nat (zip (j_entries journal) live) in
      journal_remove_dir faults kept ;;;
      ret (mkReport true true RolledBack (Some (j_transaction_id journal)) count restored).

(** [recover_with_report] once the lock is held. *)
Definition recover_locked (root : string) : FS RecoveryReport :=
  let! present := journal_file_exists journal_json in
  if negb present then
    let! dir := journal_exists in
    if dir : bool then
      journal_remove_dir faults kept ;;;
      ret (mkReport true false DiscardedUncommitted None 0 0)
    else ret (mkReport false false NothingToRecover None 0 0)
  else
    let! bytes := journal_read faults journal_json in
    let! journal := ok_or (from_json bytes) (Invalid "journal unreadable") in
    recover_journal root journal.
End Journal.
