(* ===== verification/EditTriple.v ===== *)
(** Reasoning about disk operations under faults: triples that say in which
    state each of the three exits, success, error and a stopped process,
    leaves the disk. *)

From S2P Require Import Prelude CoreError RustStr EditFs EditJournal.
#[local] Open Scope string_scope.
#[local] Open Scope list_scope.
#[local] Open Scope Z_scope.

Definition spec {A} (P : Disk -> Prop) (m : FS A) (Q : A -> Disk -> Prop)
    (E : Error -> Disk -> Prop) (X : Disk -> Prop) : Prop :=
  forall d, P d ->
  match m d with
  | (Ok a, d') => Q a d'
  | (Err e, d') => E e d'
  | (Panic, d') => X d'
  end.

(** ** Rules *)

Lemma spec_conseq {A} (P P' : Disk -> Prop) (m : FS A) (Q Q' : A -> Disk -> Prop)
    (E E' : Error -> Disk -> Prop) (X X' : Disk -> Prop) :
  spec P' m Q' E' X' -> (forall d, P d -> P' d) -> (forall a d, Q' a d -> Q a d) ->
  (forall e d, E' e d -> E e d) -> (forall d, X' d -> X d) -> spec P m Q E X.
Proof.
  intros Hm HP HQ HE HX d Hd. specialize (Hm d (HP d Hd)).
  destruct (m d) as [[a|e|] d']; auto.
Qed.

Lemma spec_pre {A} (P P' : Disk -> Prop) (m : FS A) Q E X :
  (forall d, P d -> P' d) -> spec P' m Q E X -> spec P m Q E X.
Proof. intros HP Hm d Hd. by apply Hm, HP. Qed.

Lemma spec_exists {A B} (P : B -> Disk -> Prop) (m : FS A) Q E X :
  (forall x, spec (P x) m Q E X) -> spec (fun d => exists x, P x d) m Q E X.
Proof. intros Hm d [x Hd]. by apply (Hm x). Qed.

Lemma spec_pure {A} (P : Disk -> Prop) (phi : Prop) (m : FS A) Q E X :
  (phi -> spec P m Q E X) -> spec (fun d => P d /\ phi) m Q E X.
Proof. intros H d [Hd Hphi]. by apply H. Qed.

Lemma spec_ret {A} (P : Disk -> Prop) (a : A) Q E X :
  (forall d, P d -> Q a d) -> spec P (ret a) Q E X.
Proof. intros H d Hd. by apply H. Qed.

Lemma spec_throw {A} (P : Disk -> Prop) e (Q : A -> Disk -> Prop) (E : Error -> Disk -> Prop) X :
  (forall d, P d -> E e d) -> spec P (throw e) Q E X.
Proof. intros H d Hd. by apply H. Qed.

Lemma spec_bind {A B} P (m : FS A) (k : A -> FS B) R Q E X :
  spec P m R E X -> (forall a, spec (R a) (k a) Q E X) -> spec P (bind m k) Q E X.
Proof.
  intros Hm Hk d Hd. specialize (Hm d Hd). unfold bind.
  destruct (m d) as [[a|e|] d']; [|done..]. by apply Hk.
Qed.

Lemma spec_guard P b e (E : Error -> Disk -> Prop) X :
  (forall d, P d -> b = false -> E e d) -> spec P (guard b e) (fun _ d => P d /\ b = true) E X.
Proof. intros H d Hd. unfold guard. destruct b; [done|]. by apply H. Qed.

Lemma spec_gets {A} P (f : Disk -> A) E X : spec P (gets f) (fun a d => P d /\ a = f d) E X.
Proof. intros d Hd. done. Qed.

Lemma spec_ok_or {A} P (o : option A) e (E : Error -> Disk -> Prop) X :
  (forall d, P d -> o = None -> E e d) ->
  spec P (ok_or o e) (fun a d => P d /\ o = Some a) E X.
Proof. intros H d Hd. destruct o; simpl; [done|]. by apply H. Qed.

Lemma spec_foldM {A B} (I : nat -> B -> Disk -> Prop) (f : B -> A -> FS B) (l : list A) b E X :
  (forall i x b, l !! i = Some x -> spec (I i b) (f b x) (I (S i)) E X) ->
  spec (I 0%nat b) (foldM f b l) (I (length l)) E X.
Proof.
  revert I b. induction l as [|x l IH]; intros I b H; cbn [foldM length].
  { by apply spec_ret. }
  eapply spec_bind; [by apply (H 0%nat x)|]. intros b'.
  apply (IH (fun i => I (S i))). intros i y b'' Hy. by apply (H (S i)).
Qed.

Lemma spec_forM {A} (I : nat -> Disk -> Prop) (f : A -> FS unit) (l : list A) E X :
  (forall i x, l !! i = Some x -> spec (I i) (f x) (fun _ => I (S i)) E X) ->
  spec (I 0%nat) (forM l f) (fun _ => I (length l)) E X.
Proof. intros H. apply (spec_foldM (fun i (_ : unit) => I i)). auto. Qed.

Lemma spec_mapM {A B} (I : nat -> list B -> Disk -> Prop) (f : A -> FS B) (l : list A) E X :
  (forall i x bs, l !! i = Some x ->
     spec (I i bs) (f x) (fun b => I (S i) (bs ++ [b])) E X) ->
  spec (I 0%nat []) (mapM f l) (I (length l)) E X.
Proof.
  intros H.
  cut (forall n bs, (n + length l = n + length l)%nat -> (forall i x bs, l !! i = Some x ->
     spec (I (n + i)%nat bs) (f x) (fun b => I (S (n + i)) (bs ++ [b])) E X) ->
     spec (I n bs) (mapM f l) (fun l' => I (n + length l)%nat (bs ++ l')) E X).
  { intros Hc. eapply spec_conseq; [apply (Hc 0%nat []); auto|done..]. }
  clear H. induction l as [|x l IH]; intros n bs _ H; cbn [mapM length].
  { apply spec_ret. intros d. by rewrite Nat.add_0_r, app_nil_r. }
  eapply spec_bind.
  { specialize (H 0%nat x bs eq_refl). rewrite Nat.add_0_r in H. exact H. }
  intros b. eapply spec_bind.
  { apply (IH (S n)); [done|]. intros i y bs' Hy. specialize (H (S i) y bs' Hy).
    by rewrite Nat.add_succ_r in H. }
  intros bs'. apply spec_ret. intros d. by rewrite Nat.add_succ_r, <-app_assoc.
Qed.

Lemma spec_try {A} P (m : FS A) Q (E : Error -> Disk -> Prop) X E' :
  spec P m Q E X ->
  spec P (try_ m) (fun r d => match r with inl a => Q a d | inr e => E e d end) E' X.
Proof.
  intros Hm d Hd. specialize (Hm d Hd). unfold try_. by destruct (m d) as [[a|e|] d'].
Qed.

Lemma spec_ignore {A} P (m : FS A) Q E X E' R :
  spec P m Q E X -> (forall a d, Q a d -> R d) -> (forall e d, E e d -> R d) ->
  spec P (ignore m) (fun _ => R) E' X.
Proof.
  intros Hm HQ HE d Hd. specialize (Hm d Hd). unfold ignore. destruct (m d) as [[a|e|] d']; eauto.
Qed.

Lemma spec_op {A} faults kind partial (act : FS A) P Q (E : Error -> Disk -> Prop) X :
  spec P act Q E X -> (forall d, P d -> P (tick d)) ->
  (forall d k, P d -> faults (d_clock d) kind = IoFault k ->
     E (Io "io" "fault") (partial k (tick d))) ->
  (forall d k, P d -> faults (d_clock d) kind = Stop k -> X (partial k (tick d))) ->
  spec P (disk_op faults kind partial act) Q E X.
Proof.
  intros Hact Ht HE HX d Hd. unfold disk_op. destruct (faults (d_clock d) kind) eqn:Hf; auto.
  by apply Hact, Ht.
Qed.

(** ** What does not touch the files *)

Definition same_view (d d' : Disk) : Prop :=
  d_canonical d' = d_canonical d /\ d_nodes d' = d_nodes d /\ d_journal d' = d_journal d.

#[export] Instance same_view_preorder : PreOrder same_view.
Proof. split; [done|]. intros a b c (?&?&?) (?&?&?). split_and!; congruence. Qed.

Definition view_inv (P : Disk -> Prop) : Prop := forall d d', same_view d d' -> P d -> P d'.
Definition quiet {A} (m : FS A) : Prop := forall d r d', m d = (r, d') -> same_view d d'.

Lemma quiet_bind {A B} (m : FS A) (k : A -> FS B) :
  quiet m -> (forall a, quiet (k a)) -> quiet (bind m k).
Proof.
  intros Hm Hk d r d'. unfold bind. destruct (m d) as [[a|e|] d1] eqn:H1; intros H.
  - etransitivity; [by eapply Hm|by eapply Hk].
  - injection H as <- <-. by eapply Hm.
  - injection H as <- <-. by eapply Hm.
Qed.
Lemma quiet_gets {A} (f : Disk -> A) : quiet (gets f).
Proof. by intros d r d' [= <- <-]. Qed.
Lemma quiet_ret {A} (a : A) : quiet (ret a).
Proof. by intros d r d' [= <- <-]. Qed.
Lemma quiet_throw {A} e : quiet (@throw _ _ A e).
Proof. by intros d r d' [= <- <-]. Qed.
Lemma quiet_guard b e : quiet (guard b e).
Proof. intros d r d'. unfold guard. by destruct b; intros [= <- <-]. Qed.
Lemma quiet_ok_or {A} (o : option A) e : quiet (ok_or o e).
Proof. intros d r d'. by destruct o; intros [= <- <-]. Qed.
Lemma quiet_op {A} faults kind partial (act : FS A) :
  quiet act -> (forall k d, same_view d (partial k d)) -> quiet (disk_op faults kind partial act).
Proof.
  intros Hact Hp d r d'. unfold disk_op. destruct (faults _ _); intros H.
  - by apply Hact in H.
  - injection H as <- <-. apply (Hp _ (tick d)).
  - injection H as <- <-. apply (Hp _ (tick d)).
Qed.
Lemma quiet_node {A} (f : Disk -> option A) e :
  quiet (fun d => match f d with Some a => (Ok a, d) | None => (Err e, d) end).
Proof. intros d r d'. by destruct (f d); intros [= <- <-]. Qed.

Create HintDb quiet.
#[export] Hint Resolve quiet_gets quiet_ret quiet_throw quiet_guard quiet_ok_or quiet_bind : quiet.

Lemma quiet_stat faults key : quiet (stat_key faults key).
Proof. apply quiet_op; [|done]. intros d r d'. by destruct (_ !! _); intros [= <- <-]. Qed.
Lemma quiet_read_key faults key : quiet (read_key faults key).
Proof.
  apply quiet_op; [|done]. intros d r d'. by destruct (_ !! _) as [[]|]; intros [= <- <-].
Qed.
Lemma quiet_read_path faults p : quiet (read_path faults p).
Proof.
  apply quiet_op; [|done]. intros d r d'. by destruct (_ ≫= _) as [[]|]; intros [= <- <-].
Qed.
Lemma quiet_journal_read faults n : quiet (journal_read faults n).
Proof. apply quiet_op; [|done]. intros d r d'. by destruct (_ ≫= _); intros [= <- <-]. Qed.
Lemma quiet_tempfile_in faults : quiet (tempfile_in faults).
Proof. apply quiet_op; [|done]. by intros d r d' [= <- <-]. Qed.
Lemma quiet_tempfile_write faults b : quiet (tempfile_write faults b).
Proof. apply quiet_op; [|done]. by intros d r d' [= <- <-]. Qed.
Lemma quiet_tempfile_touch faults : quiet (tempfile_touch faults).
Proof. apply quiet_op; [|done]. by intros d r d' [= <- <-]. Qed.
#[export] Hint Resolve quiet_stat quiet_read_key quiet_read_path quiet_journal_read
  quiet_tempfile_in quiet_tempfile_write quiet_tempfile_touch : quiet.

Lemma quiet_inside faults root p : quiet (require_inside_workspace faults root p).
Proof.
  unfold require_inside_workspace, canonicalize.
  do 5 (apply quiet_bind; [eauto with quiet|intros ?]).
  match goal with n : Node |- _ => destruct n end; eauto with quiet.
Qed.
#[export] Hint Resolve quiet_inside : quiet.

(** ** Blame: every failing exit is explained *)

Section Blame.
Context (faults : nat -> op_kind -> fault) (blame : Prop).
Hypothesis faults_blamed : forall n k, faults n k <> NoFault -> blame.

Definition outcome {A} (r : res Error A) (R : A -> Prop) : Prop :=
  match r with Ok a => R a | _ => blame end.

Lemma spec_quiet {A} P (m : FS A) (R : A -> Prop) :
  quiet m -> view_inv P -> (forall d, P d -> outcome (m d).1 R) ->
  spec P m (fun a d => P d /\ R a) (fun _ d => P d /\ blame) (fun d => P d /\ blame).
Proof.
  intros Hq HP HR d Hd. specialize (HR d Hd). destruct (m d) as [[a|e|] d'] eqn:Hm;
    (split; [by eapply HP; [eapply Hq|]|exact HR]).
Qed.

Lemma spec_op_blamed {A} kind partial (act : FS A) P Q (E X : Disk -> Prop) :
  spec P act Q (fun _ d => E d /\ blame) (fun d => X d /\ blame) -> (forall d, P d -> P (tick d)) ->
  (forall d k, P d -> faults (d_clock d) kind = IoFault k -> E (partial k (tick d))) ->
  (forall d k, P d -> faults (d_clock d) kind = Stop k -> X (partial k (tick d))) ->
  spec P (disk_op faults kind partial act) Q (fun _ d => E d /\ blame) (fun d => X d /\ blame).
Proof.
  intros Hact Ht HE HX. apply spec_op; [done|done|..]; intros d k Hd Hf; (split; [auto|]);
    apply (faults_blamed (d_clock d) kind); by rewrite Hf.
Qed.

Lemma outcome_op {A} kind partial (act : FS A) (R : A -> Prop) d :
  outcome (act (tick d)).1 R -> outcome (disk_op faults kind partial act d).1 R.
Proof.
  intros H. unfold disk_op. destruct (faults (d_clock d) kind) eqn:Hf; [done|..]; simpl;
    apply (faults_blamed (d_clock d) kind); by rewrite Hf.
Qed.
Lemma outcome_bind {A B} (m : FS A) (k : A -> FS B) (R : A -> Prop) (S : B -> Prop) d :
  outcome (m d).1 R -> (forall a d', m d = (Ok a, d') -> R a -> outcome (k a d').1 S) ->
  outcome (bind m k d).1 S.
Proof.
  intros Hm Hk. unfold bind. destruct (m d) as [[a|e|] d'] eqn:Hd; [|done..]. by apply Hk.
Qed.
End Blame.
