(* ===== verification/EditJournalFacts.v ===== *)
(** The journal protocol in phases: what the disk holds before the commit,
    while files are published, during a rollback and at the end, whatever
    operation fails or stops the process. *)

From S2P Require Import Prelude CoreError RustStr EditFs EditJournal EditTriple.
From Stdlib Require Import DecimalString DecimalNat.
#[local] Open Scope string_scope.
#[local] Open Scope list_scope.
#[local] Open Scope Z_scope.

(** ** Names of pre-images *)

Lemma of_pad_digits n d : Nat.of_uint (pad_digits n d) = Nat.of_uint d.
Proof. induction n; [done|]. simpl. rewrite <-IHn. done. Qed.

Lemma string_app_inj_l s t p : (s +:+ p = t +:+ p)%string -> s = t.
Proof.
  revert t. induction s as [|a s IH]; intros [|b t] H; simpl in H; [done|..].
  - apply (f_equal String.length) in H. simpl in H. rewrite length_string_app in H. lia.
  - apply (f_equal String.length) in H. simpl in H. rewrite length_string_app in H. lia.
  - injection H as -> H. f_equal. auto.
Qed.

Lemma pre_name_inj i j : pre_name i = pre_name j -> i = j.
Proof.
  unfold pre_name. intros H. apply app_string_inj in H. apply string_app_inj_l in H.
  apply (f_equal NilEmpty.uint_of_string) in H. rewrite !NilEmpty.usu in H. injection H as H.
  apply (f_equal Nat.of_uint) in H. unfold four_digits in H. rewrite !of_pad_digits in H.
  by rewrite !Unsigned.of_to in H.
Qed.

Lemma pre_name_other i : pre_name i <> journal_json /\ pre_name i <> journal_tmp.
Proof. split; unfold pre_name; discriminate. Qed.

(** ** The transaction under consideration *)

Record Target : Type := mkTarget {
  t_file : FilePublication; t_key : string; t_old : list Z; t_mode : Z }.

Abbreviation t_new t := (fp_content (t_file t)).
Abbreviation t_path root t := (path_join root (fp_rel_path (t_file t))).

(** The target is a plain file inside the workspace. *)
Definition plain_target (root : string) (d : Disk) (t : Target) : Prop :=
  resolve (t_path root t) d = Some (t_key t)
  /\ (exists c, d_canonical d root = Some c /\ path_starts_with (t_key t) c = true)
  /\ d_nodes d !! t_key t = Some (FileNode (t_old t) (t_mode t) 1).

Section Phases.
Context (faults : nat -> op_kind -> fault) (kept : string -> bool)
        (sha256_hex : list Z -> string)
        (to_json : Journal -> list Z) (from_json : list Z -> option Journal).
Context (root tx : string) (d0 : Disk) (targets : list Target).
Hypothesis json_ok : forall j, from_json (to_json j) = Some j.
Hypothesis targets_plain : Forall (plain_target root d0) targets.
Hypothesis targets_distinct : NoDup (t_key <$> targets).
Context (blame : Prop).
Hypothesis faults_blamed : forall n k, faults n k <> NoFault -> blame.

(** Nothing but the targets changes. *)
Definition framed (d : Disk) : Prop :=
  d_canonical d = d_canonical d0
  /\ forall k, k ∉ t_key <$> targets -> d_nodes d !! k = d_nodes d0 !! k.

Definition at_ (d : Disk) (t : Target) (b : list Z) : Prop :=
  d_nodes d !! t_key t = Some (FileNode b (t_mode t) 1).

(** Every exit but success is explained by [blame]. *)
#[local] Abbreviation bspec P m Q E X :=
  (spec P m Q (fun _ d => E d /\ blame) (fun d => X d /\ blame)).
#[local] Abbreviation outcome := (EditTriple.outcome blame).

Definition all_old (d : Disk) : Prop := Forall (fun t => at_ d t (t_old t)) targets.
Definition all_new (d : Disk) : Prop := Forall (fun t => at_ d t (t_new t)) targets.

Definition jfile (d : Disk) (name : string) : option (list Z) :=
  d_journal d ≫= (fun m => m !! name).

(** What the journal file holds, if there is one. *)
Definition journal_is (J : list Z -> Prop) (d : Disk) : Prop :=
  match jfile d journal_json with Some b => J b | None => True end.

(** A journal that recovery only cleans up. *)
Definition idle (b : list Z) : Prop :=
  exists j, from_json b = Some j /\ (j_committed j = false \/ j_completed j = true).

Definition entry_of (i : nat) (t : Target) : JournalEntry :=
  mkEntry (fp_rel_path (t_file t)) (pre_name i) (sha256_hex (t_old t)) (sha256_hex (t_new t)).
Definition the_entries : list JournalEntry := imap entry_of targets.
Definition the_journal (committed completed : bool) : Journal :=
  mkJournal "greppy.edit-journal.v1" tx committed completed the_entries.

Definition pre_images (d : Disk) (n : nat) : Prop :=
  forall i t, (i < n)%nat -> targets !! i = Some t -> jfile d (pre_name i) = Some (t_old t).

(** All targets old, or all new, with at most a given journal. *)
Definition ended (new : bool) (J : list Z -> Prop) (d : Disk) : Prop :=
  framed d /\ (if new then all_new d else all_old d) /\ journal_is J d.
Definition before_commit : Disk -> Prop := ended false idle.
Definition saving (n : nat) (d : Disk) : Prop :=
  before_commit d /\ is_Some (d_journal d) /\ pre_images d n.

(** After it: the journal and all pre-images are there. *)
Definition committed (d : Disk) : Prop :=
  framed d /\ jfile d journal_json = Some (to_json (the_journal true false))
  /\ pre_images d (length targets).
Definition publishing (n : nat) (d : Disk) : Prop :=
  committed d /\ forall i t, targets !! i = Some t ->
    at_ d t (if (i <? n)%nat then t_new t else t_old t).
(** A rollback that has come to file [n] of [m]. *)
Definition rolling (n m : nat) (clean : bool) (d : Disk) : Prop :=
  committed d /\ forall i t, targets !! i = Some t ->
    if (i <? n)%nat then at_ d t (t_old t) \/ (clean = false /\ at_ d t (t_new t))
    else at_ d t (if (i <? m)%nat then t_new t else t_old t).

(** What recovery can start from. *)
Definition in_flight (b : list Z) : Prop := b = to_json (the_journal true false).
Definition finished (b : list Z) : Prop := exists c, b = to_json (the_journal true c).
Definition pending (d : Disk) : Prop :=
  framed d /\ jfile d journal_json = Some (to_json (the_journal true false))
  /\ forall i t, targets !! i = Some t ->
       at_ d t (t_old t) \/ (at_ d t (t_new t) /\ jfile d (pre_name i) = Some (t_old t)).
Definition recoverable (d : Disk) : Prop :=
  ended false idle d \/ ended true finished d \/ pending d.

(** *** Only the view matters *)

Lemma view_jfile d d' n : same_view d d' -> jfile d' n = jfile d n.
Proof. intros (_ & _ & H). unfold jfile. by rewrite H. Qed.
Lemma view_at d d' t b : same_view d d' -> at_ d t b -> at_ d' t b.
Proof. intros (_ & H & _). unfold at_. by rewrite H. Qed.
Lemma view_framed : view_inv framed.
Proof. intros d d' (H1 & H2 & _) [H3 H4]. split; [congruence|]. intros. rewrite H2. auto. Qed.
Lemma view_ended new J : view_inv (ended new J).
Proof.
  intros d d' Hv (H1 & H2 & H3). split_and!; [by eapply view_framed| |].
  - destruct new; (eapply List.Forall_impl; [|exact H2]); simpl; intros t; by apply view_at.
  - unfold journal_is in *. by rewrite (view_jfile d d').
Qed.
Lemma view_before_commit : view_inv before_commit.
Proof. apply view_ended. Qed.
Lemma view_pre_images n : view_inv (fun d => pre_images d n).
Proof. intros d d' Hv H i t Hi Ht. rewrite (view_jfile d d') by done. auto. Qed.
Lemma view_saving n : view_inv (saving n).
Proof.
  intros d d' Hv (H1 & H2 & H3). split_and!; [by eapply view_before_commit| |by eapply view_pre_images].
  destruct Hv as (_ & _ & Hv). by rewrite Hv.
Qed.
Lemma view_committed : view_inv committed.
Proof.
  intros d d' Hv (H1 & H2 & H3). split_and!; [by eapply view_framed|by rewrite (view_jfile d d')|].
  by eapply view_pre_images.
Qed.
Lemma view_publishing n : view_inv (publishing n).
Proof.
  intros d d' Hv [H1 H2]. split; [by eapply view_committed|]. intros i t Ht.
  eapply view_at; [done|]. auto.
Qed.
Lemma view_rolling n m b : view_inv (rolling n m b).
Proof.
  intros d d' Hv [H1 H2]. split; [by eapply view_committed|]. intros i t Ht. specialize (H2 i t Ht).
  destruct (i <? n)%nat; [|by eapply view_at].
  destruct H2 as [H2|[? H2]]; [left|right; split; [done|]]; by eapply view_at.
Qed.

#[local] Hint Resolve view_ended view_before_commit view_saving view_committed view_publishing view_rolling
  : quiet.

(** *** Looking at a target *)

Lemma target_plain i t : targets !! i = Some t -> plain_target root d0 t.
Proof. intros Ht. eapply Forall_lookup_1 in targets_plain; eauto. Qed.

Lemma target_resolve d i t :
  framed d -> targets !! i = Some t -> resolve (t_path root t) d = Some (t_key t).
Proof.
  intros [Hc _] Ht. destruct (target_plain i t Ht) as (Hr & _). unfold resolve in *. by rewrite Hc.
Qed.

Lemma target_open d i t b :
  framed d -> targets !! i = Some t -> at_ d t b ->
  open_target (t_path root t) d = Some (t_key t).
Proof.
  intros Hf Ht Hat. unfold open_target. rewrite (target_resolve d i t Hf Ht).
  unfold at_ in Hat. by rewrite Hat.
Qed.

Lemma read_path_target d i t b :
  framed d -> targets !! i = Some t -> at_ d t b ->
  outcome (read_path faults (t_path root t) d).1 (fun x => x = b).
Proof.
  intros Hf Ht Hat. apply (outcome_op faults blame faults_blamed).
  rewrite (target_open (tick d) i t b Hf Ht Hat). simpl. by rewrite Hat.
Qed.

Lemma read_key_target d t b :
  at_ d t b -> outcome (read_key faults (t_key t) d).1 (fun x => x = b).
Proof. intros Hat. apply (outcome_op faults blame faults_blamed). simpl. by rewrite Hat. Qed.

Lemma stat_target d t b :
  at_ d t b -> outcome (stat_key faults (t_key t) d).1 (fun n => n = FileNode b (t_mode t) 1).
Proof. intros Hat. apply (outcome_op faults blame faults_blamed). simpl. by rewrite Hat. Qed.

Lemma inside_target d i t b :
  framed d -> targets !! i = Some t -> at_ d t b ->
  outcome (require_inside_workspace faults root (t_path root t) d).1 (fun key => key = t_key t).
Proof.
  intros Hf Ht Hat. pose proof (target_resolve d i t Hf Ht) as Hres.
  destruct (target_plain i t Ht) as (_ & (c & Hc & Hin) & _). rewrite <-(proj1 Hf) in Hc.
  unfold resolve in Hres. destruct (d_canonical d (parent (t_path root t))) as [dir|] eqn:Hd; [|done].
  destruct (file_name (t_path root t)) as [name|] eqn:Hn; [|done]. injection Hres as Hkey.
  unfold require_inside_workspace, canonicalize, bind, gets. simpl. rewrite Hc. simpl.
  rewrite Hd. simpl. rewrite Hn. simpl. rewrite Hkey, Hin. simpl.
  pose proof (stat_target d t b Hat) as Hs.
  destruct (stat_key faults (t_key t) d) as [[n|e|] d'] eqn:Hk; [|done..]. simpl in Hs. by subst n.
Qed.

(** *** The checks before anything is written *)

Definition hash_matches (t : Target) : Prop :=
  sha256_hex (t_old t) = fp_expected_live_sha256 (t_file t).

Lemma before_commit_old d i t :
  before_commit d -> targets !! i = Some t -> at_ d t (t_old t).
Proof. intros (_ & Ho & _) Ht. by eapply Forall_lookup_1 in Ho. Qed.

Section Checks.
Hypothesis mismatch_blamed : ~ Forall hash_matches targets -> blame.

Lemma check_live_spec i t :
  targets !! i = Some t ->
  bspec before_commit (check_live faults sha256_hex root (t_file t))
    (fun _ d => before_commit d /\ hash_matches t) before_commit before_commit.
Proof.
  intros Ht. unfold check_live. eapply spec_bind.
  { apply (spec_quiet blame _ _ (fun key => key = t_key t)); [eauto with quiet..|].
    intros d Hd. eapply inside_target; [apply Hd|done|by eapply before_commit_old]. }
  intros key. apply spec_pure. intros ->. eapply spec_bind.
  { apply (spec_quiet blame _ _ (fun b => b = t_old t)); [eauto with quiet..|].
    intros d Hd. apply read_key_target. by eapply before_commit_old. }
  intros b. apply spec_pure. intros ->. eapply spec_conseq;
    [apply (spec_guard _ _ _ (fun _ d => before_commit d /\ blame) (fun d => before_commit d /\ blame))
    |done| |done|done].
  - intros d Hd Hb%bool_decide_eq_false. split; [done|]. apply mismatch_blamed. intros Hall.
    by eapply Forall_lookup_1 in Hall.
  - intros _ d [Hd Hb]. split; [done|]. by apply bool_decide_eq_true in Hb.
Qed.

Lemma check_all_spec :
  bspec before_commit (forM (t_file <$> targets) (check_live faults sha256_hex root))
    (fun _ d => before_commit d /\ Forall hash_matches targets) before_commit before_commit.
Proof.
  eapply spec_conseq.
  - apply (spec_forM (fun i d => before_commit d /\ Forall hash_matches (take i targets))).
    intros i f Hf. apply list_lookup_fmap_Some_1 in Hf as (t & -> & Ht). apply spec_pure. intros Hh.
    eapply spec_conseq; [by apply (check_live_spec i)|done| |done|done].
    intros _ d [Hd Ht']. split; [done|]. rewrite (take_S_r _ _ _ Ht). by apply Forall_app_2; [|constructor].
  - intros d Hd. split; [done|]. apply Forall_nil_2.
  - intros _ d [Hd Hh]. rewrite length_fmap, take_ge in Hh by done. done.
  - done.
  - done.
Qed.
End Checks.

(** *** The journal directory *)

Lemma jfile_put d name b n :
  is_Some (d_journal d) ->
  jfile (put_journal_file name b d) n = if bool_decide (n = name) then Some b else jfile d n.
Proof.
  intros [m Hm]. unfold jfile, put_journal_file. simpl. rewrite Hm. simpl.
  case_bool_decide as Hn; [subst n; apply lookup_insert_eq|by apply lookup_insert_ne].
Qed.
Lemma put_before_commit d name b :
  name <> journal_json -> before_commit d -> before_commit (put_journal_file name b d).
Proof.
  intros Hne (H1 & H2 & H3). split_and!; [done..|]. unfold journal_is in *.
  destruct (d_journal d) as [m|] eqn:Hm.
  - by rewrite jfile_put, bool_decide_eq_false_2.
  - unfold jfile, put_journal_file in *. simpl in *. by rewrite Hm in *.
Qed.

Lemma put_pre_images d name b n :
  is_Some (d_journal d) -> (forall i, (i < n)%nat -> name <> pre_name i) ->
  pre_images d n -> pre_images (put_journal_file name b d) n.
Proof.
  intros Hm Hne Hp i t Hi Ht. rewrite jfile_put by done.
  rewrite bool_decide_eq_false_2; [by apply Hp|]. intros Heq. by apply (Hne i).
Qed.

Lemma put_some d name b : is_Some (d_journal d) -> is_Some (d_journal (put_journal_file name b d)).
Proof. intros [m Hm]. unfold put_journal_file. simpl. rewrite Hm. simpl. eauto. Qed.

Definition renamed (d : Disk) (b : list Z) : Disk :=
  set_journal ((fun m => <[journal_json := b]> (delete journal_tmp m)) <$> d_journal d) d.

Lemma jfile_renamed d b n :
  is_Some (d_journal d) ->
  jfile (renamed d b) n = if bool_decide (n = journal_json) then Some b
                          else if bool_decide (n = journal_tmp) then None else jfile d n.
Proof.
  intros [m Hm]. unfold jfile, renamed. simpl. rewrite Hm. simpl.
  case_bool_decide as H1; [subst n; apply lookup_insert_eq|]. rewrite lookup_insert_ne by done.
  case_bool_decide as H2; [subst n; apply lookup_delete_eq|by rewrite lookup_delete_ne].
Qed.

Lemma renamed_pre_images d b n :
  is_Some (d_journal d) -> pre_images d n -> pre_images (renamed d b) n.
Proof.
  intros Hm Hp i t Hi Ht. rewrite jfile_renamed by done. destruct (pre_name_other i).
  rewrite !bool_decide_eq_false_2 by done. by apply Hp.
Qed.

(** Writing the journal either leaves the old one or puts the new one in place. *)
Lemma write_journal_spec (P Q : Disk -> Prop) j :
  view_inv P -> (forall d b, P d -> P (put_journal_file journal_tmp b d)) ->
  (forall d, P d -> is_Some (d_journal d)) ->
  (forall d, P d -> Q (renamed d (to_json j))) ->
  bspec P (write_journal faults to_json j) (fun _ => Q) P P.
Proof.
  intros Hv Hput Hsome HQ. unfold write_journal. eapply spec_bind.
  - apply (spec_op_blamed faults blame faults_blamed _ _ _ P
             (fun _ d => P d /\ jfile d journal_tmp = Some (to_json j))).
    + intros d Hd. destruct (Hsome d Hd) as [m Hm]. rewrite Hm. split; [by apply Hput|].
      rewrite jfile_put by eauto. by rewrite bool_decide_eq_true_2.
    + intros d. by apply Hv.
    + intros d k Hd _. apply (Hv d (tick d)) in Hd; [|done]. destruct k; auto.
    + intros d k Hd _. apply (Hv d (tick d)) in Hd; [|done]. destruct k; auto.
  - intros []. apply (spec_op_blamed faults blame faults_blamed _ _ _ _ (fun _ => Q)).
    + intros d [Hd Hj]. unfold jfile in Hj. rewrite Hj. by apply HQ.
    + intros d [Hd Hj]. split; [by apply (Hv d)|done].
    + intros d k [Hd _] _. by apply (Hv d).
    + intros d k [Hd _] _. by apply (Hv d).
Qed.

(** *** Saving the pre-images *)

Lemma create_dir_spec :
  bspec before_commit (journal_create_dir faults) (fun _ => saving 0) before_commit before_commit.
Proof.
  apply (spec_op_blamed faults blame faults_blamed).
  - intros d (H1 & H2 & H3). split_and!; [|eauto|intros i t; lia]. split_and!; [done..|].
    unfold journal_is, jfile in *. simpl. destruct (d_journal d); [done|]. simpl. by rewrite lookup_empty.
  - done.
  - done.
  - done.
Qed.

Lemma saving_before n d : saving n d -> before_commit d.
Proof. by intros []. Qed.
Lemma saving_old n d i t : saving n d -> targets !! i = Some t -> at_ d t (t_old t).
Proof. intros [Hd _]. by apply before_commit_old. Qed.

Lemma save_pre_image_spec i t entries :
  targets !! i = Some t ->
  bspec (saving i) (save_pre_image faults sha256_hex root entries (i, t_file t))
    (fun es d => saving (S i) d /\ es = entries ++ [entry_of i t]) before_commit before_commit.
Proof.
  intros Ht. unfold save_pre_image. eapply spec_bind.
  { eapply spec_conseq; [apply (spec_quiet blame (saving i) _ (fun b => b = t_old t))| | | |].
    - eauto with quiet.
    - apply view_saving.
    - intros d Hd. eapply read_path_target; [apply Hd|done|by eapply saving_old].
    - done.
    - intros b d Hd. exact Hd.
    - by intros e d [[] ?].
    - by intros d [[] ?]. }
  intros b. apply spec_pure. intros ->. eapply (spec_bind _ _ _ (fun _ => saving (S i))).
  - destruct (pre_name_other i) as [Hn1 Hn2].
    assert (forall d x, saving i d -> before_commit (put_journal_file (pre_name i) x d)) as Hput.
    { intros d x [Hd _]. by apply put_before_commit. }
    apply (spec_op_blamed faults blame faults_blamed).
    + intros d Hd. pose proof Hd as (H1 & [m Hm] & H3). rewrite Hm.
      split_and!; [by apply Hput|apply put_some; eauto|]. intros k u Hk Hu.
      rewrite jfile_put by eauto. case_bool_decide as Hkk.
      * apply pre_name_inj in Hkk as ->. congruence.
      * apply (H3 k u); [|done]. destruct (decide (k = i)) as [->|]; [done|lia].
    + intros d. by apply view_saving.
    + intros d [|k] Hd _; [apply Hd|]. by apply (Hput (tick d)).
    + intros d [|k] Hd _; [apply Hd|]. by apply (Hput (tick d)).
  - intros _. by apply spec_ret.
Qed.

Lemma save_all_spec :
  bspec (saving 0) (foldM (save_pre_image faults sha256_hex root) [] (imap pair (t_file <$> targets)))
    (fun es d => saving (length targets) d /\ es = the_entries) before_commit before_commit.
Proof.
  eapply spec_conseq.
  - apply (spec_foldM (fun i es d => saving i d /\ es = imap entry_of (take i targets))).
    intros i [k f] es Hx. apply list_lookup_imap_Some in Hx as (g & Hg & [= -> ->]).
    apply list_lookup_fmap_Some_1 in Hg as (t & -> & Ht). apply spec_pure. intros ->.
    eapply spec_conseq; [by apply (save_pre_image_spec i t)|done| |done|done].
    intros es d [Hd ->]. split; [done|]. rewrite (take_S_r _ _ _ Ht), imap_app. simpl.
    rewrite length_take, Nat.min_l by (apply lookup_lt_Some in Ht; lia). by rewrite Nat.add_0_r.
  - done.
  - intros es d [Hd ->]. rewrite length_imap, length_fmap in *. by rewrite take_ge.
  - done.
  - done.
Qed.

(** *** The commit *)

Lemma saving_put n d b : saving n d -> saving n (put_journal_file journal_tmp b d).
Proof.
  intros (H1 & H2 & H3). split_and!; [by apply put_before_commit|by apply put_some|].
  apply put_pre_images; [done| |done]. intros i _ Heq. by destruct (pre_name_other i).
Qed.

Lemma prepare_spec n :
  bspec (saving n) (write_journal faults to_json (the_journal false false)) (fun _ => saving n)
    (saving n) (saving n).
Proof.
  apply write_journal_spec; [apply view_saving|intros; by apply saving_put|by intros d (_ & ? & _)|].
  intros d ((Hf & Ho & _) & Hs & Hp). split_and!; [split_and!; [done|done|]|..].
  - unfold journal_is. rewrite jfile_renamed, bool_decide_eq_true_2 by done.
    eexists. split; [apply json_ok|by left].
  - destruct Hs as [m Hm]. unfold renamed. simpl. rewrite Hm. simpl. eauto.
  - by apply renamed_pre_images.
Qed.

Lemma commit_spec :
  bspec (saving (length targets)) (write_journal faults to_json (the_journal true false))
    (fun _ => publishing 0) (saving (length targets)) (saving (length targets)).
Proof.
  apply write_journal_spec; [apply view_saving|intros; by apply saving_put|by intros d (_ & ? & _)|].
  intros d ((Hf & Ho & _) & Hs & Hp). split; [split_and!; [done| |]|].
  - by rewrite jfile_renamed, bool_decide_eq_true_2.
  - by apply renamed_pre_images.
  - intros i t Ht. simpl. by eapply Forall_lookup_1 in Ho.
Qed.

(** *** Publishing *)

Lemma publishing_at n d i t :
  publishing n d -> targets !! i = Some t -> at_ d t (if (i <? n)%nat then t_new t else t_old t).
Proof. intros [_ H]. apply H. Qed.
Lemma publishing_next d i t : publishing i d -> targets !! i = Some t -> at_ d t (t_old t).
Proof. intros Hd Ht. pose proof (publishing_at i d i t Hd Ht) as H. by rewrite Nat.ltb_irrefl in H. Qed.

Lemma keys_ne i j t u :
  targets !! i = Some t -> targets !! j = Some u -> i <> j -> t_key t <> t_key u.
Proof.
  intros Ht Hu Hne Heq. apply Hne. eapply (NoDup_lookup (t_key <$> targets)); [done|..].
  - rewrite list_lookup_fmap, Ht. done.
  - rewrite list_lookup_fmap, Hu. simpl. by rewrite Heq.
Qed.

(** Replacing one target. *)
Lemma framed_insert d i t n :
  framed d -> targets !! i = Some t -> framed (set_nodes (<[t_key t := n]> (d_nodes d)) d).
Proof.
  intros [H1 H2] Ht. split; [done|]. intros k Hk. simpl. rewrite lookup_insert_ne; [by apply H2|].
  intros <-. apply Hk. apply list_elem_of_fmap_2, list_elem_of_lookup. eauto.
Qed.

Lemma at_insert d i t j u b c :
  targets !! i = Some t -> targets !! j = Some u ->
  at_ (set_nodes (<[t_key t := FileNode b (t_mode t) 1]> (d_nodes d)) d) u c
  <-> if decide (i = j) then b = c else at_ d u c.
Proof.
  intros Ht Hu. unfold at_. simpl. destruct (decide (i = j)) as [<-|Hne].
  - assert (t = u) as <- by congruence. rewrite lookup_insert_eq. naive_solver.
  - rewrite lookup_insert_ne; [done|]. by eapply keys_ne.
Qed.

Lemma published_step d i t :
  publishing i d -> targets !! i = Some t ->
  publishing (S i) (set_nodes (<[t_key t := FileNode (t_new t) (t_mode t) 1]> (d_nodes d)) d).
Proof.
  intros [(Hf & Hj & Hp) Hat] Ht. split; [split_and!; [by eapply framed_insert|done|done]|].
  intros j u Hu. rewrite (at_insert d i t j u) by done. case_decide as Hij.
  - subst j. rewrite (proj2 (Nat.ltb_lt _ _)) by lia. congruence.
  - specialize (Hat j u Hu). destruct (Nat.ltb_spec j i), (Nat.ltb_spec j (S i)); (done || lia).
Qed.

Definition staged (b : list Z) (P : Disk -> Prop) (d : Disk) : Prop :=
  P d /\ head (d_temps d) = Some b.

Lemma spec_with_tempfile {A} P (m : FS A) Q (E : Error -> Disk -> Prop) X :
  (forall e, view_inv (E e)) -> spec P m Q E X -> spec P (with_tempfile m) Q E X.
Proof.
  intros HE Hm d Hd. specialize (Hm d Hd). unfold with_tempfile.
  destruct (m d) as [[a|e|] d']; [done| |done]. by eapply HE; [|exact Hm].
Qed.

Lemma replace_spec i t :
  targets !! i = Some t ->
  bspec (publishing i)
    (with_tempfile (tempfile_write faults (t_new t) ;;; tempfile_touch faults ;;;
       tempfile_touch faults ;;; tempfile_persist faults (t_key t) (t_mode t)))
    (fun _ => publishing (S i)) (publishing i) (publishing i).
Proof.
  intros Ht. pose proof (view_publishing i) as Hv.
  assert (bspec (staged (t_new t) (publishing i)) (tempfile_touch faults)
    (fun _ => staged (t_new t) (publishing i)) (publishing i) (publishing i)) as Htouch.
  { apply (spec_op_blamed faults blame faults_blamed);
      [by intros d|by intros d []|by intros d k [? _]..]. }
  apply spec_with_tempfile; [intros e d d' Hs []; split; [by eapply Hv|done]|].
  apply (spec_bind _ _ _ (fun _ => staged (t_new t) (publishing i))).
  { apply (spec_op_blamed faults blame faults_blamed);
      [by intros d|by intros d|by intros d k..]. }
  intros []. eapply spec_bind; [exact Htouch|]. intros []. eapply spec_bind; [exact Htouch|]. intros [].
  apply (spec_op_blamed faults blame faults_blamed); [|by intros d []|by intros d k [? _]..].
  intros d [Hd Hh]. destruct (d_temps d) as [|b rest]; [done|]. injection Hh as ->.
  by apply published_step.
Qed.

Lemma publish_one_spec i t :
  Forall hash_matches targets -> targets !! i = Some t ->
  bspec (publishing i)
    (publish_atomic faults sha256_hex root (t_path root t) (t_new t) (fp_expected_live_sha256 (t_file t)))
    (fun _ => publishing (S i)) (publishing i) (publishing i).
Proof.
  intros Hall Ht. unfold publish_atomic.
  assert (hash_matches t) as Hm by by eapply Forall_lookup_1 in Hall.
  eapply spec_bind.
  { apply (spec_quiet blame _ _ (fun key => key = t_key t)); [eauto with quiet..|].
    intros d Hd. eapply inside_target; [apply Hd|done|by eapply publishing_next]. }
  intros key. apply spec_pure. intros ->. eapply spec_bind.
  { apply (spec_quiet blame _ _ (fun b => b = t_old t)); [eauto with quiet..|].
    intros d Hd. apply read_key_target. by eapply publishing_next. }
  intros live. apply spec_pure. intros ->. rewrite bool_decide_eq_true_2 by done.
  eapply (spec_bind _ _ _ (fun _ => publishing i)); [by apply spec_ret|]. intros [].
  eapply spec_bind.
  { apply (spec_quiet blame _ _ (fun n => n = FileNode (t_old t) (t_mode t) 1)); [eauto with quiet..|].
    intros d Hd. apply stat_target. by eapply publishing_next. }
  intros n. apply spec_pure. intros ->.
  eapply (spec_bind _ _ _ (fun _ => publishing i)).
  { apply (spec_op_blamed faults blame faults_blamed); by intros d. }
  intros []. eapply spec_bind; [by apply replace_spec|]. intros []. by apply spec_ret.
Qed.

Lemma publishing_recoverable n d : publishing n d -> recoverable d.
Proof.
  intros [(Hf & Hj & Hp) Hat]. right; right. split_and!; [done..|].
  intros i t Ht. specialize (Hat i t Ht). destruct (i <? n)%nat; [right|by left].
  split; [done|]. apply Hp; [by eapply lookup_lt_Some|done].
Qed.

Lemma publish_files_spec n :
  Forall hash_matches targets ->
  bspec (publishing n) (publish_files faults sha256_hex root (t_file <$> drop n targets) n)
    (fun r d => publishing r.1 d
       /\ match r.2 with None => (length targets <= r.1)%nat | Some _ => blame end)
    (fun _ => False) recoverable.
Proof.
  intros Hall.
  remember (drop n targets) as l eqn:Hl. revert n Hl.
  induction l as [|t l IH]; intros n Hl; cbn [fmap list_fmap publish_files].
  { apply spec_ret. intros d Hd. split; [done|]. simpl.
    apply (f_equal length) in Hl. rewrite length_drop in Hl. simpl in Hl. lia. }
  assert (targets !! n = Some t) as Ht.
  { rewrite <-(Nat.add_0_r n), <-lookup_drop, <-Hl. done. }
  eapply spec_bind.
  { eapply (spec_conseq _ _ _ _ _ _ (fun _ _ => False)).
    - apply spec_try, (publish_one_spec n t Hall Ht).
    - done.
    - intros r d Hr. exact Hr.
    - done.
    - intros d []. split; [by eapply publishing_recoverable|done]. }
  intros [s|e].
  - eapply spec_conseq; [apply (IH (S n))|done..].
    apply (f_equal (drop 1)) in Hl. rewrite drop_drop, Nat.add_1_r in Hl. done.
  - apply spec_ret. intros d Hd. done.
Qed.
(** *** Removing the journal *)

Lemma remove_dir_spec new J :
  bspec (fun d => ended new J d /\ is_Some (d_journal d)) (journal_remove_dir faults kept)
    (fun _ d => ended new J d /\ d_journal d = None) (ended new J) (ended new J).
Proof.
  assert (forall d k, ended new J d -> ended new J (match k with
      | S _ => set_journal ((fun m => filter (fun x : string * list Z => kept x.1 = true) m)
                              <$> d_journal d) d
      | O => d end)) as Hpart.
  { intros d [|k] (H1 & H2 & H3); [done|]. split_and!; [done..|]. unfold journal_is, jfile in *. simpl.
    destruct (d_journal d) as [m|]; [|done]. simpl in *.
    destruct (filter _ m !! journal_json) eqn:Hl; [|done].
    apply map_lookup_filter_Some in Hl as [Hl _]. by rewrite Hl in H3. }
  apply (spec_op_blamed faults blame faults_blamed).
  - intros d [(H1 & H2 & H3) [m Hm]]. rewrite Hm. done.
  - intros d [Hd Hm]. split; [by eapply view_ended|done].
  - intros d k [Hd _] _. by apply (Hpart (tick d)).
  - intros d k [Hd _] _. by apply (Hpart (tick d)).
Qed.

(** [let _ = remove_dir_all(..)]. *)
Lemma ignore_remove_spec new J (E : Disk -> Prop) :
  bspec (fun d => ended new J d /\ is_Some (d_journal d)) (ignore (journal_remove_dir faults kept))
    (fun _ d => ended new J d /\ (d_journal d = None \/ blame)) E (ended new J).
Proof.
  eapply spec_ignore; [apply remove_dir_spec|..].
  - intros [] d []. auto.
  - intros e d []. auto.
Qed.

Lemma ended_in_flight d : ended false in_flight d -> recoverable d.
Proof.
  intros (Hf & Ho & Hj). unfold journal_is in Hj.
  destruct (jfile d journal_json) as [b|] eqn:Hb; [right; right|left].
  - split_and!; [done|congruence|]. intros i t Ht. left. by eapply Forall_lookup_1 in Ho.
  - split_and!; [done..|]. unfold journal_is. by rewrite Hb.
Qed.

Lemma jfile_some d n b : jfile d n = Some b -> is_Some (d_journal d).
Proof. unfold jfile. destruct (d_journal d); [eauto|done]. Qed.

(** *** Rolling back *)

Section Rollback.
(** A failing restore leaves the file as it was. *)
Hypothesis restores_whole : forall n k, faults n KRestore <> IoFault (S k) /\ faults n KRestore <> Stop (S k).

Lemma write_target_spec (P Q : Disk -> Prop) i t b :
  targets !! i = Some t -> view_inv P ->
  (forall d, P d -> framed d /\ exists x, at_ d t x) ->
  (forall d, P d -> Q (set_nodes (<[t_key t := FileNode b (t_mode t) 1]> (d_nodes d)) d)) ->
  bspec P (write_path faults KRestore (t_path root t) b) (fun _ => Q) P P.
Proof.
  intros Ht Hv Hat HQ. apply (spec_op_blamed faults blame faults_blamed).
  - intros d Hd. destruct (Hat d Hd) as [Hf [x Hx]]. rewrite (target_open d i t x) by done.
    unfold at_ in Hx. rewrite Hx. unfold put_content. rewrite Hx. by apply HQ.
  - intros d. by apply Hv.
  - intros d [|k] Hd Hk; [by apply (Hv d)|]. by destruct (restores_whole (d_clock d) k).
  - intros d [|k] Hd Hk; [by apply (Hv d)|]. by destruct (restores_whole (d_clock d) k).
Qed.

Lemma journal_read_spec P name b :
  view_inv P -> (forall d, P d -> jfile d name = Some b) ->
  bspec P (journal_read faults name) (fun x d => P d /\ x = b) P P.
Proof.
  intros Hv Hj. apply (spec_quiet blame _ _ (fun x => x = b)); [eauto with quiet|done|].
  intros d Hd. apply (outcome_op faults blame faults_blamed). specialize (Hj d Hd).
  unfold jfile in Hj. simpl. by rewrite Hj.
Qed.

Lemma rolling_at n m c d i t :
  rolling n m c d -> targets !! i = Some t -> exists x, at_ d t x.
Proof.
  intros [_ H] Ht. specialize (H i t Ht). destruct (i <? n)%nat; [|eauto].
  destruct H as [?|[??]]; eauto.
Qed.

Lemma rolling_recoverable n m c d : rolling n m c d -> recoverable d.
Proof.
  intros [(Hf & Hj & Hp) Hat]. right; right. split_and!; [done..|]. intros i t Ht.
  assert (jfile d (pre_name i) = Some (t_old t)) as Hi
    by (apply Hp; [by eapply lookup_lt_Some|done]).
  specialize (Hat i t Ht). destruct (i <? n)%nat; [|destruct (i <? m)%nat]; tauto.
Qed.

Lemma rolling_write n m c d t :
  rolling n m c d -> targets !! n = Some t ->
  rolling (S n) m c (set_nodes (<[t_key t := FileNode (t_old t) (t_mode t) 1]> (d_nodes d)) d).
Proof.
  intros [(Hf & Hj & Hp) Hat] Ht. split; [split_and!; [by eapply framed_insert|done|done]|].
  intros j u Hu. specialize (Hat j u Hu).
  pose proof (fun x => at_insert d n t j u (t_old t) x Ht Hu) as Hi.
  destruct (decide (n = j)) as [<-|Hij].
  - rewrite (proj2 (Nat.ltb_lt _ _)) by lia. left. apply Hi. congruence.
  - destruct (Nat.ltb_spec j n), (Nat.ltb_spec j (S n)); try lia.
    + destruct Hat as [?|[??]]; [left|right; split; [done|]]; by apply Hi.
    + by apply Hi.
Qed.

Lemma rolling_skip n m c d :
  (n < m)%nat -> rolling n m c d -> rolling (S n) m false d.
Proof.
  intros Hn [Hc Hat]. split; [done|]. intros j u Hu. specialize (Hat j u Hu).
  destruct (Nat.ltb_spec j n), (Nat.ltb_spec j (S n)); try lia; try done.
  - destruct Hat as [?|[_ ?]]; auto.
  - rewrite (proj2 (Nat.ltb_lt _ _)) in Hat by lia. auto.
Qed.

Lemma restore_pre_image_spec n m fs t :
  (n < m)%nat -> targets !! n = Some t ->
  bspec (rolling n m (bool_decide (fs = [])))
    (restore_pre_image faults root fs (t_file t, entry_of n t))
    (fun fs' => rolling (S n) m (bool_decide (fs' = []))) (fun _ => False) recoverable.
Proof.
  intros Hn Ht. set (c := bool_decide (fs = [])). unfold restore_pre_image.
  eapply (spec_bind _ _ _ (fun r d => match r with
    inl _ => rolling (S n) m c d | inr _ => rolling n m c d end)).
  - eapply (spec_conseq _ (rolling n m c) _ _ _ _ (fun _ _ => False)).
    + apply spec_try, (spec_bind _ _ _ (fun x d => rolling n m c d /\ x = t_old t)).
      * apply journal_read_spec; [apply view_rolling|]. intros d [(_ & _ & Hp) _].
        apply Hp; [by eapply lookup_lt_Some|done].
      * intros x. apply spec_pure. intros ->. apply (write_target_spec _ (rolling (S n) m c) n t);
          [done|apply view_rolling| |].
        -- intros d Hd. split; [apply Hd|by eapply rolling_at].
        -- intros d Hd. by apply rolling_write.
    + done.
    + intros [?|?] d Hd; [done|]. apply Hd.
    + done.
    + intros d []. split; [by eapply rolling_recoverable|done].
  - intros [u|e]; apply spec_ret; intros d Hd; [done|].
    rewrite bool_decide_eq_false_2; [by eapply rolling_skip|]. intros H. by destruct fs.
Qed.

Lemma rollback_spec m :
  (m <= length targets)%nat ->
  bspec (publishing m)
    (foldM (restore_pre_image faults root) [] (take m (zip (t_file <$> targets) the_entries)))
    (fun fs d => recoverable d /\ is_Some (d_journal d) /\ (fs = [] -> ended false in_flight d))
    (fun _ => False) recoverable.
Proof.
  intros Hm. eapply (spec_conseq _ (rolling 0 m true)).
  - apply (spec_foldM (fun i fs => rolling i m (bool_decide (fs = [])))).
    intros i [f e] fs Hx. apply lookup_take_Some in Hx as [Hx Hi].
    apply lookup_zip_Some in Hx as [Hf He].
    apply list_lookup_fmap_Some_1 in Hf as (t & -> & Ht).
    apply list_lookup_imap_Some in He as (t' & Ht' & ->).
    assert (t' = t) as -> by congruence. by apply restore_pre_image_spec.
  - intros d [Hc Hat]. split; [done|]. intros i t Ht. simpl. by apply Hat.
  - intros fs d Hd. cbv beta in Hd. split; [by eapply rolling_recoverable|].
    destruct Hd as [(Hf & Hj & Hp) Hat]. split; [by eapply jfile_some|]. intros ->.
    split_and!; [done| |unfold journal_is; by rewrite Hj].
    apply Forall_lookup_2. intros i t Ht. specialize (Hat i t Ht).
    assert (length (take m (zip (t_file <$> targets) the_entries)) = m) as Hlen.
    { rewrite length_take, length_zip_with, length_fmap. unfold the_entries.
      rewrite length_imap. lia. }
    rewrite Hlen in Hat. destruct (i <? m)%nat; [|done].
    rewrite bool_decide_eq_true_2 in Hat by done. by destruct Hat as [?|[? _]].
  - done.
  - done.
Qed.
(** *** The whole publication *)

Lemma publishing_put n d b : publishing n d -> publishing n (put_journal_file journal_tmp b d).
Proof.
  intros [(Hf & Hj & Hp) Hat]. pose proof (jfile_some d _ _ Hj) as Hs.
  split; [split_and!; [done| |]|done].
  - rewrite jfile_put by done. by rewrite bool_decide_eq_false_2.
  - apply put_pre_images; [done| |done]. intros i _ Heq. by destruct (pre_name_other i).
Qed.

Lemma publishing_all_new n d : (length targets <= n)%nat -> publishing n d -> all_new d.
Proof.
  intros Hn [_ Hat]. apply Forall_lookup_2. intros i t Ht. specialize (Hat i t Ht).
  apply lookup_lt_Some in Ht. by rewrite (proj2 (Nat.ltb_lt _ _)) in Hat by lia.
Qed.

Lemma complete_spec n (E : Disk -> Prop) :
  (length targets <= n)%nat ->
  bspec (publishing n) (ignore (write_journal faults to_json (the_journal true true)))
    (fun _ d => ended true finished d /\ is_Some (d_journal d)) E recoverable.
Proof.
  intros Hn. eapply (spec_conseq _ (publishing n) _ _
    (fun _ d => ended true finished d /\ is_Some (d_journal d)) _ (fun _ d => E d /\ blame)).
  - eapply spec_ignore; [apply (write_journal_spec _ (fun d =>
        ended true finished d /\ is_Some (d_journal d)))|..].
    + apply view_publishing.
    + intros. by apply publishing_put.
    + intros d [(_ & Hj & _) _]. by eapply jfile_some.
    + intros d Hd. pose proof (publishing_all_new n d Hn Hd) as Hnew.
      destruct Hd as [(Hf & Hj & Hp) Hat]. apply jfile_some in Hj as Hs. split.
      * split_and!; [done..|]. unfold journal_is. rewrite jfile_renamed, bool_decide_eq_true_2 by done.
        by exists true.
      * destruct Hs as [m Hm]. unfold renamed. simpl. rewrite Hm. eauto.
    + intros [] d Hd. exact Hd.
    + intros e d [Hd _]. split; [|destruct Hd as [(_ & Hj & _) _]; by eapply jfile_some].
      split_and!; [apply Hd|by eapply publishing_all_new|]. destruct Hd as [(_ & Hj & _) _].
      unfold journal_is. rewrite Hj. by exists false.
  - done.
  - done.
  - done.
  - intros d []. split; [by eapply publishing_recoverable|done].
Qed.

Lemma publishing_bound n d :
  publishing n d -> publishing (Nat.min n (length targets)) d.
Proof.
  intros [Hc Hat]. split; [done|]. intros i t Ht. specialize (Hat i t Ht).
  apply lookup_lt_Some in Ht.
  destruct (Nat.ltb_spec i n), (Nat.ltb_spec i (n `min` length targets)); (done || lia).
Qed.

Definition publish_exit (e : Error) (d : Disk) : Prop :=
  recoverable d /\ (all_old d \/ e = rollback_incomplete).

Lemma before_commit_exit e d : before_commit d -> publish_exit e d.
Proof. intros Hd. split; [by left|]. left. apply Hd. Qed.

Lemma settle_spec m (failure : option Error) :
  Forall hash_matches targets ->
  match failure with None => (length targets <= m)%nat | Some _ => blame end ->
  spec (publishing m)
    (match failure with
     | Some e =>
         let! failures := foldM (restore_pre_image faults root) []
                            (take m (zip (t_file <$> targets) the_entries)) in
         guard (bool_decide (failures = [])) rollback_incomplete ;;;
         ignore (journal_remove_dir faults kept) ;;; throw e
     | None => ignore (write_journal faults to_json (the_journal true true)) ;;;
               ignore (journal_remove_dir faults kept)
     end)
    (fun _ d => (ended true finished d /\ Forall hash_matches targets) /\ (d_journal d = None \/ blame))
    (fun e d => publish_exit e d /\ blame) (fun d => recoverable d /\ blame).
Proof.
  intros Hall Hf. destruct failure as [e|].
  - apply (spec_pre _ _ _ _ _ _ (publishing_bound m)).
    eapply spec_bind.
    + assert (take m (zip (t_file <$> targets) the_entries)
              = take (m `min` length targets) (zip (t_file <$> targets) the_entries)) as ->.
      { rewrite <-take_take. rewrite (take_ge (zip _ _) (length targets)); [done|].
        rewrite length_zip_with, length_fmap. lia. }
      eapply spec_conseq; [apply rollback_spec; lia|done|intros fs d Hd; exact Hd|by intros ? d []|done].
    + intros fs. eapply (spec_bind _ _ _ (fun _ d => ended false in_flight d /\ is_Some (d_journal d))).
      * intros d (Hd & Hs & Hend). unfold guard. case_bool_decide as Hfs.
        -- split; [by apply Hend|done].
        -- split; [|done]. split; [done|by right].
      * intros []. eapply spec_bind.
        -- eapply spec_conseq; [apply (ignore_remove_spec false in_flight (fun _ => False))|done
             |intros u d Hd; exact Hd|by intros ? d []|].
           intros d []. split; [by apply ended_in_flight|done].
        -- intros []. apply spec_throw. intros d [Hd _]. split; [|done].
           split; [by apply ended_in_flight|]. left. apply Hd.
  - eapply spec_bind.
    + eapply spec_conseq; [apply (complete_spec m (fun _ => False) Hf)|done
        |intros u d Hd; exact Hd|by intros ? d []|done].
    + intros []. eapply spec_conseq; [apply (ignore_remove_spec true finished (fun _ => False))|done
        |by intros u d [? ?]|by intros ? d []|].
      intros d []. split; [by right; left|done].
Qed.

Lemma publish_spec :
  (~ Forall hash_matches targets -> blame) ->
  spec before_commit
    (publish_journal_locked faults kept sha256_hex to_json root tx (t_file <$> targets))
    (fun _ d => (ended true finished d /\ Forall hash_matches targets) /\ (d_journal d = None \/ blame))
    (fun e d => publish_exit e d /\ blame) (fun d => recoverable d /\ blame).
Proof.
  intros Hmis. unfold publish_journal_locked.
  assert (forall A P (m : FS A) Q, (forall d, P d -> before_commit d) ->
    bspec P m Q before_commit before_commit ->
    spec P m Q (fun e d => publish_exit e d /\ blame) (fun d => recoverable d /\ blame)) as Hearly.
  { intros A P m Q _ Hm. eapply spec_conseq; [exact Hm|done|done|..].
    - intros e d [Hd ?]. split; [by apply before_commit_exit|done].
    - intros d [Hd ?]. split; [by left|done]. }
  eapply spec_bind; [apply Hearly; [done|by apply check_all_spec]|]. intros [].
  apply spec_pure. intros Hall.
  eapply spec_bind; [apply Hearly; [done|apply create_dir_spec]|]. intros [].
  eapply spec_bind; [apply Hearly; [apply saving_before|apply save_all_spec]|]. intros es.
  apply spec_pure. intros ->.
  assert (forall A (m : FS A) Q, bspec (saving (length targets)) m Q
     (saving (length targets)) (saving (length targets)) ->
    bspec (saving (length targets)) m Q before_commit before_commit) as Hsav.
  { intros A m Q Hm. eapply spec_conseq; [exact Hm|done|done|..].
    - intros e d [Hd ?]. split; [by eapply saving_before|done].
    - intros d [Hd ?]. split; [by eapply saving_before|done]. }
  eapply spec_bind; [apply Hearly; [apply saving_before|apply Hsav, prepare_spec]|]. intros [].
  eapply spec_bind; [apply Hearly; [apply saving_before|apply Hsav, commit_spec]|]. intros [].
  eapply spec_bind.
  { eapply spec_conseq; [apply (publish_files_spec 0 Hall)|done|intros r d Hr; exact Hr
      |by intros ? d []|done]. }
  intros [m failure]. apply spec_pure. intros Hf. by apply settle_spec.
Qed.
(** *** Recovery *)

Section Recovery.
(** Reading a file that is there does not fail. *)
Hypothesis reads_work : forall n k, faults n KRead <> IoFault k.
(** The hash tells the two contents of a target apart. *)
Hypothesis hash_apart :
  Forall (fun t => sha256_hex (t_old t) = sha256_hex (t_new t) -> t_old t = t_new t) targets.

(** The targets hold [cs]. *)
Definition holding (cs : list (list Z)) (d : Disk) : Prop :=
  length cs = length targets
  /\ forall i t c, targets !! i = Some t -> cs !! i = Some c -> at_ d t c.

Lemma view_holding cs : view_inv (holding cs).
Proof. intros d d' Hv [H1 H2]. split; [done|]. intros i t c Ht Hc. eapply view_at; eauto. Qed.

Lemma live_hash_spec (P : Disk -> Prop) cs i t c (E : Disk -> Prop) :
  view_inv P -> (forall d, P d -> framed d /\ holding cs d) ->
  targets !! i = Some t -> cs !! i = Some c ->
  bspec P (live_hash faults sha256_hex root (entry_of i t)) (fun x d => P d /\ x = sha256_hex c) E P.
Proof.
  intros Hv HP Ht Hc d Hd. destruct (HP d Hd) as [Hf [_ Hat]]. specialize (Hat i t c Ht Hc).
  unfold live_hash, try_, bind. simpl. unfold read_path, disk_op.
  destruct (faults (d_clock d) KRead) eqn:Hk; [|by apply reads_work in Hk|].
  - rewrite (target_open (tick d) i t c Hf Ht Hat). simpl. rewrite Hat. split; [by apply (Hv d)|done].
  - split; [by apply (Hv d)|]. apply (faults_blamed (d_clock d) KRead). by rewrite Hk.
Qed.

Lemma live_hashes_spec (P : Disk -> Prop) cs (E : Disk -> Prop) :
  view_inv P -> (forall d, P d -> framed d /\ holding cs d) ->
  bspec P (mapM (live_hash faults sha256_hex root) the_entries)
    (fun L d => P d /\ L = sha256_hex <$> cs) E P.
Proof.
  intros Hv HP. eapply (spec_conseq _ _ _ _ _ _ (fun _ d => E d /\ blame)).
  - apply (spec_mapM (fun i L d => P d /\ L = sha256_hex <$> take i cs) _ _
             (fun _ d => E d /\ blame) (fun d => P d /\ blame)).
    intros i x L Hx. apply list_lookup_imap_Some in Hx as (t & Ht & ->).
    intros d [Hd ->]. destruct (cs !! i) as [c|] eqn:Hc.
    + pose proof (live_hash_spec P cs i t c E Hv HP Ht Hc d Hd) as Hl.
      destruct (live_hash _ _ _ _ d) as [[x|e|] d']; [|done..]. destruct Hl as [Hl ->].
      split; [done|]. by rewrite (take_S_r _ _ _ Hc), fmap_app.
    + exfalso. apply lookup_ge_None in Hc. apply lookup_lt_Some in Ht.
      destruct (HP d Hd) as [_ [Hlen _]]. lia.
  - done.
  - intros L d [Hd ->]. unfold the_entries. rewrite length_imap. split; [done|].
    destruct (HP d Hd) as [_ [Hlen _]]. by rewrite take_ge by lia.
  - done.
  - done.
Qed.

(** A recovery that has come to file [n]. *)
Definition restoring (n : nat) (cs : list (list Z)) (d : Disk) : Prop :=
  framed d /\ jfile d journal_json = Some (to_json (the_journal true false))
  /\ forall i t c, targets !! i = Some t -> cs !! i = Some c ->
       (if (i <? n)%nat then at_ d t (t_old t) else at_ d t c)
       /\ (c = t_old t \/ (c = t_new t /\ jfile d (pre_name i) = Some (t_old t))).

Lemma view_restoring n cs : view_inv (restoring n cs).
Proof.
  intros d d' Hv (H1 & H2 & H3). split_and!; [by eapply view_framed|by rewrite (view_jfile d d')|].
  intros i t c Ht Hc. rewrite (view_jfile d d') by done. destruct (H3 i t c Ht Hc) as [H4 H5].
  split; [|done]. destruct (i <? n)%nat; by eapply view_at.
Qed.

Lemma pending_restoring d :
  pending d -> exists cs, restoring 0 cs d /\ holding cs d.
Proof.
  intros (Hf & Hj & Hat).
  assert (exists cs, Forall2 (fun t c => at_ d t c) targets cs) as [cs Hcs].
  { assert (forall l, (forall t, t ∈ l -> exists c, at_ d t c) ->
              exists cs, Forall2 (fun t c => at_ d t c) l cs) as Hex.
    { induction l as [|t l IH]; intros Hl; [by exists []|].
      destruct (Hl t) as [c Hc]; [left|]. destruct IH as [cs Hcs]; [intros u Hu; apply Hl; by right|].
      exists (c :: cs). by constructor. }
    apply Hex. intros t [i Ht]%list_elem_of_lookup. destruct (Hat i t Ht) as [?|[??]]; eauto. }
  exists cs. split; [|split].
  - split_and!; [done..|]. intros i t c Ht Hc. simpl.
    pose proof (Forall2_lookup_lr _ _ _ _ _ _ Hcs Ht Hc) as Hx. simpl in Hx. split; [done|].
    unfold at_ in *. destruct (Hat i t Ht) as [Ho|[Hn Hp]]; [left; congruence|right; split; congruence].
  - symmetry. by eapply Forall2_length.
  - intros i t c Ht Hc. by apply (Forall2_lookup_lr _ _ _ _ _ _ Hcs Ht Hc).
Qed.

Lemma restoring_pending n cs d :
  length cs = length targets -> restoring n cs d -> pending d.
Proof.
  intros Hlen (Hf & Hj & Hat). split_and!; [done..|]. intros i t Ht.
  destruct (lookup_lt_is_Some_2 cs i) as [c Hc]; [rewrite Hlen; by eapply lookup_lt_Some|].
  destruct (Hat i t c Ht Hc) as [H1 [->|[-> H2]]]; destruct (i <? n)%nat; auto.
Qed.

Lemma hash_apart_at i t :
  targets !! i = Some t -> sha256_hex (t_old t) = sha256_hex (t_new t) -> t_old t = t_new t.
Proof. intros Ht. exact (Forall_lookup_1 _ _ _ _ hash_apart Ht). Qed.

Lemma restoring_skip n cs d t c :
  targets !! n = Some t -> cs !! n = Some c -> c = t_old t -> restoring n cs d ->
  restoring (S n) cs d.
Proof.
  intros Ht Hc -> (Hf & Hj & Hat). split_and!; [done..|]. intros i u x Hu Hx.
  destruct (Hat i u x Hu Hx) as [H1 H2]. split; [|done].
  destruct (Nat.ltb_spec i n), (Nat.ltb_spec i (S n)); try done; try lia.
  assert (i = n) as -> by lia.
  assert (u = t) as -> by congruence. assert (x = t_old t) as -> by congruence. done.
Qed.

Lemma restoring_write n cs d t :
  targets !! n = Some t -> restoring n cs d ->
  restoring (S n) cs (set_nodes (<[t_key t := FileNode (t_old t) (t_mode t) 1]> (d_nodes d)) d).
Proof.
  intros Ht (Hf & Hj & Hat). split_and!; [by eapply framed_insert|done|]. intros i u x Hu Hx.
  destruct (Hat i u x Hu Hx) as [H1 H2]. split; [|done].
  pose proof (fun y => at_insert d n t i u (t_old t) y Ht Hu) as Hi.
  destruct (decide (n = i)) as [<-|Hij].
  - rewrite (proj2 (Nat.ltb_lt _ _)) by lia. apply Hi. congruence.
  - destruct (Nat.ltb_spec i n), (Nat.ltb_spec i (S n)); try lia; by apply Hi.
Qed.

Lemma restore_entry_spec n cs t c k :
  targets !! n = Some t -> cs !! n = Some c ->
  bspec (restoring n cs) (restore_entry faults root k (entry_of n t, sha256_hex c))
    (fun _ => restoring (S n) cs) (restoring n cs) (restoring n cs).
Proof.
  intros Ht Hc. unfold restore_entry. cbn [je_pre_sha256 je_post_sha256 entry_of].
  assert (forall d, restoring n cs d -> c = t_old t \/
    (c = t_new t /\ jfile d (pre_name n) = Some (t_old t))) as Hcase.
  { intros d (_ & _ & Hat). by apply (Hat n t c). }
  case_bool_decide as Hpre.
  - apply spec_ret. intros d Hd. eapply restoring_skip; [done..| |done].
    destruct (Hcase d Hd) as [->|[-> _]]; [done|]. symmetry. by eapply hash_apart_at.
  - eapply (spec_pre _ (fun d => restoring n cs d
      /\ jfile d (pre_name n) = Some (t_old t) /\ c = t_new t)).
    { intros d Hd. destruct (Hcase d Hd) as [->|[-> Hp]]; done. }
    intros d (Hd & Hp & ->). rewrite bool_decide_eq_true_2 by done.
    revert d Hd Hp.
    cut (bspec (fun d => restoring n cs d /\ jfile d (pre_name n) = Some (t_old t))
      (let! pre := journal_read faults (pre_name n) in
       write_path faults KRestore (t_path root t) pre ;;; ret (S k))
      (fun _ => restoring (S n) cs) (restoring n cs) (restoring n cs)).
    { intros Hs d Hd Hp. by apply Hs. }
    eapply spec_bind.
    + eapply spec_conseq; [apply (journal_read_spec (fun d => restoring n cs d
        /\ jfile d (pre_name n) = Some (t_old t)) (pre_name n) (t_old t))| | | |].
      * intros d d' Hv [H1 H2]. split; [by eapply view_restoring|by rewrite (view_jfile d d')].
      * by intros d [].
      * done.
      * intros x d Hd. exact Hd.
      * by intros _ d [[] ?].
      * by intros d [[] ?].
    + intros x. apply spec_pure. intros ->. apply (spec_pre _ (restoring n cs)); [by intros d []|].
      eapply (spec_bind _ _ _ (fun _ => restoring (S n) cs)); [|intros []; by apply spec_ret].
      apply (write_target_spec _ _ n t); [done|apply view_restoring| |].
      * intros d Hd. split; [apply Hd|]. destruct Hd as (_ & _ & Hat).
        destruct (Hat n t (t_new t) Ht Hc) as [Hx _]. destruct (n <? n)%nat; eauto.
      * intros d Hd. by apply restoring_write.
Qed.

Lemma restore_all_spec cs :
  length cs = length targets ->
  bspec (restoring 0 cs)
    (foldM (restore_entry faults root) 0%nat (zip the_entries (sha256_hex <$> cs)))
    (fun _ => restoring (length targets) cs) recoverable recoverable.
Proof.
  intros Hlen. eapply spec_conseq.
  - apply (spec_foldM (fun i (_ : nat) => restoring i cs) _ _ _
      (fun _ d => recoverable d /\ blame) (fun d => recoverable d /\ blame)).
    intros i [e x] k Hx. apply lookup_zip_Some in Hx as [He Hx].
    apply list_lookup_imap_Some in He as (t & Ht & ->).
    apply list_lookup_fmap_Some_1 in Hx as (c & -> & Hc).
    eapply spec_conseq; [by apply restore_entry_spec|done|done|..].
    + intros e d [Hd ?]. split; [right; right; by eapply restoring_pending|done].
    + intros d [Hd ?]. split; [right; right; by eapply restoring_pending|done].
  - done.
  - intros k d Hd. unfold the_entries in Hd.
    rewrite length_zip_with, length_imap, length_fmap, Hlen, Nat.min_id in Hd. done.
  - done.
  - done.
Qed.

Lemma restoring_all cs d :
  length cs = length targets -> restoring (length targets) cs d -> ended false in_flight d.
Proof.
  intros Hlen (Hf & Hj & Hat). split_and!; [done| |unfold journal_is; by rewrite Hj].
  apply Forall_lookup_2. intros i t Ht. pose proof (lookup_lt_Some _ _ _ Ht) as Hi.
  destruct (lookup_lt_is_Some_2 cs i) as [c Hc]; [by rewrite Hlen|].
  destruct (Hat i t c Ht Hc) as [H1 _]. by rewrite (proj2 (Nat.ltb_lt _ _)) in H1 by lia.
Qed.

(** All live files hash to the post-images: they are the post-images. *)
Lemma all_post_spec cs :
  length cs = length targets ->
  forallb (fun x => bool_decide (x.2 = je_post_sha256 x.1)) (zip the_entries (sha256_hex <$> cs)) = true
  <-> forall i t c, targets !! i = Some t -> cs !! i = Some c -> sha256_hex c = sha256_hex (t_new t).
Proof.
  intros Hlen. rewrite forallb_forall. split.
  - intros H i t c Ht Hc. specialize (H (entry_of i t, sha256_hex c)).
    apply bool_decide_eq_true in H; [done|]. apply list_elem_of_In, list_elem_of_lookup. exists i.
    apply lookup_zip_Some. split; [|by rewrite list_lookup_fmap, Hc].
    unfold the_entries. by rewrite list_lookup_imap, Ht.
  - intros H [e x] Hx. apply list_elem_of_In, list_elem_of_lookup in Hx as [i Hx].
    apply lookup_zip_Some in Hx as [He Hx]. apply list_lookup_imap_Some in He as (t & Ht & ->).
    apply list_lookup_fmap_Some_1 in Hx as (c & -> & Hc). apply bool_decide_eq_true. by eapply H.
Qed.

Definition recovered (r : RecoveryReport) (d : Disk) : Prop :=
  recoverable d /\ (all_old d \/ all_new d) /\ (rr_action r = RolledBack -> all_old d).

#[local] Abbreviation rspec P m :=
  (spec P m (fun r d => recovered r d /\ (d_journal d = None \/ blame))
     (fun _ d => recoverable d /\ blame) (fun d => recoverable d /\ blame)).

Lemma ended_recovered new J r d :
  (forall d, ended new J d -> recoverable d) -> (new = true -> rr_action r <> RolledBack) ->
  ended new J d -> recovered r d.
Proof.
  intros HJ Hr Hd. split_and!; [by apply HJ|..]; destruct Hd as (_ & Hd & _); destruct new; auto.
  intros Hx. by destruct (Hr eq_refl).
Qed.

Lemma clean_up_spec new J r :
  (forall d, ended new J d -> recoverable d) -> (new = true -> rr_action r <> RolledBack) ->
  rspec (fun d => ended new J d /\ is_Some (d_journal d)) (journal_remove_dir faults kept ;;; ret r)
  /\ rspec (fun d => ended new J d /\ is_Some (d_journal d))
       (ignore (journal_remove_dir faults kept) ;;; ret r).
Proof.
  intros HJ Hr. split; (eapply spec_bind; [eapply spec_conseq|]).
  - apply (remove_dir_spec new J).
  - done.
  - intros u d Hd. exact Hd.
  - intros e d []. auto.
  - intros d []. auto.
  - intros []. apply spec_ret. intros d [Hd Hn]. split; [by eapply ended_recovered|by left].
  - apply (ignore_remove_spec new J (fun _ => False)).
  - done.
  - intros u d Hd. exact Hd.
  - by intros e d [].
  - intros d []. auto.
  - intros []. apply spec_ret. intros d [Hd Hn]. split; [by eapply ended_recovered|done].
Qed.

#[local] Abbreviation recover := (recover_locked faults kept sha256_hex from_json root).

Lemma recover_absent new J :
  (forall d, ended new J d -> recoverable d) ->
  rspec (fun d => ended new J d /\ jfile d journal_json = None) recover.
Proof.
  intros HJ d [Hd Hj]. unfold recover_locked, bind at 1, journal_file_exists, gets.
  unfold jfile in Hj. rewrite Hj. simpl. unfold bind at 1, journal_exists, gets.
  case_bool_decide as Hs.
  - apply (clean_up_spec new J); done.
  - split; [|left; by apply eq_None_not_Some]. by eapply ended_recovered.
Qed.

(** Reading the journal. *)
Lemma recover_present (P : Disk -> Prop) j :
  view_inv P -> (forall d, P d -> recoverable d) ->
  (forall d, P d -> exists b, jfile d journal_json = Some b /\ from_json b = Some j) ->
  rspec P (recover_journal faults kept sha256_hex root j) -> rspec P recover.
Proof.
  intros Hv HP Hj Hk. unfold recover_locked.
  eapply (spec_bind _ _ _ (fun x d => P d /\ x = true)).
  { intros d Hd. split; [done|]. destruct (Hj d Hd) as (b & Hb & _). unfold jfile in Hb.
    rewrite Hb. apply bool_decide_eq_true_2. eauto. }
  intros x. apply spec_pure. intros ->. cbn [negb]. eapply spec_bind.
  - eapply spec_conseq; [apply (spec_quiet blame P _ (fun b => from_json b = Some j))|done| |..].
    + eauto with quiet.
    + done.
    + intros d Hd. apply (outcome_op faults blame faults_blamed).
      destruct (Hj (tick d)) as (b & Hb & Hf); [by apply (Hv d)|]. unfold jfile in Hb.
      rewrite Hb. done.
    + intros b d Hd. exact Hd.
    + intros e d []. auto.
    + intros d []. auto.
  - intros b. apply spec_pure. intros Hb. rewrite Hb.
    eapply (spec_bind _ _ _ (fun x d => P d /\ x = j)); [by apply spec_ret|].
    intros x. apply spec_pure. by intros ->.
Qed.

Lemma recover_ended new J :
  (forall d, ended new J d -> recoverable d) ->
  (forall b, J b -> exists j, from_json b = Some j /\
     rspec (fun d => ended new J d /\ jfile d journal_json = Some b)
       (recover_journal faults kept sha256_hex root j)) ->
  rspec (ended new J) recover.
Proof.
  intros HJ Hb d Hd. destruct (jfile d journal_json) as [b|] eqn:Hj.
  - pose proof Hd as (_ & _ & Hb'). unfold journal_is in Hb'. rewrite Hj in Hb'.
    destruct (Hb b Hb') as (j & Hf & Hr).
    apply (recover_present (fun d => ended new J d /\ jfile d journal_json = Some b) j); [|..|done].
    + intros x y Hv [H1 H2]. split; [by eapply view_ended|by rewrite (view_jfile x y)].
    + intros x []. auto.
    + intros x [_ Hx]. eauto.
    + done.
  - by apply (recover_absent new J).
Qed.

Lemma recover_idle : rspec (ended false idle) recover.
Proof.
  apply recover_ended; [by left|]. intros b (j & Hf & Hj). exists j. split; [done|].
  apply (spec_pre _ (fun d => ended false idle d /\ is_Some (d_journal d))).
  { intros d [Hd Hb]. split; [done|by eapply jfile_some]. }
  unfold recover_journal. destruct (j_completed j) eqn:Hc; [by apply clean_up_spec; [left|]|].
  destruct Hj as [->|?]; [|done]. by apply clean_up_spec; [left|].
Qed.

(** A committed journal that is not marked completed. *)
Lemma recover_in_flight (P : Disk -> Prop) cs :
  view_inv P -> length cs = length targets ->
  (forall d, P d -> recoverable d /\ framed d /\ holding cs d
     /\ jfile d journal_json = Some (to_json (the_journal true false))) ->
  (forall d, P d -> restoring 0 cs d \/ forall i t, targets !! i = Some t -> cs !! i = Some (t_new t)) ->
  rspec P (recover_journal faults kept sha256_hex root (the_journal true false)).
Proof.
  intros Hv Hlen HP Hcs. unfold recover_journal. cbn [the_journal j_completed j_committed negb].
  eapply spec_bind.
  { eapply spec_conseq; [apply (live_hashes_spec P cs (fun _ => False) Hv)|done| |..].
    - intros d Hd. by destruct (HP d Hd) as (_ & ? & ? & _).
    - intros L d Hd. exact Hd.
    - by intros e d [].
    - intros d [Hd ?]. split; [by apply HP|done]. }
  intros L. apply spec_pure. intros ->.
  pose proof (all_post_spec cs Hlen) as Hpost. cbn [j_entries].
  destruct (forallb _ _).
  - apply (spec_pre _ (fun d => ended true finished d /\ is_Some (d_journal d))).
    + intros d Hd. destruct (HP d Hd) as (_ & Hf & [_ Hat] & Hj). split; [|by eapply jfile_some].
      split_and!; [done| |unfold journal_is; rewrite Hj; by exists false].
      apply Forall_lookup_2. intros i t Ht.
      destruct (lookup_lt_is_Some_2 cs i) as [c Hc]; [rewrite Hlen; by eapply lookup_lt_Some|].
      assert (c = t_new t) as <-; [|by apply (Hat i)].
      destruct (Hcs d Hd) as [(_ & _ & Hr)|Hr]; [|apply Hr in Ht; congruence].
      destruct (Hr i t c Ht Hc) as [_ [->|[-> _]]]; [|done].
      apply (hash_apart_at i t Ht). by eapply (proj1 Hpost).
    + apply clean_up_spec; [by right; left|done].
  - apply (spec_pre _ (restoring 0 cs)).
    + intros d Hd. destruct (Hcs d Hd) as [?|Hr]; [done|]. exfalso.
      apply Bool.diff_false_true, Hpost. intros i t c Ht Hc. apply Hr in Ht. congruence.
    + eapply spec_bind; [by apply restore_all_spec|]. intros k.
      apply (spec_pre _ (fun d => ended false in_flight d /\ is_Some (d_journal d))).
      * intros d Hd. split; [by eapply restoring_all|]. destruct Hd as (_ & Hj & _).
        by eapply jfile_some.
      * apply clean_up_spec; [apply ended_in_flight|done].
Qed.

Lemma recover_finished : rspec (ended true finished) recover.
Proof.
  apply recover_ended; [by right; left|]. intros b [[] ->]; eexists; (split; [apply json_ok|]).
  - apply (spec_pre _ (fun d => ended true finished d /\ is_Some (d_journal d))).
    { intros d [Hd Hb]. split; [done|by eapply jfile_some]. }
    apply clean_up_spec; [by right; left|done].
  - apply (recover_in_flight _ (fp_content ∘ t_file <$> targets)).
    + intros x y Hv [H1 H2]. split; [by eapply view_ended|by rewrite (view_jfile x y)].
    + apply length_fmap.
    + intros d [Hd Hb]. split_and!; [by right; left|apply Hd| |done]. split; [apply length_fmap|].
      intros i t c Ht Hc. rewrite list_lookup_fmap, Ht in Hc. injection Hc as <-.
      destruct Hd as (_ & Hn & _). by eapply Forall_lookup_1 in Hn.
    + intros d _. right. intros i t Ht. by rewrite list_lookup_fmap, Ht.
Qed.

Lemma recover_pending : rspec pending recover.
Proof.
  apply (spec_pre _ (fun d => exists cs, length cs = length targets /\ restoring 0 cs d /\ holding cs d)).
  { intros d Hd. destruct (pending_restoring d Hd) as (cs & Hr & Hh). exists cs.
    split; [apply Hh|done]. }
  apply spec_exists. intros cs d (Hlen & Hr & Hh). revert d Hr Hh.
  cut (rspec (fun d => restoring 0 cs d /\ holding cs d) recover); [intros H d Hr Hh; by apply H|].
  assert (view_inv (fun d => restoring 0 cs d /\ holding cs d)) as Hv.
  { intros x y Hv [H1 H2]. split; [by eapply view_restoring|by eapply view_holding]. }
  assert (forall d, restoring 0 cs d -> recoverable d) as Hrec.
  { intros d Hd. right; right. by eapply restoring_pending. }
  apply (recover_present _ (the_journal true false) Hv).
  - intros d []. auto.
  - intros d [(_ & Hj & _) _]. eauto.
  - apply (recover_in_flight _ cs Hv Hlen).
    + intros d [H1 H2]. split_and!; [by apply Hrec|apply H1|done|apply H1].
    + intros d []. by left.
Qed.

Lemma recover_spec : rspec recoverable recover.
Proof.
  intros d [Hd|[Hd|Hd]]; [by apply recover_idle|by apply recover_finished|by apply recover_pending].
Qed.

(** *** Once all targets are old or all are new, recovery leaves them alone *)

Definition known (b : list Z) : Prop :=
  exists j, from_json b = Some j
    /\ (j_committed j = false \/ j_completed j = true \/ j = the_journal true false).

Lemma recoverable_known d : recoverable d -> framed d /\ journal_is known d.
Proof.
  unfold journal_is, known. intros [(Hf & _ & Hj)|[(Hf & _ & Hj)|(Hf & Hj & _)]]; (split; [done|]).
  - unfold journal_is in Hj. destruct (jfile d journal_json); [|done]. destruct Hj as (j & ? & [?|?]);
    exists j; auto.
  - unfold journal_is in Hj. destruct (jfile d journal_json); [|done]. destruct Hj as [c ->].
    exists (the_journal true c). split; [apply json_ok|]. destruct c; auto.
  - rewrite Hj. exists (the_journal true false). split; [apply json_ok|]. auto.
Qed.

Section Settled.
Context (nodes : gmap string Node).

Definition still (d : Disk) : Prop := d_nodes d = nodes.
#[local] Abbreviation kspec P m := (spec P m (fun _ => still) (fun _ => still) still).

Lemma remove_still : kspec still (journal_remove_dir faults kept).
Proof.
  apply spec_op.
  - intros d Hd. by destruct (d_journal d).
  - done.
  - by intros d [|k].
  - by intros d [|k].
Qed.

Lemma clean_up_still (r : RecoveryReport) :
  kspec still (journal_remove_dir faults kept ;;; ret r)
  /\ kspec still (ignore (journal_remove_dir faults kept) ;;; ret r).
Proof.
  split; (eapply (spec_bind _ _ _ (fun _ => still)); [|intros []; by apply spec_ret]).
  - apply remove_still.
  - by eapply spec_ignore; [apply remove_still|..].
Qed.

Definition held (cs : list (list Z)) (d : Disk) : Prop :=
  still d /\ framed d /\ holding cs d.

Lemma restore_all_still cs :
  (forall i t c, targets !! i = Some t -> cs !! i = Some c -> c = t_old t) ->
  kspec still (foldM (restore_entry faults root) 0%nat (zip the_entries (sha256_hex <$> cs))).
Proof.
  intros Hcs. eapply spec_conseq; [apply (spec_foldM (fun _ _ => still) _ _ _ (fun _ => still) still)
    |done..].
  intros i [e x] k Hx. apply lookup_zip_Some in Hx as [He Hx].
  apply list_lookup_imap_Some in He as (t & Ht & ->).
  apply list_lookup_fmap_Some_1 in Hx as (c & -> & Hc).
  rewrite (Hcs i t c Ht Hc). unfold restore_entry. cbn [entry_of je_pre_sha256].
  rewrite bool_decide_eq_true_2 by done. by apply spec_ret.
Qed.

Lemma recover_journal_still cs :
  length cs = length targets ->
  (forall i t c, targets !! i = Some t -> cs !! i = Some c -> c = t_old t)
  \/ (forall i t c, targets !! i = Some t -> cs !! i = Some c -> c = t_new t) ->
  kspec (held cs) (recover_journal faults kept sha256_hex root (the_journal true false)).
Proof.
  intros Hlen Hcs. unfold recover_journal. cbn [the_journal j_completed j_committed negb].
  eapply spec_bind.
  { eapply spec_conseq; [apply (live_hashes_spec (held cs) cs (fun _ => False))|done| |..].
    - intros x y Hv (H1 & H2 & H3). split_and!; [|by eapply view_framed|by eapply view_holding].
      unfold still in *. by destruct Hv as (_ & -> & _).
    - intros d (_ & ? & ?). done.
    - intros L d [Hd HL]. exact (conj (proj1 Hd) HL).
    - by intros e d [].
    - by intros d [[? _] _]. }
  intros L. apply spec_pure. intros ->. cbn [j_entries]. destruct (forallb _ _) eqn:Hall.
  { apply clean_up_still. }
  eapply (spec_bind _ _ _ (fun _ => still)); [|intros k; apply clean_up_still].
  apply restore_all_still. destruct Hcs as [?|Hcs]; [done|]. exfalso.
  apply Bool.not_true_iff_false in Hall. apply Hall, all_post_spec; [done|].
  intros i t c Ht Hc. by rewrite (Hcs i t c Ht Hc).
Qed.

Lemma recover_still :
  kspec (fun d => still d /\ recoverable d /\ (all_old d \/ all_new d)) recover.
Proof.
  intros d (Hs & Hr & Hall). apply recoverable_known in Hr as [Hf Hj]. unfold journal_is in Hj.
  unfold recover_locked, bind at 1, journal_file_exists, gets. fold (jfile d journal_json).
  destruct (jfile d journal_json) as [b|] eqn:Hb.
  - rewrite bool_decide_eq_true_2 by eauto. cbn [negb].
    destruct Hj as (j & Hjb & Hj). unfold bind at 1, journal_read, disk_op.
    destruct (faults (d_clock d) KRead); [|done..]. unfold jfile in Hb. simpl. rewrite Hb. simpl.
    rewrite Hjb. unfold bind, ok_or. simpl.
    assert (exists cs, length cs = length targets /\ held cs (tick d) /\
      ((forall i t c, targets !! i = Some t -> cs !! i = Some c -> c = t_old t)
       \/ (forall i t c, targets !! i = Some t -> cs !! i = Some c -> c = t_new t))) as (cs & Hlen & Hh & Hcs).
    { assert (forall f : Target -> list Z, Forall (fun t => at_ d t (f t)) targets ->
        held (f <$> targets) (tick d)) as Hheld.
      { intros f Hall'. split_and!; [done..|]. split; [apply length_fmap|]. intros i t c Ht Hc.
        rewrite list_lookup_fmap, Ht in Hc. injection Hc as <-. by eapply Forall_lookup_1 in Hall'. }
      destruct Hall as [Ho|Hn].
      - exists (t_old <$> targets). split_and!; [apply length_fmap|by apply Hheld|]. left.
        intros i t c Ht Hc. rewrite list_lookup_fmap, Ht in Hc. by injection Hc.
      - exists ((fun t => t_new t) <$> targets). split_and!; [apply length_fmap|by apply Hheld|]. right.
        intros i t c Ht Hc. rewrite list_lookup_fmap, Ht in Hc. by injection Hc. }
    destruct (j_completed j) eqn:Hc; [unfold recover_journal; rewrite Hc; by apply clean_up_still|].
    destruct Hj as [Hu|[Hu| ->]]; [|done|by apply (recover_journal_still cs)].
    unfold recover_journal. rewrite Hc, Hu. by apply clean_up_still.
  - rewrite bool_decide_eq_false_2 by (intros [? ?]; done). simpl.
    unfold bind at 1, journal_exists, gets. case_bool_decide; [by apply clean_up_still|done].
Qed.
End Settled.
End Recovery.
End Rollback.
End Phases.

#[export] Hint Resolve view_before_commit view_saving view_committed view_publishing view_rolling
  : quiet.
