(* ===== verification/EditJournalSpec.v ===== *)
(** What publication promises: a single file is created or deleted exactly as
    planned; a transaction is published as a whole or not at
    all, whatever fails and wherever the process stops, once recovery has run
    to its end; and three ways in which it does not keep that promise. *)

From S2P Require Import Prelude CoreError RustStr EditFs EditJournal EditTriple EditJournalFacts.
#[local] Open Scope string_scope.
#[local] Open Scope list_scope.
#[local] Open Scope Z_scope.

(** ** The setting *)

Definition no_faults (_ : nat) (_ : op_kind) : fault := NoFault.

(** A restore that fails has not begun to write. *)
Definition whole_restores (faults : nat -> op_kind -> fault) : Prop :=
  forall n k, faults n KRestore <> IoFault (S k) /\ faults n KRestore <> Stop (S k).
(** Reading a file that is there does not fail. *)
Definition reads_work (faults : nat -> op_kind -> fault) : Prop :=
  forall n k, faults n KRead <> IoFault k.

Section Setting.
Context (sha256_hex : list Z -> string) (to_json : Journal -> list Z)
        (from_json : list Z -> option Journal) (root : string).

(** A transaction on plain files of a workspace without an unfinished journal;
    the codec is a codec, and the hash tells each pair of contents apart. *)
Record transaction (d0 : Disk) (targets : list Target) : Prop := mkTransaction {
  tr_json : forall j, from_json (to_json j) = Some j;
  tr_plain : Forall (plain_target root d0) targets;
  tr_distinct : NoDup (t_key <$> targets);
  tr_idle : journal_is (idle from_json) d0;
  tr_hash : Forall (fun t => sha256_hex (t_old t) = sha256_hex (t_new t) -> t_old t = t_new t) targets }.

(** Recoveries, each under a schedule of its own, each ending in any way. *)
Inductive recoveries : Disk -> Disk -> Prop :=
| no_more d : recoveries d d
| one_more faults kept r d d' d'' :
    whole_restores faults -> reads_work faults ->
    recover_locked faults kept sha256_hex from_json root d = (r, d') ->
    recoveries d' d'' -> recoveries d d''.

Lemma transaction_start d0 targets :
  transaction d0 targets -> before_commit from_json d0 targets d0.
Proof.
  intros [_ Hp _ Hi _]. split_and!; [done| |done].
  eapply List.Forall_impl; [|exact Hp]. by intros t (_ & _ & Ht).
Qed.

Section Runs.
Context (tx : string) (d0 : Disk) (targets : list Target) (Htr : transaction d0 targets).
#[local] Abbreviation recoverable := (recoverable sha256_hex to_json from_json tx d0 targets).

Lemma recover_step faults kept r d d' :
  whole_restores faults -> reads_work faults -> recoverable d ->
  recover_locked faults kept sha256_hex from_json root d = (r, d') ->
  recoverable d' /\ (all_old targets d -> all_old targets d') /\ (all_new targets d -> all_new targets d').
Proof.
  intros Hw Hr Hd Heq. destruct Htr as [Hj Hp Hdis _ Hh]. split.
  - pose proof (recover_spec faults kept sha256_hex to_json from_json root tx d0 targets Hj Hp Hdis True
      (fun _ _ _ => I) Hw Hr Hh d Hd) as H. rewrite Heq in H. unfold recovered in H.
    destruct r; apply H.
  - assert (all_old targets d \/ all_new targets d -> d_nodes d' = d_nodes d) as Hstill.
    { intros Hall. pose proof (recover_still faults kept sha256_hex to_json from_json root tx d0 targets
        Hj Hp True (fun _ _ _ => I) Hr (d_nodes d) d (conj eq_refl (conj Hd Hall))) as H.
      rewrite Heq in H. by destruct r. }
    split; intros Hall; (eapply List.Forall_impl; [|exact Hall]); intros t; unfold at_; simpl;
      (rewrite Hstill; [done|auto]).
Qed.

Lemma recoveries_step d d' :
  recoveries d d' -> recoverable d ->
  recoverable d' /\ (all_old targets d -> all_old targets d') /\ (all_new targets d -> all_new targets d').
Proof.
  induction 1 as [d|faults kept r d d1 d2 Hw Hr Heq Hrest IH]; intros Hd; [done|].
  destruct (recover_step faults kept r d d1 Hw Hr Hd Heq) as (H1 & H2 & H3).
  destruct (IH H1) as (H4 & H5 & H6). auto.
Qed.

(** Without faults recovery comes to its end. *)
Lemma recover_ends kept d :
  recoverable d -> exists rep d',
  recover_locked no_faults kept sha256_hex from_json root d = (Ok rep, d')
  /\ d_journal d' = None /\ framed d0 targets d'
  /\ (all_old targets d' \/ all_new targets d')
  /\ (all_old targets d -> all_old targets d') /\ (all_new targets d -> all_new targets d').
Proof.
  intros Hd. destruct (recover_locked no_faults kept sha256_hex from_json root d) as [r d'] eqn:Heq.
  destruct (recover_step no_faults kept r d d') as (_ & H5 & H6); [done..|].
  destruct Htr as [Hj Hp Hdis _ Hh].
  pose proof (recover_spec no_faults kept sha256_hex to_json from_json root tx d0 targets Hj Hp Hdis
    False (fun n k H => H eq_refl)) as H. specialize (H ltac:(done) ltac:(done) Hh d Hd).
  rewrite Heq in H. destruct r as [rep|e|]; [|by destruct H..].
  destruct H as [(H1 & H2 & H3) [H4|[]]]. exists rep, d'. split_and!; try done.
  by destruct (recoverable_known sha256_hex to_json from_json tx d0 targets Hj d' H1).
Qed.
End Runs.

(** C3: All or nothing, as long as no pre-image is restored in part.  A
    transaction is started on plain files of the workspace, with no earlier
    transaction pending; any disk operation of it may fail or stop the process,
    but a restore writes all or nothing.  Any number of recoveries may be
    stopped or fail in turn, again without a torn restore and with reads that
    work.  Then a recovery in which nothing fails succeeds, removes the
    journal, changes nothing but the targets, and leaves either every target
    with its old content or every target with its new one: the new ones when
    the publication had reported success, the old ones when it had reported
    any error but an incomplete rollback.  (The journal's codec is lossless
    and the hash tells the two contents of each target apart.) *)
Theorem journal_all_or_nothing faults kept tx d0 targets r d1 d2 kept' :
  transaction d0 targets -> whole_restores faults ->
  publish_journal_locked faults kept sha256_hex to_json root tx (t_file <$> targets) d0 = (r, d1) ->
  recoveries d1 d2 ->
  exists rep d3,
    recover_locked no_faults kept' sha256_hex from_json root d2 = (Ok rep, d3)
    /\ d_journal d3 = None /\ framed d0 targets d3
    /\ (all_old targets d3 \/ all_new targets d3)
    /\ (r = Ok tt -> all_new targets d3)
    /\ (forall e, r = Err e -> e <> rollback_incomplete -> all_old targets d3).
Proof.
  intros Htr Hw Hpub Hrec. pose proof (transaction_start d0 targets Htr) as Hstart.
  pose proof Htr as [Hj Hp Hdis _ Hh].
  pose proof (publish_spec faults kept sha256_hex to_json from_json root tx d0 targets Hj Hp Hdis True
    (fun _ _ _ => I) Hw (fun _ => I) d0 Hstart) as Hs. rewrite Hpub in Hs.
  assert (recoverable sha256_hex to_json from_json tx d0 targets d1
    /\ (r = Ok tt -> all_new targets d1)
    /\ (forall e, r = Err e -> e <> rollback_incomplete -> all_old targets d1)) as (H1 & H2 & H3).
  { destruct r as [[]|e|]; [destruct Hs as [[Hs _] _]|destruct Hs as [[Hs Hs'] _]|destruct Hs as [Hs _]].
    - split_and!; [by right; left|intros _; apply Hs|done].
    - split_and!; [done..|]. intros e' [= <-] Hne. by destruct Hs'.
    - done. }
  destruct (recoveries_step tx d0 targets Htr d1 d2 Hrec H1) as (H4 & H5 & H6).
  destruct (recover_ends tx d0 targets Htr kept' d2 H4) as (rep & d3 & H7 & H8 & H9 & H10 & H11 & H12).
  exists rep, d3. split_and!; eauto.
Qed.

Lemma quiet_foldM {A B} (f : B -> A -> FS B) (l : list A) b :
  (forall b x, quiet (f b x)) -> quiet (foldM f b l).
Proof.
  intros Hf. revert b. induction l as [|x l IH]; intros b; cbn [foldM]; eauto with quiet.
Qed.

(** C4: When a target no longer has the planned hash, nothing at all is written,
    not even a journal, under any schedule; when all have and no operation
    fails, the publication succeeds: every target has its new content, nothing
    else has changed and no journal is left. *)
Theorem publish_exact faults kept tx d0 targets :
  transaction d0 targets ->
  let '(r, d1) := publish_journal_locked faults kept sha256_hex to_json root tx (t_file <$> targets) d0 in
  (~ Forall (hash_matches sha256_hex) targets -> r <> Ok tt /\ same_view d0 d1)
  /\ (Forall (hash_matches sha256_hex) targets -> (forall n k, faults n k = NoFault) ->
      r = Ok tt /\ all_new targets d1 /\ framed d0 targets d1 /\ d_journal d1 = None).
Proof.
  intros Htr. pose proof (transaction_start d0 targets Htr) as Hstart.
  pose proof Htr as [Hj Hp Hdis _ Hh].
  destruct (publish_journal_locked _ _ _ _ _ _ _ d0) as [r d1] eqn:Hpub. split.
  - intros Hmis. unfold publish_journal_locked, bind at 1 in Hpub.
    pose proof (check_all_spec faults sha256_hex from_json root d0 targets Hp True
      (fun _ _ _ => I) (fun _ => I) d0 Hstart) as Hc.
    assert (quiet (forM (t_file <$> targets) (check_live faults sha256_hex root))) as Hq.
    { apply quiet_foldM. intros [] f. unfold check_live. eauto with quiet. }
    destruct (forM _ _ d0) as [[a|e|] d'] eqn:Hrun; [by destruct Hc|..];
      injection Hpub as <- <-; (split; [done|]); by eapply Hq.
  - intros Hall Hnf.
    pose proof (publish_spec faults kept sha256_hex to_json from_json root tx d0 targets Hj Hp Hdis False
      (fun n k H => H (Hnf n k))) as Hs.
    specialize (Hs ltac:(intros n k; rewrite Hnf; done) (fun H => H Hall) d0 Hstart).
    rewrite Hpub in Hs. destruct r as [[]|e|]; [|by destruct Hs..].
    destruct Hs as [[(Hf & Hn & _) _] [Hs|[]]]. done.
Qed.
End Setting.

(** ** A concrete workspace *)

Module Sample.
Definition hash (b : list Z) : string :=
  fold_right (fun z s => String (Ascii.ascii_of_N (Z.to_N z)) s) "h" b.

Definition flat (j : Journal) :=
  (j_schema_version j, j_transaction_id j, j_committed j, j_completed j,
   (fun e => (je_rel_path e, je_pre_image_file e, je_pre_sha256 e, je_post_sha256 e)) <$> j_entries j).
Definition unflat (x : string * string * bool * bool * list (string * string * string * string)) :=
  let '(v, t, a, b, es) := x in
  mkJournal v t a b ((fun '(p, q, r, s) => mkEntry p q r s) <$> es).
Definition to_json (j : Journal) : list Z := [Z.pos (encode (flat j))].
Definition from_json (l : list Z) : option Journal :=
  match l with [Z.pos p] => unflat <$> decode p | _ => None end.

Lemma json_ok j : from_json (to_json j) = Some j.
Proof.
  unfold from_json, to_json. rewrite decode_encode. simpl. f_equal. destruct j as [v t a b es]. simpl.
  f_equal. rewrite <-list_fmap_compose. transitivity (id <$> es); [|apply list_fmap_id].
  apply list_fmap_ext. by intros i [].
Qed.

Definition disk (a b c : list Z) : Disk :=
  mkDisk (fun p => if bool_decide (p = "/w") then Some "/w" else None)
    (<["/w/a" := FileNode a 420 1]> (<["/w/b" := FileNode b 420 1]> {["/w/c" := FileNode c 420 1]}))
    None [] 0.
Definition edit (name : string) (old new : list Z) : Target :=
  mkTarget (mkPublication name (hash old) new) ("/w/" +:+ name) old 420.

Definition d0 : Disk := disk [1] [2] [3].
Definition both : list Target := [edit "a" [1] [11]; edit "b" [2] [12]].

Lemma both_ok : transaction hash to_json from_json "/w" d0 both.
Proof.
  split; [apply json_ok| | |done|].
  - repeat constructor; try by eexists; vm_compute.
  - apply (bool_decide_unpack _). by vm_compute.
  - by repeat constructor.
Qed.

(** The schedule that stops the process, or fails, at one operation. *)
Definition at_op (n : nat) (f : fault) (i : nat) (_ : op_kind) : fault :=
  if (i =? n)%nat then f else NoFault.
Definition everything (_ : string) : bool := true.

Definition publish (faults : nat -> op_kind -> fault) (tx : string) (ts : list Target) :=
  publish_journal_locked faults everything hash to_json "/w" tx (t_file <$> ts).
Definition recover (faults : nat -> op_kind -> fault) :=
  recover_locked faults everything hash from_json "/w".
Definition contents (d : Disk) : list (option (list Z)) :=
  (fun k => match d_nodes d !! k with Some (FileNode b _ _) => Some b | _ => None end)
    <$> ["/w/a"; "/w/b"; "/w/c"].
End Sample.

(** The process stops between the two files, a recovery stops too, the next
    one ends with both old. *)
Lemma journal_all_or_nothing_witness :
  exists d1 d2 rep d3,
    Sample.publish (Sample.at_op 23 (Stop 0)) "t1" Sample.both Sample.d0 = (Panic, d1)
    /\ Sample.contents d1 = [Some [11]; Some [2]; Some [3]]
    /\ recoveries Sample.hash Sample.from_json "/w" d1 d2
    /\ Sample.recover no_faults d2 = (Ok rep, d3)
    /\ (all_old Sample.both d3 \/ all_new Sample.both d3)
    /\ Sample.contents d3 = [Some [1]; Some [2]; Some [3]].
Proof.
  destruct (Sample.publish (Sample.at_op 23 (Stop 0)) "t1" Sample.both Sample.d0) as [r d1] eqn:H1.
  destruct (Sample.recover (Sample.at_op 29 (Stop 0)) d1) as [r2 d2] eqn:H2.
  assert (whole_restores (Sample.at_op 23 (Stop 0))) as Hw.
  { intros n k. unfold Sample.at_op. by destruct (n =? 23)%nat. }
  assert (recoveries Sample.hash Sample.from_json "/w" d1 d2) as Hrec.
  { eapply (one_more _ _ _ (Sample.at_op 29 (Stop 0)) Sample.everything r2); [..|exact H2|constructor].
    - intros n k. unfold Sample.at_op. by destruct (n =? 29)%nat.
    - intros n k. unfold Sample.at_op. by destruct (n =? 29)%nat. }
  destruct (journal_all_or_nothing Sample.hash Sample.to_json Sample.from_json "/w"
    (Sample.at_op 23 (Stop 0)) Sample.everything "t1" Sample.d0 Sample.both r d1 d2 Sample.everything
    Sample.both_ok Hw H1 Hrec) as (rep & d3 & H3 & _ & _ & H4 & _).
  exists d1, d2, rep, d3. vm_compute in H1. injection H1 as <- <-. vm_compute in H2. injection H2 as <- <-.
  split_and!; [done|done|done|done|done|]. vm_compute in H3. by injection H3 as <- <-.
Defined.

Lemma publish_exact_witness :
  exists d1, Sample.publish no_faults "t1" Sample.both Sample.d0 = (Ok tt, d1)
    /\ all_new Sample.both d1 /\ d_journal d1 = None.
Proof.
  pose proof (publish_exact Sample.hash Sample.to_json Sample.from_json "/w" no_faults Sample.everything
    "t1" Sample.d0 Sample.both Sample.both_ok) as H.
  unfold Sample.publish. destruct (publish_journal_locked _ _ _ _ _ _ _ _) as [r d1].
  destruct H as [_ H]. destruct H as (-> & H1 & _ & H2); [by repeat constructor|done|]. by exists d1.
Defined.

(** ** Where the promise is not kept *)

(** Where the promise ends, on concrete runs.  (1) A publication does not
    look for a journal left behind, it replaces and then removes it: after a
    stop between two files and a later transaction on a third one, recovery
    reports that there is nothing to do and the first transaction stays half
    published.  (2) Pre-images are written back in place: after a stop within
    such a write the file has neither content and recovery refuses from then
    on.  (3) Recovery meets a file that was edited in between only after it has
    restored others: all files were published when the process stopped, the
    second was edited since, and the refusal leaves the first one put back. *)
Theorem journal_limits :
  (exists d1 d2 rep d3,
    Sample.publish (Sample.at_op 23 (Stop 0)) "t1" Sample.both Sample.d0 = (Panic, d1)
    /\ Sample.publish no_faults "t2" [Sample.edit "c" [3] [13]] d1 = (Ok tt, d2)
    /\ Sample.recover no_faults d2 = (Ok rep, d3) /\ rr_found_journal rep = false
    /\ Sample.contents d3 = [Some [11]; Some [2]; Some [13]])
  /\ (exists d1 d2 d3 e,
    Sample.publish (Sample.at_op 23 (Stop 0)) "t1" Sample.both Sample.d0 = (Panic, d1)
    /\ Sample.recover (Sample.at_op 28 (Stop 1)) d1 = (Panic, d2)
    /\ Sample.recover no_faults d2 = (Err e, d3)
    /\ Sample.contents d3 = [Some []; Some [2]; Some [3]])
  /\ (exists d1 e d2,
    Sample.publish (Sample.at_op 29 (Stop 0)) "t1" Sample.both Sample.d0 = (Panic, d1)
    /\ Sample.contents d1 = [Some [11]; Some [12]; Some [3]]
    /\ Sample.recover no_faults (put_content "/w/b" [22] d1) = (Err e, d2)
    /\ Sample.contents d2 = [Some [1]; Some [22]; Some [3]]).
Proof.
  split; [|split]; [do 4 eexists|do 4 eexists|do 3 eexists];
    (split_and!; [by vm_compute..|vm_compute; reflexivity]).
Qed.

(** ** Single files *)

(** Directories may have been added, nothing else has changed. *)
Definition grown (d d' : Disk) : Prop :=
  d_nodes d ⊆ d_nodes d' /\ d_journal d' = d_journal d /\ d_temps d' = d_temps d
  /\ forall key n, d_nodes d' !! key = Some n -> d_nodes d !! key = Some n \/ n = DirNode 2.
Definition grows {A} (m : FS A) : Prop := forall d r d', m d = (r, d') -> grown d d'.

#[export] Instance grown_preorder : PreOrder grown.
Proof.
  split; [intros d; split_and!; auto|]. intros a b c (?&?&?&Hb) (?&?&?&Hc).
  split_and!; [by etrans|congruence|congruence|]. intros key n Hn.
  destruct (Hc key n Hn) as [H'|]; auto.
Qed.

Lemma grown_tick d : grown d (tick d).
Proof. split_and!; auto. Qed.

Lemma grows_bind {A B} (m : FS A) (k : A -> FS B) :
  grows m -> (forall a, grows (k a)) -> grows (bind m k).
Proof.
  intros Hm Hk d r d'. unfold bind. destruct (m d) as [[a|e|] d1] eqn:H1; intros H;
    [etransitivity; [by eapply Hm|by eapply Hk]|..]; simplify_eq; by eapply Hm.
Qed.
Lemma grows_still {A} (m : FS A) : (forall d, (m d).2 = d) -> grows m.
Proof. intros Hm d r d' H. specialize (Hm d). rewrite H in Hm. simpl in Hm. by subst. Qed.
Lemma grows_op {A} faults kind partial (act : FS A) :
  grows act -> (forall k d, grown d (partial k d)) -> grows (disk_op faults kind partial act).
Proof.
  intros Hact Hp d r d'. unfold disk_op. destruct (faults _ _); intros H.
  - etransitivity; [apply grown_tick|by eapply Hact].
  - simplify_eq. etransitivity; [apply grown_tick|apply Hp].
  - simplify_eq. etransitivity; [apply grown_tick|apply Hp].
Qed.

Lemma make_dirs_grow dirs d : grown d (make_dirs dirs d).2.
Proof.
  revert d. induction dirs as [|dir dirs IH]; intros d; cbn [make_dirs]; [done|].
  destruct (d_nodes d !! dir) eqn:Hd; [done|]. etransitivity; [|apply IH]. clear IH.
  split_and!; [|done|done|].
  - by apply insert_subseteq.
  - intros key n. simpl. destruct (decide (key = dir)) as [->|Hk];
      [rewrite lookup_insert_eq|rewrite lookup_insert_ne by done]; intros; simplify_eq; auto.
Qed.

Lemma create_dir_all_grows faults dir : grows (create_dir_all faults dir).
Proof.
  apply grows_op.
  - intros d r d' H. destruct (nearest _ _ d) as [[base names]|]; [|by simplify_eq].
    destruct (is_file base d); [by simplify_eq|]. pose proof (make_dirs_grow (paths_below base names) d) as Hg.
    by rewrite H in Hg.
  - intros k d. destruct (nearest _ _ d) as [[base names]|]; [|done].
    destruct (is_file base d); [done|]. apply make_dirs_grow.
Qed.

Lemma ok_or_still {A} (o : option A) e (d : Disk) : (ok_or (E := Error) o e d).2 = d.
Proof. by destruct o. Qed.
Lemma guard_still b e (d : Disk) : (guard (E := Error) b e d).2 = d.
Proof. by destruct b. Qed.

Lemma require_new_grows faults root path : grows (require_new_inside_workspace faults root path).
Proof.
  unfold require_new_inside_workspace, canonicalize.
  repeat (apply grows_bind; [|intros ?]);
    try (apply grows_still; intros d; first [done | by apply ok_or_still | by apply guard_still]).
  apply grows_op; [|done]. apply grows_still. intros d. by repeat case_match.
Qed.

(** What the check has seen when it accepts a path. *)
Lemma require_new_ok faults root path d key d' :
  require_new_inside_workspace faults root path d = (Ok key, d') ->
  d_nodes d' = d_nodes d /\ d_nodes d !! key = None
  /\ exists croot, d_canonical d root = Some croot /\ path_starts_with key croot = true.
Proof.
  unfold require_new_inside_workspace, canonicalize, disk_op. intros H. run_inv.
  destruct (faults _ _); [|done..]. destruct (_ !! _) eqn:Hn in H; [done|].
  destruct (is_file _ _); [done|]. injection H as <- <-. eauto.
Qed.

(** The file appears whole and under its name only when nothing has it; a
    failure takes the temporary file away. *)
Lemma create_tail_spec faults content (h : string) key (perms : option Z) d :
  match (tempfile_in faults ;;;
         with_tempfile (
           tempfile_write faults content ;;;
           (if perms is Some _ then tempfile_touch faults else ret tt) ;;;
           tempfile_touch faults ;;;
           tempfile_persist_noclobber faults key (default 384 perms)) ;;;
         ret h) d with
  | (Ok h', d') => h' = h /\ d_nodes d !! key = None
      /\ d_nodes d' = <[key := FileNode content (default 384 perms) 1]> (d_nodes d)
      /\ d_journal d' = d_journal d /\ d_temps d' = d_temps d
  | (Err _, d') => d_nodes d' = d_nodes d /\ d_journal d' = d_journal d /\ d_temps d' = d_temps d
  | (Panic, d') => d_nodes d' = d_nodes d /\ d_journal d' = d_journal d
  end.
Proof.
  unfold bind, with_tempfile, tempfile_in, tempfile_write, tempfile_touch,
    tempfile_persist_noclobber, disk_op, ret.
  destruct (faults _ KCreateDir); [|done..].
  destruct (faults _ KWrite); [|done..].
  destruct perms as [perm|]; [destruct (faults _ KWrite); [|done..]|];
    (destruct (faults _ KWrite); [|done..]); (destruct (faults _ KRename); [|done..]);
    simpl; by destruct (d_nodes d !! key) eqn:Hk.
Qed.

Lemma nearest_here rcs names base d :
  d_canonical d (path_of (rev rcs)) = Some base -> nearest rcs names d = Some (base, names).
Proof. intros H. destruct rcs; cbn [nearest]; unfold real_path; by rewrite H. Qed.

Lemma parent_components path name :
  file_name path = Some name ->
  exists up, rev (components path) = Normal name :: up /\ path_of (rev up) = parent path.
Proof.
  unfold file_name, parent. intros H. destruct (last (components path)) as [[]|] eqn:Hl; simplify_eq.
  apply last_Some in Hl as [cs Hcs]. exists (rev cs). rewrite Hcs, rev_app_distr, rev_involutive.
  split; [done|]. rewrite length_app, Nat.add_sub. by rewrite take_app_length.
Qed.

(** In a directory that exists, a new name inside the workspace is created
    when nothing fails. *)
Lemma create_succeeds sha256_hex faults root path content perms croot dir name d0 :
  (forall n k, faults n k = NoFault) ->
  d_canonical d0 root = Some croot -> d_canonical d0 (parent path) = Some dir ->
  file_name path = Some name ->
  d_canonical d0 dir = Some dir -> path_of (components dir) = dir -> parent (path_join dir name) = dir ->
  path_starts_with (path_join dir name) croot = true ->
  d_nodes d0 !! path_join dir name = None -> is_file dir d0 = false ->
  exists d1,
    publish_create_atomic faults sha256_hex root path content perms d0
      = (Ok (sha256_hex content), d1)
    /\ d_nodes d1 = <[path_join dir name := FileNode content (default 384 perms) 1]> (d_nodes d0)
    /\ d_temps d1 = d_temps d0.
Proof.
  intros Hnf Hroot Hdir Hname Hcan Htext Hpar Hin Hnew Hfile.
  assert (forall d, d_canonical d = d_canonical d0 -> d_nodes d = d_nodes d0 ->
    require_new_inside_workspace faults root path d = (Ok (path_join dir name), tick d)) as Hreq.
  { intros d Hc Hn. destruct (parent_components _ _ Hname) as (up & Hrev & Hup).
    unfold require_new_inside_workspace, canonicalize, bind, gets, guard, disk_op.
    rewrite Hc, Hroot, Hrev. cbn [ok_or ret]. rewrite (nearest_here _ _ dir) by by rewrite Hup, Hc.
    rewrite Hname. cbn [ok_or ret fst snd foldl]. unfold ret. rewrite Hin. simpl. rewrite Hnf. unfold is_file in *. simpl.
    by rewrite Hn, Hnew, Hfile. }
  assert (create_dir_all faults dir (tick d0) = (Ok tt, tick (tick d0))) as Hmk.
  { unfold create_dir_all, disk_op. rewrite Hnf, (nearest_here _ _ dir) by (by rewrite rev_involutive, Htext).
    change (is_file dir (tick (tick d0))) with (is_file dir d0). by rewrite Hfile. }
  unfold publish_create_atomic, bind at 1. rewrite Hreq by done. unfold bind at 1. rewrite Hpar, Hmk.
  unfold bind at 1. rewrite Hreq by done. rewrite bool_decide_eq_true_2 by done.
  unfold guard, bind, with_tempfile, tempfile_in, tempfile_write, tempfile_touch,
    tempfile_persist_noclobber, disk_op, ret.
  rewrite !Hnf. destruct perms; rewrite ?Hnf; simpl; rewrite Hnew; simpl; eauto.
Qed.

(** The outcomes of a creation. *)
Lemma create_outcome sha256_hex faults root path content perms d0 :
  let '(r, d1) := publish_create_atomic faults sha256_hex root path content perms d0 in
  d_nodes d0 ⊆ d_nodes d1 /\ d_journal d1 = d_journal d0
  /\ match r with
     | Ok h => h = sha256_hex content /\ d_temps d1 = d_temps d0
         /\ exists key croot, d_canonical d0 root = Some croot /\ path_starts_with key croot = true
            /\ d_nodes d0 !! key = None
            /\ d_nodes d1 !! key = Some (FileNode content (default 384 perms) 1)
            /\ grown d0 (set_nodes (delete key (d_nodes d1)) d1)
     | Err _ => grown d0 d1
     | Panic => forall key n, d_nodes d1 !! key = Some n -> d_nodes d0 !! key = Some n \/ n = DirNode 2
     end.
Proof.
  unfold publish_create_atomic, bind at 1.
  destruct (require_new_inside_workspace _ _ _ d0) as [[key|e|] d] eqn:H1;
    pose proof (require_new_grows _ _ _ _ _ _ H1) as G1; [|by destruct G1 as (?&?&?&?)..].
  apply require_new_ok in H1 as (_ & Hnew & croot & Hroot & Hin).
  unfold bind at 1. destruct (create_dir_all _ _ d) as [[[]|e|] d'] eqn:H2;
    pose proof (create_dir_all_grows _ _ _ _ _ H2) as G2; [|by assert (grown d0 d') as (?&?&?&?) by by etrans..].
  unfold bind at 1. destruct (require_new_inside_workspace _ _ _ d') as [[key'|e|] d2] eqn:H3;
    pose proof (require_new_grows _ _ _ _ _ _ H3) as G3;
    assert (grown d0 d2) as G by (by etrans; [exact G1|etrans]); clear G1 G2 G3; [|by destruct G as (?&?&?&?)..].
  unfold bind at 1, guard. destruct (bool_decide (key' = key)); [|by destruct G as (?&?&?&?)].
  cbn [ret]. pose proof (create_tail_spec faults content (sha256_hex content) key perms d2) as Ht.
  unfold ret at 1. destruct (bind _ _ d2) as [[h|e|] d1]; destruct G as (Gn & Gj & Gt & Gd).
  - destruct Ht as (-> & Hk & Hn & Hj & Ht). rewrite Hn, Hj, Ht. split_and!; [|done..|].
    { etrans; [exact Gn|]. by apply insert_subseteq. }
    exists key, croot. rewrite lookup_insert_eq. split_and!; try done.
    unfold grown. simpl. by rewrite delete_insert_id, Hj, Ht.
  - destruct Ht as (Hn & Hj & Ht). unfold grown. by rewrite Hn, Hj, Ht.
  - destruct Ht as (Hn & Hj). by rewrite Hn, Hj.
Qed.


(** Deleting a file, under any schedule: it is gone exactly when success is
    reported, and then it was a regular file with one link inside the workspace
    that had the planned hash; nothing else is touched. *)
Theorem delete_exact sha256_hex faults root path expected d0 :
  let '(r, d1) := publish_delete_atomic faults sha256_hex root path expected d0 in
  d_journal d1 = d_journal d0 /\ d_temps d1 = d_temps d0
  /\ match r with
     | Ok _ => exists key croot content mode nlink,
         d_canonical d0 root = Some croot /\ path_starts_with key croot = true
         /\ resolve path d0 = Some key
         /\ d_nodes d0 !! key = Some (FileNode content mode nlink) /\ nlink <= 1
         /\ sha256_hex content = expected
         /\ d_nodes d1 = delete key (d_nodes d0)
     | _ => d_nodes d1 = d_nodes d0
     end.
Proof.
  unfold publish_delete_atomic, require_inside_workspace, canonicalize, read_key, stat_key, disk_op,
    bind, gets, guard, ok_or, ret, throw.
  destruct (d_canonical d0 root) as [croot|] eqn:Hroot; [|done].
  destruct (d_canonical d0 (parent path)) as [dir|] eqn:Hdir; [|done].
  destruct (file_name path) as [name|] eqn:Hname; [|done].
  destruct (path_starts_with _ croot) eqn:Hin; [|done].
  destruct (faults _ _); [|done..]. simpl.
  destruct (d_nodes d0 !! _) as [[content mode nlink| |nlink]|] eqn:Hn; try done; simpl;
    (destruct (nlink <=? 1) eqn:Hl; [|done]); simpl; (destruct (faults _ _); [|done..]); simpl;
    rewrite Hn; try done.
  destruct (bool_decide _) eqn:Hh; [|done]. apply bool_decide_eq_true in Hh.
  destruct (faults _ _); [|done..]. simpl. split_and!; try done.
  exists (path_join dir name), croot, content, mode, nlink. unfold resolve. rewrite Hdir, Hname.
  split_and!; try done. lia.
Qed.

(** Two missing directories are made on the way; a file in the way of a
    directory, a target that exists and a path out of the workspace are
    refused, and a stop while the first directory is there leaves no file. *)
Definition created (faults : nat -> op_kind -> fault) (path : string) : res Error string * gmap string Node :=
  let '(r, d1) := publish_create_atomic faults Sample.hash "/w" path [7] None
    (set_canonical (fun p => if decide (p ∈ ["/"; "/w"]) then Some p else None) Sample.d0) in
  (r, d_nodes d1).

Example create_samples :
  created no_faults "/w/x/y/n" =
    (Ok (Sample.hash [7]), <["/w/x/y/n" := FileNode [7] 384 1]> (<["/w/x/y" := DirNode 2]>
       (<["/w/x" := DirNode 2]> (d_nodes Sample.d0))))
  /\ (created no_faults "/w/a/n").1 = Err (Io "/w/a/n" "NotADirectory")
  /\ (created no_faults "/w/a").1 = Err (Workspace "creation target /w/a already exists; nothing written")
  /\ (created no_faults "/v/n").1 = Err (Workspace "path escapes workspace")
  /\ created (Sample.at_op 1 (Stop 1)) "/w/x/y/n" =
    (Panic, <["/w/x" := DirNode 2]> (d_nodes Sample.d0)).
Proof. split_and!; vm_compute; reflexivity. Qed.
