(* ===== verification/EditLock.v ===== *)
(** The workspace lock of the editor (crates/edit/src/journal.rs): a file made
    with exclusive creation, whose text names its owner's pid and a token.

    Processes act in any interleaving; a step is one call on the file system or
    one probe for a live process.  A process dies at any step without cleaning
    up.  Reading [std::fs::metadata] gives one bit, whether the file is older
    than the time limit. *)

From S2P Require Import Prelude RustStr.
From Stdlib Require Import Ascii DecimalString DecimalNat DecimalN.
#[local] Open Scope string_scope.
#[local] Open Scope list_scope.

(** ** The text of the lock file *)

Definition is_newline (c : ascii) : bool := Ascii.eqb c (Ascii.ascii_of_nat 10).
Definition newline : string := String (Ascii.ascii_of_nat 10) "".

(** [str::lines]: a final newline ends the last line; a carriage return before
    the newline is dropped. *)
Definition strip_cr (s : string) : string :=
  match last_char s with
  | Some c => if Ascii.eqb c (Ascii.ascii_of_nat 13)
              then String.substring 0 (String.length s - 1) s else s
  | None => s
  end.
Definition lines (s : string) : list string :=
  let pieces := split is_newline s in
  strip_cr <$> (if bool_decide (last pieces = Some "") then take (length pieces - 1) pieces else pieces).

(** [str::trim], for ASCII text. *)
Definition is_whitespace (c : ascii) : bool :=
  let n := Ascii.nat_of_ascii c in ((9 <=? n) && (n <=? 13) || (n =? 32))%nat.
Fixpoint trim_start (s : string) : string :=
  match s with
  | String c s' => if is_whitespace c then trim_start s' else s
  | EmptyString => ""
  end.
Fixpoint trim_end (s : string) : string :=
  match s with
  | String c s' =>
      match trim_end s' with
      | EmptyString => if is_whitespace c then "" else String c ""
      | t => String c t
      end
  | EmptyString => ""
  end.
Definition trim (s : string) : string := trim_end (trim_start s).

(** [str::parse::<u32>]: digits after an optional plus sign, within range. *)
Definition parse_u32 (s : string) : option N :=
  let digits := default s (strip_prefix "+" s) in
  match digits with
  | EmptyString => None
  | _ => match NilEmpty.uint_of_string digits with
         | Some d => let n := N.of_uint d in if (n <? 2 ^ 32)%N then Some n else None
         | None => None
         end
  end.

Definition show_N (n : N) : string := NilEmpty.string_of_uint (N.to_uint n).

Fixpoint find_map {A B} (f : A -> option B) (l : list A) : option B :=
  match l with
  | [] => None
  | x :: l => match f x with Some b => Some b | None => find_map f l end
  end.

Definition lock_pid_from_payload (payload : string) : option N :=
  find_map (fun line => parse_u32 (trim (default line (strip_prefix "pid=" line)))) (lines payload).
Definition lock_token_from_payload (payload : string) : option string :=
  find_map (strip_prefix "token=") (lines payload).

Definition lock_token (pid nanos nonce : N) : string :=
  show_N pid +:+ ":" +:+ show_N nanos +:+ ":" +:+ show_N nonce.

(** What the two [writeln!] calls write, call by call. *)
Definition pieces (pid : N) (token : string) : list string :=
  ["pid="; show_N pid; newline; "token="; token; newline].
Definition written (pid : N) (token : string) (n : nat) : string :=
  String.concat "" (take n (pieces pid token)).

(** ** The protocol *)

Record LockFile : Type := mkLockFile {
  lf_maker : string;  (** the token of the acquisition that made the file *)
  lf_payload : string;
  lf_stale : bool }.

(** Where a process stands. *)
Inductive Pc : Type :=
| Idle
| Creating (token : string) (tries : nat)
| Writing (token : string) (done : nat)
| Holding (token : string)
| Inspecting (token : string) (tries : nat)
| Judging (token : string) (tries : nat) (payload : string)
| Quarantining (token : string) (tries : nat)
| Releasing (token : string)
| Removing (token : string)
| Refused
| Dead.

#[export] Instance Pc_eq_dec : EqDecision Pc.
Proof. solve_decision. Defined.

Record State : Type := mkState {
  l_file : option LockFile;
  l_pc : N -> Pc;
  l_nonce : N -> N }.

Definition goto (p : N) (pc : Pc) (s : State) : State :=
  mkState (l_file s) (fun q => if (q =? p)%N then pc else l_pc s q) (l_nonce s).
Definition put_file (f : option LockFile) (s : State) : State := mkState f (l_pc s) (l_nonce s).

Definition process_is_live (s : State) (pid : N) : bool := negb (bool_decide (l_pc s pid = Dead)).

Inductive LockState : Type := Active (pid : N) | Orphaned.

(** What [ps] does: it answers, it cannot be started, or it exits with an error.
    One that cannot be started counts as a live process, one that fails as a
    dead one. *)
Inductive Probe : Type := ProbeAnswers | ProbeMissing | ProbeFails.
Definition probe_is_live (s : State) (me : N) (probe : Probe) (pid : N) : bool :=
  (pid =? me)%N || match probe with
                   | ProbeAnswers => process_is_live s pid
                   | ProbeMissing => true
                   | ProbeFails => false
                   end.

(** The verdict of [inspect_lock], given the text that was read; [stat] says
    whether the time of the file can be read. *)
Definition judge (s : State) (me : N) (probe : Probe) (stat : bool) (payload : string) : LockState :=
  match lock_pid_from_payload payload with
  | Some pid => if probe_is_live s me probe pid then Active pid else Orphaned
  | None =>
      match l_file s with
      | Some f => if stat && lf_stale f then Orphaned else Active 0
      | None => Active 0
      end
  end.

Inductive Event : Type :=
| Start (p nanos : N)
| Create (p : N)
| Write (p : N)
| Inspect (p : N) (readable : bool)
| Judge (p : N) (probe : Probe) (stat : bool)
| Quarantine (p : N)
| Release (p : N)
| CheckOwner (p : N)
| Remove (p : N)
| IoError (p : N)
| Die (p : N)
| Age.

(** One step of [acquire] (a pid is a u32), of [drop], or of the world around them. *)
Definition fire (e : Event) (s : State) : option State :=
  match e with
  | Start p nanos =>
      if negb (p <? 2 ^ 32)%N then None else
      match l_pc s p with
      | Idle | Refused =>
          let nonce := l_nonce s p in
          Some (goto p (Creating (lock_token p nanos nonce) 4)
                 (mkState (l_file s) (l_pc s) (fun q => if (q =? p)%N then (nonce + 1)%N else l_nonce s q)))
      | _ => None
      end
  | Create p =>
      match l_pc s p with
      | Creating _ O => Some (goto p Refused s)
      | Creating token (S tries) =>
          match l_file s with
          | None => Some (goto p (Writing token 0) (put_file (Some (mkLockFile token "" false)) s))
          | Some _ => Some (goto p (Inspecting token tries) s)
          end
      | _ => None
      end
  | Write p =>
      match l_pc s p with
      | Writing token n =>
          let next := if (S n =? length (pieces p token))%nat then Holding token else Writing token (S n) in
          let file := match l_file s with
                      | Some f => if bool_decide (lf_maker f = token)
                                  then Some (mkLockFile token (written p token (S n)) (lf_stale f))
                                  else Some f
                      | None => None
                      end in
          Some (goto p next (put_file file s))
      | _ => None
      end
  | Inspect p readable =>
      match l_pc s p with
      | Inspecting token tries =>
          (* [read_to_string(path).unwrap_or_default()] *)
          let payload := match l_file s with
                         | Some f => if readable : bool then lf_payload f else ""
                         | None => ""
                         end in
          Some (goto p (Judging token tries payload) s)
      | _ => None
      end
  | Judge p probe stat =>
      match l_pc s p with
      | Judging token tries payload =>
          Some (goto p (match judge s p probe stat payload with
                        | Active _ => Refused
                        | Orphaned => Quarantining token tries
                        end) s)
      | _ => None
      end
  | Quarantine p =>
      match l_pc s p with
      | Quarantining token tries => Some (goto p (Creating token tries) (put_file None s))
      | _ => None
      end
  | Release p =>
      match l_pc s p with Holding token => Some (goto p (Releasing token) s) | _ => None end
  | CheckOwner p =>
      match l_pc s p with
      | Releasing token =>
          let owns := bool_decide (l_file s ≫= (fun f => lock_token_from_payload (lf_payload f)) = Some token) in
          Some (goto p (if owns then Removing token else Idle) s)
      | _ => None
      end
  | Remove p =>
      match l_pc s p with Removing _ => Some (goto p Idle (put_file None s)) | _ => None end
  | IoError p =>
      match l_pc s p with
      | Creating _ _ | Writing _ _ | Quarantining _ _ => Some (goto p Refused s)
      | Releasing _ | Removing _ => Some (goto p Idle s)
      | _ => None
      end
  | Die p => match l_pc s p with Dead => None | _ => Some (goto p Dead s) end
  | Age =>
      match l_file s with
      | Some f => Some (put_file (Some (mkLockFile (lf_maker f) (lf_payload f) true)) s)
      | None => None
      end
  end.

Fixpoint fires (es : list Event) (s : State) : option State :=
  match es with
  | [] => Some s
  | e :: es => fire e s ≫= fires es
  end.

Definition start : State := mkState None (fun _ => Idle) (fun _ => 0%N).
