(* ===== verification/EditLockSpec.v ===== *)
(** Mutual exclusion by the workspace lock, the condition it rests on, and runs
    without that condition that end with two holders. *)

From S2P Require Import Prelude RustStr EditLock.
From Stdlib Require Import Ascii DecimalString DecimalNat DecimalN.
#[local] Open Scope string_scope.
#[local] Open Scope list_scope.

(** ** Numbers in text *)

Lemma str_any_digits P d :
  (forall c, is_ascii_digit c = true -> P c = false) -> str_any P (NilEmpty.string_of_uint d) = false.
Proof. intros HP. induction d; simpl; rewrite ?IHd, ?HP; done. Qed.
Lemma show_N_any P n : (forall c, is_ascii_digit c = true -> P c = false) -> str_any P (show_N n) = false.
Proof. apply str_any_digits. Qed.

Lemma digit_not (Q : ascii -> bool) :
  forallb (fun n => implb (is_ascii_digit (ascii_of_nat n)) (negb (Q (ascii_of_nat n)))) (seq 0 256) = true ->
  forall c, is_ascii_digit c = true -> Q c = false.
Proof.
  intros H c Hc. rewrite forallb_forall in H.
  specialize (H (nat_of_ascii c)). rewrite ascii_nat_embedding, Hc in H.
  destruct (Q c); [|done]. exfalso. discriminate H.
  apply in_seq. pose proof (nat_ascii_bounded c). lia.
Qed.

Lemma show_N_not_nil n : show_N n <> "".
Proof.
  unfold show_N. intros H. apply (f_equal NilEmpty.uint_of_string) in H. rewrite NilEmpty.usu in H.
  injection H as H. destruct n; [done|]. by apply DecimalPos.Unsigned.to_uint_nonnil in H.
Qed.

Lemma show_N_inj n m : show_N n = show_N m -> n = m.
Proof.
  unfold show_N. intros H. apply (f_equal NilEmpty.uint_of_string) in H. rewrite !NilEmpty.usu in H.
  injection H as H. apply (f_equal N.of_uint) in H. by rewrite !Unsigned.of_to in H.
Qed.

(** ** The text of the lock *)

Lemma not_newline c : is_ascii_digit c = true -> is_newline c = false.
Proof. by apply digit_not. Qed.
Lemma not_space c : is_ascii_digit c = true -> is_whitespace c = false.
Proof. by apply digit_not. Qed.
Lemma not_colon c : is_ascii_digit c = true -> Ascii.eqb c ":" = false.
Proof. by apply (digit_not (fun c => Ascii.eqb c ":")). Qed.

Lemma trim_solid s : str_any is_whitespace s = false -> trim s = s.
Proof.
  intros Hs. unfold trim.
  assert (trim_start s = s) as ->.
  { destruct s as [|c s]; [done|]. simpl in *. by destruct (is_whitespace c). }
  induction s as [|c s IH]; [done|]. simpl in *. apply orb_false_iff in Hs as [Hc Hs].
  rewrite (IH Hs), Hc. by destruct s.
Qed.

Lemma parse_show n : (n < 2 ^ 32)%N -> parse_u32 (show_N n) = Some n.
Proof.
  intros Hn. unfold parse_u32.
  assert (strip_prefix "+" (show_N n) = None) as ->.
  { destruct (strip_prefix "+" (show_N n)) as [t|] eqn:Ht; [|done]. exfalso.
    apply strip_prefix_Some in Ht.
    pose proof (show_N_any (fun c => Ascii.eqb c "+") n (digit_not (fun c => Ascii.eqb c "+") eq_refl)) as H.
    by rewrite Ht in H. }
  simpl. pose proof (show_N_not_nil n) as Hnil. unfold show_N at 2.
  rewrite NilEmpty.usu, Unsigned.of_to, (proj2 (N.ltb_lt _ _)) by done.
  by destruct (show_N n).
Qed.


Lemma last_char_any P s c : last_char s = Some c -> str_any P s = false -> P c = false.
Proof.
  induction s as [|d s IH]; [done|]. simpl. intros Hl [Hd Hs]%orb_false_iff.
  destruct s as [|e s]; [by injection Hl as <-|]. by apply IH.
Qed.

Definition is_cr (c : ascii) : bool := Ascii.eqb c (ascii_of_nat 13).
Lemma strip_cr_none s : str_any is_cr s = false -> strip_cr s = s.
Proof.
  intros Hs. unfold strip_cr. destruct (last_char s) as [c|] eqn:Hc; [|done].
  pose proof (last_char_any is_cr s c Hc Hs) as H. unfold is_cr in H. by rewrite H.
Qed.

Lemma lines_first a rest :
  str_any is_newline a = false -> str_any is_cr a = false -> a <> "" ->
  (exists l, lines a = a :: l) /\ (exists l, lines (a +:+ newline +:+ rest) = a :: l).
Proof.
  intros Ha Hcr Hne. unfold lines. split.
  - rewrite (split_no_sep _ _ Ha). simpl. rewrite bool_decide_eq_false_2 by congruence.
    simpl. rewrite strip_cr_none by done. eauto.
  - change (newline +:+ rest) with (String (ascii_of_nat 10) rest).
    rewrite (split_app_sep is_newline a (ascii_of_nat 10) rest Ha eq_refl).
    pose proof (split_not_nil is_newline rest) as Hs.
    destruct (split is_newline rest) as [|b l]; [done|]. simpl. case_bool_decide; simpl;
      rewrite strip_cr_none by done; eauto.
Qed.

Lemma pid_line p rest :
  (p < 2 ^ 32)%N ->
  lock_pid_from_payload ("pid=" +:+ show_N p) = Some p
  /\ lock_pid_from_payload ("pid=" +:+ show_N p +:+ newline +:+ rest) = Some p.
Proof.
  intros Hp. unfold lock_pid_from_payload.
  destruct (lines_first ("pid=" +:+ show_N p) rest) as [[l1 H1] [l2 H2]].
  - rewrite str_any_app, (show_N_any _ _ not_newline). done.
  - rewrite str_any_app, (show_N_any is_cr _ (digit_not is_cr eq_refl)). done.
  - done.
  - rewrite app_string_assoc in H2. rewrite H1, H2. cbn [find_map].
    rewrite strip_prefix_app. cbn [default]. rewrite trim_solid by apply (show_N_any _ _ not_space).
    unfold id. by rewrite parse_show.
Qed.

(** Once the pid is written it is read back, whatever is written after it. *)
Lemma written_pid p token n :
  (p < 2 ^ 32)%N ->
  lock_pid_from_payload (written p token n) = if (n <=? 1)%nat then None else Some p.
Proof.
  intros Hp. destruct n as [|[|n]]; [by vm_compute..|]. cbn [Nat.leb].
  destruct n as [|n]; [by apply (pid_line p "")|].
  unfold written, pieces. cbn [take].
  set (rest := take n ["token="; token; newline]).
  assert (exists r, String.concat "" ("pid=" :: show_N p :: newline :: rest)
                    = "pid=" +:+ show_N p +:+ newline +:+ r) as [r ->]; [|by apply pid_line].
  destruct rest as [|x rest]; [by exists ""|]. exists (String.concat "" (x :: rest)). done.
Qed.

Lemma lock_token_pid p na no q na' no' : lock_token p na no = lock_token q na' no' -> p = q.
Proof.
  intros H. unfold lock_token in H. apply show_N_inj.
  apply (f_equal (split (fun c => Ascii.eqb c ":"))) in H.
  rewrite !app_String, !app_empty_l in H.
  rewrite !(split_app_sep (fun c => Ascii.eqb c ":") (show_N _) ":") in H
    by (done || apply show_N_any, not_colon). by injection H.
Qed.

(** ** Exclusion *)

(** The processes that rely on the lock file being theirs: the token, and how
    much of the text is written. *)
Definition critical (pc : Pc) : option (string * nat) :=
  match pc with
  | Writing token n => Some (token, n)
  | Holding token | Releasing token | Removing token => Some (token, 6%nat)
  | _ => None
  end.
Definition token_of (pc : Pc) : option string :=
  match pc with
  | Creating token _ | Writing token _ | Holding token | Inspecting token _ | Judging token _ _
  | Quarantining token _ | Releasing token | Removing token => Some token
  | Idle | Refused | Dead => None
  end.
Definition writing (pc : Pc) : bool := match pc with Writing _ _ => true | _ => false end.
(** A process that is deciding whether to take the lock over. *)
Definition deciding (pc : Pc) : bool :=
  match pc with Judging _ _ _ | Quarantining _ _ => true | _ => false end.

(** The condition: while some process decides, no lock file is created and none
    passes the time limit; a file does not pass it while it is written; a file
    that has passed it can be read; and the probe does not fail. *)
Definition calm (e : Event) (s : State) : Prop :=
  match e with
  | Create p => l_file s = None -> forall q, deciding (l_pc s q) = false
  | Age => forall q, deciding (l_pc s q) = false /\ writing (l_pc s q) = false
  | Inspect p readable => readable = false -> forall f, l_file s = Some f -> lf_stale f = false
  | Judge p probe stat => probe <> ProbeFails
  | _ => True
  end.

Inductive calm_run : State -> Prop :=
| calm_start : calm_run start
| calm_step e s s' : calm_run s -> calm e s -> fire e s = Some s' -> calm_run s'.

Definition nobody (s : State) : Prop := forall q, critical (l_pc s q) = None.

(** What a process at [pc] may assume of the others. *)
Definition verdict_ok (s : State) (pc : Pc) : Prop :=
  match pc with
  | Judging _ _ payload =>
      match lock_pid_from_payload payload with
      | Some x => forall q, is_Some (critical (l_pc s q)) -> q = x
      | None => (exists f, l_file s = Some f /\ lf_stale f = true) -> nobody s
      end
  | Quarantining _ _ => nobody s
  | _ => True
  end.

Record Inv (s : State) : Prop := mkInv {
  inv_token : forall p token, token_of (l_pc s p) = Some token ->
    (p < 2 ^ 32)%N /\ exists na no, token = lock_token p na no;
  inv_own : forall p token n, critical (l_pc s p) = Some (token, n) ->
    exists b, l_file s = Some (mkLockFile token (written p token n) b)
              /\ (writing (l_pc s p) = true -> b = false);
  inv_writing : forall p token n, l_pc s p = Writing token n -> (n < 6)%nat;
  inv_verdict : forall p, verdict_ok s (l_pc s p) }.

Lemma critical_token pc token n : critical pc = Some (token, n) -> token_of pc = Some token.
Proof. by destruct pc; intros [= <- <-]. Qed.

Lemma one_critical s p q :
  Inv s -> is_Some (critical (l_pc s p)) -> is_Some (critical (l_pc s q)) -> p = q.
Proof.
  intros Hi [[tp np] Hp] [[tq nq] Hq].
  destruct (inv_own s Hi p tp np Hp) as (b & Hf & _). destruct (inv_own s Hi q tq nq Hq) as (c & Hg & _).
  rewrite Hf in Hg. injection Hg as -> _ _.
  apply critical_token in Hp, Hq.
  destruct (inv_token s Hi p _ Hp) as (_ & na & no & H1), (inv_token s Hi q _ Hq) as (_ & na' & no' & H2).
  rewrite H1 in H2. by apply lock_token_pid in H2.
Qed.

Lemma pc_goto s p pc q : l_pc (goto p pc s) q = if (q =? p)%N then pc else l_pc s q.
Proof. done. Qed.

(** Verdicts only get better when nobody enters. *)
Lemma verdict_mono s s' pc :
  (forall q, is_Some (critical (l_pc s' q)) -> is_Some (critical (l_pc s q))) ->
  (forall f, l_file s' = Some f -> lf_stale f = true ->
     exists f', l_file s = Some f' /\ lf_stale f' = true) ->
  verdict_ok s pc -> verdict_ok s' pc.
Proof.
  intros Hc Hf. assert (nobody s -> nobody s') as Hn.
  { intros H q. apply eq_None_not_Some. intros Hq. apply Hc in Hq. by apply eq_None_not_Some in Hq. }
  destruct pc; simpl; try done. destruct (lock_pid_from_payload payload).
  - intros H q Hq. auto.
  - intros H (f & H1 & H2). apply Hn, H. by apply (Hf f).
Qed.

(** Steps that leave the file alone and let nobody in. *)
Lemma move_inv s p pc :
  Inv s ->
  (forall token, token_of pc = Some token -> (p < 2 ^ 32)%N /\ exists na no, token = lock_token p na no) ->
  critical pc = None \/ (critical pc = critical (l_pc s p) /\ writing pc = false) ->
  verdict_ok s pc -> Inv (goto p pc s).
Proof.
  intros Hi Ht Hc Hv.
  assert (forall q, is_Some (critical (l_pc (goto p pc s) q)) -> is_Some (critical (l_pc s q))) as Hsub.
  { intros q. rewrite pc_goto. destruct (N.eqb_spec q p) as [->|]; [|done].
    destruct Hc as [->|[-> _]]; [by intros []|done]. }
  split.
  - intros q token. rewrite pc_goto. destruct (N.eqb_spec q p) as [->|]; [apply Ht|by apply (inv_token s Hi)].
  - intros q token n. rewrite pc_goto. destruct (N.eqb_spec q p) as [->|]; [|by apply (inv_own s Hi)].
    destruct Hc as [->|[-> Hw]]; [done|]. intros Hq. destruct (inv_own s Hi p token n Hq) as (b & Hf & _).
    exists b. split; [done|]. by rewrite Hw.
  - intros q token n. rewrite pc_goto. destruct (N.eqb_spec q p) as [->|]; [|by apply (inv_writing s Hi)].
    intros ->. by destruct Hc as [?|[_ ?]].
  - intros q. apply (verdict_mono s); [done|eauto|]. rewrite pc_goto.
    destruct (q =? p)%N; [done|]. by apply (inv_verdict s Hi).
Qed.

(** *** The events *)

Lemma nobody_inv s file :
  Inv s -> nobody s -> file = None -> Inv (put_file file s).
Proof.
  intros Hi Hn ->. split.
  - intros p token. by apply (inv_token s Hi).
  - intros p token n Hp. simpl in Hp. by rewrite (Hn p) in Hp.
  - intros p token n. by apply (inv_writing s Hi).
  - intros p. apply (verdict_mono s); [done|done|by apply (inv_verdict s Hi)].
Qed.

Lemma create_inv s p token :
  Inv s -> l_file s = None -> (forall q, deciding (l_pc s q) = false) ->
  token_of (l_pc s p) = Some token ->
  Inv (goto p (Writing token 0) (put_file (Some (mkLockFile token "" false)) s)).
Proof.
  intros Hi Hf Hd Hp. split.
  - intros q t. rewrite pc_goto. destruct (N.eqb_spec q p) as [->|]; [|by apply (inv_token s Hi)].
    intros [= <-]. by apply (inv_token s Hi).
  - intros q t n. rewrite pc_goto. destruct (N.eqb_spec q p) as [->|].
    + intros [= <- <-]. by exists false.
    + intros Hq. destruct (inv_own s Hi q t n Hq) as (b & Hg & _). congruence.
  - intros q t n. rewrite pc_goto. destruct (N.eqb_spec q p) as [->|]; [|by apply (inv_writing s Hi)].
    intros [= _ <-]. lia.
  - intros q. rewrite pc_goto. destruct (N.eqb_spec q p) as [->|]; [done|].
    specialize (Hd q). change (l_pc (put_file _ s) q) with (l_pc s q). by destruct (l_pc s q).
Qed.

Lemma write_inv s p token n f :
  Inv s -> l_pc s p = Writing token n -> l_file s = Some f ->
  Inv (goto p (if (S n =? 6)%nat then Holding token else Writing token (S n))
    (put_file (if bool_decide (lf_maker f = token)
               then Some (mkLockFile token (written p token (S n)) (lf_stale f)) else Some f) s)).
Proof.
  intros Hi Hp Hf. pose proof (inv_writing s Hi p token n Hp) as Hn.
  destruct (inv_own s Hi p token n) as (b & Hg & Hb); [by rewrite Hp|].
  rewrite Hf in Hg. injection Hg as ->. rewrite bool_decide_eq_true_2 by done. cbn [lf_stale].
  rewrite Hp in Hb. specialize (Hb eq_refl) as ->.
  set (pc := if (S n =? 6)%nat then Holding token else Writing token (S n)).
  assert (critical pc = Some (token, S n)) as Hpc.
  { unfold pc. destruct (Nat.eqb_spec (S n) 6) as [->|]; done. }
  assert (forall q, q <> p -> critical (l_pc s q) = None) as Hothers.
  { intros q Hq. apply eq_None_not_Some. intros Hs. apply Hq. eapply one_critical; [done..|].
    rewrite Hp. eauto. }
  split.
  - intros q t. rewrite pc_goto. destruct (N.eqb_spec q p) as [->|]; [|by apply (inv_token s Hi)].
    rewrite (critical_token _ _ _ Hpc). intros [= <-]. apply (inv_token s Hi). by rewrite Hp.
  - intros q t k. rewrite pc_goto. destruct (N.eqb_spec q p) as [->|Hne].
    + rewrite Hpc. intros [= <- <-]. by exists false.
    + change (l_pc (put_file _ s) q) with (l_pc s q). by rewrite (Hothers q).
  - intros q t k. rewrite pc_goto. destruct (N.eqb_spec q p) as [->|]; [|by apply (inv_writing s Hi)].
    unfold pc. destruct (Nat.eqb_spec (S n) 6); [done|]. intros [= _ <-]. lia.
  - intros q. apply (verdict_mono s).
    + intros r. rewrite pc_goto. destruct (N.eqb_spec r p) as [->|]; [|done]. intros _. rewrite Hp. eauto.
    + by intros g [= <-].
    + rewrite pc_goto. destruct (N.eqb_spec q p) as [->|]; [|by apply (inv_verdict s Hi)].
      unfold pc. by destruct (S n =? 6)%nat.
Qed.

Lemma age_inv s f :
  Inv s -> l_file s = Some f ->
  (forall q, deciding (l_pc s q) = false /\ writing (l_pc s q) = false) ->
  Inv (put_file (Some (mkLockFile (lf_maker f) (lf_payload f) true)) s).
Proof.
  intros Hi Hf Hq. split.
  - intros p t. by apply (inv_token s Hi).
  - intros p t n Hp. destruct (inv_own s Hi p t n Hp) as (b & Hg & _). rewrite Hf in Hg.
    injection Hg as ->. exists true. split; [done|]. simpl. by rewrite (proj2 (Hq p)).
  - intros p t n. by apply (inv_writing s Hi).
  - intros p. destruct (Hq p) as [Hd _]. simpl. by destruct (l_pc s p).
Qed.

(** What is read of the file entitles to the verdict that follows from it. *)
Lemma inspect_ok s token tries readable :
  Inv s -> (readable = false -> forall f, l_file s = Some f -> lf_stale f = false) ->
  verdict_ok s (Judging token tries
    (match l_file s with Some f => if readable : bool then lf_payload f else "" | None => "" end)).
Proof.
  intros Hi Hr. simpl. destruct (l_file s) as [f|] eqn:Hf; [|by intros (f & ? & _)].
  destruct readable; cycle 1.
  { simpl. intros (g & [= <-] & Hs). rewrite (Hr eq_refl f eq_refl) in Hs. done. }
  assert (forall q t n, critical (l_pc s q) = Some (t, n) ->
    lock_pid_from_payload (lf_payload f) = (if (n <=? 1)%nat then None else Some q)
    /\ (writing (l_pc s q) = true -> lf_stale f = false)) as Hq.
  { intros q t n Hc. destruct (inv_own s Hi q t n Hc) as (b & Hg & Hb). rewrite Hf in Hg.
    injection Hg as ->. split; [|done]. apply written_pid.
    by apply (inv_token s Hi q t), (critical_token _ _ n). }
  destruct (lock_pid_from_payload (lf_payload f)) as [x|].
  - intros q [[t n] Hc]. destruct (Hq q t n Hc) as [H _]. destruct (n <=? 1)%nat; congruence.
  - intros (g & [= <-] & Hs) q. apply eq_None_not_Some. intros [[t n] Hc].
    destruct (Hq q t n Hc) as [H Hw]. destruct (Nat.leb_spec n 1); [|done].
    destruct (l_pc s q); simpl in Hc, Hw; try done; try (injection Hc as _ <-; lia).
    rewrite Hw in Hs; done.
Qed.

Lemma judge_ok s p probe stat token tries payload :
  Inv s -> probe <> ProbeFails -> l_pc s p = Judging token tries payload ->
  judge s p probe stat payload = Orphaned -> nobody s.
Proof.
  intros Hi Hpr Hp. pose proof (inv_verdict s Hi p) as Hv. rewrite Hp in Hv. simpl in Hv. unfold judge.
  destruct (lock_pid_from_payload payload) as [x|].
  - destruct (probe_is_live s p probe x) eqn:Hl; [done|]. intros _ q. apply eq_None_not_Some. intros Hq.
    apply orb_false_iff in Hl as [_ Hl]. destruct probe; [|done|done].
    apply negb_false_iff, bool_decide_eq_true in Hl.
    pose proof (Hv q Hq) as ->. rewrite Hl in Hq. by destruct Hq.
  - destruct (l_file s) as [f|]; [|done]. destruct (stat && lf_stale f) eqn:Hs; [|done]. intros _.
    apply andb_true_iff in Hs as [_ Hs]. apply Hv. eauto.
Qed.

Lemma fire_inv e s s' : Inv s -> calm e s -> fire e s = Some s' -> Inv s'.
Proof.
  intros Hi Hc Hf.
  assert (forall p t, token_of (l_pc s p) = Some t ->
    forall t', Some t = Some t' -> (p < 2 ^ 32)%N /\ exists na no, t' = lock_token p na no) as Ht.
  { intros p t Hp t' [= <-]. by apply (inv_token s Hi). }
  destruct e as [p nanos|p|p|p readable|p probe stat|p|p|p|p|p|p|]; simpl in Hf.
  - destruct (N.ltb_spec p (2 ^ 32)); [|done]. simpl in Hf.
    assert (s' = goto p (Creating (lock_token p nanos (l_nonce s p)) 4) (mkState (l_file s) (l_pc s)
      (fun q => if (q =? p)%N then (l_nonce s p + 1)%N else l_nonce s q))) as ->
      by (destruct (l_pc s p); congruence).
    apply move_inv; [|intros t [= <-]; eauto|by left|done]. by destruct Hi.
  - destruct (l_pc s p) as [|token [|tries]| | | | | | | | |] eqn:Hp; try done.
    + injection Hf as <-. by apply move_inv; [|done|left|].
    + destruct (l_file s) eqn:Hfile; injection Hf as <-.
      * apply move_inv; [done|apply (Ht p); by rewrite Hp|by left|done].
      * apply create_inv; [done|done|by apply Hc|by rewrite Hp].
  - destruct (l_pc s p) as [| |token n| | | | | | | |] eqn:Hp; try done. injection Hf as <-.
    destruct (inv_own s Hi p token n) as (b & Hg & _); [by rewrite Hp|].
    rewrite Hg. apply (write_inv s p token n); [done|done|]. exact Hg.
  - destruct (l_pc s p) as [| | | |token tries| | | | | |] eqn:Hp; try done. injection Hf as <-.
    apply move_inv; [done|apply (Ht p); by rewrite Hp|by left|by apply inspect_ok].
  - destruct (l_pc s p) as [| | | | |token tries payload| | | | |] eqn:Hp; try done. injection Hf as <-.
    destruct (judge s p probe stat payload) eqn:Hj; [by apply move_inv; [|done|left|]|].
    apply move_inv; [done|apply (Ht p); by rewrite Hp|by left|by eapply judge_ok].
  - destruct (l_pc s p) as [| | | | | |token tries| | | |] eqn:Hp; try done. injection Hf as <-.
    pose proof (inv_verdict s Hi p) as Hv. rewrite Hp in Hv.
    apply move_inv; [by apply nobody_inv|apply (Ht p); by rewrite Hp|by left|done].
  - destruct (l_pc s p) as [| | |token| | | | | | |] eqn:Hp; try done. injection Hf as <-.
    apply move_inv; [done|apply (Ht p); by rewrite Hp|right; by rewrite Hp|done].
  - destruct (l_pc s p) as [| | | | | | |token| | |] eqn:Hp; try done. injection Hf as <-.
    case_bool_decide; [|by apply move_inv; [|done|left|]].
    apply move_inv; [done|apply (Ht p); by rewrite Hp|right; by rewrite Hp|done].
  - destruct (l_pc s p) as [| | | | | | | |token| |] eqn:Hp; try done. injection Hf as <-.
    assert (Inv (goto p Idle s)) as Hi' by by apply move_inv; [|done|left|].
    change (Inv (put_file None (goto p Idle s))). apply nobody_inv; [done| |done].
    intros q. rewrite pc_goto. destruct (N.eqb_spec q p) as [->|Hne]; [done|].
    apply eq_None_not_Some. intros Hs. apply Hne. apply (one_critical s); [done..|]. rewrite Hp. eauto.
  - destruct (l_pc s p) eqn:Hp; try done; injection Hf as <-; by apply move_inv; [|done|left|].
  - destruct (l_pc s p) eqn:Hp; try done; injection Hf as <-; by apply move_inv; [|done|left|].
  - destruct (l_file s) as [f|] eqn:Hfile; [|done]. injection Hf as <-. by apply age_inv.
Qed.

Lemma start_inv : Inv start.
Proof. by split. Qed.

Lemma calm_inv s : calm_run s -> Inv s.
Proof. induction 1; [apply start_inv|by eapply fire_inv]. Qed.

(** ** Two holders *)

(** Process 1 holds the lock; process 2 has read it. *)
Definition read_by_2 : list Event :=
  [Start 1 7; Create 1; Write 1; Write 1; Write 1; Write 1; Write 1; Write 1;
   Start 2 8; Create 2; Inspect 2 true].
(** Process 1 releases the lock and exits; process 3 acquires it; process 2
    finds that process 1 is gone. *)
Definition exit_race : list Event :=
  read_by_2 ++ [Release 1; CheckOwner 1; Remove 1; Die 1;
   Start 3 9; Create 3; Write 3; Write 3; Write 3; Write 3; Write 3; Write 3;
   Judge 2 ProbeAnswers true; Quarantine 2; Create 2; Write 2; Write 2; Write 2; Write 2; Write 2; Write 2].
(** Process 1 dies with the lock; processes 2 and 3 both take it over. *)
Definition takeover_race : list Event :=
  read_by_2 ++ [Die 1; Judge 2 ProbeAnswers true; Start 3 9; Create 3; Inspect 3 true; Judge 3 ProbeAnswers true;
   Quarantine 3; Create 3; Write 3; Write 3; Write 3; Write 3; Write 3; Write 3;
   Quarantine 2; Create 2; Write 2; Write 2; Write 2; Write 2; Write 2; Write 2].

(** Process 3 holds the lock past the time limit; process 2 cannot read it and
    takes the empty text for that of a stale lock. *)
Definition unreadable : list Event :=
  [Start 3 7; Create 3; Write 3; Write 3; Write 3; Write 3; Write 3; Write 3; Age;
   Start 2 8; Create 2; Inspect 2 false; Judge 2 ProbeAnswers true; Quarantine 2; Create 2;
   Write 2; Write 2; Write 2; Write 2; Write 2; Write 2].
(** Process 2 reads the lock of process 3, and its probe fails. *)
Definition failing_probe : list Event :=
  [Start 3 7; Create 3; Write 3; Write 3; Write 3; Write 3; Write 3; Write 3;
   Start 2 8; Create 2; Inspect 2 true; Judge 2 ProbeFails true; Quarantine 2; Create 2;
   Write 2; Write 2; Write 2; Write 2; Write 2; Write 2].

Definition held_by_both (s : State) : Prop :=
  exists t u, l_pc s 2 = Holding t /\ l_pc s 3 = Holding u.

(** Runs in which nobody decides are calm. *)
Definition plain (e : Event) : bool :=
  match e with Inspect _ _ | Judge _ _ _ | Age => false | _ => true end.

Lemma plain_fire e s s' :
  plain e = true -> (forall q, deciding (l_pc s q) = false) -> fire e s = Some s' ->
  forall q, deciding (l_pc s' q) = false.
Proof.
  intros He Hd Hf.
  assert (forall p pc s0, l_pc s0 = l_pc s -> deciding pc = false -> Some (goto p pc s0) = Some s' ->
    forall q, deciding (l_pc s' q) = false) as Hgoto.
  { intros p pc s0 H0 Hpc [= <-] q. rewrite pc_goto, H0. by destruct (q =? p)%N. }
  destruct e; simpl in Hf; try discriminate He;
    repeat match goal with
    | H : (if ?c then _ else _) = Some _ |- _ => destruct c; try discriminate H
    | H : match ?c with _ => _ end = Some _ |- _ => destruct c eqn:?; try discriminate H
    end; try (eapply Hgoto; [|by idtac|exact Hf]; by idtac).
  all: eapply Hgoto; [| |exact Hf]; [done|]; by repeat case_match.
Qed.

Lemma plain_fires es s s' :
  forallb plain es = true -> calm_run s -> (forall q, deciding (l_pc s q) = false) ->
  fires es s = Some s' -> calm_run s'.
Proof.
  revert s. induction es as [|e es IH]; intros s He Hs Hd Hf; [by injection Hf as <-|].
  simpl in He. apply andb_true_iff in He as [He Hes]. simpl in Hf.
  destruct (fire e s) as [s1|] eqn:H1; [|done]. apply (IH s1); [done| |by eapply plain_fire|done].
  eapply calm_step; [done| |done]. destruct e; try done. by intros _.
Qed.

Ltac two_holders run :=
  let s := fresh "s" in let H := fresh "H" in
  destruct (fires run start) as [s|] eqn:H; [|by vm_compute in H]; exists s; split; [done|];
  vm_compute in H; injection H as <-; by do 2 eexists.

(** Process 1 acquires and releases the lock, process 2 acquires it next. *)
Definition hand_over : list Event :=
  [Start 1 7; Create 1; Write 1; Write 1; Write 1; Write 1; Write 1; Write 1;
   Release 1; CheckOwner 1; Remove 1;
   Start 2 8; Create 2; Write 2; Write 2; Write 2; Write 2; Write 2; Write 2].

(** C37: The lock excludes under four conditions: no lock file is created, and
    none passes the time limit, while some process is deciding on a takeover;
    none passes it while it is still being written; a lock that has passed it
    can be read; and the probe for live processes does not exit with an error.
    Then, in any interleaving, with processes dying and other operations
    failing anywhere, two processes never hold it at once.  Without the
    conditions two processes can: a process that releases the lock and exits
    between another's look at it and the probe for its pid, two processes that
    take over the same orphan, a failing read of a live lock past the limit,
    and a failing probe each lead there.  A lock that was released is acquired
    by the next process.  (The pid of a process that died is not used again.) *)
Theorem lock_exclusion :
  (forall s p q t u, calm_run s -> l_pc s p = Holding t -> l_pc s q = Holding u -> p = q)
  /\ (exists s, fires exit_race start = Some s /\ held_by_both s)
  /\ (exists s, fires takeover_race start = Some s /\ held_by_both s)
  /\ (exists s, fires unreadable start = Some s /\ held_by_both s)
  /\ (exists s, fires failing_probe start = Some s /\ held_by_both s)
  /\ (exists s t, fires hand_over start = Some s /\ calm_run s /\ l_pc s 1 = Idle /\ l_pc s 2 = Holding t).
Proof.
  split_and!.
  - intros s p q t u Hs Hp Hq. apply (one_critical s); [by apply calm_inv|rewrite Hp; eauto|rewrite Hq; eauto].
  - two_holders exit_race.
  - two_holders takeover_race.
  - two_holders unreadable.
  - two_holders failing_probe.
  - destruct (fires hand_over start) as [s|] eqn:H; [|by vm_compute in H]. exists s.
    assert (calm_run s) as Hs by by eapply plain_fires; [|apply calm_start| |exact H].
    vm_compute in H. injection H as <-. by eexists.
Qed.
