(* ===== verification/EditPlan.v ===== *)
(** Execution of an edit plan (crates/edit/src/plan.rs and the statuses of
    certificate.rs): snapshots, selectors, preconditions, overlaps, projection
    in memory, validation in a copy of the workspace (shadow.rs) and
    publication.

    Parameters: [sha256_hex]; [git_head], what the git process prints;
    [syntax_counts_of], the tree-sitter counts of a file before and after;
    [process], a validator's process, which may change the copy it runs in and
    the disk.  The outcome of the lock and the transaction id (a hash of the plan's JSON)
    are arguments.  Reports leave out the texts for display (details, diffs,
    spans). *)

From S2P Require Import Prelude CoreError RustStr EditTxn EditFs EditJournal.
From Stdlib Require Import DecimalString.
#[local] Open Scope string_scope.
#[local] Open Scope list_scope.

(** ** The plan *)

Inductive PlanSelector : Type :=
| Resolved (byte_start byte_end : nat)
| Text (old_text : list Z) (expect : nat).
Inductive PlanAction : Type :=
| Replace (content : list Z)
| Delete
| InsertAfter (content : list Z)
| InsertBefore (content : list Z).
Record PlanPreconditions : Type := mkPreconditions {
  pre_file_sha256 : option string; pre_target_sha256 : option string }.
Record PlanOperation : Type := mkOperation {
  po_id : string; po_file : string; po_selector : PlanSelector; po_action : PlanAction;
  po_preconditions : PlanPreconditions }.
Record PlanValidator : Type := mkValidator { pv_argv : list string; pv_timeout_seconds : Z }.
#[export] Instance PlanValidator_eq_dec : EqDecision PlanValidator.
Proof. solve_decision. Defined.
Inductive PlanPublishMode : Type := Atomic | JournalMode | Patch | ShadowWorktree.
Record PlanWorkspace : Type := mkWorkspace {
  pw_root : string; pw_expect_git_head : option string; pw_require_unchanged_files : bool }.
Record Plan : Type := mkPlan {
  pl_schema_version : string; pl_workspace : PlanWorkspace; pl_operations : list PlanOperation;
  pl_validators : list PlanValidator; pl_publish : PlanPublishMode }.

#[export] Instance PlanPublishMode_eq_dec : EqDecision PlanPublishMode.
Proof. solve_decision. Defined.

Definition PLAN_SCHEMA : string := "greppy.edit-plan.v1".

(** ** Certificates *)

Inductive Status : Type :=
| StApplied | StAlreadySatisfied | StNotFound | StAmbiguous | StStale | StInvalidResult
| StValidationFailed | StPublishFailed.

#[export] Instance Status_eq_dec : EqDecision Status.
Proof. solve_decision. Defined.

Definition exit_code (s : Status) : Z :=
  match s with
  | StApplied | StAlreadySatisfied => 0
  | StNotFound => 10
  | StAmbiguous => 11
  | StStale => 12
  | StInvalidResult => 13
  | StValidationFailed => 14
  | StPublishFailed => 16
  end.

Definition publish_error_status (e : Error) : Status :=
  match e with
  | Workspace message => if starts_with "stale plan:" message then StStale else StPublishFailed
  | _ => StPublishFailed
  end.

Inductive Guarantee : Type := Proved | NotApplicable | WaivedByFormatter | Failed.
Record Guarantees : Type := mkGuarantees {
  g_addressed_range : Guarantee; g_no_clobber : Guarantee; g_byte_isolation : Guarantee;
  g_syntax : Guarantee; g_validators : Guarantee }.

Inductive PublishMode : Type := PmAtomic | PmJournal | PmPatch | PmShadowWorktree | PmDryRun.

Record OperationReport : Type := mkOpReport {
  or_id : string; or_file : string; or_target_matches : nat;
  or_file_sha256_before : string; or_file_sha256_after : option string;
  or_outside_unchanged : bool; or_changed_byte_ranges : list (nat * nat);
  or_postconditions_passed : bool; or_postconditions : list (string * bool);
  or_guarantees : Guarantees }.
Record ValidatorReport : Type := mkValidatorReport {
  vr_argv : list string; vr_exit_code : Z; vr_timed_out : bool }.
Record Certificate : Type := mkCertificate {
  c_status : Status; c_transaction_id : string;
  c_git_head_before : option string; c_git_head_after : option string;
  c_operations : list OperationReport; c_validators : list ValidatorReport;
  c_published : bool; c_publish_mode : PublishMode }.

Definition certificate_publish_mode (mode : PlanPublishMode) (dry_run : bool) : PublishMode :=
  if dry_run then PmDryRun else
  match mode with
  | Atomic => PmAtomic | JournalMode => PmJournal | Patch => PmPatch
  | ShadowWorktree => PmShadowWorktree
  end.

(** ** Selectors *)

(** [haystack[from..].windows(n).position(|w| w == needle)]. *)
Fixpoint position (needle haystack : list Z) : option nat :=
  if bool_decide (take (length needle) haystack = needle) then Some O
  else match haystack with
       | [] => None
       | _ :: rest => S <$> position needle rest
       end.

Fixpoint find_from (fuel : nat) (needle haystack : list Z) (from : nat) : list nat :=
  match fuel with
  | O => []
  | S fuel =>
      if (from + length needle <=? length haystack)%nat then
        match position needle (drop from haystack) with
        | Some relative =>
            (from + relative)%nat :: find_from fuel needle haystack (from + relative + length needle)
        | None => []
        end
      else []
  end.
Definition find_all (haystack needle : list Z) : list nat :=
  match needle with
  | [] => []
  | _ => find_from (S (length haystack)) needle haystack 0
  end.

Definition target_ranges_overlap (first second : nat * nat) : bool :=
  match (first.1 =? first.2, second.1 =? second.2)%nat with
  | (true, true) => (first.1 =? second.1)%nat
  | (true, false) => ((second.1 <=? first.1) && (first.1 <? second.2))%nat
  | (false, true) => ((first.1 <=? second.1) && (second.1 <? first.2))%nat
  | (false, false) => ((first.1 <? second.2) && (second.1 <? first.2))%nat
  end.
Definition overlapping_target_ranges (first second : list (nat * nat)) :
    list ((nat * nat) * (nat * nat)) :=
  filter (fun x => target_ranges_overlap x.1 x.2 = true) (a ← first; b ← second; [(a, b)]).

Definition ends_with_newline (content : list Z) : bool := bool_decide (last content = Some 10%Z).
(** [format!("{}[{match_index}]")]. *)
Definition mutation_id (id : string) (index : nat) : string :=
  id +:+ "[" +:+ NilEmpty.string_of_uint (Nat.to_uint index) +:+ "]".
Definition action_mutation (operation : PlanOperation) (target_range : nat * nat) (match_index : nat)
  : PlannedOp :=
  let op := mkPlannedOp (mutation_id (po_id operation) match_index) in
  match po_action operation with
  | Replace content => op target_range content
  | Delete => op target_range []
  | InsertAfter content =>
      op (target_range.2, target_range.2)
        ([10%Z] ++ content ++ (if ends_with_newline content then [] else [10%Z]))
  | InsertBefore content =>
      op (target_range.1, target_range.1)
        (content ++ (if ends_with_newline content then [] else [10%Z]) ++ [10%Z])
  end.

(** ** Planning one operation *)

Record OperationProblem : Type := mkProblem { pb_status : Status; pb_name : string }.
Record PlannedOperation : Type := mkPlanned {
  pd_operation : PlanOperation; pd_file_key : string; pd_target_ranges : list (nat * nat);
  pd_mutations : list PlannedOp; pd_problem : option OperationProblem; pd_overlaps : nat }.

(** [if problem.is_none() { problem = Some(..) }]. *)
Definition first_problem (old : option OperationProblem) (new : OperationProblem) : option OperationProblem :=
  match old with Some p => Some p | None => Some new end.

(** ** The shadow copy

    The directory [ws] in a fresh temporary directory, which is gone once the
    validators have run; its entries are keyed by the names that lead to them. *)

Inductive ShadowNode : Type := ShadowFile (content : list Z) | ShadowDir.
#[export] Instance ShadowNode_eq_dec : EqDecision ShadowNode.
Proof. solve_decision. Defined.
Definition Shadow : Type := gmap (list string) ShadowNode.

(** How a validator's process ends: it cannot be started, it exits (without a
    code when a signal ends it), it is killed at the deadline, or waiting for
    it fails. *)
Inductive Outcome : Type := SpawnFailed | Exited (code : option Z) | TimedOut | WaitFailed.

(** The names of a path without a root or parent component. *)
Fixpoint normal_names (cs : list Component) : option (list string) :=
  match cs with
  | [] => Some []
  | Normal s :: cs => cons s <$> normal_names cs
  | _ => None
  end.
Definition shadow_names (rel : string) : option (list string) := normal_names (components rel).

(** The names below a directory that lead to a canonical path. *)
Definition names_below (base key : string) : option (list string) :=
  if path_starts_with key base
  then match normal_names (drop (length (components base)) (components key)) with
       | Some [] | None => None
       | Some names => Some names
       end
  else None.

Definition shadow_skips (name : string) : bool :=
  String.eqb name ".git" || String.eqb name ".greppy-edit-journal" || String.eqb name ".greppy-edit.lock".

Definition name_prefixes (names : list string) : list (list string) :=
  (fun i => take i names) <$> seq 0 (S (length names)).

Section Shadow.
Context (faults : nat -> op_kind -> fault)
        (process : list string -> Z -> Shadow -> Disk -> Outcome * Shadow * Disk).

(** [create_dir_all] and [write] in the copy. *)
Definition shadow_create_dirs (names : list string) (shadow : Shadow) : FS Shadow :=
  disk_op faults KCreateDir no_partial (fun d =>
    if existsb (fun p => match shadow !! p with Some (ShadowFile _) => true | _ => false end)
         (name_prefixes names)
    then (Err (Io "create" "NotADirectory"), d)
    else (Ok (foldr (fun p s => <[p := ShadowDir]> s) shadow (name_prefixes names)), d)).
Definition shadow_write (names : list string) (content : list Z) (shadow : Shadow) : FS Shadow :=
  disk_op faults KWrite no_partial (fun d =>
    match shadow !! names with
    | Some ShadowDir => (Err (Io "shadow write" "IsADirectory"), d)
    | _ => (Ok (<[names := ShadowFile content]> shadow), d)
    end).
Definition shadow_put (names : list string) (content : list Z) (shadow : Shadow) : FS Shadow :=
  let! shadow := shadow_create_dirs (take (length names - 1) names) shadow in
  shadow_write names content shadow.

(** One entry of the walk of [copy_dir]: canonical paths pass through no
    symlink, so the entries below the root are those that the walk meets. *)
Definition copy_entry (base : string) (shadow : Shadow) (x : string * Node) : FS Shadow :=
  match names_below base x.1 with
  | None => ret shadow
  | Some names =>
      if existsb shadow_skips names then ret shadow else
      match x.2 with
      | LinkNode _ => ret shadow
      | DirNode _ => shadow_create_dirs names shadow
      | FileNode _ _ _ =>
          let! content := read_key faults x.1 in
          shadow_put names content shadow
      end
  end.

Definition copy_workspace (root : string) : FS Shadow :=
  disk_op faults KCreateDir no_partial (ret tt) ;;;
  let! base := canonicalize root in
  let! shadow := shadow_create_dirs [] ∅ in
  let! entries := disk_op faults KRead no_partial (gets (fun d => map_to_list (d_nodes d))) in
  foldM (copy_entry base) shadow entries.

Definition run_validator (shadow : Shadow) (validator : PlanValidator) : FS (ValidatorReport * Shadow) :=
  match pv_argv validator with
  | [] => throw (Invalid "validator argv is empty")
  | argv =>
      let! (outcome, shadow) := fun d =>
        let '(outcome, shadow, d) := process argv (pv_timeout_seconds validator) shadow d in
        (Ok (outcome, shadow), d) in
      match outcome with
      | SpawnFailed => throw (Io "spawn validator" "")
      | Exited code => ret (mkValidatorReport argv (default (-1)%Z code) false, shadow)
      | TimedOut => ret (mkValidatorReport argv (-1)%Z true, shadow)
      | WaitFailed => throw (Io "wait for validator" "")
      end
  end.

(** The keys of the publications are normal relative paths
    ([operation_file_key]); a write under any other key would not be inside the
    copy, and nothing is said about it. *)
Definition shadow_publication (shadow : Shadow) (p : FilePublication) : FS Shadow :=
  match shadow_names (fp_rel_path p) with
  | Some names => shadow_put names (fp_content p) shadow
  | None => panic
  end.

Definition shadow_validate (root : string) (publications : list FilePublication)
    (validators : list PlanValidator) : FS (list ValidatorReport) :=
  let! shadow := copy_workspace root in
  let! shadow := foldM shadow_publication shadow publications in
  let! (reports, _) := foldM (fun acc validator =>
      let! (report, shadow) := run_validator acc.2 validator in
      ret (acc.1 ++ [report], shadow)) ([], shadow) validators in
  ret reports.
End Shadow.

Section Plan.
Context (faults : nat -> op_kind -> fault) (kept : string -> bool)
        (sha256_hex : list Z -> string) (to_json : Journal -> list Z)
        (git_head : Disk -> option string)
        (syntax_counts_of : string -> list Z -> list Z -> option (nat * nat) * option (nat * nat))
        (process : list string -> Z -> Shadow -> Disk -> Outcome * Shadow * Disk).

Definition file_problem (plan : Plan) (operation : PlanOperation) (snapshot : Snapshot)
  : option OperationProblem :=
  match pre_file_sha256 (po_preconditions operation) with
  | Some expected =>
      if bool_decide (expected = sn_file_sha256 snapshot) then None
      else Some (mkProblem StStale "file-sha256")
  | None =>
      if pw_require_unchanged_files (pl_workspace plan)
      then Some (mkProblem StStale "file-sha256") else None
  end.

Definition select_targets (operation : PlanOperation) (snapshot : Snapshot)
    (problem : option OperationProblem) : list (nat * nat) * option OperationProblem :=
  match po_selector operation with
  | Resolved byte_start byte_end =>
      if (byte_end <? byte_start)%nat || (length (sn_content snapshot) <? byte_end)%nat
      then ([], first_problem problem (mkProblem StInvalidResult "selector-range"))
      else ([(byte_start, byte_end)], problem)
  | Text old_text expect =>
      let found := find_all (sn_content snapshot) old_text in
      ((fun start => (start, (start + length old_text)%nat)) <$> found,
       match found with
       | [] => first_problem problem (mkProblem StNotFound "selector-cardinality")
       | _ => if (length found =? expect)%nat then problem
              else first_problem problem (mkProblem StAmbiguous "selector-cardinality")
       end)
  end.

Definition target_problem (operation : PlanOperation) (snapshot : Snapshot)
    (ranges : list (nat * nat)) (problem : option OperationProblem) : option OperationProblem :=
  match pre_target_sha256 (po_preconditions operation) with
  | Some expected =>
      let matches :=
        match ranges with
        | [range] => match get_range (sn_content snapshot) range.1 range.2 with
                     | Some target => bool_decide (sha256_hex target = expected)
                     | None => false
                     end
        | _ => false
        end in
      if matches : bool then problem else first_problem problem (mkProblem StStale "target-sha256")
  | None => problem
  end.

Definition plan_operation (plan : Plan) (operation : PlanOperation) (file_key : string)
    (snapshot : Snapshot) : PlannedOperation :=
  let '(ranges, problem) := select_targets operation snapshot (file_problem plan operation snapshot) in
  mkPlanned operation file_key ranges
    (imap (fun index range => action_mutation operation range index) ranges)
    (target_problem operation snapshot ranges problem) 0.

(** ** Files *)

Fixpoint normalize_components (cs : list Component) (acc : list string) : result (list string) :=
  match cs with
  | [] => Ok (reverse acc)
  | CurDir :: cs => normalize_components cs acc
  | Normal part :: cs => normalize_components cs (part :: acc)
  | ParentDir :: cs =>
      match acc with
      | [] => Err (Invalid "operation file escapes the workspace")
      | _ :: acc => normalize_components cs acc
      end
  | RootDir :: _ => Err (Invalid "operation file must be relative to the workspace")
  end.
Definition lexical_relative_path (path : string) : result string :=
  match normalize_components (components path) [] with
  | Ok [] => Err (Invalid "operation file is empty after normalization")
  | Ok parts => Ok (join "/" parts)
  | Err e => Err e
  | Panic => Panic
  end.

(** [Path::strip_prefix]. *)
Definition path_strip_prefix (path base : string) : option string :=
  if path_starts_with path base
  then Some (path_of (drop (length (components base)) (components path))) else None.

Definition operation_file_key (root file : string) : FS string :=
  let! lexical := lift (lexical_relative_path file) in
  let! resolved := try_ (require_inside_workspace faults root (path_join root lexical)) in
  match resolved with
  | inr (Workspace message) =>
      if starts_with "refusing to publish through " message then ret lexical
      else throw (Workspace message)
  | inr e => throw e
  | inl resolved =>
      let! canonical_root := canonicalize root in
      ok_or (path_strip_prefix resolved canonical_root) (Workspace "path escapes workspace")
  end.

(** [symlink_metadata] of a path. *)
Definition stat_path (path : string) : FS Node :=
  disk_op faults KRead no_partial (fun d =>
    match resolve path d ≫= (fun key => d_nodes d !! key) with
    | Some n => (Ok n, d)
    | None => (Err (Io path "NotFound"), d)
    end).

Definition snapshot_read (path : string) : FS Snapshot :=
  let! meta := stat_path path in
  match meta with
  | LinkNode _ => throw (Workspace "refusing to edit through symlink")
  | _ =>
      let! content := read_path faults path in
      ret (mkSnapshot path content (sha256_hex content))
  end.

(** A [BTreeMap] with string keys. *)
Fixpoint btree_get {A} (m : list (string * A)) (key : string) : option A :=
  match m with
  | [] => None
  | (k, a) :: m => if String.eqb k key then Some a else btree_get m key
  end.
Fixpoint btree_insert {A} (key : string) (a : A) (m : list (string * A)) : list (string * A) :=
  match m with
  | [] => [(key, a)]
  | (k, b) :: rest =>
      match String.compare key k with
      | Lt => (key, a) :: m
      | Eq => (key, a) :: rest
      | Gt => (k, b) :: btree_insert key a rest
      end
  end.

(** The loop that snapshots the files: the snapshots, and the file of each
    operation. *)
Definition snapshot_operation (root : string)
    (acc : list (string * Snapshot) * list string) (operation : PlanOperation)
  : FS (list (string * Snapshot) * list string) :=
  let '(snapshots, files) := acc in
  let! key := operation_file_key root (po_file operation) in
  match btree_get snapshots key with
  | Some _ => ret (snapshots, files ++ [key])
  | None =>
      let! snapshot := snapshot_read (path_join root key) in
      ret (btree_insert key snapshot snapshots, files ++ [key])
  end.

(** ** Overlaps between operations *)

Definition overlaps_between (a b : PlannedOperation) : nat :=
  if String.eqb (pd_file_key a) (pd_file_key b)
  then length (overlapping_target_ranges (pd_target_ranges a) (pd_target_ranges b)) else 0.
(** Every pair is looked at once and noted with both operations. *)
Definition note_overlaps (planned : list PlannedOperation) : list PlannedOperation :=
  imap (fun i a =>
    mkPlanned (pd_operation a) (pd_file_key a) (pd_target_ranges a) (pd_mutations a) (pd_problem a)
      (sum_list (imap (fun j b => if (i =? j)%nat then O else
                                  if (i <? j)%nat then overlaps_between a b else overlaps_between b a)
                  planned))) planned.

Definition plan_status (git_head_stale : bool) (planned : list PlannedOperation) : Status :=
  if git_head_stale then StStale
  else match head (omap pd_problem planned) with
       | Some problem => pb_status problem
       | None => if existsb (fun p => negb (pd_overlaps p =? 0)%nat) planned then StInvalidResult
                 else StApplied
       end.

(** ** Reports *)

Definition takeover_postcondition (takeover : option string) : list (string * bool) :=
  match takeover with Some _ => [("workspace-lock-takeover", true)] | None => [] end.

Definition refusal_report (planned : PlannedOperation) (snapshot : Snapshot) (git_head_stale : bool)
    (takeover : option string) : OperationReport :=
  let matches := length (pd_target_ranges planned) in
  mkOpReport (po_id (pd_operation planned)) (pd_file_key planned) matches (sn_file_sha256 snapshot) None
    true ((fun op => op_range op) <$> pd_mutations planned) false
    ((match pd_problem planned with Some p => [(pb_name p, false)] | None => [] end)
     ++ replicate (pd_overlaps planned) ("non-overlapping-targets", false)
     ++ (if git_head_stale then [("git-head", false)] else [])
     ++ (match pd_problem planned with
         | None => if (pd_overlaps planned =? 0)%nat && negb git_head_stale
                   then [("transaction", false)] else []
         | Some _ => []
         end)
     ++ takeover_postcondition takeover)
    (mkGuarantees
       (match pd_problem planned with
        | None => if (0 <? matches)%nat then Proved else Failed
        | Some _ => Failed
        end) Proved Proved NotApplicable NotApplicable).

Record FileProjection : Type := mkProjection {
  fj_applied : Applied; fj_syntax_applicable : bool; fj_syntax_ok : bool; fj_isolation_ok : bool }.

Definition projected_report (planned : PlannedOperation) (snapshot : Snapshot)
    (projection : option FileProjection) (takeover : option string) : OperationReport :=
  let matches := length (pd_target_ranges planned) in
  let '(after, applicable, syntax_ok, isolation_ok, conditions) :=
    match projection with
    | Some j => (Some (ap_file_sha256 (fj_applied j)), fj_syntax_applicable j, fj_syntax_ok j,
                 fj_isolation_ok j,
                 [("syntax-no-new-errors", fj_syntax_ok j);
                  ("outside-declared-ranges-unchanged", fj_isolation_ok j)])
    | None => (None, false, false, false, [("in-memory-apply", false)])
    end in
  mkOpReport (po_id (pd_operation planned)) (pd_file_key planned) matches (sn_file_sha256 snapshot) after
    isolation_ok ((fun op => op_range op) <$> pd_mutations planned)
    (bool_decide (is_Some projection) && syntax_ok && isolation_ok)
    (conditions ++ takeover_postcondition takeover)
    (mkGuarantees (if (0 <? matches)%nat then Proved else Failed) Proved
       (if isolation_ok then Proved else Failed)
       (if applicable then if syntax_ok then Proved else Failed else NotApplicable) NotApplicable).

Definition lock_refusal_report (operation : PlanOperation) : OperationReport :=
  mkOpReport (po_id operation) (po_file operation) 0 "" None true [] false [("workspace-lock", false)]
    (mkGuarantees NotApplicable Proved Proved NotApplicable NotApplicable).

Definition append_transaction_failure (r : OperationReport) : OperationReport :=
  mkOpReport (or_id r) (or_file r) (or_target_matches r) (or_file_sha256_before r)
    (or_file_sha256_after r) (or_outside_unchanged r) (or_changed_byte_ranges r) false
    (or_postconditions r ++ [("publish-mode", false)]) (or_guarantees r).

(** The last loop over the reports. *)
Definition finish_report (status : Status) (validators : Guarantee) (r : OperationReport) : OperationReport :=
  let failed := bool_decide (status = StPublishFailed) in
  let g := or_guarantees r in
  mkOpReport (or_id r) (or_file r) (or_target_matches r) (or_file_sha256_before r)
    (if failed || bool_decide (status = StStale) then None else or_file_sha256_after r)
    (or_outside_unchanged r) (or_changed_byte_ranges r)
    (if failed then false else or_postconditions_passed r) (or_postconditions r)
    (mkGuarantees (g_addressed_range g) (if failed then Failed else g_no_clobber g)
       (g_byte_isolation g) (g_syntax g) validators).

(** ** Projection in memory *)

Definition syntax_delta (counts : option (nat * nat) * option (nat * nat)) : nat * nat * bool :=
  match counts with
  | (Some before, Some after) => ((after.1 - before.1)%nat, (after.2 - before.2)%nat, true)
  | _ => (O, O, false)
  end.

Definition mutations_of (planned : list PlannedOperation) (file : string) : list PlannedOp :=
  filter (fun p => pd_file_key p = file) planned ≫= pd_mutations.

Definition project_file (planned : list PlannedOperation) (file : string) (snapshot : Snapshot)
  : result FileProjection :=
  let mutations := mutations_of planned file in
  res_bind (apply_in_memory sha256_hex snapshot mutations) (fun applied =>
  let '(new_errors, new_missing, applicable) :=
    syntax_delta (syntax_counts_of (sn_path snapshot) (sn_content snapshot) (ap_content applied)) in
  res_bind (outside_ranges_unchanged (sn_content snapshot) (ap_content applied) mutations) (fun isolation =>
  Ok (mkProjection applied applicable
        (negb applicable || (new_errors =? 0)%nat && (new_missing =? 0)%nat) isolation))).

(** The loop stops at the first file that cannot be projected. *)
Fixpoint project_files (planned : list PlannedOperation) (snapshots : list (string * Snapshot))
  : result (list (string * FileProjection) * bool) :=
  match snapshots with
  | [] => Ok ([], false)
  | (file, snapshot) :: rest =>
      match project_file planned file snapshot with
      | Ok j => res_bind (project_files planned rest) (fun '(js, failed) => Ok ((file, j) :: js, failed))
      | Err _ => Ok ([], true)
      | Panic => Panic
      end
  end.

Definition publication_of (snapshots : list (string * Snapshot)) (x : string * FileProjection)
  : result FilePublication :=
  match btree_get snapshots x.1 with
  | Some snapshot => Ok (mkPublication x.1 (sn_file_sha256 snapshot) (ap_content (fj_applied x.2)))
  | None => Panic
  end.

(** ** The executor *)

Definition publications_unchanged (root : string) (publications : list FilePublication) : FS bool :=
  foldM (fun ok p =>
    if ok : bool then
      let! r := try_ (read_path faults (path_join root (fp_rel_path p))) in
      ret (match r with
           | inl content => bool_decide (sha256_hex content = fp_expected_live_sha256 p)
           | inr _ => false
           end)
    else ret false) true publications.

Definition report_ok (r : ValidatorReport) : bool := (vr_exit_code r =? 0)%Z && negb (vr_timed_out r).

Definition validate (plan : Plan) (publications : list FilePublication) (status : Status)
  : FS (Status * list ValidatorReport) :=
  if bool_decide (status = StApplied)
     && (negb (bool_decide (pl_validators plan = [])) || bool_decide (pl_publish plan = ShadowWorktree))
  then
    let! r := try_ (shadow_validate faults process (pw_root (pl_workspace plan)) publications
                      (pl_validators plan)) in
    ret (match r with
         | inl results => (if forallb report_ok results then status else StValidationFailed, results)
         | inr e => (publish_error_status e, [])
         end)
  else ret (status, []).

(** The checks immediately before the publication. *)
Definition still_current (plan : Plan) (publications : list FilePublication) (status : Status) : FS Status :=
  if bool_decide (status = StApplied) then
    let! head := gets git_head in
    let! files_match := publications_unchanged (pw_root (pl_workspace plan)) publications in
    let head_matches := match pw_expect_git_head (pl_workspace plan) with
                        | Some expected => bool_decide (head = Some expected)
                        | None => true
                        end in
    ret (if head_matches && files_match then status else StStale)
  else ret status.

(** Status, whether it was published, and whether the mode did not fit. *)
Definition publish_plan (plan : Plan) (transaction_id : string) (dry_run : bool)
    (publications : list FilePublication) (status : Status) : FS (Status * bool * bool) :=
  let root := pw_root (pl_workspace plan) in
  if bool_decide (status = StApplied) && negb dry_run then
    match pl_publish plan with
    | Patch => ret (status, false, false)
    | Atomic =>
        match publications with
        | [p] =>
            let! r := try_ (publish_atomic faults sha256_hex root (path_join root (fp_rel_path p))
                              (fp_content p) (fp_expected_live_sha256 p)) in
            ret (match r with
                 | inl _ => (status, true, false)
                 | inr e => (publish_error_status e, false, false)
                 end)
        | _ => ret (StPublishFailed, false, true)
        end
    | JournalMode | ShadowWorktree =>
        let! r := try_ (publish_journal_locked faults kept sha256_hex to_json root transaction_id
                          publications) in
        ret (match r with
             | inl _ => (status, true, false)
             | inr e => (publish_error_status e, false, false)
             end)
    end
  else ret (status, false, false).

(** What follows once every file is snapshotted. *)
Definition run_plan (plan : Plan) (transaction_id : string) (takeover : option string)
    (head_before : option string) (dry_run : bool)
    (snapshots : list (string * Snapshot)) (files : list string) : FS Certificate :=
  let get_snapshot key := match btree_get snapshots key with Some s => Ok s | None => Panic end in
  let! planned := mapM (fun x => lift (res_bind (get_snapshot x.2) (fun snapshot =>
                     Ok (plan_operation plan x.1 x.2 snapshot)))) (zip (pl_operations plan) files) in
  let planned := note_overlaps planned in
  let git_head_stale := match pw_expect_git_head (pl_workspace plan) with
                        | Some expected => negb (bool_decide (head_before = Some expected))
                        | None => false
                        end in
  let status := plan_status git_head_stale planned in
  if negb (bool_decide (status = StApplied)) then
    let! reports := mapM (fun p => lift (res_bind (get_snapshot (pd_file_key p)) (fun snapshot =>
                       Ok (refusal_report p snapshot git_head_stale takeover)))) planned in
    let! head_after := gets git_head in
    ret (mkCertificate status transaction_id head_before head_after reports [] false
           (certificate_publish_mode (pl_publish plan) dry_run))
  else
    let! (projections, failed) := lift (project_files planned snapshots) in
    let status := if failed || existsb (fun x => negb (fj_syntax_ok x.2) || negb (fj_isolation_ok x.2))
                                 projections
                  then StInvalidResult else status in
    let! reports := mapM (fun p => lift (res_bind (get_snapshot (pd_file_key p)) (fun snapshot =>
                       Ok (projected_report p snapshot (btree_get projections (pd_file_key p)) takeover))))
                      planned in
    let! publications := mapM (fun x => lift (publication_of snapshots x)) projections in
    let! (status, validator_reports) := validate plan publications status in
    let! status := still_current plan publications status in
    let! (status, published, unfit) := publish_plan plan transaction_id dry_run publications status in
    let reports := if unfit : bool then append_transaction_failure <$> reports else reports in
    let validator_guarantee :=
      if bool_decide (pl_validators plan = []) then NotApplicable
      else if bool_decide (status = StValidationFailed) then Failed
      else if forallb report_ok validator_reports then Proved else Failed in
    let! head_after := gets git_head in
    ret (mkCertificate status transaction_id head_before head_after
           (finish_report status validator_guarantee <$> reports) validator_reports published
           (certificate_publish_mode (pl_publish plan) dry_run)).

(** [lock] is the outcome of the acquisition: the reason of a takeover, if there
    was one. *)
Definition apply_plan (plan : Plan) (transaction_id : string) (lock : result (option string))
    (dry_run : bool) : FS Certificate :=
  let root := pw_root (pl_workspace plan) in
  guard (String.eqb (pl_schema_version plan) PLAN_SCHEMA) (Invalid "unsupported plan schema") ;;;
  guard (negb (bool_decide (length (pl_operations plan) = O))) (Invalid "edit plan has no operations") ;;;
  match lock with
  | Ok takeover =>
      let! head_before := gets git_head in
      let! (snapshots, files) := foldM (snapshot_operation root) ([], []) (pl_operations plan) in
      run_plan plan transaction_id takeover head_before dry_run snapshots files
  | Err _ =>
      let! head_before := gets git_head in
      let! head_after := gets git_head in
      ret (mkCertificate StPublishFailed transaction_id head_before head_after
             (lock_refusal_report <$> pl_operations plan) [] false
             (certificate_publish_mode (pl_publish plan) dry_run))
  | Panic => panic
  end.
End Plan.
