(* ===== verification/EditPlanFacts.v ===== *)
(** Lemmas on the execution of a plan: which of its phases leave the disk
    alone, what the snapshots hold and what is projected from them. *)

From S2P Require Import Prelude CoreError RustStr EditTxn EditFs EditJournal EditTriple EditJournalFacts EditJournalSpec EditPlan.
#[local] Open Scope string_scope.
#[local] Open Scope list_scope.
#[local] Open Scope nat_scope.

(** ** Phases that leave the disk alone *)

Lemma quiet_lift {A} (r : res Error A) : quiet (lift r).
Proof. by intros d r' d' [= <- <-]. Qed.
Lemma quiet_panic {A} : quiet (@panic Error Disk A).
Proof. by intros d r d' [= <- <-]. Qed.
Lemma quiet_try {A} (m : FS A) : quiet m -> quiet (try_ m).
Proof.
  intros Hm d r d'. unfold try_. destruct (m d) as [[a|e|] d1] eqn:H; intros [= <- <-]; by eapply Hm.
Qed.
Lemma quiet_mapM {A B} (f : A -> FS B) (l : list A) : (forall x, quiet (f x)) -> quiet (mapM f l).
Proof. intros Hf. induction l as [|x l IH]; cbn [mapM]; eauto with quiet. Qed.
#[export] Hint Resolve quiet_lift quiet_panic quiet_try quiet_mapM quiet_foldM : quiet.

(** A validator's process confines itself to its copy: it leaves the workspace
    and the journal alone. *)
Definition confined (process : list string -> Z -> Shadow -> Disk -> Outcome * Shadow * Disk) : Prop :=
  forall argv timeout shadow d, same_view d (process argv timeout shadow d).2.

(** A run that fails has left the disk alone. *)
Definition failing_quiet {A} (m : FS A) : Prop := forall d e d', m d = (Err e, d') -> same_view d d'.
Lemma failing_bind {A B} (m : FS A) (k : A -> FS B) :
  quiet m -> (forall a, failing_quiet (k a)) -> failing_quiet (bind m k).
Proof.
  intros Hm Hk d e d'. unfold bind. destruct (m d) as [[a|e'|] d1] eqn:H1; intros H; [|by simplify_eq; eapply Hm|done].
  etransitivity; [by eapply Hm|by eapply Hk].
Qed.
Lemma failing_of_quiet {A} (m : FS A) : quiet m -> failing_quiet m.
Proof. intros Hm d e d'. apply Hm. Qed.

Section Quiet.
Context (faults : nat -> op_kind -> fault) (sha256_hex : list Z -> string)
        (git_head : Disk -> option string)
        (process : list string -> Z -> Shadow -> Disk -> Outcome * Shadow * Disk)
        (Hprocess : confined process).

Lemma quiet_file_key root file : quiet (operation_file_key faults root file).
Proof.
  unfold operation_file_key, canonicalize. apply quiet_bind; [eauto with quiet|]. intros lexical.
  apply quiet_bind; [eauto with quiet|]. intros [key|[]]; try case_match; eauto with quiet.
Qed.
Lemma quiet_snapshot_read path : quiet (snapshot_read faults sha256_hex path).
Proof.
  apply quiet_bind.
  { apply quiet_op; [|done]. intros d r d'. by destruct (_ ≫= _); intros [= <- <-]. }
  intros [| |]; eauto with quiet.
Qed.
Lemma quiet_snapshot_operation root acc op :
  quiet (snapshot_operation faults sha256_hex root acc op).
Proof.
  destruct acc as [snapshots files]. apply quiet_bind; [apply quiet_file_key|]. intros key.
  destruct (btree_get snapshots key); [eauto with quiet|]. apply quiet_bind; [apply quiet_snapshot_read|].
  eauto with quiet.
Qed.
Lemma quiet_unchanged root ps : quiet (publications_unchanged faults sha256_hex root ps).
Proof. apply quiet_foldM. intros [] p; eauto with quiet. Qed.
Lemma quiet_shadow_dirs names sh : quiet (shadow_create_dirs faults names sh).
Proof. apply quiet_op; [|done]. intros d r d'. by case_match; intros [= <- <-]. Qed.
Lemma quiet_shadow_write names b sh : quiet (shadow_write faults names b sh).
Proof. apply quiet_op; [|done]. intros d r d'. by repeat case_match; intros [= <- <-]. Qed.
Lemma quiet_shadow_put names b sh : quiet (shadow_put faults names b sh).
Proof. apply quiet_bind; [apply quiet_shadow_dirs|]. intros sh'. apply quiet_shadow_write. Qed.
Lemma quiet_copy_workspace root : quiet (copy_workspace faults root).
Proof.
  apply quiet_bind; [apply quiet_op; eauto with quiet; done|]. intros [].
  apply quiet_bind; [unfold canonicalize; eauto with quiet|]. intros base.
  apply quiet_bind; [apply quiet_shadow_dirs|]. intros sh.
  apply quiet_bind; [apply quiet_op; eauto with quiet; done|]. intros entries.
  apply quiet_foldM. intros sh' [key node]. unfold copy_entry. cbn [fst snd].
  destruct (names_below base key) as [names|]; [|eauto with quiet].
  destruct (existsb _ _); [eauto with quiet|]. destruct node; [|eauto with quiet|apply quiet_shadow_dirs].
  apply quiet_bind; [eauto with quiet|]. intros b. apply quiet_shadow_put.
Qed.
Lemma quiet_run_validator sh v : quiet (run_validator process sh v).
Proof.
  unfold run_validator. destruct (pv_argv v) as [|x argv]; [eauto with quiet|]. apply quiet_bind.
  - intros d r d'. pose proof (Hprocess (x :: argv) (pv_timeout_seconds v) sh d) as Hv.
    destruct (process _ _ _ _) as [[o sh'] d1]. by intros [= <- <-].
  - intros [[] sh']; eauto with quiet.
Qed.
Lemma quiet_shadow_validate root ps vs : quiet (shadow_validate faults process root ps vs).
Proof.
  apply quiet_bind; [apply quiet_copy_workspace|]. intros sh. apply quiet_bind.
  { apply quiet_foldM. intros sh' p. unfold shadow_publication.
    destruct (shadow_names _); [apply quiet_shadow_put|eauto with quiet]. }
  intros sh'. apply quiet_bind; [|intros []; eauto with quiet]. apply quiet_foldM.
  intros acc v. apply quiet_bind; [apply quiet_run_validator|]. intros []; eauto with quiet.
Qed.
Lemma quiet_validate plan ps st : quiet (validate faults process plan ps st).
Proof.
  unfold validate. case_match; [|eauto with quiet]. apply quiet_bind; [|eauto with quiet].
  apply quiet_try, quiet_shadow_validate.
Qed.
Lemma quiet_still_current plan ps st : quiet (still_current faults sha256_hex git_head plan ps st).
Proof.
  unfold still_current. case_match; [|eauto with quiet]. apply quiet_bind; [eauto with quiet|].
  intros head. apply quiet_bind; [apply quiet_unchanged|]. eauto with quiet.
Qed.
End Quiet.
#[export] Hint Resolve quiet_file_key quiet_snapshot_read quiet_snapshot_operation quiet_unchanged
  quiet_still_current : quiet.

(** ** What publication does to the status *)

Definition publishes (mode : PlanPublishMode) (dry_run : bool) : bool :=
  negb dry_run && negb (bool_decide (mode = Patch)).

(** A refusal that is decided before anything is published. *)
Definition refused (s : Status) : bool :=
  match s with
  | StApplied | StStale | StPublishFailed | StAlreadySatisfied => false
  | _ => true
  end.

Section Publish.
Context (faults : nat -> op_kind -> fault) (kept : string -> bool)
        (sha256_hex : list Z -> string) (to_json : Journal -> list Z).
#[local] Abbreviation publish_plan := (publish_plan faults kept sha256_hex to_json).

Lemma publish_error_not_refused e : refused (publish_error_status e) = false.
Proof. destruct e; simpl; try done. by case_match. Qed.

Lemma publish_plan_result plan tx dry_run ps st d st' published unfit d' :
  publish_plan plan tx dry_run ps st d = (Ok (st', published, unfit), d') ->
  (published = true -> st = StApplied /\ st' = StApplied /\ publishes (pl_publish plan) dry_run = true)
  /\ (refused st' = true -> same_view d d' /\ published = false).
Proof.
  unfold EditPlan.publish_plan, publishes. destruct (bool_decide _) eqn:Hst; [|by intros [= <- <- _ <-]].
  apply bool_decide_eq_true in Hst as ->. destruct dry_run; [by intros [= <- <- _ <-]|]. simpl.
  assert (forall A (m : FS A), bind (try_ m) (fun r => ret (match r with
      | inl _ => (StApplied, true, false) | inr e => (publish_error_status e, false, false) end)) d
      = (Ok (st', published, unfit), d') ->
    (published = true -> st' = StApplied) /\ (refused st' = true -> False)) as Hm.
  { intros A m Hm. apply bind_ok_inv in Hm as ([a|e] & d1 & _ & [= <- <- _ _]); [done|].
    split; [done|]. by rewrite publish_error_not_refused. }
  destruct (pl_publish plan); [|..]; intros H.
  - destruct ps as [|p [|p' ps]]; [by injection H as <- <- _ _| |by injection H as <- <- _ _].
    apply Hm in H as [H1 H2]. split; [auto|]. by intros ?%H2.
  - apply Hm in H as [H1 H2]. split; [auto|]. by intros ?%H2.
  - by injection H as <- <- _ <-.
  - apply Hm in H as [H1 H2]. split; [auto|]. by intros ?%H2.
Qed.

(** A file is replaced by the last operation of its publication. *)
Lemma publish_atomic_failed root path b expected d e d' :
  publish_atomic faults sha256_hex root path b expected d = (Err e, d') -> same_view d d'.
Proof.
  apply failing_bind; [eauto with quiet|]. intros resolved.
  apply failing_bind; [eauto with quiet|]. intros live.
  apply failing_bind; [eauto with quiet|]. intros [].
  apply failing_bind; [eauto with quiet|]. intros meta.
  apply failing_bind; [eauto with quiet|]. intros [].
  intros d0 e0 d1. unfold bind at 1, with_tempfile.
  destruct (bind _ _ d0) as [[[]|e1|] d2] eqn:Hw; [done| |done]. intros [= <- <-].
  assert (same_view d0 d2) as (? & ? & ?); [|done]. revert d0 e1 d2 Hw.
  apply failing_bind; [eauto with quiet|]. intros [].
  apply failing_bind; [eauto with quiet|]. intros [].
  apply failing_bind; [eauto with quiet|]. intros [].
  intros d0 e1 d2. unfold tempfile_persist, disk_op.
  destruct (faults _ _); [|by intros [= <- <-]..]. simpl.
  destruct (d_temps d0); by intros [= <- <-].
Qed.

Lemma try_failed {A} (m : FS A) d e d' : try_ m d = (Ok (inr e), d') -> m d = (Err e, d').
Proof. unfold try_. destruct (m d) as [[a|e'|] d1]; intros H; by simplify_eq. Qed.

(** What is not published is not written, but for a transaction that failed. *)
Lemma publish_plan_undone plan tx dry_run ps st d st' unfit d' :
  publish_plan plan tx dry_run ps st d = (Ok (st', false, unfit), d') ->
  same_view d d'
  \/ st = StApplied /\ pl_publish plan <> Atomic /\ exists e,
       publish_journal_locked faults kept sha256_hex to_json (pw_root (pl_workspace plan)) tx ps d
       = (Err e, d') /\ st' = publish_error_status e.
Proof.
  unfold EditPlan.publish_plan. destruct (bool_decide _) eqn:Hst; [|by intros [= _ _ <-]; left].
  apply bool_decide_eq_true in Hst.
  destruct dry_run; [by intros [= _ _ <-]; left|]. simpl.
  destruct (pl_publish plan); intros H.
  - left. destruct ps as [|p [|p' ps]]; [by injection H as _ _ <-| |by injection H as _ _ <-].
    apply bind_ok_inv in H as ([a|e] & d1 & Hm & H); [done|]. injection H as _ _ <-.
    apply try_failed in Hm. by eapply publish_atomic_failed.
  - right. apply bind_ok_inv in H as ([a|e] & d1 & Hm & H); [done|]. injection H as <- _ <-.
    apply try_failed in Hm. split_and!; [done..|]. by exists e.
  - left. by injection H as _ _ <-.
  - right. apply bind_ok_inv in H as ([a|e] & d1 & Hm & H); [done|]. injection H as <- _ <-.
    apply try_failed in Hm. split_and!; [done..|]. by exists e.
Qed.

Lemma publish_plan_no_error plan tx dry_run ps st d e d' :
  publish_plan plan tx dry_run ps st d <> (Err e, d').
Proof.
  unfold EditPlan.publish_plan.
  assert (forall A B (m : FS A) (k : A + Error -> B), bind (try_ m) (fun r => ret (k r)) d <> (Err e, d')) as Hm.
  { intros A B m k. unfold bind, try_. by destruct (m d) as [[a|e'|] d1]. }
  destruct (_ && _); [|done]. destruct (pl_publish plan); [|apply Hm|done|apply Hm].
  destruct ps as [|p [|p' ps]]; [done|apply Hm|done].
Qed.

Lemma publish_plan_idle plan tx dry_run ps st d :
  publishes (pl_publish plan) dry_run = false ->
  publish_plan plan tx dry_run ps st d = (Ok (st, false, false), d).
Proof.
  unfold EditPlan.publish_plan, publishes. destruct (bool_decide (st = StApplied)); [|done].
  destruct dry_run; [done|]. simpl. by destruct (pl_publish plan).
Qed.
End Publish.

(** ** The run of a plan *)

Section Run.
Context (faults : nat -> op_kind -> fault) (kept : string -> bool)
        (sha256_hex : list Z -> string) (to_json : Journal -> list Z)
        (git_head : Disk -> option string)
        (syntax_counts_of : string -> list Z -> list Z -> option (nat * nat) * option (nat * nat))
        (process : list string -> Z -> Shadow -> Disk -> Outcome * Shadow * Disk)
        (Hprocess : confined process).
#[local] Abbreviation run_plan :=
  (run_plan faults kept sha256_hex to_json git_head syntax_counts_of process).
#[local] Abbreviation apply_plan :=
  (apply_plan faults kept sha256_hex to_json git_head syntax_counts_of process).
#[local] Abbreviation project_files := (project_files sha256_hex syntax_counts_of).
#[local] Abbreviation plan_operation := (plan_operation sha256_hex).

Lemma run_plan_quiet plan tx takeover head dry_run snapshots files :
  publishes (pl_publish plan) dry_run = false ->
  quiet (run_plan plan tx takeover head dry_run snapshots files).
Proof.
  intros Hp. unfold EditPlan.run_plan. apply quiet_bind; [eauto with quiet|]. intros planned.
  case_match.
  { apply quiet_bind; [eauto with quiet|]. eauto with quiet. }
  apply quiet_bind; [eauto with quiet|]. intros [projections failed].
  apply quiet_bind; [eauto with quiet|]. intros reports.
  apply quiet_bind; [eauto with quiet|]. intros publications.
  apply quiet_bind; [by apply quiet_validate|]. intros [st vr].
  apply quiet_bind; [eauto with quiet|]. intros st'.
  apply quiet_bind; [|intros [[st'' published] unfit]; eauto with quiet].
  intros d r d'. rewrite publish_plan_idle by done. by intros [= _ <-].
Qed.

Lemma apply_plan_quiet plan tx lock dry_run :
  publishes (pl_publish plan) dry_run = false -> quiet (apply_plan plan tx lock dry_run).
Proof.
  intros Hp. unfold EditPlan.apply_plan. apply quiet_bind; [eauto with quiet|]. intros [].
  apply quiet_bind; [eauto with quiet|]. intros []. destruct lock as [takeover|e|]; [|eauto with quiet..].
  apply quiet_bind; [eauto with quiet|]. intros head. apply quiet_bind; [eauto with quiet|].
  intros [snapshots files]. by apply run_plan_quiet.
Qed.

(** Only what precedes the publication can fail. *)
Lemma run_plan_failed plan tx takeover head dry_run snapshots files :
  failing_quiet (run_plan plan tx takeover head dry_run snapshots files).
Proof.
  unfold EditPlan.run_plan. apply failing_bind; [eauto with quiet|]. intros planned.
  case_match.
  { apply failing_of_quiet, quiet_bind; [eauto with quiet|]. eauto with quiet. }
  apply failing_bind; [eauto with quiet|]. intros [projections failed].
  apply failing_bind; [eauto with quiet|]. intros reports.
  apply failing_bind; [eauto with quiet|]. intros publications.
  apply failing_bind; [by apply quiet_validate|]. intros [st vr].
  apply failing_bind; [eauto with quiet|]. intros st'. intros d e d'. unfold bind at 1.
  destruct (publish_plan _ _ _ _ _ _ _ _ _ d) as [[[[st2 pub] unfit]|e'|] d1] eqn:Hp; [done| |done].
  by apply publish_plan_no_error in Hp.
Qed.

Lemma apply_plan_failed plan tx lock dry_run : failing_quiet (apply_plan plan tx lock dry_run).
Proof.
  unfold EditPlan.apply_plan. apply failing_bind; [eauto with quiet|]. intros [].
  apply failing_bind; [eauto with quiet|]. intros [].
  destruct lock as [takeover|e|]; [|by apply failing_of_quiet; eauto with quiet..].
  apply failing_bind; [eauto with quiet|]. intros head. apply failing_bind; [eauto with quiet|].
  intros [snapshots files]. apply run_plan_failed.
Qed.

(** How a run that gives a certificate went. *)
Definition planned_ops (plan : Plan) (snapshots : list (string * Snapshot)) (files : list string)
    (planned : list PlannedOperation) : Prop :=
  Forall2 (fun x p => exists sn, btree_get snapshots x.2 = Some sn /\ p = plan_operation plan x.1 x.2 sn)
    (zip (pl_operations plan) files) planned.

Lemma mapM_lift_ok {A B} (f : A -> res Error B) (l : list A) (d : Disk) l' d' :
  mapM (fun x => lift (f x)) l d = (Ok l', d') -> d' = d /\ Forall2 (fun x y => f x = Ok y) l l'.
Proof.
  revert l' d'. induction l as [|x l IH]; intros l' d' H; cbn [mapM] in H.
  { by injection H as <- <-. }
  apply bind_ok_inv in H as (y & d1 & Hy & H). injection Hy as Hy <-.
  apply bind_ok_inv in H as (ys & d2 & Hys & [= <- <-]). apply IH in Hys as [-> Hys].
  split; [done|]. by constructor.
Qed.

Inductive published_run (plan : Plan) (tx : string) (dry_run : bool)
    (snapshots : list (string * Snapshot)) (files : list string) (st : Status) (published : bool)
    (d d' : Disk) : Prop :=
| published_run_intro planned projections publications before after st0 unfit failed :
    planned_ops plan snapshots files planned ->
    plan_status false (note_overlaps planned) = StApplied ->
    project_files (note_overlaps planned) snapshots = Ok (projections, failed) ->
    (st0 = StApplied -> failed = false) ->
    Forall2 (fun x y => publication_of snapshots x = Ok y) projections publications ->
    same_view d before ->
    publish_plan faults kept sha256_hex to_json plan tx dry_run publications st0 before
      = (Ok (st, published, unfit), after) ->
    same_view after d' ->
    published_run plan tx dry_run snapshots files st published d d'.

Lemma validate_applied plan ps st d st' vr d' :
  validate faults process plan ps st d = (Ok (st', vr), d') -> st' = StApplied -> st = StApplied.
Proof.
  unfold validate. destruct (bool_decide (st = StApplied)) eqn:Hs;
    [by apply bool_decide_eq_true in Hs|]. simpl. by intros [= <- _ _].
Qed.
Lemma still_current_applied plan ps st d st' d' :
  still_current faults sha256_hex git_head plan ps st d = (Ok st', d') -> st' = StApplied -> st = StApplied.
Proof.
  unfold still_current. destruct (bool_decide (st = StApplied)) eqn:Hs;
    [by apply bool_decide_eq_true in Hs|]. by intros [= <- _].
Qed.

Lemma plan_status_head stale planned :
  plan_status stale planned = StApplied -> plan_status false planned = StApplied.
Proof. by destruct stale. Qed.

Lemma run_plan_ok plan tx takeover head dry_run snapshots files d cert d' :
  run_plan plan tx takeover head dry_run snapshots files d = (Ok cert, d') ->
  (same_view d d' /\ c_published cert = false /\ c_status cert <> StApplied)
  \/ published_run plan tx dry_run snapshots files (c_status cert) (c_published cert) d d'.
Proof.
  intros H. unfold EditPlan.run_plan in H.
  apply bind_ok_inv in H as (planned & d1 & Hpl & H). apply mapM_lift_ok in Hpl as [-> Hpl].
  set (stale := match pw_expect_git_head (pl_workspace plan) with Some _ => _ | None => _ end) in H.
  destruct (bool_decide (plan_status stale (note_overlaps planned) = StApplied)) eqn:Hst; cbn [negb] in H.
  2:{ left. apply bool_decide_eq_false in Hst.
      apply bind_ok_inv in H as (reports & d2 & Hr & H). apply mapM_lift_ok in Hr as [-> _].
      apply bind_ok_inv in H as (h & d3 & [= _ <-] & [= <- <-]). done. }
  apply bool_decide_eq_true in Hst. rewrite Hst in H.
  apply bind_ok_inv in H as ([projections failed] & d2 & Hj & H). injection Hj as Hj <-.
  apply bind_ok_inv in H as (reports & d3 & Hr & H). apply mapM_lift_ok in Hr as [-> _].
  apply bind_ok_inv in H as (pubs & d4 & Hp & H). apply mapM_lift_ok in Hp as [-> Hp].
  apply bind_ok_inv in H as ([st1 vr] & d5 & Hv & H).
  apply bind_ok_inv in H as (st2 & d6 & Hs & H).
  apply bind_ok_inv in H as ([[st3 published] unfit] & d7 & Hpub & H).
  apply bind_ok_inv in H as (h & d8 & [= _ <-] & [= <- <-]).
  right. refine (published_run_intro _ _ _ _ _ _ _ _ _ planned projections pubs d6 d7 st2 unfit failed
    _ _ Hj _ Hp _ Hpub _).
  - unfold planned_ops. eapply Forall2_impl; [exact Hpl|]. intros [op key] p Hx. simpl in *.
    destruct (btree_get snapshots key) as [sn|]; [|done]. simpl in Hx. exists sn. by injection Hx.
  - by eapply plan_status_head.
  - intros ->. apply still_current_applied in Hs; [|done]. apply validate_applied in Hv; [|done].
    destruct failed; [done|done].
  - etransitivity; [by eapply (quiet_validate faults process Hprocess)|by eapply quiet_still_current].
  - done.
Qed.

Lemma apply_plan_ok plan tx lock dry_run d cert d' :
  apply_plan plan tx lock dry_run d = (Ok cert, d') ->
  (same_view d d' /\ c_published cert = false /\ c_status cert <> StApplied)
  \/ exists takeover snapshots files d1,
       lock = Ok takeover
       /\ foldM (snapshot_operation faults sha256_hex (pw_root (pl_workspace plan))) ([], [])
            (pl_operations plan) d = (Ok (snapshots, files), d1)
       /\ same_view d d1
       /\ published_run plan tx dry_run snapshots files (c_status cert) (c_published cert) d1 d'.
Proof.
  intros H. unfold EditPlan.apply_plan in H.
  apply bind_ok_inv in H as (u & d1 & [_ ->]%guard_ok_inv & H).
  apply bind_ok_inv in H as (u' & d2 & [_ ->]%guard_ok_inv & H).
  destruct lock as [takeover|e|]; [| |done].
  2:{ left. apply bind_ok_inv in H as (h & d3 & [= _ <-] & H).
      apply bind_ok_inv in H as (h' & d4 & [= _ <-] & [= <- <-]). done. }
  apply bind_ok_inv in H as (h & d3 & [= _ <-] & H).
  apply bind_ok_inv in H as ([snapshots files] & d4 & Hf & H).
  assert (same_view d d4) as Hv.
  { eapply quiet_foldM; [|exact Hf]. intros acc op. eauto with quiet. }
  apply run_plan_ok in H as [(H1 & H2 & H3)|H].
  - left. split_and!; [by etransitivity|done..].
  - right. exists takeover, snapshots, files, d4. done.
Qed.
End Run.

(** ** Ordered maps *)

Lemma btree_get_None {A} (m : list (string * A)) key : btree_get m key = None <-> key ∉ m.*1.
Proof.
  induction m as [|[k a] m IH]; simpl; [split; [intros _; apply not_elem_of_nil|done]|].
  rewrite not_elem_of_cons. destruct (String.eqb_spec k key); [naive_solver|].
  rewrite IH. naive_solver.
Qed.

Lemma btree_get_elem {A} (m : list (string * A)) key a :
  NoDup m.*1 -> (key, a) ∈ m -> btree_get m key = Some a.
Proof.
  induction m as [|[k b] m IH]; intros Hnd Hin; [by apply elem_of_nil in Hin|]. simpl in *.
  apply NoDup_cons in Hnd as [Hk Hnd]. apply elem_of_cons in Hin as [[= -> ->]|Hin].
  - by rewrite String.eqb_refl.
  - destruct (String.eqb_spec k key) as [->|]; [|by apply IH].
    destruct Hk. apply list_elem_of_fmap. by exists (key, a).
Qed.

Lemma btree_insert_perm {A} (m : list (string * A)) key a :
  key ∉ m.*1 -> btree_insert key a m ≡ₚ (key, a) :: m.
Proof.
  induction m as [|[k b] m IH]; intros Hk; simpl in *; [done|].
  apply not_elem_of_cons in Hk as [Hne Hk].
  destruct (String.compare key k) eqn:Hc; [|done|].
  - apply String.compare_eq_iff in Hc. done.
  - rewrite (IH Hk). apply Permutation_swap.
Qed.

(** ** Snapshots *)

Definition relative (key : string) : Prop :=
  match key with String c _ => is_slash c = false | EmptyString => True end.

(** A plain file of the workspace under its canonical name. *)
Definition regular (root : string) (d : Disk) (key : string) : Prop :=
  relative key /\ resolve (path_join root key) d = Some (path_join root key)
  /\ (exists c, d_canonical d root = Some c /\ path_starts_with (path_join root key) c = true)
  /\ exists b m, d_nodes d !! path_join root key = Some (FileNode b m 1).

Lemma path_join_inj root a b :
  relative a -> relative b -> path_join root a = path_join root b -> a = b.
Proof.
  assert (forall k, relative k -> path_join root k = separated root +:+ k) as Hj.
  { intros [|c k] Hk; [by rewrite app_empty_r|]. simpl in *. by rewrite Hk. }
  intros Ha Hb. rewrite !Hj by done. by intros H%app_string_inj.
Qed.

Lemma view_regular root d d' key : same_view d d' -> regular root d key -> regular root d' key.
Proof.
  intros (Hc & Hn & _) (H1 & H2 & H3 & H4). unfold regular, resolve in *. rewrite Hc, Hn. done.
Qed.

Section Snapshots.
Context (faults : nat -> op_kind -> fault) (sha256_hex : list Z -> string) (root : string).

(** The key of an operation's file, in a workspace that looks like [d]. *)
Definition key_of (d : Disk) (file key : string) : Prop :=
  exists d1 d2, same_view d d1 /\ operation_file_key faults root file d1 = (Ok key, d2).

Definition snapshot_of (key : string) (b : list Z) : Snapshot :=
  mkSnapshot (path_join root key) b (sha256_hex b).

Definition snapshots_ok (d : Disk) (sns : list (string * Snapshot)) (files : list string) : Prop :=
  NoDup sns.*1 /\ (forall key, key ∈ sns.*1 <-> key ∈ files)
  /\ Forall (fun x => regular root d x.1 /\ exists b m,
       d_nodes d !! path_join root x.1 = Some (FileNode b m 1) /\ x.2 = snapshot_of x.1 b) sns.

Lemma snapshot_read_ok d key sn d' b m :
  resolve (path_join root key) d = Some (path_join root key) ->
  d_nodes d !! path_join root key = Some (FileNode b m 1) ->
  snapshot_read faults sha256_hex (path_join root key) d = (Ok sn, d') -> sn = snapshot_of key b.
Proof.
  intros Hr Hn H. unfold snapshot_read in H. apply bind_ok_inv in H as (n & d1 & Hs & H).
  unfold stat_path, disk_op in Hs. destruct (faults _ _); [|done..].
  change (resolve _ (tick d)) with (resolve (path_join root key) d) in Hs. rewrite Hr in Hs.
  simpl in Hs. rewrite Hn in Hs. injection Hs as <- <-.
  apply bind_ok_inv in H as (c & d2 & Hc & [= <- _]).
  unfold read_path, disk_op in Hc. destruct (faults _ _); [|done..]. unfold open_target in Hc.
  change (resolve _ (tick (tick d))) with (resolve (path_join root key) d) in Hc. rewrite Hr in Hc.
  simpl in Hc. rewrite Hn in Hc. simpl in Hc. rewrite Hn in Hc. by injection Hc as <- _.
Qed.

Lemma snapshots_spec d ops :
  (forall op key, op ∈ ops -> key_of d (po_file op) key -> regular root d key) ->
  spec (same_view d) (foldM (snapshot_operation faults sha256_hex root) ([], []) ops)
    (fun r d1 => same_view d d1 /\ snapshots_ok d r.1 r.2
                 /\ Forall2 (fun op key => key_of d (po_file op) key) ops r.2)
    (fun _ _ => True) (fun _ => True).
Proof.
  intros Hreg. eapply spec_conseq.
  - apply (spec_foldM (fun i r d1 => same_view d d1 /\ snapshots_ok d r.1 r.2
      /\ Forall2 (fun op key => key_of d (po_file op) key) (take i ops) r.2) _ _ _
      (fun _ _ => True) (fun _ => True)).
    intros i op [sns files] Hop d1 (Hv & (Hnd & Hdom & Hall) & Hkeys). cbn [fst snd] in *.
    destruct (snapshot_operation faults sha256_hex root (sns, files) op d1) as [[[sns' files']|e|] d2] eqn:H;
      [|done..].
    pose proof (quiet_snapshot_operation _ _ _ _ _ _ _ _ H) as Hv2.
    unfold snapshot_operation in H. apply bind_ok_inv in H as (key & d3 & Hk & H).
    pose proof (quiet_file_key _ _ _ _ _ _ Hk) as Hv3.
    assert (key_of d (po_file op) key) as Hkey by by exists d1, d3.
    assert (Forall2 (fun op key => key_of d (po_file op) key) (take (S i) ops) (files ++ [key])) as Hkeys'.
    { rewrite (take_S_r _ _ _ Hop). apply Forall2_app; [done|by repeat constructor]. }
    destruct (btree_get sns key) as [sn|] eqn:Hg.
    + injection H as <- <- <-. split_and!; [by etransitivity| |done]. split_and!; [done| |done].
      intros k. cbn [fst snd]. rewrite Hdom, elem_of_app, list_elem_of_singleton. split; [auto|]. intros [?| ->]; [done|].
      apply Hdom. destruct (decide (key ∈ sns.*1)) as [|Hx]; [done|].
      apply btree_get_None in Hx. congruence.
    + apply bind_ok_inv in H as (sn & d4 & Hs & [= <- <- <-]). apply btree_get_None in Hg as Hg'.
      pose proof (Hreg op key (list_elem_of_lookup_2 _ _ _ Hop) Hkey) as Hr.
      destruct (view_regular root d d3 key) as (_ & Hr3 & _ & b & m & Hn3); [by etransitivity|done|].
      pose proof (snapshot_read_ok d3 key sn d4 b m Hr3 Hn3 Hs) as ->.
      pose proof (btree_insert_perm sns key (snapshot_of key b) Hg') as Hperm.
      split_and!; [by etransitivity| |done]. split_and!.
      * rewrite Hperm. simpl. by constructor.
      * intros k. cbn [fst snd]. rewrite Hperm. simpl. rewrite elem_of_cons, Hdom, elem_of_app, list_elem_of_singleton. tauto.
      * rewrite Hperm. constructor; [|done]. split; [done|]. exists b, m. split; [|done]. simpl.
        destruct Hv as (_ & <- & _), Hv3 as (_ & <- & _). done.
  - intros d1 Hv. split_and!; [done| |constructor]. split_and!; [apply NoDup_nil_2|done|done].
  - intros [sns files] d1 (H1 & H2 & H3). rewrite take_ge in H3 by done. done.
  - done.
  - done.
Qed.
End Snapshots.

(** ** Projection *)

Section Projection.
Context (sha256_hex : list Z -> string) (root : string)
        (syntax_counts_of : string -> list Z -> list Z -> option (nat * nat) * option (nat * nat)).
#[local] Abbreviation snapshot_of := (snapshot_of sha256_hex root).
#[local] Abbreviation plan_operation := (plan_operation sha256_hex).

(** The edits the plan makes in one file. *)
Definition edits (plan : Plan) (files : list string) (file : string) (b : list Z) : list PlannedOp :=
  filter (fun x => x.2 = file) (zip (pl_operations plan) files)
    ≫= (fun x => pd_mutations (plan_operation plan x.1 x.2 (snapshot_of file b))).

Lemma plan_operation_key plan op key sn : pd_file_key (plan_operation plan op key sn) = key.
Proof. unfold EditPlan.plan_operation. by destruct (select_targets _ _ _). Qed.

Lemma mutations_of_pairs planned file :
  mutations_of planned file
  = filter (fun x => x.1 = file) ((fun p => (pd_file_key p, pd_mutations p)) <$> planned) ≫= snd.
Proof.
  unfold mutations_of. induction planned as [|p planned IH]; [done|]. cbn [fmap list_fmap].
  rewrite !filter_cons. cbn [fst]. case_decide; cbn [mbind list_bind]; [|done]. by f_equal.
Qed.

Lemma mutations_note planned file : mutations_of (note_overlaps planned) file = mutations_of planned file.
Proof.
  rewrite !mutations_of_pairs. f_equal. f_equal. unfold note_overlaps.
  apply list_eq. intros i. rewrite !list_lookup_fmap, list_lookup_imap. by destruct (planned !! i).
Qed.

Lemma mutations_edits plan sns files planned file b :
  planned_ops sha256_hex plan sns files planned -> btree_get sns file = Some (snapshot_of file b) ->
  mutations_of (note_overlaps planned) file = edits plan files file b.
Proof.
  intros Hp Hg. rewrite mutations_note. unfold mutations_of, edits.
  induction Hp as [|[op key] p l l' (sn & Hsn & ->) _ IH]; [done|].
  rewrite !filter_cons, plan_operation_key. cbn [snd fst] in *. case_decide as Hk; [|done].
  subst key. rewrite Hg in Hsn. injection Hsn as <-. cbn [mbind list_bind fst snd]. by f_equal.
Qed.

(** A problem never carries the status of success. *)
Definition refuses (o : option OperationProblem) : Prop := forall pb, o = Some pb -> pb_status pb <> StApplied.

Lemma refuses_first o st name : refuses o -> st <> StApplied -> refuses (first_problem o (mkProblem st name)).
Proof. intros Ho Hst pb. destruct o; simpl; [apply Ho|by intros [= <-]]. Qed.

Lemma plan_operation_refuses plan op key sn : refuses (pd_problem (plan_operation plan op key sn)).
Proof.
  unfold EditPlan.plan_operation.
  assert (refuses (file_problem plan op sn)) as Hf.
  { unfold file_problem. repeat case_match; by intros pb [= <-]. }
  destruct (select_targets op sn (file_problem plan op sn)) as [ranges problem] eqn:Hs. simpl.
  assert (refuses problem) as Hp.
  { unfold select_targets in Hs. repeat case_match; injection Hs as _ <-; try done; by apply refuses_first. }
  unfold target_problem. repeat case_match; try done; by apply refuses_first.
Qed.

Lemma omap_imap (f : nat -> PlannedOperation -> PlannedOperation) l :
  (forall i a, pd_problem (f i a) = pd_problem a) -> omap pd_problem (imap f l) = omap pd_problem l.
Proof.
  revert f. induction l as [|p l IH]; intros f Hf; [done|]. cbn [imap omap list_omap].
  rewrite Hf, IH; [done|]. intros i a. apply Hf.
Qed.

(** Every operation could be planned. *)
Lemma planned_no_problem plan sns files planned :
  planned_ops sha256_hex plan sns files planned ->
  plan_status false (note_overlaps planned) = StApplied -> Forall (fun p => pd_problem p = None) planned.
Proof.
  intros Hops H.
  assert (omap pd_problem (note_overlaps planned) = omap pd_problem planned) as Ho.
  { by apply omap_imap. }
  unfold plan_status in H. rewrite Ho in H. destruct (omap pd_problem planned) as [|pb l] eqn:Hpb.
  - apply Forall_forall. intros p Hp. destruct (pd_problem p) as [pb|] eqn:Hq; [|done]. exfalso.
    assert (pb ∈ omap pd_problem planned) as Hin by (apply list_elem_of_omap; eauto).
    rewrite Hpb in Hin. by apply elem_of_nil in Hin.
  - exfalso. assert (pb ∈ omap pd_problem planned) as Hin by (rewrite Hpb; left).
    apply list_elem_of_omap in Hin as (p & Hin & Hq). apply list_elem_of_lookup in Hin as [i Hi].
    destruct (Forall2_lookup_r _ _ _ _ _ Hops Hi) as (x & _ & sn & _ & ->).
    by apply plan_operation_refuses in Hq.
Qed.

Lemma project_file_content planned file sn j :
  project_file sha256_hex syntax_counts_of planned file sn = Ok j ->
  ap_content (fj_applied j)
  = weave (sn_content sn) 0 (sort_by_key (fun op => op_start op) (mutations_of planned file)).
Proof.
  unfold project_file. intros H.
  pose proof (apply_in_memory_run sha256_hex sn (mutations_of planned file)) as Ha. cbv zeta in Ha.
  destruct (existsb _ _); [by rewrite Ha in H|]. destruct (any_overlap _); [by rewrite Ha in H|].
  destruct Ha as [Ha _]. rewrite Ha in H. simpl in H.
  destruct (syntax_delta _) as [[e m] a]. destruct (outside_ranges_unchanged _ _ _); try done.
  simpl in H. by injection H as <-.
Qed.

Lemma project_files_ok planned sns projections :
  project_files sha256_hex syntax_counts_of planned sns = Ok (projections, false) ->
  Forall2 (fun s x => x.1 = s.1 /\ project_file sha256_hex syntax_counts_of planned s.1 s.2 = Ok x.2)
    sns projections.
Proof.
  revert projections. induction sns as [|[file sn] sns IH]; intros projections H; simpl in H.
  { injection H as <-. constructor. }
  destruct (project_file _ _ planned file sn) as [j|e|] eqn:Hj; [|done..].
  destruct (project_files _ _ planned sns) as [[js failed]|e|] eqn:Hjs; [|done..]. simpl in H.
  injection H as <- ->. constructor; [done|]. by apply IH.
Qed.
End Projection.
