(* ===== verification/EditPlanSpec.v ===== *)
(** What executing a plan means: the matches of a text selector, when nothing
    is written, and what an applied plan leaves in the workspace. *)

From S2P Require Import Prelude CoreError RustStr EditTxn EditFs EditJournal EditTriple EditJournalFacts EditJournalSpec EditPlan EditPlanFacts.
#[local] Open Scope string_scope.
#[local] Open Scope list_scope.
#[local] Open Scope nat_scope.

(** ** Text selectors *)

Definition occurs (needle haystack : list Z) (i : nat) : Prop :=
  take (length needle) (drop i haystack) = needle.

Lemma occurs_bound needle haystack i :
  needle <> [] -> occurs needle haystack i -> i + length needle <= length haystack.
Proof.
  intros Hn Hi. apply (f_equal length) in Hi. rewrite length_take, length_drop in Hi.
  assert (0 < length needle) by (destruct needle; [done|simpl; lia]). lia.
Qed.

Lemma position_spec needle haystack :
  needle <> [] ->
  match position needle haystack with
  | Some r => occurs needle haystack r /\ forall k, k < r -> ~ occurs needle haystack k
  | None => forall k, ~ occurs needle haystack k
  end.
Proof.
  intros Hn. induction haystack as [|x l IH]; simpl.
  - rewrite bool_decide_eq_false_2 by (rewrite take_nil; congruence).
    intros k Hk. unfold occurs in Hk. rewrite drop_nil, take_nil in Hk. congruence.
  - case_bool_decide as H0; [split; [done|lia]|].
    destruct (position needle l) as [r|]; simpl.
    + destruct IH as [H1 H2]. split; [done|]. intros [|k] Hk; [done|]. apply (H2 k). lia.
    + intros [|k]; [done|apply IH].
Qed.

Definition matches_from (needle haystack : list Z) (from : nat) (l : list nat) : Prop :=
  Forall (fun i => from <= i /\ occurs needle haystack i) l
  /\ (forall k i j, l !! k = Some i -> l !! S k = Some j -> i + length needle <= j)
  /\ (forall i, from <= i -> occurs needle haystack i ->
        exists j, j ∈ l /\ j <= i < j + length needle).

Lemma find_from_spec needle haystack fuel from :
  needle <> [] -> length haystack < fuel + from ->
  matches_from needle haystack from (find_from fuel needle haystack from).
Proof.
  intros Hn. revert from. induction fuel as [|fuel IH]; intros from Hfuel; cbn [find_from].
  { split_and!; [done..|]. intros i Hi Ho. apply occurs_bound in Ho; [|done]. lia. }
  assert (0 < length needle) as Hlen by (destruct needle; [done|simpl; lia]).
  destruct (Nat.leb_spec (from + length needle) (length haystack)) as [Hle|Hgt].
  2:{ split_and!; [done..|]. intros i Hi Ho. apply occurs_bound in Ho; [|done]. lia. }
  pose proof (position_spec needle (drop from haystack) Hn) as Hp.
  assert (forall i, from <= i -> occurs needle (drop from haystack) (i - from) <-> occurs needle haystack i) as Hd.
  { intros i Hi. unfold occurs. rewrite drop_drop. by replace (from + (i - from)) with i by lia. }
  destruct (position needle (drop from haystack)) as [r|].
  - destruct Hp as [Ho Hfirst]. destruct (IH (from + r + length needle)) as (H1 & H2 & H3); [lia|].
    assert (occurs needle haystack (from + r)) as Hor.
    { apply Hd; [lia|]. by replace (from + r - from) with r by lia. }
    split_and!.
    + constructor; [split; [lia|done]|]. eapply List.Forall_impl; [|exact H1]. simpl. intros i []. split; [lia|done].
    + intros [|k] i j Hi Hj; [|by apply (H2 k i j)]. injection Hi as <-. simpl in Hj.
      eapply Forall_lookup_1 in H1; [|exact Hj]. apply H1.
    + intros i Hi Hoi. destruct (decide (i < from + r)) as [Hlt|].
      { exfalso. apply (Hfirst (i - from)); [lia|]. by apply Hd. }
      destruct (decide (i < from + r + length needle)) as [|Hge].
      { exists (from + r). split; [left|lia]. }
      destruct (H3 i) as (j & Hj & Hb); [lia|done|]. exists j. split; [by right|done].
  - split_and!; [done..|]. intros i Hi Hoi. exfalso. apply (Hp (i - from)). by apply Hd.
Qed.

(** A text selector finds the matches an editor would replace from left to
    right: each is an occurrence, they do not overlap, and every occurrence
    there is starts inside one of them. *)
Theorem find_all_exact haystack needle :
  find_all haystack [] = []
  /\ (needle <> [] -> matches_from needle haystack 0 (find_all haystack needle)).
Proof.
  split; [done|]. intros Hn. unfold find_all. destruct needle as [|x needle]; [done|].
  by apply find_from_spec; [|lia].
Qed.

(** ** Executing a plan *)

Section Execution.
Context (faults : nat -> op_kind -> fault) (kept : string -> bool)
        (sha256_hex : list Z -> string) (to_json : Journal -> list Z)
        (git_head : Disk -> option string)
        (syntax_counts_of : string -> list Z -> list Z -> option (nat * nat) * option (nat * nat))
        (process : list string -> Z -> Shadow -> Disk -> Outcome * Shadow * Disk).
#[local] Abbreviation apply_plan :=
  (apply_plan faults kept sha256_hex to_json git_head syntax_counts_of process).

Section Targets.
Context (root : string) (d : Disk) (planned : list PlannedOperation).

Definition mode_of (key : string) : Z :=
  match d_nodes d !! path_join root key with Some (FileNode _ m _) => m | _ => 0%Z end.
Definition target_of (x : string * Snapshot) : Target :=
  mkTarget (mkPublication x.1 (sn_file_sha256 x.2)
              (weave (sn_content x.2) 0 (sort_by_key (fun op => op_start op) (mutations_of planned x.1))))
    (path_join root x.1) (sn_content x.2) (mode_of x.1).

Lemma targets_files sns projections publications files :
  snapshots_ok sha256_hex root d sns files ->
  project_files sha256_hex syntax_counts_of planned sns = Ok (projections, false) ->
  Forall2 (fun x y => publication_of sns x = Ok y) projections publications ->
  publications = t_file <$> (target_of <$> sns).
Proof.
  intros (Hnd & _ & _) Hj Hp. apply project_files_ok in Hj.
  assert (forall x, x ∈ sns -> btree_get sns x.1 = Some x.2) as Hget.
  { intros [k sn] Hx. by apply btree_get_elem. }
  assert (Forall2 (fun s x => x.1 = s.1 /\ btree_get sns s.1 = Some s.2
    /\ project_file sha256_hex syntax_counts_of planned s.1 s.2 = Ok x.2) sns projections) as Hall.
  { apply Forall2_same_length_lookup_2; [by eapply Forall2_length|]. intros i x y Hx Hy.
    pose proof (Forall2_lookup_lr _ _ _ _ _ _ Hj Hx Hy) as [H1 H2]. split_and!; [done| |done].
    apply Hget. by eapply list_elem_of_lookup_2. }
  clear Hget Hj. set (get := btree_get sns) in Hall. revert publications Hp.
  assert (forall x y, publication_of sns x = Ok y -> forall sn, get x.1 = Some sn ->
    y = mkPublication x.1 (sn_file_sha256 sn) (ap_content (fj_applied x.2))) as Hpub.
  { intros x y Hy sn Hsn. unfold publication_of in Hy. fold get in Hy. rewrite Hsn in Hy.
    by injection Hy as <-. }
  clearbody get. clear Hnd. generalize (publication_of sns), Hpub. clear Hpub. intros f Hpub.
  induction Hall as [|s x ss xs (Hx & Hg & Hj) _ IH]; intros publications Hp.
  { by apply Forall2_nil_inv_l in Hp as ->. }
  apply Forall2_cons_inv_l in Hp as (y & ys & Hy & Hys & ->). change (y :: ys = t_file (target_of s) :: (t_file <$> (target_of <$> ss))).
  rewrite <-(IH ys Hys). f_equal. rewrite <-Hx in Hg. rewrite (Hpub x y Hy _ Hg), (project_file_content _ _ _ _ _ _ Hj), Hx. done.
Qed.

Lemma targets_plain sns files d1 :
  snapshots_ok sha256_hex root d sns files -> same_view d d1 ->
  Forall (plain_target root d1) (target_of <$> sns) /\ NoDup (t_key <$> (target_of <$> sns)).
Proof.
  intros (Hnd & _ & Hall) Hv. split.
  - apply Forall_fmap. eapply List.Forall_impl; [|exact Hall]. intros [key sn] (Hr & b & m & Hn & Hsn).
    simpl in *. subst sn. destruct (view_regular root d d1 key Hv Hr) as (_ & H2 & H3 & _).
    split_and!; [done|done|]. simpl. destruct Hv as (_ & -> & _). unfold mode_of. by rewrite Hn.
  - rewrite <-list_fmap_compose.
    assert (t_key ∘ target_of <$> sns = path_join root <$> sns.*1) as -> by by rewrite <-list_fmap_compose.
    assert (Forall relative sns.*1) as Hrel.
    { apply Forall_fmap. eapply List.Forall_impl; [|exact Hall]. by intros x [[? _] _]. }
    clear Hall. induction sns.*1 as [|k l IH]; [constructor|]. apply NoDup_cons in Hnd as [Hk Hnd].
    apply Forall_cons in Hrel as [Hr Hrel]. simpl. constructor; [|by apply IH].
    intros (k' & Heq & Hk')%list_elem_of_fmap. eapply Forall_forall in Hrel; [|exact Hk'].
    apply path_join_inj in Heq; [|done..]. congruence.
Qed.
End Targets.

(** The publication of a plan through the journal. *)
Lemma publish_plan_journal from_json plan tx dry_run targets st d st' unfit d' :
  (forall j, from_json (to_json j) = Some j) -> whole_restores faults ->
  Forall (plain_target (pw_root (pl_workspace plan)) d) targets -> NoDup (t_key <$> targets) ->
  journal_is (idle from_json) d -> pl_publish plan <> Atomic ->
  publish_plan faults kept sha256_hex to_json plan tx dry_run (t_file <$> targets) st d
    = (Ok (st', true, unfit), d') ->
  framed d targets d' /\ all_new targets d'.
Proof.
  intros Hj Hw Hp Hnd Hidle Hmode H. pose proof (publish_plan_result _ _ _ _ _ _ _ _ _ _ _ _ _ _ H) as [Hres _].
  destruct (Hres eq_refl) as (-> & -> & Hpub). unfold publishes in Hpub.
  apply andb_true_iff in Hpub as [Hdry Hpatch]. unfold publish_plan in H. rewrite Hdry in H. simpl in H.
  assert (before_commit from_json d targets d) as Hb.
  { split_and!; [done| |done]. eapply List.Forall_impl; [|exact Hp]. by intros t (_ & _ & ?). }
  pose proof (publish_spec faults kept sha256_hex to_json from_json (pw_root (pl_workspace plan)) tx d
    targets Hj Hp Hnd True (fun _ _ _ => I) Hw (fun _ => I) d Hb) as Hs.
  assert (exists d2, publish_journal_locked faults kept sha256_hex to_json (pw_root (pl_workspace plan)) tx
    (t_file <$> targets) d = (Ok tt, d2) /\ d2 = d') as (d2 & Hrun & ->).
  { destruct (pl_publish plan); try done; apply bind_ok_inv in H as ([[]|e] & d2 & Ht & H); try done;
      injection H as _ <-; unfold try_ in Ht; exists d2; (split; [|done]);
      destruct (publish_journal_locked _ _ _ _ _ _ _ _) as [[[]|?|] d3]; by simplify_eq. }
  rewrite Hrun in Hs. destruct Hs as [[(Hf & Hn & _) _] _]. done.
Qed.

(** A transaction of a plan that failed and was undone. *)
Lemma publish_plan_undo from_json plan tx targets d e d' :
  (forall j, from_json (to_json j) = Some j) -> whole_restores faults ->
  Forall (plain_target (pw_root (pl_workspace plan)) d) targets -> NoDup (t_key <$> targets) ->
  journal_is (idle from_json) d ->
  publish_journal_locked faults kept sha256_hex to_json (pw_root (pl_workspace plan)) tx (t_file <$> targets) d
    = (Err e, d') -> e <> rollback_incomplete -> d_nodes d' = d_nodes d.
Proof.
  intros Hj Hw Hp Hnd Hidle H Hne.
  assert (Forall (fun t => at_ d t (t_old t)) targets) as Hold.
  { eapply List.Forall_impl; [|exact Hp]. by intros t (_ & _ & ?). }
  pose proof (publish_spec faults kept sha256_hex to_json from_json (pw_root (pl_workspace plan)) tx d
    targets Hj Hp Hnd True (fun _ _ _ => I) Hw (fun _ => I) d) as Hs.
  rewrite H in Hs. destruct Hs as [[Hrec Hres] _]; [by split_and!|].
  destruct Hres as [Hback|]; [|done].
  apply (recoverable_known _ _ _ _ _ _ Hj) in Hrec as [[_ Hframe] _].
  apply map_eq. intros k. destruct (decide (k ∈ t_key <$> targets)) as [Hk|Hk]; [|by apply Hframe].
  apply list_elem_of_fmap in Hk as (t & -> & Ht).
  eapply Forall_forall in Hold; [|exact Ht]. eapply Forall_forall in Hback; [|exact Ht].
  unfold at_ in *. congruence.
Qed.

(** The workspace is fit for a transaction: the journal's codec is lossless, no
    restore is torn, no transaction is pending, and the files the plan names
    are plain files of the workspace. *)
Record ready (from_json : list Z -> option Journal) (plan : Plan) (d : Disk) : Prop := {
  rd_json : forall j, from_json (to_json j) = Some j;
  rd_restores : whole_restores faults;
  rd_idle : journal_is (idle from_json) d;
  rd_regular : forall op key, op ∈ pl_operations plan ->
    key_of faults (pw_root (pl_workspace plan)) d (po_file op) key ->
    regular (pw_root (pl_workspace plan)) d key
}.

Lemma undone_transaction from_json plan tx dry_run sns files d d1 st d' :
  ready from_json plan d ->
  foldM (snapshot_operation faults sha256_hex (pw_root (pl_workspace plan))) ([], [])
    (pl_operations plan) d = (Ok (sns, files), d1) -> same_view d d1 ->
  published_run faults kept sha256_hex to_json syntax_counts_of plan tx dry_run sns files st false d1 d' ->
  st <> StPublishFailed -> d_nodes d' = d_nodes d.
Proof.
  intros [Hj Hw Hidle Hreg] Hfold Hv Hr Hst.
  pose proof (snapshots_spec faults sha256_hex _ d (pl_operations plan) Hreg d (reflexivity d)) as Hs.
  rewrite Hfold in Hs. destruct Hs as (_ & Hsns & _). cbn [fst snd] in *.
  destruct Hr as [planned projections pubs before after st0 unfit failed _ _ Hj' Hfail Hpubs Hb Hp Ha].
  assert (same_view d before) as Hvb by by etransitivity.
  assert (d_nodes after = d_nodes before) as Hafter; [|destruct Hvb as (_ & <- & _), Ha as (_ & -> & _); done].
  apply publish_plan_undone in Hp as [(_ & ? & _)|(Hst0 & _ & e & Hrun & ->)]; [done|].
  rewrite (Hfail Hst0) in Hj'.
  pose proof (targets_files _ d (note_overlaps planned) sns projections pubs files Hsns Hj' Hpubs) as ->.
  destruct (targets_plain _ d (note_overlaps planned) sns files before Hsns Hvb) as [Hplain Hnd].
  eapply (publish_plan_undo from_json plan tx _ before e); [done..| |exact Hrun|].
  - unfold journal_is in *. by rewrite (view_jfile d before).
  - by intros ->.
Qed.

(** C36: Provided that the validators leave the workspace alone: a dry run and a
    plan in patch mode change nothing in it, however they end and whatever
    fails.  Neither does a plan that ends in an error, that the lock was
    refused to, or whose certificate gives one of the statuses not-found,
    ambiguous, invalid-result and validation-failed; nor, in atomic mode, any
    plan that does not report that it was published.  In the journal modes a
    plan that is not published and whose status is not publish-failed (a stale
    one above all) leaves every file as it was, when no restore is torn, no
    earlier transaction is pending and the plan's files are plain.  A
    certificate says that it was published only when its status is applied,
    the lock was acquired and the run was not dry. *)
Theorem plan_refusal_is_harmless from_json plan tx lock dry_run d :
  confined process ->
  let '(r, d') := apply_plan plan tx lock dry_run d in
  (publishes (pl_publish plan) dry_run = false -> same_view d d')
  /\ match r with
     | Ok cert =>
         (refused (c_status cert) = true \/ is_ok lock = false -> same_view d d' /\ c_published cert = false)
         /\ (c_status cert = StStale -> c_published cert = false)
         /\ (c_published cert = false -> pl_publish plan = Atomic -> same_view d d')
         /\ (c_published cert = false -> c_status cert <> StPublishFailed -> ready from_json plan d ->
               d_nodes d' = d_nodes d)
         /\ (c_published cert = true -> c_status cert = StApplied /\ is_ok lock = true
               /\ publishes (pl_publish plan) dry_run = true)
     | Err _ => same_view d d'
     | Panic => True
     end.
Proof.
  intros Hc. destruct (apply_plan plan tx lock dry_run d) as [r d'] eqn:H. split.
  { intros Hp. by eapply (apply_plan_quiet _ _ _ _ _ _ process Hc). }
  destruct r as [cert|e|]; [|by eapply (apply_plan_failed _ _ _ _ _ _ process Hc)|done].
  apply (apply_plan_ok _ _ _ _ _ _ process Hc) in H
    as [(H1 & H2 & H3)|(takeover & sns & files & d1 & -> & Hf & Hv & Hr)].
  { rewrite H2. split_and!; try done. intros _ _ _. apply H1. }
  assert (c_published cert = false -> c_status cert <> StPublishFailed -> ready from_json plan d ->
    d_nodes d' = d_nodes d) as Hundo.
  { intros Hp Hst Hready. rewrite Hp in Hr. by eapply undone_transaction. }
  destruct Hr as [planned projections pubs before after st0 unfit failed _ _ _ _ _ Hb Hp Ha].
  pose proof (publish_plan_result _ _ _ _ _ _ _ _ _ _ _ _ _ _ Hp) as [H1 H2]. split_and!.
  - intros [Hr|Hr]; [|done]. apply H2 in Hr as [Hr1 Hr2]. split; [|done].
    do 2 (etransitivity; [done|]). by etransitivity.
  - intros Hst. destruct (c_published cert); [|done]. destruct H1 as (_ & ? & _); [done|congruence].
  - intros Hpub Hmode. rewrite Hpub in Hp. apply publish_plan_undone in Hp as [Hp|(_ & ? & _)]; [|done].
    do 2 (etransitivity; [done|]). by etransitivity.
  - done.
  - intros Hr. by apply H1 in Hr as (_ & ? & ?).
Qed.

(** C35: A plan that reports that it was published (through the journal) has done
    just what it says, under any schedule of faults that does not tear a
    restore and with validators that leave the workspace alone: no operation
    had a problem, every file the plan names has its old content with each
    selected range replaced as the action asks, computed from that old content
    and with the mode it had, and no other file has changed. *)
Theorem applied_plan_exact from_json plan tx lock dry_run d cert d' :
  let root := pw_root (pl_workspace plan) in
  confined process -> (forall j, from_json (to_json j) = Some j) -> whole_restores faults ->
  journal_is (idle from_json) d -> pl_publish plan <> Atomic ->
  (forall op key, op ∈ pl_operations plan -> key_of faults root d (po_file op) key -> regular root d key) ->
  apply_plan plan tx lock dry_run d = (Ok cert, d') -> c_published cert = true ->
  exists files,
    Forall2 (fun op key => key_of faults root d (po_file op) key) (pl_operations plan) files
    /\ (forall key b m, key ∈ files -> d_nodes d !! path_join root key = Some (FileNode b m 1) ->
          d_nodes d' !! path_join root key
          = Some (FileNode (weave b 0 (sort_by_key (fun op => op_start op)
                              (edits sha256_hex root plan files key b))) m 1))
    /\ (forall k, k ∉ path_join root <$> files -> d_nodes d' !! k = d_nodes d !! k)
    /\ (forall i op key b m, pl_operations plan !! i = Some op -> files !! i = Some key ->
          d_nodes d !! path_join root key = Some (FileNode b m 1) ->
          pd_problem (plan_operation sha256_hex plan op key (snapshot_of sha256_hex root key b)) = None).
Proof.
  intros root Hc Hj Hw Hidle Hmode Hreg H Hpub.
  apply (apply_plan_ok _ _ _ _ _ _ process Hc) in H as [(_ & H2 & _)|(takeover & sns & files & d1 & -> & Hfold & Hv & Hr)]; [congruence|].
  pose proof (snapshots_spec faults sha256_hex root d (pl_operations plan) Hreg d (reflexivity d)) as Hs.
  fold root in Hfold. rewrite Hfold in Hs. destruct Hs as (_ & Hsns & Hkeys). cbn [fst snd] in *.
  destruct Hr as [planned projections pubs before after st0 unfit failed Hops Hst Hj' Hfail Hpubs Hb Hp Ha].
  rewrite Hpub in Hp. pose proof (publish_plan_result _ _ _ _ _ _ _ _ _ _ _ _ _ _ Hp) as [Hres _].
  destruct (Hres eq_refl) as (Hst0 & _ & _). rewrite (Hfail Hst0) in Hj'.
  assert (same_view d before) as Hvb by by etransitivity.
  pose proof (targets_files root d (note_overlaps planned) sns projections pubs files Hsns Hj' Hpubs) as ->.
  destruct (targets_plain root d (note_overlaps planned) sns files before Hsns Hvb) as [Hplain Hnd].
  assert (journal_is (idle from_json) before) as Hidle'.
  { unfold journal_is in *. by rewrite (view_jfile d before). }
  destruct (publish_plan_journal from_json plan tx dry_run _ _ _ _ _ _ Hj Hw Hplain Hnd Hidle' Hmode Hp)
    as [[_ Hframe] Hnew].
  destruct Hsns as (Hnodup & Hdom & Hall). destruct Hvb as (_ & Hnb & _), Ha as (_ & Hna & _).
  assert (forall key b m, key ∈ files -> d_nodes d !! path_join root key = Some (FileNode b m 1) ->
    (key, snapshot_of sha256_hex root key b) ∈ sns) as Hin.
  { intros key b m Hk Hn. apply Hdom in Hk. apply list_elem_of_fmap in Hk as ([k sn] & -> & Hx). simpl in *.
    eapply Forall_forall in Hall as (_ & b' & m' & Hn' & Hsn); [|exact Hx]. simpl in *. subst sn.
    rewrite Hn in Hn'. by injection Hn' as -> ->. }
  exists files. split_and!; [done|..].
  - intros key b m Hk Hn. pose proof (Hin key b m Hk Hn) as Hx. rewrite Hna.
    assert (target_of root d (note_overlaps planned) (key, snapshot_of sha256_hex root key b)
            ∈ target_of root d (note_overlaps planned) <$> sns) as Ht by by apply list_elem_of_fmap_2.
    eapply Forall_forall in Hnew; [|exact Ht]. unfold at_ in Hnew. cbn [target_of t_key t_file fp_content t_mode fst snd] in Hnew.
    rewrite Hnew. cbn [snapshot_of sn_content]. unfold mode_of. rewrite Hn.
    rewrite (mutations_edits sha256_hex root plan sns files planned key b Hops); [done|].
    by apply btree_get_elem.
  - intros k Hk. rewrite Hna, Hframe, Hnb; [done|]. intros Hx. apply Hk.
    apply list_elem_of_fmap in Hx as (t & -> & Ht). apply list_elem_of_fmap in Ht as ([key sn] & -> & Hx).
    apply list_elem_of_fmap. exists key. split; [done|]. apply Hdom, list_elem_of_fmap. by exists (key, sn).
  - intros i op key b m Hop Hkey Hn. pose proof (planned_no_problem _ _ _ _ _ Hops Hst) as Hnone.
    assert (zip (pl_operations plan) files !! i = Some (op, key)) as Hz by by apply lookup_zip_Some.
    destruct (Forall2_lookup_l _ _ _ _ _ Hops Hz) as (p & Hp' & sn & Hsn & Heq). cbn [fst snd] in *.
    eapply Forall_lookup_1 in Hnone; [|exact Hp']. rewrite Heq in Hnone.
    assert (key ∈ files) as Hkf by by eapply list_elem_of_lookup_2.
    rewrite (btree_get_elem sns key _ Hnodup (Hin key b m Hkf Hn)) in Hsn. by injection Hsn as <-.
Qed.
End Execution.

(** ** A concrete plan *)

Module SamplePlan.
(** Two edits and a validator; [old] is what [a] is expected to hold. *)
Definition plan_for (old : list Z) : Plan :=
  mkPlan PLAN_SCHEMA (mkWorkspace "/w" None true)
    [mkOperation "one" "./a" (Resolved 0 1) (Replace [11]%Z)
       (mkPreconditions (Some (Sample.hash old)) None);
     mkOperation "two" "b" (Text [2]%Z 1) (InsertAfter [12]%Z)
       (mkPreconditions (Some (Sample.hash [2]%Z)) None)] [mkValidator ["check"] 10] JournalMode.
Definition plan : Plan := plan_for [1]%Z.

(** A process that looks for the edit in its copy. *)
Definition idle_process (argv : list string) (timeout : Z) (sh : Shadow) (d : Disk) : Outcome * Shadow * Disk :=
  (Exited (Some (if bool_decide (sh !! ["a"] = Some (ShadowFile [11]%Z)) then 0 else 1)%Z), sh, d).
Lemma idle_confined : confined idle_process.
Proof. done. Qed.

Definition run_of (p : Plan) : FS Certificate :=
  apply_plan no_faults Sample.everything Sample.hash Sample.to_json (fun _ => None)
    (fun _ _ _ => (None, None)) idle_process p "t" (Ok None) false.
Definition run : FS Certificate := run_of plan.

Lemma regular_files old op key :
  op ∈ pl_operations (plan_for old) -> key_of no_faults "/w" Sample.d0 (po_file op) key ->
  regular "/w" Sample.d0 key.
Proof.
  intros Hop (d1 & d2 & (Hc & Hn & _) & H). destruct d1 as [can nodes j temps clock].
  simpl in Hc, Hn. subst can nodes.
  apply elem_of_cons in Hop as [->|Hop]; [|apply list_elem_of_singleton in Hop as ->];
    vm_compute in H; injection H as <- _;
    (split_and!; [done|by vm_compute|by exists "/w"; vm_compute|do 2 eexists; by vm_compute]).
Qed.
Lemma plan_ready old : ready no_faults Sample.to_json Sample.from_json (plan_for old) Sample.d0.
Proof. split; [apply Sample.json_ok|done|done|apply regular_files]. Qed.
End SamplePlan.

(** The file [a] is not what the plan expects: the certificate says so and the
    files are as they were. *)
Lemma plan_refusal_is_harmless_witness :
  exists cert d', SamplePlan.run_of (SamplePlan.plan_for [7]%Z) Sample.d0 = (Ok cert, d')
    /\ c_status cert = StStale /\ d_nodes d' = d_nodes Sample.d0.
Proof.
  pose proof (plan_refusal_is_harmless no_faults Sample.everything Sample.hash Sample.to_json (fun _ => None)
    (fun _ _ _ => (None, None)) SamplePlan.idle_process Sample.from_json (SamplePlan.plan_for [7]%Z) "t" (Ok None)
    false Sample.d0 SamplePlan.idle_confined) as H.
  destruct (SamplePlan.run_of (SamplePlan.plan_for [7]%Z) Sample.d0) as [r d'] eqn:Hrun.
  unfold SamplePlan.run_of in Hrun. rewrite Hrun in H.
  destruct r as [cert|e|]; [|vm_compute in Hrun; discriminate Hrun..].
  assert (c_status cert = StStale) as Hst by (vm_compute in Hrun; injection Hrun as <- _; reflexivity).
  destruct H as (_ & _ & Hpub & _ & Hundo & _). exists cert, d'. split_and!; [done|done|].
  apply Hundo; [by apply Hpub|by rewrite Hst|apply SamplePlan.plan_ready].
Defined.

Lemma applied_plan_exact_witness :
  exists cert d', SamplePlan.run Sample.d0 = (Ok cert, d') /\ c_published cert = true
    /\ Sample.contents d' = [Some [11]; Some [2; 10; 12; 10]; Some [3]]%Z
    /\ exists files, Forall2 (fun op key => key_of no_faults "/w" Sample.d0 (po_file op) key)
         (pl_operations SamplePlan.plan) files.
Proof.
  pose proof (SamplePlan.plan_ready [1]%Z) as Hready.
  assert (pl_publish SamplePlan.plan <> Atomic) as Hmode by done.
  destruct (SamplePlan.run Sample.d0) as [r d'] eqn:H.
  assert (exists cert, r = Ok cert /\ c_published cert = true
    /\ Sample.contents d' = [Some [11]; Some [2; 10; 12; 10]; Some [3]]%Z) as (cert & -> & Hp & Hc).
  { vm_compute in H. injection H as <- <-. eexists. by split_and!. }
  destruct (applied_plan_exact no_faults Sample.everything Sample.hash Sample.to_json (fun _ => None)
    (fun _ _ _ => (None, None)) SamplePlan.idle_process Sample.from_json SamplePlan.plan "t" (Ok None) false
    Sample.d0 cert d' SamplePlan.idle_confined Sample.json_ok (rd_restores _ _ _ _ _ Hready)
    (rd_idle _ _ _ _ _ Hready) Hmode (rd_regular _ _ _ _ _ Hready) H Hp) as (files & Hf & _).
  exists cert, d'. split_and!; [reflexivity|exact Hp|exact Hc|]. exists files. exact Hf.
Defined.
