(* ===== verification/Loop.v ===== *)
(** Loops that are not structural: a [while let Some(x) = queue.pop_front()]
    loop as the iteration of its body under a bound on the number of turns.
    [None] says that the loop has not ended within the bound; the rule
    [while_total] shows that a body that decreases a measure ends, and with
    which result.  Also [for] loops with [?] in their body, Rust's
    [sort_by] and the order in which a hash table is walked. *)

From S2P Require Import Prelude.

(** ** While loops *)

Section While.
Context {E St A : Type}.

(** One turn of a loop body: go on with a new state, or leave the loop. *)
Fixpoint while_loop (fuel : nat) (body : St -> res E (St + A)) (s : St)
  : option (res E A) :=
  match fuel with
  | O => None
  | S fuel =>
      match body s with
      | Ok (inl s') => while_loop fuel body s'
      | Ok (inr a) => Some (Ok a)
      | Err e => Some (Err e)
      | Panic => Some Panic
      end
  end.

(** What one turn has to establish: the invariant and a smaller measure when
    the loop goes on, the postcondition on every exit. *)
Definition turn (I : St -> Prop) (m : St -> nat) (Q : res E A -> Prop)
    (before : nat) (r : res E (St + A)) : Prop :=
  match r with
  | Ok (inl s) => I s /\ (m s < before)%nat
  | Ok (inr a) => Q (Ok a)
  | Err e => Q (Err e)
  | Panic => Q Panic
  end.

Lemma while_total (I : St -> Prop) (m : St -> nat) (Q : res E A -> Prop) body :
  (forall s, I s -> turn I m Q (m s) (body s)) ->
  forall fuel s, I s -> (m s < fuel)%nat ->
  exists r, while_loop fuel body s = Some r /\ Q r.
Proof.
  intros Hbody fuel. induction fuel as [|fuel IH]; intros s HI Hm; [lia|]. simpl.
  pose proof (Hbody s HI) as Ht. destruct (body s) as [[s'|a]|e|]; simpl in Ht; [|by eauto..].
  destruct Ht as [HI' Hlt]. apply IH; [done | lia].
Qed.
End While.

(** ** For loops that can return early with an error *)

Notation "'let?' x ':=' m 'in' k" := (res_bind m (fun x => k))
  (at level 10, x pattern, m at level 100, k at level 200).

(** What follows a loop, once it has ended. *)
Definition after {E A B} (r : option (res E A)) (k : A -> res E B) : option (res E B) :=
  match r with Some r => Some (res_bind r k) | None => None end.

Lemma after_some {E A B} (r : res E A) (k : A -> res E B) : after (Some r) k = Some (res_bind r k).
Proof. done. Qed.

Section ForLoops.
Context {E A B : Type}.

Fixpoint try_fold (f : B -> A -> res E B) (b : B) (l : list A) : res E B :=
  match l with
  | [] => Ok b
  | a :: l => let? b' := f b a in try_fold f b' l
  end.

Lemma try_fold_ok_inv (P : B -> Prop) f l b b' :
  (forall b a b', a ∈ l -> P b -> f b a = Ok b' -> P b') ->
  P b -> try_fold f b l = Ok b' -> P b'.
Proof.
  revert b. induction l as [|a l IH]; intros b Hf HP; simpl; [by intros [= ->]|].
  destruct (f b a) as [b1| |] eqn:Hb; simpl; [|done..]. intros Hl.
  eapply IH; [|by eapply Hf; [left|..]|done].
  intros b2 a2 b3 Ha. apply Hf. by right.
Qed.

Lemma try_fold_pure (g : B -> A -> B) f l b :
  (forall b a, a ∈ l -> f b a = Ok (g b a)) -> try_fold f b l = Ok (foldl g b l).
Proof.
  revert b. induction l as [|a l IH]; intros b Hf; simpl; [done|].
  rewrite (Hf b a) by left. simpl. apply IH. intros b' a' Ha. apply Hf. by right.
Qed.
End ForLoops.

(** [iter().map(f).collect::<Result<Vec<_>>>()], with the results that are
    [None] left out. *)
Section FilterMap.
Context {E A B : Type}.

Fixpoint try_filter_map (f : A -> res E (option B)) (l : list A) : res E (list B) :=
  match l with
  | [] => Ok []
  | a :: l =>
      let? o := f a in
      let? r := try_filter_map f l in
      Ok (match o with Some b => b :: r | None => r end)
  end.

Definition answer (f : A -> res E (option B)) (a : A) : option B :=
  match f a with Ok o => o | _ => None end.

Lemma try_filter_map_ok f l out :
  try_filter_map f l = Ok out ->
  (forall a, a ∈ l -> f a = Ok (answer f a)) /\ out = omap (answer f) l.
Proof.
  revert out. induction l as [|a l IH]; intros out; simpl.
  - intros [= <-]. split; [|done]. intros a Ha. by apply elem_of_nil in Ha.
  - destruct (f a) as [o| |] eqn:Ha; simpl; [|done..].
    destruct (try_filter_map f l) as [r| |] eqn:Hl; simpl; [|done..].
    intros [= <-]. destruct (IH r eq_refl) as [Hg ->]. split.
    + intros x Hx. unfold answer. apply elem_of_cons in Hx as [->|Hx]; [by rewrite Ha|].
      apply Hg, Hx.
    + cbn. replace (answer f a) with o by (unfold answer; by rewrite Ha). by destruct o.
Qed.

(** The list is the answers, whatever order they were asked in. *)
Lemma elem_of_try_filter_map f l out b :
  try_filter_map f l = Ok out ->
  b ∈ out <-> exists a, a ∈ l /\ f a = Ok (Some b).
Proof.
  intros [Hg ->]%try_filter_map_ok. rewrite list_elem_of_omap. split.
  - intros (a & Ha & Hb). exists a. split; [done|]. by rewrite (Hg a Ha), Hb.
  - intros (a & Ha & Hb). exists a. split; [done|]. rewrite (Hg a Ha) in Hb. by injection Hb.
Qed.

Lemma try_filter_map_total f l :
  (forall a, a ∈ l -> exists o, f a = Ok o) -> exists out, try_filter_map f l = Ok out.
Proof.
  induction l as [|a l IH]; intros Hf; simpl; [by eexists|].
  destruct (Hf a) as [o ->]; [by left|]. simpl.
  destruct IH as [out ->]; [intros x Hx; apply Hf; by right|]. simpl. by eexists.
Qed.
End FilterMap.

(** ** Sorting by a comparator

    [slice::sort_by] takes a comparator, built from the comparisons of the
    fields with [then_with].  [Comparator] says that it is a total preorder. *)

Class Comparator {A} (cmp : A -> A -> comparison) : Prop := {
  cmp_opp : forall a b, cmp b a = CompOpp (cmp a b);
  cmp_trans : forall a b c, cmp a b <> Gt -> cmp b c <> Gt -> cmp a c <> Gt
}.

#[export] Hint Mode Comparator ! ! : typeclass_instances.

Definition cmp_on {A B} (key : A -> B) (cmp : B -> B -> comparison) (a b : A) : comparison :=
  cmp (key a) (key b).
Definition cmp_desc {A} (cmp : A -> A -> comparison) (a b : A) : comparison := cmp b a.
(** [Ordering::then_with]. *)
Definition then_with {A} (c1 c2 : A -> A -> comparison) (a b : A) : comparison :=
  match c1 a b with Eq => c2 a b | o => o end.

Definition sort_by {A} (cmp : A -> A -> comparison) : list A -> list A :=
  merge_sort (fun a b => cmp a b <> Gt).

#[export] Instance Z_comparator : Comparator Z.compare.
Proof.
  split; [intros a b; by rewrite Z.compare_antisym|]. intros a b c.
  unfold "<>". rewrite !Z.compare_gt_iff. lia.
Qed.
#[export] Instance nat_comparator : Comparator Nat.compare.
Proof.
  split; [intros a b; by rewrite Nat.compare_antisym|]. intros a b c.
  unfold "<>". rewrite !Nat.compare_gt_iff. lia.
Qed.

Lemma string_compare_trans s1 s2 s3 :
  String.compare s1 s2 <> Gt -> String.compare s2 s3 <> Gt -> String.compare s1 s3 <> Gt.
Proof.
  revert s2 s3. induction s1 as [|c1 s1 IH]; intros [|c2 s2] [|c3 s3]; simpl; try done.
  unfold Ascii.compare.
  destruct (N.compare_spec (Ascii.N_of_ascii c1) (Ascii.N_of_ascii c2)) as [H12|H12|H12];
    destruct (N.compare_spec (Ascii.N_of_ascii c2) (Ascii.N_of_ascii c3)) as [H23|H23|H23];
    destruct (N.compare_spec (Ascii.N_of_ascii c1) (Ascii.N_of_ascii c3)) as [H13|H13|H13];
    try lia; try done. apply IH.
Qed.
#[export] Instance string_comparator : Comparator String.compare.
Proof.
  split; [intros a b; by rewrite String.compare_antisym | apply string_compare_trans].
Qed.

Lemma comparator_on {A B} (key : A -> B) cmp : Comparator cmp -> Comparator (cmp_on key cmp).
Proof.
  intros Hc. split; unfold cmp_on; [intros a b; apply (cmp_opp (cmp:=cmp))|intros a b c; apply (cmp_trans (cmp:=cmp))].
Qed.
Lemma comparator_desc {A} (cmp : A -> A -> comparison) : Comparator cmp -> Comparator (cmp_desc cmp).
Proof.
  intros Hc. split; unfold cmp_desc; [intros a b; apply (cmp_opp (cmp:=cmp))|].
  intros a b c H1 H2. by apply (cmp_trans (cmp:=cmp) c b a).
Qed.
Lemma comparator_then {A} (c1 c2 : A -> A -> comparison) :
  Comparator c1 -> Comparator c2 -> Comparator (then_with c1 c2).
Proof.
  intros H1 H2. split; unfold then_with.
  - intros a b. rewrite (cmp_opp (cmp:=c1) a b), (cmp_opp (cmp:=c2) a b). by destruct (c1 a b).
  - intros a b c.
    pose proof (cmp_trans (cmp:=c1) a b c) as Habc. pose proof (cmp_trans (cmp:=c1) c a b) as Hcab.
    pose proof (cmp_trans (cmp:=c1) b c a) as Hbca. pose proof (cmp_trans (cmp:=c2) a b c) as H2abc.
    pose proof (cmp_opp (cmp:=c1) a c) as Oac. pose proof (cmp_opp (cmp:=c1) a b) as Oab.
    pose proof (cmp_opp (cmp:=c1) b c) as Obc.
    destruct (c1 a b), (c1 b c), (c1 a c); simpl in *; rewrite ?Oac, ?Oab, ?Obc in *; auto;
      try (by exfalso; apply Habc); try (by exfalso; apply Hcab); by exfalso; apply Hbca.
Qed.
#[global] Typeclasses Opaque cmp_on cmp_desc then_with.
#[export] Hint Resolve comparator_on comparator_desc comparator_then : typeclass_instances.

Section SortBy.
Context {A : Type} (cmp : A -> A -> comparison) `{!Comparator cmp}.

Lemma sort_by_Permutation l : sort_by cmp l ≡ₚ l.
Proof. apply merge_sort_Permutation. Qed.

Lemma elem_of_sort_by l x : x ∈ sort_by cmp l <-> x ∈ l.
Proof. by rewrite sort_by_Permutation. Qed.

Lemma length_sort_by l : length (sort_by cmp l) = length l.
Proof. by rewrite sort_by_Permutation. Qed.

Lemma sort_by_sorted l : StronglySorted (fun a b => cmp a b <> Gt) (sort_by cmp l).
Proof.
  apply StronglySorted_merge_sort.
  - intros a b c. apply (cmp_trans (cmp:=cmp)).
  - intros a b. rewrite (cmp_opp (cmp:=cmp) a b). destruct (cmp a b); simpl; auto.
Qed.

(** A comparator that tells the elements of the list apart leaves only one
    way to sort them: the order the list came in does not matter. *)
Lemma sort_by_unique l1 l2 :
  l1 ≡ₚ l2 -> (forall a b, a ∈ l1 -> b ∈ l1 -> cmp a b = Eq -> a = b) ->
  sort_by cmp l1 = sort_by cmp l2.
Proof.
  intros Hp Heq. apply StronglySorted_unique_strong with (R := fun a b => cmp a b <> Gt).
  - intros a b Ha Hb Hab Hba. rewrite elem_of_sort_by in Ha, Hb. rewrite <- Hp in Hb.
    apply Heq; [done..|]. rewrite (cmp_opp (cmp:=cmp) a b) in Hba. by destruct (cmp a b).
  - apply sort_by_sorted.
  - apply sort_by_sorted.
  - by rewrite !sort_by_Permutation.
Qed.
End SortBy.

(** ** The order of a hash table

    [HashMap] and [HashSet] are walked in an order that the program cannot
    know: it is a parameter, of which only this is used. *)

Class HashOrder (walk : forall A, list A -> list A) : Prop :=
  hash_order_permutation : forall A (l : list A), walk A l ≡ₚ l.

#[export] Instance hash_order_id : HashOrder (fun _ l => l).
Proof. by intros A l. Qed.
#[export] Instance hash_order_reverse : HashOrder (fun _ l => reverse l).
Proof. intros A l. by rewrite reverse_Permutation. Qed.

Section HashOrder.
Context (walk : forall A, list A -> list A) `{!HashOrder walk}.

Lemma elem_of_walk {A} (l : list A) x : x ∈ walk A l <-> x ∈ l.
Proof. by rewrite (hash_order_permutation A l). Qed.

(** A loop over a hash map that builds at most one row per key builds no two
    rows for one key. *)
Lemma walk_rows_nodup {E B V} (f : Z * V -> res E (option B)) (key : B -> Z) (m : gmap Z V) out :
  (forall n v b, f (n, v) = Ok (Some b) -> key b = n) ->
  try_filter_map f (walk _ (map_to_list m)) = Ok out -> NoDup (key <$> out).
Proof.
  intros Hkey [_ ->]%try_filter_map_ok.
  assert (forall n v b, answer f (n, v) = Some b -> key b = n) as Hans.
  { intros n v b Hb. apply (Hkey n v). unfold answer in Hb. destruct (f (n, v)); [by f_equal|done..]. }
  assert (NoDup (walk _ (map_to_list m)).*1) as Hnd.
  { rewrite (hash_order_permutation _ (map_to_list m)). apply NoDup_fst_map_to_list. }
  induction (walk _ (map_to_list m)) as [|[n v] l IH]; [by constructor|].
  inversion Hnd as [|? ? Hn Hnd']; subst. cbn -[answer].
  destruct (answer f (n, v)) as [b|] eqn:Hb; [|by apply IH]. cbn -[answer].
  constructor; [|by apply IH]. rewrite (Hans _ _ _ Hb).
  intros (b' & Hnb & Hb')%list_elem_of_fmap. apply list_elem_of_omap in Hb' as ([n' v'] & Hin & Hb').
  apply Hans in Hb'. apply Hn, list_elem_of_fmap. exists (n', v'). split; [|done]. simpl. congruence.
Qed.
End HashOrder.
