(* ===== verification/RustText.v ===== *)
(** Text primitives of Rust's standard library on UTF-8 byte strings:
    [str::chars], [char::is_whitespace],
    [str::trim] and [Vec<&str>::sort_unstable] followed
    by [dedup]. *)

From S2P Require Import Prelude RustStr Loop.

(** ** Characters

    A [char] is the list of the bytes that encode it. *)

Definition char := (list Z).

(** The length of the encoding that a first byte announces. *)
Definition char_len (b : Z) : nat :=
  if b <? 128 then 1 else if b <? 224 then 2 else if b <? 240 then 3 else 4.

(** [str::chars], on the bytes of a string. *)
Fixpoint chars_of (fuel : nat) (b : list Z) : list char :=
  match fuel, b with
  | S fuel, x :: _ => take (char_len x) b :: chars_of fuel (drop (char_len x) b)
  | _, _ => []
  end.

(** A string has at most as many characters as bytes. *)
Definition chars (s : string) : list char :=
  let b := bytes_of_string s in chars_of (length b) b.

(** [String::from_iter]. *)
Definition text (cs : list char) : string := string_of_bytes (mjoin cs).

(** [char::is_whitespace]: the encodings of the characters with the
    White_Space property. *)
Definition white_space : list char :=
  ((fun c => [c]) <$> [9; 10; 11; 12; 13; 32]) ++
  [[194; 133]; [194; 160]; [225; 154; 128]] ++
  ((fun i => [226; 128; 128 + Z.of_nat i]) <$> seq 0 11) ++
  [[226; 128; 168]; [226; 128; 169]; [226; 128; 175]; [226; 129; 159]; [227; 128; 128]].

Definition is_whitespace (c : char) : bool := bool_decide (c ∈ white_space).

Fixpoint drop_while {A} (p : A -> bool) (l : list A) : list A :=
  match l with
  | [] => []
  | x :: l' => if p x then drop_while p l' else l
  end.

Definition trim_chars (cs : list char) : list char :=
  reverse (drop_while is_whitespace (reverse (drop_while is_whitespace cs))).

(** [str::trim]. *)
Definition trim (s : string) : string := text (trim_chars (chars s)).

(** [Vec::dedup]: consecutive equal elements are merged. *)
Fixpoint dedup {A} `{EqDecision A} (l : list A) : list A :=
  match l with
  | [] => []
  | x :: l => match l with
              | [] => [x]
              | y :: _ => if decide (x = y) then dedup l else x :: dedup l
              end
  end.

Lemma elem_of_dedup {A} `{EqDecision A} (l : list A) x : x ∈ dedup l <-> x ∈ l.
Proof.
  induction l as [|y l IH]; [done|]. destruct l as [|z l]; [done|].
  cbn [dedup]. destruct (decide (y = z)) as [->|].
  - rewrite IH. set_solver.
  - rewrite (elem_of_cons _ x y), IH. by rewrite <- elem_of_cons.
Qed.

Definition sort_strings (l : list string) : list string := sort_by String.compare l.

Example trim_ascii : trim "  CALLS	" = "CALLS"%string.
Proof. reflexivity. Qed.
