(* ===== verification/Fts.v ===== *)
(** The tokens of the full-text index (crates/store/src/fts.rs):
    [camel_split], which cuts an identifier into lower-case words, and
    [fts_tokens] (node.rs), the columns a node contributes to [nodes_fts].

    Whether a character outside ASCII is alphanumeric is Unicode data, the
    parameter [uni_alnum]; that no such character is white space is its only
    property used. *)

From S2P Require Import Prelude RustStr RustText.

Definition space : char := [32].
Definition in_bytes (lo hi : Z) (c : char) : bool :=
  match c with [b] => (lo <=? b) && (b <=? hi) | _ => false end.
Definition is_upper := in_bytes 65 90.
Definition is_lower := in_bytes 97 122.
Definition is_digit := in_bytes 48 57.
Definition to_lower (c : char) : char :=
  match c with [b] => if is_upper c then [b + 32] else c | _ => c end.
(** The separators ['_'], ['-'], ['.'], ['/']. *)
Definition is_separator (c : char) : bool := bool_decide (c ∈ [[95]; [45]; [46]; [47]]).

Section Camel.
Context (uni_alnum : char -> bool).

Definition is_alphanumeric (c : char) : bool :=
  match c with
  | [b] => is_upper c || is_lower c || is_digit c
  | _ => uni_alnum c
  end.

Record camel : Type := { out : list char; prev_lower : bool; prev_digit : bool; prev_boundary : bool }.

(** [if !out.is_empty() && !out.ends_with(' ') { out.push(' ') }]. *)
Definition push_space (out : list char) : list char :=
  match last out with
  | Some c => if bool_decide (c = space) then out else out ++ [space]
  | None => out
  end.

Definition camel_char (prev next : option char) (c : char) (st : camel) : camel :=
  if is_separator c then
    {| out := push_space (out st); prev_lower := false; prev_digit := false; prev_boundary := true |}
  else if is_upper c then
    let next_lower := match next with Some n => is_lower n | None => false end in
    let prev_upper := match prev with Some p => is_upper p | None => false end in
    let cut := negb (prev_boundary st) &&
      (prev_lower st || (prev_upper && next_lower) || prev_digit st) in
    {| out := (if cut then out st ++ [space] else out st) ++ [to_lower c];
       prev_lower := false; prev_digit := false; prev_boundary := false |}
  else if is_alphanumeric c then
    {| out := out st ++ [to_lower c];
       prev_lower := is_lower c; prev_digit := is_digit c; prev_boundary := false |}
  else
    {| out := push_space (out st); prev_lower := false; prev_digit := false; prev_boundary := true |}.

Fixpoint camel_loop (prev : option char) (cs : list char) (st : camel) : camel :=
  match cs with
  | [] => st
  | c :: cs => camel_loop (Some c) cs (camel_char prev (head cs) c st)
  end.

Definition camel_chars (cs : list char) : list char :=
  trim_chars (out (camel_loop None cs
    {| out := []; prev_lower := false; prev_digit := false; prev_boundary := true |})).

Definition camel_split (input : string) : string := text (camel_chars (chars input)).

(** [fts_tokens]. *)
Definition fts_tokens (name qualified_name : string) : string * string :=
  let tokens := camel_split name in
  let qtokens := camel_split qualified_name in
  ((tokens ++ " " ++ qtokens)%string, qtokens).

(** ** Words

    What [camel_split] produces: words of lower-case letters, digits and other
    alphanumeric characters, separated by single spaces. *)

Definition word_char (c : char) : Prop := is_alphanumeric c = true /\ is_upper c = false.

(** [words b cs]: [cs] are words and single spaces; [b] says that a space may
    not come first. *)
Fixpoint words (b : bool) (cs : list char) : Prop :=
  match cs with
  | [] => True
  | c :: cs => if bool_decide (c = space) then b = false /\ words true cs
               else word_char c /\ words false cs
  end.

Definition ends_in_word (cs : list char) : Prop :=
  match last cs with Some c => c <> space | None => True end.

Lemma words_app b cs c :
  words b cs -> c <> space -> word_char c -> words b (cs ++ [c]).
Proof.
  intros Hw Hc Hwc. revert b Hw. induction cs as [|x cs IH]; intros b; simpl.
  - intros _. by rewrite bool_decide_eq_false_2.
  - case_bool_decide; [|naive_solver]. intros [-> Hw]. by split; [|apply IH].
Qed.

Lemma words_app_space b cs :
  words b cs -> cs <> [] -> last cs <> Some space -> words b (cs ++ [space]).
Proof.
  revert b. induction cs as [|x cs IH]; intros b Hw Hne Hl; [done|]. simpl in Hw |- *.
  destruct cs as [|y cs]; [|rewrite last_cons_cons in Hl].
  - simpl in *. case_bool_decide; naive_solver.
  - case_bool_decide; destruct Hw as [? Hw]; (split; [done|]); by apply IH.
Qed.

Lemma push_space_words b cs : words b cs -> words b (push_space cs).
Proof.
  intros Hw. unfold push_space. destruct (last cs) as [c|] eqn:Hl; [|done].
  case_bool_decide; [done|]. apply words_app_space; [done| |congruence]. by intros ->.
Qed.

Lemma word_char_not_space c : word_char c -> c <> space.
Proof. intros [Hc _] ->. by vm_compute in Hc. Qed.

Lemma to_lower_word c : is_alphanumeric c = true -> word_char (to_lower c).
Proof.
  unfold word_char, to_lower. destruct c as [|x [|y c]]; simpl; [done| |done]. intros Ha.
  destruct ((65 <=? x) && (x <=? 90)) eqn:Hu; simpl; unfold is_upper, in_bytes; lia.
Qed.

Lemma upper_alphanumeric c : is_upper c = true -> is_alphanumeric c = true.
Proof. destruct c as [|x [|y c]]; simpl; [done| |done]. by intros ->. Qed.

(** The state of the loop: the output is words, and it ends in a word unless
    the last character was a boundary. *)
Definition camel_ok (st : camel) : Prop :=
  words true (out st) /\ (prev_boundary st = false -> out st <> [] /\ last (out st) <> Some space).

Lemma camel_char_ok prev next c st : camel_ok st -> camel_ok (camel_char prev next c st).
Proof.
  intros [Hw Hb]. unfold camel_char.
  assert (forall o d, words true o -> is_alphanumeric d = true -> words true (o ++ [to_lower d]) /\
    (o ++ [to_lower d] <> [] /\ last (o ++ [to_lower d]) <> Some space)) as Happ.
  { intros o d Ho Hd. pose proof (to_lower_word d Hd) as Hwd. pose proof (word_char_not_space _ Hwd).
    split; [by apply words_app|]. rewrite last_snoc. split; [by destruct o | congruence]. }
  destruct (is_separator c); [split; simpl; [by apply push_space_words | done]|].
  destruct (is_upper c) eqn:Hu.
  - apply upper_alphanumeric in Hu. unfold camel_ok. cbn [out prev_boundary].
    match goal with |- context [if ?b then _ else _] => destruct b eqn:Hcut end.
    + apply andb_true_iff in Hcut as [Hcut _]. apply negb_true_iff in Hcut.
      destruct (Hb Hcut) as [Hne Hl]. destruct (Happ (out st ++ [space]) c); [|done|done].
      by apply words_app_space.
    + destruct (Happ (out st) c); done.
  - destruct (is_alphanumeric c) eqn:Ha; [|split; simpl; [by apply push_space_words | done]].
    unfold camel_ok. cbn [out prev_boundary]. by destruct (Happ (out st) c).
Qed.

Lemma camel_loop_ok prev cs st : camel_ok st -> camel_ok (camel_loop prev cs st).
Proof.
  revert prev st. induction cs as [|c cs IH]; intros prev st Hst; simpl; [done|].
  by apply IH, camel_char_ok.
Qed.

(** ** Trimming *)

Context (uni_alnum_visible : forall c, uni_alnum c = true -> is_whitespace c = false).

Lemma word_char_visible c : word_char c -> is_whitespace c = false.
Proof.
  intros [Ha _]. destruct c as [|x [|y c]]; [by apply uni_alnum_visible| |by apply uni_alnum_visible].
  apply bool_decide_eq_false. intros Hin. unfold white_space in Hin.
  repeat (rewrite ?elem_of_app, ?list_elem_of_fmap, ?elem_of_cons in Hin).
  unfold is_alphanumeric, is_upper, is_lower, is_digit, in_bytes in Ha.
  destruct Hin as [(b & [= ->] & Hb)|[Hin|[(i & Hi & _)|Hin]]].
  - rewrite !elem_of_cons, elem_of_nil in Hb. lia.
  - rewrite elem_of_nil in Hin. naive_solver.
  - done.
  - rewrite elem_of_nil in Hin. naive_solver.
Qed.

Lemma space_whitespace : is_whitespace space = true.
Proof. by vm_compute. Qed.

(** Words that end in a word are not changed by trimming; a trailing space is
    cut off. *)
Lemma drop_while_words cs : words true cs -> drop_while is_whitespace cs = cs.
Proof.
  destruct cs as [|c cs]; simpl; [done|]. case_bool_decide; [naive_solver|].
  intros [Hc _]. by rewrite (word_char_visible c Hc).
Qed.

Lemma words_last b cs c : words b (cs ++ [c]) -> c = space \/ word_char c.
Proof.
  revert b. induction cs as [|x cs IH]; intros b; simpl.
  - case_bool_decide; naive_solver.
  - case_bool_decide; intros [_ Hw]; by eapply IH.
Qed.

Lemma words_init b cs c : words b (cs ++ [c]) -> words b cs.
Proof.
  revert b. induction cs as [|x cs IH]; intros b; simpl; [done|].
  case_bool_decide; intros [? Hw]; (split; [done|]); by eapply IH.
Qed.

Lemma words_before_space b cs c : words b (cs ++ [c]) -> c = space -> ends_in_word cs /\ (b = true -> cs <> []).
Proof.
  intros Hw ->. revert b Hw. induction cs as [|x cs IH]; intros b; simpl.
  - by intros [-> _].
  - destruct cs as [|y cs].
    + simpl. case_bool_decide; naive_solver.
    + intros Hw. unfold ends_in_word. rewrite last_cons_cons. split; [|done].
      case_bool_decide; destruct Hw as [_ Hw]; by eapply IH.
Qed.

Lemma drop_while_reverse_word cs :
  words true cs -> ends_in_word cs -> reverse (drop_while is_whitespace (reverse cs)) = cs.
Proof.
  destruct cs as [|c cs _] using rev_ind; [done|]. intros Hw He. unfold ends_in_word in He.
  rewrite last_snoc in He. rewrite reverse_snoc. simpl.
  destruct (words_last _ _ _ Hw) as [|Hc]; [done|]. rewrite (word_char_visible c Hc).
  by rewrite reverse_cons, reverse_involutive.
Qed.

Lemma trim_words cs : words true cs -> words true (trim_chars cs) /\ ends_in_word (trim_chars cs).
Proof.
  intros Hw. unfold trim_chars. rewrite (drop_while_words _ Hw).
  destruct cs as [|c cs _] using rev_ind; [done|].
  destruct (decide (c = space)) as [->|Hne].
  - rewrite reverse_snoc. cbn [drop_while]. rewrite space_whitespace.
    destruct (words_before_space _ _ _ Hw eq_refl) as [He _]. apply words_init in Hw.
    by rewrite drop_while_reverse_word.
  - assert (ends_in_word (cs ++ [c])) by (unfold ends_in_word; by rewrite last_snoc).
    by rewrite drop_while_reverse_word.
Qed.

Lemma trim_words_id cs : words true cs -> ends_in_word cs -> trim_chars cs = cs.
Proof.
  intros Hw He. unfold trim_chars. rewrite (drop_while_words _ Hw). by apply drop_while_reverse_word.
Qed.

(** A character of a word is copied. *)
Lemma camel_char_word prev next c st : word_char c ->
  out (camel_char prev next c st) = out st ++ [c] /\ prev_boundary (camel_char prev next c st) = false.
Proof.
  intros Hc. unfold camel_char. pose proof Hc as [Ha Hu]. rewrite Hu, Ha.
  assert (is_separator c = false) as ->.
  { apply bool_decide_eq_false. intros Hin. rewrite !elem_of_cons, elem_of_nil in Hin.
    destruct Hin as [->|[->|[->|[->|[]]]]]; by vm_compute in Ha. }
  split; [|done]. cbn. f_equal. unfold to_lower. rewrite Hu. destruct c as [|x [|y c]]; done.
Qed.

Lemma camel_loop_words b cs prev st :
  words b cs -> (b = false -> out st <> [] /\ last (out st) <> Some space) ->
  out (camel_loop prev cs st) = out st ++ cs.
Proof.
  revert b prev st. induction cs as [|c cs IH]; intros b prev st; simpl; [by rewrite app_nil_r|].
  case_bool_decide as Hc.
  - intros [-> Hw] Hb. subst c. destruct (Hb eq_refl) as [Hne Hl].
    rewrite (IH true) by done. unfold camel_char.
    change (is_separator space) with false. change (is_upper space) with false.
    change (is_alphanumeric space) with false. cbn. unfold push_space.
    destruct (last (out st)) as [l|] eqn:Hlast; [|by apply last_None in Hlast].
    rewrite bool_decide_eq_false_2 by congruence. by rewrite <- app_assoc.
  - intros [Hwc Hw] _. destruct (camel_char_word prev (head cs) c st Hwc) as [Ho Hbd].
    rewrite (IH false); [rewrite Ho; by rewrite <- app_assoc|done|].
    intros _. rewrite Ho, last_snoc. split; [by destruct (out st) | congruence].
Qed.

Lemma camel_chars_words cs : words true (camel_chars cs) /\ ends_in_word (camel_chars cs).
Proof.
  apply trim_words. apply camel_loop_ok. by split.
Qed.

Lemma camel_chars_fixed cs : words true cs -> ends_in_word cs -> camel_chars cs = cs.
Proof.
  intros Hw He. unfold camel_chars. rewrite (camel_loop_words true) by done. simpl.
  by apply trim_words_id.
Qed.
End Camel.

(** What the tokens of the full-text index are. *)


(** ** Characters and text

    A character is well formed when its first byte announces its length. *)

Definition char_ok (c : char) : Prop :=
  match c with [] => False | x :: _ => length c = char_len x /\ Forall is_byte c end.

Lemma char_len_pos x : (1 <= char_len x)%nat.
Proof. unfold char_len. repeat case_match; lia. Qed.

Lemma chars_of_join cs fuel :
  Forall char_ok cs -> (length (mjoin cs) <= fuel)%nat -> chars_of fuel (mjoin cs) = cs.
Proof.
  intros Hcs. revert fuel. induction Hcs as [|c cs Hc _ IH]; intros fuel Hf; [by destruct fuel|].
  destruct c as [|x c]; [done|]. destruct Hc as [Hlen _]. cbn [mjoin list_join] in Hf |- *.
  rewrite length_app in Hf. destruct fuel as [|fuel]; [simpl in Hf; lia|].
  change ((x :: c) ++ mjoin cs) with (x :: (c ++ mjoin cs)). cbn [chars_of].
  change (x :: c ++ mjoin cs) with ((x :: c) ++ mjoin cs).
  rewrite <- Hlen, take_app_length, drop_app_length. f_equal. apply IH. cbn [length] in Hf. unfold mjoin in *. lia.
Qed.

Lemma chars_text cs : Forall char_ok cs -> chars (text cs) = cs.
Proof.
  intros Hcs. unfold chars, text. rewrite bytes_of_string_of_bytes; [by apply chars_of_join|].
  induction Hcs as [|[|x c] cs Hc _ IH]; [constructor|done|]. cbn [mjoin list_join].
  apply Forall_app. split; [by destruct Hc | done].
Qed.

Section CamelSpec.
Context (uni_alnum : char -> bool).
Context (uni_alnum_visible : forall c, uni_alnum c = true -> is_whitespace c = false).

(** Every character of the output is a space or a character of the input in
    lower case. *)
Lemma camel_loop_from P cs prev st :
  P space -> (forall c, c ∈ cs -> P (to_lower c)) -> Forall P (out st) ->
  Forall P (out (camel_loop uni_alnum prev cs st)).
Proof.
  intros Hsp. revert prev st. induction cs as [|c cs IH]; intros prev st Hcs Hst; [done|]. cbn [camel_loop].
  apply IH; [intros d Hd; apply Hcs; by right|].
  assert (Forall P (push_space (out st))) as Hpush.
  { unfold push_space. destruct (last (out st)); [|done]. case_bool_decide; [done|].
    apply Forall_app. split; [done|]. by constructor. }
  assert (P (to_lower c)) as Hc by (apply Hcs; left). unfold camel_char.
  repeat case_match; cbn [out]; try done; rewrite ?Forall_app; repeat split; try done; by repeat constructor.
Qed.

Lemma drop_while_forall {A} (P : A -> Prop) p l : Forall P l -> Forall P (drop_while p l).
Proof. induction 1 as [|x l Hx Hl IH]; simpl; [constructor|]. case_match; [done | by constructor]. Qed.

Lemma camel_chars_ok cs : Forall char_ok cs -> Forall char_ok (camel_chars uni_alnum cs).
Proof.
  intros Hcs. unfold camel_chars, trim_chars. apply Forall_reverse, drop_while_forall, Forall_reverse, drop_while_forall.
  apply camel_loop_from; [split; [done|]; repeat constructor; unfold is_byte; lia| |constructor].
  intros c Hc. rewrite Forall_forall in Hcs. specialize (Hcs c Hc).
  destruct c as [|x [|y c]]; [done| |done]. destruct Hcs as [Hlen Hb]. unfold to_lower.
  case_match eqn:Hu; [|done]. unfold is_upper, in_bytes in Hu. split.
  - unfold char_len. case_match eqn:Hx; [done|]. lia.
  - repeat constructor; unfold is_byte; lia.
Qed.

(** [camel_split] turns any text into lower-case words separated by single
    spaces, with no space at either end, and splitting again changes nothing,
    so that a query is cut into the same words as the names in the index. *)
Theorem camel_split_words s :
  Forall char_ok (chars s) ->
  camel_split uni_alnum (camel_split uni_alnum s) = camel_split uni_alnum s /\
  words uni_alnum true (chars (camel_split uni_alnum s)) /\
  ends_in_word (chars (camel_split uni_alnum s)).
Proof.
  intros Hs. pose proof (camel_chars_ok _ Hs) as Hok. unfold camel_split at 1 3 4 5.
  rewrite chars_text by done.
  destruct (camel_chars_words uni_alnum uni_alnum_visible (chars s)) as [Hw He].
  split_and!; [|done|done]. unfold camel_split at 1. rewrite chars_text by done. f_equal.
  by apply camel_chars_fixed.
Qed.
End CamelSpec.

Lemma camel_split_words_witness :
  camel_split (fun _ => false) (camel_split (fun _ => false) "XMLParser_v2Loader"%string)
    = "xml parser v2 loader"%string.
Proof.
  destruct (camel_split_words (fun _ => false) ltac:(done) "XMLParser_v2Loader"%string) as [Heq _].
  - change (Forall char_ok (chars "XMLParser_v2Loader"%string)). vm_compute chars.
    repeat constructor; unfold is_byte; lia.
  - rewrite Heq. vm_compute. reflexivity.
Defined.
