(* ===== verification/GraphStore.v ===== *)
(** The graph of crates/store: rows of the tables [nodes] and [edges]
    (node.rs, edge.rs), the error type of the crate (store_error.rs), and the
    interface through which crates/search reads the graph.  The searches are
    proved against the interface; GraphDbFacts.v and GraphOverlayFacts.v
    discharge it for a single store and for an overlay.

    A [serde_json::Value] is its text. *)

From S2P Require Import Prelude Loop CoreError.

Module StoreError.
Inductive Error : Type :=
| Lock (message : string)
| Store (message : string)
| NotFound (path : string)
| Invalid (message : string)
| Io (context source : string)
| Sqlite (detail : string)
| Json (detail : string).
End StoreError.

(** [impl From<Error> for greppy_core::Error]. *)
Definition core_of_store (e : StoreError.Error) : CoreError.Error :=
  match e with
  | StoreError.Lock s => CoreError.Lock s
  | StoreError.Store s => CoreError.Store s
  | StoreError.NotFound s => CoreError.NotFound s
  | StoreError.Invalid s => CoreError.Invalid s
  | StoreError.Io context source => CoreError.Io context source
  | StoreError.Sqlite d => CoreError.Store ("sqlite: " ++ d)
  | StoreError.Json d => CoreError.Store ("json: " ++ d)
  end%string.

Definition store_result := (res StoreError.Error).

(** [?] on a store result, in a function that returns [greppy_core::Result]. *)
Definition from_store {A} (r : res StoreError.Error A) : res CoreError.Error A :=
  match r with Ok a => Ok a | Err e => Err (core_of_store e) | Panic => Panic end.

Module Node.
Record t : Type := Mk {
  id : Z;
  project : string;
  label : string;
  name : string;
  qualified_name : string;
  file_path : string;
  start_line : Z;
  end_line : Z;
  properties : string
}.
End Node.

Module Edge.
Record t : Type := Mk {
  id : Z;
  project : string;
  source_id : Z;
  target_id : Z;
  edge_type : string;
  properties : string
}.
End Edge.

#[export] Instance Node_eq_dec : EqDecision Node.t.
Proof. solve_decision. Defined.
#[export] Instance Edge_eq_dec : EqDecision Edge.t.
Proof. solve_decision. Defined.

(** [TraceDirection] and [ReachDirection] have the same two constructors. *)
Inductive Direction : Type := Outgoing | Incoming.
#[export] Instance Direction_eq_dec : EqDecision Direction.
Proof. solve_decision. Defined.

Definition opposite (d : Direction) : Direction :=
  match d with Outgoing => Incoming | Incoming => Outgoing end.

(** The end of an edge that a traversal goes to, and the one it comes from. *)
Definition next_of (d : Direction) (e : Edge.t) : Z :=
  match d with Outgoing => Edge.target_id e | Incoming => Edge.source_id e end.
Definition from_of (d : Direction) (e : Edge.t) : Z := next_of (opposite d) e.

Definition type_matches (ty : option string) (e : Edge.t) : Prop :=
  match ty with Some t => Edge.edge_type e = t | None => True end.
#[export] Instance type_matches_dec ty e : Decision (type_matches ty e).
Proof. destruct ty; simpl; apply _. Defined.

(** ** The interface

    The accessors of [Store] that the searches use, and [endpoints], the
    finite set of ids an edge of the store can lead to, from which the bounds
    of the loops are computed. *)

Class GraphStore (S : Type) := {
  get_node : S -> Z -> res StoreError.Error (option Node.t);
  outgoing_edges : S -> Z -> option string -> nat -> res StoreError.Error (list Edge.t);
  incoming_edges : S -> Z -> option string -> nat -> res StoreError.Error (list Edge.t);
  endpoints : S -> gset Z
}.

(** What the searches rely on: a node is found under its id; a listing holds
    edges of the right type at the right node, no more than asked for, in
    ascending id order. *)
Definition listing_ok (E : gset Z) (d : Direction) (n : Z) (ty : option string) (limit : nat)
    (es : list Edge.t) : Prop :=
  (length es <= limit)%nat /\
  StronglySorted Z.lt (Edge.id <$> es) /\
  Forall (fun e => from_of d e = n /\ next_of d e ∈ E /\ type_matches ty e) es.

Class GraphStoreLaws (S : Type) `{GraphStore S} : Prop := {
  get_node_id : forall (s : S) n nd, get_node s n = Ok (Some nd) -> Node.id nd = n;
  outgoing_edges_ok : forall (s : S) n ty limit es,
    outgoing_edges s n ty limit = Ok es -> listing_ok (endpoints s) Outgoing n ty limit es;
  incoming_edges_ok : forall (s : S) n ty limit es,
    incoming_edges s n ty limit = Ok es -> listing_ok (endpoints s) Incoming n ty limit es
}.

(** [match direction { Outgoing => store.outgoing_edges(..)?, Incoming => .. }]. *)
Definition edges_at {S} `{GraphStore S} (s : S) (d : Direction) (n : Z) (ty : option string)
    (limit : nat) : res CoreError.Error (list Edge.t) :=
  from_store (match d with
              | Outgoing => outgoing_edges s n ty limit
              | Incoming => incoming_edges s n ty limit
              end).

Definition node_at {S} `{GraphStore S} (s : S) (n : Z) : res CoreError.Error (option Node.t) :=
  from_store (get_node s n).

Section Interface.
Context {S : Type} `{GraphStoreLaws S}.

Lemma from_store_ok {A} (r : res StoreError.Error A) a : from_store r = Ok a -> r = Ok a.
Proof. destruct r; simpl; congruence. Qed.

Lemma node_at_id (s : S) n nd : node_at s n = Ok (Some nd) -> Node.id nd = n.
Proof. intros H1%from_store_ok. by eapply get_node_id. Qed.

Lemma edges_at_ok (s : S) d n ty limit es :
  edges_at s d n ty limit = Ok es -> listing_ok (endpoints s) d n ty limit es.
Proof.
  intros Hes%from_store_ok. destruct d; [by apply outgoing_edges_ok | by apply incoming_edges_ok].
Qed.

Lemma edges_at_next (s : S) d n ty limit es e :
  edges_at s d n ty limit = Ok es -> e ∈ es -> next_of d e ∈ endpoints s.
Proof.
  intros Hes He. destruct (edges_at_ok _ _ _ _ _ _ Hes) as (_ & _ & Hf).
  rewrite Forall_forall in Hf. by apply (Hf e).
Qed.
End Interface.

(** No query on the store fails. *)
Definition readable {S} `{GraphStore S} (s : S) : Prop :=
  (forall n, exists o, node_at s n = Ok o) /\
  (forall d n ty limit, exists es, edges_at s d n ty limit = Ok es).

(** The graph that a traversal sees through its accessor: where the edges
    listed at [n] lead. *)
Definition next_ids {S} `{GraphStore S} (s : S) (d : Direction) (ty : option string)
    (limit : nat) (n : Z) : list Z :=
  match edges_at s d n ty limit with Ok es => next_of d <$> es | _ => [] end.
