(* ===== verification/GraphBfs.v ===== *)
(** Breadth-first search in general, for the traversals of crates/search.

    [adj] gives where a node leads.  [walk] and [dist] say what a traversal
    has to compute: how far a node is from the start.  Two disciplines occur in
    the code: a node is marked when it enters the queue ([reachable_within],
    [path_query], [call_tree], [subgraph_around]) or when it leaves it
    ([trace_path]); each has its invariant here, with the lemmas that one
    turn of the loop preserves it and that it gives the distances when the
    queue is empty. *)

From S2P Require Import Prelude Loop.

Section Walks.
Context (adj : Z -> list Z).

(** [walk a b k]: [k] edges lead from [a] to [b]. *)
Inductive walk (a : Z) : Z -> nat -> Prop :=
| walk_nil : walk a a 0
| walk_snoc b c k : walk a b k -> c ∈ adj b -> walk a c (S k).

(** The least number of edges from [a] to [b]. *)
Definition dist (a b : Z) (k : nat) : Prop :=
  walk a b k /\ forall j, walk a b j -> (k <= j)%nat.

Lemma dist_unique a b k1 k2 : dist a b k1 -> dist a b k2 -> k1 = k2.
Proof. intros [H1 L1] [H2 L2]. pose proof (L1 _ H2). pose proof (L2 _ H1). lia. Qed.

Lemma dist_refl a : dist a a 0.
Proof. split; [constructor | lia]. Qed.

Lemma dist_zero a b : dist a b 0 <-> a = b.
Proof.
  split; [intros [Hw _]; by inversion Hw | intros ->; apply dist_refl].
Qed.

Lemma walk_head a b c k : b ∈ adj a -> walk b c k -> walk a c (S k).
Proof.
  intros Hb Hw. induction Hw as [|c d k Hw IH Hd]; [|by eapply walk_snoc].
  eapply walk_snoc; [constructor | done].
Qed.

Lemma walk_trans a b c j k : walk a b j -> walk b c k -> walk a c (k + j).
Proof. intros H1 H2. induction H2; [done|]. simpl. by eapply walk_snoc. Qed.

(** The nodes at the end of the walks of [k] edges, as a list. *)
Fixpoint layer (a : Z) (k : nat) : list Z :=
  match k with O => [a] | S k => layer a k ≫= adj end.

Lemma elem_of_layer a b k : b ∈ layer a k <-> walk a b k.
Proof.
  revert b. induction k as [|k IH]; intros b; simpl.
  - rewrite list_elem_of_singleton. split; [intros ->; constructor | by inversion 1].
  - rewrite list_elem_of_bind. split.
    + intros (c & Hb & Hc). eapply walk_snoc; [by apply IH | done].
    + inversion 1; subst. eexists. split; [done | by apply IH].
Qed.

#[global] Instance walk_dec a b k : Decision (walk a b k).
Proof. destruct (decide (b ∈ layer a k)) as [H|H]; rewrite elem_of_layer in H; by constructor. Defined.

(** Every node that can be reached has a distance. *)
Lemma walk_dist a b k : walk a b k -> exists j, (j <= k)%nat /\ dist a b j.
Proof.
  induction k as [k IH] using lt_wf_ind. intros Hw.
  destruct (decide (Exists (fun j => walk a b j) (seq 0 k))) as [Hy|Hn].
  - apply Exists_exists in Hy as (j & [_ Hj]%elem_of_seq & Hwj). simpl in Hj.
    destruct (IH j Hj Hwj) as (i & Hi & Hd). exists i. split; [lia | done].
  - exists k. split; [lia|]. split; [done|]. intros j Hj.
    destruct (le_lt_dec k j) as [|Hlt]; [done|]. destruct Hn. apply Exists_exists.
    exists j. split; [apply elem_of_seq; lia | done].
Qed.

(** A node at distance [k + 1] has a neighbour at distance [k] before it. *)
Lemma dist_pred a b k : dist a b (S k) -> exists c, dist a c k /\ b ∈ adj c.
Proof.
  intros [Hw Hmin]. inversion Hw as [|c b' k' Hc Hb]; subst. exists c. split; [|done].
  split; [done|]. intros j Hj. assert (walk a b (S j)) as H by by eapply walk_snoc.
  apply Hmin in H. lia.
Qed.
End Walks.

Lemma walk_ext adj1 adj2 a b k :
  (forall n, adj1 n = adj2 n) -> walk adj1 a b k -> walk adj2 a b k.
Proof. intros He. induction 1; [constructor|]. eapply walk_snoc; [done | by rewrite <- He]. Qed.

(** ** The queue

    In a breadth-first search the entries of the queue lie in at most two
    consecutive layers, the nearer one first. *)

Definition depths {A} (depth : A -> nat) (q : list A) : Prop :=
  match q with
  | [] => True
  | p :: q => StronglySorted le (depth p :: (depth <$> q)) /\ Forall (fun x => (depth x <= S (depth p))%nat) q
  end.

Lemma depths_head {A} (depth : A -> nat) p q x :
  depths depth (p :: q) -> x ∈ p :: q -> (depth p <= depth x)%nat.
Proof.
  intros [Hs _] [->|Hx]%elem_of_cons; [done|]. inversion Hs as [|? ? _ Hf]; subst.
  rewrite Forall_forall in Hf. apply Hf, list_elem_of_fmap. eauto.
Qed.

Lemma sorted_snoc_max (l1 l2 : list nat) b :
  StronglySorted le l1 -> Forall (fun x => (x <= b)%nat) l1 -> Forall (fun x => x = b) l2 ->
  StronglySorted le (l1 ++ l2).
Proof.
  intros H1 H2 H3. induction l1 as [|x l1 IH]; simpl.
  - clear -H3. induction l2 as [|y l2 IH]; constructor.
    + apply IH. by inversion H3.
    + inversion H3 as [|? ? -> Hf]; subst. eapply Forall_impl; [done|]. simpl. lia.
  - inversion H1; inversion H2; subst. constructor; [by apply IH|].
    rewrite Forall_app. split; [done|]. eapply Forall_impl; [done|]. simpl. lia.
Qed.

(** Taking the head off and adding entries of the next layer at the end. *)
Lemma depths_step {A} (depth : A -> nat) p q news :
  depths depth (p :: q) -> Forall (fun x => depth x = S (depth p)) news ->
  depths depth (q ++ news).
Proof.
  intros [Hs Hf] Hn. inversion Hs as [|? ? Hs' Hle]; subst.
  assert (StronglySorted le (depth <$> (q ++ news))) as Hss.
  { rewrite fmap_app. eapply sorted_snoc_max; [done| |].
    - rewrite Forall_fmap. eapply Forall_impl; [exact Hf | done].
    - rewrite Forall_fmap. eapply Forall_impl; [exact Hn | done]. }
  assert (Forall (fun x => (depth p <= depth x <= S (depth p))%nat) (q ++ news)) as Hall.
  { rewrite Forall_app. split.
    - rewrite Forall_fmap in Hle. rewrite Forall_forall in Hf, Hle |- *. intros x Hx.
      split; [by apply Hle | by apply Hf].
    - eapply Forall_impl; [exact Hn|]. simpl. lia. }
  destruct (q ++ news) as [|y l]; [done|]. split; [exact Hss|].
  inversion Hall; subst. eapply Forall_impl; [done|]. simpl. lia.
Qed.

Lemma depths_tail {A} (depth : A -> nat) p q : depths depth (p :: q) -> depths depth q.
Proof. intros Hd. rewrite <- (app_nil_r q). by eapply depths_step. Qed.

(** ** Marking on entry *)

(** [if let Vacant(slot) = best.entry(next) { slot.insert(hops + 1);
    queue.push_back((next, hops + 1)) }]. *)
Definition discover (h : nat) (st : gmap Z nat * list (Z * nat)) (next : Z)
  : gmap Z nat * list (Z * nat) :=
  match st.1 !! next with
  | Some _ => st
  | None => (<[next := S h]> st.1, st.2 ++ [(next, S h)])
  end.

Lemma discover_old h best q x : is_Some (best !! x) -> discover h (best, q) x = (best, q).
Proof. unfold discover. simpl. by intros [k ->]. Qed.
Lemma discover_new h best q x :
  best !! x = None -> discover h (best, q) x = (<[x := S h]> best, q ++ [(x, S h)]).
Proof. unfold discover. simpl. by intros ->. Qed.

(** The entries that a list of neighbours adds to the queue. *)
Record discovered (h : nat) (nexts : list Z) (best best' : gmap Z nat) (news : list (Z * nat))
  : Prop := {
  disc_best : forall x d, best' !! x = Some d <->
    best !! x = Some d \/ (best !! x = None /\ x ∈ nexts /\ d = S h);
  disc_news : forall x d, (x, d) ∈ news <-> best !! x = None /\ x ∈ nexts /\ d = S h;
  disc_size : size best' = (size best + length news)%nat
}.

Lemma discover_all h nexts best q :
  exists best' news, foldl (discover h) (best, q) nexts = (best', q ++ news) /\
    discovered h nexts best best' news.
Proof.
  revert best q. induction nexts as [|x nexts IH]; intros best q; simpl.
  { exists best, []. rewrite app_nil_r. split; [done|]. split; simpl; [set_solver..|lia]. }
  unfold discover at 2; simpl. destruct (best !! x) as [dx|] eqn:Hx.
  - destruct (IH best q) as (best' & news & -> & [H1 H2 H3]). exists best', news.
    split; [done|]. split; [| |done]; intros y d.
    + rewrite H1, elem_of_cons. naive_solver.
    + rewrite H2, elem_of_cons. naive_solver.
  - destruct (IH (<[x := S h]> best) (q ++ [(x, S h)])) as (best' & news & -> & [H1 H2 H3]).
    exists best', ((x, S h) :: news). rewrite <- app_assoc. split; [done|]. split.
    + intros y d. rewrite H1, elem_of_cons. destruct (decide (y = x)) as [->|Hne].
      * rewrite lookup_insert_eq. naive_solver.
      * rewrite lookup_insert_ne by done. naive_solver.
    + intros y d. rewrite !elem_of_cons, H2. destruct (decide (y = x)) as [->|Hne].
      * rewrite lookup_insert_eq. naive_solver.
      * rewrite lookup_insert_ne by done. naive_solver.
    + rewrite H3, map_size_insert_None by done. simpl. lia.
Qed.

Section PushMarked.
Context (adj : Z -> list Z) (start : Z) (maxh : nat).

Record push_inv (best : gmap Z nat) (q : list (Z * nat)) : Prop := {
  pi_start : best !! start = Some 0%nat;
  pi_dist : forall n d, best !! n = Some d -> dist adj start n d /\ (d <= maxh)%nat;
  pi_queue : forall n d, (n, d) ∈ q -> best !! n = Some d;
  pi_depths : depths snd q;
  pi_done : forall n d, best !! n = Some d -> (d < maxh)%nat ->
    (n, d) ∈ q \/ forall m, m ∈ adj n -> is_Some (best !! m)
}.

Lemma push_inv_init : push_inv {[start := 0%nat]} [(start, 0%nat)].
Proof.
  split.
  - by rewrite lookup_singleton_eq.
  - intros n d Hn. apply lookup_singleton_Some in Hn as [<- <-].
    split; [apply dist_refl | lia].
  - intros n d Hn. apply list_elem_of_singleton in Hn as [= -> ->]. by rewrite lookup_singleton_eq.
  - simpl. split; [repeat constructor | constructor].
  - intros n d Hn _. apply lookup_singleton_Some in Hn as [<- <-]. left. by left.
Qed.

(** Every node nearer than the head of the queue has been seen. *)
Lemma push_inv_below best n h q m k :
  push_inv best ((n, h) :: q) -> walk adj start m k -> (k <= h)%nat -> is_Some (best !! m).
Proof.
  intros HI. revert m. induction k as [|k IH]; intros m Hw Hk.
  { inversion Hw; subst. rewrite (pi_start _ _ HI). by eexists. }
  inversion Hw as [|c b k' Hc Hm]; subst.
  destruct (IH c Hc) as [dc Hdc]; [lia|].
  destruct (pi_dist _ _ HI _ _ Hdc) as [[_ Hmin] _]. apply Hmin in Hc.
  destruct (pi_dist _ _ HI n h) as [_ Hmax]; [apply (pi_queue _ _ HI); left|].
  destruct (pi_done _ _ HI _ _ Hdc) as [Hin|Hall]; [lia| |by apply Hall].
  apply (depths_head _ _ _ _ (pi_depths _ _ HI)) in Hin. simpl in Hin. lia.
Qed.

(** The head is expanded. *)
Lemma push_inv_expand best n h q nexts best' q' :
  push_inv best ((n, h) :: q) -> (h < maxh)%nat -> (forall x, x ∈ nexts <-> x ∈ adj n) ->
  foldl (discover h) (best, q) nexts = (best', q') -> push_inv best' q'.
Proof.
  intros HI Hh Hadj Hf. destruct (discover_all h nexts best q) as (b & news & He & [Hb Hn _]).
  rewrite He in Hf. injection Hf as <- <-. setoid_rewrite Hadj in Hb. setoid_rewrite Hadj in Hn.
  assert (best !! n = Some h) as Hnh by (apply (pi_queue _ _ HI); left).
  assert (forall x d, best !! x = Some d -> b !! x = Some d) as Hmono.
  { intros x d Hx. apply Hb. by left. }
  split.
  - apply Hmono, HI.
  - intros x d [Hx|(Hx & Ha & ->)]%Hb; [by eapply pi_dist|]. split; [|lia]. split.
    + eapply walk_snoc; [by apply (pi_dist _ _ HI) in Hnh as [[? _] _] | done].
    + intros j Hj. destruct (le_lt_dec (S h) j) as [|Hlt]; [done|].
      destruct (push_inv_below _ _ _ _ _ _ HI Hj) as [? ?]; [lia | congruence].
  - intros x d [Hx|Hx]%elem_of_app.
    + apply Hmono, (pi_queue _ _ HI). by right.
    + apply Hn in Hx as (Hx & Ha & ->). apply Hb. by right.
  - eapply (depths_step snd (n, h)); [apply HI|]. rewrite Forall_forall. intros [x d] Hx.
    by apply Hn in Hx as (_ & _ & ->).
  - intros x d [Hx|(Hx & Ha & ->)]%Hb Hd.
    + destruct (pi_done _ _ HI x d Hx Hd) as [Hin|Hall].
      * apply elem_of_cons in Hin as [[= -> ->]|Hin]; [|left; apply elem_of_app; by left].
        right. intros m Hm. destruct (best !! m) as [dm|] eqn:Hbm; [eauto|].
        exists (S h). apply Hb. by right.
      * right. intros m Hm. destruct (Hall m Hm) as [dm Hdm]. eauto.
    + left. apply elem_of_app. right. by apply Hn.
Qed.

(** The head is at the last layer and is not expanded. *)
Lemma push_inv_pop best n h q :
  push_inv best ((n, h) :: q) -> (maxh <= h)%nat -> push_inv best q.
Proof.
  intros HI Hh. split.
  - apply HI.
  - apply HI.
  - intros x d Hx. apply (pi_queue _ _ HI). by right.
  - eapply depths_tail, HI.
  - intros x d Hx Hd. destruct (pi_done _ _ HI x d Hx Hd) as [Hin|]; [|by right].
    apply elem_of_cons in Hin as [[= -> ->]|]; [lia | by left].
Qed.

(** When the queue is empty, the table holds the distances. *)
Lemma push_inv_final best :
  push_inv best [] -> forall n d, best !! n = Some d <-> dist adj start n d /\ (d <= maxh)%nat.
Proof.
  intros HI n d. split; [apply HI|]. intros [Hd Hle]. revert n Hd.
  induction d as [|d IH]; intros n Hd.
  { apply dist_zero in Hd as <-. apply HI. }
  destruct (dist_pred _ _ _ _ Hd) as (c & Hc & Hn).
  apply IH in Hc; [|lia]. destruct (pi_done _ _ HI c d Hc) as [Hin|Hall]; [lia|by inversion Hin|].
  destruct (Hall n Hn) as [d' Hd']. rewrite Hd'. f_equal.
  destruct (pi_dist _ _ HI n d' Hd') as [Hd'' _]. by eapply dist_unique.
Qed.

End PushMarked.

(** The number of turns left: the queue and the nodes not seen yet. *)
Section Measure.
Context (start : Z) (E : gset Z).

Definition push_measure (best : gmap Z nat) (q : list (Z * nat)) : nat :=
  length q + (2 + size E - size best).

Definition within (best : gmap Z nat) : Prop := dom best ⊆ {[start]} ∪ E.

Lemma within_size best : within best -> (size best <= 1 + size E)%nat.
Proof.
  intros Hw. rewrite <- size_dom. etrans; [by apply subseteq_size|].
  pose proof (size_union_alt {[start]} E). rewrite size_singleton in *.
  assert (size (E ∖ {[start]}) <= size E)%nat by (apply subseteq_size; set_solver). lia.
Qed.

Lemma within_init : within {[start := 0%nat]}.
Proof. unfold within. set_solver. Qed.

Lemma discover_measure best n h q nexts best' q' :
  within best -> (forall m, m ∈ nexts -> m ∈ E) ->
  foldl (discover h) (best, q) nexts = (best', q') ->
  within best' /\ (push_measure best' q' < push_measure best ((n, h) :: q))%nat.
Proof.
  intros Hw HE Hf. destruct (discover_all h nexts best q) as (b & news & He & [Hb Hn Hs]).
  rewrite He in Hf. injection Hf as <- <-.
  assert (within b) as Hwb.
  { intros x [d Hx]%elem_of_dom. apply Hb in Hx as [Hx|(_ & Hx & _)].
    - apply Hw. by eapply elem_of_dom_2.
    - apply HE in Hx. set_solver. }
  split; [done|]. apply within_size in Hwb. unfold push_measure. rewrite length_app. simpl. lia.
Qed.

Lemma pop_measure best p q :
  (push_measure best q < push_measure best (p :: q))%nat.
Proof. unfold push_measure. simpl. lia. Qed.
End Measure.

(** ** Marking on exit *)

Section PopMarked.
Context (adj : Z -> list Z) (start : Z) (maxh : nat).

(** [out] holds the nodes that left the queue unmarked, with their depth, in
    the order they left it. *)
Record pop_inv (out q : list (Z * nat)) : Prop := {
  po_nodup : NoDup out.*1;
  po_dist : forall n d, (n, d) ∈ out -> dist adj start n d /\ (d <= maxh)%nat;
  po_walk : forall n d, (n, d) ∈ q -> walk adj start n d /\ (d <= maxh)%nat;
  po_depths : depths snd q;
  po_le : forall x y, x ∈ out -> y ∈ q -> (x.2 <= y.2)%nat;
  po_sorted : StronglySorted le out.*2;
  po_done : forall n d m, (n, d) ∈ out -> (d < maxh)%nat -> m ∈ adj n ->
    m ∈ out.*1 \/ exists d', (m, d') ∈ q /\ (d' <= S d)%nat;
  po_start : start ∈ out.*1 \/ (out = [] /\ q = [(start, 0%nat)])
}.

Lemma pop_inv_init : pop_inv [] [(start, 0%nat)].
Proof.
  split; try (by constructor); try set_solver.
  - intros n d Hn. apply list_elem_of_singleton in Hn as [= -> ->].
    split; [constructor | lia].
  - simpl. split; [repeat constructor | constructor].
Qed.

Lemma elem_of_fst (l : list (Z * nat)) n : n ∈ l.*1 <-> exists d, (n, d) ∈ l.
Proof.
  rewrite list_elem_of_fmap. split.
  - intros ([x d] & -> & Hx). eauto.
  - intros [d Hd]. by exists (n, d).
Qed.

(** Every node strictly nearer than the head has been emitted. *)
Lemma pop_inv_below out n h q m k :
  pop_inv out ((n, h) :: q) -> walk adj start m k -> (k < h)%nat -> m ∈ out.*1.
Proof.
  intros HI. revert m. induction k as [|k IH]; intros m Hw Hk.
  { inversion Hw; subst. destruct (po_start _ _ HI) as [|[_ [= _ Hh _]]]; [done | lia]. }
  inversion Hw as [|c b k' Hc Hm]; subst.
  destruct (proj1 (elem_of_fst _ _) (IH c Hc ltac:(lia))) as [dc Hdc].
  destruct (po_dist _ _ HI _ _ Hdc) as [[_ Hmin] _]. apply Hmin in Hc.
  destruct (po_walk _ _ HI n h) as [_ Hmax]; [left|].
  destruct (po_done _ _ HI _ _ m Hdc) as [|(d' & Hin & Hle)]; [lia|done..|].
  apply (depths_head _ _ _ _ (po_depths _ _ HI)) in Hin. simpl in Hin. lia.
Qed.

(** The head is marked already. *)
Lemma pop_inv_skip out n h q :
  pop_inv out ((n, h) :: q) -> n ∈ out.*1 -> pop_inv out q.
Proof.
  intros HI Hn. split; try apply HI.
  - intros x d Hx. apply (po_walk _ _ HI). by right.
  - eapply depths_tail, HI.
  - intros x y Hx Hy. apply (po_le _ _ HI); [done | by right].
  - intros x d m Hx Hd Hm. destruct (po_done _ _ HI x d m Hx Hd Hm) as [|(d' & Hin & Hle)]; [by left|].
    apply elem_of_cons in Hin as [[= -> ->]|]; [by left | right; eauto].
  - destruct (po_start _ _ HI) as [|[-> _]]; [by left|]. by apply elem_of_nil in Hn.
Qed.

Lemma sorted_snoc_le (l : list nat) b :
  StronglySorted le l -> Forall (fun x => (x <= b)%nat) l -> StronglySorted le (l ++ [b]).
Proof. intros Hs Hf. eapply sorted_snoc_max; [done.. | by constructor]. Qed.

(** The head is emitted; [news] are the neighbours it adds to the queue. *)
Lemma pop_inv_emit out n h q news :
  pop_inv out ((n, h) :: q) -> n ∉ out.*1 ->
  (forall x d, (x, d) ∈ news -> (h < maxh)%nat /\ x ∈ adj n /\ d = S h) ->
  ((h < maxh)%nat -> forall x, x ∈ adj n -> x ∈ (out ++ [(n, h)]).*1 \/ (x, S h) ∈ news) ->
  pop_inv (out ++ [(n, h)]) (q ++ news).
Proof.
  intros HI Hn Hnews Hall.
  destruct (po_walk _ _ HI n h) as [Hw Hmax]; [left|].
  assert (dist adj start n h) as Hdist.
  { split; [done|]. intros j Hj. destruct (le_lt_dec h j) as [|Hlt]; [done|].
    destruct Hn. by eapply pop_inv_below. }
  assert (forall x, x ∈ out.*1 -> x ∈ (out ++ [(n, h)]).*1) as Hsub
    by (intros x; rewrite fmap_app; set_solver).
  split.
  - rewrite fmap_app. apply NoDup_app. split; [apply HI|]. simpl. split.
    + intros x Hx Hx2. apply list_elem_of_singleton in Hx2 as ->. done.
    + apply NoDup_singleton.
  - intros x d [Hx|Hx]%elem_of_app; [by apply HI|].
    by apply list_elem_of_singleton in Hx as [= -> ->].
  - intros x d [Hx|Hx]%elem_of_app; [by apply HI; right|].
    destruct (Hnews x d Hx) as (Hlt & Ha & ->). split; [by eapply walk_snoc | lia].
  - eapply (depths_step snd (n, h)); [apply HI|]. rewrite Forall_forall. intros [x d] Hx.
    by destruct (Hnews x d Hx) as (_ & _ & ->).
  - intros x y Hx Hy. apply elem_of_app in Hx as [Hx|Hx]; apply elem_of_app in Hy as [Hy|Hy].
    + apply HI; [done | by right].
    + destruct y as [y d]. destruct (Hnews y d Hy) as (_ & _ & ->). simpl.
      etrans; [by apply (po_le _ _ HI x (n, h)); [|left]|]. simpl. lia.
    + apply list_elem_of_singleton in Hx as ->.
      apply (depths_head _ _ _ _ (po_depths _ _ HI)). by right.
    + apply list_elem_of_singleton in Hx as ->. destruct y as [y d].
      destruct (Hnews y d Hy) as (_ & _ & ->). simpl. lia.
  - rewrite fmap_app. simpl. apply sorted_snoc_le; [apply HI|].
    rewrite Forall_forall. intros x Hx. apply list_elem_of_fmap in Hx as ([y d] & -> & Hy).
    apply (po_le _ _ HI _ (n, h) Hy). by left.
  - intros x d m [Hx|Hx]%elem_of_app Hd Hm.
    + destruct (po_done _ _ HI x d m Hx Hd Hm) as [|(d' & Hin & Hle)]; [by left; apply Hsub|].
      apply elem_of_cons in Hin as [[= -> ->]|Hin].
      * left. rewrite fmap_app. set_solver.
      * right. exists d'. split; [apply elem_of_app; by left | done].
    + apply list_elem_of_singleton in Hx as [= -> ->].
      destruct (Hall Hd m Hm) as [|Hin]; [by left|].
      right. exists (S h). split; [apply elem_of_app; by right | lia].
  - left. rewrite fmap_app. destruct (po_start _ _ HI) as [|[-> [= -> _ _]]]; set_solver.
Qed.

(** When the queue is empty, the emitted nodes are those within reach. *)
Lemma pop_inv_final out :
  pop_inv out [] -> forall n d, (n, d) ∈ out <-> dist adj start n d /\ (d <= maxh)%nat.
Proof.
  intros HI n d. split; [apply HI|]. intros [Hd Hle]. revert n Hd.
  assert (start ∈ out.*1) as Hstart by (destruct (po_start _ _ HI) as [|[_ ?]]; [done|done]).
  assert (forall n d, n ∈ out.*1 -> dist adj start n d -> (n, d) ∈ out) as Hin.
  { intros n d' [d2 H2]%elem_of_fst Hd'. destruct (po_dist _ _ HI n d2 H2) as [Hd2 _].
    by rewrite (dist_unique _ _ _ _ _ Hd' Hd2). }
  induction d as [|d IH]; intros n Hd.
  { apply Hin; [|done]. by apply dist_zero in Hd as <-. }
  destruct (dist_pred _ _ _ _ Hd) as (c & Hc & Hn). apply Hin; [|done].
  destruct (po_done _ _ HI c d n) as [|(d' & Hq & _)]; [apply IH; [lia|done]|lia|done..|].
  by apply elem_of_nil in Hq.
Qed.
End PopMarked.
