(* ===== verification/GraphReach.v ===== *)
(** Bounded reachability over the code graph (crates/search/src/graph.rs):
    [reachable_within], [reachable_within_any_edge_type] and the impact
    queries built on them. *)

From S2P Require Import Prelude Loop CoreError RustText GraphStore GraphBfs.

(** [usize] limits; the larger ones are kept folded. *)
Definition MAX_REACH_HOPS : nat := 32.
Definition MAX_REACH_RESULTS : nat := Z.to_nat 10000.
Definition REACH_FANOUT : nat := Z.to_nat 4096.
#[global] Arguments MAX_REACH_RESULTS : simpl never.
#[global] Arguments REACH_FANOUT : simpl never.

Module Row.
(** [SearchGraphRow]. *)
Record t : Type := Mk {
  id : Z;
  project : string;
  label : string;
  name : string;
  qualified_name : string;
  file_path : string;
  start_line : Z;
  end_line : Z
}.
End Row.
#[export] Instance Row_eq_dec : EqDecision Row.t.
Proof. solve_decision. Defined.

Definition node_to_row (n : Node.t) : Row.t :=
  Row.Mk (Node.id n) (Node.project n) (Node.label n) (Node.name n) (Node.qualified_name n)
    (Node.file_path n) (Node.start_line n) (Node.end_line n).

Record ReachableNode : Type := { hops : nat; node : Row.t }.

(** [(hops asc, qualified_name asc, id asc)]. *)
Definition by_hops : ReachableNode -> ReachableNode -> comparison :=
  then_with (cmp_on hops Nat.compare)
    (then_with (cmp_on (fun r => Row.qualified_name (node r)) String.compare)
               (cmp_on (fun r => Row.id (node r)) Z.compare)).

(** The sort of the merged edge lists. *)
Definition by_edge : Edge.t -> Edge.t -> comparison :=
  then_with (cmp_on Edge.id Z.compare)
    (then_with (cmp_on Edge.edge_type String.compare)
      (then_with (cmp_on Edge.source_id Z.compare) (cmp_on Edge.target_id Z.compare))).

(** The requested edge types: trimmed, empty ones dropped, sorted, merged. *)
Definition clean_types (edge_types : list string) : list string :=
  dedup (sort_strings (filter (fun ty => ty <> ""%string) (trim <$> edge_types))).

(** [ImpactNode] has the fields of [ReachableNode]. *)
Record ImpactNode : Type := { impact_hops : nat; impact_node : Row.t }.
Definition impact_of (r : ReachableNode) : ImpactNode :=
  {| impact_hops := hops r; impact_node := node r |}.

Section Reach.
Context {S : Type} `{GraphStore S}.
Context (walk_table : forall A, list A -> list A).
Implicit Types s : S.

(** The edges of all types at one node, in ascending edge-id order. *)
Definition gather (s : S) (d : Direction) (types : list string) (n : Z)
  : res CoreError.Error (list Edge.t) :=
  let? es := try_fold (fun acc ty =>
    let? l := edges_at s d n (Some ty) REACH_FANOUT in Ok (acc ++ l)) [] types in
  Ok (sort_by by_edge es).

(** One turn of the loop over the queue. *)
Definition reach_turn (s : S) (d : Direction) (types : list string) (max_hops : nat)
    (st : gmap Z nat * list (Z * nat))
  : res CoreError.Error ((gmap Z nat * list (Z * nat)) + gmap Z nat) :=
  let '(best_hops, queue) := st in
  match queue with
  | [] => Ok (inr best_hops)
  | (node_id, h) :: queue =>
      if (max_hops <=? h)%nat then Ok (inl (best_hops, queue))
      else
        let? neighbours := gather s d types node_id in
        Ok (inl (foldl (fun st e => discover h st (next_of d e)) (best_hops, queue) neighbours))
  end.

(** Every id enters the queue at most once. *)
Definition reach_fuel (s : S) : nat := size (endpoints s) + 4.

(** The rows of the reached nodes, in the order the table is walked. *)
Definition reach_rows (s : S) (start_id : Z) (best_hops : gmap Z nat)
  : res CoreError.Error (list ReachableNode) :=
  try_filter_map (fun '(node_id, h) =>
    if decide (node_id = start_id) then Ok None
    else
      let? o := node_at s node_id in
      Ok ((fun nd => {| hops := h; node := node_to_row nd |}) <$> o))
    (walk_table _ (map_to_list best_hops)).

Definition reachable_within_any_edge_type (s : S) (start_id : Z) (d : Direction)
    (edge_types : list string) (max_hops limit : nat)
  : option (res CoreError.Error (list ReachableNode)) :=
  let max_hops := Nat.min max_hops MAX_REACH_HOPS in
  let limit := Nat.min limit MAX_REACH_RESULTS in
  if (max_hops =? 0)%nat || (limit =? 0)%nat || bool_decide (edge_types = []) then Some (Ok [])
  else
    let types := clean_types edge_types in
    if bool_decide (types = []) then Some (Ok [])
    else
      match node_at s start_id with
      | Ok None => Some (Ok [])
      | Ok (Some _) =>
          after (while_loop (reach_fuel s) (reach_turn s d types max_hops)
                   ({[start_id := 0%nat]}, [(start_id, 0%nat)])) (fun best_hops =>
          let? out := reach_rows s start_id best_hops in
          Ok (take limit (sort_by by_hops out)))
      | Err e => Some (Err e)
      | Panic => Some Panic
      end.

Definition reachable_within (s : S) (start_id : Z) (d : Direction) (edge_type : string)
    (max_hops limit : nat) : option (res CoreError.Error (list ReachableNode)) :=
  reachable_within_any_edge_type s start_id d [edge_type] max_hops limit.

Definition impact_radius (s : S) (source_id : Z) (d : Direction) (edge_type : string)
    (max_hops limit : nat) : option (res CoreError.Error (list ImpactNode)) :=
  after (reachable_within s source_id d edge_type max_hops limit) (fun reached =>
  Ok (impact_of <$> reached)).

Definition impact_radius_any_edge_type (s : S) (source_id : Z) (d : Direction)
    (edge_types : list string) (max_hops limit : nat)
  : option (res CoreError.Error (list ImpactNode)) :=
  after (reachable_within_any_edge_type s source_id d edge_types max_hops limit) (fun reached =>
  Ok (impact_of <$> reached)).
End Reach.

(** The loop of the reachability queries ends, with the table of distances,
    and what the rows built from the table are. *)


#[export] Instance by_hops_comparator : Comparator by_hops.
Proof. unfold by_hops. apply _. Qed.
#[export] Instance by_edge_comparator : Comparator by_edge.
Proof. unfold by_edge. apply _. Qed.

Lemma then_with_eq {A} (c1 c2 : A -> A -> comparison) a b :
  then_with c1 c2 a b = Eq -> c1 a b = Eq /\ c2 a b = Eq.
Proof. unfold then_with. destruct (c1 a b); naive_solver. Qed.

(** The graph the query walks: the edges of the given types, as the accessor
    lists them. *)
Definition reach_adj {S} `{GraphStore S} (s : S) (d : Direction) (types : list string) (n : Z)
  : list Z := types ≫= fun ty => next_ids s d (Some ty) REACH_FANOUT n.

(** A row the query has to return: a node other than the start that the store
    resolves, with its distance. *)
Definition reached {S} `{GraphStore S} (s : S) (start : Z) (d : Direction) (types : list string)
    (maxh : nat) (r : ReachableNode) : Prop :=
  exists nd, node_at s (Row.id (node r)) = Ok (Some nd) /\ node r = node_to_row nd /\
    Row.id (node r) <> start /\
    dist (reach_adj s d types) start (Row.id (node r)) (hops r) /\ (hops r <= maxh)%nat.

(** The queries that are not answered at once. *)
Definition reach_proper {S} `{GraphStore S} (s : S) (start : Z) (edge_types : list string)
    (max_hops limit : nat) : Prop :=
  (0 < max_hops)%nat /\ (0 < limit)%nat /\ clean_types edge_types <> [] /\
  exists nd, node_at s start = Ok (Some nd).

Section ReachFacts.
Context {S : Type} `{GraphStoreLaws S}.
Context (w : forall A, list A -> list A) `{!HashOrder w}.
Implicit Types s : S.

Lemma try_fold_gather s d n types acc es :
  try_fold (fun acc ty => let? l := edges_at s d n (Some ty) REACH_FANOUT in Ok (acc ++ l)) acc types
    = Ok es ->
  forall x, x ∈ next_of d <$> es <-> x ∈ next_of d <$> acc \/ x ∈ reach_adj s d types n.
Proof.
  revert acc. induction types as [|ty types IH]; intros acc; simpl.
  { intros [= ->] x. unfold reach_adj. simpl. set_solver. }
  destruct (edges_at s d n (Some ty) REACH_FANOUT) as [l| |] eqn:Hl; simpl; [|done..].
  intros Hes x. rewrite (IH _ Hes), fmap_app. unfold reach_adj. simpl.
  replace (next_ids s d (Some ty) REACH_FANOUT n) with (next_of d <$> l)
    by (unfold next_ids; by rewrite Hl).
  rewrite !elem_of_app. tauto.
Qed.

Lemma gather_next s d types n es :
  gather s d types n = Ok es -> forall x, x ∈ next_of d <$> es <-> x ∈ reach_adj s d types n.
Proof.
  unfold gather. destruct (try_fold _ _ _) as [l| |] eqn:Hl; simpl; [|done..].
  intros [= <-] x. rewrite (sort_by_Permutation by_edge l), (try_fold_gather _ _ _ _ _ _ Hl).
  set_solver.
Qed.

Lemma reach_adj_endpoints s d types n x : x ∈ reach_adj s d types n -> x ∈ endpoints s.
Proof.
  unfold reach_adj. rewrite list_elem_of_bind. intros (ty & Hx & _). unfold next_ids in Hx.
  destruct (edges_at s d n (Some ty) REACH_FANOUT) as [es| |] eqn:Hes; [|by apply elem_of_nil in Hx..].
  apply list_elem_of_fmap in Hx as (e & -> & He). by eapply edges_at_next.
Qed.

Lemma gather_total s d types n : readable s -> exists es, gather s d types n = Ok es.
Proof.
  intros [_ He]. unfold gather.
  assert (forall acc, exists l, try_fold (fun acc ty =>
    let? l := edges_at s d n (Some ty) REACH_FANOUT in Ok (acc ++ l)) acc types = Ok l) as Hf.
  { induction types as [|ty types IH]; intros acc; simpl; [by eexists|].
    destruct (He d n (Some ty) REACH_FANOUT) as [l ->]. apply IH. }
  destruct (Hf []) as [l ->]. simpl. by eexists.
Qed.

Lemma foldl_next h d es (st : gmap Z nat * list (Z * nat)) :
  foldl (fun st e => discover h st (next_of d e)) st es = foldl (discover h) st (next_of d <$> es).
Proof. revert st. induction es as [|e es IH]; intros st; simpl; [done | apply IH]. Qed.

(** The loop ends, with the table of distances; it fails only when a query
    on the store does. *)
Lemma reach_loop s start d types maxh :
  exists r,
    while_loop (reach_fuel s) (reach_turn s d types maxh) ({[start := 0%nat]}, [(start, 0%nat)])
      = Some r /\
    (forall best, r = Ok best -> forall n k, best !! n = Some k <->
       dist (reach_adj s d types) start n k /\ (k <= maxh)%nat) /\
    (readable s -> is_ok r = true).
Proof.
  set (I := fun st : gmap Z nat * list (Z * nat) =>
    push_inv (reach_adj s d types) start maxh st.1 st.2 /\ within start (endpoints s) st.1).
  set (Q := fun r : res CoreError.Error (gmap Z nat) =>
    (forall best, r = Ok best -> push_inv (reach_adj s d types) start maxh best []) /\
    (readable s -> is_ok r = true)).
  destruct (while_total I (fun st => push_measure (endpoints s) st.1 st.2) Q
    (reach_turn s d types maxh)) with (fuel := reach_fuel s)
    (s := ({[start := 0%nat]} : gmap Z nat, [(start, 0%nat)])) as (r & Hr & HQ1 & HQ2).
  - intros [best q] [HI HW]. simpl in *. destruct q as [|[n h] q]; simpl.
    { split; [by intros ? [= <-] | done]. }
    destruct (Nat.leb_spec maxh h) as [Hh|Hh].
    + split; [split; [by eapply push_inv_pop | done] | apply pop_measure].
    + destruct (gather s d types n) as [es| |] eqn:Hes; simpl.
      2,3: split; [done|]; intros Hr; destruct (gather_total s d types n Hr); congruence.
      rewrite foldl_next. destruct (foldl _ _ _) as [best' q'] eqn:Hf. simpl.
      pose proof (gather_next _ _ _ _ _ Hes) as Hadj.
      destruct (discover_measure start (endpoints s) best n h q (next_of d <$> es) best' q' HW)
        as [HW' Hm]; [|done|].
      { intros m Hm. eapply reach_adj_endpoints. by apply Hadj. }
      split; [split; [by eapply push_inv_expand | done] | done].
  - split; simpl; [apply push_inv_init | apply within_init].
  - unfold push_measure, reach_fuel. simpl. rewrite map_size_singleton. lia.
  - exists r. split; [done|]. split; [|done]. intros best Hb. apply push_inv_final. by apply HQ1.
Qed.

Lemma elem_of_reach_rows s start (best : gmap Z nat) out :
  reach_rows w s start best = Ok out ->
  forall r, r ∈ out <-> exists nd, node_at s (Row.id (node r)) = Ok (Some nd) /\
    node r = node_to_row nd /\ Row.id (node r) <> start /\
    best !! Row.id (node r) = Some (hops r).
Proof.
  intros Hout r. unfold reach_rows in Hout. rewrite (elem_of_try_filter_map _ _ _ _ Hout). split.
  - intros ([n h] & Hin & Hf). rewrite (elem_of_walk w), elem_of_map_to_list in Hin.
    destruct (decide (n = start)) as [|Hne]; [done|].
    destruct (node_at s n) as [[nd|]| |] eqn:Hn; simpl in Hf; [|done..].
    injection Hf as <-. pose proof (node_at_id _ _ _ Hn) as Hid. simpl. rewrite Hid. eauto.
  - intros (nd & Hn & Hr & Hne & Hb). exists (Row.id (node r), hops r). split.
    + by rewrite (elem_of_walk w), elem_of_map_to_list.
    + destruct (decide _) as [|_]; [done|]. rewrite Hn. simpl. rewrite <- Hr. by destruct r.
Qed.

Lemma reach_rows_nodup s start (best : gmap Z nat) out :
  reach_rows w s start best = Ok out -> NoDup ((fun r => Row.id (node r)) <$> out).
Proof.
  apply walk_rows_nodup; [done|]. intros n h r. simpl. destruct (decide (n = start)); [done|].
  destruct (node_at s n) as [[nd|]| |] eqn:Hn; simpl; [|done..]. intros [= <-]. by eapply node_at_id.
Qed.

(** The query unfolded once its arguments are proper. *)
Lemma reachable_run s start d edge_types max_hops limit :
  reach_proper s start edge_types max_hops limit ->
  exists r,
    reachable_within_any_edge_type w s start d edge_types max_hops limit = Some r /\
    (forall out, r = Ok out -> exists best rows,
       (forall n k, best !! n = Some k <->
          dist (reach_adj s d (clean_types edge_types)) start n k /\
          (k <= Nat.min max_hops MAX_REACH_HOPS)%nat) /\
       reach_rows w s start best = Ok rows /\
       out = take (Nat.min limit MAX_REACH_RESULTS) (sort_by by_hops rows)) /\
    (readable s -> is_ok r = true).
Proof.
  intros (Hh & Hl & Ht & nd & Hnd). unfold reachable_within_any_edge_type.
  replace ((_ =? 0)%nat || _ || _) with false; cycle 1.
  { symmetry. rewrite !orb_false_iff. split; [split|].
    - apply Nat.eqb_neq. unfold MAX_REACH_HOPS. lia.
    - apply Nat.eqb_neq. unfold MAX_REACH_RESULTS. lia.
    - apply bool_decide_eq_false. by intros ->. }
  rewrite bool_decide_eq_false_2 by done. rewrite Hnd.
  destruct (reach_loop s start d (clean_types edge_types) (Nat.min max_hops MAX_REACH_HOPS))
    as (r & -> & Hbest & Hok).
  rewrite after_some. eexists. split; [done|]. split.
  - intros out Hout. destruct r as [best| |]; simpl in Hout; [|done..].
    destruct (reach_rows w s start best) as [rows| |] eqn:Hrows; simpl in Hout; [|done..].
    injection Hout as <-. exists best, rows. split; [by apply Hbest | done].
  - intros Hr. specialize (Hok Hr). destruct r as [best| |]; simpl in *; [|done..].
    destruct (try_filter_map_total (fun '(node_id, h) =>
      if decide (node_id = start) then Ok None
      else let? o := node_at s node_id in
           Ok ((fun nd => {| hops := h; node := node_to_row nd |}) <$> o))
      (w _ (map_to_list best))) as [rows Hrows].
    { intros [n h] _. destruct (decide (n = start)); [by eexists|].
      destruct Hr as [Hr _]. destruct (Hr n) as [o ->]. simpl. by eexists. }
    unfold reach_rows. by rewrite Hrows.
Qed.

Lemma reachable_improper s start d edge_types max_hops limit :
  ~ reach_proper s start edge_types max_hops limit ->
  (forall e, node_at s start <> Err e) -> node_at s start <> Panic ->
  reachable_within_any_edge_type w s start d edge_types max_hops limit = Some (Ok []).
Proof.
  intros Hp He Hpn. unfold reachable_within_any_edge_type.
  destruct ((_ =? 0)%nat || _ || _) eqn:Hb; [done|]. rewrite !orb_false_iff, !Nat.eqb_neq in Hb.
  destruct (decide (clean_types edge_types = [])) as [Ht|Ht];
    [by rewrite bool_decide_eq_true_2 | rewrite bool_decide_eq_false_2 by done].
  destruct (node_at s start) as [[nd|]|e|] eqn:Hn; [|done|naive_solver..].
  destruct Hp. split_and!; [unfold MAX_REACH_HOPS in *; lia|unfold MAX_REACH_RESULTS in *; lia|done|eauto].
Qed.
End ReachFacts.
