(* ===== verification/GraphDb.v ===== *)
(** A single (non-overlay) graph store: the tables [projects], [nodes],
    [edges], [vector_embeddings] and the contentless full-text table
    [nodes_fts] of crates/store, with the operations of node.rs, edge.rs,
    project.rs and the writers of vector_embedding.rs on them.

    A table with an [INTEGER PRIMARY KEY AUTOINCREMENT] is a map from ids to
    rows and the last id given out.  Foreign keys are enforced (rusqlite's
    bundled SQLite has them on), with [ON DELETE CASCADE] where the schema
    says so.  [nodes_fts] is a multiset of postings: a contentless ['delete']
    takes out the posting with exactly the given columns and leaves any other
    in place. *)

From Stdlib Require SpecFloat.
From stdpp Require Import gmultiset.
From S2P Require Import Prelude Loop RustStr RustText Fts GraphStore.
#[local] Open Scope string_scope.

Record NewNode : Type := {
  n_project : string;
  n_label : string;
  n_name : string;
  n_qualified_name : string;
  n_file_path : string;
  n_start_line : Z;
  n_end_line : Z;
  n_properties : string
}.

Record NewEdge : Type := {
  e_project : string;
  e_source_id : Z;
  e_target_id : Z;
  e_edge_type : string;
  e_properties : string
}.

Record Project : Type := { p_name : string; p_indexed_at : string; p_root_path : string }.

(** [f32]: IEEE binary32, rounding to the nearest. *)
Module F32.
Import SpecFloat.
Definition t : Type := spec_float.
Definition zero : t := S754_zero false.
Definition is_finite (x : t) : bool :=
  match x with S754_zero _ | S754_finite _ _ _ => true | S754_infinity _ | S754_nan => false end.
Definition add : t -> t -> t := SFadd 24 128.
Definition sqrt : t -> t := SFsqrt 24 128.
Definition le : t -> t -> bool := SFleb.

(** [f32::mul_add]: one rounding, of the exact [x * y + z].  The product of
    finite numbers that are not zero is rounded with the sum; every other
    product is exact. *)
Definition mul_add (x y z : t) : t :=
  match x, y, z with
  | S754_finite sx mx ex, S754_finite sy my ey, S754_finite sz mz ez =>
      let e := Z.min (ex + ey) ez in
      let p := cond_Zopp (xorb sx sy) (Z.pos (mx * my)) in
      let q := cond_Zopp sz (Z.pos mz) in
      binary_normalize 24 128 (Z.shiftl p (ex + ey - e) + Z.shiftl q (ez - e)) e false
  | S754_finite _ _ _, S754_finite _ _ _, S754_infinity _ => z
  | _, _, _ => SFadd 24 128 (SFmul 24 128 x y) z
  end.

(** The four sums of [dot] over the whole blocks of four, and the rest. *)
Fixpoint dot_from (s0 s1 s2 s3 : t) (a b : list t) : t :=
  match a, b with
  | x0 :: x1 :: x2 :: x3 :: a, y0 :: y1 :: y2 :: y3 :: b =>
      dot_from (mul_add x0 y0 s0) (mul_add x1 y1 s1) (mul_add x2 y2 s2) (mul_add x3 y3 s3) a b
  | _, _ => foldl (fun acc xy => mul_add xy.1 xy.2 acc) (add (add s0 s1) (add s2 s3)) (zip a b)
  end.
Definition dot (a b : list t) : t := dot_from zero zero zero zero a b.
Definition vector_norm (v : list t) : t := sqrt (dot v v).
End F32.

(** The row of [vector_embeddings], without the columns computed from the
    vector ([dim], [vector_norm], [vector_i8], [i8_scale]) and the time of
    creation. *)
Record NewVectorEmbedding : Type := {
  v_project : string;
  v_model_id : string;
  v_prompt_version : string;
  v_task : string;
  v_node_id : option Z;
  v_chunk_idx : Z;
  v_qualified_name : string;
  v_file_path : string;
  v_start_line : Z;
  v_end_line : Z;
  v_content_sha256 : string;
  v_graph_generation : Z;
  v_vector : list F32.t
}.

(** The unique index of the table. *)
Definition vector_key (v : NewVectorEmbedding) : string * string * string * string * string * Z * string :=
  (v_project v, v_model_id v, v_prompt_version v, v_task v, v_qualified_name v, v_chunk_idx v,
   v_content_sha256 v).

(** rowid, name, qualified_name, label, file_path. *)
Definition posting : Type := Z * string * string * string * string.

Record Db : Type := {
  projects : gmap string Project;
  nodes : gmap Z NewNode;
  node_seq : Z;
  edges : gmap Z NewEdge;
  edge_seq : Z;
  nodes_fts : gmultiset posting;
  vectors : gmap Z NewVectorEmbedding;
  vector_seq : Z
}.

Definition set_projects (f : gmap string Project -> gmap string Project) (s : Db) : Db :=
  {| projects := f (projects s); nodes := nodes s; node_seq := node_seq s; edges := edges s;
     edge_seq := edge_seq s; nodes_fts := nodes_fts s; vectors := vectors s; vector_seq := vector_seq s |}.
Definition set_nodes (f : gmap Z NewNode -> gmap Z NewNode) (s : Db) : Db :=
  {| projects := projects s; nodes := f (nodes s); node_seq := node_seq s; edges := edges s;
     edge_seq := edge_seq s; nodes_fts := nodes_fts s; vectors := vectors s; vector_seq := vector_seq s |}.
Definition set_node_seq (n : Z) (s : Db) : Db :=
  {| projects := projects s; nodes := nodes s; node_seq := n; edges := edges s;
     edge_seq := edge_seq s; nodes_fts := nodes_fts s; vectors := vectors s; vector_seq := vector_seq s |}.
Definition set_edges (f : gmap Z NewEdge -> gmap Z NewEdge) (s : Db) : Db :=
  {| projects := projects s; nodes := nodes s; node_seq := node_seq s; edges := f (edges s);
     edge_seq := edge_seq s; nodes_fts := nodes_fts s; vectors := vectors s; vector_seq := vector_seq s |}.
Definition set_edge_seq (n : Z) (s : Db) : Db :=
  {| projects := projects s; nodes := nodes s; node_seq := node_seq s; edges := edges s;
     edge_seq := n; nodes_fts := nodes_fts s; vectors := vectors s; vector_seq := vector_seq s |}.
Definition set_fts (f : gmultiset posting -> gmultiset posting) (s : Db) : Db :=
  {| projects := projects s; nodes := nodes s; node_seq := node_seq s; edges := edges s;
     edge_seq := edge_seq s; nodes_fts := f (nodes_fts s); vectors := vectors s; vector_seq := vector_seq s |}.
Definition set_vectors (f : gmap Z NewVectorEmbedding -> gmap Z NewVectorEmbedding) (s : Db) : Db :=
  {| projects := projects s; nodes := nodes s; node_seq := node_seq s; edges := edges s;
     edge_seq := edge_seq s; nodes_fts := nodes_fts s; vectors := f (vectors s);
     vector_seq := vector_seq s |}.
Definition set_vector_seq (n : Z) (s : Db) : Db :=
  {| projects := projects s; nodes := nodes s; node_seq := node_seq s; edges := edges s;
     edge_seq := edge_seq s; nodes_fts := nodes_fts s; vectors := vectors s; vector_seq := n |}.

Definition i64_max : Z := 9223372036854775807.

Definition dbm (A : Type) : Type := action StoreError.Error Db A.

Definition fk_failed : StoreError.Error := StoreError.Sqlite "FOREIGN KEY constraint failed".
Definition unique_failed (what : string) : StoreError.Error :=
  StoreError.Sqlite ("UNIQUE constraint failed: " ++ what).
Definition disk_full : StoreError.Error := StoreError.Sqlite "database or disk is full".

(** A row of a table with its primary key. *)
Definition row_of (id : Z) (n : NewNode) : Node.t :=
  Node.Mk id (n_project n) (n_label n) (n_name n) (n_qualified_name n) (n_file_path n)
    (n_start_line n) (n_end_line n) (n_properties n).
Definition edge_row (id : Z) (e : NewEdge) : Edge.t :=
  Edge.Mk id (e_project e) (e_source_id e) (e_target_id e) (e_edge_type e) (e_properties e).

(** The rows of a table in ascending id order, and
    [SELECT .. FROM t WHERE p ORDER BY id]. *)
Definition table {A B} (mk : Z -> A -> B) (t : gmap Z A) : list B :=
  (fun x => mk x.1 x.2) <$> sort_by (cmp_on fst Z.compare) (map_to_list t).
Definition rows_where {A B} (mk : Z -> A -> B) (p : B -> Prop) `{!forall b, Decision (p b)}
    (t : gmap Z A) : list B := filter p (table mk t).

(** ** Reading *)

Definition select_node (s : Db) (id : Z) : option Node.t := row_of id <$> nodes s !! id.

Definition is_named (project qname : string) (n : Node.t) : Prop :=
  Node.project n = project /\ Node.qualified_name n = qname.

Definition get_node_by_qname (project qname : string) : dbm (option Node.t) :=
  gets (fun s => head (rows_where row_of (is_named project qname) (nodes s))).

(** [ORDER BY qualified_name], [ORDER BY qualified_name, id]. *)
Definition by_qname : Node.t -> Node.t -> comparison :=
  then_with (cmp_on Node.qualified_name String.compare) (cmp_on Node.id Z.compare).

Definition list_nodes_by_label (project label : string) (limit : nat) : dbm (list Node.t) :=
  gets (fun s => take limit (sort_by by_qname
    (rows_where row_of (fun n => Node.project n = project /\ Node.label n = label) (nodes s)))).

Definition list_nodes_by_name (project name : string) (limit : nat) : dbm (list Node.t) :=
  gets (fun s => take limit (sort_by by_qname
    (rows_where row_of (fun n => Node.project n = project /\ Node.name n = name) (nodes s)))).

Definition count_nodes_by_name (project name : string) : dbm Z :=
  gets (fun s => Z.of_nat (length
    (rows_where row_of (fun n => Node.project n = project /\ Node.name n = name) (nodes s)))).

Definition list_nodes_for_file (project file : string) : dbm (list Node.t) :=
  gets (fun s => sort_by by_qname
    (rows_where row_of (fun n => Node.project n = project /\ Node.file_path n = file) (nodes s))).

(** The filter of [list_nodes] and [count_nodes]: an empty string matches. *)
Definition node_filter (project label file : string) (n : Node.t) : Prop :=
  Node.project n = project /\ (label = "" \/ Node.label n = label) /\
  (file = "" \/ Node.file_path n = file).

Definition list_nodes (project label file : string) (offset limit : nat) : dbm (list Node.t) :=
  gets (fun s => take limit (drop offset (sort_by by_qname
    (rows_where row_of (node_filter project label file) (nodes s))))).

Definition count_nodes (project label file : string) : dbm Z :=
  gets (fun s => Z.of_nat (length (rows_where row_of (node_filter project label file) (nodes s)))).

Definition count_nodes_by_label (project label : string) : dbm Z :=
  gets (fun s => Z.of_nat (length
    (rows_where row_of (fun n => Node.project n = project /\ Node.label n = label) (nodes s)))).

Definition get_edge (id : Z) : dbm (option Edge.t) :=
  gets (fun s => edge_row id <$> edges s !! id).

(** [outgoing_edges] and [incoming_edges] on a store that is not an overlay. *)
Definition select_edges (d : Direction) (s : Db) (id : Z) (ty : option string) (limit : nat)
  : list Edge.t :=
  take limit (rows_where edge_row (fun e => from_of d e = id /\ type_matches ty e) (edges s)).

Definition count_edges (project : string) (ty : option string) : dbm Z :=
  gets (fun s => Z.of_nat (length
    (rows_where edge_row (fun e => Edge.project e = project /\ type_matches ty e) (edges s)))).

(** ** Projects *)

Definition upsert_project (p : Project) : dbm unit :=
  atomically (modify (set_projects <[p_name p := p]>)).

Definition get_project (name : string) : dbm (option Project) := gets (fun s => projects s !! name).

(** [ON DELETE CASCADE]: rows that refer to a project or a node that is gone
    go with it. *)
Definition live_node (s : Db) (n : NewNode) : Prop := is_Some (projects s !! n_project n).
Definition live_edge (s : Db) (e : NewEdge) : Prop :=
  is_Some (projects s !! e_project e) /\ is_Some (nodes s !! e_source_id e) /\
  is_Some (nodes s !! e_target_id e).
Definition live_vector (s : Db) (v : NewVectorEmbedding) : Prop :=
  is_Some (projects s !! v_project v) /\
  match v_node_id v with Some n => is_Some (nodes s !! n) | None => True end.
#[export] Instance live_vector_dec s v : Decision (live_vector s v).
Proof. unfold live_vector. destruct (v_node_id v); apply _. Defined.

Definition cascade : dbm unit :=
  modify (fun s => set_nodes (filter (fun x => live_node s x.2)) s) ;;;
  modify (fun s => set_edges (filter (fun x => live_edge s x.2)) s) ;;;
  modify (fun s => set_vectors (filter (fun x => live_vector s x.2)) s).

Definition delete_project (name : string) : dbm unit :=
  atomically (modify (set_projects (delete name)) ;;; cascade).

(** ** Nodes *)

Section Nodes.
Context (uni_alnum : char -> bool).

(** The row of [nodes_fts] that belongs to a row of [nodes]. *)
Definition posting_of (n : Node.t) : posting :=
  let '(name_col, qname_col) := fts_tokens uni_alnum (Node.name n) (Node.qualified_name n) in
  (Node.id n, name_col, qname_col, Node.label n, Node.file_path n).

(** [INSERT INTO main.nodes_fts(nodes_fts, ..) VALUES('delete', ..)]. *)
Definition fts_delete (p : posting) : dbm unit := modify (set_fts (fun f => f ∖ {[+ p +]})).
Definition fts_insert (p : posting) : dbm unit := modify (set_fts (fun f => {[+ p +]} ⊎ f)).

Definition fresh_node_id : dbm Z :=
  let! seq := gets node_seq in
  guard (seq <? i64_max)%Z disk_full ;;;
  modify (set_node_seq (seq + 1)%Z) ;;; ret (seq + 1)%Z.

(** [insert_node_in_tx]: the prior posting of the row goes before the row is
    updated in place. *)
Definition insert_node_in_tx (n : NewNode) : dbm Z :=
  let! prior := get_node_by_qname (n_project n) (n_qualified_name n) in
  match prior with Some old => fts_delete (posting_of old) | None => ret tt end ;;;
  let! ps := gets projects in
  guard (bool_decide (is_Some (ps !! n_project n))) fk_failed ;;;
  let! id := match prior with Some old => ret (Node.id old) | None => fresh_node_id end in
  modify (set_nodes <[id := n]>) ;;;
  fts_insert (posting_of (row_of id n)) ;;;
  ret id.

(** [insert_node] on a store that is not an overlay. *)
Definition insert_node (n : NewNode) : dbm Z := atomically (insert_node_in_tx n).
Definition insert_nodes (ns : list NewNode) : dbm (list Z) :=
  match ns with [] => ret [] | _ => atomically (mapM insert_node_in_tx ns) end.

Definition delete_vectors_of (id : Z) : dbm unit :=
  modify (set_vectors (filter (fun x => v_node_id x.2 <> Some id))).

Definition delete_node (id : Z) : dbm unit :=
  atomically (
    let! row := gets (fun s => select_node s id) in
    match row with Some n => fts_delete (posting_of n) | None => ret tt end ;;;
    delete_vectors_of id ;;;
    modify (set_nodes (delete id)) ;;;
    cascade).

Definition in_file (project file : string) (n : Node.t) : Prop :=
  Node.project n = project /\ Node.file_path n = file.

Definition delete_vector_embeddings_for_file (project file : string) : dbm Z :=
  atomically (
    let! n := gets (fun s => Z.of_nat (length
      (rows_where (fun _ v => v) (fun v => v_project v = project /\ v_file_path v = file) (vectors s)))) in
    modify (set_vectors (filter (fun x => ~ (v_project x.2 = project /\ v_file_path x.2 = file)))) ;;;
    ret n).

Definition delete_nodes_for_file (project file : string) : dbm Z :=
  let! rows := gets (fun s => rows_where row_of (in_file project file) (nodes s)) in
  match rows with
  | [] => delete_vector_embeddings_for_file project file ;;; ret 0
  | _ =>
      atomically (
        forM rows (fun n => fts_delete (posting_of n)) ;;;
        modify (set_vectors (filter (fun x => ~ (v_project x.2 = project /\ v_file_path x.2 = file)))) ;;;
        modify (set_nodes (filter (fun x => ~ in_file project file (row_of x.1 x.2)))) ;;;
        cascade ;;;
        ret (Z.of_nat (length rows)))
  end.

(** [UPDATE main.nodes SET label = ?2, qualified_name = ?3]. *)
Definition set_identity (label qname : string) (n : NewNode) : NewNode :=
  {| n_project := n_project n; n_label := label; n_name := n_name n; n_qualified_name := qname;
     n_file_path := n_file_path n; n_start_line := n_start_line n; n_end_line := n_end_line n;
     n_properties := n_properties n |}.

(** [update_node_identity] on an owned node: the savepoint around it makes it
    atomic. *)
Definition update_node_identity (id : Z) (label qname : string) : dbm unit :=
  atomically (
    let! row := gets (fun s => nodes s !! id) in
    let! n := ok_or row (StoreError.Store "definition identity migration requires an owned node") in
    fts_delete (posting_of (row_of id n)) ;;;
    delete_vectors_of id ;;;
    let! clash := gets (fun s => rows_where row_of (fun m => is_named (n_project n) qname m /\ Node.id m <> id) (nodes s)) in
    guard (bool_decide (clash = [])) (unique_failed "nodes.project, nodes.qualified_name") ;;;
    modify (set_nodes <[id := set_identity label qname n]>) ;;;
    fts_insert (posting_of (row_of id (set_identity label qname n)))).

Definition set_span (start_line end_line : Z) (n : NewNode) : NewNode :=
  {| n_project := n_project n; n_label := n_label n; n_name := n_name n;
     n_qualified_name := n_qualified_name n; n_file_path := n_file_path n;
     n_start_line := start_line; n_end_line := end_line; n_properties := n_properties n |}.

(** [update_node_spans] on a store that is not an overlay; it runs in the
    caller's transaction. *)
Definition update_node_spans (spans : list (Z * Z * Z)) : dbm unit :=
  forM spans (fun '(id, start_line, end_line) =>
    guard (negb ((start_line <? 1) || (end_line <? start_line)))%Z
      (StoreError.Store "invalid repaired node span") ;;;
    let! row := gets (fun s => nodes s !! id) in
    let! n := ok_or row (StoreError.Store "missing span repair node") in
    if (0 <=? id)%Z then modify (set_nodes <[id := set_span start_line end_line n]>) else ret tt).
End Nodes.

(** ** Edges *)

Definition fresh_edge_id : dbm Z :=
  let! seq := gets edge_seq in
  guard (seq <? i64_max)%Z disk_full ;;;
  modify (set_edge_seq (seq + 1)%Z) ;;; ret (seq + 1)%Z.

Definition same_edge (e : NewEdge) (x : Edge.t) : Prop :=
  Edge.source_id x = e_source_id e /\ Edge.target_id x = e_target_id e /\
  Edge.edge_type x = e_edge_type e.

Definition set_edge_properties (props : string) (x : NewEdge) : NewEdge :=
  {| e_project := e_project x; e_source_id := e_source_id x; e_target_id := e_target_id x;
     e_edge_type := e_edge_type x; e_properties := props |}.

(** [insert_edge] on a store that is not an overlay: an upsert on
    [(source_id, target_id, edge_type)] that replaces the properties. *)
Definition insert_edge (e : NewEdge) : dbm Z :=
  atomically (
    let! prior := gets (fun s => head (rows_where edge_row (same_edge e) (edges s))) in
    match prior with
    | Some x =>
        modify (set_edges (alter (set_edge_properties (e_properties e)) (Edge.id x))) ;;;
        ret (Edge.id x)
    | None =>
        let! s := gets id in
        guard (bool_decide (is_Some (projects s !! e_project e))) fk_failed ;;;
        guard (bool_decide (is_Some (nodes s !! e_source_id e))) fk_failed ;;;
        guard (bool_decide (is_Some (nodes s !! e_target_id e))) fk_failed ;;;
        let! i := fresh_edge_id in
        modify (set_edges <[i := e]>) ;;; ret i
    end).

(** ** Vectors *)

Definition validate_query_vector (v : list F32.t) : dbm unit :=
  guard (match v with [] => false | _ => true end) (StoreError.Invalid "vector must not be empty") ;;;
  guard (forallb F32.is_finite v) (StoreError.Invalid "vector contains non-finite values") ;;;
  let norm := F32.vector_norm v in
  guard (negb (F32.le norm F32.zero || negb (F32.is_finite norm)))
    (StoreError.Invalid "vector norm must be positive").

Definition not_blank (value what : string) : dbm unit :=
  guard (negb (bool_decide (RustText.trim value = "")))
    (StoreError.Invalid ("vector embedding " ++ what ++ " must not be empty")).

Definition validate_embedding_input (e : NewVectorEmbedding) : dbm unit :=
  not_blank (v_project e) "project" ;;;
  not_blank (v_model_id e) "model_id" ;;;
  not_blank (v_prompt_version e) "prompt_version" ;;;
  not_blank (v_task e) "task" ;;;
  not_blank (v_qualified_name e) "qualified_name" ;;;
  guard (0 <=? v_chunk_idx e)%Z (StoreError.Invalid "vector embedding chunk_idx must be non-negative") ;;;
  guard ((str_len (v_content_sha256 e) =? 64)%Z && str_all is_ascii_hexdigit (v_content_sha256 e))
    (StoreError.Invalid "vector embedding content_sha256 must be a 64-character hex digest") ;;;
  validate_query_vector (v_vector e).

(** [u64 as i64]. *)
Definition generation_as_i64 (g : Z) : Z := if (g <=? i64_max)%Z then g else (g - 2 ^ 64)%Z.

Definition stored_vector (e : NewVectorEmbedding) : NewVectorEmbedding :=
  {| v_project := v_project e; v_model_id := v_model_id e; v_prompt_version := v_prompt_version e;
     v_task := v_task e; v_node_id := v_node_id e; v_chunk_idx := v_chunk_idx e;
     v_qualified_name := v_qualified_name e; v_file_path := v_file_path e;
     v_start_line := v_start_line e; v_end_line := v_end_line e;
     v_content_sha256 := v_content_sha256 e;
     v_graph_generation := generation_as_i64 (v_graph_generation e); v_vector := v_vector e |}.

Definition fresh_vector_id : dbm Z :=
  let! seq := gets vector_seq in
  guard (seq <? i64_max)%Z disk_full ;;;
  modify (set_vector_seq (seq + 1)%Z) ;;; ret (seq + 1)%Z.

(** The statement of [upsert_vector_embeddings]: on a conflict every column
    outside the key is replaced. *)
Definition upsert_vector_in_tx (e : NewVectorEmbedding) : dbm Z :=
  let! prior := gets (fun s =>
    head (rows_where pair (fun x => vector_key x.2 = vector_key e) (vectors s))) in
  let! s := gets id in
  guard (match v_node_id e with Some n => bool_decide (is_Some (nodes s !! n)) | None => true end)
    fk_failed ;;;
  let! i := match prior with
    | Some x => ret x.1
    | None => guard (bool_decide (is_Some (projects s !! v_project e))) fk_failed ;;; fresh_vector_id
    end in
  modify (set_vectors <[i := stored_vector e]>) ;;; ret i.

Definition upsert_vector_embeddings (es : list NewVectorEmbedding) : dbm (list Z) :=
  forM es validate_embedding_input ;;;
  match es with [] => ret [] | _ => atomically (mapM upsert_vector_in_tx es) end.

Definition prune_vector_embeddings_before_generation (project : string) (generation : Z) : dbm Z :=
  atomically (
    let old (v : NewVectorEmbedding) :=
      v_project v = project /\ (v_graph_generation v < generation_as_i64 generation)%Z in
    let! n := gets (fun s => Z.of_nat (length (rows_where (fun _ v => v) old (vectors s)))) in
    modify (set_vectors (filter (fun x => ~ old x.2))) ;;;
    ret n).

(** ** The interface *)

#[export] Instance Db_graph : GraphStore Db := {
  get_node s n := Ok (select_node s n);
  outgoing_edges s n ty limit := Ok (select_edges Outgoing s n ty limit);
  incoming_edges s n ty limit := Ok (select_edges Incoming s n ty limit);
  endpoints s := list_to_set ((e_source_id <$> (map_to_list (edges s)).*2)
                              ++ (e_target_id <$> (map_to_list (edges s)).*2))
}.
