(* ===== verification/GraphDbFacts.v ===== *)
(** Facts about the single graph store: queries over a table, the laws of the
    interface, and the invariant of the tables with its preservation by every
    operation. *)

From stdpp Require Import gmultiset.
From S2P Require Import Prelude Loop RustStr RustText Fts GraphStore GraphDb.

(** ** Queries *)

Section Tables.
Context {A B : Type} (mk : Z -> A -> B).
Implicit Types t : gmap Z A.

Lemma elem_of_table t b : b ∈ table mk t <-> exists i a, t !! i = Some a /\ b = mk i a.
Proof.
  unfold table. rewrite list_elem_of_fmap. setoid_rewrite elem_of_sort_by. split.
  - intros ([i a] & -> & Hx%elem_of_map_to_list). eauto.
  - intros (i & a & Ha & ->). exists (i, a). by rewrite elem_of_map_to_list.
Qed.

Lemma elem_of_rows_where p `{!forall b, Decision (p b)} t b :
  b ∈ rows_where mk p t <-> p b /\ exists i a, t !! i = Some a /\ b = mk i a.
Proof. unfold rows_where. by rewrite list_elem_of_filter, elem_of_table. Qed.

Lemma sorted_filter {X} (R : relation X) (p : X -> Prop) `{!forall x, Decision (p x)} l :
  StronglySorted R l -> StronglySorted R (filter p l).
Proof.
  induction 1 as [|x l Hs IH Hf]; [constructor|]. rewrite filter_cons. destruct (decide (p x)); [|done].
  constructor; [done|]. rewrite Forall_forall in Hf |- *. intros y Hy.
  apply list_elem_of_filter in Hy as [_ Hy]. by apply Hf.
Qed.

Lemma table_sorted (key : B -> Z) t :
  (forall i a, key (mk i a) = i) -> StronglySorted (fun x y => key x < key y) (table mk t).
Proof.
  intros Hk. unfold table.
  pose proof (sort_by_sorted (cmp_on fst Z.compare) (map_to_list t)) as Hs.
  assert (NoDup (sort_by (cmp_on fst Z.compare) (map_to_list t)).*1) as Hnd.
  { rewrite sort_by_Permutation. apply NoDup_fst_map_to_list. }
  induction (sort_by (cmp_on fst Z.compare) (map_to_list t)) as [|[i a] l IH]; simpl; [constructor|].
  inversion Hs as [|? ? Hs' Hf]; inversion Hnd as [|? ? Hi Hnd']; subst.
  constructor; [by apply IH|]. rewrite Forall_fmap. rewrite Forall_forall in Hf |- *.
  intros [j b] Hj. simpl. rewrite !Hk. specialize (Hf _ Hj). unfold cmp_on in Hf. simpl in Hf.
  assert (i <> j). { intros ->. apply Hi, list_elem_of_fmap. by exists (j, b). }
  rewrite Z.compare_gt_iff in Hf. lia.
Qed.

Lemma rows_where_sorted (key : B -> Z) p `{!forall b, Decision (p b)} t :
  (forall i a, key (mk i a) = i) -> StronglySorted Z.lt (key <$> rows_where mk p t).
Proof.
  intros Hk. apply (StronglySorted_fmap key (fun x y => key x < key y) Z.lt); [done|].
  by apply sorted_filter, table_sorted.
Qed.

(** The first row of a query that finds something. *)
Lemma head_rows_where p `{!forall b, Decision (p b)} t b :
  head (rows_where mk p t) = Some b -> p b /\ exists i a, t !! i = Some a /\ b = mk i a.
Proof.
  destruct (rows_where mk p t) as [|x l] eqn:Hl; simpl; [done|]. intros [= ->].
  apply (elem_of_rows_where p t b). rewrite Hl. left.
Qed.

Lemma rows_where_nil p `{!forall b, Decision (p b)} t :
  rows_where mk p t = [] <-> forall i a, t !! i = Some a -> ~ p (mk i a).
Proof.
  split.
  - intros Hnil i a Ha Hp. assert (mk i a ∈ rows_where mk p t) as Hin by (apply elem_of_rows_where; eauto).
    rewrite Hnil in Hin. by apply elem_of_nil in Hin.
  - intros Hnone. destruct (rows_where mk p t) as [|b l] eqn:Hl; [done|].
    assert (b ∈ rows_where mk p t) as (Hp & i & a & Ha & ->)%elem_of_rows_where by (rewrite Hl; left).
    by destruct (Hnone i a Ha).
Qed.

Lemma head_rows_where_None p `{!forall b, Decision (p b)} t :
  head (rows_where mk p t) = None -> forall i a, t !! i = Some a -> ~ p (mk i a).
Proof.
  destruct (rows_where mk p t) as [|x l] eqn:Hl; simpl; [|done]. intros _. exact (proj1 (rows_where_nil p t) Hl).
Qed.
End Tables.

(** ** The interface *)

Lemma sorted_take {X} (R : relation X) n l : StronglySorted R l -> StronglySorted R (take n l).
Proof. intros Hs. rewrite <- (take_drop n l) in Hs. by eapply StronglySorted_app_1_l. Qed.

Lemma select_edges_spec d (s : Db) n ty limit e :
  e ∈ select_edges d s n ty limit -> from_of d e = n /\ type_matches ty e /\
    exists i x, edges s !! i = Some x /\ e = edge_row i x.
Proof.
  intros He. unfold select_edges in He. apply elem_of_take in He as (i & Hi & _).
  apply list_elem_of_lookup_2 in Hi. apply elem_of_rows_where in Hi. naive_solver.
Qed.

(** When the limit is large enough, every edge of the table is listed. *)
Lemma select_edges_complete d (s : Db) n ty limit i x :
  edges s !! i = Some x -> from_of d (edge_row i x) = n -> type_matches ty (edge_row i x) ->
  (length (rows_where edge_row (fun e => from_of d e = n /\ type_matches ty e) (edges s)) <= limit)%nat ->
  edge_row i x ∈ select_edges d s n ty limit.
Proof.
  intros Hx Hn Ht Hl. unfold select_edges. rewrite take_ge by done.
  apply elem_of_rows_where. eauto 10.
Qed.

Lemma edge_endpoints (s : Db) i x d :
  edges s !! i = Some x -> next_of d (edge_row i x) ∈ endpoints s.
Proof.
  intros Hx. simpl. rewrite elem_of_list_to_set, elem_of_app.
  assert (x ∈ (map_to_list (edges s)).*2) as Hin.
  { apply list_elem_of_fmap. exists (i, x). by rewrite elem_of_map_to_list. }
  destruct d; simpl; [right|left]; apply list_elem_of_fmap; eauto.
Qed.

Lemma select_edges_listing d (s : Db) n ty limit :
  listing_ok (endpoints s) d n ty limit (select_edges d s n ty limit).
Proof.
  split_and!.
  - unfold select_edges. rewrite length_take. lia.
  - unfold select_edges. rewrite fmap_take. by apply sorted_take, rows_where_sorted.
  - rewrite Forall_forall. intros e He. apply select_edges_spec in He as (Hf & Ht & i & x & Hx & ->).
    split_and!; [done| |done]. by apply edge_endpoints.
Qed.

#[export] Instance Db_laws : GraphStoreLaws Db.
Proof.
  split.
  - intros s n nd. simpl. intros [= Hn]. unfold select_node in Hn.
    destruct (nodes s !! n); simpl in Hn; [|done]. by injection Hn as <-.
  - intros s n ty limit es [= <-]. apply select_edges_listing.
  - intros s n ty limit es [= <-]. apply select_edges_listing.
Qed.

Lemma Db_readable (s : Db) : readable s.
Proof. split; [by eexists|]. intros [] n ty limit; by eexists. Qed.

(** ** Postings *)

Section Postings.
Context (uni_alnum : char -> bool).

(** What [nodes_fts] has to hold. *)
Definition fts_of (m : gmap Z NewNode) : gmultiset posting :=
  list_to_set_disj ((fun x => posting_of uni_alnum (row_of x.1 x.2)) <$> map_to_list m).

Lemma fts_of_insert m i n :
  m !! i = None -> fts_of (<[i := n]> m) = {[+ posting_of uni_alnum (row_of i n) +]} ⊎ fts_of m.
Proof.
  intros Hi. unfold fts_of. by rewrite (map_to_list_insert _ _ _ Hi), fmap_cons, list_to_set_disj_cons.
Qed.

Lemma fts_of_lookup m i n :
  m !! i = Some n -> fts_of m = {[+ posting_of uni_alnum (row_of i n) +]} ⊎ fts_of (delete i m).
Proof.
  intros Hi. rewrite <- fts_of_insert by apply lookup_delete_eq. by rewrite insert_delete_id.
Qed.

Lemma fts_of_delete m i n :
  m !! i = Some n -> fts_of (delete i m) = fts_of m ∖ {[+ posting_of uni_alnum (row_of i n) +]}.
Proof. intros Hi. rewrite (fts_of_lookup m i n Hi). multiset_solver. Qed.

Lemma fts_of_update m i n n' :
  m !! i = Some n ->
  fts_of (<[i := n']> m) =
    {[+ posting_of uni_alnum (row_of i n') +]} ⊎ (fts_of m ∖ {[+ posting_of uni_alnum (row_of i n) +]}).
Proof.
  intros Hi. rewrite <- insert_delete_eq, fts_of_insert by apply lookup_delete_eq.
  by rewrite (fts_of_delete m i n Hi).
Qed.
End Postings.

(** ** The invariant

    The constraints of the schema: ids come from the sequence, names, edge
    triples and vector keys are unique, references are live; and the postings
    of [nodes_fts] are those of the rows of [nodes]. *)

Record tables_ok (s : Db) : Prop := {
  ok_node_ids : forall i n, nodes s !! i = Some n -> 0 < i <= node_seq s;
  ok_edge_ids : forall i e, edges s !! i = Some e -> 0 < i <= edge_seq s;
  ok_vector_ids : forall i v, vectors s !! i = Some v -> 0 < i <= vector_seq s;
  ok_seqs : 0 <= node_seq s <= i64_max /\ 0 <= edge_seq s <= i64_max /\ 0 <= vector_seq s <= i64_max;
  ok_names : forall i j a b, nodes s !! i = Some a -> nodes s !! j = Some b ->
    n_project a = n_project b -> n_qualified_name a = n_qualified_name b -> i = j;
  ok_triples : forall i j a b, edges s !! i = Some a -> edges s !! j = Some b ->
    e_source_id a = e_source_id b -> e_target_id a = e_target_id b ->
    e_edge_type a = e_edge_type b -> i = j;
  ok_vector_keys : forall i j a b, vectors s !! i = Some a -> vectors s !! j = Some b ->
    vector_key a = vector_key b -> i = j;
  ok_nodes : forall i n, nodes s !! i = Some n -> live_node s n;
  ok_edges : forall i e, edges s !! i = Some e -> live_edge s e;
  ok_vectors : forall i v, vectors s !! i = Some v -> live_vector s v
}.

Section Invariant.
Context (uni_alnum : char -> bool).

Definition fts_ok (s : Db) : Prop := nodes_fts s = fts_of uni_alnum (nodes s).
Definition db_wf (s : Db) : Prop := tables_ok s /\ fts_ok s.

(** The same with postings left behind by rows that are gone: their rowids
    are not given out again. *)
Definition gone (s : Db) (p : posting) : Prop :=
  p.1.1.1.1 <= node_seq s /\ nodes s !! p.1.1.1.1 = None.
Definition db_wf_with (stale : gmultiset posting) (s : Db) : Prop :=
  tables_ok s /\ nodes_fts s = fts_of uni_alnum (nodes s) ⊎ stale /\ forall p, p ∈ stale -> gone s p.

Lemma db_wf_no_stale s : db_wf s <-> db_wf_with ∅ s.
Proof.
  unfold db_wf, fts_ok, db_wf_with. rewrite (right_id_L ∅ _). split; [|by intros (? & ? & _)].
  intros [Hs Hf]. split_and!; [done..|]. intros p Hp. by apply gmultiset_not_elem_of_empty in Hp.
Qed.

(** Ids of rows that are gone stay unused. *)
Lemma gone_mono s s' p :
  node_seq s <= node_seq s' ->
  (forall i, is_Some (nodes s' !! i) -> is_Some (nodes s !! i) \/ node_seq s < i) -> gone s p -> gone s' p.
Proof.
  intros Hseq Hn [H1 H2]. split; [lia|]. destruct (nodes s' !! _) eqn:Hx; [|done].
  destruct (Hn p.1.1.1.1) as [[? ?]|]; [by rewrite Hx; eauto|congruence|lia].
Qed.

(** Rows may go, as long as what refers to them goes too. *)
Lemma cascade_run s :
  exists s', cascade s = (Ok tt, s') /\
    projects s' = projects s /\ node_seq s' = node_seq s /\ edge_seq s' = edge_seq s /\
    vector_seq s' = vector_seq s /\ nodes_fts s' = nodes_fts s /\
    nodes s' = filter (fun x => live_node s x.2) (nodes s) /\
    edges s' = filter (fun x => live_edge s' x.2) (edges s) /\
    vectors s' = filter (fun x => live_vector s' x.2) (vectors s).
Proof. eexists. split; [done|]. done. Qed.

(** The tables after a deletion: a part of the rows, the references live. *)
Lemma tables_ok_part s s' :
  tables_ok s -> node_seq s' = node_seq s -> edge_seq s' = edge_seq s -> vector_seq s' = vector_seq s ->
  nodes s' ⊆ nodes s -> edges s' ⊆ edges s -> vectors s' ⊆ vectors s ->
  (forall i n, nodes s' !! i = Some n -> live_node s' n) ->
  (forall i e, edges s' !! i = Some e -> live_edge s' e) ->
  (forall i v, vectors s' !! i = Some v -> live_vector s' v) -> tables_ok s'.
Proof.
  intros Hs Hn He Hv Hns Hes Hvs Hl1 Hl2 Hl3. rewrite map_subseteq_spec in Hns.
  rewrite map_subseteq_spec in Hes. rewrite map_subseteq_spec in Hvs. split.
  - intros i n Hi. rewrite Hn. by eapply (ok_node_ids s Hs), Hns.
  - intros i e Hi. rewrite He. by eapply (ok_edge_ids s Hs), Hes.
  - intros i v Hi. rewrite Hv. by eapply (ok_vector_ids s Hs), Hvs.
  - rewrite Hn, He, Hv. apply Hs.
  - intros i j a b Ha Hb. by apply (ok_names s Hs); apply Hns.
  - intros i j a b Ha Hb. by apply (ok_triples s Hs); apply Hes.
  - intros i j a b Ha Hb. by apply (ok_vector_keys s Hs); apply Hvs.
  - done.
  - done.
  - done.
Qed.

(** Deleting the nodes that do not satisfy [keep], then the cascade. *)
Lemma delete_nodes_tables s s1 :
  tables_ok s -> projects s1 = projects s -> node_seq s1 = node_seq s -> edge_seq s1 = edge_seq s ->
  vector_seq s1 = vector_seq s ->
  nodes s1 ⊆ nodes s -> edges s1 = edges s -> vectors s1 ⊆ vectors s ->
  exists s', cascade s1 = (Ok tt, s') /\ tables_ok s' /\ nodes s' = nodes s1 /\
    nodes_fts s' = nodes_fts s1 /\ node_seq s' = node_seq s.
Proof.
  intros Hs Hp Hns Hes Hvs Hn He Hv.
  destruct (cascade_run s1) as (s' & Hc & Hp' & Hns' & Hes' & Hvs' & Hf' & Hn' & He' & Hv').
  assert (nodes s' = nodes s1) as Hnodes.
  { rewrite Hn'. apply map_filter_id. intros i x Hx. unfold live_node. rewrite Hp. simpl.
    eapply (ok_nodes s Hs). by eapply lookup_weaken. }
  exists s'. split_and!; [done| |done|done|congruence]. eapply tables_ok_part; [exact Hs|congruence..| | | | | |].
  - by rewrite Hnodes.
  - rewrite He', <- He. apply map_filter_subseteq.
  - rewrite Hv'. etrans; [apply map_filter_subseteq|done].
  - intros i n Hi. rewrite Hnodes in Hi. unfold live_node. rewrite Hp', Hp.
    eapply (ok_nodes s Hs). by eapply lookup_weaken.
  - intros i e Hi. rewrite He' in Hi. by apply map_lookup_filter_Some in Hi as [_ Hi].
  - intros i v Hi. rewrite Hv' in Hi. by apply map_lookup_filter_Some in Hi as [_ Hi].
Qed.

(** The postings are not part of [tables_ok]. *)
Lemma tables_ok_fts s s' :
  projects s' = projects s -> nodes s' = nodes s -> node_seq s' = node_seq s ->
  edges s' = edges s -> edge_seq s' = edge_seq s -> vectors s' = vectors s ->
  vector_seq s' = vector_seq s -> tables_ok s -> tables_ok s'.
Proof. destruct s, s'. simpl. intros -> -> -> -> -> -> -> [? ? ? ? ? ? ? ? ? ?]. by split. Qed.

(** ** Nodes *)

Lemma select_named s project qname o s' :
  get_node_by_qname project qname s = (Ok o, s') ->
  s' = s /\ match o with
  | Some n => exists a, nodes s !! Node.id n = Some a /\ n = row_of (Node.id n) a /\
      n_project a = project /\ n_qualified_name a = qname
  | None => forall i a, nodes s !! i = Some a -> ~ (n_project a = project /\ n_qualified_name a = qname)
  end.
Proof.
  unfold get_node_by_qname, gets. intros [= <- <-]. split; [done|].
  destruct (head _) as [n|] eqn:Hh.
  - apply head_rows_where in Hh as [[H1 H2] (i & a & Ha & ->)]. simpl in *. eauto.
  - intros i a Ha. exact (head_rows_where_None _ _ _ Hh i a Ha).
Qed.

(** A row is put under an id: a new one, or the id of the row of that name. *)
Lemma put_node_tables s i n seq :
  tables_ok s -> 0 < i <= seq -> node_seq s <= seq <= i64_max -> live_node s n ->
  (forall j b, nodes s !! j = Some b -> n_project n = n_project b ->
     n_qualified_name n = n_qualified_name b -> i = j) ->
  tables_ok (set_nodes <[i := n]> (set_node_seq seq s)).
Proof.
  intros Hs Hi Hseq Hl Hu. assert (forall j, is_Some (nodes s !! j) -> is_Some (<[i := n]> (nodes s) !! j)) as Hm.
  { intros j Hj. destruct (decide (i = j)) as [->|]; [by rewrite lookup_insert_eq; eauto|].
    by rewrite lookup_insert_ne. }
  split; simpl.
  - intros j a. destruct (decide (i = j)) as [->|]; [lia|]. rewrite lookup_insert_ne by done.
    intros Ha. apply (ok_node_ids s Hs) in Ha. lia.
  - apply Hs.
  - apply Hs.
  - destruct (ok_seqs s Hs). lia.
  - intros j k a b Ha Hb Hp Hq. apply lookup_insert_Some in Ha as [[<- <-]|[Hj Ha]];
      apply lookup_insert_Some in Hb as [[<- <-]|[Hk Hb]].
    + done.
    + by eapply Hu.
    + symmetry. by eapply Hu.
    + by eapply (ok_names s Hs).
  - apply Hs.
  - apply Hs.
  - intros j a Ha. apply lookup_insert_Some in Ha as [[<- <-]|[Hj Ha]]; [done|]. by eapply (ok_nodes s Hs).
  - intros j e He. destruct (ok_edges s Hs j e He) as (H1 & H2 & H3). split_and!; [done|by apply Hm..].
  - intros j v Hv. destruct (ok_vectors s Hs j v Hv) as [H1 H2]. split; [done|].
    destruct (v_node_id v); [by apply Hm | done].
Qed.

Section Stale.
Context (stale : gmultiset posting).

Lemma insert_node_in_tx_keeps n s r s' :
  db_wf_with stale s -> insert_node_in_tx uni_alnum n s = (r, s') -> is_ok r = true -> db_wf_with stale s'.
Proof.
  intros (Hs & Hf & Hst) Hrun Hok. unfold insert_node_in_tx in Hrun.
  destruct (get_node_by_qname (n_project n) (n_qualified_name n) s) as [[o|e|] s1] eqn:Hg; [|by inversion Hg..].
  destruct (select_named _ _ _ _ _ Hg) as [-> Ho]. erewrite bind_ok in Hrun by done.
  destruct o as [old|].
  - destruct Ho as (a & Ha & Hold & Hpa & Hqa).
    erewrite bind_ok in Hrun by done. erewrite bind_ok in Hrun by done. simpl in Hrun.
    case_bool_decide as Hp; [|by unfold guard, bind, throw in Hrun; simpl in Hrun; injection Hrun as <- <-].
    unfold guard, fts_delete, fts_insert, bind, ret, modify in Hrun. simpl in Hrun. injection Hrun as <- <-.
    split_and!.
    + apply (tables_ok_fts (set_nodes <[Node.id old := n]> (set_node_seq (node_seq s) s))); try done.
      apply put_node_tables.
      * done.
      * by eapply ok_node_ids.
      * destruct (ok_seqs s Hs). lia.
      * done.
      * intros j b Hb H1 H2. eapply (ok_names s Hs); [done..| |]; congruence.
    + simpl. rewrite (fts_of_update _ _ _ a) by done. rewrite <- Hold, Hf.
      rewrite (fts_of_lookup _ _ _ a Ha), <- Hold. multiset_solver.
    + intros p Hp'%Hst. revert Hp'. apply gone_mono; simpl; [lia|]. intros j Hj.
      left. destruct (decide (Node.id old = j)) as [<-|]; [by rewrite Ha; eauto|].
      by rewrite lookup_insert_ne in Hj.
  - erewrite bind_ok in Hrun by done. erewrite bind_ok in Hrun by done. simpl in Hrun.
    case_bool_decide as Hp; [|by unfold guard, bind, throw in Hrun; simpl in Hrun; injection Hrun as <- <-].
    unfold guard, fresh_node_id, guard, bind, ret, gets, modify in Hrun. simpl in Hrun.
    destruct (node_seq s <? i64_max) eqn:Hmax; simpl in Hrun; [|by injection Hrun as <- <-].
    injection Hrun as <- <-. apply Z.ltb_lt in Hmax. destruct (ok_seqs s Hs) as [Hseq _].
    assert (nodes s !! (node_seq s + 1) = None) as Hnew.
    { destruct (nodes s !! (node_seq s + 1)) eqn:Hx; [|done]. apply (ok_node_ids s Hs) in Hx. lia. }
    split_and!.
    + apply (tables_ok_fts (set_nodes <[node_seq s + 1 := n]> (set_node_seq (node_seq s + 1) s))); try done.
      apply put_node_tables; [done|lia|lia|done|].
      intros j b Hb H1 H2. destruct (Ho j b Hb). by split.
    + simpl. rewrite fts_of_insert, Hf by done. multiset_solver.
    + intros p Hp'%Hst. revert Hp'. apply gone_mono; simpl; [lia|]. intros j Hj.
      destruct (decide (node_seq s + 1 = j)) as [<-|]; [right; lia|left].
      by rewrite lookup_insert_ne in Hj.
Qed.

Lemma insert_nodes_in_tx_keeps ns s r s' :
  db_wf_with stale s -> mapM (insert_node_in_tx uni_alnum) ns s = (r, s') -> is_ok r = true -> db_wf_with stale s'.
Proof.
  revert s r s'. induction ns as [|n ns IH]; intros s r s' Hs; simpl.
  { by intros [= <- <-]. }
  unfold bind. destruct (insert_node_in_tx uni_alnum n s) as [[i|e|] s1] eqn:Hn;
    [|by intros [= <- <-]..].
  destruct (mapM _ ns s1) as [[ids|e|] s2] eqn:Hm; [|by intros [= <- <-]..]. intros [= <- <-] _.
  eapply IH; [|exact Hm | done]. by eapply insert_node_in_tx_keeps.
Qed.

(** A transaction whose successful runs keep the invariant keeps it. *)
Lemma atomically_keeps {A} (m : dbm A) s r s' :
  (forall a s', m s = (Ok a, s') -> db_wf_with stale s') -> db_wf_with stale s -> atomically m s = (r, s') -> db_wf_with stale s'.
Proof.
  intros Hm Hs Ha. destruct r as [a|e|].
  - apply atomically_ok_inv in Ha. by eapply Hm.
  - apply atomically_rollback in Ha; [by subst | done].
  - apply atomically_rollback in Ha; [by subst | done].
Qed.

Lemma insert_node_keeps n s r s' : db_wf_with stale s -> insert_node uni_alnum n s = (r, s') -> db_wf_with stale s'.
Proof.
  intros Hs. apply atomically_keeps; [|done]. intros i s1 Hi. by eapply insert_node_in_tx_keeps.
Qed.

Lemma insert_nodes_keeps ns s r s' : db_wf_with stale s -> insert_nodes uni_alnum ns s = (r, s') -> db_wf_with stale s'.
Proof.
  intros Hs. unfold insert_nodes. destruct ns as [|n ns]; [by intros [= <- <-]|].
  apply atomically_keeps; [|done]. intros ids s1 Hi. by eapply insert_nodes_in_tx_keeps.
Qed.

(** Rows go with their postings. *)
Lemma deleted_keeps s s' :
  db_wf_with stale s -> tables_ok s' -> node_seq s' = node_seq s -> nodes s' ⊆ nodes s ->
  nodes_fts s' = fts_of uni_alnum (nodes s') ⊎ stale -> db_wf_with stale s'.
Proof.
  intros (_ & _ & Hst) Ht Hsq Hn Hf. split_and!; [done..|]. intros p Hp%Hst. revert Hp.
  apply gone_mono; [lia|]. intros j [x Hx]. left. exists x. by eapply lookup_weaken.
Qed.

Lemma delete_node_keeps id s r s' : db_wf_with stale s -> delete_node uni_alnum id s = (r, s') -> db_wf_with stale s'.
Proof.
  intros (Hs & Hf & Hst). apply atomically_keeps; [|done]. intros u s2 Hrun.
  destruct (nodes s !! id) as [n|] eqn:Hn.
  - set (s1 := set_nodes (delete id) (set_vectors (filter (fun x => v_node_id x.2 <> Some id))
      (set_fts (fun f => f ∖ {[+ posting_of uni_alnum (row_of id n) +]}) s))).
    destruct (delete_nodes_tables s s1) as (s3 & Hc & Ht & Hns & Hft & Hsq);
      [done..|apply delete_subseteq|done|apply map_filter_subseteq|].
    erewrite bind_ok in Hrun by done. unfold select_node in Hrun. rewrite Hn in Hrun.
    repeat erewrite bind_ok in Hrun by done. change (cascade s1 = (Ok u, s2)) in Hrun.
    rewrite Hc in Hrun. injection Hrun as _ <-. apply (deleted_keeps s s3); [done..| |].
    + rewrite Hns. apply delete_subseteq.
    + rewrite Hns, Hft. simpl. rewrite (fts_of_delete _ _ _ n), Hf by done.
      rewrite (fts_of_lookup _ _ _ n Hn). multiset_solver.
  - set (s1 := set_nodes (delete id) (set_vectors (filter (fun x => v_node_id x.2 <> Some id)) s)).
    destruct (delete_nodes_tables s s1) as (s3 & Hc & Ht & Hns & Hft & Hsq);
      [done..|apply delete_subseteq|done|apply map_filter_subseteq|].
    erewrite bind_ok in Hrun by done. unfold select_node in Hrun. rewrite Hn in Hrun.
    repeat erewrite bind_ok in Hrun by done. change (cascade s1 = (Ok u, s2)) in Hrun.
    rewrite Hc in Hrun. injection Hrun as _ <-. apply (deleted_keeps s s3); [done..| |].
    + rewrite Hns. apply delete_subseteq.
    + rewrite Hns, Hft. simpl. by rewrite delete_id.
Qed.

(** Taking out the postings of several rows. *)
Lemma forM_fts_delete_run rows s :
  forM rows (fun n => fts_delete (posting_of uni_alnum n)) s =
    (Ok tt, set_fts (fun f => f ∖ list_to_set_disj (posting_of uni_alnum <$> rows)) s).
Proof.
  unfold forM. revert s. induction rows as [|n rows IH]; intros s; simpl.
  - unfold ret. f_equal. destruct s. unfold set_fts. simpl. f_equal. multiset_solver.
  - unfold fts_delete at 1, modify at 1, bind. rewrite IH. f_equal. destruct s. unfold set_fts. simpl.
    f_equal. multiset_solver.
Qed.

Lemma fts_of_filter m (p : Z * NewNode -> Prop) `{!forall x, Decision (p x)} :
  fts_of uni_alnum (filter (fun x => ~ p x) m) =
    fts_of uni_alnum m ∖ fts_of uni_alnum (filter p m).
Proof.
  assert (fts_of uni_alnum m =
    fts_of uni_alnum (filter (fun x => ~ p x) m) ⊎ fts_of uni_alnum (filter p m)) as ->;
    [|multiset_solver].
  induction m as [|i n m Hi IH] using map_ind.
  { rewrite !map_filter_empty. unfold fts_of. rewrite map_to_list_empty. multiset_solver. }
  rewrite fts_of_insert, IH by done. destruct (decide (p (i, n))) as [Hp|Hp].
  - rewrite (map_filter_insert_True (fun x => p x)) by done.
    rewrite (map_filter_insert_False (fun x => ~ p x)) by naive_solver.
    rewrite (delete_id m i Hi), fts_of_insert by (apply map_lookup_filter_None; by left). multiset_solver.
  - rewrite (map_filter_insert_False (fun x => p x)) by done.
    rewrite (map_filter_insert_True (fun x => ~ p x)) by done.
    rewrite (delete_id m i Hi), fts_of_insert by (apply map_lookup_filter_None; by left). multiset_solver.
Qed.

Lemma fts_of_mono m m' : m ⊆ m' -> fts_of uni_alnum m ⊆ fts_of uni_alnum m'.
Proof.
  revert m'. induction m as [|i n m Hi IH] using map_ind; intros m' Hm.
  - unfold fts_of at 1. rewrite map_to_list_empty. apply gmultiset_empty_subseteq.
  - assert (m' !! i = Some n) as Hn by (eapply lookup_weaken; [apply lookup_insert_eq|done]).
    rewrite fts_of_insert by done. rewrite (fts_of_lookup _ _ _ n Hn).
    assert (m ⊆ delete i m') as Hm'%IH; [|multiset_solver].
    rewrite map_subseteq_spec in Hm |- *. intros j x Hx. rewrite lookup_delete_Some. split; [congruence|].
    apply Hm. rewrite lookup_insert_ne by congruence. done.
Qed.

(** The postings of the rows that a query finds. *)
Lemma postings_of_rows m (p : Node.t -> Prop) `{!forall n, Decision (p n)} :
  list_to_set_disj (posting_of uni_alnum <$> rows_where row_of p m)
  = fts_of uni_alnum (filter (fun x => p (row_of x.1 x.2)) m).
Proof.
  unfold fts_of. apply list_to_set_disj_perm. unfold rows_where, table.
  rewrite (sort_by_Permutation _ (map_to_list m)), map_to_list_filter_perm.
  induction (map_to_list m) as [|[i n] l IH]; [done|]. rewrite fmap_cons, !filter_cons. simpl.
  destruct (decide (p (row_of i n))) as [|]; [|done]. by rewrite !fmap_cons, IH.
Qed.

Lemma fewer_vectors_keeps (p : Z * NewVectorEmbedding -> Prop) `{!forall x, Decision (p x)} s :
  db_wf_with stale s -> db_wf_with stale (set_vectors (filter p) s).
Proof.
  intros (Hs & Hf & Hst). split_and!; [|done..].
  apply (tables_ok_part s); try done; try apply Hs; [apply map_filter_subseteq|].
  intros i v Hv. simpl in Hv. apply map_lookup_filter_Some in Hv as [Hv _]. exact (ok_vectors s Hs i v Hv).
Qed.

Lemma delete_vectors_file_keeps project file s r s' :
  db_wf_with stale s -> delete_vector_embeddings_for_file project file s = (r, s') -> db_wf_with stale s'.
Proof.
  intros Hs. apply atomically_keeps; [|done]. intros n s2 [= _ <-]. by apply fewer_vectors_keeps.
Qed.

Lemma delete_nodes_for_file_keeps project file s r s' :
  db_wf_with stale s -> delete_nodes_for_file uni_alnum project file s = (r, s') -> db_wf_with stale s'.
Proof.
  intros (Hs & Hf & Hst). unfold delete_nodes_for_file. erewrite bind_ok by done. simpl.
  destruct (rows_where row_of (in_file project file) (nodes s)) as [|x rows] eqn:Hrows.
  - unfold bind. destruct (delete_vector_embeddings_for_file project file s) as [r1 s1] eqn:Hd.
    apply delete_vectors_file_keeps in Hd; [|done]. destruct r1; by intros [= <- <-].
  - apply atomically_keeps; [|done]. intros n s2 Hrun. rewrite <- Hrows in Hrun.
    erewrite bind_ok in Hrun by apply forM_fts_delete_run. rewrite postings_of_rows in Hrun.
    match type of Hrun with bind _ _ ?s0 = _ => set (s1 := set_nodes
      (filter (fun x => ~ in_file project file (row_of x.1 x.2)))
      (set_vectors (filter (fun x => ~ (v_project x.2 = project /\ v_file_path x.2 = file))) s0)) end.
    destruct (delete_nodes_tables s s1) as (s3 & Hc & Ht & Hns & Hft & Hsq);
      [done..|apply map_filter_subseteq|done|apply map_filter_subseteq|].
    erewrite bind_ok in Hrun by done. erewrite bind_ok in Hrun by done.
    erewrite bind_ok in Hrun by exact Hc. injection Hrun as _ <-.
    apply (deleted_keeps s s3); [done..| |].
    + rewrite Hns. apply map_filter_subseteq.
    + rewrite Hns, Hft. simpl. rewrite Hf, fts_of_filter.
      assert (fts_of uni_alnum (filter (fun x => in_file project file (row_of x.1 x.2)) (nodes s))
        ⊆ fts_of uni_alnum (nodes s)) as Hsub; [|multiset_solver].
      apply fts_of_mono, map_filter_subseteq.
Qed.

Lemma update_node_identity_keeps id label qname s r s' :
  db_wf_with stale s -> update_node_identity uni_alnum id label qname s = (r, s') -> db_wf_with stale s'.
Proof.
  intros (Hs & Hf & Hst). apply atomically_keeps; [|done]. intros u s2 Hrun.
  erewrite bind_ok in Hrun by done.
  apply bind_ok_inv in Hrun as (n & s1 & Hrow & Hrun). apply ok_or_ok_inv in Hrow as [Hn ->].
  erewrite bind_ok in Hrun by done. erewrite bind_ok in Hrun by done. erewrite bind_ok in Hrun by done.
  apply bind_ok_inv in Hrun as ([] & s1 & [Hclash ->]%guard_ok_inv & Hrun).
  injection Hrun as _ <-. apply bool_decide_eq_true in Hclash. simpl in Hclash.
  set (n' := set_identity label qname n). split_and!.
  - assert (tables_ok (set_nodes <[id := n']> (set_node_seq (node_seq s) s))) as Hput.
    { apply put_node_tables; [done|by eapply ok_node_ids|destruct (ok_seqs s Hs); lia
        |by apply (ok_nodes s Hs id n)|].
      intros j b Hb Hp Hq. destruct (decide (id = j)) as [|Hne]; [done|]. exfalso.
      assert (row_of j b ∈ rows_where row_of (fun m => is_named (n_project n) qname m /\ Node.id m <> id)
        (nodes s)) as Hin; [|rewrite Hclash in Hin; by apply elem_of_nil in Hin].
      apply elem_of_rows_where. split; [|eauto].
      split; [split; simpl; [by rewrite <- Hp | by rewrite <- Hq] | simpl; congruence]. }
    apply (tables_ok_part _ _ Hput); try done; try apply Hput; [apply map_filter_subseteq|].
    intros i v Hv. simpl in Hv. apply map_lookup_filter_Some in Hv as [Hv _].
    exact (ok_vectors _ Hput i v Hv).
  - simpl. rewrite Hf, (fts_of_update _ _ _ n) by done. rewrite (fts_of_lookup _ _ _ n Hn). multiset_solver.
  - intros p Hp%Hst. revert Hp. apply gone_mono; simpl; [lia|]. intros j Hj. left.
    destruct (decide (id = j)) as [<-|]; [by rewrite Hn; eauto|]. by rewrite lookup_insert_ne in Hj.
Qed.

Lemma fts_of_span m i n a b :
  m !! i = Some n -> fts_of uni_alnum (<[i := set_span a b n]> m) = fts_of uni_alnum m.
Proof.
  intros Hi. rewrite (fts_of_update _ _ _ n) by done. rewrite (fts_of_lookup _ m i n Hi).
  change (posting_of uni_alnum (row_of i (set_span a b n))) with (posting_of uni_alnum (row_of i n)).
  multiset_solver.
Qed.

Lemma set_span_keeps s i n a b :
  db_wf_with stale s -> nodes s !! i = Some n -> db_wf_with stale (set_nodes <[i := set_span a b n]> s).
Proof.
  intros (Hs & Hf & Hst) Hn. split_and!; [|simpl; by rewrite fts_of_span|].
  2: { intros p Hp%Hst. revert Hp. apply gone_mono; simpl; [lia|]. intros j Hj. left.
       destruct (decide (i = j)) as [<-|]; [by rewrite Hn; eauto|]. by rewrite lookup_insert_ne in Hj. }
  apply (tables_ok_fts (set_nodes <[i := set_span a b n]> (set_node_seq (node_seq s) s))); try done.
  apply put_node_tables; [done|by eapply ok_node_ids|destruct (ok_seqs s Hs); lia
    |by apply (ok_nodes s Hs i n)|].
  intros j c Hc Hp Hq. by eapply (ok_names s Hs).
Qed.

Lemma update_node_spans_keeps spans s r s' :
  db_wf_with stale s -> update_node_spans spans s = (r, s') -> db_wf_with stale s'.
Proof.
  unfold update_node_spans, forM. revert s r s'.
  induction spans as [|[[i a] b] spans IH]; intros s r s' Hs; simpl; [by intros [= <- <-]|].
  unfold bind at 1, bind at 1, guard. destruct (negb _); simpl; [|by intros [= <- <-]].
  unfold bind at 1. simpl. destruct (nodes s !! i) as [n|] eqn:Hn; simpl; [|by intros [= <- <-]].
  destruct (0 <=? i); simpl; [|by apply IH]. apply IH. by apply set_span_keeps.
Qed.

Lemma upsert_project_keeps p s r s' : db_wf_with stale s -> upsert_project p s = (r, s') -> db_wf_with stale s'.
Proof.
  intros (Hs & Hf & Hst). apply atomically_keeps; [|done]. intros u s2 [= _ <-]. split_and!; [|done..].
  assert (forall q, is_Some (projects s !! q) -> is_Some (<[p_name p := p]> (projects s) !! q)) as Hm.
  { intros q Hq. destruct (decide (p_name p = q)) as [->|]; [by rewrite lookup_insert_eq; eauto|].
    by rewrite lookup_insert_ne. }
  destruct Hs. split; try done.
  - intros i n Hn. apply Hm. by eapply ok_nodes0.
  - intros i e He. destruct (ok_edges0 i e He) as (H1 & H2 & H3). split_and!; [by apply Hm | done..].
  - intros i v Hv. destruct (ok_vectors0 i v Hv) as [H1 H2]. split; [by apply Hm | done].
Qed.

(** ** Edges *)

Lemma put_edge_tables s i e seq :
  tables_ok s -> 0 < i <= seq -> edge_seq s <= seq <= i64_max -> live_edge s e ->
  (forall j b, edges s !! j = Some b -> e_source_id e = e_source_id b ->
     e_target_id e = e_target_id b -> e_edge_type e = e_edge_type b -> i = j) ->
  tables_ok (set_edges <[i := e]> (set_edge_seq seq s)).
Proof.
  intros Hs Hi Hseq Hl Hu. split; simpl; try apply Hs.
  - intros j a. destruct (decide (i = j)) as [->|]; [lia|]. rewrite lookup_insert_ne by done.
    intros Ha. apply (ok_edge_ids s Hs) in Ha. lia.
  - destruct (ok_seqs s Hs). lia.
  - intros j k a b Ha Hb H1 H2 H3. apply lookup_insert_Some in Ha as [[<- <-]|[Hj Ha]];
      apply lookup_insert_Some in Hb as [[<- <-]|[Hk Hb]].
    + done.
    + by eapply Hu.
    + symmetry. by eapply Hu.
    + by eapply (ok_triples s Hs).
  - intros j a Ha. apply lookup_insert_Some in Ha as [[<- <-]|[Hj Ha]]; [done|]. by eapply (ok_edges s Hs).
Qed.

(** The two ways an edge is inserted. *)
Lemma insert_edge_run e s i s' :
  insert_edge e s = (Ok i, s') ->
  (exists x, edges s !! i = Some x /\ e_source_id x = e_source_id e /\ e_target_id x = e_target_id e /\
     e_edge_type x = e_edge_type e /\
     s' = set_edges (alter (set_edge_properties (e_properties e)) i) s) \/
  ((forall j x, edges s !! j = Some x -> ~ same_edge e (edge_row j x)) /\
     live_edge s e /\ i = edge_seq s + 1 /\ edge_seq s < i64_max /\
     s' = set_edges <[i := e]> (set_edge_seq i s)).
Proof.
  intros Hrun%atomically_ok_inv. erewrite bind_ok in Hrun by done.
  destruct (head _) as [x|] eqn:Hh.
  - apply head_rows_where in Hh as [(H1 & H2 & H3) (j & y & Hy & ->)].
    erewrite bind_ok in Hrun by done. injection Hrun as <- <-. left. exists y. done.
  - pose proof (head_rows_where_None _ _ _ Hh) as Hnone. erewrite bind_ok in Hrun by done.
    apply bind_ok_inv in Hrun as ([] & s1 & [Hp ->]%guard_ok_inv & Hrun).
    apply bind_ok_inv in Hrun as ([] & s1 & [Hsrc ->]%guard_ok_inv & Hrun).
    apply bind_ok_inv in Hrun as ([] & s1 & [Htgt ->]%guard_ok_inv & Hrun).
    apply bool_decide_eq_true in Hp, Hsrc, Htgt.
    apply bind_ok_inv in Hrun as (j & s1 & Hfresh & Hrun). injection Hrun as <- <-.
    unfold fresh_edge_id in Hfresh. erewrite bind_ok in Hfresh by done.
    apply bind_ok_inv in Hfresh as ([] & s2 & [Hmax ->]%guard_ok_inv & Hfresh).
    injection Hfresh as <- <-. apply Z.ltb_lt in Hmax. right. done.
Qed.

Lemma insert_edge_keeps e s r s' : db_wf_with stale s -> insert_edge e s = (r, s') -> db_wf_with stale s'.
Proof.
  intros (Hs & Hf & Hst) Hrun. destruct r as [i|err|].
  2,3: apply atomically_rollback in Hrun; [by subst | done].
  apply insert_edge_run in Hrun as [(x & Hx & H1 & H2 & H3 & ->)|(Hnone & Hl & -> & Hmax & ->)].
  - split_and!; [|done..].
    apply (tables_ok_fts (set_edges <[i := set_edge_properties (e_properties e) x]>
      (set_edge_seq (edge_seq s) s))); try done.
    { simpl. by rewrite (alter_insert_eq_Some _ _ _ x) || by apply map_eq; intros j;
        destruct (decide (i = j)) as [->|];
        rewrite ?lookup_alter_eq, ?lookup_insert_eq, ?lookup_alter_ne, ?lookup_insert_ne, ?Hx by done. }
    apply put_edge_tables; [done|by eapply ok_edge_ids|destruct (ok_seqs s Hs); lia
      |exact (ok_edges s Hs i x Hx)|].
    intros j b Hb. by apply (ok_triples s Hs i j x b).
  - split_and!; [|done..]. destruct (ok_seqs s Hs) as (_ & Hseq & _).
    apply put_edge_tables; [done|lia|lia|done|].
    intros j b Hb G1 G2 G3. destruct (Hnone j b Hb). by split_and!.
Qed.

(** ** Vectors *)

Lemma put_vector_tables s i v seq :
  tables_ok s -> 0 < i <= seq -> vector_seq s <= seq <= i64_max -> live_vector s v ->
  (forall j b, vectors s !! j = Some b -> vector_key v = vector_key b -> i = j) ->
  tables_ok (set_vectors <[i := v]> (set_vector_seq seq s)).
Proof.
  intros Hs Hi Hseq Hl Hu. split; simpl; try apply Hs.
  - intros j a. destruct (decide (i = j)) as [->|]; [lia|]. rewrite lookup_insert_ne by done.
    intros Ha. apply (ok_vector_ids s Hs) in Ha. lia.
  - destruct (ok_seqs s Hs) as (? & ? & ?). lia.
  - intros j k a b Ha Hb Hk. apply lookup_insert_Some in Ha as [[<- <-]|[Hj Ha]];
      apply lookup_insert_Some in Hb as [[<- <-]|[Hk' Hb]].
    + done.
    + by eapply Hu.
    + symmetry. by eapply Hu.
    + by eapply (ok_vector_keys s Hs).
  - intros j a Ha. apply lookup_insert_Some in Ha as [[<- <-]|[Hj Ha]]; [done|]. by eapply (ok_vectors s Hs).
Qed.

(** The two ways a vector is written. *)
Lemma upsert_vector_run e s i s' :
  upsert_vector_in_tx e s = (Ok i, s') ->
  match v_node_id e with Some n => is_Some (nodes s !! n) | None => True end /\
  ((exists x, vectors s !! i = Some x /\ vector_key x = vector_key e /\
      s' = set_vectors <[i := stored_vector e]> s) \/
   ((forall j x, vectors s !! j = Some x -> vector_key x <> vector_key e) /\
      is_Some (projects s !! v_project e) /\ i = vector_seq s + 1 /\ vector_seq s < i64_max /\
      s' = set_vectors <[i := stored_vector e]> (set_vector_seq i s))).
Proof.
  intros Hrun. unfold upsert_vector_in_tx in Hrun. erewrite bind_ok in Hrun by done.
  erewrite bind_ok in Hrun by done.
  apply bind_ok_inv in Hrun as ([] & s1 & [Hn ->]%guard_ok_inv & Hrun).
  split. { destruct (v_node_id e); [by apply bool_decide_eq_true in Hn|done]. }
  destruct (head _) as [x|] eqn:Hh.
  - apply head_rows_where in Hh as [Hk (j & y & Hy & ->)]. erewrite bind_ok in Hrun by done.
    injection Hrun as <- <-. left. exists y. done.
  - pose proof (head_rows_where_None _ _ _ Hh) as Hnone. right.
    apply bind_ok_inv in Hrun as (j & s1 & Hfresh & Hrun). injection Hrun as <- <-.
    apply bind_ok_inv in Hfresh as ([] & s2 & [Hp ->]%guard_ok_inv & Hfresh).
    apply bool_decide_eq_true in Hp. unfold fresh_vector_id in Hfresh. erewrite bind_ok in Hfresh by done.
    apply bind_ok_inv in Hfresh as ([] & s2 & [Hmax ->]%guard_ok_inv & Hfresh).
    injection Hfresh as <- <-. apply Z.ltb_lt in Hmax. split_and!; [|done..]. exact Hnone.
Qed.

Lemma upsert_vector_keeps e s i s' :
  db_wf_with stale s -> upsert_vector_in_tx e s = (Ok i, s') -> db_wf_with stale s'.
Proof.
  intros (Hs & Hf & Hst) Hrun. apply upsert_vector_run in Hrun as [Hn [(x & Hx & Hk & ->)|(Hnone & Hp & -> & Hmax & ->)]];
    (split_and!; [|done..]); destruct (ok_seqs s Hs) as (_ & _ & Hseq).
  - apply (tables_ok_fts (set_vectors <[i := stored_vector e]> (set_vector_seq (vector_seq s) s))); try done.
    apply put_vector_tables; [done|by eapply ok_vector_ids|lia| |].
    + split; [|done]. destruct (ok_vectors s Hs i x Hx) as [Hp _]. simpl. by injection Hk as <- _.
    + intros j b Hb Hkey. eapply (ok_vector_keys s Hs); [done..|]. by rewrite Hk.
  - apply put_vector_tables; [done|lia|lia|by split|].
    intros j b Hb Hkey. by destruct (Hnone j b Hb).
Qed.

Lemma upsert_vectors_in_tx_keeps es s ids s' :
  db_wf_with stale s -> mapM upsert_vector_in_tx es s = (Ok ids, s') -> db_wf_with stale s'.
Proof.
  revert s ids s'. induction es as [|e es IH]; intros s ids s' Hs; simpl; [by intros [= <- <-]|].
  intros (i & s1 & Hi & Hrun)%bind_ok_inv. apply bind_ok_inv in Hrun as (js & s2 & Hjs & Hrun).
  injection Hrun as <- <-. eapply IH; [|done]. by eapply upsert_vector_keeps.
Qed.

(** Validation writes nothing. *)
Lemma guard_then_pure {A} b err (k : dbm A) s :
  (forall r s', k s = (r, s') -> s' = s) -> forall r s', bind (guard b err) (fun _ => k) s = (r, s') -> s' = s.
Proof. intros Hk r s'. unfold bind, guard. destruct b; simpl; [apply Hk|by intros [= <- <-]]. Qed.

Lemma validate_pure e s r s' : validate_embedding_input e s = (r, s') -> s' = s.
Proof.
  unfold validate_embedding_input, validate_query_vector, not_blank. revert r s'.
  repeat apply guard_then_pure. intros r s'. unfold guard. by case_match; intros [= <- <-].
Qed.

Lemma validate_all_pure es s r s' : forM es validate_embedding_input s = (r, s') -> s' = s.
Proof.
  unfold forM. revert r s'. induction es as [|e es IH]; intros r s'; simpl; [by intros [= <- <-]|].
  unfold bind at 1. destruct (validate_embedding_input e s) as [r1 s1] eqn:Hv.
  apply validate_pure in Hv as ->. destruct r1 as [[]| |]; [by apply IH|by intros [= <- <-]..].
Qed.

Lemma upsert_vectors_keeps es s r s' :
  db_wf_with stale s -> upsert_vector_embeddings es s = (r, s') -> db_wf_with stale s'.
Proof.
  intros Hs. unfold upsert_vector_embeddings. unfold bind at 1.
  destruct (forM es validate_embedding_input s) as [r1 s1] eqn:Hv. apply validate_all_pure in Hv as ->.
  destruct r1; [|by intros [= <- <-]..]. destruct es as [|e es]; [by intros [= <- <-]|].
  apply atomically_keeps; [|done]. intros ids s2 Hi. by eapply upsert_vectors_in_tx_keeps.
Qed.

Lemma prune_vectors_keeps project g s r s' :
  db_wf_with stale s -> prune_vector_embeddings_before_generation project g s = (r, s') -> db_wf_with stale s'.
Proof.
  intros Hs. apply atomically_keeps; [|done]. intros n s2 [= _ <-]. by apply fewer_vectors_keeps.
Qed.
End Stale.

(** ** Projects *)

Lemma delete_project_tables name s :
  tables_ok s -> exists s', delete_project name s = (Ok tt, s') /\ tables_ok s' /\
    nodes_fts s' = nodes_fts s /\ nodes s' = filter (fun x => n_project x.2 <> name) (nodes s) /\
    node_seq s' = node_seq s.
Proof.
  intros Hs. set (s1 := set_projects (delete name) s).
  destruct (cascade_run s1) as (s' & Hc & Hp' & Hns' & Hes' & Hvs' & Hf' & Hn' & He' & Hv').
  exists s'. assert (delete_project name s = (Ok tt, s')) as Hrun.
  { apply atomically_ok. by erewrite bind_ok by done. }
  split_and!; [done| |done| |done].
  - eapply (tables_ok_part s); [done|done|done|done| | | | | |].
    + rewrite Hn'. apply map_filter_subseteq.
    + rewrite He'. apply map_filter_subseteq.
    + rewrite Hv'. apply map_filter_subseteq.
    + intros i n Hi. rewrite Hn' in Hi. apply map_lookup_filter_Some in Hi as [_ Hi].
      unfold live_node in *. by rewrite Hp'.
    + intros i e Hi. rewrite He' in Hi. by apply map_lookup_filter_Some in Hi as [_ Hi].
    + intros i v Hi. rewrite Hv' in Hi. by apply map_lookup_filter_Some in Hi as [_ Hi].
  - rewrite Hn'. apply map_filter_ext. intros i n Hn. simpl. unfold live_node. simpl.
    destruct (decide (n_project n = name)) as [->|Hne].
    + rewrite lookup_delete_eq. split; [by intros [? ?] | done].
    + rewrite lookup_delete_ne by done. split; [done|]. intros _. by apply (ok_nodes s Hs i n).
Qed.

(** The postings of the nodes of the project join the stale ones. *)
Lemma delete_project_leaves stale name s :
  db_wf_with stale s -> exists s', delete_project name s = (Ok tt, s') /\
    db_wf_with (fts_of uni_alnum (filter (fun x => n_project x.2 = name) (nodes s)) ⊎ stale) s'.
Proof.
  intros (Hs & Hf & Hst). destruct (delete_project_tables name s Hs) as (s' & Hrun & Hs' & Hfts & Hn & Hsq).
  assert (fts_of uni_alnum (nodes s') = fts_of uni_alnum (nodes s)
    ∖ fts_of uni_alnum (filter (fun x => n_project x.2 = name) (nodes s))) as Heq.
  { rewrite <- fts_of_filter, Hn. done. }
  assert (fts_of uni_alnum (filter (fun x => n_project x.2 = name) (nodes s)) ⊆ fts_of uni_alnum (nodes s))
    as Hsub by (apply fts_of_mono, map_filter_subseteq).
  exists s'. split; [done|]. split_and!; [done| |].
  - rewrite Hfts, Hf, Heq. multiset_solver.
  - intros p [Hp|Hp]%gmultiset_elem_of_disj_union.
    + apply elem_of_list_to_set_disj, list_elem_of_fmap in Hp as ([i n] & -> & Hi%elem_of_map_to_list).
      apply map_lookup_filter_Some in Hi as [Hi Hname]. simpl in Hname.
      change (i <= node_seq s' /\ nodes s' !! i = None). rewrite Hsq. split; [by eapply ok_node_ids|].
      rewrite Hn. apply map_lookup_filter_None. right. intros m Hm. simpl. congruence.
    + apply Hst in Hp. revert Hp. apply gone_mono; [lia|]. intros j [x Hx]. left.
      rewrite Hn in Hx. apply map_lookup_filter_Some in Hx as [Hx _]. eauto.
Qed.

(** ** Without stale postings *)

Lemma insert_node_in_tx_wf n s r s' :
  db_wf s -> insert_node_in_tx uni_alnum n s = (r, s') -> is_ok r = true -> db_wf s'.
Proof. rewrite !db_wf_no_stale. apply insert_node_in_tx_keeps. Qed.
Lemma insert_node_wf n s r s' : db_wf s -> insert_node uni_alnum n s = (r, s') -> db_wf s'.
Proof. rewrite !db_wf_no_stale. apply insert_node_keeps. Qed.
Lemma insert_nodes_wf ns s r s' : db_wf s -> insert_nodes uni_alnum ns s = (r, s') -> db_wf s'.
Proof. rewrite !db_wf_no_stale. apply insert_nodes_keeps. Qed.
Lemma delete_node_wf id s r s' : db_wf s -> delete_node uni_alnum id s = (r, s') -> db_wf s'.
Proof. rewrite !db_wf_no_stale. apply delete_node_keeps. Qed.
Lemma delete_vectors_file_wf project file s r s' :
  db_wf s -> delete_vector_embeddings_for_file project file s = (r, s') -> db_wf s'.
Proof. rewrite !db_wf_no_stale. apply delete_vectors_file_keeps. Qed.
Lemma delete_nodes_for_file_wf project file s r s' :
  db_wf s -> delete_nodes_for_file uni_alnum project file s = (r, s') -> db_wf s'.
Proof. rewrite !db_wf_no_stale. apply delete_nodes_for_file_keeps. Qed.
Lemma update_node_identity_wf id label qname s r s' :
  db_wf s -> update_node_identity uni_alnum id label qname s = (r, s') -> db_wf s'.
Proof. rewrite !db_wf_no_stale. apply update_node_identity_keeps. Qed.
Lemma set_span_wf s i n a b :
  db_wf s -> nodes s !! i = Some n -> db_wf (set_nodes <[i := set_span a b n]> s).
Proof. rewrite !db_wf_no_stale. apply set_span_keeps. Qed.
Lemma update_node_spans_wf spans s r s' : db_wf s -> update_node_spans spans s = (r, s') -> db_wf s'.
Proof. rewrite !db_wf_no_stale. apply update_node_spans_keeps. Qed.
Lemma upsert_project_wf p s r s' : db_wf s -> upsert_project p s = (r, s') -> db_wf s'.
Proof. rewrite !db_wf_no_stale. apply upsert_project_keeps. Qed.
Lemma insert_edge_wf e s r s' : db_wf s -> insert_edge e s = (r, s') -> db_wf s'.
Proof. rewrite !db_wf_no_stale. apply insert_edge_keeps. Qed.
End Invariant.
