(* ===== verification/GraphTrace.v ===== *)
(** Call traces (crates/search/src/trace.rs): the breadth-first [trace_path],
    the one-level [callees_of] and [callers_of], the flat [call_tree] and the
    recursive [call_hierarchy]. *)

From S2P Require Import Prelude Loop CoreError GraphStore GraphBfs.

(** The fan-out cap written at every call of an edge accessor. *)
Definition TRACE_FANOUT : nat := Z.to_nat 1024.
#[global] Arguments TRACE_FANOUT : simpl never.

Module TraceStep.
Record t : Type := Mk {
  depth : nat;
  node_id : Z;
  edge : option Edge.t;
  node : option Node.t
}.

Definition qualified_name (s : t) : option string := Node.qualified_name <$> node s.
Definition file_path (s : t) : option string := Node.file_path <$> node s.
Definition label (s : t) : option string := Node.label <$> node s.
Definition line_span (s : t) : option (Z * Z) :=
  (fun n => (Node.start_line n, Node.end_line n)) <$> node s.
Definition via_edge_type (s : t) : option string := Edge.edge_type <$> edge s.
Definition name (s : t) : option string := Node.name <$> node s.
Definition start_line (s : t) : option Z := Node.start_line <$> node s.
Definition end_line (s : t) : option Z := Node.end_line <$> node s.

(** [show] prints an integer in decimal. *)
Definition context_line (show : Z -> string) (s : t) : option string :=
  (fun n => Node.qualified_name n +:+ " " +:+ Node.file_path n +:+ ":" +:+ show (Node.start_line n)
            +:+ "-" +:+ show (Node.end_line n))%string <$> node s.
End TraceStep.

Record CallTreeNode : Type := { step : TraceStep.t; children : list Z }.
Record CallTree : Type := { root_id : Z; tree_nodes : list CallTreeNode }.

Definition tree_len (t : CallTree) : nat := length (tree_nodes t).
Definition tree_is_empty (t : CallTree) : bool := bool_decide (length (tree_nodes t) = 0%nat).
Definition tree_max_depth (t : CallTree) : nat :=
  foldr (fun n m => Nat.max (TraceStep.depth (step n)) m) 0%nat (tree_nodes t).

(** A node of the recursive hierarchy owns its children. *)
Inductive CallHierarchyNode : Type :=
| HNode (hstep : TraceStep.t) (cyclic truncated : bool) (hchildren : list CallHierarchyNode).

Definition hier_step (n : CallHierarchyNode) : TraceStep.t := let '(HNode s _ _ _) := n in s.
Definition hier_cyclic (n : CallHierarchyNode) : bool := let '(HNode _ c _ _) := n in c.
Definition hier_truncated (n : CallHierarchyNode) : bool := let '(HNode _ _ t _) := n in t.
Definition hier_children (n : CallHierarchyNode) : list CallHierarchyNode :=
  let '(HNode _ _ _ cs) := n in cs.
Definition hier_id (n : CallHierarchyNode) : Z := TraceStep.node_id (hier_step n).

(** [CallHierarchyNode::count] and [CallHierarchyNode::max_depth]. *)
Fixpoint hier_count (n : CallHierarchyNode) : nat :=
  let '(HNode _ _ _ cs) := n in S (foldr (fun c acc => (hier_count c + acc)%nat) 0%nat cs).
Fixpoint hier_max_depth (n : CallHierarchyNode) : nat :=
  let '(HNode s _ _ cs) := n in
  match cs with
  | [] => TraceStep.depth s
  | c :: cs => foldr (fun c acc => Nat.max (hier_max_depth c) acc) (hier_max_depth c) cs
  end.

Record CallHierarchy : Type := { direction : Direction; root : option CallHierarchyNode }.

Definition hierarchy_is_empty (h : CallHierarchy) : bool :=
  match root h with Some _ => false | None => true end.
Definition hierarchy_len (h : CallHierarchy) : nat :=
  match root h with Some n => hier_count n | None => 0 end.
Definition hierarchy_max_depth (h : CallHierarchy) : nat :=
  match root h with Some n => hier_max_depth n | None => 0 end.

(** depth, node id, the edge that led there. *)
Abbreviation trace_entry := (nat * Z * option Edge.t)%type.

Section Trace.
Context {S : Type} `{GraphStore S}.
Implicit Types s : S.

(** ** [trace_path] *)

Record trace_state : Type := {
  visited : gset Z;
  trace_out : list TraceStep.t;
  trace_queue : list trace_entry
}.

(** The error of [get_node] is rewritten into a store error, whose text (the id
    and the cause) is not modelled; the [?] of the accessors keeps the error. *)
Definition trace_node (s : S) (n : Z) : res CoreError.Error (option Node.t) :=
  match get_node s n with
  | Ok o => Ok o
  | Err e => Err (CoreError.Store "get_node")
  | Panic => Panic
  end.

(** The neighbours that are not visited yet enter the queue. *)
Definition enqueue (d : Direction) (vis : gset Z) (depth : nat) (q : list trace_entry)
    (es : list Edge.t) : list trace_entry :=
  foldl (fun q e => if decide (next_of d e ∈ vis) then q
                    else q ++ [(Datatypes.S depth, next_of d e, Some e)]) q es.

Definition trace_turn (s : S) (d : Direction) (ty : option string) (max_depth : nat)
    (st : trace_state) : res CoreError.Error (trace_state + list TraceStep.t) :=
  match trace_queue st with
  | [] => Ok (inr (trace_out st))
  | (depth, node_id, incoming_edge) :: queue =>
      if decide (node_id ∈ visited st) then
        Ok (inl {| visited := visited st; trace_out := trace_out st; trace_queue := queue |})
      else
        let vis := {[node_id]} ∪ visited st in
        let? meta := trace_node s node_id in
        if bool_decide (meta = None) && (depth =? 0)%nat then Ok (inr [])
        else
          let out := trace_out st ++ [TraceStep.Mk depth node_id incoming_edge meta] in
          if (max_depth <=? depth)%nat then
            Ok (inl {| visited := vis; trace_out := out; trace_queue := queue |})
          else
            let? neighbours := edges_at s d node_id ty TRACE_FANOUT in
            Ok (inl {| visited := vis; trace_out := out;
                       trace_queue := enqueue d vis depth queue neighbours |})
  end.

(** Every node is expanded once, into at most [TRACE_FANOUT] entries. *)
Definition trace_fuel (s : S) : nat := 3 + TRACE_FANOUT * (1 + size (endpoints s)).

Definition trace_path (s : S) (start_id : Z) (d : Direction) (ty : option string) (max_depth : nat)
  : option (res CoreError.Error (list TraceStep.t)) :=
  while_loop (trace_fuel s) (trace_turn s d ty max_depth)
    {| visited := ∅; trace_out := []; trace_queue := [(0%nat, start_id, None)] |}.

(** ** One level *)

Definition calls : option string := Some "CALLS"%string.

Definition one_level (s : S) (n : Z) (d : Direction) : res CoreError.Error (list TraceStep.t) :=
  let? o := node_at s n in
  match o with
  | None => Ok []
  | Some _ =>
      let? neighbours := edges_at s d n calls TRACE_FANOUT in
      let? r := try_fold (fun '(seen, out) e =>
        let next := next_of d e in
        if decide (next = n \/ next ∈ (seen : gset Z)) then Ok (seen, out)
        else
          let? nd := node_at s next in
          Ok ({[next]} ∪ seen, out ++ [TraceStep.Mk 1 next (Some e) nd])) (∅, []) neighbours in
      Ok r.2
  end.

Definition callees_of (s : S) (n : Z) := one_level s n Outgoing.
Definition callers_of (s : S) (n : Z) := one_level s n Incoming.

(** ** [call_tree] *)

Record tree_state : Type := {
  placed : gset Z;
  placed_nodes : list CallTreeNode;
  tree_queue : list (nat * nat)
}.

Definition place (s : S) (d : Direction) (node_id : Z) (depth : nat)
    (st : tree_state * list Z) (e : Edge.t) : res CoreError.Error (tree_state * list Z) :=
  let '(t, kids) := st in
  let next := next_of d e in
  if decide (next = node_id) then Ok (t, kids)
  else if decide (next ∈ placed t) then Ok (t, kids ++ [next])
  else
    let? nd := node_at s next in
    Ok ({| placed := {[next]} ∪ placed t;
           placed_nodes := placed_nodes t ++
             [{| step := TraceStep.Mk (Datatypes.S depth) next (Some e) nd; children := [] |}];
           tree_queue := tree_queue t ++ [(length (placed_nodes t), Datatypes.S depth)] |},
        kids ++ [next]).

Definition set_children (kids : list Z) (n : CallTreeNode) : CallTreeNode :=
  {| step := step n; children := kids |}.

(** [nodes[idx]] panics out of range. *)
Definition tree_turn (s : S) (d : Direction) (max_depth : nat) (st : tree_state)
  : res CoreError.Error (tree_state + list CallTreeNode) :=
  match tree_queue st with
  | [] => Ok (inr (placed_nodes st))
  | (idx, depth) :: queue =>
      let st := {| placed := placed st; placed_nodes := placed_nodes st; tree_queue := queue |} in
      if (max_depth <=? depth)%nat then Ok (inl st)
      else
        match placed_nodes st !! idx with
        | None => Panic
        | Some parent =>
            let node_id := TraceStep.node_id (step parent) in
            let? neighbours := edges_at s d node_id calls TRACE_FANOUT in
            let? r := try_fold (place s d node_id depth) (st, []) neighbours in
            let '(st, kids) := r in
            Ok (inl {| placed := placed st;
                       placed_nodes := alter (set_children kids) idx (placed_nodes st);
                       tree_queue := tree_queue st |})
        end
  end.

Definition tree_fuel (s : S) : nat := size (endpoints s) + 4.

Definition call_tree (s : S) (start_id : Z) (d : Direction) (max_depth : nat)
  : option (res CoreError.Error CallTree) :=
  match node_at s start_id with
  | Ok None => Some (Ok {| root_id := start_id; tree_nodes := [] |})
  | Ok (Some nd) =>
      after (while_loop (tree_fuel s) (tree_turn s d max_depth)
        {| placed := {[start_id]};
           placed_nodes := [{| step := TraceStep.Mk 0 start_id None (Some nd); children := [] |}];
           tree_queue := [(0%nat, 0%nat)] |})
        (fun nodes => Ok {| root_id := start_id; tree_nodes := nodes |})
  | Err e => Some (Err e)
  | Panic => Some Panic
  end.

(** ** [path_summary]; [show] prints an integer in decimal. *)

Definition path_summary (show : Z -> string) (steps : list TraceStep.t) : list string :=
  (fun x => match TraceStep.qualified_name x with
            | Some q => q
            | None => String.append "#" (show (TraceStep.node_id x))
            end) <$> steps.

(** ** [call_hierarchy]

    [path] is the shared set of ancestors: a call inserts its node, recurses,
    and removes it.  The recursion goes one level deeper each time, so
    [max_depth - depth] levels are enough; [None] says they were not. *)

Definition hier_result : Type := option (res CoreError.Error (CallHierarchyNode * gset Z)).

Definition hier_then {A B} (r : option (res CoreError.Error A))
    (k : A -> option (res CoreError.Error B)) : option (res CoreError.Error B) :=
  match r with
  | Some (Ok a) => k a
  | Some (Err e) => Some (Err e)
  | Some Panic => Some Panic
  | None => None
  end.

(** The loop over the neighbours of a node, given how a child is expanded. *)
Fixpoint hier_kids (s : S) (d : Direction) (node_id : Z) (depth : nat)
    (expand : Z -> option Node.t -> Edge.t -> gset Z -> hier_result)
    (es : list Edge.t) (seen path : gset Z)
  : option (res CoreError.Error (list CallHierarchyNode * gset Z)) :=
  match es with
  | [] => Some (Ok ([], path))
  | e :: es =>
      let next := next_of d e in
      if decide (next = node_id \/ next ∈ seen) then hier_kids s d node_id depth expand es seen path
      else
        let seen := {[next]} ∪ seen in
        hier_then (Some (node_at s next)) (fun nd =>
        if decide (next ∈ path) then
          hier_then (hier_kids s d node_id depth expand es seen path) (fun '(kids, path) =>
          Some (Ok (HNode (TraceStep.Mk (Datatypes.S depth) next (Some e) nd) true false [] :: kids, path)))
        else
          hier_then (expand next nd e path) (fun '(child, path) =>
          hier_then (hier_kids s d node_id depth expand es seen path) (fun '(kids, path) =>
          Some (Ok (child :: kids, path)))))
  end.

Fixpoint expand_hierarchy (levels : nat) (s : S) (node_id : Z) (meta : option Node.t)
    (incoming : option Edge.t) (depth : nat) (d : Direction) (max_depth : nat) (path : gset Z)
  : hier_result :=
  let step := TraceStep.Mk depth node_id incoming meta in
  if (max_depth <=? depth)%nat then Some (Ok (HNode step false true [], path))
  else
    match levels with
    | O => None
    | Datatypes.S levels =>
        hier_then (Some (edges_at s d node_id calls TRACE_FANOUT)) (fun neighbours =>
        hier_then (hier_kids s d node_id depth
            (fun next nd e path => expand_hierarchy levels s next nd (Some e) (Datatypes.S depth) d max_depth path)
            neighbours ∅ ({[node_id]} ∪ path)) (fun '(kids, path) =>
        Some (Ok (HNode step false false kids, path ∖ {[node_id]}))))
    end.

Definition call_hierarchy (s : S) (start_id : Z) (d : Direction) (max_depth : nat)
  : option (res CoreError.Error CallHierarchy) :=
  match node_at s start_id with
  | Ok None => Some (Ok {| direction := d; root := None |})
  | Ok (Some nd) =>
      hier_then (expand_hierarchy max_depth s start_id (Some nd) None 0 d max_depth ∅) (fun '(n, _) =>
      Some (Ok {| direction := d; root := Some n |}))
  | Err e => Some (Err e)
  | Panic => Some Panic
  end.
End Trace.

(** Facts about [trace_path] and [call_tree]: their loops end and compute the
    distances from the start. *)


Definition entry_pos (x : trace_entry) : Z * nat := (x.1.2, x.1.1).
Definition step_pos (x : TraceStep.t) : Z * nat := (TraceStep.node_id x, TraceStep.depth x).

Section TraceFacts.
Context {S : Type} `{GraphStoreLaws S}.
Context (s : S) (d : Direction) (ty : option string) (start : Z) (max_depth : nat).

(** The graph that the trace walks. *)
Let adj : Z -> list Z := next_ids s d ty TRACE_FANOUT.

Lemma adj_endpoints n x : x ∈ adj n -> x ∈ endpoints s.
Proof.
  unfold adj, next_ids. destruct (edges_at s d n ty TRACE_FANOUT) as [es| |] eqn:Hes;
    [|by intros Hx%elem_of_nil..].
  intros (e & -> & He)%list_elem_of_fmap. by eapply edges_at_next.
Qed.

Lemma enqueue_spec vis depth q es :
  exists news, enqueue d vis depth q es = q ++ news /\ (length news <= length es)%nat /\
    forall x, x ∈ news <-> exists e, e ∈ es /\ next_of d e ∉ vis /\
      x = (Datatypes.S depth, next_of d e, Some e).
Proof.
  unfold enqueue. revert q. induction es as [|e es IH]; intros q; simpl.
  { exists []. rewrite app_nil_r. split_and!; [done|simpl; lia|]. set_solver. }
  case_decide as Hv.
  - destruct (IH q) as (news & -> & Hl & Hn). exists news. split_and!; [done|lia|].
    intros x. rewrite Hn. set_solver.
  - destruct (IH (q ++ [(Datatypes.S depth, next_of d e, Some e)])) as (news & -> & Hl & Hn).
    exists ((Datatypes.S depth, next_of d e, Some e) :: news). rewrite <- app_assoc.
    split_and!; [done|simpl; lia|]. intros x. rewrite elem_of_cons, Hn. set_solver.
Qed.

(** How an entry came into the queue: the start, or over an edge from a step
    that has been emitted one level up. *)
Definition arrived (out : list (Z * nat)) (n : Z) (k : nat) (oe : option Edge.t) : Prop :=
  match oe with
  | None => n = start /\ k = 0%nat
  | Some e => next_of d e = n /\ type_matches ty e /\
      exists j, k = Datatypes.S j /\ (from_of d e, j) ∈ out
  end.

Definition step_ok (out : list (Z * nat)) (x : TraceStep.t) : Prop :=
  arrived out (TraceStep.node_id x) (TraceStep.depth x) (TraceStep.edge x) /\
  node_at s (TraceStep.node_id x) = Ok (TraceStep.node x).

Lemma arrived_mono out out' n k oe :
  (forall x, x ∈ out -> x ∈ out') -> arrived out n k oe -> arrived out' n k oe.
Proof. intros Hs. destruct oe; simpl; naive_solver. Qed.

Record trace_inv (st : trace_state) : Prop := {
  ti_pop : pop_inv adj start max_depth (step_pos <$> trace_out st) (entry_pos <$> trace_queue st);
  ti_visited : forall n, n ∈ visited st <-> n ∈ TraceStep.node_id <$> trace_out st;
  ti_steps : forall x, x ∈ trace_out st -> step_ok (step_pos <$> trace_out st) x;
  ti_queue : forall x, x ∈ trace_queue st ->
    arrived (step_pos <$> trace_out st) x.1.2 x.1.1 x.2 /\ x.1.2 ∈ {[start]} ∪ endpoints s;
  ti_bound : visited st ⊆ {[start]} ∪ endpoints s;
  ti_start : trace_out st = [] \/ exists nd, node_at s start = Ok (Some nd)
}.

Definition trace_measure (st : trace_state) : nat :=
  length (trace_queue st) + TRACE_FANOUT * (1 + size (endpoints s) - size (visited st)).

(** What [trace_path] has to return. *)
Definition trace_result (out : list TraceStep.t) : Prop :=
  (exists nd, node_at s start = Ok (Some nd)) /\
    pop_inv adj start max_depth (step_pos <$> out) [] /\
    (forall x, x ∈ out -> step_ok (step_pos <$> out) x)
  \/ node_at s start = Ok None /\ out = [].

Lemma step_pos_fst out : (step_pos <$> out).*1 = TraceStep.node_id <$> out.
Proof. by rewrite <- list_fmap_compose. Qed.

Lemma visited_size (vis : gset Z) :
  vis ⊆ {[start]} ∪ endpoints s -> (size vis <= 1 + size (endpoints s))%nat.
Proof.
  intros Hv. etrans; [by apply subseteq_size|].
  pose proof (size_union_alt {[start]} (endpoints s)) as Hu. rewrite size_singleton in Hu.
  assert (size (endpoints s ∖ {[start]}) <= size (endpoints s))%nat
    by (apply subseteq_size; set_solver). lia.
Qed.

Lemma trace_node_at n o : trace_node s n = Ok o <-> node_at s n = Ok o.
Proof. unfold trace_node, node_at, from_store. by destruct (get_node s n). Qed.

Lemma trace_inv_init :
  trace_inv {| visited := ∅; trace_out := []; trace_queue := [(0%nat, start, None)] |}.
Proof.
  split; simpl.
  - apply pop_inv_init.
  - set_solver.
  - set_solver.
  - intros x ->%list_elem_of_singleton. simpl. set_solver.
  - set_solver.
  - by left.
Qed.

(** A node that is marked already is dropped. *)
Lemma trace_inv_skip vis out dep n oe q :
  trace_inv {| visited := vis; trace_out := out; trace_queue := (dep, n, oe) :: q |} -> n ∈ vis ->
  trace_inv {| visited := vis; trace_out := out; trace_queue := q |}.
Proof.
  intros [Hp Hv Hst Hq Hb Hn] Hin. simpl in *. split; simpl; try done.
  - eapply pop_inv_skip; [exact Hp|]. rewrite step_pos_fst. by apply Hv.
  - intros x Hx. apply Hq. by right.
Qed.

(** A new node is emitted, and its neighbours enter the queue. *)
Lemma trace_inv_emit vis out dep n oe q meta news :
  trace_inv {| visited := vis; trace_out := out; trace_queue := (dep, n, oe) :: q |} -> n ∉ vis ->
  node_at s n = Ok meta -> (meta = None -> dep <> 0%nat) ->
  (forall x, x ∈ news -> (dep < max_depth)%nat /\ exists e, next_of d e ∈ adj n /\ from_of d e = n /\
     type_matches ty e /\ x = (Datatypes.S dep, next_of d e, Some e)) ->
  ((dep < max_depth)%nat -> forall m, m ∈ adj n -> m ∈ {[n]} ∪ vis \/ exists e, (Datatypes.S dep, m, Some e) ∈ news) ->
  trace_inv {| visited := {[n]} ∪ vis; trace_out := out ++ [TraceStep.Mk dep n oe meta];
               trace_queue := q ++ news |}.
Proof.
  intros [Hp Hv Hst Hq Hb Hs0] Hn Hmeta Hm0 Hnews Hall. simpl in *.
  destruct (Hq (dep, n, oe)) as [Harr Hin]; [by left|]. simpl in Harr, Hin.
  assert (forall x, x ∈ step_pos <$> out ->
    x ∈ step_pos <$> (out ++ [TraceStep.Mk dep n oe meta])) as Hsub.
  { intros x Hx. rewrite fmap_app, elem_of_app. by left. }
  assert ((n, dep) ∈ step_pos <$> (out ++ [TraceStep.Mk dep n oe meta])) as Hself.
  { rewrite fmap_app, elem_of_app. right. by left. }
  split; simpl.
  - rewrite !fmap_app. simpl. change (step_pos (TraceStep.Mk dep n oe meta)) with (n, dep).
    apply pop_inv_emit; [exact Hp| | |].
    + rewrite step_pos_fst. by rewrite <- Hv.
    + intros x k Hx. apply list_elem_of_fmap in Hx as (y & Heq & Hy).
      destruct (Hnews y Hy) as (Hlt & e & He & _ & _ & ->). by injection Heq as -> ->.
    + intros Hlt m Hm. destruct (Hall Hlt m Hm) as [Hvis|[e He]].
      * left. rewrite fmap_app, elem_of_app, step_pos_fst. simpl.
        apply elem_of_union in Hvis as [->%elem_of_singleton|Hvis]; [right; by left|].
        left. by apply Hv.
      * right. apply list_elem_of_fmap. by exists (Datatypes.S dep, m, Some e).
  - intros x. rewrite elem_of_union, elem_of_singleton, fmap_app, elem_of_app, Hv. simpl.
    rewrite list_elem_of_singleton. tauto.
  - intros x [Hx| ->%list_elem_of_singleton]%elem_of_app.
    + destruct (Hst x Hx) as [Ha Hnode]. split; [|done]. by eapply arrived_mono.
    + split; [|done]. simpl. by eapply arrived_mono.
  - intros x [Hx|Hx]%elem_of_app.
    + destruct (Hq x) as [Ha Hi]; [by right|]. split; [|done]. by eapply arrived_mono.
    + destruct (Hnews x Hx) as (Hlt & e & He & Hfrom & Hty & ->). simpl. split.
      * split_and!; [done|done|]. exists dep. split; [done|]. by rewrite Hfrom.
      * apply adj_endpoints in He. set_solver.
  - intros x. rewrite elem_of_union, elem_of_singleton. intros [->|Hx]; [done | by apply Hb].
  - right. destruct Hs0 as [->|?]; [|done]. destruct oe as [e|]; simpl in Harr.
    + destruct Harr as (_ & _ & j & _ & Hj). by apply elem_of_nil in Hj.
    + destruct Harr as [-> ->]. destruct meta as [nd|]; [eauto | by destruct Hm0].
Qed.

Lemma trace_loop :
  exists r, trace_path s start d ty max_depth = Some r /\
    (forall out, r = Ok out -> trace_result out) /\ (readable s -> is_ok r = true).
Proof.
  unfold trace_path. apply (while_total trace_inv trace_measure
    (fun r => (forall out, r = Ok out -> trace_result out) /\ (readable s -> is_ok r = true))).
  2: apply trace_inv_init.
  2:{ unfold trace_measure, trace_fuel. cbn [trace_queue visited length]. rewrite size_empty. lia. }
  intros [vis out q] HI. unfold trace_turn. simpl. destruct q as [|[[dep n] oe] q].
  { simpl. split; [|done]. intros o [= <-].
    destruct (ti_start _ HI) as [Hnil|Hs]; simpl in *.
    - pose proof (po_start _ _ _ _ _ (ti_pop _ HI)) as Hps. simpl in Hps. rewrite Hnil in Hps.
      destruct Hps as [Hps|[_ Hps]]; [by apply elem_of_nil in Hps | done].
    - left. split; [done|]. split; [exact (ti_pop _ HI) | exact (ti_steps _ HI)]. }
  simpl. case_decide as Hv.
  { split; [by eapply trace_inv_skip|]. unfold trace_measure. simpl. lia. }
  destruct (trace_node s n) as [meta| |] eqn:Hnode; simpl.
  2,3: split; [done|]; intros [Hr _]; destruct (Hr n) as [o Ho%trace_node_at]; congruence.
  apply trace_node_at in Hnode.
  destruct (ti_queue _ HI (dep, n, oe)) as [Harr Hin]; [by left|]. simpl in Harr, Hin.
  assert (size ({[n]} ∪ vis) = Datatypes.S (size vis)) as Hsz.
  { rewrite size_union by set_solver. by rewrite size_singleton. }
  assert (size ({[n]} ∪ vis) <= 1 + size (endpoints s))%nat as Hbound.
  { apply visited_size. pose proof (ti_bound _ HI). simpl in *. set_solver. }
  assert (forall out' q', (length q' <= length q + TRACE_FANOUT)%nat ->
    (trace_measure {| visited := {[n]} ∪ vis; trace_out := out'; trace_queue := q' |}
     < trace_measure {| visited := vis; trace_out := out; trace_queue := (dep, n, oe) :: q |})%nat) as Hless.
  { intros out' q' Hq'. unfold trace_measure. cbn [trace_queue visited length].
    rewrite Hsz. replace (1 + size (endpoints s) - size vis)%nat
      with (Datatypes.S (1 + size (endpoints s) - Datatypes.S (size vis))) by lia.
    rewrite Nat.mul_succ_r. lia. }
  destruct (bool_decide (meta = None) && (dep =? 0)%nat) eqn:Hmiss.
  { apply andb_true_iff in Hmiss as [Hm Hd]. apply bool_decide_eq_true in Hm as ->.
    apply Nat.eqb_eq in Hd as ->. simpl. split; [|done]. intros o [= <-]. right.
    destruct oe as [e|]; simpl in Harr; [naive_solver|]. destruct Harr as [-> _]. done. }
  assert (meta = None -> dep <> 0%nat) as Hm0.
  { intros -> ->. by rewrite bool_decide_eq_true_2 in Hmiss. }
  destruct (Nat.leb_spec max_depth dep) as [Hd|Hd]; simpl.
  { split.
    - rewrite <- (app_nil_r q). eapply trace_inv_emit; try done; [|lia]. intros x Hx.
      by apply elem_of_nil in Hx.
    - apply Hless. simpl. lia. }
  destruct (edges_at s d n ty TRACE_FANOUT) as [es| |] eqn:Hes; simpl.
  2,3: split; [done|]; intros [_ Hr]; destruct (Hr d n ty TRACE_FANOUT) as [o Ho]; congruence.
  destruct (enqueue_spec ({[n]} ∪ vis) dep q es) as (news & -> & Hlen & Hnews).
  destruct (edges_at_ok _ _ _ _ _ _ Hes) as (Hlim & _ & Hall). rewrite Forall_forall in Hall.
  assert (adj n = next_of d <$> es) as Hadj by (unfold adj, next_ids; by rewrite Hes).
  split.
  - eapply trace_inv_emit; try done.
    + intros x Hx. apply Hnews in Hx as (e & He & _ & ->). split; [done|].
      destruct (Hall e He) as (Hf & _ & Ht). exists e. split_and!; try done.
      rewrite Hadj. apply list_elem_of_fmap. eauto.
    + intros _ m Hm. destruct (decide (m ∈ {[n]} ∪ vis)) as [|Hnv]; [by left|]. right.
      rewrite Hadj in Hm. apply list_elem_of_fmap in Hm as (e & -> & He).
      exists e. apply Hnews. eauto.
  - apply Hless. rewrite length_app. lia.
Qed.
End TraceFacts.
