(* ===== verification/GraphTreeFacts.v ===== *)
(** Facts about [call_tree]: it places every node within the depth bound once,
    at its distance from the root, with its neighbours as children. *)

From S2P Require Import Prelude Loop CoreError GraphStore GraphBfs GraphTrace.

Section TreeFacts.
Context {S : Type} `{GraphStoreLaws S}.
Context (s : S) (d : Direction) (start : Z) (max_depth : nat).

Let adj : Z -> list Z := next_ids s d calls TRACE_FANOUT.
Let pos (x : CallTreeNode) : Z * nat := step_pos (step x).

(** The queue of [call_tree] holds indexes into the list of nodes. *)
Definition indexed (nodes : list CallTreeNode) (i : nat * nat) (p : Z * nat) : Prop :=
  exists x, nodes !! i.1 = Some x /\ pos x = p /\ i.2 = p.2.

(** A node as it is placed: no children yet, its row looked up, reached over
    an edge from [n]. *)
Definition fresh_node (n : Z) (dep : nat) (x : CallTreeNode) : Prop :=
  children x = [] /\ TraceStep.depth (step x) = Datatypes.S dep /\
  node_at s (TraceStep.node_id (step x)) = Ok (TraceStep.node (step x)) /\
  exists e, TraceStep.edge (step x) = Some e /\ next_of d e = TraceStep.node_id (step x) /\
    from_of d e = n /\ type_matches calls e.

(** The loop over the neighbours of [n], next to [discover]. *)
Lemma place_fold n dep es t kids t' kids' best q :
  (forall e, e ∈ es -> from_of d e = n /\ type_matches calls e) ->
  (forall x, x ∈ placed t <-> is_Some (best !! x)) -> n ∈ placed t ->
  try_fold (place s d n dep) (t, kids) es = Ok (t', kids') ->
  exists best' nodes', foldl (discover dep) (best, q) (next_of d <$> es) = (best', q ++ (pos <$> nodes')) /\
    (forall x, x ∈ placed t' <-> is_Some (best' !! x)) /\
    placed_nodes t' = placed_nodes t ++ nodes' /\
    tree_queue t' = tree_queue t ++
      ((fun i => ((length (placed_nodes t) + i)%nat, Datatypes.S dep)) <$> seq 0 (length nodes')) /\
    Forall (fresh_node n dep) nodes' /\
    kids' = kids ++ filter (fun x => x <> n) (next_of d <$> es).
Proof.
  revert t kids best q. induction es as [|e es IH]; intros t kids best q Hfrom Hp Hn.
  { simpl. intros [= <- <-]. exists best, []. rewrite !app_nil_r. split_and!; done. }
  cbn [try_fold]. unfold place at 1. destruct (decide (next_of d e = n)) as [He|He].
  { cbn [res_bind]. intros Hrun. destruct (IH t kids best q) as (best' & nodes' & Hf & Hr); [..|done|].
    - intros e' He'. apply Hfrom. by right.
    - done.
    - done.
    - exists best', nodes'. rewrite fmap_cons, filter_cons_False by naive_solver. split; [|done].
      rewrite <- Hf. cbn [foldl]. rewrite discover_old; [done|]. rewrite He. by apply Hp. }
  destruct (decide (next_of d e ∈ placed t)) as [Hin|Hin].
  { cbn [res_bind]. intros Hrun.
    destruct (IH t (kids ++ [next_of d e]) best q) as (best' & nodes' & Hf & Hpl & Hnd & Hq & Hfr & Hk);
      [|done|done|done|].
    - intros e' He'. apply Hfrom. by right.
    - exists best', nodes'. rewrite fmap_cons, filter_cons_True by done. split_and!; try done.
      + rewrite <- Hf. cbn [foldl]. rewrite discover_old; [done|]. by apply Hp.
      + by rewrite Hk, <- app_assoc. }
  destruct (node_at s (next_of d e)) as [nd| |] eqn:Hnd; cbn [res_bind]; [|done..]. intros Hrun.
  assert (best !! next_of d e = None) as Hnone.
  { destruct (best !! next_of d e) eqn:Hb; [|done]. destruct Hin. apply Hp. by eexists. }
  match type of Hrun with try_fold _ (?t1, ?k1) _ = _ =>
    destruct (IH t1 k1 (<[next_of d e := Datatypes.S dep]> best) (q ++ [(next_of d e, Datatypes.S dep)]))
      as (best' & nodes' & Hf & Hpl & Hnodes & Hq & Hfr & Hk); [| | |done|] end.
  - intros e' He'. apply Hfrom. by right.
  - intros x. simpl. rewrite elem_of_union, elem_of_singleton, Hp.
    destruct (decide (x = next_of d e)) as [->|Hne].
    + rewrite lookup_insert_eq. naive_solver.
    + rewrite lookup_insert_ne by done. naive_solver.
  - simpl. set_solver.
  - exists best', ({| step := TraceStep.Mk (Datatypes.S dep) (next_of d e) (Some e) nd; children := [] |} :: nodes').
    simpl in Hnodes, Hq. split_and!.
    + rewrite fmap_cons. cbn [foldl]. rewrite discover_new, Hf by done. by rewrite <- app_assoc.
    + done.
    + by rewrite Hnodes, <- app_assoc.
    + rewrite Hq, <- app_assoc. f_equal. cbn [length seq]. rewrite fmap_cons, Nat.add_0_r.
      cbn [app]. f_equal. rewrite <- fmap_S_seq, <- list_fmap_compose. apply list_fmap_ext.
      intros i x _. simpl. rewrite length_app. simpl. f_equal. lia.
    + constructor; [|done]. split_and!; try done. simpl. exists e. destruct (Hfrom e) as [? ?]; [by left | done].
    + rewrite Hk, fmap_cons, filter_cons_True by done. by rewrite <- app_assoc.
Qed.

Record tree_inv (st : tree_state) : Prop := {
  tr_bfs : exists best q, push_inv adj start max_depth best q /\ within start (endpoints s) best /\
    (forall n, n ∈ placed st <-> is_Some (best !! n)) /\
    (forall n k, best !! n = Some k <-> (n, k) ∈ pos <$> placed_nodes st) /\
    Forall2 (indexed (placed_nodes st)) (tree_queue st) q /\
    size best = length (placed_nodes st);
  tr_nodup : NoDup (pos <$> placed_nodes st).*1;
  tr_idx : NoDup (tree_queue st).*1;
  tr_kids : forall i x, placed_nodes st !! i = Some x ->
    (i ∈ (tree_queue st).*1 -> children x = []) /\
    (i ∉ (tree_queue st).*1 -> children x =
       if (max_depth <=? (pos x).2)%nat then [] else filter (fun m => m <> (pos x).1) (adj (pos x).1));
  tr_steps : forall x, x ∈ placed_nodes st ->
    step_ok s d calls start (pos <$> placed_nodes st) (step x)
}.

Definition tree_measure (st : tree_state) : nat :=
  length (tree_queue st) + (2 + size (endpoints s) - length (placed_nodes st)).

Lemma tree_inv_init nd :
  node_at s start = Ok (Some nd) ->
  tree_inv {| placed := {[start]};
    placed_nodes := [{| step := TraceStep.Mk 0 start None (Some nd); children := [] |}];
    tree_queue := [(0%nat, 0%nat)] |}.
Proof.
  intros Hnd. split; simpl.
  - exists {[start := 0%nat]}, [(start, 0%nat)]. split_and!.
    + apply push_inv_init.
    + apply within_init.
    + intros n. rewrite elem_of_singleton. split.
      * intros ->. rewrite lookup_singleton_eq. by eexists.
      * intros [k Hk]. by apply lookup_singleton_Some in Hk as [-> _].
    + intros n k. rewrite lookup_singleton_Some, list_elem_of_singleton. unfold pos, step_pos. simpl.
      naive_solver.
    + repeat constructor. simpl. eexists. split; [done|]. done.
    + by rewrite map_size_singleton.
  - apply NoDup_singleton.
  - apply NoDup_singleton.
  - intros [|i] x; simpl; [|done]. intros [= <-]. split; [done|]. intros Hi. destruct Hi. by left.
  - intros x ->%list_elem_of_singleton. by split.
Qed.

Lemma indexed_mono nodes nodes' i p :
  (forall j x, nodes !! j = Some x -> exists x', nodes' !! j = Some x' /\ pos x' = pos x) ->
  indexed nodes i p -> indexed nodes' i p.
Proof. intros Hm (x & Hx & <- & Hi). destruct (Hm _ _ Hx) as (x' & Hx' & Hp). exists x'. by rewrite Hp. Qed.

Lemma tree_inv_pop pl nodes i dep q :
  tree_inv {| placed := pl; placed_nodes := nodes; tree_queue := (i, dep) :: q |} ->
  (max_depth <= dep)%nat -> tree_inv {| placed := pl; placed_nodes := nodes; tree_queue := q |}.
Proof.
  intros [(best & bq & HI & HW & Hpl & Hpos & HQ & Hsz) Hnd Hidx Hk Hst] Hd. simpl in *.
  inversion HQ as [|? [n k] ? bq' (x & Hx & Hpx & Hdep) HQ']; subst. simpl in *. subst k.
  inversion Hidx as [|? ? Hni Hidx']; subst. split; simpl; try done.
  - exists best, bq'. split_and!; try done. eapply push_inv_pop; [exact HI | done].
  - intros j y Hy. destruct (Hk j y Hy) as [H1 H2]. split.
    + intros Hj. apply H1. by right.
    + intros Hj. destruct (decide (j = i)) as [->|Hne].
      * rewrite Hx in Hy. injection Hy as <-. assert ((pos x).2 = dep) as Hpd by by rewrite Hpx.
        rewrite (proj2 (Nat.leb_le _ _)); [apply H1; by left|]. unfold pos in Hpd. simpl in Hpd. lia.
      * apply H2. rewrite not_elem_of_cons. done.
Qed.

(** A list with the entries of a table and its length is the table. *)
Lemma table_nodup (best : gmap Z nat) (l : list (Z * nat)) :
  (forall n k, best !! n = Some k <-> (n, k) ∈ l) -> size best = length l -> NoDup l.*1.
Proof.
  intros Hm Hs. assert (map_to_list best ⊆+ l) as Hsub.
  { apply NoDup_submseteq; [apply NoDup_map_to_list|]. intros [n k] Hx.
    apply Hm. by apply elem_of_map_to_list in Hx. }
  assert (map_to_list best ≡ₚ l) as <-.
  { apply submseteq_length_Permutation; [done|]. by rewrite length_map_to_list, Hs. }
  apply NoDup_fst_map_to_list.
Qed.

Lemma pos_alter kids (i : nat) (nodes : list CallTreeNode) : pos <$> alter (set_children kids) i nodes = pos <$> nodes.
Proof.
  revert i. induction nodes as [|x nodes IH]; intros [|i]; simpl; [done..|].
  change (pos x :: (pos <$> alter (set_children kids) i nodes) = pos x :: (pos <$> nodes)). by rewrite IH.
Qed.

Lemma lookup_alter_children kids (i : nat) (nodes : list CallTreeNode) j x :
  alter (set_children kids) i nodes !! j = Some x ->
  exists y, nodes !! j = Some y /\ pos y = pos x /\ step y = step x /\
    children x = if decide (i = j) then kids else children y.
Proof.
  destruct (decide (i = j)) as [->|Hne].
  - rewrite list_lookup_alter_eq. intros (y & Hy & ->)%fmap_Some. by exists y.
  - rewrite list_lookup_alter_ne by done. intros Hx. by exists x.
Qed.

(** The queue after the new nodes, which stand behind the [len] old ones. *)
Lemma queue_indices (q : list (nat * nat)) len k dep :
  (forall j, j ∈ q.*1 -> (j < len)%nat) -> NoDup q.*1 ->
  let q' := q ++ ((fun i => ((len + i)%nat, dep)) <$> seq 0 k) in
  NoDup q'.*1 /\ forall j, j ∈ q'.*1 <-> j ∈ q.*1 \/ (len <= j < len + k)%nat.
Proof.
  intros Hold Hnd q'. assert (q'.*1 = q.*1 ++ ((fun j => (len + j)%nat) <$> seq 0 k)) as ->.
  { unfold q'. rewrite fmap_app. f_equal. by rewrite <- list_fmap_compose. }
  split.
  - apply NoDup_app. split_and!; [done| |].
    + intros j Hj (j' & -> & _)%list_elem_of_fmap. apply Hold in Hj. lia.
    + apply NoDup_fmap_2; [intros a b; lia | apply NoDup_seq].
  - intros j. rewrite elem_of_app, (list_elem_of_fmap (fun j => (len + j)%nat)). split.
    + intros [|(j' & -> & Hj%elem_of_seq)]; [by left | right; lia].
    + intros [|?]; [by left|]. right. exists (j - len)%nat. rewrite elem_of_seq. lia.
Qed.

Lemma queue_indexed nodes new kids i dep n q bq :
  Forall2 (indexed nodes) q bq -> Forall (fresh_node n dep) new -> (i < length nodes)%nat ->
  Forall2 (indexed (alter (set_children kids) i (nodes ++ new)))
    (q ++ ((fun j => ((length nodes + j)%nat, Datatypes.S dep)) <$> seq 0 (length new))) (bq ++ (pos <$> new)).
Proof.
  intros HQ Hfr Hi. apply Forall2_app.
  - eapply Forall2_impl; [exact HQ|]. intros a b. apply indexed_mono. intros j y Hy.
    destruct (decide (i = j)) as [->|Hne].
    + rewrite list_lookup_alter_eq, lookup_app_l by (by eapply lookup_lt_Some). rewrite Hy. by eexists.
    + rewrite list_lookup_alter_ne, lookup_app_l by (done || by eapply lookup_lt_Some). by eexists.
  - apply Forall2_fmap. apply Forall2_same_length_lookup. split; [by rewrite length_seq|].
    intros j a y Ha Hy. apply lookup_seq in Ha as [-> Hj]. simpl.
    rewrite Forall_lookup in Hfr. destruct (Hfr j y Hy) as (_ & Hdy & _).
    exists y. simpl. split_and!; [|done|done].
    rewrite list_lookup_alter_ne, lookup_app_r by lia.
    by replace (length nodes + j - length nodes)%nat with j by lia.
Qed.

(** The children of a node that is out of the queue. *)
Abbreviation kids_of p :=
  (if (max_depth <=? p.2)%nat then [] else filter (fun m => m <> p.1) (adj p.1)).

Lemma kids_expand nodes new i n dep parent (q q' : list nat) kids :
  (forall j x, nodes !! j = Some x ->
     (j ∈ i :: q -> children x = []) /\ (j ∉ i :: q -> children x = kids_of (pos x))) ->
  nodes !! i = Some parent -> i ∉ q -> Forall (fresh_node n dep) new -> kids = kids_of (pos parent) ->
  (forall j, j ∈ q' <-> j ∈ q \/ (length nodes <= j < length nodes + length new)%nat) ->
  forall j x, alter (set_children kids) i (nodes ++ new) !! j = Some x ->
    (j ∈ q' -> children x = []) /\ (j ∉ q' -> children x = kids_of (pos x)).
Proof.
  intros Hk Hpar Hni Hfr Hkids Hqin j y (y0 & Hy0 & Hpy & _ & Hcy)%lookup_alter_children.
  rewrite <- Hpy, Hcy. apply lookup_lt_Some in Hpar as Hi. destruct (decide (i = j)) as [<-|Hne].
  - rewrite lookup_app_l in Hy0 by done. rewrite Hpar in Hy0. injection Hy0 as <-.
    split; [|done]. intros [Hin|?]%Hqin; [done | lia].
  - apply lookup_app_Some in Hy0 as [Hy0|[Hlen Hy0]].
    + destruct (Hk j y0 Hy0) as [H1 H2]. rewrite Hqin. split.
      * intros [Hin|?]; [apply H1; by right|]. apply lookup_lt_Some in Hy0. lia.
      * intros Hnin. apply H2. rewrite not_elem_of_cons. naive_solver.
    + rewrite Forall_lookup in Hfr. destruct (Hfr _ y0 Hy0) as (Hc0 & _). split; [done|].
      intros Hnin. destruct Hnin. apply Hqin. right. apply lookup_lt_Some in Hy0. lia.
Qed.

Lemma steps_expand nodes new i n dep kids y :
  (forall x, x ∈ nodes -> step_ok s d calls start (pos <$> nodes) (step x)) ->
  Forall (fresh_node n dep) new -> (n, dep) ∈ pos <$> nodes ->
  y ∈ alter (set_children kids) i (nodes ++ new) ->
  step_ok s d calls start ((pos <$> nodes) ++ (pos <$> new)) (step y).
Proof.
  intros Hst Hfr Hn (j & Hy)%list_elem_of_lookup_1.
  apply lookup_alter_children in Hy as (y0 & Hy0 & _ & Hsy & _). rewrite <- Hsy.
  apply lookup_app_Some in Hy0 as [Hy0|[_ Hy0]].
  - destruct (Hst y0) as [Ha Hnode]; [by eapply list_elem_of_lookup_2|]. split; [|done].
    assert (forall p, p ∈ pos <$> nodes -> p ∈ (pos <$> nodes) ++ (pos <$> new)) as Hsub
      by (intros p Hp; apply elem_of_app; by left). by eapply arrived_mono.
  - rewrite Forall_lookup in Hfr. destruct (Hfr _ y0 Hy0) as (_ & Hdy & Hny & e & He & Hnext & Hfrom & Hty).
    split; [|done]. rewrite He, Hdy. split_and!; [done|done|]. exists dep. split; [done|].
    apply elem_of_app. left. by rewrite Hfrom.
Qed.

Lemma tree_inv_expand pl nodes i dep q parent es t kids :
  tree_inv {| placed := pl; placed_nodes := nodes; tree_queue := (i, dep) :: q |} ->
  (dep < max_depth)%nat -> nodes !! i = Some parent ->
  edges_at s d (TraceStep.node_id (step parent)) calls TRACE_FANOUT = Ok es ->
  try_fold (place s d (TraceStep.node_id (step parent)) dep)
    ({| placed := pl; placed_nodes := nodes; tree_queue := q |}, []) es = Ok (t, kids) ->
  let st' := {| placed := placed t; placed_nodes := alter (set_children kids) i (placed_nodes t);
                tree_queue := tree_queue t |} in
  tree_inv st' /\ (tree_measure st' <
    tree_measure {| placed := pl; placed_nodes := nodes; tree_queue := (i, dep) :: q |})%nat.
Proof.
  intros [(best & bq & HI & HW & Hpl & Hpos & HQ & Hsz) Hnd Hidx Hk Hst] Hd Hpar Hes Hrun.
  simpl in Hpl, Hpos, HQ, Hsz, Hnd, Hidx, Hk, Hst.
  set (n := TraceStep.node_id (step parent)) in *.
  inversion HQ as [|? [n0 k] ? bq' (x & Hx & Hpx & Hdep) HQ']; subst. simpl in Hx, Hdep. subst k.
  rewrite Hpar in Hx. injection Hx as <-.
  assert (n0 = n) as -> by (unfold pos, step_pos in Hpx; by injection Hpx).
  inversion Hidx as [|? ? Hni Hidx']; subst.
  destruct (edges_at_ok _ _ _ _ _ _ Hes) as (_ & _ & Hall). rewrite Forall_forall in Hall.
  assert (adj n = next_of d <$> es) as Hadj by (unfold adj, next_ids; by rewrite Hes).
  assert (best !! n = Some dep) as Hbn by (apply (pi_queue _ _ _ _ _ HI); left).
  destruct (place_fold n dep es {| placed := pl; placed_nodes := nodes; tree_queue := q |} [] t kids best bq')
    as (best' & new & Hf & Hpl' & Hnodes & Hq & Hfr & Hkids); [| | |exact Hrun|].
  { intros e He. destruct (Hall e He) as (? & _ & ?). done. }
  { exact Hpl. }
  { apply Hpl. by eexists. }
  simpl in Hnodes, Hq, Hkids.
  assert (push_inv adj start max_depth best' (bq' ++ (pos <$> new))) as HI'.
  { eapply push_inv_expand; [exact HI|done| |exact Hf]. intros y. by rewrite Hadj. }
  assert (forall m, m ∈ next_of d <$> es -> m ∈ endpoints s) as HE.
  { intros m Hm. rewrite <- Hadj in Hm. by eapply adj_endpoints. }
  destruct (discover_measure start (endpoints s) best n dep bq' _ _ _ HW HE Hf) as [HW' _].
  destruct (discover_all dep (next_of d <$> es) best bq') as (b0 & news & Hf0 & [Hb0 Hn0 Hs0]).
  rewrite Hf in Hf0. injection Hf0 as <- Happ. apply app_inv_head in Happ. subst news.
  assert (pos <$> alter (set_children kids) i (placed_nodes t) = (pos <$> nodes) ++ (pos <$> new)) as Hposl.
  { by rewrite pos_alter, Hnodes, fmap_app. }
  assert (forall m k, best' !! m = Some k <-> (m, k) ∈ (pos <$> nodes) ++ (pos <$> new)) as Hpos'.
  { intros m k. rewrite Hb0, elem_of_app, <- Hpos, <- Hn0. done. }
  assert (size best' = length ((pos <$> nodes) ++ (pos <$> new))) as Hsz'.
  { rewrite Hs0, length_app, Hsz. by rewrite !length_fmap. }
  assert (forall j, j ∈ q.*1 -> (j < length nodes)%nat) as Hold.
  { intros j ([j' k] & -> & Hj)%list_elem_of_fmap. apply list_elem_of_lookup_1 in Hj as [z Hz].
    destruct (Forall2_lookup_l _ _ _ _ _ HQ' Hz) as (p & _ & y & Hy & _). by eapply lookup_lt_Some. }
  assert (i < length nodes)%nat as Hi by by eapply lookup_lt_Some.
  destruct (queue_indices q (length nodes) (length new) (Datatypes.S dep) Hold Hidx') as [Hnq Hqin].
  rewrite <- Hq in Hnq, Hqin. split; [split; cbn [placed placed_nodes tree_queue]|].
  - exists best', (bq' ++ (pos <$> new)). split_and!; try done.
    + by rewrite Hposl.
    + rewrite Hq, Hnodes. by eapply queue_indexed.
    + rewrite Hsz'. by rewrite length_alter, Hnodes, !length_app, !length_fmap.
  - rewrite Hposl. by eapply table_nodup.
  - done.
  - rewrite Hnodes. eapply kids_expand; [exact Hk|done|done|exact Hfr| |exact Hqin].
    rewrite Hpx. cbn [fst snd]. destruct (Nat.leb_spec max_depth dep); [lia|]. by rewrite Hadj, Hkids.
  - intros y Hy. rewrite Hposl. rewrite Hnodes in Hy. eapply steps_expand; [exact Hst|exact Hfr|by apply Hpos|exact Hy].
  - unfold tree_measure. simpl. rewrite length_alter, Hnodes, Hq, !length_app, length_fmap, length_seq.
    apply within_size in HW'. rewrite Hsz', length_app, !length_fmap in HW'. lia.
Qed.

Lemma place_fold_total n dep es t kids :
  readable s -> exists r, try_fold (place s d n dep) (t, kids) es = Ok r.
Proof.
  intros [Hr _]. revert t kids. induction es as [|e es IH]; intros t kids; [by eexists|].
  cbn [try_fold]. unfold place at 1. destruct (decide (next_of d e = n)); [apply IH|].
  destruct (decide (next_of d e ∈ placed t)); [apply IH|].
  destruct (Hr (next_of d e)) as [o ->]. apply IH.
Qed.

(** What [call_tree] returns for a root that exists. *)
Record tree_result (nodes : list CallTreeNode) : Prop := {
  tres_nodup : NoDup (pos <$> nodes).*1;
  tres_dist : forall n k, (n, k) ∈ pos <$> nodes <-> dist adj start n k /\ (k <= max_depth)%nat;
  tres_kids : forall x, x ∈ nodes -> children x =
    if (max_depth <=? (pos x).2)%nat then [] else filter (fun m => m <> (pos x).1) (adj (pos x).1);
  tres_steps : forall x, x ∈ nodes -> step_ok s d calls start (pos <$> nodes) (step x)
}.

Lemma tree_inv_final pl nodes :
  tree_inv {| placed := pl; placed_nodes := nodes; tree_queue := [] |} -> tree_result nodes.
Proof.
  intros [(best & bq & HI & _ & _ & Hpos & HQ & _) Hnd _ Hk Hst].
  cbn [placed placed_nodes tree_queue] in *. inversion HQ; subst. split; [done| | |done].
  - intros n k. rewrite <- Hpos. by apply push_inv_final.
  - intros x (i & Hi)%list_elem_of_lookup_1. apply (Hk i x Hi). by intros ?%elem_of_nil.
Qed.

Lemma tree_loop nd :
  node_at s start = Ok (Some nd) ->
  exists r, call_tree s start d max_depth = Some r /\
    (forall t, r = Ok t -> root_id t = start /\ tree_result (tree_nodes t)) /\
    (r <> Panic \/ ~ readable s) /\ (readable s -> is_ok r = true).
Proof.
  intros Hnd. unfold call_tree. rewrite Hnd.
  destruct (while_total tree_inv tree_measure
    (fun r => (forall nodes, r = Ok nodes -> tree_result nodes) /\ (readable s -> is_ok r = true))
    (tree_turn s d max_depth)) with (fuel := tree_fuel s)
    (s := {| placed := {[start]};
      placed_nodes := [{| step := TraceStep.Mk 0 start None (Some nd); children := [] |}];
      tree_queue := [(0%nat, 0%nat)] |}) as (r & -> & HQ & Hok).
  - intros [pl nodes q] HI. unfold tree_turn. cbn [placed placed_nodes tree_queue].
    destruct q as [|[i dep] q].
    { simpl. split; [|done]. intros o [= <-]. by eapply tree_inv_final. }
    destruct (Nat.leb_spec max_depth dep) as [Hd|Hd].
    { split; [by eapply tree_inv_pop|]. unfold tree_measure. simpl. lia. }
    destruct (tr_bfs _ HI) as (best & bq & _ & _ & _ & _ & HF & _). cbn [placed_nodes tree_queue] in HF.
    inversion HF as [|? ? ? ? (parent & Hpar & _) _]; subst. cbn [fst] in Hpar. rewrite Hpar.
    destruct (edges_at s d _ calls TRACE_FANOUT) as [es| |] eqn:Hes; simpl.
    2,3: split; [done|]; intros [_ Hr]; destruct (Hr d (TraceStep.node_id (step parent)) calls TRACE_FANOUT); congruence.
    destruct (try_fold _ _ es) as [[t kids]| |] eqn:Hfold; simpl.
    2,3: split; [done|]; intros Hr;
      match type of Hfold with try_fold _ (?t, ?k) _ = _ =>
        destruct (place_fold_total (TraceStep.node_id (step parent)) dep es t k Hr); congruence end.
    by eapply tree_inv_expand.
  - by apply tree_inv_init.
  - unfold tree_measure, tree_fuel. simpl. lia.
  - rewrite after_some. eexists. split; [done|]. split_and!.
    + intros t Ht. destruct r as [nodes| |]; simpl in Ht; [|done..]. injection Ht as <-. simpl.
      split; [done | by apply HQ].
    + destruct r; simpl; [by left..|]. right. intros Hr. by specialize (Hok Hr).
    + intros Hr. specialize (Hok Hr). by destruct r.
Qed.
End TreeFacts.

(** Facts about [call_hierarchy]: the tree it builds has one branch for every
    call path from the root that does not run through a node twice before its
    end, up to the depth bound. *)


(** [branch t l x]: the ids from the root of [t] down to its node [x]. *)
Inductive branch : CallHierarchyNode -> list Z -> CallHierarchyNode -> Prop :=
| branch_here t : branch t [hier_id t] t
| branch_down t c l x : c ∈ hier_children t -> branch c l x -> branch t (hier_id t :: l) x.

(** All ids of the list but the last. *)
Definition before_last (l : list Z) : list Z := take (pred (length l)) l.

Lemma before_last_cons a l : l <> [] -> before_last (a :: l) = a :: before_last l.
Proof. unfold before_last. destruct l; [done|]. done. Qed.

(** A call path: each id is a neighbour of the one before it and not that id
    itself. *)
Fixpoint call_path (adj : Z -> list Z) (l : list Z) : Prop :=
  match l with
  | [] => True
  | a :: l' => match l' with
               | [] => True
               | b :: _ => b ∈ adj a /\ b <> a /\ call_path adj l'
               end
  end.

Section HierFacts.
Context {S : Type} `{GraphStoreLaws S}.
Context (s : S) (d : Direction) (max_depth : nat).
Let adj : Z -> list Z := next_ids s d calls TRACE_FANOUT.

(** The branches of a subtree below the ancestors [path]: call paths from [n]
    of which no id but the last is repeated or an ancestor.  A node whose id
    is repeated is a cyclic leaf; one at the depth bound is truncated. *)
Definition branch_ids (path : gset Z) (n : Z) (depth : nat) (l : list Z) : Prop :=
  head l = Some n /\ call_path adj l /\ NoDup (before_last l) /\
  (forall m, m ∈ before_last l -> m ∉ path) /\ (length l + depth <= Datatypes.S max_depth)%nat.

Definition branch_node (path : gset Z) (depth : nat) (l : list Z) (x : CallHierarchyNode) : Prop :=
  last l = Some (hier_id x) /\
  TraceStep.depth (hier_step x) = (pred (length l) + depth)%nat /\
  node_at s (hier_id x) = Ok (TraceStep.node (hier_step x)) /\
  (hier_cyclic x = true <-> hier_id x ∈ before_last l \/ hier_id x ∈ path) /\
  hier_truncated x = negb (hier_cyclic x) && (max_depth <=? TraceStep.depth (hier_step x))%nat.

Record hier_ok (path : gset Z) (n : Z) (depth : nat) (t : CallHierarchyNode) : Prop := {
  ho_id : hier_id t = n;
  ho_ids : forall l, (exists x, branch t l x) <-> branch_ids path n depth l;
  ho_node : forall l x, branch t l x -> branch_node path depth l x;
  ho_unique : forall l x y, branch t l x -> branch t l y -> x = y
}.

(** A neighbour that is an ancestor: a leaf. *)
Definition cyclic_leaf (m : Z) (depth : nat) (t : CallHierarchyNode) : Prop :=
  exists e nd, node_at s m = Ok nd /\ t = HNode (TraceStep.Mk depth m (Some e) nd) true false [].

Definition child_ok (path : gset Z) (m : Z) (depth : nat) (c : CallHierarchyNode) : Prop :=
  (m ∈ path /\ cyclic_leaf m depth c) \/ (m ∉ path /\ hier_ok path m depth c).

Lemma child_ok_id path m depth c : child_ok path m depth c -> hier_id c = m.
Proof. intros [[_ (e & nd & _ & ->)]|[_ Hc]]; [done | by apply ho_id in Hc]. Qed.

(** The children: one for every neighbour other than the node and those seen. *)
Record kids_ok (path : gset Z) (n : Z) (depth : nat) (nexts : list Z) (seen : gset Z)
    (kids : list CallHierarchyNode) : Prop := {
  ko_sound : forall c, c ∈ kids -> exists m, m ∈ nexts /\ m <> n /\ m ∉ seen /\ child_ok path m depth c;
  ko_complete : forall m, m ∈ nexts -> m <> n -> m ∉ seen -> exists c, c ∈ kids /\ child_ok path m depth c;
  ko_nodup : NoDup (hier_id <$> kids)
}.

Lemma kids_ok_cons path n depth nexts seen kids m c :
  m <> n -> m ∉ seen -> child_ok path m depth c ->
  kids_ok path n depth nexts ({[m]} ∪ seen) kids ->
  kids_ok path n depth (m :: nexts) seen (c :: kids).
Proof.
  intros Hn Hs Hc [H1 H2 H3]. split.
  - intros x [->|Hx]%elem_of_cons; [exists m; split_and!; [by left|done..]|].
    destruct (H1 x Hx) as (k & ? & ? & ? & ?). exists k. split_and!; [by right|done|set_solver|done].
  - intros k [->|Hk]%elem_of_cons Hkn Hks; [exists c; split; [by left | done]|].
    destruct (decide (k = m)) as [->|Hne]; [exists c; split; [by left | done]|].
    destruct (H2 k Hk Hkn) as (x & ? & ?); [set_solver|]. exists x. split; [by right | done].
  - rewrite fmap_cons. constructor; [|done]. intros (x & Hid & Hx)%list_elem_of_fmap.
    destruct (H1 x Hx) as (k & _ & _ & Hk & Hxk). apply child_ok_id in Hc, Hxk. set_solver.
Qed.

Lemma kids_ok_skip path n depth nexts seen kids m :
  m = n \/ m ∈ seen -> kids_ok path n depth nexts seen kids ->
  kids_ok path n depth (m :: nexts) seen kids.
Proof.
  intros Hm [H1 H2 H3]. split; [| |done].
  - intros x Hx. destruct (H1 x Hx) as (k & ? & ?). exists k. split; [by right | done].
  - intros k [->|Hk]%elem_of_cons Hkn Hks; [naive_solver | by apply H2].
Qed.

Lemma hier_then_ok {A B} (r : option (res CoreError.Error A)) (k : A -> option (res CoreError.Error B)) b :
  hier_then r k = Some (Ok b) -> exists a, r = Some (Ok a) /\ k a = Some (Ok b).
Proof. destruct r as [[a|e|]|]; simpl; naive_solver. Qed.

Lemma hier_kids_ok n depth expand es seen path kids path' :
  (forall m nd e p t p', m ∉ p -> node_at s m = Ok nd ->
     expand m nd e p = Some (Ok (t, p')) -> p' = p /\ hier_ok p m (Datatypes.S depth) t) ->
  hier_kids s d n depth expand es seen path = Some (Ok (kids, path')) ->
  path' = path /\ kids_ok path n (Datatypes.S depth) (next_of d <$> es) seen kids.
Proof.
  intros Hexp. revert seen kids. induction es as [|e es IH]; intros seen kids.
  { simpl. intros [= <- <-]. split; [done|]. split; [set_solver..|constructor]. }
  cbn [hier_kids]. rewrite fmap_cons. case_decide as Hskip.
  { intros Hrun. destruct (IH _ _ Hrun) as [-> Hk]. split; [done|]. by apply kids_ok_skip. }
  apply Decidable.not_or in Hskip as [Hne Hns].
  intros (nd & Hnd & Hrun)%hier_then_ok. injection Hnd as Hnd. case_decide as Hin.
  - apply hier_then_ok in Hrun as ([ks p] & Hks & Hrun). injection Hrun as <- <-.
    destruct (IH _ _ Hks) as [-> Hk]. split; [done|]. apply kids_ok_cons; [done|done| |done].
    left. split; [done|]. by exists e, nd.
  - apply hier_then_ok in Hrun as ([t p] & Ht & Hrun).
    apply hier_then_ok in Hrun as ([ks p2] & Hks & Hrun). injection Hrun as <- <-.
    destruct (Hexp _ _ _ _ _ _ Hin Hnd Ht) as [-> Hgood].
    destruct (IH _ _ Hks) as [-> Hk]. split; [done|]. apply kids_ok_cons; [done|done|by right|done].
Qed.

(** ** Branches of a node from those of its children *)

Lemma branch_nonempty t l x : branch t l x -> l <> [].
Proof. by destruct 1. Qed.

Lemma branch_head t l x : branch t l x -> head l = Some (hier_id t).
Proof. by destruct 1. Qed.

Lemma cyclic_leaf_branch m depth c l x :
  cyclic_leaf m depth c -> branch c l x <-> l = [m] /\ x = c.
Proof.
  intros (e & nd & _ & ->). split.
  - inversion 1 as [|? ? ? ? Hc]; subst; [done|]. by apply elem_of_nil in Hc.
  - intros [-> ->]. apply branch_here.
Qed.

(** The ids below a child, seen from the parent. *)
Lemma child_branch_ids path n m depth c l :
  n ∉ path -> m <> n -> m ∈ adj n -> child_ok ({[n]} ∪ path) m (Datatypes.S depth) c ->
  (depth < max_depth)%nat ->
  (exists x, branch c l x) <-> head l = Some m /\ branch_ids path n depth (n :: l).
Proof.
  intros Hn Hmn Hm Hc Hd. destruct Hc as [[Hin Hc]|[Hin Hc]].
  - setoid_rewrite (cyclic_leaf_branch _ _ _ _ _ Hc). split.
    + intros (x & -> & _). split; [done|]. split_and!; simpl; try done.
      * apply NoDup_singleton.
      * intros k Hk. unfold before_last in Hk. simpl in Hk. set_solver.
      * lia.
    + intros [Hh (_ & Hp & Hnd & Hdis & Hlen)]. exists c. split; [|done].
      destruct l as [|a l]; [done|]. injection Hh as ->. f_equal.
      destruct l as [|b l]; [done|]. exfalso. rewrite before_last_cons in Hdis by done.
      assert (m ∉ path) as Hmp. { apply Hdis. rewrite before_last_cons by done. right. by left. }
      set_solver.
  - rewrite (ho_ids _ _ _ _ Hc). unfold branch_ids. split.
    + intros (Hh & Hp & Hnd & Hdis & Hlen). split; [done|].
      destruct l as [|a l]; [done|]. injection Hh as ->.
      rewrite before_last_cons by done. split_and!; try done.
      * constructor; [|done]. intros Hnb. apply Hdis in Hnb. set_solver.
      * intros k [->|Hk]%elem_of_cons; [done|]. apply Hdis in Hk. set_solver.
      * simpl in *. lia.
    + intros [Hh (_ & Hp & Hnd & Hdis & Hlen)]. destruct l as [|a l]; [done|]. injection Hh as ->.
      rewrite before_last_cons in Hnd, Hdis by done. inversion Hnd; subst. destruct Hp as (_ & _ & Hp).
      split_and!; try done.
      * intros k Hk. assert (k ∉ path) by (apply Hdis; by right). set_solver.
      * simpl in *. lia.
Qed.

Lemma last_cons_nonempty (a : Z) l : l <> [] -> last (a :: l) = last l.
Proof. destruct l; [done|]. by rewrite last_cons_cons. Qed.

Lemma child_branch_node path n m depth c l x :
  m <> n -> child_ok ({[n]} ∪ path) m (Datatypes.S depth) c -> branch c l x ->
  branch_node path depth (n :: l) x.
Proof.
  intros Hmn Hc Hb. pose proof (branch_nonempty _ _ _ Hb) as Hne.
  unfold branch_node. rewrite last_cons_nonempty, before_last_cons by done.
  destruct Hc as [[Hin Hc]|[Hin Hc]].
  - apply (cyclic_leaf_branch _ _ _ _ _ Hc) in Hb as [-> ->]. destruct Hc as (e & nd & Hnd & ->).
    split_and!; try done. simpl. unfold before_last. simpl. set_solver.
  - destruct (ho_node _ _ _ _ Hc l x Hb) as (H1 & H2 & H3 & H4 & H5).
    split_and!; try done.
    + rewrite H2. destruct l; [done|]. simpl. lia.
    + rewrite H4. set_solver.
Qed.

(** The root of a subtree. *)
Lemma root_branch path n depth st tr cs :
  n ∉ path -> TraceStep.node_id st = n -> TraceStep.depth st = depth ->
  node_at s n = Ok (TraceStep.node st) -> tr = (max_depth <=? depth)%nat ->
  branch_node path depth [n] (HNode st false tr cs).
Proof.
  intros Hn Hid Hd Hnode ->. unfold branch_node, hier_id. simpl. rewrite Hid, Hd. split_and!; try done.
  unfold before_last. simpl. split; [done|]. intros [Hx|Hx]; [by apply elem_of_nil in Hx | done].
Qed.

Lemma branch_ids_root path n depth :
  (depth <= max_depth)%nat -> branch_ids path n depth [n].
Proof.
  intros Hd. split_and!; simpl; try done; [constructor| |lia].
  intros m Hm. by apply elem_of_nil in Hm.
Qed.

(** A subtree whose children are right. *)
Lemma hier_ok_node path n depth st kids :
  n ∉ path -> TraceStep.node_id st = n -> TraceStep.depth st = depth ->
  node_at s n = Ok (TraceStep.node st) -> (depth < max_depth)%nat ->
  kids_ok ({[n]} ∪ path) n (Datatypes.S depth) (adj n) ∅ kids ->
  hier_ok path n depth (HNode st false false kids).
Proof.
  intros Hn Hid Hdep Hnode Hd [Ks Kc Kn].
  assert (hier_id (HNode st false false kids) = n) as Hroot by done. split; [done| | |].
  - intros l. split.
    + intros [x Hb]. inversion Hb as [|? c l' ? Hc Hb']; subst; rewrite Hroot.
      { apply branch_ids_root. lia. }
      destruct (Ks c Hc) as (m & Hm & Hmn & _ & Hok). by eapply child_branch_ids; [..|eexists].
    + intros Hl. pose proof Hl as (Hh & Hp & _). destruct l as [|a l]; [done|]. injection Hh as ->.
      destruct l as [|b l].
      { eexists. rewrite <- Hroot at 1. apply branch_here. }
      destruct Hp as (Hb & Hbn & _). destruct (Kc b Hb Hbn) as (c & Hc & Hok); [set_solver|].
      destruct (child_branch_ids path n b depth c (b :: l)) as [_ Hex]; [done..|].
      destruct (Hex (conj eq_refl Hl)) as [x Hx]. exists x. rewrite <- Hroot at 1. by eapply branch_down.
  - intros l x Hb. inversion Hb as [|? c l' ? Hc Hb']; subst; rewrite Hroot.
    + apply root_branch; try done. symmetry. apply Nat.leb_gt. lia.
    + destruct (Ks c Hc) as (m & _ & Hmn & _ & Hok). by eapply child_branch_node.
  - intros l x y Hx Hy.
    inversion Hx as [|? c l' ? Hc Hb]; subst; inversion Hy as [|? c' l'' ? Hc' Hb']; subst.
    + done.
    + by apply branch_nonempty in Hb'.
    + by apply branch_nonempty in Hb.
    + assert (c = c') as <-.
      { pose proof (branch_head _ _ _ Hb) as G1. pose proof (branch_head _ _ _ Hb') as G2.
        assert (hier_id c = hier_id c') as Hcc by congruence. simpl in Hc, Hc'. clear -Kn Hc Hc' Hcc.
        apply list_elem_of_lookup_1 in Hc as [i Hi], Hc' as [j Hj].
        assert (i = j) as <-; [|congruence].
        eapply (NoDup_lookup (hier_id <$> kids)); [done|..]; rewrite list_lookup_fmap;
          [rewrite Hi | rewrite Hj]; simpl; [done | congruence]. }
      destruct (Ks c Hc) as (m & _ & _ & _ & [[_ Hok]|[_ Hok]]).
      * apply (cyclic_leaf_branch _ _ _ _ _ Hok) in Hb, Hb'. naive_solver.
      * by eapply (ho_unique _ _ _ _ Hok).
Qed.

Lemma hier_ok_truncated path n depth st :
  n ∉ path -> TraceStep.node_id st = n -> TraceStep.depth st = depth ->
  node_at s n = Ok (TraceStep.node st) -> depth = max_depth ->
  hier_ok path n depth (HNode st false true []).
Proof.
  intros Hn Hid Hdep Hnode Hd. assert (hier_id (HNode st false true []) = n) as Hroot by done.
  assert (forall l x, branch (HNode st false true []) l x -> l = [n] /\ x = HNode st false true []) as Hinv.
  { intros l x Hb. inversion Hb as [|? c ? ? Hc]; subst; [by rewrite Hroot|]. by apply elem_of_nil in Hc. }
  split; [done| | |].
  - intros l. split.
    + intros [x [-> _]%Hinv]. apply branch_ids_root. lia.
    + intros (Hh & _ & _ & _ & Hlen). destruct l as [|a [|b l]]; [done| |simpl in Hlen; lia].
      injection Hh as ->. eexists. rewrite <- Hroot at 1. apply branch_here.
  - intros l x [-> ->]%Hinv. apply root_branch; try done. symmetry. apply Nat.leb_le. lia.
  - intros l x y [_ ->]%Hinv [_ ->]%Hinv. done.
Qed.

Lemma expand_hierarchy_ok levels n meta inc depth path t path' :
  n ∉ path -> (depth <= max_depth)%nat -> node_at s n = Ok meta ->
  expand_hierarchy levels s n meta inc depth d max_depth path = Some (Ok (t, path')) ->
  path' = path /\ hier_ok path n depth t.
Proof.
  revert n meta inc depth path t path'.
  induction levels as [|levels IH]; intros n meta inc depth path t path' Hn Hd Hnode;
    cbn [expand_hierarchy]; destruct (Nat.leb_spec max_depth depth) as [Hle|Hlt].
  1,3: intros [= <- <-]; split; [done|]; apply hier_ok_truncated; try done; simpl; lia.
  { done. }
  intros (es & Hes & Hrun)%hier_then_ok. injection Hes as Hes.
  apply hier_then_ok in Hrun as ([kids p] & Hk & Hrun). injection Hrun as <- <-.
  eapply hier_kids_ok in Hk as [-> Hkids]; cycle 1.
  { intros m nd e q u q' Hm Hnd Hu. simpl in Hu. apply IH in Hu; [done|done|lia|done]. }
  split; [set_solver|]. apply hier_ok_node; try done.
  replace (adj n) with (next_of d <$> es); [done|]. unfold adj, next_ids. by rewrite Hes.
Qed.

(** ** Termination *)

Lemma hier_kids_total n depth expand es seen path :
  (forall m nd e p, exists r, expand m nd e p = Some r /\ (readable s -> is_ok r = true)) ->
  exists r, hier_kids s d n depth expand es seen path = Some r /\ (readable s -> is_ok r = true).
Proof.
  intros Hexp. revert seen path. induction es as [|e es IH]; intros seen path; cbn [hier_kids]; [eauto|].
  case_decide; [apply IH|]. destruct (node_at s (next_of d e)) as [nd| |] eqn:Hnd; simpl.
  2,3: eexists; split; [done|]; intros [Hr _]; destruct (Hr (next_of d e)); congruence.
  case_decide.
  - destruct (IH ({[next_of d e]} ∪ seen) path) as ([[ks p]| |] & -> & Hok); simpl; eauto.
  - destruct (Hexp (next_of d e) nd e path) as ([[t p]| |] & -> & Hok); simpl; [|by eauto..].
    destruct (IH ({[next_of d e]} ∪ seen) p) as ([[ks q]| |] & -> & Hok'); simpl; eauto.
Qed.

(** The recursion goes one level deeper each time. *)
Lemma expand_hierarchy_total levels n meta inc depth path :
  (max_depth <= depth + levels)%nat ->
  exists r, expand_hierarchy levels s n meta inc depth d max_depth path = Some r /\
    (readable s -> is_ok r = true).
Proof.
  revert n meta inc depth path. induction levels as [|levels IH]; intros n meta inc depth path Hd;
    cbn [expand_hierarchy]; destruct (Nat.leb_spec max_depth depth); [by eauto|lia|by eauto|].
  destruct (edges_at s d n calls TRACE_FANOUT) as [es| |] eqn:Hes; simpl.
  2,3: eexists; split; [done|]; intros [_ Hr]; destruct (Hr d n calls TRACE_FANOUT); congruence.
  match goal with |- context [hier_kids s d n depth ?f es ∅ ?p] =>
    destruct (hier_kids_total n depth f es ∅ p) as ([[ks q]| |] & -> & Hok) end; simpl; [|by eauto..].
  intros m nd e p. apply IH. lia.
Qed.
End HierFacts.
