(* ===== verification/GraphPath.v ===== *)
(** Shortest paths over one edge type (crates/search/src/graph.rs,
    [path_query]), with the proof that the path returned is a shortest one and
    that one is returned whenever there is one within the bound. *)

From S2P Require Import Prelude Loop CoreError GraphStore GraphBfs GraphReach.

Record GraphPath : Type := { path_nodes : list Z; path_rows : list Row.t; path_hops : nat }.

Section PathQuery.
Context {S : Type} `{GraphStore S}.

Definition path_state : Type := gmap Z nat * gmap Z Z * list (Z * nat).

(** The loop over the neighbours of [node_id]: it stops when the goal is seen
    for the first time, with the predecessors known then. *)
Fixpoint path_scan (to_id node_id : Z) (h : nat) (nexts : list Z) (st : path_state)
  : path_state + gmap Z Z :=
  match nexts with
  | [] => inl st
  | next :: nexts =>
      let '(seen_hops, pred, queue) := st in
      match seen_hops !! next with
      | Some _ => path_scan to_id node_id h nexts st
      | None =>
          let seen_hops := <[next := Datatypes.S h]> seen_hops in
          let pred := <[next := node_id]> pred in
          if decide (next = to_id) then inr pred
          else path_scan to_id node_id h nexts (seen_hops, pred, queue ++ [(next, Datatypes.S h)])
      end
  end.

Definition path_turn (s : S) (d : Direction) (ty : string) (to_id : Z) (max_hops : nat)
    (st : path_state) : res CoreError.Error (path_state + option (gmap Z Z)) :=
  let '(seen_hops, pred, queue) := st in
  match queue with
  | [] => Ok (inr None)
  | (node_id, h) :: queue =>
      if (max_hops <=? h)%nat then Ok (inl (seen_hops, pred, queue))
      else
        let? neighbours := edges_at s d node_id (Some ty) REACH_FANOUT in
        match path_scan to_id node_id h (next_of d <$> neighbours) (seen_hops, pred, queue) with
        | inl st => Ok (inl st)
        | inr pred => Ok (inr (Some pred))
        end
  end.

(** The predecessors are walked back to the start; [acc] is the part of the
    path already collected. *)
Fixpoint walk_back (fuel : nat) (pred : gmap Z Z) (from_id cur : Z) (acc : list Z)
  : option (list Z) :=
  match fuel with
  | O => None
  | Datatypes.S fuel =>
      match pred !! cur with
      | None => Some acc
      | Some p => if decide (p = from_id) then Some (p :: acc)
                  else walk_back fuel pred from_id p (p :: acc)
      end
  end.

Definition path_rows_of (s : S) (chain : list Z) : res CoreError.Error (list Row.t) :=
  try_filter_map (fun id => let? o := node_at s id in Ok (node_to_row <$> o)) chain.

Definition path_query (s : S) (from_id to_id : Z) (d : Direction) (ty : string) (max_hops : nat)
  : option (res CoreError.Error (option GraphPath)) :=
  let max_hops := Nat.min max_hops MAX_REACH_HOPS in
  match node_at s from_id with
  | Ok None => Some (Ok None)
  | Ok (Some from_node) =>
      match node_at s to_id with
      | Ok None => Some (Ok None)
      | Ok (Some _) =>
          if decide (from_id = to_id) then
            Some (Ok (Some {| path_nodes := [from_id]; path_rows := [node_to_row from_node]; path_hops := 0 |}))
          else if (max_hops =? 0)%nat then Some (Ok None)
          else
            match while_loop (reach_fuel s) (path_turn s d ty to_id max_hops)
                    ({[from_id := 0%nat]}, ∅, [(from_id, 0%nat)]) with
            | Some (Ok None) => Some (Ok None)
            | Some (Ok (Some pred)) =>
                match walk_back (Datatypes.S (Datatypes.S MAX_REACH_HOPS)) pred from_id to_id [to_id] with
                | Some chain =>
                    Some (let? rows := path_rows_of s chain in
                          Ok (Some {| path_nodes := chain; path_rows := rows;
                                      path_hops := length chain - 1 |}))
                | None => None
                end
            | Some (Err e) => Some (Err e)
            | Some Panic => Some Panic
            | None => None
            end
      | Err e => Some (Err e)
      | Panic => Some Panic
      end
  | Err e => Some (Err e)
  | Panic => Some Panic
  end.
End PathQuery.

(** ** Facts *)

(** [linked adj l]: each id leads to the next. *)
Fixpoint linked (adj : Z -> list Z) (l : list Z) : Prop :=
  match l with
  | [] => True
  | a :: l' => match l' with [] => True | b :: _ => b ∈ adj a /\ linked adj l' end
  end.

Lemma linked_app adj l a b :
  linked adj (l ++ [a]) -> b ∈ adj a -> linked adj ((l ++ [a]) ++ [b]).
Proof.
  induction l as [|x l IH]; simpl; [done|]. destruct (l ++ [a]) as [|y l'] eqn:Hl; [by destruct l|].
  simpl. intros [H1 H2] Hb. split; [done|]. by apply IH.
Qed.

(** A linked list is a walk. *)
Lemma linked_walk adj l a b :
  linked adj l -> head l = Some a -> last l = Some b -> walk adj a b (pred (length l)).
Proof.
  revert a. induction l as [|x l IH]; intros a; simpl; [done|]. intros Hl [= ->].
  destruct l as [|y l]; [intros [= ->]; constructor|]. destruct Hl as [Hy Hl]. intros Hlast.
  eapply walk_head; [exact Hy|]. specialize (IH y Hl eq_refl Hlast). done.
Qed.

Section PathFacts.
Context {S : Type} `{GraphStoreLaws S}.
Context (s : S) (d : Direction) (ty : string) (from_id to_id : Z) (max_hops : nat).
Context (Hne : from_id <> to_id).

Let adj : Z -> list Z := next_ids s d (Some ty) REACH_FANOUT.

(** The predecessor of a node lies one layer nearer. *)
Definition pred_ok (seen : gmap Z nat) (pred : gmap Z Z) : Prop :=
  seen !! from_id = Some 0%nat /\ pred !! from_id = None /\
  forall n k, seen !! n = Some k ->
    match k with
    | O => n = from_id
    | Datatypes.S j => exists p, pred !! n = Some p /\ seen !! p = Some j /\ n ∈ adj p
    end.

Lemma pred_ok_insert seen pred p h n :
  pred_ok seen pred -> seen !! p = Some h -> n ∈ adj p -> seen !! n = None ->
  pred_ok (<[n := Datatypes.S h]> seen) (<[n := p]> pred).
Proof.
  intros (H1 & H2 & H3) Hp Hn Hs. assert (n <> from_id) by (intros ->; congruence).
  split_and!; [by rewrite lookup_insert_ne|by rewrite lookup_insert_ne|].
  intros m k Hm. apply lookup_insert_Some in Hm as [[<- <-]|[Hne' Hm]].
  - exists p. rewrite lookup_insert_eq. split_and!; [done| |done].
    rewrite lookup_insert_ne; [done|]. intros ->. congruence.
  - specialize (H3 m k Hm). destruct k as [|j]; [done|]. destruct H3 as (q & Hq & Hqs & Hqm).
    exists q. rewrite lookup_insert_ne by done. split_and!; [done| |done].
    rewrite lookup_insert_ne; [done|]. intros ->. congruence.
Qed.

Lemma path_scan_spec n h nexts seen pred q :
  (forall x, x ∈ nexts -> x ∈ adj n) -> seen !! n = Some h -> pred_ok seen pred ->
  seen !! to_id = None ->
  match path_scan to_id n h nexts (seen, pred, q) with
  | inl (seen', pred', q') => foldl (discover h) (seen, q) nexts = (seen', q') /\
      pred_ok seen' pred' /\ seen' !! to_id = None
  | inr pred' => to_id ∈ nexts /\ exists seen', pred_ok seen' pred' /\ seen' !! to_id = Some (Datatypes.S h)
  end.
Proof.
  revert seen pred q. induction nexts as [|x nexts IH]; intros seen pred q Hadj Hn Hok Hto.
  { done. }
  cbn [path_scan foldl]. destruct (seen !! x) as [k|] eqn:Hx.
  - rewrite discover_old by eauto.
    specialize (IH seen pred q ltac:(intros y Hy; apply Hadj; by right) Hn Hok Hto).
    destruct (path_scan _ _ _ _ _) as [[[? ?] ?]|?]; [done|]. destruct IH as [? ?]. split; [by right | done].
  - rewrite discover_new by done.
    assert (pred_ok (<[x := Datatypes.S h]> seen) (<[x := n]> pred)) as Hok'.
    { apply pred_ok_insert; try done. apply Hadj. by left. }
    case_decide as Hxt.
    + subst x. split; [by left|]. eexists. split; [exact Hok'|]. by rewrite lookup_insert_eq.
    + specialize (IH (<[x := Datatypes.S h]> seen) (<[x := n]> pred) (q ++ [(x, Datatypes.S h)])).
      destruct (path_scan _ _ _ _ _) as [[[? ?] ?]|?].
      * apply IH; try done; [intros y Hy; apply Hadj; by right| |by rewrite lookup_insert_ne].
        rewrite lookup_insert_ne; [done|]. intros ->. congruence.
      * destruct IH as [? ?]; try done; [intros y Hy; apply Hadj; by right| |by rewrite lookup_insert_ne|].
        { rewrite lookup_insert_ne; [done|]. intros ->. congruence. }
        split; [by right | done].
Qed.

(** Walking back gives a linked path of the right length. *)
Lemma walk_back_spec seen pred k : pred_ok seen pred ->
  forall fuel cur acc, seen !! cur = Some k -> (k < fuel)%nat ->
  exists l, walk_back fuel pred from_id cur acc = Some (l ++ acc) /\ length l = k /\
    linked adj (l ++ [cur]) /\ head (l ++ [cur]) = Some from_id.
Proof.
  intros (Hfrom & Hpf & Hpred). induction k as [|k IH]; intros fuel cur acc Hcur Hfuel;
    (destruct fuel as [|fuel]; [lia|]); simpl; specialize (Hpred _ _ Hcur) as Hp.
  - simpl in Hp. subst cur. rewrite Hpf. by exists [].
  - destruct Hp as (p & -> & Hps & Hpa). case_decide as Hpf'.
    + subst p. assert (k = 0%nat) as -> by congruence. exists [from_id]. done.
    + destruct (IH fuel p (p :: acc) Hps ltac:(lia)) as (l & -> & Hl & Hlk & Hh).
      exists (l ++ [p]). rewrite <- app_assoc. split; [done|]. rewrite length_app. simpl.
      split_and!; [lia|by apply linked_app|]. destruct l; done.
Qed.

Definition path_result (r : res CoreError.Error (option (gmap Z Z))) : Prop :=
  (readable s -> is_ok r = true) /\
  match r with
  | Ok None => forall k, walk adj from_id to_id k -> (max_hops < k)%nat
  | Ok (Some pred) => exists seen k, pred_ok seen pred /\ seen !! to_id = Some k /\
      dist adj from_id to_id k /\ (k <= max_hops)%nat
  | _ => True
  end.

Lemma path_loop :
  exists r, while_loop (reach_fuel s) (path_turn s d ty to_id max_hops)
    ({[from_id := 0%nat]}, ∅, [(from_id, 0%nat)]) = Some r /\ path_result r.
Proof.
  set (I := fun st : path_state => let '(seen, pred, q) := st in
    push_inv adj from_id max_hops seen q /\ within from_id (endpoints s) seen /\
    pred_ok seen pred /\ seen !! to_id = None).
  apply (while_total I (fun st : path_state => push_measure (endpoints s) st.1.1 st.2) path_result).
  - intros [[seen pred] q] (HI & HW & Hok & Hto). simpl. destruct q as [|[n h] q]; simpl.
    { split; [done|]. intros k Hk. destruct (walk_dist _ _ _ _ Hk) as (j & Hj & Hd).
      destruct (le_lt_dec j max_hops) as [Hle|]; [|lia]. exfalso.
      assert (seen !! to_id = Some j) as Hs by (apply (push_inv_final _ _ _ _ HI); done). congruence. }
    destruct (Nat.leb_spec max_hops h) as [Hh|Hh].
    { split; [|apply pop_measure]. split_and!; try done. by eapply push_inv_pop. }
    destruct (edges_at s d n (Some ty) REACH_FANOUT) as [es| |] eqn:Hes; simpl.
    2,3: split; [|done]; intros [_ Hr]; destruct (Hr d n (Some ty) REACH_FANOUT); congruence.
    assert (adj n = next_of d <$> es) as Hadj by (unfold adj, next_ids; by rewrite Hes).
    assert (seen !! n = Some h) as Hn by (apply (pi_queue _ _ _ _ _ HI); left).
    pose proof (path_scan_spec n h (next_of d <$> es) seen pred q) as Hscan.
    destruct (path_scan to_id n h (next_of d <$> es) (seen, pred, q)) as [[[seen' pred'] q']|pred'].
    + destruct Hscan as (Hf & Hok' & Hto'); try done; [intros x; by rewrite Hadj|].
      destruct (discover_measure from_id (endpoints s) seen n h q (next_of d <$> es) seen' q' HW)
        as [HW' Hm]; [|done|].
      { intros m (e & -> & He)%list_elem_of_fmap. by eapply edges_at_next. }
      split; [split_and!; try done|exact Hm]. eapply push_inv_expand; [exact HI|done| |exact Hf].
      intros x. by rewrite Hadj.
    + destruct Hscan as (Hin & seen' & Hok' & Hs'); try done; [intros x; by rewrite Hadj|].
      split; [done|]. exists seen', (Datatypes.S h). split_and!; try done. split.
      * eapply walk_snoc; [|by rewrite Hadj]. by apply (pi_dist _ _ _ _ _ HI) in Hn as [[? _] _].
      * intros j Hj. destruct (le_lt_dec (Datatypes.S h) j) as [|Hlt]; [done|].
        destruct (push_inv_below _ _ _ _ _ _ _ _ _ HI Hj) as [? ?]; [lia | congruence].
  - split_and!.
    + apply push_inv_init.
    + apply within_init.
    + split_and!; [by rewrite lookup_singleton_eq|done|]. intros n k Hn.
      by apply lookup_singleton_Some in Hn as [-> <-].
    + by rewrite lookup_singleton_ne.
  - unfold push_measure, reach_fuel. simpl. rewrite map_size_singleton. lia.
Qed.
End PathFacts.
