(* ===== verification/GraphSearch.v ===== *)
(** The structured search over the tables (crates/search/src/graph.rs):
    [GraphQuery], [search_graph], [count_search_graph], the lookups by file
    built on them, and the degree rankings.

    [node_table] and [edge_table] are what [SELECT .. FROM nodes] and
    [.. FROM edges] see: the tables of a single store, the composed views of
    an overlay. *)

From Stdlib Require Import Ascii.
From S2P Require Import Prelude Loop CoreError RustStr GraphStore GraphReach GraphDb GraphDbFacts.

Class GraphTables (S : Type) := {
  node_table : S -> res StoreError.Error (list Node.t);
  edge_table : S -> res StoreError.Error (list Edge.t)
}.

Definition DEFAULT_LIMIT : nat := Z.to_nat 10000.
#[global] Arguments DEFAULT_LIMIT : simpl never.

Inductive GraphOrder : Type := QualifiedName | Name | File | OutDegreeDesc | InDegreeDesc.

Record GraphQuery : Type := {
  q_project : option string;
  q_label : option string;
  q_name : option string;
  q_qname_contains : option string;
  q_qname_exact : option string;
  q_file_path_contains : option string;
  q_name_contains : option string;
  q_name_prefix : option string;
  q_file_path_prefix : option string;
  q_file_path_exact : option string;
  q_has_outgoing_edge : option string;
  q_has_incoming_edge : option string;
  q_order_by : GraphOrder;
  q_order_edge_type : option string;
  q_limit : nat
}.

(** [GraphQuery::default] and [GraphQuery::any]. *)
Definition any_query : GraphQuery :=
  {| q_project := None; q_label := None; q_name := None; q_qname_contains := None;
     q_qname_exact := None; q_file_path_contains := None; q_name_contains := None;
     q_name_prefix := None; q_file_path_prefix := None; q_file_path_exact := None;
     q_has_outgoing_edge := None; q_has_incoming_edge := None; q_order_by := QualifiedName;
     q_order_edge_type := None; q_limit := DEFAULT_LIMIT |}.

Definition with_project (p : string) (q : GraphQuery) : GraphQuery :=
  {| q_project := Some p; q_label := q_label q; q_name := q_name q;
     q_qname_contains := q_qname_contains q; q_qname_exact := q_qname_exact q;
     q_file_path_contains := q_file_path_contains q; q_name_contains := q_name_contains q;
     q_name_prefix := q_name_prefix q; q_file_path_prefix := q_file_path_prefix q;
     q_file_path_exact := q_file_path_exact q; q_has_outgoing_edge := q_has_outgoing_edge q;
     q_has_incoming_edge := q_has_incoming_edge q; q_order_by := q_order_by q;
     q_order_edge_type := q_order_edge_type q; q_limit := q_limit q |}.
Definition with_label (l : string) (q : GraphQuery) : GraphQuery :=
  {| q_project := q_project q; q_label := Some l; q_name := q_name q;
     q_qname_contains := q_qname_contains q; q_qname_exact := q_qname_exact q;
     q_file_path_contains := q_file_path_contains q; q_name_contains := q_name_contains q;
     q_name_prefix := q_name_prefix q; q_file_path_prefix := q_file_path_prefix q;
     q_file_path_exact := q_file_path_exact q; q_has_outgoing_edge := q_has_outgoing_edge q;
     q_has_incoming_edge := q_has_incoming_edge q; q_order_by := q_order_by q;
     q_order_edge_type := q_order_edge_type q; q_limit := q_limit q |}.
Definition with_file (exact contains : option string) (q : GraphQuery) : GraphQuery :=
  {| q_project := q_project q; q_label := q_label q; q_name := q_name q;
     q_qname_contains := q_qname_contains q; q_qname_exact := q_qname_exact q;
     q_file_path_contains := contains; q_name_contains := q_name_contains q;
     q_name_prefix := q_name_prefix q; q_file_path_prefix := q_file_path_prefix q;
     q_file_path_exact := exact; q_has_outgoing_edge := q_has_outgoing_edge q;
     q_has_incoming_edge := q_has_incoming_edge q; q_order_by := q_order_by q;
     q_order_edge_type := q_order_edge_type q; q_limit := q_limit q |}.
Definition with_order (o : GraphOrder) (limit : nat) (q : GraphQuery) : GraphQuery :=
  {| q_project := q_project q; q_label := q_label q; q_name := q_name q;
     q_qname_contains := q_qname_contains q; q_qname_exact := q_qname_exact q;
     q_file_path_contains := q_file_path_contains q; q_name_contains := q_name_contains q;
     q_name_prefix := q_name_prefix q; q_file_path_prefix := q_file_path_prefix q;
     q_file_path_exact := q_file_path_exact q; q_has_outgoing_edge := q_has_outgoing_edge q;
     q_has_incoming_edge := q_has_incoming_edge q; q_order_by := o;
     q_order_edge_type := q_order_edge_type q; q_limit := limit |}.

(** [if let Some(p) = project { q = q.with_project(p) }]. *)
Definition in_scope (project : option string) (q : GraphQuery) : GraphQuery :=
  match project with Some p => with_project p q | None => q end.

(** [like_escape]: the wildcards and the escape character lose their meaning. *)
Fixpoint like_escape (s : string) : string :=
  match s with
  | EmptyString => EmptyString
  | String ch s =>
      if Ascii.eqb ch backslash || Ascii.eqb ch "%"%char || Ascii.eqb ch "_"%char
      then String backslash (String ch (like_escape s))
      else String ch (like_escape s)
  end.

(** [col LIKE '%' || s || '%' ESCAPE '\'] and [col LIKE s || '%' ESCAPE '\']. *)
Definition like_contains (s col : string) : bool :=
  like (String "%"%char (like_escape s +:+ "%")) col.
Definition like_prefix (s col : string) : bool := like (like_escape s +:+ "%") col.

Definition opt_filter {A} (o : option A) (p : A -> bool) : bool :=
  match o with Some a => p a | None => true end.

(** [append_graph_filters]: the [WHERE] clause. *)
Definition graph_filter (q : GraphQuery) (es : list Edge.t) (n : Node.t) : bool :=
  opt_filter (q_project q) (fun p => bool_decide (Node.project n = p)) &&
  opt_filter (q_label q) (fun l => bool_decide (Node.label n = l)) &&
  opt_filter (q_name q) (fun x => bool_decide (Node.name n = x)) &&
  opt_filter (q_qname_contains q) (fun x => like_contains x (Node.qualified_name n)) &&
  opt_filter (q_qname_exact q) (fun x => bool_decide (Node.qualified_name n = x)) &&
  opt_filter (q_file_path_contains q) (fun x => like_contains x (Node.file_path n)) &&
  opt_filter (q_name_contains q) (fun x => like_contains x (Node.name n)) &&
  opt_filter (q_name_prefix q) (fun x => like_prefix x (Node.name n)) &&
  opt_filter (q_file_path_prefix q) (fun x => like_prefix x (Node.file_path n)) &&
  opt_filter (q_file_path_exact q) (fun x => bool_decide (Node.file_path n = x)) &&
  opt_filter (q_has_outgoing_edge q) (fun t => bool_decide
    (Exists (fun e => Edge.source_id e = Node.id n /\ Edge.edge_type e = t) es)) &&
  opt_filter (q_has_incoming_edge q) (fun t => bool_decide
    (Exists (fun e => Edge.target_id e = Node.id n /\ Edge.edge_type e = t) es)).

Definition needs_edges (q : GraphQuery) : bool :=
  match q_has_outgoing_edge q, q_has_incoming_edge q with None, None => false | _, _ => true end.

Definition row_by_qname : Row.t -> Row.t -> comparison :=
  then_with (cmp_on Row.qualified_name String.compare) (cmp_on Row.id Z.compare).
Definition row_by_name : Row.t -> Row.t -> comparison :=
  then_with (cmp_on Row.name String.compare) row_by_qname.
Definition row_by_file : Row.t -> Row.t -> comparison :=
  then_with (cmp_on Row.file_path String.compare)
    (then_with (cmp_on Row.start_line Z.compare) (cmp_on Row.id Z.compare)).

(** [(degree desc, qualified_name asc, id asc)]. *)
Definition by_degree : nat * Row.t -> nat * Row.t -> comparison :=
  then_with (cmp_desc (cmp_on fst Nat.compare)) (cmp_on snd row_by_qname).

Record DegreeRanked : Type := { rank_degree : nat; rank_node : Row.t }.
Inductive DegreeKind : Type := Out | In | Total.

Section Search.
Context {S : Type} `{GraphStore S} `{GraphTables S}.
Implicit Types s : S.

(** The rows that satisfy the filters. *)
Definition candidates (s : S) (q : GraphQuery) : res CoreError.Error (list Row.t) :=
  let? ns := from_store (node_table s) in
  let? es := if needs_edges q then from_store (edge_table s) else Ok [] in
  Ok (node_to_row <$> filter (fun n => graph_filter q es n = true) ns).

Definition ranked (s : S) (d : Direction) (ty : option string) (rows : list Row.t)
  : res CoreError.Error (list (nat * Row.t)) :=
  try_filter_map (fun row =>
    let? es := edges_at s d (Row.id row) ty MAX_REACH_RESULTS in
    Ok (Some (length es, row))) rows.

Definition search_graph (s : S) (q : GraphQuery) : res CoreError.Error (list Row.t) :=
  let? rows := candidates s q in
  match q_order_by q with
  | QualifiedName => Ok (take (q_limit q) (sort_by row_by_qname rows))
  | Name => Ok (take (q_limit q) (sort_by row_by_name rows))
  | File => Ok (take (q_limit q) (sort_by row_by_file rows))
  | OutDegreeDesc =>
      let? keyed := ranked s Outgoing (q_order_edge_type q) (sort_by row_by_qname rows) in
      Ok (snd <$> take (q_limit q) (sort_by by_degree keyed))
  | InDegreeDesc =>
      let? keyed := ranked s Incoming (q_order_edge_type q) (sort_by row_by_qname rows) in
      Ok (snd <$> take (q_limit q) (sort_by by_degree keyed))
  end.

Definition count_search_graph (s : S) (q : GraphQuery) : res CoreError.Error nat :=
  let? rows := candidates s q in Ok (length rows).

Definition find_by_label_and_file (s : S) (project : option string) (label file : string)
    (exact_file : bool) (limit : nat) : res CoreError.Error (list Row.t) :=
  let q := in_scope project (with_order File limit (with_label label any_query)) in
  search_graph s (if exact_file then with_file (Some file) None q else with_file None (Some file) q).

(** [(start_line asc, end_line desc, qualified_name asc, id asc)]. *)
Definition by_source : Row.t -> Row.t -> comparison :=
  then_with (cmp_on Row.start_line Z.compare)
    (then_with (cmp_desc (cmp_on Row.end_line Z.compare)) row_by_qname).

Definition symbols_in_file (s : S) (project : option string) (file : string) (limit : nat)
  : res CoreError.Error (list Row.t) :=
  let q := in_scope project (with_order File DEFAULT_LIMIT any_query) in
  let? rows := search_graph s (with_file (Some file) None q) in
  Ok (take limit (sort_by by_source rows)).

(** Innermost first: [(start_line desc, end_line asc, qualified_name, id)]. *)
Definition by_innermost : Row.t -> Row.t -> comparison :=
  then_with (cmp_desc (cmp_on Row.start_line Z.compare))
    (then_with (cmp_on Row.end_line Z.compare) row_by_qname).

(** [Iterator::min_by]: the first of the least elements. *)
Fixpoint min_by {A} (cmp : A -> A -> comparison) (l : list A) : option A :=
  match l with
  | [] => None
  | a :: l => match min_by cmp l with
              | None => Some a
              | Some b => match cmp a b with Gt => Some b | _ => Some a end
              end
  end.

Definition definition_at (s : S) (project : option string) (file : string) (line : Z)
  : res CoreError.Error (option Row.t) :=
  let? rows := symbols_in_file s project file DEFAULT_LIMIT in
  Ok (min_by by_innermost
    (filter (fun r => Row.start_line r <= line /\ line <= Row.end_line r) rows)).

Definition degree_at (s : S) (d : Direction) (counted : bool) (ty : option string) (n : Z)
  : res CoreError.Error nat :=
  if counted then let? es := edges_at s d n ty MAX_REACH_RESULTS in Ok (length es) else Ok 0%nat.

Definition by_rank : DegreeRanked -> DegreeRanked -> comparison :=
  then_with (cmp_desc (cmp_on rank_degree Nat.compare)) (cmp_on rank_node row_by_qname).

Definition most_connected (s : S) (project : option string) (ty : option string)
    (kind : DegreeKind) (n : nat) : res CoreError.Error (list DegreeRanked) :=
  if (n =? 0)%nat then Ok []
  else
    let? rows := search_graph s (in_scope project any_query) in
    let? r := try_filter_map (fun row =>
      let? o := degree_at s Outgoing (match kind with In => false | _ => true end) ty (Row.id row) in
      let? i := degree_at s Incoming (match kind with Out => false | _ => true end) ty (Row.id row) in
      Ok (Some {| rank_degree := (o + i)%nat; rank_node := row |})) rows in
    Ok (take n (sort_by by_rank r)).

(** [fan_degree] and [count_fan_degree]: the nodes of [project] with an edge
    of the type at the end [d] leads to ([target_id] for fan-in), and how many
    of them, one group per node. *)
Definition fan_groups (s : S) (project ty : string) (d : Direction)
  : res CoreError.Error (list DegreeRanked) :=
  let? es := from_store (edge_table s) in
  let? ns := from_store (node_table s) in
  Ok (omap (fun n =>
        let k := length (filter (fun e => Edge.project e = project /\ Edge.edge_type e = ty /\
                   next_of d e = Node.id n /\ Node.project n = Edge.project e) es) in
        if decide (k = 0%nat) then None
        else Some {| rank_degree := k; rank_node := node_to_row n |}) ns).

Definition fan_degree (s : S) (project ty : string) (d : Direction) (limit : nat)
  : res CoreError.Error (list DegreeRanked) :=
  if (limit =? 0)%nat then Ok []
  else
    let? groups := fan_groups s project ty d in
    Ok (take (Nat.min limit MAX_REACH_RESULTS) (sort_by by_rank groups)).

Definition count_fan_degree (s : S) (project ty : string) (d : Direction)
  : res CoreError.Error nat :=
  let? groups := fan_groups s project ty d in Ok (length groups).

Definition fan_in (s : S) (project ty : string) (limit : nat) := fan_degree s project ty Outgoing limit.
Definition fan_out (s : S) (project ty : string) (limit : nat) := fan_degree s project ty Incoming limit.
Definition count_fan_in (s : S) (project ty : string) := count_fan_degree s project ty Outgoing.
Definition count_fan_out (s : S) (project ty : string) := count_fan_degree s project ty Incoming.
End Search.

(** Facts about the structured search: its orders are total preorders, the
    LIKE patterns it binds match substrings and prefixes, and the search on
    the tables of a single store. *)


#[export] Instance Db_tables : GraphTables Db := {
  node_table s := Ok (table row_of (nodes s));
  edge_table s := Ok (table edge_row (edges s))
}.

(** ** Orders *)

#[export] Instance row_by_qname_total : Comparator row_by_qname.
Proof. unfold row_by_qname. apply _. Qed.
#[export] Instance row_by_name_total : Comparator row_by_name.
Proof. unfold row_by_name. apply _. Qed.
#[export] Instance row_by_file_total : Comparator row_by_file.
Proof. unfold row_by_file. apply _. Qed.
#[export] Instance by_degree_total : Comparator by_degree.
Proof. unfold by_degree. apply _. Qed.
#[export] Instance by_source_total : Comparator by_source.
Proof. unfold by_source. apply _. Qed.
#[export] Instance by_innermost_total : Comparator by_innermost.
Proof. unfold by_innermost. apply _. Qed.
#[export] Instance by_rank_total : Comparator by_rank.
Proof. unfold by_rank. apply _. Qed.

(** ** Patterns *)

Lemma like_escape_eq s : like_escape s = escape_like s.
Proof.
  induction s as [|c s IH]; [done|]. rewrite escape_like_cons. simpl. unfold escape_char.
  destruct (Ascii.eqb c backslash || _ || _); by rewrite IH.
Qed.

Lemma like_star pat t :
  like (String "%"%char pat) t = true <-> exists a b, t = a +:+ b /\ like pat b = true.
Proof.
  induction t as [|c t IH].
  - change (like (String "%"%char pat) "") with (like pat "" || false). rewrite orb_false_r. split.
    + intros Hl. by exists "", "".
    + intros (a & b & Heq & Hl). symmetry in Heq. by apply app_string_empty in Heq as [_ ->].
  - change (like (String "%"%char pat) (String c t))
      with (like pat (String c t) || like (String "%"%char pat) t).
    rewrite orb_true_iff, IH. split.
    + intros [Hl|(a & b & -> & Hl)]; [by exists "", (String c t) | by exists (String c a), b].
    + intros ([|x a] & b & Heq & Hl); simpl in Heq; [left; by subst b|].
      injection Heq as <- ->. right. by exists a, b.
Qed.

(** Equal up to the case of ASCII letters. *)
Definition same_letters (a b : string) : Prop := to_ascii_lowercase a = to_ascii_lowercase b.

Lemma like_prefix_spec x col :
  like_prefix x col = true <-> exists p r, col = p +:+ r /\ same_letters p x.
Proof. unfold like_prefix. rewrite like_escape_eq. apply like_escape_prefix. Qed.

Lemma like_contains_spec x col :
  like_contains x col = true <-> exists a p r, col = a +:+ p +:+ r /\ same_letters p x.
Proof.
  unfold like_contains. rewrite like_escape_eq, like_star. setoid_rewrite like_escape_prefix. split.
  - intros (a & b & -> & p & r & -> & Hp). by exists a, p, r.
  - intros (a & p & r & -> & Hp). exists a, (p +:+ r). split; [done|]. by exists p, r.
Qed.

(** ** The filters as a proposition *)

Definition if_given {A} (o : option A) (P : A -> Prop) : Prop := forall a, o = Some a -> P a.

Lemma opt_filter_spec {A} (o : option A) (p : A -> bool) (P : A -> Prop) :
  (forall a, p a = true <-> P a) -> opt_filter o p = true <-> if_given o P.
Proof.
  intros Hp. unfold opt_filter, if_given. destruct o as [a|]; [|done].
  rewrite Hp. split; [by intros ? ? [= <-] | auto].
Qed.

Record matches (q : GraphQuery) (es : list Edge.t) (n : Node.t) : Prop := {
  m_project : if_given (q_project q) (fun x => Node.project n = x);
  m_label : if_given (q_label q) (fun x => Node.label n = x);
  m_name : if_given (q_name q) (fun x => Node.name n = x);
  m_qname_contains : if_given (q_qname_contains q) (fun x =>
    exists a p r, Node.qualified_name n = a +:+ p +:+ r /\ same_letters p x);
  m_qname_exact : if_given (q_qname_exact q) (fun x => Node.qualified_name n = x);
  m_file_contains : if_given (q_file_path_contains q) (fun x =>
    exists a p r, Node.file_path n = a +:+ p +:+ r /\ same_letters p x);
  m_name_contains : if_given (q_name_contains q) (fun x =>
    exists a p r, Node.name n = a +:+ p +:+ r /\ same_letters p x);
  m_name_prefix : if_given (q_name_prefix q) (fun x =>
    exists p r, Node.name n = p +:+ r /\ same_letters p x);
  m_file_prefix : if_given (q_file_path_prefix q) (fun x =>
    exists p r, Node.file_path n = p +:+ r /\ same_letters p x);
  m_file_exact : if_given (q_file_path_exact q) (fun x => Node.file_path n = x);
  m_outgoing : if_given (q_has_outgoing_edge q) (fun t =>
    exists e, e ∈ es /\ Edge.source_id e = Node.id n /\ Edge.edge_type e = t);
  m_incoming : if_given (q_has_incoming_edge q) (fun t =>
    exists e, e ∈ es /\ Edge.target_id e = Node.id n /\ Edge.edge_type e = t)
}.

Lemma exists_edge (P : Edge.t -> Prop) `{!forall e, Decision (P e)} es :
  bool_decide (Exists P es) = true <-> exists e, e ∈ es /\ P e.
Proof. by rewrite bool_decide_eq_true, Exists_exists. Qed.

Lemma graph_filter_spec q es n : graph_filter q es n = true <-> matches q es n.
Proof.
  unfold graph_filter. rewrite !andb_true_iff.
  rewrite !(opt_filter_spec _ (fun x => bool_decide (_ = x)) (fun x => _ = x))
    by (intros; apply bool_decide_eq_true).
  rewrite !(opt_filter_spec _ (fun x => like_contains x _) _ (fun x => like_contains_spec x _)).
  rewrite !(opt_filter_spec _ (fun x => like_prefix x _) _ (fun x => like_prefix_spec x _)).
  rewrite !(opt_filter_spec _ (fun t => bool_decide (Exists _ es)) _ (fun t => exists_edge _ es)).
  split; [intros; split; tauto | intros []; tauto].
Qed.

(** ** The search *)

Section Search.
Context {S : Type} `{GraphStore S} `{GraphTables S}.
Implicit Types s : S.

(** The comparison of the rows that an order stands for; the degree orders
    compare the lists of edges the store returns. *)
Definition degree_of (s : S) (d : Direction) (ty : option string) (r : Row.t) : nat :=
  match edges_at s d (Row.id r) ty MAX_REACH_RESULTS with Ok es => length es | _ => 0 end.

Definition row_order (s : S) (q : GraphQuery) : Row.t -> Row.t -> comparison :=
  match q_order_by q with
  | QualifiedName => row_by_qname
  | Name => row_by_name
  | File => row_by_file
  | OutDegreeDesc => cmp_on (fun r => (degree_of s Outgoing (q_order_edge_type q) r, r)) by_degree
  | InDegreeDesc => cmp_on (fun r => (degree_of s Incoming (q_order_edge_type q) r, r)) by_degree
  end.

#[export] Instance row_order_total s q : Comparator (row_order s q).
Proof. unfold row_order. destruct (q_order_by q); apply _. Qed.

Lemma ranked_total s d ty rows : readable s ->
  ranked s d ty rows = Ok ((fun r => (degree_of s d ty r, r)) <$> rows).
Proof.
  intros [_ Hr]. unfold ranked. induction rows as [|r rows IH]; [done|]. cbn [try_filter_map].
  unfold degree_of. destruct (Hr d (Row.id r) ty MAX_REACH_RESULTS) as [es Hes]. rewrite Hes.
  cbn [res_bind]. rewrite IH. simpl. by rewrite Hes.
Qed.

(** Sorting pairs by a key that the second component determines. *)
Lemma sorted_keyed (key : Row.t -> nat) rows :
  StronglySorted (fun a b => by_degree a b <> Gt) (sort_by by_degree ((fun r => (key r, r)) <$> rows)) /\
  exists l, sort_by by_degree ((fun r => (key r, r)) <$> rows) = (fun r => (key r, r)) <$> l.
Proof.
  split; [apply sort_by_sorted, _|].
  assert (forall x, x ∈ sort_by by_degree ((fun r => (key r, r)) <$> rows) -> x.1 = key x.2) as Hk.
  { intros x. rewrite (elem_of_sort_by by_degree), list_elem_of_fmap. by intros (r & -> & _). }
  induction (sort_by _ _) as [|[k r] l IH]; [by exists []|].
  destruct IH as [l' ->]; [intros x Hx; apply Hk; by right|].
  exists (r :: l'). rewrite fmap_cons. f_equal. pose proof (Hk (k, r) ltac:(left)) as Hkr.
  simpl in Hkr. by rewrite Hkr.
Qed.

Lemma search_graph_ranked s d q rows : readable s ->
  exists l, l ≡ₚ rows /\
    (let? keyed := ranked s d (q_order_edge_type q) (sort_by row_by_qname rows) in
     Ok (snd <$> take (q_limit q) (sort_by by_degree keyed))) = Ok (take (q_limit q) l) /\
    StronglySorted (fun a b =>
      cmp_on (fun r => (degree_of s d (q_order_edge_type q) r, r)) by_degree a b <> Gt) l.
Proof.
  intros Hr. rewrite ranked_total by done. cbn [res_bind].
  set (key := degree_of s d (q_order_edge_type q)).
  destruct (sorted_keyed key (sort_by row_by_qname rows)) as [Hs [l Hl]]. exists l. rewrite Hl in Hs |- *.
  assert (snd <$> ((fun r => (key r, r)) <$> l) = l) as Hsnd
    by (rewrite <- list_fmap_compose; apply list_fmap_id).
  split_and!.
  - rewrite <- Hsnd, <- Hl, (sort_by_Permutation by_degree), <- list_fmap_compose.
    etrans; [apply reflexive_eq, list_fmap_id|]. apply (sort_by_Permutation row_by_qname).
  - by rewrite fmap_take, Hsnd.
  - clear -Hs. induction l as [|r l IH]; [constructor|]. inversion Hs as [|? ? Hs' Hf]; subst.
    constructor; [by apply IH|]. by rewrite Forall_fmap in Hf.
Qed.

Lemma search_graph_run s q rows : readable s -> candidates s q = Ok rows ->
  exists full, search_graph s q = Ok (take (q_limit q) full) /\ full ≡ₚ rows /\
    StronglySorted (fun a b => row_order s q a b <> Gt) full.
Proof.
  intros Hr Hc. unfold search_graph, row_order. rewrite Hc. cbn [res_bind].
  destruct (q_order_by q).
  1,2,3: eexists; split; [done|]; split; [apply sort_by_Permutation | apply sort_by_sorted, _].
  - destruct (search_graph_ranked s Outgoing q rows Hr) as (l & ? & -> & ?). by exists l.
  - destruct (search_graph_ranked s Incoming q rows Hr) as (l & ? & -> & ?). by exists l.
Qed.
End Search.

(** ** On the tables of a single store *)

(** A filter that names no edge type does not look at the edges. *)
Lemma graph_filter_edges q es n :
  needs_edges q = false -> graph_filter q es n = graph_filter q [] n.
Proof.
  unfold needs_edges, graph_filter.
  by destruct (q_has_outgoing_edge q), (q_has_incoming_edge q).
Qed.

Definition found (s : Db) (q : GraphQuery) (row : Row.t) : Prop :=
  exists i n, nodes s !! i = Some n /\ row = node_to_row (row_of i n) /\
    matches q (table edge_row (edges s)) (row_of i n).

Lemma candidates_db (s : Db) q :
  exists rows, candidates s q = Ok rows /\ NoDup (Row.id <$> rows) /\
    forall row, row ∈ rows <-> found s q row.
Proof.
  set (es := table edge_row (edges s)).
  exists (node_to_row <$> filter (fun n => graph_filter q es n = true) (table row_of (nodes s))).
  split_and!.
  - unfold candidates. simpl. destruct (needs_edges q) eqn:Hq; simpl; [done|]. f_equal. f_equal.
    apply list_filter_iff. intros n. by rewrite (graph_filter_edges q es n Hq).
  - rewrite <- list_fmap_compose.
    assert (StronglySorted (fun x y => Node.id x < Node.id y)%Z
      (filter (fun n => graph_filter q es n = true) (table row_of (nodes s)))) as Hs
      by (by apply sorted_filter, table_sorted).
    induction Hs as [|n l Hs IH Hf]; [constructor|]. rewrite fmap_cons. constructor; [|done].
    rewrite Forall_forall in Hf. intros (m & Heq & Hm)%list_elem_of_fmap.
    specialize (Hf m Hm). simpl in Heq. lia.
  - intros row. rewrite list_elem_of_fmap. unfold found. split.
    + intros (nd & -> & [Hf (i & n & Hn & ->)%elem_of_table]%list_elem_of_filter).
      exists i, n. split_and!; [done|done|]. by apply graph_filter_spec.
    + intros (i & n & Hn & -> & Hm). exists (row_of i n). split; [done|].
      rewrite list_elem_of_filter, graph_filter_spec, elem_of_table. eauto.
Qed.
