(* ===== verification/GraphCycles.v ===== *)
(** Cycles over [CALLS] edges (crates/search/src/graph.rs, [cycles] and
    [dfs_cycles]), with the proof that the search finds every simple cycle up
    to the length bound, once, from its smallest member. *)

From S2P Require Import Prelude Loop CoreError GraphStore GraphReach GraphSearch GraphPath.

Definition MAX_CYCLE_LEN : nat := 16.

(** The loop over the targets of the last node of [path]; [deeper] is the
    recursive call on the extended path.  [path] and [on_path] are pushed
    before the call and popped after it. *)
Fixpoint dfs_targets (deeper : Z -> list Z -> gset Z -> gset (list Z) -> option (gset (list Z)))
    (start : Z) (targets path : list Z) (on_path : gset Z) (max_len : nat) (found : gset (list Z))
  : option (gset (list Z)) :=
  match targets with
  | [] => Some found
  | next :: targets =>
      if decide (next = start) then
        dfs_targets deeper start targets path on_path max_len
          (if (length path <=? max_len)%nat then {[path]} ∪ found else found)
      else if decide (next < start \/ next ∈ on_path \/ (max_len <= length path)%nat) then
        dfs_targets deeper start targets path on_path max_len found
      else
        match deeper next (path ++ [next]) ({[next]} ∪ on_path) found with
        | Some found => dfs_targets deeper start targets path on_path max_len found
        | None => None
        end
  end.

(** A path grows by one id per call and never beyond [max_len]; [None] says
    that [levels] calls were not enough. *)
Fixpoint dfs_cycles (levels : nat) (start node : Z) (adj : gmap Z (list Z)) (path : list Z)
    (on_path : gset Z) (max_len : nat) (found : gset (list Z)) : option (gset (list Z)) :=
  match levels with
  | O => None
  | S levels =>
      match adj !! node with
      | None => Some found
      | Some targets =>
          dfs_targets (fun next path on_path found =>
            dfs_cycles levels start next adj path on_path max_len found)
            start targets path on_path max_len found
      end
  end.

(** [a.nodes.len().cmp(&b.nodes.len()).then_with(|| a.nodes.cmp(&b.nodes))]. *)
Fixpoint lex_compare (a b : list Z) : comparison :=
  match a, b with
  | [], [] => Eq
  | [], _ :: _ => Lt
  | _ :: _, [] => Gt
  | x :: a, y :: b => match x ?= y with Eq => lex_compare a b | o => o end
  end.
Definition by_len : list Z -> list Z -> comparison :=
  then_with (cmp_on length Nat.compare) lex_compare.

Section Cycles.
Context {St : Type} `{GraphStore St} `{GraphTables St}.
Context (walk_table : forall A, list A -> list A).

(** The in-scope targets of every candidate node. *)
Definition cycle_adj (s : St) (rows : list Row.t) : res CoreError.Error (gmap Z (list Z)) :=
  let in_scope : gset Z := list_to_set (Row.id <$> rows) in
  try_fold (fun adj r =>
    let? es := edges_at s Outgoing (Row.id r) (Some "CALLS"%string) MAX_REACH_RESULTS in
    Ok (<[Row.id r := filter (fun t => t ∈ in_scope) (Edge.target_id <$> es)]> adj)) ∅ rows.

Definition find_cycles (adj : gmap Z (list Z)) (starts : list Z) (max_len : nat)
  : option (gset (list Z)) :=
  foldl (fun acc start =>
    match acc with
    | Some found => dfs_cycles (S max_len) start start adj [start] {[start]} max_len found
    | None => None
    end) (Some ∅) starts.

Definition cycles (s : St) (project : option string) (max_len limit : nat)
  : option (res CoreError.Error (list (list Z))) :=
  let max_len := Nat.min max_len MAX_CYCLE_LEN in
  if (max_len =? 0)%nat || (limit =? 0)%nat then Some (Ok [])
  else
    match search_graph s (in_scope project any_query) with
    | Ok rows =>
        match cycle_adj s rows with
        | Ok adj =>
            match find_cycles adj (Row.id <$> rows) max_len with
            | Some found => Some (Ok (take limit (sort_by by_len (walk_table _ (elements found)))))
            | None => None
            end
        | Err e => Some (Err e)
        | Panic => Some Panic
        end
    | Err e => Some (Err e)
    | Panic => Some Panic
    end.
End Cycles.

(** ** Correctness of the search *)

(** [l] is a simple cycle, written from its smallest id: distinct ids, each
    leading to the next, the last one back to the first. *)
Definition simple_cycle (adj : Z -> list Z) (max_len : nat) (l : list Z) : Prop :=
  exists start, head l = Some start /\ NoDup l /\ linked adj l /\
    (forall x, x ∈ l -> start <= x) /\
    (exists z, last l = Some z /\ start ∈ adj z) /\ (length l <= max_len)%nat.

Lemma linked_app_inv adj l1 l2 : linked adj (l1 ++ l2) -> linked adj l1.
Proof.
  induction l1 as [|a l1 IH]; simpl; [done|]. destruct l1 as [|b l1]; [done|]. simpl.
  intros [H1 H2]. split; [done | by apply IH].
Qed.

Lemma linked_next adj l a b l2 :
  last l = Some a -> linked adj (l ++ b :: l2) -> b ∈ adj a.
Proof.
  induction l as [|x l IH]; simpl; [done|]. destruct l as [|y l].
  - intros [= ->] Hl. simpl in Hl. by destruct Hl.
  - rewrite last_cons_cons. intros Hlast [_ Hl]. by apply IH.
Qed.

Lemma linked_snoc adj l a b : last l = Some a -> linked adj l -> b ∈ adj a -> linked adj (l ++ [b]).
Proof.
  intros [l' ->]%last_Some Hl Hb. by apply linked_app.
Qed.

Section Dfs.
Context (adj : gmap Z (list Z)) (start : Z) (max_len : nat).
Let next_ids (n : Z) : list Z := default [] (adj !! n).

(** The cycles through [start] that begin with [path]. *)
Definition extends (path l : list Z) : Prop :=
  path `prefix_of` l /\ head l = Some start /\ simple_cycle next_ids max_len l.

(** The state of the walk: a simple path from [start] to [node]. *)
Record on_walk (path : list Z) (node : Z) (on_path : gset Z) : Prop := {
  ow_head : head path = Some start;
  ow_last : last path = Some node;
  ow_nodup : NoDup path;
  ow_linked : linked next_ids path;
  ow_min : forall x, x ∈ path -> start <= x;
  ow_set : forall x, x ∈ on_path <-> x ∈ path
}.

Lemma on_walk_snoc path node on_path next :
  on_walk path node on_path -> next ∈ next_ids node -> start <= next -> next ∉ on_path ->
  on_walk (path ++ [next]) next ({[next]} ∪ on_path).
Proof.
  intros [H1 H2 H3 H4 H5 H6] Hn Hle Hno. split.
  - by destruct path.
  - by rewrite last_snoc.
  - apply NoDup_app. split_and!; [done| |apply NoDup_singleton].
    intros x Hx ->%list_elem_of_singleton. by apply Hno, H6.
  - by eapply linked_snoc.
  - intros x [Hx| ->%list_elem_of_singleton]%elem_of_app; [by apply H5 | done].
  - intros x. rewrite elem_of_union, elem_of_singleton, elem_of_app, list_elem_of_singleton, H6. tauto.
Qed.

(** How a cycle that begins with [path] goes on. *)
Lemma extends_split path node on_path l :
  on_walk path node on_path -> (length path <= max_len)%nat ->
  extends path l <->
    (l = path /\ start ∈ next_ids node) \/
    exists next, next ∈ next_ids node /\ next <> start /\ start <= next /\ next ∉ on_path /\
      (length path < max_len)%nat /\ extends (path ++ [next]) l.
Proof.
  intros Hw Hlen. split.
  - intros ([l2 ->] & Hh & Hc). pose proof Hc as (st & Hst & Hnd & Hlk & Hmin & (z & Hz & Hback) & Hmax).
    rewrite Hh in Hst. injection Hst as <-.
    destruct l2 as [|next l2]; [left|right; exists next].
    + rewrite app_nil_r in *. split; [done|]. rewrite (ow_last _ _ _ Hw) in Hz. by injection Hz as ->.
    + assert (next ∉ path) as Hnp.
      { intros Hin. apply NoDup_app in Hnd as (_ & Hdis & _). apply (Hdis next Hin). by left. }
      rewrite length_app in Hmax. simpl in Hmax. split_and!.
      * eapply linked_next; [apply (ow_last _ _ _ Hw)|exact Hlk].
      * intros ->. apply Hnp. pose proof (ow_head _ _ _ Hw) as Hp. destruct path; [done|].
        injection Hp as ->. by left.
      * apply Hmin. apply elem_of_app. right. by left.
      * by rewrite (ow_set _ _ _ Hw).
      * lia.
      * split_and!; [|done|done]. exists l2. by rewrite <- app_assoc.
  - intros [[-> Hs]|(next & _ & _ & _ & _ & _ & (Hp & Hh & Hc))].
    + split_and!; [done|apply Hw|]. exists start. split_and!; try apply Hw; [|done].
      exists node. split; [apply Hw | done].
    + split_and!; try done. etrans; [by eexists | done].
Qed.

Lemma dfs_targets_spec deeper targets path node on_path found :
  on_walk path node on_path -> (length path <= max_len)%nat ->
  (forall next f, next ∈ targets -> next <> start -> start <= next -> next ∉ on_path ->
     (length path < max_len)%nat ->
     exists f', deeper next (path ++ [next]) ({[next]} ∪ on_path) f = Some f' /\
       forall l, l ∈ f' <-> l ∈ f \/ extends (path ++ [next]) l) ->
  exists f', dfs_targets deeper start targets path on_path max_len found = Some f' /\
    forall l, l ∈ f' <-> l ∈ found \/ (l = path /\ start ∈ targets) \/
      exists next, next ∈ targets /\ next <> start /\ start <= next /\ next ∉ on_path /\
        (length path < max_len)%nat /\ extends (path ++ [next]) l.
Proof.
  intros Hw Hlen. revert found. induction targets as [|x targets IH]; intros found Hdeep; simpl.
  { exists found. split; [done|]. set_solver. }
  assert (forall f, exists f', dfs_targets deeper start targets path on_path max_len f = Some f' /\
    forall l, l ∈ f' <-> l ∈ f \/ (l = path /\ start ∈ targets) \/
      exists next, next ∈ targets /\ next <> start /\ start <= next /\ next ∉ on_path /\
        (length path < max_len)%nat /\ extends (path ++ [next]) l) as IH'.
  { intros f. apply IH. intros next g Hn. apply Hdeep. by right. }
  clear IH. destruct (decide (x = start)) as [->|Hx].
  - rewrite (proj2 (Nat.leb_le _ _) Hlen). destruct (IH' ({[path]} ∪ found)) as (f' & -> & Hf').
    exists f'. split; [done|]. intros l. rewrite Hf'. set_solver.
  - case_decide as Hskip.
    + destruct (IH' found) as (f' & -> & Hf'). exists f'. split; [done|]. intros l. rewrite Hf'.
      setoid_rewrite elem_of_cons. split; [naive_solver|].
      intros [|[[? [|?]]|(next & [->|?] & ? & ? & ? & ? & ?)]]; [by left|done|naive_solver| |naive_solver].
      destruct Hskip as [|[|]]; [lia|done|lia].
    + destruct (Hdeep x found) as (f1 & -> & Hf1); [by left|done|lia|naive_solver|lia|].
      destruct (IH' f1) as (f' & -> & Hf'). exists f'. split; [done|]. intros l. rewrite Hf', Hf1.
      setoid_rewrite elem_of_cons. split; [|naive_solver].
      intros [[|]|[[? ?]|?]]; [by left| |naive_solver|naive_solver].
      right; right. exists x. split_and!; [by left|done|lia|naive_solver|lia|done].
Qed.

Lemma dfs_cycles_spec levels path node on_path found :
  on_walk path node on_path -> (length path <= max_len)%nat -> (max_len < length path + levels)%nat ->
  exists f', dfs_cycles levels start node adj path on_path max_len found = Some f' /\
    forall l, l ∈ f' <-> l ∈ found \/ extends path l.
Proof.
  revert path node on_path found. induction levels as [|levels IH]; intros path node on_path found Hw Hlen Hlv.
  { lia. }
  simpl. destruct (adj !! node) as [targets|] eqn:Hadj.
  - assert (next_ids node = targets) as Hn by (unfold next_ids; by rewrite Hadj).
    destruct (dfs_targets_spec (fun next path on_path found =>
      dfs_cycles levels start next adj path on_path max_len found) targets path node on_path found Hw Hlen)
      as (f' & Hf & Hf').
    { intros next f Hin Hne Hle Hno Hlt. apply IH.
      - apply (on_walk_snoc path node); [done|by rewrite Hn|done|done].
      - rewrite length_app. simpl. lia.
      - rewrite length_app. simpl. lia. }
    exists f'. split; [done|]. intros l. rewrite Hf', (extends_split path node on_path) by done.
    by rewrite Hn.
  - exists found. split; [done|]. intros l. rewrite (extends_split path node on_path) by done.
    assert (next_ids node = []) as -> by (unfold next_ids; by rewrite Hadj). set_solver.
Qed.
End Dfs.

Lemma on_walk_start adj start : on_walk adj start [start] start {[start]}.
Proof.
  split; simpl; try done; [apply NoDup_singleton| |set_solver].
  intros x ->%list_elem_of_singleton. lia.
Qed.

(** The whole search: every simple cycle whose first id is a start. *)
Lemma find_cycles_spec adj starts max_len : (0 < max_len)%nat ->
  exists found, find_cycles adj starts max_len = Some found /\
    forall l, l ∈ found <-> simple_cycle (fun n => default [] (adj !! n)) max_len l /\
      exists a, a ∈ starts /\ head l = Some a.
Proof.
  intros Hmax. unfold find_cycles.
  assert (forall starts f, exists found, foldl (fun acc start =>
    match acc with
    | Some found => dfs_cycles (S max_len) start start adj [start] {[start]} max_len found
    | None => None
    end) (Some f) starts = Some found /\
    forall l, l ∈ found <-> l ∈ f \/ (simple_cycle (fun n => default [] (adj !! n)) max_len l /\
      exists a, a ∈ starts /\ head l = Some a)) as Hgen.
  { clear starts. induction starts as [|a starts IH]; intros f; cbn [foldl].
    { exists f. split; [done|]. set_solver. }
    destruct (dfs_cycles_spec adj a max_len (S max_len) [a] a {[a]} f) as (f1 & -> & Hf1);
      [apply on_walk_start|simpl; lia|simpl; lia|].
    destruct (IH f1) as (found & -> & Hfound). exists found. split; [done|]. intros l.
    rewrite Hfound, Hf1. setoid_rewrite elem_of_cons. split.
    - intros [[|(_ & Hh & Hc)]|(Hc & b & Hb & Hh)]; [by left|right..]; split; eauto.
    - intros [|(Hc & b & [->|Hb] & Hh)]; [by left; left| |right; eauto].
      left. right. split_and!; [|done|done]. destruct l; [done|]. injection Hh as ->. by exists l. }
  destruct (Hgen starts ∅) as (found & Hf & Hfound). exists found. split; [done|].
  intros l. rewrite Hfound. set_solver.
Qed.
