(* ===== verification/GraphCluster.v ===== *)
(** Neighbourhoods of a node (crates/search/src/graph.rs): [neighbors],
    [subgraph_around] and [dependency_cluster]. *)

From S2P Require Import Prelude Loop CoreError GraphStore GraphBfs GraphReach GraphSearch.

Record SubgraphEdge : Type := { sub_source : Z; sub_target : Z; sub_type : string }.
#[export] Instance SubgraphEdge_eq_dec : EqDecision SubgraphEdge.
Proof. solve_decision. Defined.
#[export] Instance SubgraphEdge_countable : Countable SubgraphEdge.
Proof.
  refine (inj_countable' (fun e => (sub_source e, sub_target e, sub_type e))
    (fun x => {| sub_source := x.1.1; sub_target := x.1.2; sub_type := x.2 |}) _).
  by intros [].
Defined.

Record Subgraph : Type := { center : Row.t; sub_nodes : list Row.t; sub_edges : list SubgraphEdge }.

Record DependencyCluster : Type := { cluster_nodes : list Row.t; cluster_truncated : bool }.

(** [(source_id, target_id, edge_type)]. *)
Definition by_ends : SubgraphEdge -> SubgraphEdge -> comparison :=
  then_with (cmp_on sub_source Z.compare)
    (then_with (cmp_on sub_target Z.compare) (cmp_on sub_type String.compare)).

Section Cluster.
Context {S : Type} `{GraphStore S}.
Context (walk_table : forall A, list A -> list A).
Implicit Types s : S.

(** The rows of a set of ids, in the order the set is walked. *)
Definition rows_of (s : S) (ids : list Z) : res CoreError.Error (list Row.t) :=
  try_filter_map (fun id => let? o := node_at s id in Ok (node_to_row <$> o)) ids.

(** ** [neighbors] *)

(** The first sighting of every id other than [n]. *)
Fixpoint distinct_others (n : Z) (seen : gset Z) (ids : list Z) : list Z :=
  match ids with
  | [] => []
  | x :: ids => if decide (x = n \/ x ∈ seen) then distinct_others n seen ids
                else x :: distinct_others n ({[x]} ∪ seen) ids
  end.

Definition neighbors (s : S) (n : Z) (ty : string) (d : Direction) (limit : nat)
  : res CoreError.Error (list Row.t) :=
  let limit := Nat.min limit MAX_REACH_RESULTS in
  if (limit =? 0)%nat then Ok []
  else
    let? o := node_at s n in
    match o with
    | None => Ok []
    | Some _ =>
        let? es := edges_at s d n (Some ty) MAX_REACH_RESULTS in
        let? out := rows_of s (distinct_others n ∅ (next_of d <$> es)) in
        Ok (take limit (sort_by row_by_qname out))
    end.

(** ** [dependency_cluster] *)

Record cluster_state : Type := { collected : gset Z; cqueue : list Z; truncated : bool }.

(** The neighbours over [IMPORTS], in both directions. *)
Definition import_ids (s : S) (n : Z) : res CoreError.Error (list Z) :=
  let? out := edges_at s Outgoing n (Some "IMPORTS"%string) MAX_REACH_RESULTS in
  let? inc := edges_at s Incoming n (Some "IMPORTS"%string) MAX_REACH_RESULTS in
  Ok ((next_of Outgoing <$> out) ++ (next_of Incoming <$> inc)).

Definition collect (limit : nat) (n : Z) (st : cluster_state) (next : Z) : cluster_state :=
  if decide (next = n \/ next ∈ collected st) then st
  else if (limit <=? size (collected st))%nat then
    {| collected := collected st; cqueue := cqueue st; truncated := true |}
  else
    {| collected := {[next]} ∪ collected st; cqueue := cqueue st ++ [next]; truncated := truncated st |}.

Definition cluster_turn (s : S) (limit : nat) (st : cluster_state)
  : res CoreError.Error (cluster_state + (gset Z * bool)) :=
  match cqueue st with
  | [] => Ok (inr (collected st, truncated st))
  | n :: queue =>
      let? adj := import_ids s n in
      Ok (inl (foldl (collect limit n)
        {| collected := collected st; cqueue := queue; truncated := truncated st |} adj))
  end.

Definition dependency_cluster (s : S) (seed : Z) (limit : nat)
  : option (res CoreError.Error (option DependencyCluster)) :=
  let limit := Nat.max 1 (Nat.min limit MAX_REACH_RESULTS) in
  match node_at s seed with
  | Ok None => Some (Ok None)
  | Ok (Some _) =>
      after (while_loop (reach_fuel s) (cluster_turn s limit)
        {| collected := {[seed]}; cqueue := [seed]; truncated := false |})
        (fun '(ids, trunc) =>
           let? rows := rows_of s (walk_table _ (elements ids)) in
           Ok (Some {| cluster_nodes := sort_by row_by_qname rows; cluster_truncated := trunc |}))
  | Err e => Some (Err e)
  | Panic => Some Panic
  end.

(** ** [subgraph_around] *)

(** The requested types, first sightings only. *)
Fixpoint dedup_types (seen : list string) (types : list string) : list string :=
  match types with
  | [] => seen
  | t :: types => dedup_types (if decide (t ∈ seen) then seen else seen ++ [t]) types
  end.

(** The neighbours of [n] over one type, in both directions. *)
Definition around_ids (s : S) (ty : string) (n : Z) : res CoreError.Error (list Z) :=
  let? out := edges_at s Outgoing n (Some ty) MAX_REACH_RESULTS in
  let? inc := edges_at s Incoming n (Some ty) MAX_REACH_RESULTS in
  Ok ((next_of Outgoing <$> out) ++ (next_of Incoming <$> inc)).

Definition around_state : Type := gset Z * list (Z * nat).

Definition around_collect (n : Z) (h : nat) (st : around_state) (next : Z) : around_state :=
  let '(ids, queue) := st in
  if decide (next = n) then st
  else if decide ((MAX_REACH_RESULTS <= size ids)%nat /\ next ∉ ids) then st
  else if decide (next ∈ ids) then st
  else ({[next]} ∪ ids, queue ++ [(next, Datatypes.S h)]).

Definition around_turn (s : S) (types : list string) (max_hops : nat) (st : around_state)
  : res CoreError.Error (around_state + gset Z) :=
  let '(ids, queue) := st in
  match queue with
  | [] => Ok (inr ids)
  | (n, h) :: queue =>
      if (max_hops <=? h)%nat then Ok (inl (ids, queue))
      else
        let? st := try_fold (fun st ty =>
          let? adj := around_ids s ty n in
          Ok (foldl (around_collect n h) st adj)) (ids, queue) types in
        Ok (inl st)
  end.

(** The edges of the requested types between collected nodes, once each. *)
Definition induced_edges (s : S) (types : list string) (ids : gset Z) (order : list Z)
  : res CoreError.Error (list SubgraphEdge) :=
  let? r := try_fold (fun acc id =>
    try_fold (fun '(seen, out) ty =>
      let? es := edges_at s Outgoing id (Some ty) MAX_REACH_RESULTS in
      Ok (foldl (fun '(seen, out) e =>
        let key := {| sub_source := Edge.source_id e; sub_target := Edge.target_id e;
                      sub_type := Edge.edge_type e |} in
        if decide (Edge.target_id e ∈ ids /\ key ∉ (seen : gset SubgraphEdge))
        then ({[key]} ∪ seen, out ++ [key]) else (seen, out)) (seen, out) es)) acc types)
    (∅, []) order in
  Ok r.2.

Definition subgraph_around (s : S) (center_id : Z) (edge_types : list string) (max_hops : nat)
  : option (res CoreError.Error (option Subgraph)) :=
  let max_hops := Nat.min max_hops MAX_REACH_HOPS in
  match node_at s center_id with
  | Ok None => Some (Ok None)
  | Ok (Some nd) =>
      let types := dedup_types [] edge_types in
      after (while_loop (reach_fuel s) (around_turn s types max_hops) ({[center_id]}, [(center_id, 0%nat)]))
        (fun ids =>
           let? rows := rows_of s (walk_table _ (elements ids)) in
           let? es := induced_edges s types ids (walk_table _ (elements ids)) in
           Ok (Some {| center := node_to_row nd; sub_nodes := sort_by row_by_qname rows;
                       sub_edges := sort_by by_ends es |}))
  | Err e => Some (Err e)
  | Panic => Some Panic
  end.
End Cluster.

(** Facts about the neighbourhood queries: the loops end, and what they
    collect. *)


Lemma elem_of_distinct_others n seen ids x :
  x ∈ distinct_others n seen ids <-> x ∈ ids /\ x <> n /\ x ∉ seen.
Proof.
  revert seen. induction ids as [|y ids IH]; intros seen; simpl; [rewrite !elem_of_nil; tauto|].
  case_decide as Hy.
  - rewrite IH, elem_of_cons. split; [tauto|]. intros ([->|Hx] & Hn & Hs); [by destruct Hy | done].
  - apply Decidable.not_or in Hy as [Hyn Hys].
    rewrite !elem_of_cons, IH, not_elem_of_union, elem_of_singleton. clear IH.
    destruct (decide (x = y)) as [->|]; tauto.
Qed.

Lemma distinct_others_nodup n seen ids : NoDup (distinct_others n seen ids).
Proof.
  revert seen. induction ids as [|y ids IH]; intros seen; simpl; [constructor|].
  case_decide; [apply IH|]. constructor; [|apply IH]. rewrite elem_of_distinct_others. set_solver.
Qed.

#[export] Instance by_ends_comparator : Comparator by_ends.
Proof. unfold by_ends. apply _. Qed.

Section ClusterFacts.
Context {S : Type} `{GraphStoreLaws S}.

Lemma elem_of_rows_of (s : S) ids out : rows_of s ids = Ok out ->
  forall r, r ∈ out <-> exists nd, Row.id r ∈ ids /\ node_at s (Row.id r) = Ok (Some nd) /\ r = node_to_row nd.
Proof.
  intros Hout r. unfold rows_of in Hout. rewrite (elem_of_try_filter_map _ _ _ _ Hout). split.
  - intros (n & Hn & Hf). destruct (node_at s n) as [[nd|]| |] eqn:Hnd; simpl in Hf; [|done..].
    injection Hf as <-. pose proof (node_at_id _ _ _ Hnd) as Hid. simpl. rewrite Hid. eauto.
  - intros (nd & Hn & Hnd & ->). eexists. split; [exact Hn|]. by rewrite Hnd.
Qed.

Lemma rows_of_total (s : S) ids : readable s -> exists out, rows_of s ids = Ok out.
Proof.
  intros [Hr _]. apply try_filter_map_total. intros n _. destruct (Hr n) as [o ->]. by eexists.
Qed.

Section Component.
Context (s : S) (seed : Z) (limit : nat) (Hlimit : (1 <= limit)%nat).

(** The graph of imports, followed in both directions. *)
Definition import_adj (n : Z) : list Z :=
  next_ids s Outgoing (Some "IMPORTS"%string) MAX_REACH_RESULTS n ++
  next_ids s Incoming (Some "IMPORTS"%string) MAX_REACH_RESULTS n.

(** The connected component of the seed. *)
Definition component (n : Z) : Prop := exists k, walk import_adj seed n k.

Lemma import_ids_adj n l : import_ids s n = Ok l -> l = import_adj n.
Proof.
  unfold import_ids, import_adj, next_ids.
  destruct (edges_at s Outgoing n _ _); simpl; [|done..].
  destruct (edges_at s Incoming n _ _); simpl; [|done..]. congruence.
Qed.

Lemma import_ids_total n : readable s -> exists l, import_ids s n = Ok l.
Proof.
  intros [_ Hr]. unfold import_ids.
  destruct (Hr Outgoing n (Some "IMPORTS"%string) MAX_REACH_RESULTS) as [o ->]. simpl.
  destruct (Hr Incoming n (Some "IMPORTS"%string) MAX_REACH_RESULTS) as [i ->]. simpl. by eexists.
Qed.

Lemma import_adj_endpoints n x : x ∈ import_adj n -> x ∈ endpoints s.
Proof.
  assert (forall d, x ∈ next_ids s d (Some "IMPORTS"%string) MAX_REACH_RESULTS n -> x ∈ endpoints s) as Hd.
  { intros d. unfold next_ids. destruct (edges_at s d n _ _) as [es| |] eqn:Hes;
      [|by intros Hx%elem_of_nil..].
    intros (e & -> & He)%list_elem_of_fmap. by eapply edges_at_next. }
  intros [Hx|Hx]%elem_of_app; by eapply Hd.
Qed.

(** [todo] are the neighbours of [cur] still to be looked at. *)
Record cluster_inv (cur : option Z) (todo : list Z) (st : cluster_state) : Prop := {
  ci_seed : seed ∈ collected st;
  ci_sound : forall n, n ∈ collected st -> component n;
  ci_within : collected st ⊆ {[seed]} ∪ endpoints s;
  ci_queue : forall n, n ∈ cqueue st -> n ∈ collected st;
  ci_size : (size (collected st) <= limit)%nat;
  ci_trunc : truncated st = true -> (limit <= size (collected st))%nat /\
    exists n, component n /\ n ∉ collected st;
  ci_done : truncated st = false -> forall n m, n ∈ collected st -> m ∈ import_adj n ->
    m ∈ collected st \/ n ∈ cqueue st \/ (cur = Some n /\ m ∈ todo);
  ci_cur : forall n, cur = Some n -> n ∈ collected st /\ forall m, m ∈ todo -> m ∈ import_adj n
}.

Definition cluster_measure (st : cluster_state) : nat :=
  length (cqueue st) + (2 + size (endpoints s) - size (collected st)).

Lemma collected_size st cur todo : cluster_inv cur todo st ->
  (size (collected st) <= 1 + size (endpoints s))%nat.
Proof.
  intros HI. etrans; [apply subseteq_size, (ci_within _ _ _ HI)|].
  pose proof (size_union_alt {[seed]} (endpoints s)) as Hu. rewrite size_singleton in Hu.
  assert (size (endpoints s ∖ {[seed]}) <= size (endpoints s))%nat
    by (apply subseteq_size; set_solver). lia.
Qed.

(** One neighbour. *)
Lemma collect_inv n m todo st :
  cluster_inv (Some n) (m :: todo) st ->
  cluster_inv (Some n) todo (collect limit n st m) /\
  (cluster_measure (collect limit n st m) <= cluster_measure st)%nat.
Proof.
  intros HI. destruct (ci_cur _ _ _ HI n eq_refl) as [Hn Htodo].
  assert (m ∈ import_adj n) as Hm by (apply Htodo; by left).
  assert (component m) as Hcm.
  { destruct (ci_sound _ _ _ HI n Hn) as [k Hk]. exists (Datatypes.S k). by eapply walk_snoc. }
  unfold collect. case_decide as Hin; [|destruct (Nat.leb_spec limit (size (collected st))) as [Hfull|Hroom]].
  - split; [|done]. assert (m ∈ collected st) as Hmc by (destruct Hin as [->|]; done).
    destruct HI. split; try done.
    + intros Ht a b Ha Hb. destruct (ci_done0 Ht a b Ha Hb) as [|[|[[= ->] [->|]%elem_of_cons]]]; auto.
    + intros a [= <-]. split; [done|]. intros b Hb. apply Htodo. by right.
  - split; [|done]. destruct HI. split; simpl; try done.
    + intros _. split; [done|]. exists m. naive_solver.
    + intros a [= <-]. split; [done|]. intros b Hb. apply Htodo. by right.
  - assert (size ({[m]} ∪ collected st) = Datatypes.S (size (collected st))) as Hsz.
    { rewrite size_union by set_solver. by rewrite size_singleton. }
    assert (cluster_inv (Some n) todo {| collected := {[m]} ∪ collected st;
      cqueue := cqueue st ++ [m]; truncated := truncated st |}) as HI'.
    { destruct HI. split; simpl.
      - set_solver.
      - intros a [->%elem_of_singleton|Ha]%elem_of_union; auto.
      - apply import_adj_endpoints in Hm. set_solver.
      - intros a [Ha| ->%list_elem_of_singleton]%elem_of_app; set_solver.
      - lia.
      - intros Ht. destruct (ci_trunc0 Ht). lia.
      - intros Ht a b [->%elem_of_singleton|Ha]%elem_of_union Hb.
        + right. left. apply elem_of_app. right. by left.
        + destruct (ci_done0 Ht a b Ha Hb) as [|[|[[= ->] [->|]%elem_of_cons]]]; set_solver.
      - intros a [= <-]. split; [set_solver|]. intros b Hb. apply Htodo. by right. }
    split; [exact HI'|]. apply collected_size in HI'. simpl in HI'.
    unfold cluster_measure. cbn [collected cqueue]. rewrite length_app, Hsz in *. simpl. lia.
Qed.

Lemma collect_all_inv n todo st :
  cluster_inv (Some n) todo st ->
  cluster_inv None [] (foldl (collect limit n) st todo) /\
  (cluster_measure (foldl (collect limit n) st todo) <= cluster_measure st)%nat.
Proof.
  revert st. induction todo as [|m todo IH]; intros st HI; simpl.
  - split; [|done]. destruct HI. split; try done. intros Ht a b Ha Hb.
    destruct (ci_done0 Ht a b Ha Hb) as [|[|[_ Hx]]]; auto. by apply elem_of_nil in Hx.
  - destruct (collect_inv _ _ _ _ HI) as [HI' Hle]. destruct (IH _ HI') as [HI2 Hle2].
    split; [done | lia].
Qed.

(** The node taken from the queue is the current one. *)
Lemma cluster_inv_pop ids n q trunc :
  cluster_inv None [] {| collected := ids; cqueue := n :: q; truncated := trunc |} ->
  cluster_inv (Some n) (import_adj n) {| collected := ids; cqueue := q; truncated := trunc |}.
Proof.
  intros []. split; simpl in *; try done.
  - intros m Hm. apply ci_queue0. by right.
  - intros Ht a b Ha Hb. destruct (ci_done0 Ht a b Ha Hb) as [|[[->|]%elem_of_cons|[? _]]]; auto; done.
  - intros m [= <-]. split; [apply ci_queue0; by left | done].
Qed.

(** What the loop returns. *)
Definition cluster_result (r : res CoreError.Error (gset Z * bool)) : Prop :=
  (readable s -> is_ok r = true) /\
  forall ids trunc, r = Ok (ids, trunc) ->
    seed ∈ ids /\ (size ids <= limit)%nat /\ (forall n, n ∈ ids -> component n) /\
    (trunc = false -> forall n, component n -> n ∈ ids) /\
    (trunc = true -> size ids = limit /\ exists n, component n /\ n ∉ ids).

Lemma cluster_loop :
  exists r, while_loop (reach_fuel s) (cluster_turn s limit)
    {| collected := {[seed]}; cqueue := [seed]; truncated := false |} = Some r /\ cluster_result r.
Proof.
  apply (while_total (cluster_inv None []) cluster_measure cluster_result).
  - intros [ids q trunc] HI. unfold cluster_turn. simpl. destruct q as [|n q]; simpl.
    + split; [done|]. intros ids' trunc' [= <- <-]. destruct HI. simpl in *.
      split_and!; try done.
      * intros Ht n [k Hk]. induction Hk as [|a b k Hk IH Hb]; [done|].
        destruct (ci_done0 Ht a b IH Hb) as [|[Hx|[Hx _]]]; [done|by apply elem_of_nil in Hx|done].
      * intros Ht. destruct (ci_trunc0 Ht) as [? ?]. split; [lia | done].
    + destruct (import_ids s n) as [l| |] eqn:Hl; simpl.
      2,3: split; [|done]; intros Hr; destruct (import_ids_total n Hr); congruence.
      apply import_ids_adj in Hl as ->. apply cluster_inv_pop in HI.
      destruct (collect_all_inv _ _ _ HI) as [HI' Hle]. split; [done|].
      eapply Nat.le_lt_trans; [exact Hle|]. unfold cluster_measure. simpl. lia.
  - split; cbn [collected cqueue truncated]; try done; try set_solver.
    + intros n ->%elem_of_singleton. exists 0%nat. constructor.
    + rewrite size_singleton. lia.
  - unfold cluster_measure, reach_fuel. cbn [collected cqueue length]. rewrite size_singleton. lia.
Qed.
End Component.
End ClusterFacts.
