(* ===== verification/GraphRefs.v ===== *)
(** References between symbols (crates/search/src/graph.rs):
    [find_references], [count_references], [unused_symbols] and
    [co_change_candidates]. *)

From S2P Require Import Prelude Loop CoreError GraphStore GraphBfs GraphReach GraphSearch GraphCluster.

Definition REFERENCE_EDGE_TYPES : list string :=
  ["CALLS"; "USAGE"; "USES"; "TYPE_REF"; "IMPORTS"]%string.

Record Reference : Type := { ref_type : string; ref_node : Row.t }.
Record CoChangeCandidate : Type := { shared : nat; co_node : Row.t }.

(** [(qualified_name asc, id asc, edge_type asc)]. *)
Definition by_reference : Reference -> Reference -> comparison :=
  then_with (cmp_on (fun r => Row.qualified_name (ref_node r)) String.compare)
    (then_with (cmp_on (fun r => Row.id (ref_node r)) Z.compare) (cmp_on ref_type String.compare)).

(** [(shared desc, qualified_name asc, id asc)]. *)
Definition by_shared : CoChangeCandidate -> CoChangeCandidate -> comparison :=
  then_with (cmp_desc (cmp_on shared Nat.compare)) (cmp_on co_node row_by_qname).

Section Refs.
Context {S : Type} `{GraphStore S} `{GraphTables S}.
Context (walk_table : forall A, list A -> list A).
Implicit Types s : S.

Definition ref_state : Type := gset (Z * string) * list Reference.

(** One incoming edge of one target. *)
Definition ref_edge (s : S) (target : Z) (ty : string) (st : ref_state) (e : Edge.t)
  : res CoreError.Error ref_state :=
  let '(seen, out) := st in
  let src := Edge.source_id e in
  if decide (src = target \/ (src, ty) ∈ seen) then Ok (seen, out)
  else
    let? o := node_at s src in
    Ok ({[(src, ty)]} ∪ seen,
        match o with Some nd => out ++ [{| ref_type := ty; ref_node := node_to_row nd |}] | None => out end).

Definition ref_target (s : S) (st : ref_state) (target : Z) : res CoreError.Error ref_state :=
  let? o := node_at s target in
  match o with
  | None => Ok st
  | Some _ =>
      try_fold (fun st ty =>
        let? es := edges_at s Incoming target (Some ty) MAX_REACH_RESULTS in
        try_fold (ref_edge s target ty) st es) st REFERENCE_EDGE_TYPES
  end.

Definition find_references_to_any (s : S) (targets : list Z) (limit : nat)
  : res CoreError.Error (list Reference) :=
  let limit := Nat.min limit MAX_REACH_RESULTS in
  if (limit =? 0)%nat || bool_decide (targets = []) then Ok []
  else
    let? r := try_fold (ref_target s) (∅, []) targets in
    Ok (take limit (sort_by by_reference r.2)).

Definition find_references (s : S) (target : Z) (limit : nat) : res CoreError.Error (list Reference) :=
  find_references_to_any s [target] limit.

(** [SELECT COUNT( * ) FROM (SELECT .. GROUP BY source_id, edge_type)]. *)
Definition reference_groups (project : string) (targets : list Z) (es : list Edge.t) : gset (Z * string) :=
  list_to_set ((fun e => (Edge.source_id e, Edge.edge_type e)) <$>
    filter (fun e => Edge.project e = project /\ Edge.target_id e ∈ targets /\
      Edge.source_id e <> Edge.target_id e /\ Edge.edge_type e ∈ REFERENCE_EDGE_TYPES) es).

Definition count_references_to_any (s : S) (project : string) (targets : list Z)
  : res CoreError.Error nat :=
  match targets with
  | [] => Ok 0%nat
  | _ =>
      let? existing := try_filter_map (fun t =>
        let? o := node_at s t in Ok (match o with Some _ => Some t | None => None end)) targets in
      match existing with
      | [] => Ok 0%nat
      | _ =>
          let? es := from_store (edge_table s) in
          Ok (size (reference_groups project existing es))
      end
  end.

Definition count_references (s : S) (project : string) (target : Z) : res CoreError.Error nat :=
  count_references_to_any s project [target].

(** Whether a node has an incoming edge of one of the types: the scan stops at
    the first. *)
Fixpoint has_reference (s : S) (n : Z) (types : list string) : res CoreError.Error bool :=
  match types with
  | [] => Ok false
  | ty :: types =>
      let? es := edges_at s Incoming n (Some ty) 1 in
      match es with [] => has_reference s n types | _ => Ok true end
  end.

(** The scan of the candidates stops when [limit] symbols are found. *)
Fixpoint unused_scan (s : S) (labels : list string) (limit : nat) (rows : list Row.t)
    (out : list Row.t) : res CoreError.Error (list Row.t) :=
  match rows with
  | [] => Ok out
  | row :: rows =>
      if decide (labels <> [] /\ Row.label row ∉ labels) then unused_scan s labels limit rows out
      else
        let? has_ref := has_reference s (Row.id row) REFERENCE_EDGE_TYPES in
        if has_ref : bool then unused_scan s labels limit rows out
        else
          let out := out ++ [row] in
          if (limit <=? length out)%nat then Ok out else unused_scan s labels limit rows out
  end.

Definition unused_symbols (s : S) (project : string) (labels : list string) (limit : nat)
  : res CoreError.Error (list Row.t) :=
  let limit := Nat.min limit MAX_REACH_RESULTS in
  if (limit =? 0)%nat then Ok []
  else
    let q := with_order QualifiedName MAX_REACH_RESULTS (with_project project any_query) in
    let q := match labels with [l] => with_label l q | _ => q end in
    let? rows := search_graph s q in
    unused_scan s labels limit rows [].

(** ** Co-change *)

Definition direct_neighbour_ids (s : S) (n : Z) (d : Direction) (ty : string)
  : res CoreError.Error (list Z) :=
  let? es := edges_at s d n (Some ty) REACH_FANOUT in
  Ok (distinct_others n ∅ (next_of d <$> es)).

(** [*shared_counts.entry(other).or_insert(0) += 1], once per neighbour. *)
Definition count_shared (seed : Z) (st : gmap Z nat * gset Z) (other : Z) : gmap Z nat * gset Z :=
  let '(counts, counted) := st in
  if decide (other = seed \/ other ∈ counted) then st
  else (partial_alter (fun o => Some (Datatypes.S (default 0%nat o))) other counts,
        {[other]} ∪ counted).

Definition co_change_candidates (s : S) (seed : Z) (d : Direction) (ty : string) (limit : nat)
  : res CoreError.Error (list CoChangeCandidate) :=
  let limit := Nat.min limit MAX_REACH_RESULTS in
  if (limit =? 0)%nat then Ok []
  else
    let? o := node_at s seed in
    match o with
    | None => Ok []
    | Some _ =>
        let? ns := direct_neighbour_ids s seed d ty in
        let? counts := try_fold (fun counts m =>
          let? co := direct_neighbour_ids s m (opposite d) ty in
          Ok (foldl (count_shared seed) (counts, ∅) co).1) ∅ ns in
        let? out := try_filter_map (fun '(id, k) =>
          let? o := node_at s id in
          Ok ((fun nd => {| shared := k; co_node := node_to_row nd |}) <$> o))
          (walk_table _ (map_to_list counts)) in
        Ok (take limit (sort_by by_shared out))
    end.
End Refs.

(** Facts about the reference queries: what the loops over targets, types and
    edges collect, and what the scans and counts compute. *)


#[export] Instance by_reference_total : Comparator by_reference.
Proof. unfold by_reference. apply _. Qed.
#[export] Instance by_shared_total : Comparator by_shared.
Proof. unfold by_shared. apply _. Qed.

Section RefsFacts.
Context {S : Type} `{GraphStoreLaws S}.
Implicit Types s : S.

(** ** References *)

Definition ref_key (r : Reference) : Z * string := (Row.id (ref_node r), ref_type r).

(** [seen] holds the pairs met so far, [out] a row for each that resolves. *)
Record refs_ok (s : S) (st : ref_state) : Prop := {
  ro_nodup : NoDup (ref_key <$> st.2);
  ro_rows : forall r, r ∈ st.2 <-> ref_key r ∈ st.1 /\
    exists nd, node_at s (Row.id (ref_node r)) = Ok (Some nd) /\ ref_node r = node_to_row nd
}.

Lemma ref_edge_ok s target ty st e : readable s -> refs_ok s st ->
  exists st', ref_edge s target ty st e = Ok st' /\ refs_ok s st' /\
    forall x, x ∈ st'.1 <-> x ∈ st.1 \/ x = (Edge.source_id e, ty) /\ Edge.source_id e <> target.
Proof.
  intros [Hr _] Hst. destruct st as [seen out]. unfold ref_edge. set (src := Edge.source_id e).
  case_decide as Hskip.
  { eexists. split; [done|]. split; [done|]. intros x. cbn [fst]. split; [by left|].
    intros [|[-> Hne]]; [done|]. destruct Hskip; [done | done]. }
  apply Decidable.not_or in Hskip as [Hne Hs].
  destruct (Hr src) as [o Ho]. rewrite Ho. cbn [res_bind]. eexists. split; [done|]. split.
  2:{ intros x. cbn [fst]. rewrite elem_of_union, elem_of_singleton. tauto. }
  destruct Hst as [Hnd Hrows]. cbn [fst snd] in *. destruct o as [nd|].
  - pose proof (node_at_id _ _ _ Ho) as Hid. split; cbn [fst snd].
    + rewrite fmap_app. apply NoDup_app. split_and!; [done| |apply NoDup_singleton].
      intros k (r & -> & Hin)%list_elem_of_fmap Hk%list_elem_of_singleton.
      apply Hrows in Hin as [Hin _]. rewrite Hk in Hin. unfold ref_key in Hin. simpl in Hin.
      by rewrite Hid in Hin.
    + intros r. rewrite elem_of_app, Hrows, list_elem_of_singleton, elem_of_union, elem_of_singleton.
      split.
      * intros [[Hk Hn]| ->]; [tauto|]. unfold ref_key. simpl. rewrite Hid. eauto.
      * intros [[Hk|Hk] (nd' & Hn & Hrn)]; [|left; eauto]. right.
        unfold ref_key in Hk. injection Hk as Hk1 Hk2. rewrite Hk1, Ho in Hn. injection Hn as ->.
        destruct r; simpl in *; congruence.
  - split; cbn [fst snd]; [done|]. intros r. rewrite Hrows, elem_of_union, elem_of_singleton.
    split; [tauto|]. intros [[Hk|Hk] (nd & Hn & Hrn)]; [|eauto].
    unfold ref_key in Hk. injection Hk as Hk1 _. rewrite Hk1, Ho in Hn. done.
Qed.

(** Folding steps that each add a set of pairs. *)
Lemma refs_fold {A} s (f : ref_state -> A -> res CoreError.Error ref_state)
    (adds : A -> Z * string -> Prop) l st :
  (forall a st, a ∈ l -> refs_ok s st -> exists st', f st a = Ok st' /\ refs_ok s st' /\
     forall x, x ∈ st'.1 <-> x ∈ st.1 \/ adds a x) ->
  refs_ok s st ->
  exists st', try_fold f st l = Ok st' /\ refs_ok s st' /\
    forall x, x ∈ st'.1 <-> x ∈ st.1 \/ exists a, a ∈ l /\ adds a x.
Proof.
  intros Hf. revert st. induction l as [|a l IH]; intros st Hst.
  { exists st. split; [done|]. split; [done|]. intros x. split; [by left|].
    intros [|(a & Ha & _)]; [done | by apply elem_of_nil in Ha]. }
  cbn [try_fold]. destruct (Hf a st) as (st1 & -> & Hst1 & H1); [by left|done|]. cbn [res_bind].
  destruct (IH (fun b st' Hb => Hf b st' (list_elem_of_further b a l Hb)) st1 Hst1) as (st2 & -> & Hst2 & H2).
  exists st2. split; [done|]. split; [done|]. intros x. rewrite H2, H1. setoid_rewrite elem_of_cons.
  split.
  - intros [[|]|(b & ? & ?)]; [by left|right; by exists a; auto|right; exists b; auto].
  - intros [|(b & [->|] & ?)]; [auto|auto|right; eauto].
Qed.

(** The pairs that refer to an existing target. *)
Definition refers (s : S) (target : Z) (x : Z * string) : Prop :=
  (exists nd, node_at s target = Ok (Some nd)) /\ x.1 <> target /\ x.2 ∈ REFERENCE_EDGE_TYPES /\
  x.1 ∈ next_ids s Incoming (Some x.2) MAX_REACH_RESULTS target.

Lemma ref_target_ok s target st : readable s -> refs_ok s st ->
  exists st', ref_target s st target = Ok st' /\ refs_ok s st' /\
    forall x, x ∈ st'.1 <-> x ∈ st.1 \/ refers s target x.
Proof.
  intros Hr Hst. unfold ref_target. destruct (proj1 Hr target) as [o Ho]. rewrite Ho. cbn [res_bind].
  destruct o as [tn|].
  2:{ exists st. split; [done|]. split; [done|]. intros x. split; [by left|].
      intros [|[[nd Hn] _]]; [done | congruence]. }
  destruct (refs_fold s (fun st ty =>
    let? es := edges_at s Incoming target (Some ty) MAX_REACH_RESULTS in
    try_fold (ref_edge s target ty) st es)
    (fun ty x => x.1 <> target /\ x.2 = ty /\ x.1 ∈ next_ids s Incoming (Some ty) MAX_REACH_RESULTS target)
    REFERENCE_EDGE_TYPES st) as (st' & Hf & Hok & Hx); [|done|].
  - intros ty st1 _ Hst1. destruct (proj2 Hr Incoming target (Some ty) MAX_REACH_RESULTS) as [es Hes].
    unfold next_ids. rewrite Hes. cbn [res_bind].
    destruct (refs_fold s (ref_edge s target ty)
      (fun e x => x = (Edge.source_id e, ty) /\ Edge.source_id e <> target) es st1)
      as (st2 & Hf & Hok & Hx); [intros e st2 _; by apply ref_edge_ok|done|].
    exists st2. split; [done|]. split; [done|]. intros x. rewrite Hx. apply or_iff_compat_l. split.
    + intros (e & He & -> & Hne). simpl. split_and!; [done|done|]. apply list_elem_of_fmap. eauto.
    + intros (Hne & Hty & (e & Hxe & He)%list_elem_of_fmap). exists e. simpl in Hxe.
      split; [done|]. rewrite <- Hxe. split; [|done]. destruct x; simpl in *; congruence.
  - exists st'. split; [done|]. split; [done|]. intros x. rewrite Hx. apply or_iff_compat_l.
    unfold refers. split.
    + intros (ty & Hty & Hne & <- & Hin). eauto.
    + intros (_ & Hne & Hty & Hin). eauto.
Qed.

Lemma find_references_run s targets limit : readable s ->
  exists full, find_references_to_any s targets limit = Ok (take (Nat.min limit MAX_REACH_RESULTS) full) /\
    NoDup (ref_key <$> full) /\ StronglySorted (fun a b => by_reference a b <> Gt) full /\
    forall r, r ∈ full <-> (exists t, t ∈ targets /\ refers s t (ref_key r)) /\
      exists nd, node_at s (Row.id (ref_node r)) = Ok (Some nd) /\ ref_node r = node_to_row nd.
Proof.
  intros Hr.
  destruct (refs_fold s (ref_target s) (refers s) targets (∅, [])) as (st & Hf & [Hnd Hrows] & Hx).
  { intros t st _. by apply ref_target_ok. }
  { split; [constructor|]. intros r. cbn [fst snd]. rewrite elem_of_nil. split; [done|].
    intros [Hk _]. by apply not_elem_of_empty in Hk. }
  exists (sort_by by_reference st.2). split_and!.
  - unfold find_references_to_any.
    destruct (Nat.eqb_spec (Nat.min limit MAX_REACH_RESULTS) 0) as [->|]; [done|]. cbn [orb].
    case_bool_decide as Ht; [|by rewrite Hf].
    subst targets. injection Hf as <-. cbn [snd]. unfold sort_by. by destruct (Nat.min _ _).
  - by rewrite (sort_by_Permutation by_reference).
  - apply sort_by_sorted, _.
  - intros r. rewrite (elem_of_sort_by by_reference), Hrows, Hx. set_solver.
Qed.

(** ** Unused symbols *)

Lemma has_reference_spec s n types : readable s ->
  has_reference s n types
    = Ok (bool_decide (Exists (fun ty => next_ids s Incoming (Some ty) 1 n <> []) types)).
Proof.
  intros [_ Hr]. induction types as [|ty types IH]; [done|]. cbn [has_reference].
  destruct (Hr Incoming n (Some ty) 1%nat) as [es Hes]. rewrite Hes. cbn [res_bind].
  assert (next_ids s Incoming (Some ty) 1 n = next_of Incoming <$> es) as Hn
    by (unfold next_ids; by rewrite Hes).
  destruct es as [|e es].
  - rewrite IH. f_equal. apply bool_decide_ext. rewrite Exists_cons, Hn. simpl. tauto.
  - by rewrite bool_decide_eq_true_2; [|rewrite Exists_cons, Hn; left].
Qed.

(** What the scan keeps. *)
Definition scan_keeps (s : S) (labels : list string) (r : Row.t) : Prop :=
  (labels = [] \/ Row.label r ∈ labels) /\
  Forall (fun ty => next_ids s Incoming (Some ty) 1 (Row.id r) = []) REFERENCE_EDGE_TYPES.
#[export] Instance scan_keeps_dec s labels r : Decision (scan_keeps s labels r).
Proof. unfold scan_keeps. apply _. Defined.

Lemma unused_scan_spec s labels limit rows out : readable s -> (length out < limit)%nat ->
  unused_scan s labels limit rows out
    = Ok (out ++ take (limit - length out) (filter (scan_keeps s labels) rows)).
Proof.
  intros Hr. revert out. induction rows as [|r rows IH]; intros out Hlen.
  { cbn [unused_scan]. by rewrite filter_nil, take_nil, app_nil_r. }
  cbn [unused_scan]. rewrite filter_cons. case_decide as Hl.
  { rewrite IH by done. rewrite decide_False; [done|]. intros [Hk _]. destruct Hl as [? ?].
    by destruct Hk. }
  rewrite has_reference_spec by done. cbn [res_bind]. case_bool_decide as Hex.
  { rewrite IH by done. rewrite decide_False; [done|]. intros [_ Hf].
    apply Exists_exists in Hex as (ty & Hty & Hne). rewrite Forall_forall in Hf. by apply Hne, Hf. }
  assert (scan_keeps s labels r) as Hk.
  { split.
    - destruct (decide (labels = [])) as [|Hn]; [by left|]. right.
      destruct (decide (Row.label r ∈ labels)); [done|]. by destruct Hl.
    - rewrite Forall_forall. intros ty Hty. destruct (decide (next_ids s Incoming (Some ty) 1 (Row.id r) = []))
        as [|Hne]; [done|]. destruct Hex. apply Exists_exists. eauto. }
  rewrite decide_True by done. rewrite length_app. cbn [length].
  replace (limit - length out)%nat with (Datatypes.S (limit - (length out + 1)))%nat by lia. cbn [take].
  destruct (Nat.leb_spec limit (length out + 1)) as [Hle|Hlt].
  - replace (limit - (length out + 1))%nat with 0%nat by lia. done.
  - rewrite IH by (rewrite length_app; simpl; lia). rewrite length_app. cbn [length].
    by rewrite <- app_assoc.
Qed.

(** ** Co-change *)

Lemma count_shared_fold seed co counts (counted : gset Z) x :
  (foldl (count_shared seed) (counts, counted) co).1 !! x =
  if decide (x ∈ co /\ x <> seed /\ x ∉ counted)
  then Some (Datatypes.S (default 0%nat (counts !! x))) else counts !! x.
Proof.
  revert counts counted. induction co as [|y co IH]; intros counts counted; cbn [foldl].
  { rewrite decide_False; [done|]. by intros [?%elem_of_nil _]. }
  assert (count_shared seed (counts, counted) y = if decide (y = seed \/ y ∈ counted) then (counts, counted)
    else (partial_alter (fun o => Some (Datatypes.S (default 0%nat o))) y counts, {[y]} ∪ counted))
    as -> by done.
  destruct (decide (y = seed \/ y ∈ counted)) as [Hy|Hy].
  - rewrite IH. apply decide_ext. rewrite elem_of_cons. split; [tauto|].
    intros ([->|] & ? & ?); [by destruct Hy | tauto].
  - apply Decidable.not_or in Hy as [Hys Hyc]. rewrite IH. destruct (decide (x = y)) as [->|Hxy].
    + rewrite decide_False by set_solver. rewrite decide_True by set_solver.
      by rewrite lookup_partial_alter_eq.
    + rewrite lookup_partial_alter_ne by done. apply decide_ext. set_solver.
Qed.

(** The direct neighbours that count. *)
Definition others (s : S) (d : Direction) (ty : string) (n : Z) : list Z :=
  distinct_others n ∅ (next_ids s d (Some ty) REACH_FANOUT n).

Lemma direct_neighbours s n d ty : readable s ->
  direct_neighbour_ids s n d ty = Ok (others s d ty n).
Proof.
  intros [_ Hr]. unfold direct_neighbour_ids, others, next_ids.
  by destruct (Hr d n (Some ty) REACH_FANOUT) as [es ->].
Qed.

(** How many of [ms] have [x] as a neighbour. *)
Definition shared_with (s : S) (d : Direction) (ty : string) (ms : list Z) (x : Z) : nat :=
  length (filter (fun m => x ∈ others s d ty m) ms).

Lemma shared_counts s d ty seed ms counts : readable s ->
  exists counts', try_fold (fun counts m =>
      let? co := direct_neighbour_ids s m d ty in
      Ok (foldl (count_shared seed) (counts, ∅) co).1) counts ms = Ok counts' /\
    forall x, counts' !! x =
      if decide (x = seed \/ shared_with s d ty ms x = 0%nat) then counts !! x
      else Some (shared_with s d ty ms x + default 0 (counts !! x))%nat.
Proof.
  intros Hr. revert counts. induction ms as [|m ms IH]; intros counts; cbn [try_fold].
  { exists counts. split; [done|]. intros x. by rewrite decide_True by (by right). }
  rewrite direct_neighbours by done. cbn [res_bind].
  destruct (IH (foldl (count_shared seed) (counts, ∅) (others s d ty m)).1) as (counts' & -> & Hc).
  exists counts'. split; [done|]. intros x. rewrite Hc, count_shared_fold.
  unfold shared_with. rewrite filter_cons. destruct (decide (x = seed)) as [->|Hx].
  { rewrite !(decide_True _ _ (or_introl eq_refl)). rewrite decide_False by tauto. done. }
  destruct (decide (x ∈ others s d ty m)) as [Hm|Hm].
  - rewrite (decide_True (P := x ∈ others s d ty m /\ _)) by (split_and!; [done..|apply not_elem_of_empty]).
    cbn [length]. rewrite (decide_False (P := x = seed \/ Datatypes.S _ = 0%nat)) by (intros [|]; done).
    case_decide as Hz; [|f_equal; simpl; lia]. destruct Hz as [|Hz]; [done|]. by rewrite Hz.
  - rewrite (decide_False (P := x ∈ others s d ty m /\ _)) by tauto. done.
Qed.
End RefsFacts.
