(* ===== verification/GraphQueries.v ===== *)
(** The remaining read queries of a single store (crates/store/src/node.rs,
    project.rs, fts.rs): names similar to a fragment, the nodes below a path,
    names that contain a fragment, and the full-text search over [nodes_fts].

    FTS5 is a library: [fts_match] says which postings a query matches and
    [bm25] how it ranks them in the index as it is; [total_cmp] compares the
    ranks.  The order in which SQLite returns rows without [ORDER BY] is the
    parameter [walk_rows]. *)

From stdpp Require Import gmultiset.
From S2P Require Import Prelude Loop RustStr RustText Fts GraphStore GraphDb.
From Stdlib Require Import Ascii.
#[local] Open Scope string_scope.

(** ** Projects and names *)

Definition by_name : Project -> Project -> comparison := cmp_on p_name String.compare.

Definition list_projects : dbm (list Project) :=
  gets (fun s => sort_by by_name (map_to_list (projects s)).*2).

(** [SELECT DISTINCT name .. ORDER BY LENGTH(name), name]; [LENGTH] counts
    characters. *)
Definition by_length : string -> string -> comparison :=
  then_with (cmp_on (fun x => length (chars x)) Nat.compare) String.compare.

Definition similar_node_names (project fragment : string) (limit : nat) : dbm (list string) :=
  gets (fun s => take limit (sort_by by_length (remove_dups (Node.name <$>
    rows_where row_of (fun n => Node.project n = project /\
      like (String "%"%char (escape_like fragment +:+ "%")) (Node.name n) = true) (nodes s))))).

Definition nodes_by_name_with_outgoing_edges (project name : string) (ty : option string)
    (node_limit edge_limit : nat) : dbm (list (Node.t * list Edge.t)) :=
  let! ns := list_nodes_by_name project name node_limit in
  gets (fun s => (fun n => (n, select_edges Outgoing s (Node.id n) ty edge_limit)) <$> ns).

(** The nodes of [main.nodes], which on a single store are all nodes. *)
Definition list_private_nodes (project : string) (offset limit : nat) : dbm (list Node.t) :=
  gets (fun s => take limit (drop offset (sort_by by_qname
    (rows_where row_of (fun n => Node.project n = project) (nodes s))))).
Definition count_private_nodes_by_label (project label : string) : dbm Z :=
  gets (fun s => Z.of_nat (length
    (rows_where row_of (fun n => Node.project n = project /\ Node.label n = label) (nodes s)))).

(** ** Paths *)

(** The bytes with the last one that is not 0xff counted up and what follows
    it dropped. *)
Fixpoint bump (rev_bytes : list Z) : option (list Z) :=
  match rev_bytes with
  | [] => None
  | last :: rest => if decide (last = 255) then bump rest else Some (reverse ((last + 1) :: rest))
  end.

(** ["\u{10ffff}"] encoded. *)
Definition last_char : string := string_of_bytes [244; 143; 191; 191].

Definition path_prefix_upper_bound (prefix : string) : string :=
  match bump (reverse (bytes_of_string prefix)) with
  | Some bytes => default (prefix +:+ last_char) (from_utf8 bytes)
  | None => prefix +:+ last_char
  end.

(** [nodes.dedup_by(|left, right| left.id == right.id)]: runs of one id keep
    their first node. *)
Fixpoint dedup_ids (l : list Node.t) : list Node.t :=
  match l with
  | [] => []
  | x :: l' =>
      match dedup_ids l' with
      | [] => [x]
      | y :: l'' => if decide (Node.id x = Node.id y) then x :: l'' else x :: y :: l''
      end
  end.

Section Unordered.
Context (walk_rows : forall A, list A -> list A).

Definition list_nodes_for_path_prefix (project prefix : string) : dbm (list Node.t) :=
  if bool_decide (prefix = "") then ret []
  else
    let! ns := list_nodes_for_file project prefix in
    let lower := prefix +:+ "/" in
    let upper := path_prefix_upper_bound lower in
    let! descendants := gets (fun s => walk_rows _ (rows_where row_of (fun n =>
      Node.project n = project /\ String.compare lower (Node.file_path n) <> Gt /\
      String.compare (Node.file_path n) upper = Lt) (nodes s))) in
    ret (sort_by by_qname (dedup_ids (sort_by (cmp_on Node.id Z.compare) (ns ++ descendants)))).

(** [instr(lower(name), lower(fragment)) > 0]. *)
Fixpoint instr (haystack needle : string) : bool :=
  String.prefix needle haystack ||
  match haystack with "" => false | String _ h => instr h needle end.

Definition without_properties (n : Node.t) : Node.t :=
  Node.Mk (Node.id n) (Node.project n) (Node.label n) (Node.name n) (Node.qualified_name n)
    (Node.file_path n) (Node.start_line n) (Node.end_line n) "{}".

Definition list_nodes_name_containing (project fragment : string) : dbm (list Node.t) :=
  gets (fun s => walk_rows _ (without_properties <$> rows_where row_of (fun n =>
    Node.project n = project /\
    instr (to_ascii_lowercase (Node.name n)) (to_ascii_lowercase fragment) = true) (nodes s))).
End Unordered.

(** ** Full-text search *)

Section FullText.
Context (uni_alnum : char -> bool).
Context {F : Type} (total_cmp : F -> F -> comparison).
Context (fts_match : string -> posting -> bool) (bm25 : gmultiset posting -> string -> posting -> F).
Context (walk_rows : forall A, list A -> list A).

Record FtsHit : Type := { hit_node : Z; hit_rank : F }.

(** The runs of characters that are not white space. *)
Fixpoint split_whitespace (word : list char) (cs : list char) : list (list char) :=
  match cs with
  | [] => match word with [] => [] | _ => [word] end
  | c :: cs =>
      if is_whitespace c
      then match word with [] => split_whitespace [] cs | _ => word :: split_whitespace [] cs end
      else split_whitespace (word ++ [c]) cs
  end.

Definition fts_prefix_query (query : string) : option string :=
  let tokens := camel_split uni_alnum query in
  if bool_decide (tokens = "") then None
  else Some (String.concat " " ((fun t => text t +:+ "*") <$> split_whitespace [] (chars tokens))).

(** [label NOT IN (..) AND name != '__file__' AND qualified_name NOT LIKE ..]. *)
Definition pseudo_labels : list string := ["Call"; "Import"; "File"; "Folder"; "Project"].
Definition is_symbol (n : Node.t) : Prop :=
  Node.label n ∉ pseudo_labels /\ Node.name n <> "__file__" /\
  like "%::__file__" (Node.qualified_name n) = false /\
  like "%.__file__" (Node.qualified_name n) = false.

Definition in_project (project : option string) (n : Node.t) : Prop :=
  match project with Some x => Node.project n = x | None => True end.
#[export] Instance in_project_dec project n : Decision (in_project project n).
Proof. destruct project; simpl; apply _. Defined.

(** [nodes_fts JOIN nodes ON nodes.id = nodes_fts.rowid WHERE ..]. *)
Definition posting_id (p : posting) : Z := p.1.1.1.1.
Definition fts_join (s : Db) (project : option string) (fts_query : string) : list (posting * Node.t) :=
  omap (fun p =>
    match select_node s (posting_id p) with
    | Some n => if decide (fts_match fts_query p = true /\
                           in_project project n /\ is_symbol n)
                then Some (p, n) else None
    | None => None
    end) (walk_rows _ (elements (nodes_fts s))).

Definition search_fts_scoped (project : option string) (query : string) (limit : nat)
  : dbm (list FtsHit) :=
  match fts_prefix_query query with
  | None => ret []
  | Some fts_query =>
      gets (fun s => take limit (sort_by (cmp_on hit_rank total_cmp)
        ((fun x => {| hit_node := posting_id x.1; hit_rank := bm25 (nodes_fts s) fts_query x.1 |})
           <$> fts_join s project fts_query)))
  end.

Definition search_fts (query : string) (limit : nat) : dbm (list FtsHit) :=
  search_fts_scoped None query limit.
Definition search_fts_in_project (project query : string) (limit : nat) : dbm (list FtsHit) :=
  search_fts_scoped (Some project) query limit.

Definition count_fts_in_project (project query : string) : dbm Z :=
  match fts_prefix_query query with
  | None => ret 0
  | Some fts_query => gets (fun s => Z.of_nat (length (fts_join s (Some project) fts_query)))
  end.
End FullText.
