(* ===== verification/GraphDemo.v ===== *)
(** A small store, on which the theorems about the graph searches are
    instantiated: four functions of one project, with calls
    [a -> b], [b -> c], [c -> a], [a -> c] and an import [a -> d]. *)

From S2P Require Import Prelude Loop CoreError RustStr RustText GraphStore GraphDb GraphDbFacts GraphReach GraphSearch.
#[local] Open Scope string_scope.

Definition no_alnum (c : char) : bool := false.

Definition demo_node (name file : string) (line : Z) : NewNode :=
  {| n_project := "p"; n_label := "Function"; n_name := name; n_qualified_name := "p." +:+ name;
     n_file_path := file; n_start_line := line; n_end_line := (line + 4)%Z; n_properties := "{}" |}.
Definition demo_edge (a b : Z) (ty : string) : NewEdge :=
  {| e_project := "p"; e_source_id := a; e_target_id := b; e_edge_type := ty; e_properties := "{}" |}.

Definition empty_db : Db :=
  {| projects := ∅; nodes := ∅; node_seq := 0; edges := ∅; edge_seq := 0; nodes_fts := ∅; vectors := ∅; vector_seq := 0 |}.

Definition demo_setup : dbm unit :=
  upsert_project {| p_name := "p"; p_indexed_at := "x"; p_root_path := "/p" |} ;;;
  insert_nodes no_alnum [demo_node "a" "a.rs" 1; demo_node "b" "a.rs" 7; demo_node "c" "b.rs" 1;
                         demo_node "d" "b.rs" 7] ;;;
  insert_edge (demo_edge 1 2 "CALLS") ;;; insert_edge (demo_edge 2 3 "CALLS") ;;;
  insert_edge (demo_edge 3 1 "CALLS") ;;; insert_edge (demo_edge 1 3 "CALLS") ;;;
  insert_edge (demo_edge 1 4 "IMPORTS") ;;; ret tt.

Definition demo : Db := Eval vm_compute in (demo_setup empty_db).2.

Example demo_built : (demo_setup empty_db).1 = Ok tt.
Proof. vm_compute. reflexivity. Qed.

Lemma empty_db_wf uni_alnum : db_wf uni_alnum empty_db.
Proof.
  split; [|done]. split; simpl; try (intros; by rewrite lookup_empty in *).
  unfold i64_max. lia.
Qed.
