(* ===== verification/GraphReachSpec.v ===== *)
(** What the reachability queries promise: they end, they return exactly the
    nodes within the hop bound with their distance, nearest first, within the
    documented caps, and whatever order the hash table is walked in. *)

From S2P Require Import Prelude Loop CoreError RustText GraphStore GraphBfs GraphReach.
From S2P Require Import GraphDb GraphDbFacts GraphDemo.

Section ReachSpec.
Context {S : Type} `{GraphStoreLaws S}.
Context (w : forall A, list A -> list A) `{!HashOrder w}.
Implicit Types s : S.

(** The answer before it is cut to the limit. *)
Definition reach_answer (s : S) (start : Z) (d : Direction) (types : list string) (maxh : nat)
    (full : list ReachableNode) : Prop :=
  (forall r, r ∈ full <-> reached s start d types maxh r) /\
  NoDup ((fun r => Row.id (node r)) <$> full) /\
  StronglySorted (fun a b => by_hops a b <> Gt) full.

Lemma reachable_answer s start d edge_types max_hops limit out :
  reach_proper s start edge_types max_hops limit ->
  reachable_within_any_edge_type w s start d edge_types max_hops limit = Some (Ok out) ->
  exists full,
    reach_answer s start d (clean_types edge_types) (Nat.min max_hops MAX_REACH_HOPS) full /\
    out = take (Nat.min limit MAX_REACH_RESULTS) full.
Proof.
  intros Hp Hrun. destruct (reachable_run w s start d edge_types max_hops limit Hp) as (r & Hr & Hok & _).
  rewrite Hrun in Hr. injection Hr as <-.
  destruct (Hok out eq_refl) as (best & rows & Hbest & Hrows & ->).
  exists (sort_by by_hops rows). split; [split; [|split]|done].
  - intros r. rewrite (elem_of_sort_by by_hops), (elem_of_reach_rows w _ _ _ _ Hrows). unfold reached.
    by setoid_rewrite Hbest.
  - rewrite (sort_by_Permutation by_hops rows). by eapply (reach_rows_nodup w).
  - apply sort_by_sorted. apply _.
Qed.

Lemma reachable_answered s start d edge_types max_hops limit out :
  reachable_within_any_edge_type w s start d edge_types max_hops limit = Some (Ok out) ->
  out = [] /\ ~ reach_proper s start edge_types max_hops limit
  \/ reach_proper s start edge_types max_hops limit.
Proof.
  intros Hrun. unfold reachable_within_any_edge_type in Hrun.
  destruct ((_ =? 0)%nat || _ || _) eqn:Hb.
  { injection Hrun as <-. left. split; [done|]. intros (Hh & Hl & Ht & _).
    rewrite !orb_true_iff, !Nat.eqb_eq, bool_decide_eq_true in Hb.
    unfold MAX_REACH_HOPS, MAX_REACH_RESULTS in Hb. destruct Hb as [[Hb|Hb]| ->]; [lia|lia|done]. }
  rewrite !orb_false_iff, !Nat.eqb_neq in Hb. destruct Hb as [[Hh Hl] _].
  case_bool_decide as Ht; [injection Hrun as <-; left; split; [done | by intros (_ & _ & [] & _)]|].
  destruct (node_at s start) as [[nd|]| |] eqn:Hn; [| |done..].
  - right. split_and!; [lia|lia|done|eauto].
  - injection Hrun as <-. left. split; [done|]. intros (_ & _ & _ & nd & Hnd). congruence.
Qed.

(** An answer is determined by what it holds. *)
Lemma reach_answer_unique s start d types maxh l1 l2 :
  reach_answer s start d types maxh l1 -> reach_answer s start d types maxh l2 -> l1 = l2.
Proof.
  intros (He1 & Hn1 & Hs1) (He2 & Hn2 & Hs2).
  apply StronglySorted_unique_strong with (R := fun a b => by_hops a b <> Gt); [|done..|].
  - intros a b Ha Hb Hab Hba. rewrite (cmp_opp (cmp:=by_hops) a b) in Hba.
    assert (by_hops a b = Eq) as Heq by (by destruct (by_hops a b)).
    unfold by_hops in Heq. apply then_with_eq in Heq as [Hh [_ Hid]%then_with_eq].
    unfold cmp_on in Hh, Hid. apply Nat.compare_eq in Hh. apply Z.compare_eq in Hid.
    apply He1 in Ha as (na & Hna & Hra & _). apply He2 in Hb as (nb & Hnb & Hrb & _).
    rewrite Hid in Hna. rewrite Hnb in Hna. injection Hna as ->. destruct a, b; simpl in *; congruence.
  - apply NoDup_Permutation; [by apply NoDup_fmap_1 in Hn1 | by apply NoDup_fmap_1 in Hn2|].
    intros r. by rewrite He1, He2.
Qed.

(** C12: [reachable_within_any_edge_type] always ends within its bound on the
    number of turns, cycles and self-loops included, and when the store
    answers every query it ends with a list, never with an error.  The bound
    is the number of ids that edges lead to, plus four. *)
Theorem reachable_ends s start d edge_types max_hops limit :
  readable s ->
  exists out, reachable_within_any_edge_type w s start d edge_types max_hops limit = Some (Ok out).
Proof.
  intros Hr. destruct (proj1 Hr start) as [o Ho].
  destruct (decide (clean_types edge_types = [])) as [Ht|Ht].
  { exists []. apply (reachable_improper w); [by intros (_ & _ & [] & _) | by rewrite Ho..]. }
  destruct o as [nd|].
  2:{ exists []. apply (reachable_improper w); [intros (_ & _ & _ & nd & Hn); congruence | by rewrite Ho..]. }
  destruct (decide (0 < max_hops /\ 0 < limit)%nat) as [[Hh Hl]|Hz].
  - destruct (reachable_run w s start d edge_types max_hops limit) as (r & Hrun & _ & Hok);
      [by split_and!; eauto|].
    specialize (Hok Hr). destruct r as [out| |]; simpl in Hok; [by exists out|done..].
  - exists []. apply (reachable_improper w); [|by rewrite Ho..]. intros (? & ? & _). apply Hz. lia.
Qed.

(** C11: The query returns exactly the nodes whose distance from the start over
    the requested edge types (the first 4096 edges of each type at a node) is
    within the hop bound, each once, with that distance, ordered by distance,
    name and id, cut to the limit; the start itself and ids that no longer
    resolve are not in the list. *)
Theorem reachable_exact s start d edge_types max_hops limit out :
  reach_proper s start edge_types max_hops limit ->
  reachable_within_any_edge_type w s start d edge_types max_hops limit = Some (Ok out) ->
  exists full,
    (forall r, r ∈ full <-> exists nd,
       node_at s (Row.id (node r)) = Ok (Some nd) /\ node r = node_to_row nd /\
       Row.id (node r) <> start /\
       dist (reach_adj s d (clean_types edge_types)) start (Row.id (node r)) (hops r) /\
       (hops r <= Nat.min max_hops MAX_REACH_HOPS)%nat) /\
    NoDup ((fun r => Row.id (node r)) <$> full) /\
    StronglySorted (fun a b => by_hops a b <> Gt) full /\
    out = take (Nat.min limit MAX_REACH_RESULTS) full.
Proof.
  intros Hp Hrun. destruct (reachable_answer _ _ _ _ _ _ _ Hp Hrun) as (full & (H1 & H2 & H3) & ->).
  by exists full.
Qed.

(** C13: Whatever the arguments, an answer holds at most [limit] rows and never
    more than 10000, no row twice, and every row lies between one hop and the
    smaller of [max_hops] and 32. *)
Theorem reachable_bounds s start d edge_types max_hops limit out :
  reachable_within_any_edge_type w s start d edge_types max_hops limit = Some (Ok out) ->
  (length out <= limit)%nat /\ (Z.of_nat (length out) <= 10000)%Z /\
  NoDup ((fun r => Row.id (node r)) <$> out) /\
  forall r, r ∈ out -> (1 <= hops r)%nat /\ (hops r <= max_hops)%nat /\ (hops r <= 32)%nat /\
    Row.id (node r) <> start.
Proof.
  intros Hrun.
  destruct (reachable_answered _ _ _ _ _ _ _ Hrun) as [[-> _]|Hp].
  { simpl. split_and!; [lia|lia|constructor|]. intros r Hr. by apply elem_of_nil in Hr. }
  destruct (reachable_answer _ _ _ _ _ _ _ Hp Hrun) as (full & (He & Hnd & _) & ->).
  rewrite length_take. unfold MAX_REACH_RESULTS at 1 2. split_and!; [lia|lia| |].
  - rewrite fmap_take. apply (sublist_NoDup _ _ Hnd), sublist_take.
  - intros r Hr%elem_of_take. destruct Hr as (i & Hi & _). apply list_elem_of_lookup_2, He in Hi.
    destruct Hi as (nd & _ & _ & Hne & Hd & Hle). unfold MAX_REACH_HOPS in Hle.
    split_and!; [|lia|lia|done]. destruct (hops r); [|lia]. by apply dist_zero in Hd.
Qed.
End ReachSpec.

(** The order in which the hash table of distances is walked does not show:
    two runs of the query on the same store, with any two orders, return the
    same list. *)
Theorem reachable_order_free {S} `{GraphStoreLaws S} (w1 w2 : forall A, list A -> list A)
    `{!HashOrder w1} `{!HashOrder w2} (s : S) start d edge_types max_hops limit out1 out2 :
  reachable_within_any_edge_type w1 s start d edge_types max_hops limit = Some (Ok out1) ->
  reachable_within_any_edge_type w2 s start d edge_types max_hops limit = Some (Ok out2) ->
  out1 = out2.
Proof.
  intros H1 H2.
  destruct (reachable_answered w1 _ _ _ _ _ _ _ H1) as [[-> Hn]|Hp];
    destruct (reachable_answered w2 _ _ _ _ _ _ _ H2) as [[-> Hn']|Hp']; [done|done|done|].
  destruct (reachable_answer w1 _ _ _ _ _ _ _ Hp H1) as (f1 & Ha1 & ->).
  destruct (reachable_answer w2 _ _ _ _ _ _ _ Hp H2) as (f2 & Ha2 & ->).
  by rewrite (reach_answer_unique _ _ _ _ _ _ _ Ha1 Ha2).
Qed.

(** ** On the demonstration store *)

Abbreviation in_order := (fun (A : Type) (l : list A) => l).

Definition ab_reached : list ReachableNode :=
  [{| hops := 1; node := node_to_row (row_of 2 (demo_node "b" "a.rs" 7)) |};
   {| hops := 1; node := node_to_row (row_of 3 (demo_node "c" "b.rs" 1)) |}].

Lemma demo_reach :
  reachable_within_any_edge_type in_order demo 1 Outgoing [" CALLS"%string] 5 9
    = Some (Ok ab_reached).
Proof. vm_compute. reflexivity. Qed.

Lemma demo_proper : reach_proper demo 1 [" CALLS"%string] 5 9.
Proof. split_and!; [lia | lia | by vm_compute | eexists; by vm_compute]. Qed.

Lemma reachable_ends_witness : exists out,
  reachable_within_any_edge_type in_order demo 1 Outgoing ["CALLS"%string] 5 9 = Some (Ok out).
Proof. apply (reachable_ends in_order demo). apply Db_readable. Defined.

Lemma reachable_exact_witness : exists full,
  NoDup ((fun r => Row.id (node r)) <$> full) /\ ab_reached = take 9 full.
Proof.
  destruct (reachable_exact in_order demo 1 Outgoing [" CALLS"%string] 5 9 _ demo_proper demo_reach)
    as (full & _ & Hnd & _ & Hout).
  exists full. split; [exact Hnd | exact Hout].
Defined.

Lemma reachable_bounds_witness : (length ab_reached <= 9)%nat.
Proof. exact (proj1 (reachable_bounds in_order demo _ _ _ _ _ _ demo_reach)). Defined.

Lemma reachable_order_free_witness : ab_reached = ab_reached.
Proof.
  apply (reachable_order_free in_order (fun _ l => reverse l) demo 1 Outgoing [" CALLS"%string] 5 9);
    vm_compute; reflexivity.
Defined.
