(* ===== verification/GraphTraceSpec.v ===== *)
(** What the call traces promise: [trace_path] lists the nodes within reach
    breadth first, [call_tree] is the same graph with the callees of every
    node, [call_hierarchy] is the tree of the call paths. *)

From S2P Require Import Prelude Loop CoreError GraphStore GraphBfs GraphTrace.
From S2P Require Import GraphTreeFacts GraphDb GraphDbFacts GraphDemo.

Section TraceSpec.
Context {S : Type} `{GraphStoreLaws S}.
Implicit Types s : S.

(** [trace_path] ends on every graph, and with a list when the store
    answers its queries.  From a start that exists the list holds every node
    whose distance is at most [max_depth], once, at that distance, nearest
    first; each step but the first carries an edge of the requested type that
    leads to it from a step one level up, and the node as the store has it.
    From a start that does not exist the list is empty. *)
Theorem trace_path_exact s start d ty max_depth :
  exists r, trace_path s start d ty max_depth = Some r /\
    (readable s -> is_ok r = true) /\
    forall out, r = Ok out ->
      (node_at s start = Ok None -> out = []) /\
      forall nd, node_at s start = Ok (Some nd) ->
        NoDup (TraceStep.node_id <$> out) /\
        StronglySorted le (TraceStep.depth <$> out) /\
        (forall n k, (n, k) ∈ step_pos <$> out <->
           dist (next_ids s d ty TRACE_FANOUT) start n k /\ (k <= max_depth)%nat) /\
        forall x, x ∈ out -> step_ok s d ty start (step_pos <$> out) x.
Proof.
  destruct (trace_loop s d ty start max_depth) as (r & Hr & Hres & Hok). exists r.
  split; [done|]. split; [done|]. intros out Hout.
  destruct (Hres out Hout) as [((nd & Hnd) & HI & Hsteps)|[Hnone ->]].
  - split; [congruence|]. intros nd' _. split_and!.
    + rewrite <- step_pos_fst. apply (po_nodup _ _ _ _ _ HI).
    + replace (TraceStep.depth <$> out) with (step_pos <$> out).*2
        by (by rewrite <- list_fmap_compose). apply (po_sorted _ _ _ _ _ HI).
    + by apply pop_inv_final.
    + done.
  - split; [done|]. congruence.
Qed.

(** [call_tree] ends on every graph and never indexes outside its arena;
    with the root in the store, its arena holds every node within [max_depth]
    calls once, at its call distance, reached over a CALLS edge from a node
    one level up, and the children of each node above the depth bound are its
    callees in edge order, itself left out. *)
Theorem call_tree_exact s start d max_depth nd :
  node_at s start = Ok (Some nd) ->
  exists r, call_tree s start d max_depth = Some r /\
    (readable s -> is_ok r = true) /\
    forall t, r = Ok t ->
      root_id t = start /\
      NoDup ((fun x => TraceStep.node_id (step x)) <$> tree_nodes t) /\
      (forall n k, (exists x, x ∈ tree_nodes t /\ step_pos (step x) = (n, k)) <->
         dist (next_ids s d calls TRACE_FANOUT) start n k /\ (k <= max_depth)%nat) /\
      (forall x, x ∈ tree_nodes t -> children x =
         if (max_depth <=? TraceStep.depth (step x))%nat then []
         else filter (fun m => m <> TraceStep.node_id (step x))
                (next_ids s d calls TRACE_FANOUT (TraceStep.node_id (step x)))) /\
      forall x, x ∈ tree_nodes t ->
        step_ok s d calls start ((fun y => step_pos (step y)) <$> tree_nodes t) (step x).
Proof.
  intros Hnd. destruct (tree_loop s d start max_depth nd Hnd) as (r & Hr & Hres & _ & Hok).
  exists r. split; [done|]. split; [done|]. intros t Ht.
  destruct (Hres t Ht) as [Hroot [Hnodup Hdist Hkids Hsteps]]. split_and!; [done| | |done|done].
  - by rewrite <- list_fmap_compose in Hnodup.
  - intros n k. rewrite <- Hdist, list_elem_of_fmap. split; intros (x & ? & ?); exists x; auto.
Qed.

(** C15: [call_hierarchy] ends although it revisits shared callees, and is the
    tree of the call paths: its branches are exactly the sequences of calls
    from the root, of at most [max_depth] calls, without a direct call of a
    node to itself, in which no node but the last occurs before, each once; a
    branch that closes a cycle ends in a leaf marked cyclic, one that meets the
    depth bound in a leaf marked truncated, and no other node carries either
    mark. *)
Theorem call_hierarchy_exact s start d max_depth :
  exists r, call_hierarchy s start d max_depth = Some r /\
    (readable s -> is_ok r = true) /\
    forall h, r = Ok h ->
      direction h = d /\
      match root h with
      | None => node_at s start = Ok None
      | Some t =>
          (forall l, (exists x, branch t l x) <->
             head l = Some start /\ call_path (next_ids s d calls TRACE_FANOUT) l /\
             NoDup (before_last l) /\ (length l <= Datatypes.S max_depth)%nat) /\
          (forall l x y, branch t l x -> branch t l y -> x = y) /\
          forall l x, branch t l x ->
            last l = Some (hier_id x) /\
            TraceStep.depth (hier_step x) = pred (length l) /\
            (hier_cyclic x = true <-> hier_id x ∈ before_last l) /\
            hier_truncated x
              = negb (hier_cyclic x) && (max_depth <=? TraceStep.depth (hier_step x))%nat
      end.
Proof.
  unfold call_hierarchy. destruct (node_at s start) as [[nd|]| |] eqn:Hnd.
  2: by eexists; split; [done|]; split; [done|]; intros h [= <-].
  2,3: eexists; split; [done|]; split; [|done]; intros [Hr _]; destruct (Hr start); congruence.
  destruct (expand_hierarchy_total s d max_depth max_depth start (Some nd) None 0 ∅)
    as (r & Hr & Hok); [lia|]. rewrite Hr.
  destruct r as [[t p]| |]; simpl; [|by eexists; split; [done|]; split; [done|]; intros h [=]..].
  eexists. split; [done|]. split; [done|]. intros h [= <-]. split; [done|]. simpl.
  apply expand_hierarchy_ok in Hr as [_ [_ Hids Hnode Huniq]]; [|set_solver|lia|done].
  split_and!; [|done|].
  - intros l. rewrite Hids. unfold branch_ids. rewrite Nat.add_0_r.
    split; [by intros (? & ? & ? & _ & ?)|]. intros (? & ? & ? & ?). split_and!; [done..| |done].
    intros m _. apply not_elem_of_empty.
  - intros l x Hb. destruct (Hnode l x Hb) as (? & Hdep & _ & Hcyc & Htr). rewrite Nat.add_0_r in Hdep.
    split_and!; [done|done| |done]. rewrite Hcyc. set_solver.
Qed.
End TraceSpec.

Lemma call_tree_exact_witness : exists t,
  call_tree demo 1 Outgoing 4 = Some (Ok t) /\ tree_len t = 3%nat /\ root_id t = 1%Z.
Proof.
  destruct (call_tree_exact demo 1 Outgoing 4 (row_of 1 (demo_node "a" "a.rs" 1))) as (r & Hr & _ & Ht);
    [vm_compute; reflexivity|].
  assert (call_tree demo 1 Outgoing 4 = Some (Ok {| root_id := 1; tree_nodes :=
    [{| step := TraceStep.Mk 0 1 None (Some (row_of 1 (demo_node "a" "a.rs" 1))); children := [2%Z; 3%Z] |};
     {| step := TraceStep.Mk 1 2 (Some (edge_row 1 (demo_edge 1 2 "CALLS")))
          (Some (row_of 2 (demo_node "b" "a.rs" 7))); children := [3%Z] |};
     {| step := TraceStep.Mk 1 3 (Some (edge_row 4 (demo_edge 1 3 "CALLS")))
          (Some (row_of 3 (demo_node "c" "b.rs" 1))); children := [1%Z] |}] |})) as Hrun
    by (vm_compute; reflexivity).
  rewrite Hrun in Hr. injection Hr as <-. eexists. split; [exact Hrun|]. split; [reflexivity|].
  exact (proj1 (Ht _ eq_refl)).
Defined.

Lemma call_hierarchy_exact_witness : exists h,
  call_hierarchy demo 1 Outgoing 3 = Some (Ok h) /\ direction h = Outgoing /\ hierarchy_len h = 6%nat.
Proof.
  destruct (call_hierarchy_exact demo 1 Outgoing 3) as (r & Hr & Hok & Hres).
  destruct r as [h| |]; [|discriminate (Hok (Db_readable demo))..].
  exists h. split; [exact Hr|]. split; [exact (proj1 (Hres h eq_refl))|].
  assert (option_map (fun r => match r with Ok h => hierarchy_len h | _ => 0%nat end)
    (call_hierarchy demo 1 Outgoing 3) = Some 6%nat) as Hlen by (vm_compute; reflexivity).
  rewrite Hr in Hlen. by injection Hlen.
Defined.
