(* ===== verification/GraphPathSpec.v ===== *)
(** What [path_query] promises: a shortest path, or that there is none within
    the bound. *)

From S2P Require Import Prelude Loop CoreError GraphStore GraphBfs GraphReach GraphPath.
From S2P Require Import GraphDb GraphDbFacts GraphDemo.

Section PathSpec.
Context {S : Type} `{GraphStoreLaws S}.
Implicit Types s : S.

(** What [path_query] answers for two nodes that exist. *)
Definition path_answer (s : S) (from_id to_id : Z) (d : Direction) (ty : string) (maxh : nat)
    (o : option GraphPath) : Prop :=
  let adj := next_ids s d (Some ty) REACH_FANOUT in
  match o with
  | None => forall k, walk adj from_id to_id k -> (maxh < k)%nat
  | Some p =>
      head (path_nodes p) = Some from_id /\ last (path_nodes p) = Some to_id /\
      linked adj (path_nodes p) /\ length (path_nodes p) = Datatypes.S (path_hops p) /\
      dist adj from_id to_id (path_hops p) /\ (path_hops p <= maxh)%nat /\
      forall r, r ∈ path_rows p -> exists nd,
        Node.id nd ∈ path_nodes p /\ node_at s (Node.id nd) = Ok (Some nd) /\ r = node_to_row nd
  end.

Lemma path_rows_total s l : readable s -> exists rows, path_rows_of s l = Ok rows.
Proof.
  intros [Hr _]. apply try_filter_map_total. intros n _. destruct (Hr n) as [o ->]. by eexists.
Qed.

Lemma path_rows_ok s l rows r :
  path_rows_of s l = Ok rows -> r ∈ rows ->
  exists nd, Node.id nd ∈ l /\ node_at s (Node.id nd) = Ok (Some nd) /\ r = node_to_row nd.
Proof.
  intros Hrows Hr. rewrite (elem_of_try_filter_map _ _ _ _ Hrows) in Hr.
  destruct Hr as (n & Hn & Hf). destruct (node_at s n) as [[nd|]| |] eqn:Hnd; simpl in Hf; [|done..].
  injection Hf as <-. exists nd. by rewrite (node_at_id _ _ _ Hnd).
Qed.

(** C29: Between two nodes that exist, [path_query] ends, and answers when the
    store does: a path that starts at the one and ends at the other, in which
    each node leads to the next over an edge of the type, with as many hops as
    the distance and the rows of its nodes; or [None], and then every
    walk between the two is longer than the smaller of [max_hops] and 32. *)
Theorem path_query_shortest s from_id to_id d ty max_hops a b :
  node_at s from_id = Ok (Some a) -> node_at s to_id = Ok (Some b) ->
  exists r, path_query s from_id to_id d ty max_hops = Some r /\
    (readable s -> is_ok r = true) /\
    forall o, r = Ok o -> path_answer s from_id to_id d ty (Nat.min max_hops 32) o.
Proof.
  intros Ha Hb. unfold path_query. rewrite Ha, Hb. change MAX_REACH_HOPS with 32%nat.
  set (maxh := Nat.min max_hops 32). case_decide as Hft.
  { subst to_id. eexists. split; [done|]. split; [done|]. intros o [= <-]. simpl.
    split_and!; [done..|apply dist_refl|lia|]. intros row ->%list_elem_of_singleton. exists a.
    rewrite (node_at_id _ _ _ Ha). split_and!; [by left | done..]. }
  destruct (Nat.eqb_spec maxh 0) as [Hz|Hz].
  { eexists. split; [done|]. split; [done|]. intros o [= <-] k Hk.
    destruct k; [by inversion Hk|]. lia. }
  destruct (path_loop s d ty from_id to_id maxh Hft) as (r & -> & Hok & Hres).
  destruct r as [[pred|]|e|].
  2: by eexists; split; [done|]; split; [done|]; intros o [= <-].
  2,3: by eexists; split; [done|]; split; [done|]; intros o [=].
  destruct Hres as (seen & k & Hpred & Hto & Hdist & Hk).
  destruct (walk_back_spec s d ty from_id seen pred k Hpred 34 to_id [to_id]) as (l & Hl & Hlen & Hlk & Hh);
    [done|lia|]. rewrite Hl. eexists. split; [done|]. split.
  - intros Hr. destruct (path_rows_total s (l ++ [to_id]) Hr) as [rows ->]. done.
  - intros o Ho. destruct (path_rows_of s (l ++ [to_id])) as [rows| |] eqn:Hrows; simpl in Ho; [|done..].
    injection Ho as <-. unfold path_answer. cbn [path_nodes path_hops path_rows].
    rewrite length_app. simpl. replace (length l + 1 - 1)%nat with k by lia.
    split_and!; [done|by rewrite last_snoc|done|lia|done|done|].
    intros row Hrow. eapply path_rows_ok; done.
Qed.
End PathSpec.

Lemma path_query_shortest_witness : exists p,
  path_query demo 2 1 Outgoing "CALLS" 40 = Some (Ok (Some p)) /\ path_nodes p = [2; 3; 1]%Z /\
  dist (next_ids demo Outgoing (Some "CALLS"%string) REACH_FANOUT) 2 1 (path_hops p).
Proof.
  destruct (path_query_shortest demo 2 1 Outgoing "CALLS" 40
    (row_of 2 (demo_node "b" "a.rs" 7)) (row_of 1 (demo_node "a" "a.rs" 1))) as (r & Hr & _ & Ho);
    [vm_compute; reflexivity..|].
  assert (path_query demo 2 1 Outgoing "CALLS" 40 = Some (Ok (Some {| path_nodes := [2; 3; 1]%Z;
    path_rows := node_to_row <$> [row_of 2 (demo_node "b" "a.rs" 7); row_of 3 (demo_node "c" "b.rs" 1);
                  row_of 1 (demo_node "a" "a.rs" 1)]; path_hops := 2 |}))) as Hrun
    by (vm_compute; reflexivity).
  rewrite Hrun in Hr. injection Hr as <-. eexists. split; [exact Hrun|]. split; [reflexivity|].
  apply (Ho _ eq_refl).
Defined.
