(* ===== verification/GraphSearchSpec.v ===== *)
(** What the structured search promises on the tables of a store. *)

From S2P Require Import Prelude Loop CoreError RustStr GraphStore GraphReach GraphSearch GraphDb GraphDbFacts GraphDemo.

Definition in_order_of (s : Db) (q : GraphQuery) (l : list Row.t) : Prop :=
  StronglySorted (fun a b => row_order s q a b <> Gt) l.

(** C31: [search_graph] returns the rows of exactly the nodes that satisfy every
    given filter, each once, in the requested order, cut to the limit, and
    [count_search_graph] is their number before the cut.  The text filters are
    substrings and prefixes with the pattern characters taken literally, and
    they ignore the case of ASCII letters. *)
Theorem search_graph_exact (s : Db) (q : GraphQuery) :
  exists full,
    search_graph s q = Ok (take (q_limit q) full) /\
    count_search_graph s q = Ok (length full) /\
    NoDup (Row.id <$> full) /\ in_order_of s q full /\
    forall row, row ∈ full <-> exists i n, nodes s !! i = Some n /\
      row = node_to_row (row_of i n) /\ matches q (table edge_row (edges s)) (row_of i n).
Proof.
  destruct (candidates_db s q) as (rows & Hc & Hnd & Hrows).
  destruct (search_graph_run s q rows (Db_readable s) Hc) as (full & Hs & Hp & Hsorted).
  exists full. split_and!; [done| | |done|].
  - unfold count_search_graph. rewrite Hc. simpl. by rewrite Hp.
  - by rewrite Hp.
  - intros row. rewrite Hp. apply Hrows.
Qed.

Lemma min_by_spec {A} (cmp : A -> A -> comparison) `{!Comparator cmp} l :
  match min_by cmp l with
  | None => l = []
  | Some a => a ∈ l /\ forall b, b ∈ l -> cmp a b <> Gt
  end.
Proof.
  assert (forall a, cmp a a <> Gt) as Hrefl.
  { intros a Ha. pose proof (cmp_opp (cmp:=cmp) a a) as Ho. rewrite Ha in Ho. done. }
  induction l as [|a l IH]; simpl; [done|]. destruct (min_by cmp l) as [m|].
  - destruct IH as [Hm Hall]. destruct (cmp a m) eqn:Hc.
    1,2: split; [by left|]; intros b [->|Hb]%elem_of_cons; [apply Hrefl|];
      apply (cmp_trans (cmp:=cmp) a m b); [congruence | by apply Hall].
    split; [by right|]. intros b [->|Hb]%elem_of_cons; [|by apply Hall].
    rewrite (cmp_opp (cmp:=cmp) a m), Hc. done.
  - subst l. split; [by left|]. intros b [->|Hb%elem_of_nil]%elem_of_cons; [apply Hrefl | done].
Qed.

(** The rows of one file. *)
Definition file_row (s : Db) (project : option string) (file : string) (row : Row.t) : Prop :=
  exists i n, nodes s !! i = Some n /\ row = node_to_row (row_of i n) /\ n_file_path n = file /\
    if_given project (fun p => n_project n = p).

Definition file_query (project : option string) (file : string) : GraphQuery :=
  with_file (Some file) None (in_scope project (with_order File DEFAULT_LIMIT any_query)).

Lemma found_in_file (s : Db) project file row :
  found s (file_query project file) row <-> file_row s project file row.
Proof.
  unfold found, file_row. split.
  - intros (i & n & Hn & -> & Hm). exists i, n. split_and!; [done|done| |].
    + by apply (m_file_exact _ _ _ Hm).
    + intros p ->. by apply (m_project _ _ _ Hm).
  - intros (i & n & Hn & -> & Hf & Hp). exists i, n. split_and!; [done|done|].
    split; unfold file_query; destruct project as [p|]; simpl; intros x [=]; subst; try done.
    by apply Hp.
Qed.

(** The file has no more nodes than the row cap of the search. *)
Definition file_fits (s : Db) (project : option string) (file : string) : Prop :=
  exists k, count_search_graph s (file_query project file) = Ok k /\ (k <= DEFAULT_LIMIT)%nat.

Lemma symbols_in_file_run (s : Db) project file limit : file_fits s project file ->
  exists rows, symbols_in_file s project file limit = Ok (take limit rows) /\
    (length rows <= DEFAULT_LIMIT)%nat /\
    (forall r, r ∈ rows <-> file_row s project file r) /\
    StronglySorted (fun a b => by_source a b <> Gt) rows.
Proof.
  intros (k & Hk & Hle). destruct (candidates_db s (file_query project file)) as (rows & Hc & _ & Hrows).
  destruct (search_graph_run s (file_query project file) rows (Db_readable s) Hc) as (full & Hs & Hp & _).
  unfold count_search_graph in Hk. rewrite Hc in Hk. injection Hk as <-.
  exists (sort_by by_source full). split_and!.
  - unfold symbols_in_file. fold (file_query project file). rewrite Hs. simpl.
    rewrite (take_ge full); [done|]. rewrite Hp. by destruct project.
  - by rewrite (sort_by_Permutation by_source), Hp.
  - intros r. rewrite (elem_of_sort_by by_source), Hp, Hrows. apply found_in_file.
  - apply sort_by_sorted, _.
Qed.

(** [definition_at] answers [None] exactly when no symbol of the file
    encloses the line, and otherwise a symbol of the file that does, of those
    one that starts last, and of those one that ends first. *)
Theorem definition_at_innermost (s : Db) project file line :
  file_fits s project file ->
  exists o, definition_at s project file line = Ok o /\
    match o with
    | None => forall r, file_row s project file r ->
        ~ (Row.start_line r <= line <= Row.end_line r)%Z
    | Some r => file_row s project file r /\ (Row.start_line r <= line <= Row.end_line r)%Z /\
        forall r', file_row s project file r' -> (Row.start_line r' <= line <= Row.end_line r')%Z ->
          (Row.start_line r' < Row.start_line r)%Z \/
          (Row.start_line r' = Row.start_line r /\ Row.end_line r <= Row.end_line r')%Z
    end.
Proof.
  intros Hfit.
  destruct (symbols_in_file_run s project file DEFAULT_LIMIT Hfit) as (rows & Hrun & Hlen & Hin & _).
  unfold definition_at. rewrite Hrun. cbn [res_bind]. rewrite take_ge by done. eexists. split; [done|].
  match goal with |- context [min_by by_innermost ?l] => pose proof (min_by_spec by_innermost l) as Hmin end.
  destruct (min_by by_innermost _) as [r|].
  - destruct Hmin as [[Hr Hrow]%list_elem_of_filter Hall]. split_and!; [by apply Hin|tauto|tauto|].
    intros r' Hrow' Hl'. assert (by_innermost r r' <> Gt) as Hle.
    { apply Hall, list_elem_of_filter. split; [done|]. by apply Hin. }
    unfold by_innermost, then_with, cmp_desc, cmp_on in Hle.
    destruct (Z.compare_spec (Row.start_line r') (Row.start_line r)); [|by left|done].
    destruct (Z.compare_spec (Row.end_line r) (Row.end_line r')); [right; lia..|done].
  - intros r Hrow Hl. apply Hin in Hrow.
    assert (r ∈ filter (fun r => Row.start_line r <= line /\ line <= Row.end_line r)%Z rows) as Hf
      by (by apply list_elem_of_filter).
    rewrite Hmin in Hf. by apply elem_of_nil in Hf.
Qed.

Lemma definition_at_innermost_witness : exists o,
  definition_at demo (Some "p"%string) "a.rs" 9 = Ok o /\
  o = Some (node_to_row (row_of 2 (demo_node "b" "a.rs" 7))).
Proof.
  destruct (definition_at_innermost demo (Some "p"%string) "a.rs" 9) as (o & Ho & _).
  { exists 2%nat. split; [vm_compute; reflexivity|]. unfold DEFAULT_LIMIT. lia. }
  exists o. split; [exact Ho|].
  assert (definition_at demo (Some "p"%string) "a.rs" 9
    = Ok (Some (node_to_row (row_of 2 (demo_node "b" "a.rs" 7))))) as Hrun by (vm_compute; reflexivity).
  rewrite Hrun in Ho. by injection Ho.
Defined.
