(* ===== verification/GraphCyclesSpec.v ===== *)
(** What [cycles] and [dependency_cluster] promise. *)

From S2P Require Import Prelude Loop CoreError RustStr RustText GraphStore GraphBfs GraphReach.
From S2P Require Import GraphSearch GraphPath GraphCycles GraphCluster.
From S2P Require Import GraphDb GraphDbFacts GraphSearch GraphDemo.

(** ** The order of the cycles *)

Lemma lex_compare_opp a b : lex_compare b a = CompOpp (lex_compare a b).
Proof.
  revert b. induction a as [|x a IH]; intros [|y b]; simpl; try done.
  rewrite (Z.compare_antisym x y), IH. by destruct (x ?= y).
Qed.

Lemma lex_compare_trans a b c :
  lex_compare a b <> Gt -> lex_compare b c <> Gt -> lex_compare a c <> Gt.
Proof.
  revert b c. induction a as [|x a IH]; intros [|y b] [|z c]; simpl; try done.
  destruct (Z.compare_spec x y), (Z.compare_spec y z), (Z.compare_spec x z); try lia; try done.
  apply IH.
Qed.

Lemma lex_compare_eq a b : lex_compare a b = Eq -> a = b.
Proof.
  revert b. induction a as [|x a IH]; intros [|y b]; simpl; try done.
  destruct (Z.compare_spec x y) as [->| |]; try done. by intros ->%IH.
Qed.

#[export] Instance lex_comparator : Comparator lex_compare.
Proof. split; [apply lex_compare_opp | apply lex_compare_trans]. Qed.
#[export] Instance by_len_comparator : Comparator by_len.
Proof. unfold by_len. apply _. Qed.

Section CyclesSpec.
Context {S : Type} `{GraphStoreLaws S} `{GraphTables S}.
Context (w : forall A, list A -> list A) `{!HashOrder w}.
Implicit Types s : S.

(** The calls between the symbols in scope. *)
Definition scope_adj (s : S) (rows : list Row.t) (n : Z) : list Z :=
  if decide (n ∈ Row.id <$> rows)
  then filter (fun t => t ∈ Row.id <$> rows)
         (next_ids s Outgoing (Some "CALLS"%string) MAX_REACH_RESULTS n)
  else [].

Lemma cycle_adj_spec s rows : readable s ->
  exists adj, cycle_adj s rows = Ok adj /\ forall n, default [] (adj !! n) = scope_adj s rows n.
Proof.
  intros [_ Hr]. unfold cycle_adj.
  set (ids := Row.id <$> rows). set (I := list_to_set ids : gset Z).
  rewrite (try_fold_pure (fun adj r => <[Row.id r := filter (fun t => t ∈ I)
    (next_ids s Outgoing (Some "CALLS"%string) MAX_REACH_RESULTS (Row.id r))]> adj)); cycle 1.
  { intros adj r _. unfold next_ids. destruct (Hr Outgoing (Row.id r) (Some "CALLS"%string) MAX_REACH_RESULTS)
      as [es ->]. done. }
  eexists. split; [done|]. intros n.
  assert (forall l (adj : gmap Z (list Z)), default [] (foldl (fun adj r => <[Row.id r := filter (fun t => t ∈ I)
      (next_ids s Outgoing (Some "CALLS"%string) MAX_REACH_RESULTS (Row.id r))]> adj) adj l !! n)
    = if decide (n ∈ Row.id <$> l) then filter (fun t => t ∈ I)
        (next_ids s Outgoing (Some "CALLS"%string) MAX_REACH_RESULTS n) else default [] (adj !! n)) as Hf.
  { induction l as [|r l IH]; intros adj; cbn [foldl]; [done|]. rewrite IH, fmap_cons.
    destruct (decide (n ∈ Row.id <$> l)) as [Hin|Hin].
    { rewrite decide_True; [done|]. by right. }
    destruct (decide (n = Row.id r)) as [->|Hne].
    - rewrite lookup_insert_eq, decide_True by left. done.
    - rewrite lookup_insert_ne by done. rewrite decide_False; [done|].
      intros [?|?]%elem_of_cons; done. }
  rewrite Hf. unfold scope_adj. fold ids. case_decide; [|done].
  apply list_filter_iff. intros x. unfold I. by rewrite elem_of_list_to_set.
Qed.

Lemma simple_cycle_ext adj1 adj2 k l :
  (forall n, adj1 n = adj2 n) -> simple_cycle adj1 k l -> simple_cycle adj2 k l.
Proof.
  intros He (a & Hh & Hnd & Hl & Hmin & (z & Hz & Hza) & Hlen). exists a.
  split_and!; [done|done| |done|exists z; by rewrite <- He|done].
  clear -He Hl. revert Hl. induction l as [|x l IH]; simpl; [done|]. destruct l as [|y l]; [done|].
  rewrite He. intros [? ?]. split; [done | by apply IH].
Qed.

(** C30: [cycles] ends and reports exactly the simple call cycles between the
    symbols in scope of at most the smaller of [max_len] and 16 nodes, each
    once, written from its smallest id, the shortest first and then in
    lexicographic order, cut to [limit]; the order in which the hash set is
    walked does not matter. *)
Theorem cycles_exact s project max_len limit rows :
  readable s -> search_graph s (in_scope project any_query) = Ok rows ->
  (0 < max_len)%nat -> (0 < limit)%nat ->
  exists full, cycles w s project max_len limit = Some (Ok (take limit full)) /\
    (forall l, l ∈ full <-> simple_cycle (scope_adj s rows) (Nat.min max_len 16) l) /\
    NoDup full /\ StronglySorted (fun a b => by_len a b <> Gt) full.
Proof.
  intros Hr Hrows Hmax Hlim. unfold cycles. change MAX_CYCLE_LEN with 16%nat.
  destruct (Nat.eqb_spec (Nat.min max_len 16) 0); [lia|]. destruct (Nat.eqb_spec limit 0); [lia|].
  simpl. rewrite Hrows. destruct (cycle_adj_spec s rows Hr) as (adj & -> & Hadj).
  destruct (find_cycles_spec adj (Row.id <$> rows) (Nat.min max_len 16)) as (found & -> & Hfound); [lia|].
  eexists. split; [done|]. split_and!.
  - intros l. rewrite (elem_of_sort_by by_len), (elem_of_walk w), elem_of_elements, Hfound. split.
    + intros [Hc _]. exact (simple_cycle_ext _ _ _ _ Hadj Hc).
    + intros Hc. split; [by apply (simple_cycle_ext (scope_adj s rows))|].
      destruct Hc as (a & Hh & _ & _ & _ & (z & _ & Hza) & _). exists a. split; [|done].
      unfold scope_adj in Hza. case_decide; [|by apply elem_of_nil in Hza].
      by apply list_elem_of_filter in Hza as [? _].
  - rewrite (sort_by_Permutation by_len), (hash_order_permutation _ (elements found)). apply NoDup_elements.
  - apply sort_by_sorted. apply _.
Qed.

(** [dependency_cluster] ends.  When it reports the whole cluster, its rows
    are those of the connected component of the seed over imports followed in
    both directions, each once, ordered by name and id; when it reports a
    truncated one, it collected as many ids as the limit allows, all of them
    in the component, and the component has more. *)
Theorem dependency_cluster_exact s seed limit nd :
  node_at s seed = Ok (Some nd) ->
  exists r, dependency_cluster w s seed limit = Some r /\
    (readable s -> is_ok r = true) /\
    forall o, r = Ok o -> exists c ids, o = Some c /\ NoDup ids /\
      (length ids <= Nat.max 1 limit)%nat /\ (Z.of_nat (length ids) <= 10000)%Z /\
      (forall n, n ∈ ids -> component s seed n) /\ seed ∈ ids /\
      (forall row, row ∈ cluster_nodes c <->
         exists nd, Node.id nd ∈ ids /\ node_at s (Node.id nd) = Ok (Some nd) /\ row = node_to_row nd) /\
      StronglySorted (fun a b => row_by_qname a b <> Gt) (cluster_nodes c) /\
      if cluster_truncated c
      then length ids = Nat.max 1 (Nat.min limit MAX_REACH_RESULTS) /\ exists n, component s seed n /\ n ∉ ids
      else forall n, component s seed n -> n ∈ ids.
Proof.
  intros Hnd. unfold dependency_cluster. rewrite Hnd.
  set (lim := Nat.max 1 (Nat.min limit MAX_REACH_RESULTS)).
  destruct (cluster_loop s seed lim) as (r & -> & Hok & Hres); [lia|].
  rewrite after_some. eexists. split; [done|]. split.
  { intros Hr. specialize (Hok Hr). destruct r as [[ids trunc]| |]; simpl in *; [|done..].
    destruct (rows_of_total s (w _ (elements ids)) Hr) as [rows ->]. done. }
  intros o Ho. destruct r as [[ids trunc]| |]; simpl in Ho; [|done..].
  destruct (rows_of s (w _ (elements ids))) as [rows| |] eqn:Hrows; simpl in Ho; [|done..].
  injection Ho as <-. destruct (Hres ids trunc eq_refl) as (Hseed & Hsz & Hin & Hall & Htr).
  assert (length (elements ids) = size ids) as Hlen by done.
  eexists _, (elements ids). split; [done|]. cbn [cluster_nodes cluster_truncated]. rewrite Hlen.
  assert (10000 = Z.of_nat MAX_REACH_RESULTS)%Z as Hmax by (unfold MAX_REACH_RESULTS; lia).
  split_and!; [apply NoDup_elements|lia|lia| |by apply elem_of_elements| | |].
  - intros n Hn. apply Hin. by apply elem_of_elements.
  - intros row. rewrite (elem_of_sort_by row_by_qname), (elem_of_rows_of _ _ _ Hrows).
    split.
    + intros (nd' & Hid & Hn & ->). exists nd'. rewrite (elem_of_walk w) in Hid. done.
    + intros (nd' & Hid & Hn & ->). exists nd'. rewrite (elem_of_walk w). done.
  - apply sort_by_sorted. apply _.
  - destruct trunc; [|intros n Hn; by apply elem_of_elements, Hall].
    destruct (Htr eq_refl) as [-> (n & Hn & Hni)]. split; [done|]. exists n.
    by rewrite elem_of_elements.
Qed.
End CyclesSpec.

Abbreviation in_order := (fun (A : Type) (l : list A) => l).

Lemma cycles_exact_witness : exists full,
  cycles in_order demo None 9 5 = Some (Ok (take 5 full)) /\ NoDup full /\
  take 5 full = [[1; 3]; [1; 2; 3]]%Z.
Proof.
  destruct (search_graph demo (in_scope None any_query)) as [rows| |] eqn:Hrows;
    [|vm_compute in Hrows; discriminate Hrows..].
  destruct (cycles_exact in_order demo None 9 5 rows (Db_readable demo) Hrows)
    as (full & Hrun & _ & Hnd & _); [lia..|].
  exists full. split_and!; [exact Hrun | exact Hnd |].
  assert (cycles in_order demo None 9 5 = Some (Ok [[1; 3]; [1; 2; 3]]%Z)) as Hc
    by (vm_compute; reflexivity).
  rewrite Hrun in Hc. by injection Hc.
Defined.

Lemma dependency_cluster_exact_witness : exists c,
  dependency_cluster in_order demo 4 1 = Some (Ok (Some c)) /\ cluster_truncated c = true /\
  exists n, component demo 4 n /\ n <> 4%Z.
Proof.
  destruct (dependency_cluster_exact in_order demo 4 1 (row_of 4 (demo_node "d" "b.rs" 7)))
    as (r & Hr & _ & Ho); [vm_compute; reflexivity|].
  assert (dependency_cluster in_order demo 4 1 = Some (Ok (Some {| cluster_truncated := true;
    cluster_nodes := [node_to_row (row_of 4 (demo_node "d" "b.rs" 7))] |}))) as Hrun
    by (vm_compute; reflexivity).
  rewrite Hrun in Hr. injection Hr as <-.
  destruct (Ho _ eq_refl) as (c & ids & Hc & _ & _ & _ & _ & Hseed & _ & _ & Htr).
  injection Hc as <-. simpl in Htr. destruct Htr as [_ (n & Hn & Hni)].
  eexists. split; [exact Hrun|]. split; [reflexivity|]. exists n. split; [exact Hn|]. by intros ->.
Defined.
