(* ===== verification/GraphDbSpec.v ===== *)
(** What the writers of the graph store promise. *)

From stdpp Require Import gmultiset.
From S2P Require Import Prelude Loop RustStr RustText Fts GraphStore GraphDb GraphDbFacts GraphDemo.

(** ** Histories

    The calls that write projects, nodes, edges and vectors. *)

Inductive db_op : Type :=
| OpProject (p : Project)
| OpDeleteProject (name : string)
| OpInsertNode (n : NewNode)
| OpInsertNodes (ns : list NewNode)
| OpDeleteNode (id : Z)
| OpDeleteFile (project file : string)
| OpDeleteVectors (project file : string)
| OpIdentity (id : Z) (label qname : string)
| OpSpans (spans : list (Z * Z * Z))
| OpInsertEdge (e : NewEdge)
| OpVectors (es : list NewVectorEmbedding)
| OpPrune (project : string) (generation : Z).

Section DbSpec.
Context (uni_alnum : char -> bool).

(** A call, whatever it returns. *)
Definition run_op (s : Db) (o : db_op) : Db :=
  match o with
  | OpProject p => (upsert_project p s).2
  | OpDeleteProject name => (delete_project name s).2
  | OpInsertNode n => (insert_node uni_alnum n s).2
  | OpInsertNodes ns => (insert_nodes uni_alnum ns s).2
  | OpDeleteNode id => (delete_node uni_alnum id s).2
  | OpDeleteFile project file => (delete_nodes_for_file uni_alnum project file s).2
  | OpDeleteVectors project file => (delete_vector_embeddings_for_file project file s).2
  | OpIdentity id label qname => (update_node_identity uni_alnum id label qname s).2
  | OpSpans spans => (update_node_spans spans s).2
  | OpInsertEdge e => (insert_edge e s).2
  | OpVectors es => (upsert_vector_embeddings es s).2
  | OpPrune project generation => (prune_vector_embeddings_before_generation project generation s).2
  end.

Definition deletes_project (o : db_op) : bool :=
  match o with OpDeleteProject _ => true | _ => false end.

Lemma run_op_keeps stale s o :
  deletes_project o = false -> db_wf_with uni_alnum stale s -> db_wf_with uni_alnum stale (run_op s o).
Proof.
  intros Ho Hs. destruct o; try done; cbn [run_op];
    match goal with |- db_wf_with _ _ (snd ?m) => destruct m as [r s'] eqn:Hm end; cbn [snd];
    [by eapply upsert_project_keeps|by eapply insert_node_keeps|by eapply insert_nodes_keeps
    |by eapply delete_node_keeps|by eapply delete_nodes_for_file_keeps|by eapply delete_vectors_file_keeps
    |by eapply update_node_identity_keeps|by eapply update_node_spans_keeps|by eapply insert_edge_keeps
    |by eapply upsert_vectors_keeps|by eapply prune_vectors_keeps].
Qed.

Lemma run_op_leaves stale s o :
  db_wf_with uni_alnum stale s -> exists stale', db_wf_with uni_alnum stale' (run_op s o) /\
    (deletes_project o = false -> stale' = stale).
Proof.
  intros Hs. destruct (deletes_project o) eqn:Ho.
  - destruct o; try done. destruct (delete_project_leaves _ stale name s Hs) as (s' & Hrun & Hs').
    eexists. split; [cbn [run_op]; rewrite Hrun; exact Hs'|done].
  - exists stale. split; [by apply run_op_keeps|done].
Qed.

Lemma run_ops_leave stale s ops :
  db_wf_with uni_alnum stale s -> exists stale', db_wf_with uni_alnum stale' (foldl run_op s ops) /\
    (existsb deletes_project ops = false -> stale' = stale).
Proof.
  revert stale s. induction ops as [|o ops IH]; intros stale s Hs; simpl; [by exists stale|].
  destruct (run_op_leaves stale s o Hs) as (st1 & H1 & Ho).
  destruct (IH st1 _ H1) as (st2 & H2 & Hops). exists st2. split; [done|].
  intros [H3 H4]%orb_false_iff. by rewrite Hops, Ho.
Qed.

Lemma run_op_wf s o : deletes_project o = false -> db_wf uni_alnum s -> db_wf uni_alnum (run_op s o).
Proof. rewrite !db_wf_no_stale. apply run_op_keeps. Qed.

(** C14: Whatever sequence of writes of projects, nodes, edges and vectors is
    made on a well-formed store, deletions of projects included, and whether
    each succeeds or fails: ids come from the sequences; no project has two
    nodes of one qualified name, no two edges have the same ends and type, no
    two vectors the same key; every node, edge and vector refers to rows that
    exist; and the full-text table holds the posting of every row of [nodes]
    once and besides them only postings whose rowid is the id of no row and
    will not be given out again, none at all when the sequence deletes no
    project. *)
Theorem db_writes_wf (s : Db) (ops : list db_op) :
  db_wf uni_alnum s ->
  tables_ok (foldl run_op s ops) /\
  exists stale, nodes_fts (foldl run_op s ops) = fts_of uni_alnum (nodes (foldl run_op s ops)) ⊎ stale /\
    (forall p, p ∈ stale -> gone (foldl run_op s ops) p) /\
    (existsb deletes_project ops = false -> stale = ∅).
Proof.
  intros Hs%db_wf_no_stale. destruct (run_ops_leave ∅ s ops Hs) as (stale & (Ht & Hf & Hg) & Hno).
  split; [done|]. by exists stale.
Qed.

(** ** Nodes *)

Lemma insert_node_run n s i s' :
  insert_node uni_alnum n s = (Ok i, s') ->
  nodes s' = <[i := n]> (nodes s) /\ edges s' = edges s /\ projects s' = projects s.
Proof.
  intros Hrun%atomically_ok_inv. unfold insert_node_in_tx in Hrun.
  apply bind_ok_inv in Hrun as (o & s1 & Hg & Hrun). apply select_named in Hg as [-> _].
  apply bind_ok_inv in Hrun as ([] & s1 & Hdel & Hrun).
  assert (nodes s1 = nodes s /\ edges s1 = edges s /\ projects s1 = projects s) as (<- & <- & <-)
    by (destruct o; by injection Hdel as <-).
  apply bind_ok_inv in Hrun as (ps & s2 & [= <- <-] & Hrun).
  apply bind_ok_inv in Hrun as ([] & s2 & [_ ->]%guard_ok_inv & Hrun).
  apply bind_ok_inv in Hrun as (j & s2 & Hid & Hrun). injection Hrun as <- <-. simpl.
  destruct o as [old|]; [by injection Hid as <- <-|].
  unfold fresh_node_id in Hid. erewrite bind_ok in Hid by done.
  apply bind_ok_inv in Hid as ([] & s3 & [_ ->]%guard_ok_inv & Hid). by injection Hid as <- <-.
Qed.

Lemma named_row s i n o s' :
  tables_ok s -> nodes s !! i = Some n ->
  get_node_by_qname (n_project n) (n_qualified_name n) s = (o, s') ->
  o = Ok (Some (row_of i n)) /\ s' = s.
Proof.
  intros Hs Hi Hg. destruct o as [o|e|]; [|by unfold get_node_by_qname, gets in Hg..].
  destruct (select_named _ _ _ _ _ Hg) as [-> Ho]. split; [|done]. destruct o as [m|].
  - destruct Ho as (a & Ha & -> & Hp & Hq).
    assert (Node.id m = i) as Hid by (by eapply (ok_names s Hs)). rewrite Hid in Ha |- *.
    rewrite Hi in Ha. by injection Ha as ->.
  - by destruct (Ho i n Hi).
Qed.

(** C32: A node that was inserted is read back, by id and by qualified name,
    exactly as given; its posting is in the full-text table once; no other row
    and no edge changed; and inserting a node of the same name later gives the
    same id and replaces the row. *)
Theorem insert_node_roundtrip n s i s' :
  db_wf uni_alnum s -> insert_node uni_alnum n s = (Ok i, s') ->
  get_node s' i = Ok (Some (row_of i n)) /\
  get_node_by_qname (n_project n) (n_qualified_name n) s' = (Ok (Some (row_of i n)), s') /\
  nodes_fts s' = fts_of uni_alnum (<[i := n]> (nodes s)) /\
  (forall j, j <> i -> get_node s' j = get_node s j) /\ edges s' = edges s /\
  forall n' j s'', n_project n' = n_project n -> n_qualified_name n' = n_qualified_name n ->
    insert_node uni_alnum n' s' = (Ok j, s'') -> j = i /\ nodes s'' = <[i := n']> (nodes s).
Proof.
  intros Hs Hrun. pose proof (insert_node_wf _ _ _ _ _ Hs Hrun) as Hs'.
  destruct (insert_node_run _ _ _ _ Hrun) as (Hn & He & _).
  assert (nodes s' !! i = Some n) as Hi by (by rewrite Hn, lookup_insert_eq).
  split_and!.
  - simpl. unfold select_node. by rewrite Hi.
  - destruct (get_node_by_qname _ _ s') as [o s2] eqn:Hg.
    by destruct (named_row s' i n o s2 (proj1 Hs') Hi Hg) as [-> ->].
  - destruct Hs' as [_ Hf]. by rewrite Hf, Hn.
  - intros j Hj. simpl. unfold select_node. by rewrite Hn, lookup_insert_ne.
  - done.
  - intros n' j s'' Hp Hq Hrun'. pose proof (insert_node_wf _ _ _ _ _ Hs' Hrun') as [Hs'' _].
    destruct (insert_node_run _ _ _ _ Hrun') as (Hn' & _).
    assert (j = i) as ->.
    { destruct (decide (j = i)) as [|Hne]; [done|]. eapply (ok_names s'' Hs'' j i n' n); try done.
      - by rewrite Hn', lookup_insert_eq.
      - by rewrite Hn', lookup_insert_ne. }
    by rewrite Hn', Hn, insert_insert_eq.
Qed.

(** ** Projects *)

(** C33: Deleting a project takes its nodes, edges and vectors away and keeps
    the references of the other rows live, but leaves the full-text table as
    it was: the postings of the deleted nodes stay behind, so that the table
    no longer agrees with [nodes]. *)
Theorem delete_project_keeps_postings s i n :
  db_wf uni_alnum s -> nodes s !! i = Some n ->
  exists s', delete_project (n_project n) s = (Ok tt, s') /\ tables_ok s' /\
    nodes s' = filter (fun x => n_project x.2 <> n_project n) (nodes s) /\
    get_node s' i = Ok None /\ posting_of uni_alnum (row_of i n) ∈ nodes_fts s' /\
    ~ fts_ok uni_alnum s'.
Proof.
  intros [Hs Hf] Hi. destruct (delete_project_tables (n_project n) s Hs) as (s' & Hrun & Hs' & Hfts & Hn & _).
  assert (nodes s' !! i = None) as Hgone.
  { rewrite Hn. apply map_lookup_filter_None. right. intros m Hm. simpl. rewrite Hi in Hm.
    injection Hm as <-. auto. }
  assert (posting_of uni_alnum (row_of i n) ∈ nodes_fts s') as Hp.
  { rewrite Hfts, Hf, (fts_of_lookup _ _ _ _ Hi). multiset_solver. }
  exists s'. split_and!; [done|done|done|simpl; unfold select_node; by rewrite Hgone|done|].
  unfold fts_ok. intros Heq. rewrite Heq in Hp. apply elem_of_list_to_set_disj, list_elem_of_fmap in Hp.
  destruct Hp as ([j m] & Hpost & Hm%elem_of_map_to_list). unfold posting_of in Hpost. simpl in Hpost.
  injection Hpost as Hij _. subst j. congruence.
Qed.
End DbSpec.

(** ** Edges *)

(** Inserting an edge either fails and changes nothing, or returns the id
    of the one edge with its ends and type, which then has the given
    properties; a new edge belongs to an existing project and joins existing
    nodes; every other row is as before, and inserting the edge again with
    other properties gives the same id. *)
Theorem insert_edge_upsert uni_alnum e s :
  db_wf uni_alnum s ->
  match insert_edge e s with
  | (Ok i, s') =>
      (exists x, edges s' !! i = Some x /\ same_edge e (edge_row i x) /\ e_properties x = e_properties e) /\
      (forall j x, edges s' !! j = Some x -> same_edge e (edge_row j x) -> j = i) /\
      (edges s !! i = None -> live_edge s e) /\
      (forall j, j <> i -> edges s' !! j = edges s !! j) /\ nodes s' = nodes s /\
      forall props, (insert_edge (set_edge_properties props e) s').1 = Ok i
  | (_, s') => s' = s
  end.
Proof.
  intros Hs. destruct (insert_edge e s) as [[i|err|] s'] eqn:Hrun.
  2,3: unfold insert_edge in Hrun; by apply atomically_rollback in Hrun.
  pose proof (insert_edge_wf _ _ _ _ _ Hs Hrun) as [Hs' _].
  assert (exists x, edges s' !! i = Some x /\ same_edge e (edge_row i x) /\ e_properties x = e_properties e) as Hx.
  { apply insert_edge_run in Hrun as [(x & Hx & H1 & H2 & H3 & ->)|(_ & _ & _ & _ & ->)].
    - exists (set_edge_properties (e_properties e) x). split; [|done]. simpl.
      by rewrite lookup_alter_eq, Hx.
    - exists e. split; [|done]. simpl. by rewrite lookup_insert_eq. }
  assert (forall j x, edges s' !! j = Some x -> same_edge e (edge_row j x) -> j = i) as Huniq.
  { intros j y Hj (J1 & J2 & J3). destruct Hx as (x & Hi & (I1 & I2 & I3) & _). simpl in *.
    eapply (ok_triples s' Hs'); [done|done|congruence..]. }
  split_and!; [done|done| | | |].
  - intros Hnone. apply insert_edge_run in Hrun as [(x & Hx' & _)|(_ & Hl & _)]; [congruence | done].
  - intros j Hj. apply insert_edge_run in Hrun as [(x & _ & _ & _ & _ & ->)|(_ & _ & _ & _ & ->)]; simpl.
    + by rewrite lookup_alter_ne.
    + by rewrite lookup_insert_ne.
  - by apply insert_edge_run in Hrun as [(x & _ & _ & _ & _ & ->)|(_ & _ & _ & _ & ->)].
  - intros props. unfold insert_edge at 1.
    destruct (head (rows_where edge_row (same_edge (set_edge_properties props e)) (edges s'))) as [y|] eqn:Hh.
    + unfold atomically. erewrite bind_ok by done. rewrite Hh. simpl. f_equal.
      apply head_rows_where in Hh as [Hsame (j & z & Hz & ->)]. by apply (Huniq j z).
    + destruct Hx as (x & Hi & Hsame & _). exfalso.
      exact (head_rows_where_None _ _ _ Hh i x Hi Hsame).
Qed.

(** ** On the demonstration store *)

Lemma demo_wf : db_wf no_alnum demo.
Proof.
  assert (demo = foldl (run_op no_alnum) empty_db
    [OpProject {| p_name := "p"; p_indexed_at := "x"; p_root_path := "/p" |};
     OpInsertNodes [demo_node "a" "a.rs" 1; demo_node "b" "a.rs" 7; demo_node "c" "b.rs" 1;
                    demo_node "d" "b.rs" 7];
     OpInsertEdge (demo_edge 1 2 "CALLS"); OpInsertEdge (demo_edge 2 3 "CALLS");
     OpInsertEdge (demo_edge 3 1 "CALLS"); OpInsertEdge (demo_edge 1 3 "CALLS");
     OpInsertEdge (demo_edge 1 4 "IMPORTS")]) as -> by (vm_compute; reflexivity).
  cbn [foldl]. do 7 (apply run_op_wf; [reflexivity|]). apply empty_db_wf.
Qed.

(** A vector of the node 1 with the one component 1.0. *)
Definition demo_vector : NewVectorEmbedding :=
  {| v_project := "p"; v_model_id := "m"; v_prompt_version := "1"; v_task := "code"; v_node_id := Some 1%Z;
     v_chunk_idx := 0; v_qualified_name := "p.a"; v_file_path := "a.rs"; v_start_line := 1; v_end_line := 5;
     v_content_sha256 := "0123456789abcdef0123456789abcdef0123456789abcdef0123456789abcdef";
     v_graph_generation := 1; v_vector := [SpecFloat.S754_finite false 8388608 (-23)] |}.

(** A vector is written twice and read once; then the project goes, with its
    nodes and the vector, and the postings stay. *)
Lemma db_writes_wf_witness :
  (size (vectors (foldl (run_op no_alnum) demo [OpVectors [demo_vector]; OpVectors [demo_vector]])) = 1%nat /\
   tables_ok (foldl (run_op no_alnum) demo [OpVectors [demo_vector]; OpVectors [demo_vector]])) /\
  size (vectors (foldl (run_op no_alnum) demo [OpVectors [demo_vector]; OpDeleteProject "p"])) = 0%nat /\
  exists stale, nodes_fts (foldl (run_op no_alnum) demo [OpVectors [demo_vector]; OpDeleteProject "p"]) = stale /\
    size stale = 4%nat.
Proof.
  split_and!.
  - vm_compute. reflexivity.
  - exact (proj1 (db_writes_wf no_alnum demo _ demo_wf)).
  - vm_compute. reflexivity.
  - eexists. split; [reflexivity|]. vm_compute. reflexivity.
Defined.

Lemma insert_node_roundtrip_witness : exists i s',
  insert_node no_alnum (demo_node "e" "c.rs" 3) demo = (Ok i, s') /\
  get_node s' i = Ok (Some (row_of i (demo_node "e" "c.rs" 3))).
Proof.
  destruct (insert_node no_alnum (demo_node "e" "c.rs" 3) demo) as [[i| |] s'] eqn:Hrun;
    [|vm_compute in Hrun; discriminate Hrun..].
  exists i, s'. split; [reflexivity|].
  exact (proj1 (insert_node_roundtrip no_alnum _ _ _ _ demo_wf Hrun)).
Defined.

Lemma delete_project_keeps_postings_witness : exists s',
  delete_project "p" demo = (Ok tt, s') /\ ~ fts_ok no_alnum s'.
Proof.
  destruct (delete_project_keeps_postings no_alnum demo 1 (demo_node "a" "a.rs" 1) demo_wf)
    as (s' & Hrun & _ & _ & _ & _ & Hbad); [vm_compute; reflexivity|].
  exists s'. split; [exact Hrun | exact Hbad].
Defined.

Lemma insert_edge_upsert_witness :
  exists s', insert_edge (demo_edge 2 1 "CALLS") demo = (Ok 6%Z, s') /\
    forall props, (insert_edge (set_edge_properties props (demo_edge 2 1 "CALLS")) s').1 = Ok 6%Z.
Proof.
  pose proof (insert_edge_upsert no_alnum (demo_edge 2 1 "CALLS") demo demo_wf) as H.
  destruct (insert_edge (demo_edge 2 1 "CALLS") demo) as [[i| |] s'] eqn:Hrun;
    [|vm_compute in Hrun; discriminate Hrun..].
  assert (i = 6%Z) as -> by (vm_compute in Hrun; by injection Hrun).
  exists s'. split; [reflexivity|]. exact (proj2 (proj2 (proj2 (proj2 (proj2 H))))).
Defined.
