(* ===== verification/GraphRefsSpec.v ===== *)
(** What the reference queries promise. *)

From S2P Require Import Prelude Loop CoreError GraphStore GraphBfs GraphReach.
From S2P Require Import GraphSearch GraphCluster GraphRefs.
From S2P Require Import GraphDb GraphDbFacts GraphDbSpec GraphDemo.

(** ** On the tables of a store *)

Section DbRefs.
Context (s : Db) (targets : list Z).

(** No target has more incoming edges of one type than a listing holds. *)
Definition listings_fit : Prop :=
  forall t ty, t ∈ targets ->
    (length (rows_where edge_row (fun e => from_of Incoming e = t /\ type_matches (Some ty) e) (edges s))
     <= MAX_REACH_RESULTS)%nat.

(** An edge of the table that refers to a target. *)
Definition reference_edge (t : Z) (x : Z * string) : Prop :=
  exists i e, edges s !! i = Some e /\ e_target_id e = t /\ e_source_id e = x.1 /\
    e_edge_type e = x.2 /\ x.1 <> t /\ x.2 ∈ REFERENCE_EDGE_TYPES.

Lemma next_ids_db d n ty limit x :
  x ∈ next_ids s d ty limit n -> exists i e, edges s !! i = Some e /\
    next_of d (edge_row i e) = x /\ from_of d (edge_row i e) = n /\ type_matches ty (edge_row i e).
Proof.
  unfold next_ids, edges_at. destruct d; simpl; intros (e & -> & He)%list_elem_of_fmap;
    apply select_edges_spec in He as (Hf & Ht & i & y & Hy & ->); eauto 10.
Qed.

Lemma refers_db t x : tables_ok s -> listings_fit -> t ∈ targets ->
  refers s t x <-> reference_edge t x.
Proof.
  intros Hs Hfit Ht. unfold refers, reference_edge. split.
  - intros (_ & Hne & Hty & Hin). apply next_ids_db in Hin as (i & e & He & Hn & Hf & Hm).
    simpl in *. eauto 10.
  - intros (i & e & He & Htgt & Hsrc & Hty & Hne & Hin). split_and!; [|done|done|].
    + destruct (ok_edges s Hs i e He) as (_ & _ & [n Hn]). rewrite Htgt in Hn.
      exists (row_of t n). unfold node_at, from_store. simpl. unfold select_node. by rewrite Hn.
    + unfold next_ids. simpl. rewrite <- Hsrc. apply list_elem_of_fmap. exists (edge_row i e). split; [done|].
      apply select_edges_complete; try done. by apply Hfit.
Qed.

Lemma node_at_db n nd : node_at s n = Ok (Some nd) <-> exists a, nodes s !! n = Some a /\ nd = row_of n a.
Proof.
  unfold node_at, from_store. simpl. unfold select_node. destruct (nodes s !! n) as [a|]; simpl.
  - split; [intros [= <-]; eauto | by intros (b & [= <-] & ->)].
  - split; [done | by intros (b & ? & _)].
Qed.
End DbRefs.

(** [find_references_to_any] lists exactly the nodes with an edge of a
    reference type into one of the targets, itself left out, one row per node
    and type however many edges and targets there are, ordered by name, id and
    type, cut to the limit.  The hypotheses say that the store is one that the
    writers built and that no target has more than 10000 incoming edges of one
    type. *)
Theorem find_references_exact uni_alnum (s : Db) targets limit :
  db_wf uni_alnum s -> listings_fit s targets ->
  exists full, find_references_to_any s targets limit = Ok (take (Nat.min limit MAX_REACH_RESULTS) full) /\
    NoDup (ref_key <$> full) /\ StronglySorted (fun a b => by_reference a b <> Gt) full /\
    forall r, r ∈ full <-> (exists t, t ∈ targets /\ reference_edge s t (ref_key r)) /\
      exists n, nodes s !! Row.id (ref_node r) = Some n /\
        ref_node r = node_to_row (row_of (Row.id (ref_node r)) n).
Proof.
  intros [Hs _] Hfit.
  destruct (find_references_run s targets limit (Db_readable s)) as (full & Hrun & Hnd & Hso & Hrows).
  exists full. split_and!; [done..|]. intros r. rewrite Hrows.
  assert ((exists t, t ∈ targets /\ refers s t (ref_key r)) <->
          (exists t, t ∈ targets /\ reference_edge s t (ref_key r))) as ->.
  { split; intros (t & Ht & Hr); exists t; (split; [done|]); by apply (refers_db s targets). }
  apply and_iff_compat_l. split.
  - intros (nd & (a & Ha & ->)%node_at_db & Hr). eauto.
  - intros (n & Hn & Hr). exists (row_of (Row.id (ref_node r)) n). rewrite node_at_db. eauto.
Qed.

Lemma count_references_run (s : Db) project targets :
  count_references_to_any s project targets
    = Ok (size (reference_groups project (filter (fun t => is_Some (nodes s !! t)) targets)
                  (table edge_row (edges s)))).
Proof.
  assert (forall es, size (reference_groups project [] es) = 0%nat) as Hnil.
  { intros es. unfold reference_groups. induction es as [|e es IH]; [done|]. rewrite filter_cons.
    rewrite decide_False; [done|]. intros (_ & Ht & _). by apply elem_of_nil in Ht. }
  assert (try_filter_map (fun t => let? o := node_at s t in
      Ok (match o with Some _ => Some t | None => None end)) targets
    = Ok (filter (fun t => is_Some (nodes s !! t)) targets)) as Hex.
  { induction targets as [|t ts IH]; [done|]. cbn [try_filter_map]. rewrite filter_cons.
    change (node_at s t) with (Ok (E := CoreError.Error) (row_of t <$> nodes s !! t)). cbn [res_bind].
    rewrite IH. destruct (nodes s !! t) as [n|]; cbn [res_bind fmap option_fmap option_map].
    - by rewrite decide_True by eauto.
    - by rewrite decide_False by (by intros [? ?]). }
  unfold count_references_to_any. destruct targets as [|t ts]; [by rewrite filter_nil, Hnil|].
  rewrite Hex. cbn [res_bind]. destruct (filter _ (t :: ts)) as [|u us]; [by rewrite Hnil|]. done.
Qed.

(** When the edges into the targets belong to the given project,
    [count_references_to_any] is the number of rows [find_references_to_any]
    would return without a limit. *)
Theorem count_references_agrees uni_alnum (s : Db) project targets limit :
  db_wf uni_alnum s -> listings_fit s targets ->
  (forall i e, edges s !! i = Some e -> e_target_id e ∈ targets -> e_project e = project) ->
  exists full, find_references_to_any s targets limit = Ok (take (Nat.min limit MAX_REACH_RESULTS) full) /\
    count_references_to_any s project targets = Ok (length full).
Proof.
  intros [Hs _] Hfit Hproj.
  destruct (find_references_run s targets limit (Db_readable s)) as (full & Hrun & Hnd & _ & Hrows).
  exists full. split; [done|]. rewrite count_references_run. f_equal.
  rewrite <- (length_fmap ref_key), <- (size_list_to_set (C := gset (Z * string))) by done.
  f_equal. apply leibniz_equiv. intros x. unfold reference_groups.
  rewrite !elem_of_list_to_set, !list_elem_of_fmap. split.
  - intros (e & -> & [(Hp & Htin & Hne & Hty) (i & y & Hy & ->)%elem_of_table]%list_elem_of_filter).
    apply list_elem_of_filter in Htin as [_ Htin]. simpl in *.
    destruct (ok_edges s Hs i y Hy) as (_ & [n Hn] & _).
    exists {| ref_type := e_edge_type y; ref_node := node_to_row (row_of (e_source_id y) n) |}.
    split; [done|]. apply Hrows. split.
    + exists (e_target_id y). split; [done|]. apply (refers_db s targets); [done..|].
      exists i, y. unfold ref_key. simpl. eauto 10.
    + exists (row_of (e_source_id y) n). split; [|done]. simpl. apply node_at_db. eauto.
  - intros (r & -> & Hr). apply Hrows in Hr as [(t & Ht & Href) _].
    apply (refers_db s targets) in Href as (i & e & He & Htgt & Hsrc & Hty & Hne & Hin); [|done..].
    exists (edge_row i e). split; [by rewrite (surjective_pairing (ref_key r)), <- Hsrc, <- Hty|].
    apply list_elem_of_filter. split; [|apply elem_of_table; eauto]. simpl. subst t.
    destruct (ok_edges s Hs i e He) as (_ & _ & Htn). split_and!; [by eapply Hproj| | |by rewrite Hty].
    + apply list_elem_of_filter. done.
    + by rewrite Hsrc.
Qed.

(** ** Unused symbols *)

Definition unused_query (project : string) (labels : list string) : GraphQuery :=
  let q := with_order QualifiedName MAX_REACH_RESULTS (with_project project any_query) in
  match labels with [l] => with_label l q | _ => q end.

Lemma found_unused (s : Db) project labels row :
  found s (unused_query project labels) row /\ (labels = [] \/ Row.label row ∈ labels) <->
  exists i n, nodes s !! i = Some n /\ row = node_to_row (row_of i n) /\ n_project n = project /\
    (labels = [] \/ n_label n ∈ labels).
Proof.
  unfold found. split.
  - intros [(i & n & Hn & -> & Hm) Hl]. exists i, n. split_and!; [done|done| |done].
    apply (m_project _ _ _ Hm). by destruct labels as [|l [|]].
  - intros (i & n & Hn & -> & Hp & Hl). split; [|done]. exists i, n. split_and!; [done|done|].
    destruct labels as [|l [|l' ls]]; split; simpl; intros x [=]; subst; try done.
    destruct Hl as [|Hl]; [done|]. by apply list_elem_of_singleton in Hl.
Qed.

Lemma next_ids_one (s : Db) ty n :
  next_ids s Incoming (Some ty) 1 n = [] <->
  forall i e, edges s !! i = Some e -> e_target_id e = n -> e_edge_type e <> ty.
Proof.
  change (next_ids s Incoming (Some ty) 1 n) with (next_of Incoming <$> select_edges Incoming s n (Some ty) 1).
  unfold select_edges. split.
  - intros Hnil%fmap_nil_inv i e He Hn Hty. assert (edge_row i e ∈ rows_where edge_row
      (fun e => from_of Incoming e = n /\ type_matches (Some ty) e) (edges s)) as Hin
      by (apply elem_of_rows_where; split; [done | eauto]).
    destruct (rows_where _ _ _); [by apply elem_of_nil in Hin | done].
  - intros Hno. destruct (rows_where _ _ _) as [|x l] eqn:Hl; [done|]. exfalso.
    assert (x ∈ x :: l) as Hx by left. rewrite <- Hl in Hx.
    apply elem_of_rows_where in Hx as [[Hn Hty] (i & e & He & ->)]. by apply (Hno i e).
Qed.

(** [unused_symbols] lists exactly the nodes of the project, of the given
    labels when any are given, into which no edge of a reference type leads,
    each once, ordered by name and id, cut to the limit; an edge from the node
    to itself counts as a use.  The hypothesis says that the search it starts
    from is not cut off at its 10000 rows. *)
Theorem unused_symbols_exact (s : Db) project labels limit k :
  count_search_graph s (unused_query project labels) = Ok k -> (k <= MAX_REACH_RESULTS)%nat ->
  exists full, unused_symbols s project labels limit = Ok (take (Nat.min limit MAX_REACH_RESULTS) full) /\
    NoDup (Row.id <$> full) /\ StronglySorted (fun a b => row_by_qname a b <> Gt) full /\
    forall row, row ∈ full <-> exists i n, nodes s !! i = Some n /\ row = node_to_row (row_of i n) /\
      n_project n = project /\ (labels = [] \/ n_label n ∈ labels) /\
      forall j e, edges s !! j = Some e -> e_target_id e = i -> e_edge_type e ∉ REFERENCE_EDGE_TYPES.
Proof.
  intros Hk Hle. destruct (candidates_db s (unused_query project labels)) as (rows & Hc & Hnd & Hrows).
  destruct (search_graph_run s _ rows (Db_readable s) Hc) as (all & Hs & Hp & Hso).
  unfold count_search_graph in Hk. rewrite Hc in Hk. injection Hk as <-.
  replace (q_limit (unused_query project labels)) with MAX_REACH_RESULTS in Hs
    by (by destruct labels as [|? [|]]).
  rewrite take_ge in Hs by (by rewrite Hp).
  exists (filter (scan_keeps s labels) all). split_and!.
  - unfold unused_symbols. fold (unused_query project labels). rewrite Hs.
    destruct (Nat.eqb_spec (Nat.min limit MAX_REACH_RESULTS) 0) as [->|Hlim]; [done|]. cbn [res_bind].
    rewrite unused_scan_spec; [|apply Db_readable|simpl; lia]. simpl. by rewrite Nat.sub_0_r.
  - rewrite <- Hp in Hnd. eapply sublist_NoDup; [exact Hnd|]. apply fmap_sublist, sublist_filter.
  - apply sorted_filter. unfold row_order in Hso. by destruct labels as [|? [|]].
  - intros row. rewrite list_elem_of_filter, Hp, Hrows. unfold scan_keeps. rewrite Forall_forall.
    setoid_rewrite next_ids_one. split.
    + intros [[Hl Hno] Hf]. destruct (proj1 (found_unused s project labels row) (conj Hf Hl))
        as (i & n & Hn & -> & ? & ?). exists i, n. split_and!; [done..|].
      intros j e He Ht Hty. by eapply Hno.
    + intros (i & n & Hn & -> & Hpr & Hl & Hno).
      destruct (proj2 (found_unused s project labels (node_to_row (row_of i n)))) as [Hf Hl'];
        [by exists i, n|]. split_and!; [done| |done].
      intros ty Hty j e He Ht <-. by eapply Hno.
Qed.

(** ** Co-change *)

Section CoChange.
Context {S : Type} `{GraphStoreLaws S}.
Context (w : forall A, list A -> list A) `{!HashOrder w}.
Implicit Types s : S.

Lemma co_rows (s : S) (counts : gmap Z nat) : readable s ->
  exists out, try_filter_map (fun '(id, k) =>
      let? o := node_at s id in
      Ok ((fun nd => {| shared := k; co_node := node_to_row nd |}) <$> o))
      (w _ (map_to_list counts)) = Ok out /\
    NoDup ((fun r => Row.id (co_node r)) <$> out) /\
    forall r, r ∈ out <-> counts !! Row.id (co_node r) = Some (shared r) /\
      exists nd, node_at s (Row.id (co_node r)) = Ok (Some nd) /\ co_node r = node_to_row nd.
Proof.
  intros [Hr _].
  match goal with |- exists out, try_filter_map ?f ?l = _ /\ _ =>
    destruct (try_filter_map_total f l) as [out Hout] end.
  { intros [n k] _. destruct (Hr n) as [o ->]. simpl. by eexists. }
  exists out. split; [done|]. split.
  { eapply (walk_rows_nodup w); [|exact Hout]. intros n k r. simpl.
    destruct (node_at s n) as [[nd|]| |] eqn:Hn; simpl; [|done..]. intros [= <-]. by eapply node_at_id. }
  intros r. rewrite (elem_of_try_filter_map _ _ _ _ Hout). split.
  - intros ([n k] & Hin & Hf). rewrite (elem_of_walk w), elem_of_map_to_list in Hin.
    destruct (node_at s n) as [[nd|]| |] eqn:Hn; simpl in Hf; [|done..]. injection Hf as <-. simpl.
    rewrite (node_at_id _ _ _ Hn). eauto.
  - intros [Hk (nd & Hn & Hc)]. exists (Row.id (co_node r), shared r).
    rewrite (elem_of_walk w), elem_of_map_to_list. split; [done|]. rewrite Hn. simpl.
    rewrite <- Hc. by destruct r.
Qed.

(** [co_change_candidates] lists exactly the nodes other than the seed that
    share a neighbour with it, each with the number of distinct neighbours
    they have in common, the strongest first, then by name and id, cut to the
    limit, whatever order the hash table is walked in. *)
Theorem co_change_exact s seed d ty limit nd :
  readable s -> node_at s seed = Ok (Some nd) ->
  exists full, co_change_candidates w s seed d ty limit
      = Ok (take (Nat.min limit MAX_REACH_RESULTS) full) /\
    NoDup ((fun r => Row.id (co_node r)) <$> full) /\
    StronglySorted (fun a b => by_shared a b <> Gt) full /\
    forall r, r ∈ full <->
      Row.id (co_node r) <> seed /\ (0 < shared r)%nat /\
      shared r = shared_with s (opposite d) ty (others s d ty seed) (Row.id (co_node r)) /\
      exists nd, node_at s (Row.id (co_node r)) = Ok (Some nd) /\ co_node r = node_to_row nd.
Proof.
  intros Hr Hnd.
  destruct (shared_counts s (opposite d) ty seed (others s d ty seed) ∅ Hr) as (counts & Hc & Hlook).
  destruct (co_rows s counts Hr) as (out & Hout & Hnd' & Hrows).
  exists (sort_by by_shared out). split_and!.
  - unfold co_change_candidates. destruct (Nat.eqb_spec (Nat.min limit MAX_REACH_RESULTS) 0) as [->|]; [done|].
    rewrite Hnd. cbn [res_bind]. rewrite direct_neighbours by done. cbn [res_bind].
    rewrite Hc. cbn [res_bind]. rewrite Hout. done.
  - by rewrite (sort_by_Permutation by_shared).
  - apply sort_by_sorted, _.
  - intros r. rewrite (elem_of_sort_by by_shared), Hrows, Hlook, lookup_empty. cbn [default].
    rewrite Nat.add_0_r. case_decide as Hz.
    + split; [by intros [? _]|]. intros (Hne & Hpos & Hsh & _). destruct Hz as [|Hz]; [done | lia].
    + apply Decidable.not_or in Hz as [Hne Hz]. split.
      * intros [[= Hsh] Hn]. split_and!; [done|lia|done|done].
      * intros (_ & _ & -> & Hn). done.
Qed.
End CoChange.

(** ** On the demonstration store *)

Abbreviation in_order := (fun (A : Type) (l : list A) => l).

Lemma demo_fits targets : listings_fit demo targets.
Proof.
  intros t ty _. transitivity (length (table edge_row (edges demo))); [unfold rows_where; apply length_filter; apply _|].
  replace (length (table edge_row (edges demo))) with 5%nat by (vm_compute; reflexivity).
  unfold MAX_REACH_RESULTS. lia.
Qed.

Lemma find_references_exact_witness : exists full,
  find_references_to_any demo [3%Z] 9 = Ok (take 9 full) /\ NoDup (ref_key <$> full).
Proof.
  destruct (find_references_exact no_alnum demo [3%Z] 9 demo_wf (demo_fits _)) as (full & Hrun & Hnd & _).
  exists full. split; [exact Hrun | exact Hnd].
Defined.

Lemma count_references_agrees_witness : exists full,
  find_references_to_any demo [3%Z] 9 = Ok (take 9 full) /\ length full = 2%nat.
Proof.
  destruct (count_references_agrees no_alnum demo "p" [3%Z] 9 demo_wf (demo_fits _)) as (full & Hrun & Hc).
  - intros i e He _.
    assert (bool_decide (Forall (fun x => e_project x.2 = "p"%string) (map_to_list (edges demo))) = true)
      as Hall by (vm_compute; reflexivity).
    apply bool_decide_eq_true_1 in Hall. rewrite Forall_forall in Hall.
    apply (Hall (i, e)). by apply elem_of_map_to_list.
  - exists full. split; [exact Hrun|]. vm_compute in Hc. by injection Hc.
Defined.

Lemma unused_symbols_exact_witness : exists full,
  unused_symbols demo "p" ["Function"%string] 9 = Ok (take 9 full) /\ NoDup (Row.id <$> full).
Proof.
  destruct (unused_symbols_exact demo "p" ["Function"%string] 9 4) as (full & Hrun & Hnd & _);
    [vm_compute; reflexivity | unfold MAX_REACH_RESULTS; lia|].
  exists full. split; [exact Hrun | exact Hnd].
Defined.

Lemma co_change_exact_witness : exists full,
  co_change_candidates in_order demo 1 Outgoing "CALLS" 9 = Ok (take 9 full) /\
  NoDup ((fun r => Row.id (co_node r)) <$> full).
Proof.
  destruct (co_change_exact in_order demo 1 Outgoing "CALLS" 9 (row_of 1 (demo_node "a" "a.rs" 1)))
    as (full & Hrun & Hnd & _); [apply Db_readable | vm_compute; reflexivity|].
  exists full. split; [exact Hrun | exact Hnd].
Defined.

(** A function that only calls itself: [find_references] finds nothing, and
    [unused_symbols] does not report it. *)
Definition recursive_db : Db :=
  Eval vm_compute in (insert_edge (demo_edge 1 1 "CALLS")
    (insert_nodes no_alnum [demo_node "f" "a.rs" 1]
      (upsert_project {| p_name := "p"; p_indexed_at := "x"; p_root_path := "/p" |} empty_db).2).2).2.

Example recursive_not_unused :
  find_references recursive_db 1 9 = Ok [] /\ unused_symbols recursive_db "p" [] 9 = Ok [].
Proof. split; vm_compute; reflexivity. Qed.
