(* ===== verification/GraphQueriesSpec.v ===== *)
(** What the path query and the full-text search promise. *)

From stdpp Require Import gmultiset.
From S2P Require Import Prelude Loop RustStr RustText Fts GraphStore GraphDb GraphDbFacts GraphQueries GraphDbSpec GraphDemo.
From S2P Require Import GraphSearch.
From Stdlib Require Import Ascii.
#[local] Open Scope string_scope.

(** ** The range of the paths below a path *)

Lemma utf8_valid_snoc fuel b x :
  (0 <= x <= 127)%Z -> (length b <= fuel)%nat -> utf8_valid fuel b = true ->
  utf8_valid (S fuel) (b ++ [x]) = true.
Proof.
  intros Hx. revert b. induction fuel as [|fuel IH]; intros [|y b] Hl Hv.
  1,3: simpl; by rewrite (proj2 (Z.leb_le _ _)) by lia.
  { simpl in Hl. lia. }
  simpl in Hl. cbn [app utf8_valid] in Hv |- *.
  destruct (y <=? 127)%Z; [apply IH; [lia|done]|].
  destruct (_ && _) in Hv |- *; [destruct b as [|z b]; [done|]; simpl in Hl |- *;
    apply andb_true_iff in Hv as [-> Hv]; apply IH; [lia|done]|].
  destruct (_ && _) in Hv |- *; [destruct b as [|z [|w b]]; [done..|]; simpl in Hl |- *;
    apply andb_true_iff in Hv as [-> Hv]; apply IH; [lia|done]|].
  destruct (_ && _) in Hv |- *; [|done]. destruct b as [|z [|w [|u b]]]; [done..|]. simpl in Hl |- *.
  apply andb_true_iff in Hv as [-> Hv]. apply IH; [lia|done].
Qed.

Lemma bytes_of_string_app a b : bytes_of_string (a +:+ b) = (bytes_of_string a ++ bytes_of_string b)%list.
Proof. induction a as [|c a IH]; simpl; [done|]. by rewrite IH. Qed.

(** A Rust string is valid UTF-8. *)
Definition utf8 (s : string) : Prop :=
  utf8_valid (length (bytes_of_string s)) (bytes_of_string s) = true.

Lemma upper_bound_slash p : utf8 p -> path_prefix_upper_bound (p +:+ "/") = p +:+ "0".
Proof.
  intros Hp. unfold path_prefix_upper_bound.
  rewrite bytes_of_string_app, reverse_app. change (reverse (bytes_of_string "/")) with [47%Z].
  cbn [app bump]. rewrite decide_False by done. rewrite reverse_cons, reverse_involutive.
  unfold from_utf8. rewrite length_app. cbn [length].
  rewrite Nat.add_1_r, utf8_valid_snoc by (done || lia). cbn [default].
  unfold default, from_option, id. change [(47 + 1)%Z] with (bytes_of_string "0"). rewrite <- bytes_of_string_app.
  apply string_of_bytes_of_string.
Qed.

Lemma between_slash_and_zero p x :
  (String.compare (p +:+ "/") x <> Gt /\ String.compare x (p +:+ "0") = Lt) <->
  exists t, x = p +:+ String "/" t.
Proof.
  revert x. induction p as [|c p IH]; intros x.
  - destruct x as [|d x]; [split; [by intros [? _] | by intros [? ?]]|]. simpl. unfold Ascii.compare.
    change (N_of_ascii "/") with 47%N. change (N_of_ascii "0") with 48%N. split.
    + intros [H1 H2]. assert (N_of_ascii d = 47%N) as Hd.
      { destruct (N.compare_spec 47 (N_of_ascii d)); destruct (N.compare_spec (N_of_ascii d) 48);
          try done; try lia. by destruct x. }
      exists x. f_equal. rewrite <- (ascii_N_embedding d), Hd. done.
    + intros [t [= -> ->]]. change (N_of_ascii "/") with 47%N. simpl. by destruct t.
  - destruct x as [|d x]; [split; [by intros [? _] | by intros [? ?]]|]. simpl. unfold Ascii.compare.
    rewrite (N.compare_antisym (N_of_ascii c) (N_of_ascii d)).
    destruct (N.compare_spec (N_of_ascii c) (N_of_ascii d)) as [Hcd|Hcd|Hcd]; simpl.
    + assert (d = c) as -> by (rewrite <- (ascii_N_embedding c), Hcd; by rewrite ascii_N_embedding).
      rewrite IH. split; intros [t Ht]; exists t; congruence.
    + split; [by intros [_ ?]|]. intros [t [= -> _]]. lia.
    + split; [by intros [? _]|]. intros [t [= -> _]]. lia.
Qed.

(** ** Nodes below a path *)

Lemma dedup_ids_spec l :
  StronglySorted (fun a b => cmp_on Node.id Z.compare a b <> Gt) l ->
  StronglySorted (fun a b => (Node.id a < Node.id b)%Z) (dedup_ids l) /\
  head (Node.id <$> dedup_ids l) = head (Node.id <$> l) /\
  (forall x, x ∈ dedup_ids l -> x ∈ l) /\
  (forall x, x ∈ l -> exists y, y ∈ dedup_ids l /\ Node.id y = Node.id x).
Proof.
  induction 1 as [|x l Hs IH Hf].
  { split_and!; [constructor|done|done|]. by intros x Hx%elem_of_nil. }
  destruct IH as (IHs & IHh & IHin & IHall). cbn [dedup_ids]. rewrite Forall_forall in Hf.
  assert (forall y, y ∈ l -> (Node.id x <= Node.id y)%Z) as Hle.
  { intros y Hy. specialize (Hf y Hy). unfold cmp_on in Hf. by rewrite Z.compare_gt_iff, Z.nlt_ge in Hf. }
  destruct (dedup_ids l) as [|y l'] eqn:Hd.
  { assert (l = []) as ->.
    { destruct l as [|z l]; [done|]. destruct (IHall z) as (y & Hy & _); [by left|]. by apply elem_of_nil in Hy. }
    split_and!; [repeat constructor|done|done|]. intros z Hz. exists z. done. }
  inversion IHs as [|? ? IHs' IHf]; subst. rewrite Forall_forall in IHf.
  assert (y ∈ l) as Hyl by (apply IHin; by left). specialize (Hle y Hyl) as Hxy.
  case_decide as Heq.
  - split_and!; [|done|set_solver|].
    + constructor; [done|]. rewrite Forall_forall. intros z Hz. specialize (IHf z Hz). lia.
    + intros z [->|Hz]%elem_of_cons; [exists x; split; [by left|done]|].
      destruct (IHall z Hz) as (u & [->|Hu]%elem_of_cons & Hid); [exists x; split; [by left|congruence]|].
      exists u. split; [by right|done].
  - split_and!; [|done|set_solver|].
    + constructor; [done|]. rewrite Forall_forall. intros z [->|Hz]%elem_of_cons; [lia|].
      specialize (IHf z Hz). lia.
    + intros z [->|Hz]%elem_of_cons; [exists x; split; [by left|done]|].
      destruct (IHall z Hz) as (u & Hu & Hid). exists u. split; [by right|done].
Qed.

#[export] Instance by_qname_total : Comparator by_qname.
Proof. unfold by_qname. apply _. Qed.

(** [list_nodes_for_path_prefix] lists exactly the nodes of the project
    whose file is the path itself or lies below it, each once, ordered by name
    and id, whatever order the database returns the rows in; a file whose name
    only begins with the path is not listed, and the empty path lists
    nothing. *)
Theorem path_prefix_exact w `{!HashOrder w} (s : Db) project prefix :
  utf8 prefix ->
  exists out, list_nodes_for_path_prefix w project prefix s = (Ok out, s) /\
    NoDup (Node.id <$> out) /\ StronglySorted (fun a b => by_qname a b <> Gt) out /\
    forall n, n ∈ out <-> exists i a, nodes s !! i = Some a /\ n = row_of i a /\
      n_project a = project /\ prefix <> "" /\
      (n_file_path a = prefix \/ exists t, n_file_path a = prefix +:+ String "/" t).
Proof.
  intros Hutf. unfold list_nodes_for_path_prefix. case_bool_decide as Hp.
  { exists []. split_and!; [done|constructor|constructor|]. intros n. rewrite elem_of_nil.
    split; [done|]. by intros (i & a & _ & _ & _ & ? & _). }
  erewrite bind_ok by done. erewrite bind_ok by done. rewrite upper_bound_slash by done.
  match goal with |- context [dedup_ids (sort_by _ ?l)] => set (rows := l) end.
  eexists. split; [done|].
  destruct (dedup_ids_spec (sort_by (cmp_on Node.id Z.compare) rows)) as (Hs & _ & Hin & Hall).
  { apply sort_by_sorted, _. }
  assert (forall n, n ∈ rows <-> exists i a, nodes s !! i = Some a /\ n = row_of i a /\
    n_project a = project /\ (n_file_path a = prefix \/ exists t, n_file_path a = prefix +:+ String "/" t)) as Hrows.
  { intros n. unfold rows. rewrite elem_of_app, (elem_of_sort_by by_qname), (elem_of_walk w), !elem_of_rows_where.
    split.
    - intros [[[H1 H2] (i & a & Ha & ->)]|[(H1 & H2) (i & a & Ha & ->)]]; exists i, a.
      + by split_and!; [..|left].
      + split_and!; [done..|right]. by apply between_slash_and_zero.
    - intros (i & a & Ha & -> & H1 & [H2|H2]); [left | right]; (split; [|by eauto]).
      + done.
      + split; [done|]. by apply between_slash_and_zero. }
  split_and!.
  - rewrite (sort_by_Permutation by_qname). clear -Hs. induction Hs as [|x l Hs IH Hf]; [constructor|].
    rewrite fmap_cons. constructor; [|done]. rewrite Forall_forall in Hf.
    intros (y & Heq & Hy)%list_elem_of_fmap. specialize (Hf y Hy). lia.
  - apply sort_by_sorted, _.
  - intros n. rewrite (elem_of_sort_by by_qname). split.
    + intros Hn%Hin. rewrite elem_of_sort_by, Hrows in Hn by apply _.
      destruct Hn as (i & a & ? & ? & ? & ?). by exists i, a.
    + intros (i & a & Ha & -> & H1 & _ & H2).
      destruct (Hall (row_of i a)) as (y & Hy & Hid).
      { rewrite elem_of_sort_by, Hrows by apply _. eauto 10. }
      pose proof (Hin y Hy) as Hy'. rewrite elem_of_sort_by, Hrows in Hy' by apply _.
      destruct Hy' as (j & b & Hb & -> & _). simpl in Hid. subst j. rewrite Ha in Hb. injection Hb as <-. done.
Qed.

(** ** Full-text search *)

Lemma elements_list_to_set_disj {A} `{Countable A} (l : list A) :
  elements (list_to_set_disj l : gmultiset A) ≡ₚ l.
Proof.
  induction l as [|x l IH]; [done|].
  by rewrite list_to_set_disj_cons, gmultiset_elements_disj_union, gmultiset_elements_singleton, IH.
Qed.

Section FullTextSpec.
Context (uni_alnum : char -> bool).
Context {F : Type} (total_cmp : F -> F -> comparison) `{!Comparator total_cmp}.
Context (fts_match : string -> posting -> bool) (bm25 : gmultiset posting -> string -> posting -> F).
Context (w : forall A, list A -> list A) `{!HashOrder w}.

Abbreviation row_posting := (fun i a => posting_of uni_alnum (row_of i a)).

Lemma row_posting_id i a : posting_id (row_posting i a) = i.
Proof. done. Qed.

(** The join finds the nodes whose posting matches. *)
Lemma fts_join_spec s project q : fts_ok uni_alnum s ->
  NoDup ((fun x => posting_id x.1) <$> fts_join fts_match w s project q) /\
  forall x, x ∈ fts_join fts_match w s project q <-> exists i a, nodes s !! i = Some a /\
    x = (row_posting i a, row_of i a) /\ fts_match q (row_posting i a) = true /\
    in_project project (row_of i a) /\ is_symbol (row_of i a).
Proof.
  intros Hf.
  assert (forall p, p ∈ w _ (elements (nodes_fts s)) <-> exists i a, nodes s !! i = Some a /\ p = row_posting i a) as Hp.
  { intros p. rewrite (elem_of_walk w), gmultiset_elem_of_elements, Hf. unfold fts_of.
    rewrite elem_of_list_to_set_disj, list_elem_of_fmap. split.
    - intros ([i a] & -> & Hin%elem_of_map_to_list). eauto.
    - intros (i & a & Ha & ->). exists (i, a). by rewrite elem_of_map_to_list. }
  assert (NoDup (posting_id <$> w _ (elements (nodes_fts s)))) as Hnd.
  { rewrite (hash_order_permutation _ (elements (nodes_fts s))), Hf. unfold fts_of.
    rewrite elements_list_to_set_disj, <- list_fmap_compose. apply NoDup_fst_map_to_list. }
  unfold fts_join. split.
  - clear Hp. revert Hnd. generalize (w _ (elements (nodes_fts s))). intros l Hnd.
    induction l as [|p l IH]; [constructor|]. rewrite fmap_cons in Hnd. inversion Hnd as [|? ? Hn Hnd']; subst.
    cbn [omap list_omap]. destruct (select_node s (posting_id p)) as [n|]; [|by apply IH].
    case_decide; [|by apply IH]. rewrite fmap_cons. constructor; [|by apply IH]. simpl.
    intros (x & Hid & Hx)%list_elem_of_fmap. apply list_elem_of_omap in Hx as (p' & Hp' & Hx).
    apply Hn. rewrite Hid. apply list_elem_of_fmap. exists p'. split; [|done].
    destruct (select_node s (posting_id p')); [|done]. case_decide; [|done]. by injection Hx as <-.
  - intros x. rewrite list_elem_of_omap. setoid_rewrite Hp. split.
    + intros (p & (i & a & Ha & ->) & Hx). rewrite row_posting_id in Hx. unfold select_node in Hx.
      rewrite Ha in Hx. simpl in Hx. case_decide as Hc; [|done]. injection Hx as <-. exists i, a. tauto.
    + intros (i & a & Ha & -> & Hm & Hpr & Hsy). exists (row_posting i a). split; [eauto|].
      rewrite row_posting_id. unfold select_node. rewrite Ha. simpl. by rewrite decide_True.
Qed.

(** On a store that the writers built, the full-text search of a project
    returns each symbol whose posting matches the query once, best rank first,
    cut to the limit: every hit is a node that exists, belongs to the project
    and is not a structural pseudo-node; [count_fts_in_project] is the number
    of hits without the limit. *)
Theorem fts_search_exact s project query q limit :
  db_wf uni_alnum s -> fts_prefix_query uni_alnum query = Some q ->
  exists full,
    search_fts_in_project uni_alnum total_cmp fts_match bm25 w project query limit s = (Ok (take limit full), s) /\
    count_fts_in_project uni_alnum fts_match w project query s = (Ok (Z.of_nat (length full)), s) /\
    NoDup (hit_node <$> full) /\
    StronglySorted (fun a b => total_cmp (hit_rank a) (hit_rank b) <> Gt) full /\
    forall h, h ∈ full <-> exists a, nodes s !! hit_node h = Some a /\ n_project a = project /\
      is_symbol (row_of (hit_node h) a) /\ fts_match q (row_posting (hit_node h) a) = true /\
      hit_rank h = bm25 (nodes_fts s) q (row_posting (hit_node h) a).
Proof.
  intros [_ Hf] Hq. destruct (fts_join_spec s (Some project) q Hf) as [Hnd Hjoin].
  set (hits := (fun x : posting * Node.t => {| hit_node := posting_id x.1; hit_rank := bm25 (nodes_fts s) q x.1 |})
    <$> fts_join fts_match w s (Some project) q).
  exists (sort_by (cmp_on hit_rank total_cmp) hits). split_and!.
  - unfold search_fts_in_project, search_fts_scoped. by rewrite Hq.
  - unfold count_fts_in_project. rewrite Hq, length_sort_by by apply _. unfold hits. by rewrite length_fmap.
  - rewrite sort_by_Permutation by apply _. unfold hits. by rewrite <- list_fmap_compose.
  - apply (sort_by_sorted (cmp_on hit_rank total_cmp)).
  - intros h. rewrite elem_of_sort_by by apply _. unfold hits. rewrite list_elem_of_fmap. split.
    + intros (x & -> & (i & a & Ha & -> & Hm & Hp & Hs)%Hjoin). exists a. cbn [hit_node hit_rank fst].
      by rewrite row_posting_id.
    + intros (a & Ha & Hp & Hs & Hm & Hr). exists (row_posting (hit_node h) a, row_of (hit_node h) a).
      split; [cbn [fst]; rewrite row_posting_id, <- Hr; by destruct h|]. apply Hjoin. eauto 10.
Qed.
End FullTextSpec.

(** The pattern ['%::__file__'] is bound without an escape: its underscores
    match any character. *)
Definition plain (c : ascii) : Prop := in_range 128 191 c = false.

Lemma like_one pat c d t : plain d -> like (String "_" pat) (String c (String d t)) = like pat (String d t).
Proof.
  intros Hd. change (like (String "_" pat) (String c (String d t))) with (like pat (drop_continuation (String d t))).
  cbn [drop_continuation]. by rewrite Hd.
Qed.

(** Symbols whose qualified name ends in ["::"] or ["."] and eight
    characters of which the third to the sixth spell "file" in any case, as in
    [m::toFileId] or [Form.onFileOk], are never found: the filter that is to
    hide the file anchors [__file__] treats the underscores as wildcards. *)
Theorem fts_hides_file_names a sep c1 c2 f1 f2 f3 f4 c3 c4 n :
  sep = "::" \/ sep = "." -> plain c1 -> plain c2 -> plain f1 -> plain c3 -> plain c4 ->
  same_letters (String f1 (String f2 (String f3 (String f4 "")))) "file" ->
  Node.qualified_name n = a +:+ sep +:+
    String c1 (String c2 (String f1 (String f2 (String f3 (String f4 (String c3 (String c4 ""))))))) ->
  ~ is_symbol n.
Proof.
  intros Hsep H1 H2 Hf1 H3 H4 Hl Hq (_ & _ & Ha & Hb). rewrite Hq in Ha, Hb.
  assert (like "__file__" (String c1 (String c2 (String f1 (String f2 (String f3 (String f4
    (String c3 (String c4 "")))))))) = true) as Hm.
  { rewrite like_one by done. rewrite like_one by done.
    unfold same_letters, to_ascii_lowercase in Hl. simpl in Hl. injection Hl as E1 E2 E3 E4.
    cbn -[Ascii.eqb char_to_ascii_lowercase drop_continuation like_char_eq].
    unfold like_char_eq. rewrite E1, E2, E3, E4. simpl. unfold plain in H3, H4. by rewrite H4. }
  destruct Hsep as [-> | ->].
  - assert (like "%::__file__" (a +:+ "::" +:+ String c1 (String c2 (String f1 (String f2 (String f3 (String f4
      (String c3 (String c4 ""))))))))  = true) as Hx; [|congruence].
    apply like_star. eexists _, _. split; [done|]. exact Hm.
  - assert (like "%.__file__" (a +:+ "." +:+ String c1 (String c2 (String f1 (String f2 (String f3 (String f4
      (String c3 (String c4 ""))))))))  = true) as Hx; [|congruence].
    apply like_star. eexists _, _. split; [done|]. exact Hm.
Qed.

(** ** On the demonstration store *)

Abbreviation in_order := (fun (A : Type) (l : list A) => l).

Lemma path_prefix_exact_witness : exists out,
  list_nodes_for_path_prefix in_order "p" "a.rs" demo = (Ok out, demo) /\ NoDup (Node.id <$> out).
Proof.
  destruct (path_prefix_exact in_order demo "p" "a.rs") as (out & Hrun & Hnd & _); [reflexivity|].
  exists out. split; [exact Hrun | exact Hnd].
Defined.

Lemma fts_search_exact_witness : exists full,
  search_fts_in_project no_alnum Z.compare (fun _ _ => true) (fun _ _ p => posting_id p) in_order "p" "a" 3 demo
    = (Ok (take 3 full), demo) /\ NoDup (hit_node <$> full).
Proof.
  destruct (fts_search_exact no_alnum Z.compare (fun _ _ => true) (fun _ _ p => posting_id p) in_order
    demo "p" "a" "a*" 3 demo_wf) as (full & Hrun & _ & Hnd & _); [vm_compute; reflexivity|].
  exists full. split; [exact Hrun | exact Hnd].
Defined.

Lemma fts_hides_file_names_witness :
  ~ is_symbol (row_of 1 {| n_project := "p"; n_label := "Function"; n_name := "toFileId";
    n_qualified_name := "m::toFileId"; n_file_path := "a.rs"; n_start_line := 1; n_end_line := 2;
    n_properties := "{}" |}).
Proof.
  apply (fts_hides_file_names "m" "::" "t" "o" "F" "i" "l" "e" "I" "d"); try reflexivity. by left.
Defined.
