(* ===== verification/GraphOverlay.v ===== *)
(** An overlay: a private writable Delta with an immutable Base attached behind
    a set of views (store.rs, [attach_overlay] and [OVERLAY_VIEWS_SQL]), and
    the branches of node.rs and edge.rs that are taken on an overlay.

    The views [nodes], [edges] and [projects] are functions of the two
    databases.  A row of the Base keeps its key, negated.  The elements of the
    JSON arrays that [schema_meta] holds under the keys of the override files
    are sets of paths; a value that is not valid JSON counts as empty. *)

From stdpp Require Import gmultiset.
From S2P Require Import Prelude Loop RustStr RustText Fts GraphStore GraphDb.
#[local] Open Scope string_scope.

Record NewOverlayEdge : Type := {
  o_project : string;
  o_source : string;
  o_target : string;
  o_type : string;
  o_properties : string
}.

Record OverlayEdgeCandidate : Type := {
  c_id : Z;
  c_project : string;
  c_source : string;
  c_target : string;
  c_type : string;
  c_properties : string
}.

#[export] Instance candidate_eq_dec : EqDecision OverlayEdgeCandidate.
Proof. solve_decision. Defined.

(** A row of [base_node_span_overrides], less its key [(project, node_id)]. *)
Record SpanOverride : Type := {
  so_qname : string;
  so_old_start : Z;
  so_old_end : Z;
  so_start : Z;
  so_end : Z
}.

Record Overlay : Type := {
  delta : Db;
  overlay_edges : gmap Z NewOverlayEdge;
  overlay_seq : Z;
  identity_overrides : gset (string * string);
  reference_files : gset (string * string);
  meta_files : gmap string (gset string);
  span_overrides : gmap (string * Z) SpanOverride;
  hidden_paths : gset string;
  base : Db
}.

Definition set_delta (d : Db) (o : Overlay) : Overlay :=
  {| delta := d; overlay_edges := overlay_edges o; overlay_seq := overlay_seq o;
     identity_overrides := identity_overrides o; reference_files := reference_files o;
     meta_files := meta_files o; span_overrides := span_overrides o;
     hidden_paths := hidden_paths o; base := base o |}.
Definition set_overlay_edges (m : gmap Z NewOverlayEdge) (seq : Z) (o : Overlay) : Overlay :=
  {| delta := delta o; overlay_edges := m; overlay_seq := seq;
     identity_overrides := identity_overrides o; reference_files := reference_files o;
     meta_files := meta_files o; span_overrides := span_overrides o;
     hidden_paths := hidden_paths o; base := base o |}.
Definition set_identity_overrides (x : gset (string * string)) (o : Overlay) : Overlay :=
  {| delta := delta o; overlay_edges := overlay_edges o; overlay_seq := overlay_seq o;
     identity_overrides := x; reference_files := reference_files o;
     meta_files := meta_files o; span_overrides := span_overrides o;
     hidden_paths := hidden_paths o; base := base o |}.
Definition set_span_overrides (x : gmap (string * Z) SpanOverride) (o : Overlay) : Overlay :=
  {| delta := delta o; overlay_edges := overlay_edges o; overlay_seq := overlay_seq o;
     identity_overrides := identity_overrides o; reference_files := reference_files o;
     meta_files := meta_files o; span_overrides := x;
     hidden_paths := hidden_paths o; base := base o |}.

(** ** Opening an overlay *)

(** The paths whose Base rows a Delta hides. *)
Record VisibilityIndex : Type := { dirty : gset string; deleted : gset string }.

Definition is_climbing (c : Component) : bool :=
  match c with ParentDir | RootDir => true | CurDir | Normal _ => false end.
Definition normal_part (c : Component) : option string :=
  match c with Normal part => Some part | _ => None end.

(** One turn of the loop of [normalize_paths]; the error is its message. *)
Definition normalize_delta_path (path : string) : res string string :=
  if bool_decide (path = "") || existsb is_climbing (components path) then
    Err ("invalid Delta-relative path `" +:+ path +:+ "`")
  else
    let joined := join "/" (omap normal_part (components path)) in
    if bool_decide (joined = "") then Err "Delta-relative path normalizes to empty" else Ok joined.

Definition normalize_paths (paths : list string) : res string (gset string) :=
  try_fold (fun normalized path =>
    let? joined := normalize_delta_path path in Ok ({[ joined ]} ∪ normalized)) ∅ paths.

Definition visibility_new (dirty deleted : list string) : res string VisibilityIndex :=
  let? dirty := normalize_paths dirty in
  let? deleted := normalize_paths deleted in
  if decide (dirty ## deleted) then Ok {| dirty := dirty; deleted := deleted |}
  else Err "a Delta path cannot be both dirty and deleted".

Definition hides_base_path (v : VisibilityIndex) (path : string) : bool :=
  bool_decide (path ∈ dirty v) || bool_decide (path ∈ deleted v).

Definition changed_count (v : VisibilityIndex) : nat := (size (dirty v) + size (deleted v))%nat.

(** The persisted tables of a Delta; [d_spans] is what [schema_meta] holds
    under the key of the span overrides. *)
Record Delta : Type := {
  d_db : Db;
  d_edges : gmap Z NewOverlayEdge;
  d_seq : Z;
  d_identity : gset (string * string);
  d_references : gset (string * string);
  d_meta : gmap string (gset string);
  d_spans : gmap (string * Z) SpanOverride
}.

(** The inserts into [greppy_hidden_paths], whose key is the path; the order
    of the rows does not matter to it. *)
Definition hide_paths (paths : list string) : res StoreError.Error (gset string) :=
  try_fold (fun hidden path =>
    if decide (path ∈ hidden) then Err (unique_failed "greppy_hidden_paths.path")
    else Ok ({[ path ]} ∪ hidden)) ∅ paths.

Definition attach_overlay (d : Delta) (base : Db) (v : VisibilityIndex) : res StoreError.Error Overlay :=
  let? hidden :=
    if (changed_count v =? 0)%nat then Ok ∅
    else hide_paths (elements (dirty v) ++ elements (deleted v))%list in
  Ok {| delta := d_db d; overlay_edges := d_edges d; overlay_seq := d_seq d;
        identity_overrides := d_identity d; reference_files := d_references d;
        meta_files := d_meta d; span_overrides := d_spans d; hidden_paths := hidden; base := base |}.

Definition ovm (A : Type) : Type := action StoreError.Error Overlay A.

(** A statement that addresses [main.<table>]. *)
Definition on_delta {A} (m : dbm A) : ovm A := zoom delta set_delta m.

(** ** The view [nodes] *)

(** The columns [start_line] and [end_line] of a Base row:
    [LEFT JOIN base_node_span_overrides] and [COALESCE]. *)
Definition visible_span (o : Overlay) (b : Node.t) : Z * Z :=
  match span_overrides o !! (Node.project b, Node.id b) with
  | Some s =>
      if decide (so_qname s = Node.qualified_name b /\ so_old_start s = Node.start_line b /\
                 so_old_end s = Node.end_line b)
      then (so_start s, so_end s) else (Node.start_line b, Node.end_line b)
  | None => (Node.start_line b, Node.end_line b)
  end.

Definition as_visible (o : Overlay) (b : Node.t) : Node.t :=
  let '(start_line, end_line) := visible_span o b in
  Node.Mk (- Node.id b) (Node.project b) (Node.label b) (Node.name b) (Node.qualified_name b)
    (Node.file_path b) start_line end_line (Node.properties b).

(** The three [NOT EXISTS] of the view. *)
Definition base_visible (o : Overlay) (b : Node.t) : Prop :=
  (Node.project b, Node.qualified_name b) ∉ identity_overrides o /\
  Node.file_path b ∉ hidden_paths o /\
  rows_where row_of (is_named (Node.project b) (Node.qualified_name b)) (nodes (delta o)) = [].

Definition view_nodes (o : Overlay) : list Node.t :=
  (table row_of (nodes (delta o)) ++
   (as_visible o <$> rows_where row_of (base_visible o) (nodes (base o))))%list.

(** [get_node] and [get_node_by_qname]: the first row of the view. *)
Definition view_node (o : Overlay) (id : Z) : option Node.t :=
  head (filter (fun n => Node.id n = id) (view_nodes o)).
Definition view_named (o : Overlay) (project qname : string) : option Node.t :=
  head (filter (is_named project qname) (view_nodes o)).

(** [list_nodes_by_name]. *)
Definition view_by_name (o : Overlay) (project name : string) (limit : nat) : list Node.t :=
  take limit (sort_by by_qname
    (filter (fun n => Node.project n = project /\ Node.name n = name) (view_nodes o))).

(** The view [projects]. *)
Definition view_project (o : Overlay) (name : string) : option Project :=
  match projects (delta o) !! name with
  | Some p => Some p
  | None => projects (base o) !! name
  end.

(** ** The view [edges] *)

Definition candidate_of (i : Z) (d : NewOverlayEdge) : OverlayEdgeCandidate :=
  {| c_id := i; c_project := o_project d; c_source := o_source d; c_target := o_target d;
     c_type := o_type d; c_properties := o_properties d |}.

Definition js_ts_override_key (ty project : string) : string :=
  (if decide (ty = "CALLS") then "greppy.js_ts_caller_override_files."
   else "greppy.js_ts_usage_override_files.") +:+ project.
Definition rust_override_key (ty project : string) : string :=
  (if decide (ty = "CALLS") then "greppy.rust_caller_override_files."
   else "greppy.rust_usage_override_files.") +:+ project.

Definition listed (o : Overlay) (key path : string) : Prop :=
  path ∈ default ∅ (meta_files o !! key).

#[export] Instance listed_dec o key path : Decision (listed o key path).
Proof. unfold listed. apply _. Defined.

(** [e.edge_type IN ('USAGE','CALLS') AND EXISTS ..], for both languages. *)
Definition replaced (o : Overlay) (project ty path : string) : Prop :=
  (ty = "USAGE" \/ ty = "CALLS") /\
  (listed o (js_ts_override_key ty project) path \/ listed o (rust_override_key ty project) path).

#[export] Instance replaced_dec o project ty path : Decision (replaced o project ty path).
Proof. unfold replaced. apply _. Defined.

Definition same_logical (project source target ty : string) (c : OverlayEdgeCandidate) : Prop :=
  c_project c = project /\ c_source c = source /\ c_target c = target /\ c_type c = ty.

(** The conditions on a Base edge that the view and the typed listings share. *)
Definition base_edge_kept (o : Overlay) (e : Edge.t) (bs bt : Node.t) : Prop :=
  Node.file_path bs ∉ hidden_paths o /\
  ~ replaced o (Edge.project e) (Edge.edge_type e) (Node.file_path bs) /\
  rows_where candidate_of
    (same_logical (Edge.project e) (Node.qualified_name bs) (Node.qualified_name bt) (Edge.edge_type e))
    (overlay_edges o) = [].

#[export] Instance base_edge_kept_dec o e bs bt : Decision (base_edge_kept o e bs bt).
Proof. unfold base_edge_kept. apply _. Defined.

(** [JOIN greppy_base.nodes base_source .. JOIN greppy_base.nodes base_target]. *)
Definition base_ends (o : Overlay) (e : Edge.t) : option (Node.t * Node.t) :=
  s ← select_node (base o) (Edge.source_id e);
  t ← select_node (base o) (Edge.target_id e);
  Some (s, t).

(** [JOIN nodes visible_source .. JOIN nodes visible_target]. *)
Definition join_ends (o : Overlay) (ps source pt target : string) (mk : Z -> Z -> Edge.t)
  : list Edge.t :=
  s ← filter (is_named ps source) (view_nodes o);
  t ← filter (is_named pt target) (view_nodes o);
  [mk (Node.id s) (Node.id t)].

Definition delta_edge_rows (o : Overlay) : list Edge.t :=
  c ← table candidate_of (overlay_edges o);
  join_ends o (c_project c) (c_source c) (c_project c) (c_target c)
    (fun s t => Edge.Mk (c_id c) (c_project c) s t (c_type c) (c_properties c)).

Definition base_edge_rows (o : Overlay) : list Edge.t :=
  e ← table edge_row (edges (base o));
  match base_ends o e with
  | Some (bs, bt) =>
      if decide ((Edge.project e, Node.file_path bs) ∉ reference_files o /\ base_edge_kept o e bs bt)
      then join_ends o (Node.project bs) (Node.qualified_name bs) (Node.project bt) (Node.qualified_name bt)
             (fun s t => Edge.Mk (- Edge.id e) (Edge.project e) s t (Edge.edge_type e) (Edge.properties e))
      else []
  | None => []
  end.

Definition view_edges (o : Overlay) : list Edge.t := (delta_edge_rows o ++ base_edge_rows o)%list.

Definition by_edge_id : Edge.t -> Edge.t -> comparison := cmp_on Edge.id Z.compare.

(** [SELECT .. FROM edges WHERE source_id = ?1 [AND edge_type = ?2] ORDER BY id
    LIMIT ?3] on the composed view; an overlay takes it when no type is given. *)
Definition view_listing (d : Direction) (o : Overlay) (id : Z) (ty : option string) (limit : nat)
  : list Edge.t :=
  take limit (sort_by by_edge_id (filter (fun e => from_of d e = id /\ type_matches ty e) (view_edges o))).

(** ** [overlay_edges_for_endpoint] *)

Definition near_name (d : Direction) (c : OverlayEdgeCandidate) : string :=
  match d with Outgoing => c_source c | Incoming => c_target c end.
Definition near_node (d : Direction) (bs bt : Node.t) : Node.t :=
  match d with Outgoing => bs | Incoming => bt end.

Definition delta_candidates (o : Overlay) (d : Direction) (project qname ty : string)
  : list OverlayEdgeCandidate :=
  rows_where candidate_of
    (fun c => c_project c = project /\ near_name d c = qname /\ c_type c = ty) (overlay_edges o).

Definition candidate_of_base (e : Edge.t) (bs bt : Node.t) : OverlayEdgeCandidate :=
  {| c_id := - Edge.id e; c_project := Edge.project e; c_source := Node.qualified_name bs;
     c_target := Node.qualified_name bt; c_type := Edge.edge_type e; c_properties := Edge.properties e |}.

Definition base_candidate (o : Overlay) (d : Direction) (project qname ty : string) (e : Edge.t)
  : option OverlayEdgeCandidate :=
  match base_ends o e with
  | Some (bs, bt) =>
      if decide (is_named project qname (near_node d bs bt) /\ Edge.edge_type e = ty /\
                 base_edge_kept o e bs bt)
      then Some (candidate_of_base e bs bt) else None
  | None => None
  end.

Definition candidates (o : Overlay) (d : Direction) (project qname ty : string)
  : list OverlayEdgeCandidate :=
  sort_by (cmp_on c_id Z.compare)
    (delta_candidates o d project qname ty ++
     omap (base_candidate o d project qname ty) (table edge_row (edges (base o))))%list.

(** The loop over the candidates, [edges] being the vector that it fills. *)
Fixpoint collect (o : Overlay) (limit : nat) (edges : list Edge.t) (cs : list OverlayEdgeCandidate)
  : list Edge.t :=
  match cs with
  | [] => edges
  | c :: cs =>
      match view_named o (c_project c) (c_source c) with
      | None => collect o limit edges cs
      | Some source =>
          match view_named o (c_project c) (c_target c) with
          | None => collect o limit edges cs
          | Some target =>
              let edges := (edges ++ [Edge.Mk (c_id c) (c_project c) (Node.id source) (Node.id target)
                                        (c_type c) (c_properties c)])%list in
              if (limit <=? length edges)%nat then edges else collect o limit edges cs
          end
      end
  end.

(** [limit.saturating_mul(4).max(limit)]; a product that saturates is a
    negative [LIMIT], which is none. *)
Definition candidate_limit (limit : nat) : nat := Nat.max (4 * limit) limit.

Definition overlay_edges_for_endpoint (d : Direction) (o : Overlay) (id : Z) (ty : string) (limit : nat)
  : list Edge.t :=
  match view_node o id with
  | None => []
  | Some endpoint =>
      collect o limit []
        (take (candidate_limit limit)
           (candidates o d (Node.project endpoint) (Node.qualified_name endpoint) ty))
  end.

(** [outgoing_edges] and [incoming_edges] on an overlay. *)
Definition overlay_listing (d : Direction) (o : Overlay) (id : Z) (ty : option string) (limit : nat)
  : list Edge.t :=
  match ty with
  | Some t => overlay_edges_for_endpoint d o id t limit
  | None => view_listing d o id None limit
  end.

(** ** Writing nodes *)

Section Writes.
Context (uni_alnum : char -> bool).

(** [ORDER BY id DESC LIMIT 1] on the rows of a name. *)
Definition last_named (o : Overlay) (project qname : string) : option Node.t :=
  head (sort_by (cmp_desc (cmp_on Node.id Z.compare)) (filter (is_named project qname) (view_nodes o))).

Definition equivalent_visible_overlay_node (o : Overlay) (n : NewNode) : option Z :=
  v ← last_named o (n_project n) (n_qualified_name n);
  if decide (Node.label v = n_label n /\ Node.name v = n_name n /\ Node.file_path v = n_file_path n /\
             Node.start_line v = n_start_line n /\ Node.end_line v = n_end_line n /\
             Node.properties v = n_properties n)
  then Some (Node.id v) else None.

Definition insert_writable_node (n : NewNode) : ovm Z := on_delta (GraphDb.insert_node uni_alnum n).

Definition overlay_insert_node (n : NewNode) : ovm Z :=
  let! reused := gets (fun o => equivalent_visible_overlay_node o n) in
  match reused with
  | Some id => ret id
  | None => insert_writable_node n
  end.

(** Which nodes are reused is found out before the first one is written. *)
Definition overlay_insert_nodes (ns : list NewNode) : ovm (list Z) :=
  match ns with
  | [] => ret []
  | _ =>
      let! reused := gets (fun o => equivalent_visible_overlay_node o <$> ns) in
      atomically (mapM (fun x : NewNode * option Z =>
        match x.2 with
        | Some id => ret id
        | None => on_delta (insert_node_in_tx uni_alnum x.1)
        end) (zip ns reused))
  end.

Definition overlay_delete_node (id : Z) : ovm unit := on_delta (GraphDb.delete_node uni_alnum id).

(** The qualified names of the rows of [main.nodes] of a file. *)
Definition names_in_file (d : Db) (project file : string) : list string :=
  Node.qualified_name <$> rows_where row_of (in_file project file) (nodes d).

Definition overlay_delete_nodes_for_file (project file : string) : ovm Z :=
  let! rows := gets (fun o => rows_where row_of (in_file project file) (nodes (delta o))) in
  match rows with
  | [] => on_delta (delete_vector_embeddings_for_file project file) ;;; ret 0
  | _ =>
      atomically (
        on_delta (forM rows (fun n => fts_delete (posting_of uni_alnum n))) ;;;
        on_delta (modify (set_vectors (filter (fun x => ~ (v_project x.2 = project /\ v_file_path x.2 = file))))) ;;;
        modify (fun o =>
          let names := names_in_file (delta o) project file in
          set_overlay_edges
            (filter (fun x => ~ (o_project x.2 = project /\ (o_source x.2 ∈ names \/ o_target x.2 ∈ names)))
               (overlay_edges o)) (overlay_seq o) o) ;;;
        on_delta (modify (set_nodes (filter (fun x => ~ in_file project file (row_of x.1 x.2)))) ;;; cascade) ;;;
        ret (Z.of_nat (length rows)))
  end.

Definition overlay_upsert_project (p : Project) : ovm unit := on_delta (upsert_project p).

(** [update_node_identity]: a Base definition is copied into the Delta under
    its new identity, and its old one is overridden. *)
Definition overlay_update_node_identity (id : Z) (label qname : string) : ovm unit :=
  atomically (
    if (id <? 0)%Z then
      let! old := gets (fun o => view_node o id) in
      let! old := ok_or old (StoreError.Store "missing Base definition") in
      let! project := gets (fun o => view_project o (Node.project old)) in
      let! project := ok_or project (StoreError.Store "missing Base project") in
      overlay_upsert_project project ;;;
      overlay_insert_node
        {| n_project := Node.project old; n_label := label; n_name := Node.name old;
           n_qualified_name := qname; n_file_path := Node.file_path old;
           n_start_line := Node.start_line old; n_end_line := Node.end_line old;
           n_properties := Node.properties old |} ;;;
      modify (fun o => set_identity_overrides
        ({[ (Node.project old, Node.qualified_name old) ]} ∪ identity_overrides o) o)
    else on_delta (update_node_identity uni_alnum id label qname)).

(** The Base row that a Delta row is an exact copy of. *)
Definition base_copy (o : Overlay) (old : Node.t) : option Node.t :=
  head (rows_where row_of (fun b => is_named (Node.project old) (Node.qualified_name old) b /\
    Node.label b = Node.label old /\ Node.name b = Node.name old /\ Node.file_path b = Node.file_path old /\
    Node.start_line b = Node.start_line old /\ Node.end_line b = Node.end_line old /\
    Node.properties b = Node.properties old) (nodes (base o))).

(** [INSERT .. ON CONFLICT(project,node_id) DO UPDATE SET start_line, end_line]. *)
Definition upsert_span (key : string * Z) (s : SpanOverride) (m : gmap (string * Z) SpanOverride)
  : gmap (string * Z) SpanOverride :=
  <[key := match m !! key with
           | Some prior => {| so_qname := so_qname prior; so_old_start := so_old_start prior;
                              so_old_end := so_old_end prior; so_start := so_start s; so_end := so_end s |}
           | None => s
           end]> m.

Definition overlay_update_node_spans (spans : list (Z * Z * Z)) : ovm unit :=
  forM spans (fun '(id, start_line, end_line) =>
    guard (negb ((start_line <? 1) || (end_line <? start_line)))%Z
      (StoreError.Store "invalid repaired node span") ;;;
    let! old := gets (fun o => view_node o id) in
    let! old := ok_or old (StoreError.Store "missing span repair node") in
    let! source := gets (fun o =>
      if (id <? 0)%Z then Some (- id, Node.start_line old, Node.end_line old)%Z
      else (fun b => (Node.id b, Node.start_line b, Node.end_line b)) <$> base_copy o old) in
    (if (0 <=? id)%Z then on_delta (modify (set_nodes (alter (set_span start_line end_line) id)))
     else ret tt) ;;;
    match source with
    | Some (base_id, old_start, old_end) =>
        modify (fun o => set_span_overrides
          (upsert_span (Node.project old, base_id)
             {| so_qname := Node.qualified_name old; so_old_start := old_start; so_old_end := old_end;
                so_start := start_line; so_end := end_line |} (span_overrides o)) o)
    | None => ret tt
    end).
End Writes.

(** ** Writing edges *)

Definition no_rows : StoreError.Error := StoreError.Sqlite "Query returned no rows".

(** [INSERT INTO main.overlay_edges .. ON CONFLICT .. DO UPDATE .. RETURNING id]. *)
Definition upsert_overlay_edge (e : NewOverlayEdge) : ovm Z :=
  let! prior := gets (fun o => head (rows_where candidate_of
    (same_logical (o_project e) (o_source e) (o_target e) (o_type e)) (overlay_edges o))) in
  match prior with
  | Some c =>
      modify (fun o => set_overlay_edges (<[c_id c := e]> (overlay_edges o)) (overlay_seq o) o) ;;;
      ret (c_id c)
  | None =>
      let! seq := gets overlay_seq in
      guard (seq <? i64_max)%Z disk_full ;;;
      modify (fun o => set_overlay_edges (<[(seq + 1)%Z := e]> (overlay_edges o)) (seq + 1)%Z o) ;;;
      ret (seq + 1)%Z
  end.

Definition insert_overlay_edge (e : NewOverlayEdge) : ovm Z := atomically (upsert_overlay_edge e).

Definition insert_overlay_edges (es : list NewOverlayEdge) : ovm unit :=
  match es with
  | [] => ret tt
  | _ => atomically (forM es (fun e => upsert_overlay_edge e ;;; ret tt))
  end.

(** The edge types that [replace_overlay_edges] leaves alone. *)
Definition structural : list string := ["CONTAINS_FOLDER"; "CONTAINS_FILE"; "DEFINES"].

Definition replace_overlay_edges (project : string) (es : list NewOverlayEdge) : ovm unit :=
  atomically (
    modify (fun o => set_overlay_edges
      (filter (fun x => ~ (o_project x.2 = project /\ o_type x.2 ∉ structural)) (overlay_edges o))
      (overlay_seq o) o) ;;;
    forM es (fun e => upsert_overlay_edge e ;;; ret tt)).

(** [insert_edge] on an overlay: an edge that is visible with the same
    properties is kept, any other is written under the names of its ends. *)
Definition same_visible (e : NewEdge) (x : Edge.t) : Prop :=
  Edge.project x = e_project e /\ same_edge e x.

Definition name_of (id : Z) (project : string) : ovm string :=
  let! n := gets (fun o => head (filter (fun n => Node.id n = id /\ Node.project n = project) (view_nodes o))) in
  let! n := ok_or n no_rows in
  ret (Node.qualified_name n).

Definition overlay_insert_edge (e : NewEdge) : ovm Z :=
  let! visible := gets (fun o =>
    head (sort_by (cmp_desc by_edge_id) (filter (same_visible e) (view_edges o)))) in
  match (x ← visible; if decide (Edge.properties x = e_properties e) then Some (Edge.id x) else None) with
  | Some id => ret id
  | None =>
      let! source := name_of (e_source_id e) (e_project e) in
      let! target := name_of (e_target_id e) (e_project e) in
      insert_overlay_edge
        {| o_project := e_project e; o_source := source; o_target := target;
           o_type := e_edge_type e; o_properties := e_properties e |}
  end.
