(* ===== verification/GraphOverlayFacts.v ===== *)
(** The composed views: names and ids are unique in them, joins through them
    find at most one row, and an overlay discharges the interface that the
    searches use. *)

From stdpp Require Import gmultiset.
From S2P Require Import Prelude Loop RustText Fts GraphStore GraphDb GraphDbFacts GraphOverlay.

#[local] Instance opp_inj : Inj (=) (=) Z.opp.
Proof. intros x y. lia. Qed.

(** ** Lists with a key *)

Section Keyed.
Context {A : Type}.

(** At most one element of a list satisfies a predicate. *)
Definition at_most_one (P : A -> Prop) (l : list A) : Prop :=
  forall a b, a ∈ l -> b ∈ l -> P a -> P b -> a = b.

Lemma head_filter (P : A -> Prop) `{!forall a, Decision (P a)} l x :
  at_most_one P l -> head (filter P l) = Some x <-> x ∈ l /\ P x.
Proof.
  intros Hu. destruct (filter P l) as [|y r] eqn:Hf; simpl.
  - split; [done|]. intros [Hx HP]. assert (x ∈ filter P l) as Hin by (by apply list_elem_of_filter).
    rewrite Hf in Hin. by apply elem_of_nil in Hin.
  - assert (y ∈ filter P l) as [HPy Hy]%list_elem_of_filter by (rewrite Hf; left).
    split; [intros [= ->]; done|]. intros [Hx HP]. f_equal. by apply Hu.
Qed.

Lemma head_filter_None (P : A -> Prop) `{!forall a, Decision (P a)} l :
  head (filter P l) = None <-> forall x, x ∈ l -> ~ P x.
Proof.
  destruct (filter P l) as [|y r] eqn:Hf; simpl.
  - split; [|done]. intros _ x Hx HP. assert (x ∈ filter P l) as Hin by (by apply list_elem_of_filter).
    rewrite Hf in Hin. by apply elem_of_nil in Hin.
  - assert (y ∈ filter P l) as [HPy Hy]%list_elem_of_filter by (rewrite Hf; left).
    split; [done|]. intros Hall. by destruct (Hall y Hy).
Qed.

Lemma filter_at_most_one (P : A -> Prop) `{!forall a, Decision (P a)} l :
  NoDup l -> at_most_one P l -> filter P l = option_list (head (filter P l)).
Proof.
  intros Hnd Hu. apply (NoDup_filter P) in Hnd. destruct (filter P l) as [|y [|z r]] eqn:Hf; [done..|].
  assert (forall x, x ∈ y :: z :: r -> P x /\ x ∈ l) as Hin.
  { intros x Hx. rewrite <- Hf in Hx. by apply list_elem_of_filter in Hx. }
  destruct (Hin y) as [? ?]; [left|]. destruct (Hin z) as [? ?]; [right; left|].
  assert (y = z) as -> by (by apply Hu). apply NoDup_cons in Hnd as [[] _]. left.
Qed.

Context (key : A -> Z).

Lemma sorted_by_key l : StronglySorted (fun x y => key x < key y) l <-> StronglySorted Z.lt (key <$> l).
Proof.
  split; [by apply StronglySorted_fmap|].
  induction l as [|x l IH]; [constructor|].
  rewrite fmap_cons. intros [Hs Hf]%StronglySorted_inv.
  constructor; [by apply IH|]. by rewrite Forall_fmap in Hf.
Qed.

Lemma sorted_nodup l : StronglySorted Z.lt (key <$> l) -> NoDup (key <$> l).
Proof.
  induction l as [|x l IH]; simpl; [constructor|]. intros [Hs Hf]%StronglySorted_inv.
  constructor; [|by apply IH]. intros Hin. rewrite Forall_forall in Hf. specialize (Hf _ Hin). lia.
Qed.

Lemma sort_by_key l :
  NoDup (key <$> l) -> StronglySorted Z.lt (key <$> sort_by (cmp_on key Z.compare) l).
Proof.
  intros Hnd. rewrite <- (sort_by_Permutation (cmp_on key Z.compare) l) in Hnd.
  pose proof (sort_by_sorted (cmp_on key Z.compare) l) as Hs.
  induction Hs as [|x r Hs IH Hf]; simpl in *; [constructor|].
  apply NoDup_cons in Hnd as [Hx Hnd]. constructor; [by apply IH|].
  rewrite Forall_fmap, Forall_forall in *. intros y Hy. specialize (Hf y Hy). unfold cmp_on in Hf. simpl.
  rewrite Z.compare_gt_iff in Hf.
  assert (key x <> key y) by (intros Heq; apply Hx; rewrite Heq; by apply list_elem_of_fmap_2). lia.
Qed.

(** A list in strict key order is determined by its elements. *)
Lemma sorted_key_eq l1 l2 :
  StronglySorted Z.lt (key <$> l1) -> StronglySorted Z.lt (key <$> l2) ->
  (forall x, x ∈ l1 <-> x ∈ l2) -> l1 = l2.
Proof.
  intros H1 H2 Heq. apply StronglySorted_unique_strong with (R := fun x y => key x < key y).
  - intros x y _ _ Hxy Hyx. lia.
  - by apply sorted_by_key.
  - by apply sorted_by_key.
  - apply NoDup_Permutation; [eapply NoDup_fmap_1, sorted_nodup; eassumption..|done].
Qed.
End Keyed.

(** [l >>= f] where [f] gives at most one element. *)
Lemma bind_option_list {A B} (f : A -> list B) (g : A -> option B) l :
  (forall a, f a = option_list (g a)) -> l ≫= f = omap g l.
Proof.
  intros Hfg. induction l as [|a l IH]; [done|]. rewrite bind_cons, IH, Hfg. simpl. by destruct (g a).
Qed.

(** A cushion: when at most [h] elements have no image, the first [k + h]
    elements hold the first [k] images. *)
Lemma take_omap_cushion {A B} (f : A -> option B) l k h :
  (length (filter (fun a => f a = None) l) <= h)%nat ->
  take k (omap f (take (k + h) l)) = take k (omap f l).
Proof.
  revert k h. induction l as [|a l IH]; intros k h Hh; [by rewrite take_nil|].
  rewrite filter_cons in Hh. destruct k as [|k]; [done|]. simpl. destruct (f a) as [b|].
  - simpl. f_equal. destruct (decide _); [done|]. by apply IH.
  - destruct (decide _) as [|[]]; [|done]. simpl in Hh. destruct h as [|h]; [lia|].
    replace (k + S h)%nat with (S k + h)%nat by lia. apply IH. lia.
Qed.

(** ** The invariant of an overlay

    Both databases are well formed, the overlay edges are keyed by their
    logical identity, and the Base edges stay within a project, as the indexer
    writes them. *)

Record overlay_ok (o : Overlay) : Prop := {
  ov_delta : tables_ok (delta o);
  ov_base : tables_ok (base o);
  ov_ids : forall i e, overlay_edges o !! i = Some e -> 0 < i <= overlay_seq o;
  ov_seq : 0 <= overlay_seq o <= i64_max;
  ov_keys : forall i j a b, overlay_edges o !! i = Some a -> overlay_edges o !! j = Some b ->
    o_project a = o_project b -> o_source a = o_source b -> o_target a = o_target b ->
    o_type a = o_type b -> i = j;
  ov_base_project : forall i e j n, edges (base o) !! i = Some e ->
    j = e_source_id e \/ j = e_target_id e -> nodes (base o) !! j = Some n -> n_project n = e_project e
}.

Section Views.
Context (o : Overlay) (Hok : overlay_ok o).

Lemma as_visible_same b :
  Node.id (as_visible o b) = - Node.id b /\ Node.project (as_visible o b) = Node.project b /\
  Node.qualified_name (as_visible o b) = Node.qualified_name b.
Proof using. unfold as_visible. by destruct (visible_span o b). Qed.

Lemma elem_of_view_nodes n :
  n ∈ view_nodes o <->
  (exists i a, nodes (delta o) !! i = Some a /\ n = row_of i a) \/
  (exists i a, nodes (base o) !! i = Some a /\ base_visible o (row_of i a) /\ n = as_visible o (row_of i a)).
Proof using.
  unfold view_nodes. rewrite elem_of_app, elem_of_table, list_elem_of_fmap.
  setoid_rewrite elem_of_rows_where. split; (intros [H|H]; [by left|right]).
  - destruct H as (b & -> & Hv & i & a & Ha & ->). eauto.
  - destruct H as (i & a & Ha & Hv & ->). exists (row_of i a). eauto 6.
Qed.

(** Delta ids are positive and Base ids negative: the two cannot collide. *)
Lemma view_id_sign n :
  n ∈ view_nodes o ->
  (0 < Node.id n /\ select_node (delta o) (Node.id n) = Some n) \/
  (Node.id n < 0 /\ exists b, select_node (base o) (- Node.id n) = Some b /\ base_visible o b /\ n = as_visible o b).
Proof using Hok.
  intros [(i & a & Ha & ->)|(i & a & Ha & Hv & ->)]%elem_of_view_nodes; [left|right].
  - split; [apply (ok_node_ids _ (ov_delta _ Hok)) in Ha; simpl; lia|]. simpl. unfold select_node. by rewrite Ha.
  - destruct (as_visible_same (row_of i a)) as (-> & _ & _). simpl.
    split; [apply (ok_node_ids _ (ov_base _ Hok)) in Ha; lia|].
    exists (row_of i a). rewrite Z.opp_involutive. unfold select_node. by rewrite Ha.
Qed.

Lemma view_id_unique n : at_most_one (fun x => Node.id x = n) (view_nodes o).
Proof using Hok.
  intros a b Ha%view_id_sign Hb%view_id_sign <- Hab. rewrite Hab in Hb.
  destruct Ha as [[? Ha]|[? (x & Ha & _ & ->)]], Hb as [[? Hb]|[? (y & Hb & _ & ->)]];
    [congruence|lia|lia|congruence].
Qed.

Lemma view_name_unique p q : at_most_one (is_named p q) (view_nodes o).
Proof using Hok.
  assert (forall i a j b, nodes (delta o) !! i = Some a -> base_visible o (row_of j b) ->
    n_project a = n_project b -> n_qualified_name a = n_qualified_name b -> False) as Hcross.
  { intros i a j b Ha (_ & _ & Hnone) Hp Hq. rewrite rows_where_nil in Hnone. by apply (Hnone i a Ha). }
  intros x y Hx%elem_of_view_nodes Hy%elem_of_view_nodes [Px Qx] [Py Qy].
  destruct Hx as [(i & a & Ha & ->)|(i & a & Ha & Hva & ->)], Hy as [(j & b & Hb & ->)|(j & b & Hb & Hvb & ->)];
    try (destruct (as_visible_same (row_of i a)) as (_ & Ea & Fa));
    try (destruct (as_visible_same (row_of j b)) as (_ & Eb & Fb)); simpl in *.
  - assert (i = j) as <- by (eapply (ok_names _ (ov_delta _ Hok)); [done|done|congruence..]). congruence.
  - exfalso. eapply Hcross; [exact Ha|exact Hvb|congruence..].
  - exfalso. eapply Hcross; [exact Hb|exact Hva|congruence..].
  - assert (i = j) as <- by (eapply (ok_names _ (ov_base _ Hok)); [done|done|congruence..]). congruence.
Qed.

Lemma view_node_Some n nd : view_node o n = Some nd <-> nd ∈ view_nodes o /\ Node.id nd = n.
Proof using Hok. exact (head_filter (fun x => Node.id x = n) _ _ (view_id_unique n)). Qed.

Lemma view_named_Some p q nd : view_named o p q = Some nd <-> nd ∈ view_nodes o /\ is_named p q nd.
Proof using Hok. exact (head_filter (is_named p q) _ _ (view_name_unique p q)). Qed.

Lemma view_named_id p q n : view_named o p q = Some n -> view_node o (Node.id n) = Some n.
Proof using Hok. intros [Hn _]%view_named_Some. by apply view_node_Some. Qed.

Lemma view_named_unique p q n : n ∈ view_nodes o -> is_named p q n -> view_named o p q = Some n.
Proof using Hok. intros Hn Hp. by apply view_named_Some. Qed.

Lemma view_nodes_nodup : NoDup (view_nodes o).
Proof using Hok.
  apply (NoDup_fmap_1 Node.id). unfold view_nodes. rewrite fmap_app, <- list_fmap_compose.
  apply NoDup_app. split_and!.
  - by apply (sorted_nodup Node.id), (proj1 (sorted_by_key Node.id _)), table_sorted.
  - intros i (n & -> & (j & a & Ha & ->)%elem_of_table)%list_elem_of_fmap
      (b & Hb & (_ & k & c & Hc & ->)%elem_of_rows_where)%list_elem_of_fmap.
    destruct (as_visible_same (row_of k c)) as (Hk & _). simpl in Hb, Hk.
    apply (ok_node_ids _ (ov_delta _ Hok)) in Ha. apply (ok_node_ids _ (ov_base _ Hok)) in Hc. lia.
  - assert (NoDup (Node.id <$> rows_where row_of (base_visible o) (nodes (base o)))) as Hnd
      by (by apply (sorted_nodup Node.id), rows_where_sorted).
    apply (NoDup_fmap_2 Z.opp) in Hnd. rewrite <- list_fmap_compose in Hnd.
    rewrite (list_fmap_ext _ (Z.opp ∘ Node.id)); [done|]. intros i b _. apply as_visible_same.
Qed.

Lemma filter_named p q : filter (is_named p q) (view_nodes o) = option_list (view_named o p q).
Proof using Hok. apply filter_at_most_one; [apply view_nodes_nodup|apply view_name_unique]. Qed.

(** ** Joins *)

Definition joined (ps source pt target : string) (mk : Z -> Z -> Edge.t) : option Edge.t :=
  s ← view_named o ps source; t ← view_named o pt target; Some (mk (Node.id s) (Node.id t)).

Lemma join_ends_option ps source pt target mk :
  join_ends o ps source pt target mk = option_list (joined ps source pt target mk).
Proof using Hok.
  unfold join_ends, joined. rewrite !filter_named.
  destruct (view_named o ps source), (view_named o pt target); done.
Qed.

Lemma joined_Some ps source pt target mk e :
  joined ps source pt target mk = Some e <->
  exists s t, view_named o ps source = Some s /\ view_named o pt target = Some t /\
    e = mk (Node.id s) (Node.id t).
Proof using.
  unfold joined. destruct (view_named o ps source) as [s|], (view_named o pt target) as [t|]; simpl; naive_solver.
Qed.

(** The edge that a candidate stands for. *)
Definition resolve (c : OverlayEdgeCandidate) : option Edge.t :=
  joined (c_project c) (c_source c) (c_project c) (c_target c)
    (fun s t => Edge.Mk (c_id c) (c_project c) s t (c_type c) (c_properties c)).

Lemma delta_edge_rows_omap : delta_edge_rows o = omap resolve (table candidate_of (overlay_edges o)).
Proof using Hok. apply bind_option_list. intros c. apply join_ends_option. Qed.

(** The row of the view that a Base edge gives. *)
Definition base_row (e : Edge.t) : option Edge.t :=
  '(bs, bt) ← base_ends o e;
  if decide ((Edge.project e, Node.file_path bs) ∉ reference_files o /\ base_edge_kept o e bs bt)
  then joined (Node.project bs) (Node.qualified_name bs) (Node.project bt) (Node.qualified_name bt)
         (fun s t => Edge.Mk (- Edge.id e) (Edge.project e) s t (Edge.edge_type e) (Edge.properties e))
  else None.

Lemma base_edge_rows_omap : base_edge_rows o = omap base_row (table edge_row (edges (base o))).
Proof using Hok.
  apply bind_option_list. intros e. unfold base_row. destruct (base_ends o e) as [[bs bt]|]; simpl; [|done].
  destruct (decide _); [apply join_ends_option|done].
Qed.

Lemma resolve_id c e : resolve c = Some e -> Edge.id e = c_id c.
Proof using. by intros (s & t & _ & _ & ->)%joined_Some. Qed.

Lemma base_row_id x e : base_row x = Some e -> Edge.id e = - Edge.id x.
Proof using.
  unfold base_row. destruct (base_ends o x) as [[bs bt]|]; simpl; [|done].
  destruct (decide _); [|done]. by intros (s & t & _ & _ & ->)%joined_Some.
Qed.
End Views.

(** Keys that come from the keys of the source list stay distinct. *)
Lemma omap_keys_nodup {A B} (f : A -> option B) (kb : B -> Z) (ka : A -> Z) l :
  (forall a b, f a = Some b -> kb b = ka a) -> NoDup (ka <$> l) -> NoDup (kb <$> omap f l).
Proof.
  intros Hk. induction l as [|a l IH]; simpl; [constructor|]. intros [Ha Hnd]%NoDup_cons.
  destruct (f a) as [b|] eqn:Hf; [|by apply IH]. simpl. constructor; [|by apply IH].
  intros (b' & Hb & (a' & Ha' & Hf')%list_elem_of_omap)%list_elem_of_fmap. apply Ha.
  rewrite <- (Hk a b Hf), Hb, (Hk a' b' Hf'). by apply list_elem_of_fmap_2.
Qed.

Section Edges.
Context (o : Overlay) (Hok : overlay_ok o).

Lemma view_edges_nodup : NoDup (Edge.id <$> view_edges o).
Proof using Hok.
  unfold view_edges. rewrite delta_edge_rows_omap, base_edge_rows_omap, fmap_app by done.
  apply NoDup_app. split_and!.
  - apply (omap_keys_nodup _ _ c_id); [apply resolve_id|].
    by apply (sorted_nodup c_id), (proj1 (sorted_by_key c_id _)), table_sorted.
  - intros k (e & -> & (c & (i & a & Ha & ->)%elem_of_table & Hc%resolve_id)%list_elem_of_omap)%list_elem_of_fmap
      (e' & He & (x & (j & b & Hb & ->)%elem_of_table & Hx%base_row_id)%list_elem_of_omap)%list_elem_of_fmap.
    apply (ov_ids _ Hok) in Ha. apply (ok_edge_ids _ (ov_base _ Hok)) in Hb. simpl in *. lia.
  - apply (omap_keys_nodup _ _ (Z.opp ∘ Edge.id)); [apply base_row_id|]. rewrite list_fmap_compose.
    apply (NoDup_fmap_2 Z.opp). by apply (sorted_nodup Edge.id), (proj1 (sorted_by_key Edge.id _)), table_sorted.
Qed.

Lemma base_ends_Some i x bs bt :
  edges (base o) !! i = Some x -> base_ends o (edge_row i x) = Some (bs, bt) ->
  (exists a, nodes (base o) !! e_source_id x = Some a /\ bs = row_of (e_source_id x) a) /\
  (exists b, nodes (base o) !! e_target_id x = Some b /\ bt = row_of (e_target_id x) b) /\
  Node.project bs = e_project x /\ Node.project bt = e_project x.
Proof using Hok.
  intros Hx. unfold base_ends, select_node. simpl.
  destruct (nodes (base o) !! e_source_id x) as [a|] eqn:Ha; simpl; [|done].
  destruct (nodes (base o) !! e_target_id x) as [b|] eqn:Hb; simpl; [|done]. intros [= <- <-].
  split_and!; [by eexists|by eexists|..]; simpl.
  - apply (ov_base_project _ Hok i x (e_source_id x)); auto.
  - apply (ov_base_project _ Hok i x (e_target_id x)); auto.
Qed.

(** A row of the view comes from an overlay edge or from a Base edge that is
    kept, in both cases through the same resolution of names. *)
Definition from_delta (c : OverlayEdgeCandidate) : Prop :=
  exists i d, overlay_edges o !! i = Some d /\ c = candidate_of i d.
Definition from_base (c : OverlayEdgeCandidate) (bs bt : Node.t) : Prop :=
  exists i x, edges (base o) !! i = Some x /\ base_ends o (edge_row i x) = Some (bs, bt) /\
    base_edge_kept o (edge_row i x) bs bt /\ c = candidate_of_base (edge_row i x) bs bt.

Lemma elem_of_view_edges e :
  e ∈ view_edges o <-> exists c, resolve o c = Some e /\
    (from_delta c \/ exists bs bt, from_base c bs bt /\ (c_project c, Node.file_path bs) ∉ reference_files o).
Proof using Hok.
  unfold view_edges. rewrite delta_edge_rows_omap, base_edge_rows_omap, elem_of_app, !list_elem_of_omap by done.
  setoid_rewrite elem_of_table. split.
  - intros [(c & (i & d & Hd & ->) & Hc)|(y & (i & x & Hx & ->) & Hy)].
    { eexists. split; [exact Hc|]. left. by exists i, d. }
    unfold base_row in Hy. destruct (base_ends o (edge_row i x)) as [[bs bt]|] eqn:Hends; simpl in Hy; [|done].
    destruct (decide _) as [[Href Hkept]|]; [|done].
    destruct (base_ends_Some i x bs bt Hx Hends) as (_ & _ & Hps & Hpt). rewrite Hps, Hpt in Hy.
    exists (candidate_of_base (edge_row i x) bs bt). split; [exact Hy|]. right. exists bs, bt.
    split; [by exists i, x|exact Href].
  - intros (c & Hc & [(i & d & Hd & ->)|(bs & bt & (i & x & Hx & Hends & Hkept & ->) & Href)]).
    { left. exists (candidate_of i d). split; [by exists i, d|exact Hc]. }
    right. exists (edge_row i x). split; [by exists i, x|]. unfold base_row. rewrite Hends. simpl.
    destruct (base_ends_Some i x bs bt Hx Hends) as (_ & _ & Hps & Hpt). rewrite Hps, Hpt.
    rewrite decide_True by (split; [exact Href|exact Hkept]). exact Hc.
Qed.

Lemma resolve_near d c e :
  resolve o c = Some e ->
  exists x, view_named o (c_project c) (near_name d c) = Some x /\ from_of d e = Node.id x.
Proof using. intros (s & t & Hs & Ht & ->)%joined_Some. destruct d; [by exists s|by exists t]. Qed.

(** Which candidates lead to edges at a node. *)
Lemma resolve_at d c e n nd :
  view_node o n = Some nd -> resolve o c = Some e ->
  from_of d e = n <-> c_project c = Node.project nd /\ near_name d c = Node.qualified_name nd.
Proof using Hok.
  intros Hn Hc. destruct (resolve_near d c e Hc) as (x & Hx & ->).
  pose proof (proj1 (view_node_Some o Hok n nd) Hn) as [Hin Hid].
  pose proof (proj1 (view_named_Some o Hok _ _ x) Hx) as [Hinx [Hp Hq]]. split.
  - intros Hxn. rewrite (view_id_unique o Hok n x nd) in Hp, Hq by done. by rewrite Hp, Hq.
  - intros [Ep Eq]. rewrite Ep, Eq in Hx.
    rewrite (view_named_unique o Hok _ _ nd) in Hx by done. injection Hx as <-. done.
Qed.

Lemma elem_of_candidates d p q ty c :
  c ∈ candidates o d p q ty <->
  (from_delta c \/ exists bs bt, from_base c bs bt) /\ c_project c = p /\ near_name d c = q /\ c_type c = ty.
Proof using Hok.
  unfold candidates, delta_candidates.
  rewrite elem_of_sort_by, elem_of_app, elem_of_rows_where, list_elem_of_omap.
  setoid_rewrite elem_of_table. split.
  - intros [(Hc & i & d0 & Hd & ->)|(y & (i & x & Hx & ->) & Hy)]; [split; [left; by exists i, d0|done]|].
    unfold base_candidate in Hy. destruct (base_ends o (edge_row i x)) as [[bs bt]|] eqn:Hends; [|done].
    destruct (decide _) as [(Hnear & Hty & Hkept)|]; [|done]. injection Hy as <-.
    destruct (base_ends_Some i x bs bt Hx Hends) as (_ & _ & Hps & Hpt).
    split; [right; exists bs, bt; by exists i, x|]. destruct Hnear as [Hnp Hnq].
    destruct d; simpl in *; split_and!; congruence.
  - intros ([(i & d0 & Hd & ->)|(bs & bt & i & x & Hx & Hends & Hkept & ->)] & Hp & Hq & Hty).
    { left. split; [done|]. by exists i, d0. }
    right. exists (edge_row i x). split; [by exists i, x|]. unfold base_candidate. rewrite Hends.
    destruct (base_ends_Some i x bs bt Hx Hends) as (_ & _ & Hps & Hpt).
    rewrite decide_True; [done|]. unfold is_named. destruct d; simpl in *; split_and!; congruence.
Qed.
End Edges.

(** ** Listings *)

Section Listings.
Context (o : Overlay) (Hok : overlay_ok o).

Lemma collect_take limit acc cs :
  (length acc < limit)%nat -> collect o limit acc cs = take limit (acc ++ omap (resolve o) cs).
Proof using.
  revert acc. induction cs as [|c cs IH]; intros acc Hacc; simpl.
  { rewrite app_nil_r, take_ge; [done|lia]. }
  unfold resolve at 1, joined.
  destruct (view_named o (c_project c) (c_source c)) as [s|]; simpl; [|by apply IH].
  destruct (view_named o (c_project c) (c_target c)) as [t|]; simpl; [|by apply IH].
  rewrite length_app. simpl. destruct (Nat.leb_spec limit (length acc + 1)).
  - rewrite take_app, (take_ge acc) by lia. f_equal. by replace (limit - length acc)%nat with 1%nat by lia.
  - rewrite IH by (rewrite length_app; simpl; lia). by rewrite <- app_assoc.
Qed.

Lemma overlay_edges_for_endpoint_take d n nd ty limit :
  view_node o n = Some nd ->
  overlay_edges_for_endpoint d o n ty limit =
    take limit (omap (resolve o)
      (take (limit + 3 * limit) (candidates o d (Node.project nd) (Node.qualified_name nd) ty))).
Proof using.
  intros Hn. unfold overlay_edges_for_endpoint. rewrite Hn.
  replace (candidate_limit limit) with (limit + 3 * limit)%nat by (unfold candidate_limit; lia).
  destruct limit as [|limit]; [done|]. by rewrite collect_take by (simpl; lia).
Qed.

Lemma candidates_sorted d p q ty : StronglySorted Z.lt (c_id <$> candidates o d p q ty).
Proof using Hok.
  apply (sort_by_key c_id). rewrite fmap_app. apply NoDup_app. split_and!.
  - by apply (sorted_nodup c_id), rows_where_sorted.
  - unfold delta_candidates. intros k (c & -> & (_ & i & d0 & Hd & ->)%elem_of_rows_where)%list_elem_of_fmap
      (c' & Hk & (x & (j & b & Hb & ->)%elem_of_table & Hx)%list_elem_of_omap)%list_elem_of_fmap.
    unfold base_candidate in Hx. destruct (base_ends o (edge_row j b)) as [[bs bt]|]; [|done].
    destruct (decide _); [|done]. injection Hx as <-. simpl in Hk.
    apply (ov_ids _ Hok) in Hd. apply (ok_edge_ids _ (ov_base _ Hok)) in Hb. lia.
  - apply (omap_keys_nodup _ _ (Z.opp ∘ Edge.id)).
    + intros e c. unfold base_candidate. destruct (base_ends o e) as [[bs bt]|]; [|done].
      destruct (decide _); [|done]. by intros [= <-].
    + rewrite list_fmap_compose. apply (NoDup_fmap_2 Z.opp).
      by apply (sorted_nodup Edge.id), (proj1 (sorted_by_key Edge.id _)), table_sorted.
Qed.

Lemma omap_sorted {A B} (f : A -> option B) (ka : A -> Z) (kb : B -> Z) l :
  (forall a b, f a = Some b -> kb b = ka a) ->
  StronglySorted Z.lt (ka <$> l) -> StronglySorted Z.lt (kb <$> omap f l).
Proof using.
  intros Hk. induction l as [|a l IH]; simpl; [constructor|]. intros [Hs Hf]%StronglySorted_inv.
  destruct (f a) as [b|] eqn:Hb; [|by apply IH]. simpl. constructor; [by apply IH|].
  rewrite Forall_forall in Hf. rewrite Forall_forall.
  intros k (b' & -> & (a' & Ha' & Hb')%list_elem_of_omap)%list_elem_of_fmap.
  rewrite (Hk a b Hb), (Hk a' b' Hb'). apply Hf. by apply list_elem_of_fmap_2.
Qed.

Lemma resolved_sorted d p q ty k :
  StronglySorted Z.lt (Edge.id <$> omap (resolve o) (take k (candidates o d p q ty))).
Proof using Hok.
  apply (omap_sorted _ c_id); [apply resolve_id|]. rewrite fmap_take. apply sorted_take, candidates_sorted.
Qed.

Lemma resolved_edge c e : resolve o c = Some e ->
  Edge.id e = c_id c /\ Edge.edge_type e = c_type c /\
  forall d, next_of d e ∈ (list_to_set (Node.id <$> view_nodes o) : gset Z).
Proof using Hok.
  intros (s & t & [Hs _]%(view_named_Some o Hok) & [Ht _]%(view_named_Some o Hok) & ->)%joined_Some. split_and!; [done..|].
  intros d. rewrite elem_of_list_to_set.
  destruct d; [exact (list_elem_of_fmap_2 Node.id _ t Ht)|exact (list_elem_of_fmap_2 Node.id _ s Hs)].
Qed.

Lemma overlay_listing_ok d n ty limit :
  listing_ok (list_to_set (Node.id <$> view_nodes o)) d n ty limit (overlay_listing d o n ty limit).
Proof using Hok.
  destruct ty as [ty|]; simpl.
  - destruct (view_node o n) as [nd|] eqn:Hn.
    2: { unfold overlay_edges_for_endpoint. rewrite Hn. split_and!; simpl; [lia|constructor..]. }
    rewrite (overlay_edges_for_endpoint_take d n nd) by done. split_and!.
    + rewrite length_take. lia.
    + rewrite fmap_take. apply sorted_take, resolved_sorted.
    + apply Forall_forall. intros e (k & Hk & _)%elem_of_take.
      apply list_elem_of_lookup_2, list_elem_of_omap in Hk as (c & Hc & He).
      apply elem_of_take in Hc as (j & Hj%list_elem_of_lookup_2 & _).
      apply (elem_of_candidates o Hok) in Hj as (_ & Hp & Hq & Hty).
      destruct (resolved_edge c e He) as (_ & Het & Hnext). split_and!; [|done|simpl; congruence].
      by apply (resolve_at o Hok d c e n nd).
  - unfold view_listing. split_and!.
    + rewrite length_take. lia.
    + rewrite fmap_take. apply sorted_take, (sort_by_key Edge.id).
      apply (sublist_NoDup _ (Edge.id <$> view_edges o)); [by apply view_edges_nodup|].
      apply fmap_sublist, sublist_filter.
    + apply Forall_forall. intros e (k & Hk & _)%elem_of_take.
      apply list_elem_of_lookup_2, elem_of_sort_by, list_elem_of_filter in Hk as [[Hf Hty] He].
      apply (elem_of_view_edges o Hok) in He as (c & Hc & _). split_and!; [done|by apply (resolved_edge c)|done].
Qed.
End Listings.

(** ** The interface

    An overlay that is well formed, as [attach_overlay] opens it. *)

Record View : Type := { view_of : Overlay; view_ok : overlay_ok view_of }.

#[export] Instance View_graph : GraphStore View := {
  get_node v n := Ok (view_node (view_of v) n);
  outgoing_edges v n ty limit := Ok (overlay_listing Outgoing (view_of v) n ty limit);
  incoming_edges v n ty limit := Ok (overlay_listing Incoming (view_of v) n ty limit);
  endpoints v := list_to_set (Node.id <$> view_nodes (view_of v))
}.

#[export] Instance View_laws : GraphStoreLaws View.
Proof.
  split.
  - intros [o Hok] n nd. simpl. intros [= Hn]. by apply (view_node_Some o Hok) in Hn as [_ ?].
  - intros [o Hok] n ty limit es. simpl. intros [= <-]. by apply overlay_listing_ok.
  - intros [o Hok] n ty limit es. simpl. intros [= <-]. by apply overlay_listing_ok.
Qed.

Lemma View_readable (v : View) : readable v.
Proof. split; [by eexists|]. intros [] n ty limit; by eexists. Qed.
