(* ===== verification/GraphOverlayWrites.v ===== *)
(** What the writers of an overlay do: the invariant they keep and the Base
    they never touch. *)

From stdpp Require Import gmultiset.
From S2P Require Import Prelude Loop RustText Fts GraphStore GraphDb GraphDbFacts GraphDbSpec.
From S2P Require Import GraphOverlay GraphOverlayFacts.

Lemma bind_gets {E S A B} (f : S -> A) (k : A -> action E S B) s : bind (gets f) k s = k (f s) s.
Proof. reflexivity. Qed.

(** [keeps_ok P m]: when [m] succeeds, it does not leave [P]. *)
Definition keeps_ok {E S A} (P : S -> Prop) (m : action E S A) : Prop :=
  forall s a s', P s -> m s = (Ok a, s') -> P s'.

Section KeepsOk.
Context {E S : Type} (P : S -> Prop).

Lemma keeps_ok_of {A} (m : action E S A) : preserves P m -> keeps_ok P m.
Proof. intros Hm s a s'. apply Hm. Qed.

Lemma keeps_ok_pure {A} (m : action E S A) : (forall s, exists r, m s = (r, s)) -> keeps_ok P m.
Proof. intros Hm. by apply keeps_ok_of, preserves_pure. Qed.

Lemma keeps_ok_bind {A B} (m : action E S A) (k : A -> action E S B) :
  keeps_ok P m -> (forall a, keeps_ok P (k a)) -> keeps_ok P (bind m k).
Proof. intros Hm Hk s b s' Hs (a & s1 & H1 & H2)%bind_ok_inv. eapply Hk; [by eapply Hm|done]. Qed.

Lemma keeps_ok_mapM {A B} (f : A -> action E S B) l : (forall a, keeps_ok P (f a)) -> keeps_ok P (mapM f l).
Proof.
  intros Hf. induction l as [|a l IH]; simpl; [by apply keeps_ok_pure; intros s; eexists|].
  apply keeps_ok_bind; [done|]. intros b. apply keeps_ok_bind; [done|]. intros bs.
  apply keeps_ok_pure. intros s. by eexists.
Qed.

Lemma preserves_transaction {A} (m : action E S A) : keeps_ok P m -> preserves P (atomically m).
Proof.
  intros Hm s r s' Hs Hrun. destruct r as [a|e|]; [apply atomically_ok_inv in Hrun; by eapply Hm|..];
    apply atomically_rollback in Hrun; by subst.
Qed.
End KeepsOk.

(** A step that only reads. *)
Ltac reads :=
  first [apply preserves_pure | apply keeps_ok_pure]; intros ?;
  repeat match goal with
  | o : option _ |- _ => destruct o
  | |- context [guard ?b _ _] => unfold guard; destruct b
  end; by eexists.

Section Writes.
Context (uni_alnum : char -> bool).

(** The invariant, and the Base that a history started with. *)
Definition overlay_wf (b : Db) (o : Overlay) : Prop :=
  overlay_ok o /\ fts_ok uni_alnum (delta o) /\ base o = b.

Lemma overlay_wf_delta b o d : overlay_wf b o -> db_wf uni_alnum d -> overlay_wf b (set_delta d o).
Proof using. intros ([? ? ? ? ? ?] & _ & Hb) [Hd Hf]. split; [by split|by split]. Qed.

Lemma wf_db b o : overlay_wf b o -> db_wf uni_alnum (delta o).
Proof using. intros (Hok & Hf & _). split; [apply Hok|done]. Qed.

Lemma on_delta_preserves {A} b (m : dbm A) :
  preserves (db_wf uni_alnum) m -> preserves (overlay_wf b) (on_delta m).
Proof using.
  intros Hm o r o' Ho. unfold on_delta, zoom. destruct (m (delta o)) as [r0 d] eqn:Hd. intros [= <- <-].
  apply overlay_wf_delta; [done|]. eapply Hm; [by eapply wf_db|done].
Qed.

Lemma on_delta_keeps_ok {A} b (m : dbm A) :
  keeps_ok (db_wf uni_alnum) m -> keeps_ok (overlay_wf b) (on_delta m).
Proof using.
  intros Hm o a o' Ho. unfold on_delta, zoom. destruct (m (delta o)) as [r0 d] eqn:Hd. intros [= -> <-].
  apply overlay_wf_delta; [done|]. eapply Hm; [by eapply wf_db|done].
Qed.

Lemma on_delta_ok {A} (m : dbm A) o a d : m (delta o) = (Ok a, d) -> on_delta m o = (Ok a, set_delta d o).
Proof using. unfold on_delta, zoom. by intros ->. Qed.

Lemma on_delta_run {A} (m : dbm A) o r o' :
  on_delta m o = (r, o') -> exists d, m (delta o) = (r, d) /\ o' = set_delta d o.
Proof using. unfold on_delta, zoom. destruct (m (delta o)) as [r0 d]. intros [= <- <-]. eauto. Qed.

(** ** Nodes *)

Lemma overlay_insert_node_wf b n : preserves (overlay_wf b) (overlay_insert_node uni_alnum n).
Proof using.
  apply preserves_bind; [reads|]. intros [id|].
  - reads.
  - apply on_delta_preserves. intros s r s'. apply insert_node_wf.
Qed.

Lemma overlay_insert_nodes_wf b ns : preserves (overlay_wf b) (overlay_insert_nodes uni_alnum ns).
Proof using.
  unfold overlay_insert_nodes. destruct ns as [|n ns]; [reads|].
  apply preserves_bind; [reads|]. intros reused.
  apply preserves_transaction, keeps_ok_mapM. intros [m [id|]]; [reads|].
  apply on_delta_keeps_ok. intros s i s' Hs Hrun. by eapply insert_node_in_tx_wf.
Qed.

(** The overlay edges may shrink. *)
Lemma overlay_wf_fewer b o d m :
  overlay_wf b o -> db_wf uni_alnum d -> m ⊆ overlay_edges o ->
  overlay_wf b (set_delta d (set_overlay_edges m (overlay_seq o) o)).
Proof using.
  intros ([? ? Hids ? Hkeys ?] & _ & Hb) [Hd Hf] Hm. split; [|by split]. split; try done; simpl.
  - intros i e He. by eapply Hids, lookup_weaken.
  - intros i j x y Hx Hy. by eapply Hkeys; eapply lookup_weaken.
Qed.

(** What is left of the overlay edges when the nodes of a file go. *)
Definition edges_without_file (o : Overlay) (project file : string) : gmap Z NewOverlayEdge :=
  let names := names_in_file (delta o) project file in
  filter (fun x => ~ (o_project x.2 = project /\ (o_source x.2 ∈ names \/ o_target x.2 ∈ names)))
    (overlay_edges o).

(** [delete_nodes_for_file] does to the Delta what it does to a single store. *)
Lemma overlay_delete_file_run project file o :
  exists k d, overlay_delete_nodes_for_file uni_alnum project file o =
    (Ok k, set_delta d
       (set_overlay_edges (if decide (names_in_file (delta o) project file = []) then overlay_edges o
                           else edges_without_file o project file) (overlay_seq o) o)) /\
    GraphDb.delete_nodes_for_file uni_alnum project file (delta o) = (Ok k, d).
Proof using.
  unfold overlay_delete_nodes_for_file, GraphDb.delete_nodes_for_file, names_in_file.
  rewrite !bind_gets.
  destruct (rows_where row_of (in_file project file) (nodes (delta o))) as [|x rows] eqn:Hrows.
  - rewrite decide_True by done.
    destruct (delete_vector_embeddings_for_file project file (delta o)) as [r d] eqn:Hd.
    unfold delete_vector_embeddings_for_file, atomically in Hd. simpl in Hd. injection Hd as <- <-.
    eexists _, _. split; [|reflexivity]. destruct o. reflexivity.
  - rewrite decide_False by done.
    set (d1 := set_fts (fun f => f ∖ list_to_set_disj (posting_of uni_alnum <$> x :: rows)) (delta o)).
    set (d2 := set_vectors (filter (fun y => ~ (v_project y.2 = project /\ v_file_path y.2 = file))) d1).
    set (d3 := set_nodes (filter (fun y => ~ in_file project file (row_of y.1 y.2))) d2).
    destruct (cascade_run d3) as (d4 & Hc & _). eexists _, d4. split.
    + unfold atomically. erewrite bind_ok; last first.
      { unfold on_delta, zoom. rewrite forM_fts_delete_run. reflexivity. }
      erewrite bind_ok by reflexivity. erewrite bind_ok by reflexivity. erewrite bind_ok; last first.
      { apply (on_delta_ok (modify _ ;;; cascade) _ tt d4). exact Hc. }
      reflexivity.
    + unfold atomically. erewrite bind_ok by apply forM_fts_delete_run. fold d1.
      erewrite bind_ok by reflexivity. fold d2. erewrite bind_ok by reflexivity. fold d3.
      by erewrite bind_ok by exact Hc.
Qed.

Lemma overlay_delete_nodes_for_file_wf b project file :
  preserves (overlay_wf b) (overlay_delete_nodes_for_file uni_alnum project file).
Proof using.
  intros o r o' Ho Hrun. destruct (overlay_delete_file_run project file o) as (k & d & Hd & Hdb).
  rewrite Hrun in Hd. injection Hd as -> ->. apply overlay_wf_fewer; [done| |].
  - eapply delete_nodes_for_file_wf; [by eapply wf_db|done].
  - destruct (decide _); [done|]. apply map_filter_subseteq.
Qed.

Lemma overlay_upsert_project_wf b p : preserves (overlay_wf b) (overlay_upsert_project p).
Proof using. apply on_delta_preserves. intros s r s'. apply upsert_project_wf. Qed.

Lemma overlay_update_node_identity_wf b id label qname :
  preserves (overlay_wf b) (overlay_update_node_identity uni_alnum id label qname).
Proof using.
  apply preserves_atomically. destruct (id <? 0).
  - apply preserves_bind; [reads|]. intros old.
    apply preserves_bind; [reads|]. intros nd.
    apply preserves_bind; [reads|]. intros project.
    apply preserves_bind; [reads|]. intros p.
    apply preserves_bind; [apply overlay_upsert_project_wf|]. intros _.
    apply preserves_bind; [apply overlay_insert_node_wf|]. intros _.
    apply preserves_modify. intros o ([? ? ? ? ? ?] & Hf & Hb). split; [by split|by split].
  - apply on_delta_preserves. intros s r s'. apply update_node_identity_wf.
Qed.

Lemma set_span_preserves i start_line end_line :
  preserves (db_wf uni_alnum) (modify (E:=StoreError.Error) (set_nodes (alter (set_span start_line end_line) i))).
Proof using.
  apply preserves_modify. intros s Hs. destruct (nodes s !! i) as [n|] eqn:Hn.
  - replace (set_nodes (alter (set_span start_line end_line) i) s)
      with (set_nodes <[i := set_span start_line end_line n]> s); [by apply set_span_wf|].
    unfold set_nodes. f_equal. apply map_eq. intros j. destruct (decide (i = j)) as [<-|].
    + by rewrite lookup_insert_eq, lookup_alter_eq, Hn.
    + by rewrite lookup_insert_ne, lookup_alter_ne.
  - replace (set_nodes (alter (set_span start_line end_line) i) s) with s; [done|].
    destruct s as [ps ns sq es esq fs vs]. unfold set_nodes. simpl in *. f_equal. symmetry. by apply alter_id; congruence.
Qed.

Lemma overlay_update_node_spans_wf b spans : preserves (overlay_wf b) (overlay_update_node_spans spans).
Proof using.
  apply preserves_forM. intros [[id start_line] end_line].
  apply preserves_bind; [reads|]. intros _.
  apply preserves_bind; [reads|]. intros old.
  apply preserves_bind; [reads|]. intros nd.
  apply preserves_bind; [reads|]. intros source.
  apply preserves_bind.
  - destruct (0 <=? id); [apply on_delta_preserves, set_span_preserves|reads].
  - intros _. destruct source as [[[base_id s0] e0]|]; [|reads].
    apply preserves_modify. intros o ([? ? ? ? ? ?] & Hf & Hb). split; [by split|by split].
Qed.

(** ** Edges *)

(** An edge is put under an id that is free or that held the same edge. *)
Lemma overlay_wf_edge b o i e seq :
  overlay_wf b o -> 0 < i <= seq -> overlay_seq o <= seq <= i64_max ->
  (forall j x, overlay_edges o !! j = Some x ->
     same_logical (o_project e) (o_source e) (o_target e) (o_type e) (candidate_of j x) -> j = i) ->
  overlay_wf b (set_overlay_edges (<[i := e]> (overlay_edges o)) seq o).
Proof using.
  intros ([? ? Hids Hseq Hkeys ?] & Hf & Hb) Hi Hs Hfree. split; [|by split]. split; try done; simpl; [|lia|].
  - intros j x [[<- _]|[_ Hx]]%lookup_insert_Some; [lia|]. apply Hids in Hx. lia.
  - intros j k x y [[<- <-]|[_ Hx]]%lookup_insert_Some [[<- <-]|[_ Hy]]%lookup_insert_Some H1 H2 H3 H4;
      [done|symmetry; by apply (Hfree k y)|by apply (Hfree j x)|by eapply Hkeys].
Qed.

Lemma upsert_overlay_edge_run e o i o' :
  overlay_ok o -> upsert_overlay_edge e o = (Ok i, o') ->
  exists seq, o' = set_overlay_edges (<[i := e]> (overlay_edges o)) seq o /\ 0 < i <= seq /\
    overlay_seq o <= seq <= i64_max /\
    (forall j x, overlay_edges o !! j = Some x ->
       same_logical (o_project e) (o_source e) (o_target e) (o_type e) (candidate_of j x) -> j = i) /\
    (forall x, overlay_edges o !! i = Some x ->
       same_logical (o_project e) (o_source e) (o_target e) (o_type e) (candidate_of i x)).
Proof using.
  intros Hok Hrun. unfold upsert_overlay_edge in Hrun. rewrite bind_gets in Hrun.
  destruct (head _) as [c|] eqn:Hh.
  - apply head_rows_where in Hh as [Hsame (j & x & Hx & ->)]. injection Hrun as <- <-.
    exists (overlay_seq o). pose proof (ov_ids _ Hok _ _ Hx). pose proof (ov_seq _ Hok). simpl.
    destruct Hsame as (P1 & P2 & P3 & P4). simpl in *.
    split_and!; [done|lia|lia|lia|lia| |].
    + intros k y Hy (Q1 & Q2 & Q3 & Q4). simpl in *. eapply (ov_keys _ Hok); [exact Hy|exact Hx|congruence..].
    + intros y Hy. rewrite Hx in Hy. injection Hy as <-. by split_and!.
  - rewrite bind_gets in Hrun. apply bind_ok_inv in Hrun as ([] & o1 & [Hlt%Z.ltb_lt ->]%guard_ok_inv & Hrun).
    injection Hrun as <- <-. exists (overlay_seq o + 1). pose proof (ov_seq _ Hok).
    split_and!; [done|lia|lia|lia|lia| |].
    + intros j x Hx Hsame. by destruct (head_rows_where_None _ _ _ Hh j x Hx).
    + intros x Hx. apply (ov_ids _ Hok) in Hx. lia.
Qed.

Lemma upsert_overlay_edge_wf b e : keeps_ok (overlay_wf b) (upsert_overlay_edge e).
Proof using.
  intros o i o' Ho Hrun. apply upsert_overlay_edge_run in Hrun as (seq & -> & Hi & Hs & Hfree & _); [|apply Ho].
  by apply overlay_wf_edge.
Qed.

Lemma upsert_all_wf b es : keeps_ok (overlay_wf b) (forM es (fun e => upsert_overlay_edge e ;;; ret tt)).
Proof using.
  unfold forM. induction es as [|e es IH]; simpl; [reads|].
  apply keeps_ok_bind; [|by intros []]. apply keeps_ok_bind; [apply upsert_overlay_edge_wf|].
  intros i. reads.
Qed.

Lemma insert_overlay_edge_wf b e : preserves (overlay_wf b) (insert_overlay_edge e).
Proof using. apply preserves_transaction, upsert_overlay_edge_wf. Qed.

Lemma insert_overlay_edges_wf b es : preserves (overlay_wf b) (insert_overlay_edges es).
Proof using.
  unfold insert_overlay_edges. destruct es; [reads|].
  apply preserves_transaction, upsert_all_wf.
Qed.

Lemma replace_overlay_edges_wf b project es : preserves (overlay_wf b) (replace_overlay_edges project es).
Proof using.
  apply preserves_transaction, keeps_ok_bind; [|intros _; apply upsert_all_wf].
  apply keeps_ok_of, preserves_modify. intros o Ho.
  pose proof (overlay_wf_fewer b o (delta o)
    (filter (fun x => ~ (o_project x.2 = project /\ o_type x.2 ∉ structural)) (overlay_edges o))
    Ho (wf_db b o Ho) (map_filter_subseteq _ _)) as Hw. by destruct o.
Qed.

Lemma overlay_insert_edge_wf b e : preserves (overlay_wf b) (overlay_insert_edge e).
Proof using.
  assert (forall id p, preserves (overlay_wf b) (name_of id p)) as Hname.
  { intros id p. apply preserves_pure. intros s. unfold name_of. rewrite bind_gets.
    destruct (head _); by eexists. }
  apply preserves_bind; [reads|]. intros visible.
  destruct (_ ≫= _); [reads|].
  apply preserves_bind; [apply Hname|]. intros source. apply preserves_bind; [apply Hname|]. intros target.
  apply insert_overlay_edge_wf.
Qed.
End Writes.
