(* ===== verification/GraphOverlaySpec.v ===== *)
(** What an overlay promises: whatever is written, the Base is untouched and
    the composed view stays a graph; a write through the overlay is what the
    view shows afterwards; and the typed edge queries agree with the view.
    At the end, two cases in which the code and its comments part. *)

From stdpp Require Import gmultiset.
From S2P Require Import Prelude Loop CoreError RustStr RustText Fts GraphStore GraphReach GraphDb GraphDbFacts GraphDbSpec GraphDemo.
From S2P Require Import GraphOverlay GraphOverlayFacts GraphOverlayWrites.

(** ** Opening *)

Lemma hide_paths_ok paths :
  NoDup paths -> hide_paths paths = Ok (list_to_set paths).
Proof.
  intros Hnd. unfold hide_paths.
  assert (forall seen : gset string, (forall p, p ∈ paths -> p ∉ seen) -> try_fold (fun hidden path =>
    if decide (path ∈ hidden) then Err (unique_failed "greppy_hidden_paths.path")
    else Ok ({[ path ]} ∪ hidden)) seen paths = Ok (list_to_set paths ∪ seen)) as Hgen.
  { induction Hnd as [|p paths Hp Hnd IH]; intros seen Hseen; simpl; [f_equal; set_solver|].
    rewrite decide_False by (apply Hseen; left). simpl. rewrite IH; [f_equal; set_solver|].
    intros q Hq. specialize (Hseen q). set_solver. }
  rewrite Hgen by set_solver. f_equal. set_solver.
Qed.

Lemma normalize_paths_ok paths out :
  normalize_paths paths = Ok out ->
  forall q, q ∈ out <-> exists p, p ∈ paths /\ normalize_delta_path p = Ok q.
Proof.
  unfold normalize_paths.
  assert (forall seen : gset string, try_fold (fun normalized path =>
    let? joined := normalize_delta_path path in Ok ({[ joined ]} ∪ normalized)) seen paths = Ok out ->
    forall q, q ∈ out <-> q ∈ seen \/ exists p, p ∈ paths /\ normalize_delta_path p = Ok q) as Hgen.
  { induction paths as [|p paths IH]; intros seen; simpl; [intros [= ->]; set_solver|].
    destruct (normalize_delta_path p) as [j| |] eqn:Hj; simpl; [|done..]. intros Hrun q.
    rewrite (IH _ Hrun), elem_of_union, elem_of_singleton. split.
    - intros [[->|Hq]|(p' & Hp' & Hq)]; [right; exists p|by left|right; exists p']; by rewrite elem_of_cons; auto.
    - intros [Hq|(p' & [->|Hp']%elem_of_cons & Hq)]; [by left; right| |by right; exists p'].
      left. left. congruence. }
  intros Hrun q. rewrite (Hgen ∅ Hrun). split; [by intros [[]%elem_of_empty|]|by right].
Qed.

(** What [attach_overlay] makes of a Delta and a Base that are well formed. *)
Record delta_ok (d : Delta) : Prop := {
  dl_db : tables_ok (d_db d);
  dl_ids : forall i e, d_edges d !! i = Some e -> 0 < i <= d_seq d;
  dl_seq : 0 <= d_seq d <= i64_max;
  dl_keys : forall i j a b, d_edges d !! i = Some a -> d_edges d !! j = Some b ->
    o_project a = o_project b -> o_source a = o_source b -> o_target a = o_target b ->
    o_type a = o_type b -> i = j
}.

Definition edges_in_project (b : Db) : Prop :=
  forall i e j n, edges b !! i = Some e -> j = e_source_id e \/ j = e_target_id e ->
    nodes b !! j = Some n -> n_project n = e_project e.

(** A visibility index that could be built is attached without an error, and
    then hides the Base rows of exactly the paths it was built from, in
    their normal form, each of which is hidden once and in one role. *)
Theorem attach_overlay_hides dirty_paths deleted_paths v d b :
  visibility_new dirty_paths deleted_paths = Ok v -> delta_ok d -> tables_ok b -> edges_in_project b ->
  exists o, attach_overlay d b v = Ok o /\ overlay_ok o /\ base o = b /\ delta o = d_db d /\
    (forall q, q ∈ hidden_paths o <-> exists p, p ∈ dirty_paths ++ deleted_paths /\ normalize_delta_path p = Ok q) /\
    forall q, q ∈ hidden_paths o <-> hides_base_path v q = true.
Proof.
  intros Hv [? ? ? ?] Hb Hproj. unfold visibility_new in Hv.
  destruct (normalize_paths dirty_paths) as [ds| |] eqn:Hd; simpl in Hv; [|done..].
  destruct (normalize_paths deleted_paths) as [es| |] eqn:He; simpl in Hv; [|done..].
  destruct (decide (ds ## es)) as [Hdis|]; [|done]. injection Hv as <-.
  assert (exists h, (if (changed_count {| dirty := ds; deleted := es |} =? 0)%nat then Ok ∅
    else hide_paths (elements ds ++ elements es)) = Ok h /\ h = ds ∪ es) as (h & Hh & ->).
  { exists (ds ∪ es). split; [|done]. unfold changed_count. simpl. destruct (Nat.eqb_spec (size ds + size es) 0) as [Hz|].
    - assert (ds ≡ ∅ /\ es ≡ ∅) as [? ?] by (rewrite <- !size_empty_iff; lia). f_equal. set_solver.
    - rewrite hide_paths_ok; [f_equal; set_solver|]. apply NoDup_app. split_and!; [apply NoDup_elements| |apply NoDup_elements].
      set_solver. }
  unfold attach_overlay. cbn [dirty deleted]. rewrite Hh. eexists. split; [reflexivity|]. split_and!; [by split|done|done|..]; simpl.
  - intros q. rewrite elem_of_union, (normalize_paths_ok _ _ Hd), (normalize_paths_ok _ _ He). set_solver.
  - intros q. unfold hides_base_path. rewrite elem_of_union, orb_true_iff, !bool_decide_eq_true. done.
Qed.

(** ** Histories *)

Inductive overlay_op : Type :=
| OvProject (p : Project)
| OvInsertNode (n : NewNode)
| OvInsertNodes (ns : list NewNode)
| OvDeleteNode (id : Z)
| OvDeleteFile (project file : string)
| OvIdentity (id : Z) (label qname : string)
| OvSpans (spans : list (Z * Z * Z))
| OvInsertEdge (e : NewEdge)
| OvInsertEdges (es : list NewOverlayEdge)
| OvReplaceEdges (project : string) (es : list NewOverlayEdge).

Section OverlaySpec.
Context (uni_alnum : char -> bool).

Definition overlay_run (o : Overlay) (op : overlay_op) : Overlay :=
  match op with
  | OvProject p => (overlay_upsert_project p o).2
  | OvInsertNode n => (overlay_insert_node uni_alnum n o).2
  | OvInsertNodes ns => (overlay_insert_nodes uni_alnum ns o).2
  | OvDeleteNode id => (overlay_delete_node uni_alnum id o).2
  | OvDeleteFile project file => (overlay_delete_nodes_for_file uni_alnum project file o).2
  | OvIdentity id label qname => (overlay_update_node_identity uni_alnum id label qname o).2
  | OvSpans spans => (overlay_update_node_spans spans o).2
  | OvInsertEdge e => (overlay_insert_edge e o).2
  | OvInsertEdges es => (insert_overlay_edges es o).2
  | OvReplaceEdges project es => (replace_overlay_edges project es o).2
  end.

Lemma overlay_run_wf b o op : overlay_wf uni_alnum b o -> overlay_wf uni_alnum b (overlay_run o op).
Proof.
  intros Ho. destruct op; cbn [overlay_run];
    match goal with |- overlay_wf _ _ (snd ?m) => destruct m as [r o'] eqn:Hm end; cbn [snd];
    [by eapply overlay_upsert_project_wf|by eapply overlay_insert_node_wf|by eapply overlay_insert_nodes_wf
    | |by eapply overlay_delete_nodes_for_file_wf|by eapply overlay_update_node_identity_wf
    |by eapply overlay_update_node_spans_wf|by eapply overlay_insert_edge_wf|by eapply insert_overlay_edges_wf
    |by eapply replace_overlay_edges_wf].
  refine (on_delta_preserves uni_alnum b _ _ o r o' Ho Hm). intros s r' s'. apply delete_node_wf.
Qed.

(** C18: Whatever is written through an overlay, and whether each call succeeds or
    fails, the Base is left as it was; and the composed view stays a graph: no
    two visible nodes share an id or a qualified name, Base ids are negative
    and Delta ids positive, and no two visible edges share an id. *)
Theorem overlay_writes_wf (ops : list overlay_op) o :
  overlay_wf uni_alnum (base o) o ->
  let o' := foldl overlay_run o ops in
  base o' = base o /\ overlay_wf uni_alnum (base o) o' /\
  (forall m n, m ∈ view_nodes o' -> n ∈ view_nodes o' -> Node.id m = Node.id n -> m = n) /\
  (forall m n, m ∈ view_nodes o' -> n ∈ view_nodes o' -> Node.project m = Node.project n ->
     Node.qualified_name m = Node.qualified_name n -> m = n) /\
  NoDup (Edge.id <$> view_edges o') /\
  forall n, n ∈ view_nodes o' ->
    (0 < Node.id n /\ is_Some (nodes (delta o') !! Node.id n)) \/
    (Node.id n < 0 /\ is_Some (nodes (base o') !! - Node.id n)).
Proof.
  intros Ho o'. assert (overlay_wf uni_alnum (base o) o') as Ho'.
  { subst o'. remember (base o) as b eqn:Hb. clear Hb. revert o Ho.
    induction ops as [|op ops IH]; intros o Ho; simpl; [done|]. by apply IH, overlay_run_wf. }
  pose proof (proj1 Ho') as Hok. split_and!; [apply Ho'|done| | |by apply view_edges_nodup|].
  - intros m n Hm Hn Hid. by apply (view_id_unique o' Hok (Node.id n)).
  - intros m n Hm Hn Hp Hq. by apply (view_name_unique o' Hok (Node.project n) (Node.qualified_name n)).
  - intros n [[H Hs]|[H (b & Hb & _)]]%(view_id_sign o' Hok); [left|right]; (split; [done|]).
    + unfold select_node in Hs. destruct (nodes (delta o') !! Node.id n); [by eexists|done].
    + unfold select_node in Hb. destruct (nodes (base o') !! - Node.id n); [by eexists|done].
Qed.

(** ** Nodes *)

(** The row of the Delta that an inserted node takes. *)
Lemma insert_node_slot n s i s' a :
  tables_ok s -> insert_node uni_alnum n s = (Ok i, s') -> nodes s !! i = Some a ->
  n_project a = n_project n /\ n_qualified_name a = n_qualified_name n.
Proof.
  intros Hs Hrun%atomically_ok_inv Ha. unfold insert_node_in_tx in Hrun.
  apply bind_ok_inv in Hrun as (o & s1 & Hg & Hrun). apply select_named in Hg as [-> Ho].
  apply bind_ok_inv in Hrun as ([] & s1 & Hdel & Hrun).
  assert (node_seq s1 = node_seq s) as Hseq by (destruct o; by injection Hdel as <-).
  apply bind_ok_inv in Hrun as (ps & s2 & [= <- <-] & Hrun).
  apply bind_ok_inv in Hrun as ([] & s2 & [_ ->]%guard_ok_inv & Hrun).
  apply bind_ok_inv in Hrun as (j & s2 & Hid & Hrun). injection Hrun as <- <-.
  destruct o as [old|].
  - injection Hid as <- <-. destruct Ho as (x & Hx & _ & Hp & Hq). rewrite Ha in Hx. by injection Hx as <-.
  - unfold fresh_node_id in Hid. erewrite bind_ok in Hid by done.
    apply bind_ok_inv in Hid as ([] & s3 & [_ ->]%guard_ok_inv & Hid). injection Hid as <- _.
    apply (ok_node_ids s Hs) in Ha. lia.
Qed.

Lemma named_rows_other n i d d' p q :
  nodes d' = <[i := n]> (nodes d) -> (p, q) <> (n_project n, n_qualified_name n) ->
  (forall a, nodes d !! i = Some a -> n_project a = n_project n /\ n_qualified_name a = n_qualified_name n) ->
  forall j a, n_project a = p -> n_qualified_name a = q -> nodes d' !! j = Some a <-> nodes d !! j = Some a.
Proof.
  intros Hd Hne Hslot j a Hp Hq. rewrite Hd. split.
  - intros [[<- <-]|[_ ?]]%lookup_insert_Some; [|done]. destruct Hne. by rewrite Hp, Hq.
  - intros Ha. apply lookup_insert_Some. destruct (decide (i = j)) as [<-|]; [|by right].
    destruct (Hslot a Ha). destruct Hne. congruence.
Qed.

Lemma last_named_eq o p q : overlay_ok o -> last_named o p q = view_named o p q.
Proof.
  intros Hok. unfold last_named. rewrite (filter_named o Hok). by destruct (view_named o p q).
Qed.

(** What the view shows under a name depends on the rows of that name. *)
Lemma view_named_local o d p q :
  overlay_ok o -> overlay_ok (set_delta d o) ->
  (forall j a, n_project a = p -> n_qualified_name a = q -> nodes d !! j = Some a <-> nodes (delta o) !! j = Some a) ->
  view_named (set_delta d o) p q = view_named o p q.
Proof.
  intros Hok Hok' Hrows. apply option_eq. intros x.
  rewrite (view_named_Some _ Hok'), (view_named_Some _ Hok), !elem_of_view_nodes.
  assert (forall b, n_project b = p -> n_qualified_name b = q -> forall j,
    base_visible (set_delta d o) (row_of j b) <-> base_visible o (row_of j b)) as Hvis.
  { intros b Hp Hq j. unfold base_visible. rewrite !rows_where_nil. simpl. rewrite Hp, Hq.
    assert (forall k a, is_named p q (row_of k a) -> nodes d !! k = Some a <-> nodes (delta o) !! k = Some a)
      as Hk by (intros k a []; by apply Hrows). naive_solver. }
  split; intros ([(j & a & Ha & ->)|(j & a & Ha & Hv & ->)] & Hn).
  - destruct Hn. split; [|done]. left. exists j, a. split; [|done]. by apply Hrows.
  - destruct (as_visible_same (set_delta d o) (row_of j a)) as (_ & Ep & Eq). destruct Hn as [Np Nq].
    rewrite Ep in Np. rewrite Eq in Nq. split; [|by rewrite <- Np, <- Nq, <- Ep, <- Eq]. right. exists j, a.
    split_and!; [done|by apply Hvis in Hv|done].
  - destruct Hn. split; [|done]. left. exists j, a. split; [|done]. by apply Hrows.
  - destruct (as_visible_same o (row_of j a)) as (_ & Ep & Eq). destruct Hn as [Np Nq].
    rewrite Ep in Np. rewrite Eq in Nq. split; [|by rewrite <- Np, <- Nq, <- Ep, <- Eq]. right. exists j, a.
    split_and!; [done|by apply Hvis|done].
Qed.

Lemma overlay_insert_node_run n o i o' :
  overlay_insert_node uni_alnum n o = (Ok i, o') ->
  (o' = o /\ exists v, last_named o (n_project n) (n_qualified_name n) = Some v /\ v = row_of i n) \/
  (equivalent_visible_overlay_node o n = None /\
   exists d, GraphDb.insert_node uni_alnum n (delta o) = (Ok i, d) /\ o' = set_delta d o).
Proof.
  unfold overlay_insert_node. rewrite bind_gets. destruct (equivalent_visible_overlay_node o n) as [id|] eqn:He.
  - intros [= <- <-]. left. split; [done|]. unfold equivalent_visible_overlay_node in He.
    destruct (last_named o (n_project n) (n_qualified_name n)) as [v|] eqn:Hv; simpl in He; [|done].
    destruct (decide _) as [(H1 & H2 & H3 & H4 & H5 & H6)|]; [|done]. injection He as <-. exists v. split; [done|].
    assert (v ∈ view_nodes o /\ is_named (n_project n) (n_qualified_name n) v) as [_ [Hp Hq]].
    { unfold last_named in Hv. apply head_Some_elem_of, elem_of_sort_by, list_elem_of_filter in Hv.
      by destruct Hv. }
    destruct v. simpl in *. unfold row_of. by subst.
  - intros Hrun. right. split; [done|]. apply on_delta_run in Hrun as (d & Hd & ->). eauto.
Qed.

(** A name that shows the very node given is recognised. *)
Lemma equivalent_same n o j :
  overlay_ok o -> view_named o (n_project n) (n_qualified_name n) = Some (row_of j n) ->
  equivalent_visible_overlay_node o n = Some j.
Proof.
  intros Hok Hv. unfold equivalent_visible_overlay_node. rewrite (last_named_eq o _ _ Hok), Hv. simpl.
  by rewrite decide_True by done.
Qed.

(** What an inserted node changes in the view. *)
Lemma overlay_insert_node_view n o i o' :
  overlay_wf uni_alnum (base o) o -> overlay_insert_node uni_alnum n o = (Ok i, o') ->
  view_named o' (n_project n) (n_qualified_name n) = Some (row_of i n) /\
  (forall p q, (p, q) <> (n_project n, n_qualified_name n) -> view_named o' p q = view_named o p q) /\
  (i < 0 -> o' = o) /\
  forall j, view_named o (n_project n) (n_qualified_name n) = Some (row_of j n) -> i = j /\ o' = o.
Proof.
  intros Ho Hrun. pose proof (overlay_insert_node_wf _ _ _ _ _ _ Ho Hrun) as Ho'.
  apply overlay_insert_node_run in Hrun as [[-> (v & Hv & ->)]|(Heq & d & Hd & ->)].
  { rewrite last_named_eq in Hv by apply Ho. split_and!; [done..|]. intros j Hj. split; [|done].
    rewrite Hv in Hj. by injection Hj. }
  destruct (insert_node_run _ _ _ _ _ Hd) as (Hn & _ & _).
  assert (nodes d !! i = Some n) as Hi by (by rewrite Hn, lookup_insert_eq).
  pose proof (insert_node_wf _ _ _ _ _ (wf_db _ _ _ Ho) Hd) as [Hdb _]. split_and!.
  - apply (view_named_unique _ (proj1 Ho')); [|done]. apply elem_of_view_nodes. left. by exists i, n.
  - intros p q Hne. apply view_named_local; [apply Ho|apply Ho'|].
    intros j a Hp Hq. apply (named_rows_other n i (delta o) d p q Hn Hne); [|done..].
    intros b Hb. by eapply insert_node_slot; [apply Ho|exact Hd|exact Hb].
  - intros Hneg. apply (ok_node_ids d Hdb) in Hi. lia.
  - intros j Hj. apply (equivalent_same n o j (proj1 Ho)) in Hj. congruence.
Qed.

(** C16: Inserting a node through an overlay is a write to the map from qualified
    names to definitions that the overlay presents: the name then shows the
    node exactly as given, under the returned id, every other name shows what
    it showed before, and the Base is untouched. When the name already shows
    the very same definition, of the Base or of the Delta, its id is returned
    and nothing is written; and a negative id, one of the Base, is returned
    only then. *)
Theorem overlay_insert_node_refines n o i o' :
  overlay_wf uni_alnum (base o) o -> overlay_insert_node uni_alnum n o = (Ok i, o') ->
  view_named o' (n_project n) (n_qualified_name n) = Some (row_of i n) /\
  view_node o' i = Some (row_of i n) /\
  (forall p q, (p, q) <> (n_project n, n_qualified_name n) -> view_named o' p q = view_named o p q) /\
  base o' = base o /\ (i < 0 -> o' = o) /\
  forall j, view_named o (n_project n) (n_qualified_name n) = Some (row_of j n) -> i = j /\ o' = o.
Proof.
  intros Ho Hrun. pose proof (overlay_insert_node_wf _ _ _ _ _ _ Ho Hrun) as Ho'.
  destruct (overlay_insert_node_view _ _ _ _ Ho Hrun) as (Hnamed & Hothers & Hneg & Hsame).
  split_and!; [done| |done|apply Ho'|done|done].
  apply (view_named_id o' (proj1 Ho')) in Hnamed. exact Hnamed.
Qed.

(** An identity override hides the Base definition of one name. *)
Lemma view_named_override o p0 q0 p q :
  overlay_ok o -> (p, q) <> (p0, q0) ->
  view_named (set_identity_overrides ({[ (p0, q0) ]} ∪ identity_overrides o) o) p q = view_named o p q.
Proof using.
  intros Hok Hne. set (o' := set_identity_overrides _ o).
  assert (overlay_ok o') as Hok' by (destruct Hok; by split). apply option_eq. intros x.
  rewrite (view_named_Some _ Hok'), (view_named_Some _ Hok), !elem_of_view_nodes.
  assert (forall j a, is_named p q (as_visible o (row_of j a)) ->
    base_visible o' (row_of j a) <-> base_visible o (row_of j a)) as Hvis.
  { intros j a [Hp Hq]. destruct (as_visible_same o (row_of j a)) as (_ & Ep & Eq). unfold base_visible. simpl in *.
    rewrite Ep in Hp. rewrite Eq in Hq. rewrite not_elem_of_union, not_elem_of_singleton. subst p q. naive_solver. }
  split; intros ([Hd|(j & a & Ha & Hv & ->)] & Hn); (split; [|done]); [by left|right|by left|right];
    exists j, a; (split_and!; [done| |done]); by apply (Hvis j a Hn).
Qed.

Lemma view_named_hidden o p q :
  overlay_ok o -> (forall x, view_named o p q = Some x -> Node.id x < 0) ->
  view_named (set_identity_overrides ({[ (p, q) ]} ∪ identity_overrides o) o) p q = None.
Proof using.
  intros Hok Hneg. apply head_filter_None. intros x [(j & a & Ha & ->)|(j & a & Ha & (Hov & _) & ->)]%elem_of_view_nodes [Np Nq].
  - simpl in Ha. apply (ok_node_ids _ (ov_delta o Hok)) in Ha as Hj.
    assert (row_of j a ∈ view_nodes o) as Hin by (apply elem_of_view_nodes; left; by exists j, a).
    specialize (Hneg _ (view_named_unique o Hok p q _ Hin (conj Np Nq))). simpl in Hneg. lia.
  - destruct (as_visible_same (set_identity_overrides ({[(p, q)]} ∪ identity_overrides o) o) (row_of j a)) as (_ & Ep & Eq).
    apply Hov. simpl. rewrite Ep in Np. rewrite Eq in Nq. simpl in Np, Nq. rewrite Np, Nq. set_solver.
Qed.

Lemma overlay_upsert_project_run p o o' u :
  overlay_upsert_project p o = (u, o') -> exists d, o' = set_delta d o /\ nodes d = nodes (delta o).
Proof using. intros (d & Hd & ->)%on_delta_run. injection Hd as _ <-. by eexists. Qed.

(** Changing the identity of a definition of the Base moves it in the view:
    its content is shown under the new name with the new label, its old name
    shows nothing, every other name shows what it showed, and the Base is
    untouched. *)
Theorem overlay_identity_moves o id old label qname o' :
  overlay_wf uni_alnum (base o) o -> id < 0 -> view_node o id = Some old ->
  qname <> Node.qualified_name old ->
  overlay_update_node_identity uni_alnum id label qname o = (Ok tt, o') ->
  (exists i, view_named o' (Node.project old) qname =
     Some (Node.Mk i (Node.project old) label (Node.name old) qname (Node.file_path old)
             (Node.start_line old) (Node.end_line old) (Node.properties old))) /\
  view_named o' (Node.project old) (Node.qualified_name old) = None /\
  (forall p q, (p, q) <> (Node.project old, qname) -> (p, q) <> (Node.project old, Node.qualified_name old) ->
     view_named o' p q = view_named o p q) /\
  base o' = base o.
Proof using.
  intros Ho Hneg Hold Hq Hrun.
  pose proof (overlay_update_node_identity_wf _ _ _ _ _ _ _ _ Ho Hrun) as Ho'.
  unfold overlay_update_node_identity in Hrun. rewrite (proj2 (Z.ltb_lt id 0) Hneg) in Hrun.
  apply atomically_ok_inv in Hrun. rewrite bind_gets, Hold in Hrun. erewrite bind_ok in Hrun by done.
  rewrite bind_gets in Hrun. apply bind_ok_inv in Hrun as (pr & o0 & [_ ->]%ok_or_ok_inv & Hrun).
  apply bind_ok_inv in Hrun as (u & o1 & Hup & Hrun).
  pose proof (overlay_upsert_project_wf _ _ _ _ _ _ Ho Hup) as Ho1.
  apply overlay_upsert_project_run in Hup as (d & -> & Hd).
  apply bind_ok_inv in Hrun as (i & o2 & Hins & Hrun).
  pose proof (overlay_insert_node_wf _ _ _ _ _ _ Ho1 Hins) as Ho2. injection Hrun as <-.
  destruct (overlay_insert_node_view _ _ _ _ Ho1 Hins) as (Hnew & Hothers & _). simpl in Hnew, Hothers.
  assert (forall p q, view_named (set_delta d o) p q = view_named o p q) as Hproj.
  { intros p q. apply view_named_local; [apply Ho|apply Ho1|]. intros j a _ _. by rewrite Hd. }
  split_and!; [|..|apply Ho'].
  - exists i. rewrite view_named_override; [done|apply Ho2|]. naive_solver.
  - apply view_named_hidden; [apply Ho2|]. intros x. rewrite Hothers, Hproj by naive_solver.
    intros [Hx Hn]%(view_named_Some o (proj1 Ho)). apply (view_node_Some o (proj1 Ho)) in Hold as [Hin Hid].
    by rewrite (view_name_unique o (proj1 Ho) _ _ x old Hx Hin Hn), Hid by done.
  - intros p q H1 H2. rewrite view_named_override by (apply Ho2 || done). by rewrite Hothers, Hproj.
Qed.
End OverlaySpec.

(** ** Edges *)

(** The view of an overlay whose edges have changed. *)
Lemma resolve_edges m seq o c : resolve (set_overlay_edges m seq o) c = resolve o c.
Proof. reflexivity. Qed.

Lemma name_of_run id p o q o' :
  overlay_ok o -> name_of id p o = (Ok q, o') ->
  o' = o /\ exists n, view_node o id = Some n /\ Node.project n = p /\ Node.qualified_name n = q.
Proof.
  intros Hok. unfold name_of. rewrite bind_gets. intros (n & o1 & [Hn ->]%ok_or_ok_inv & [= <- <-])%bind_ok_inv.
  split; [done|]. exists n. apply head_Some_elem_of, list_elem_of_filter in Hn as [[Hid Hp] Hin].
  split; [by apply view_node_Some|done].
Qed.

(** A row of the view has given ends exactly when its candidate has their names. *)
Lemma resolve_same o e s t c x :
  overlay_ok o -> view_node o (e_source_id e) = Some s -> view_node o (e_target_id e) = Some t ->
  Node.project s = e_project e -> Node.project t = e_project e -> resolve o c = Some x ->
  same_visible e x <->
  same_logical (e_project e) (Node.qualified_name s) (Node.qualified_name t) (e_edge_type e) c.
Proof.
  intros Hok Hs Ht Ps Pt Hc. pose proof (resolve_at o Hok Outgoing c x _ s Hs Hc) as Hsrc.
  pose proof (resolve_at o Hok Incoming c x _ t Ht Hc) as Htgt. rewrite Ps in Hsrc. rewrite Pt in Htgt.
  apply joined_Some in Hc as (s' & t' & _ & _ & ->). unfold same_visible, same_edge, same_logical. simpl in *.
  naive_solver.
Qed.

Ltac logical := unfold same_logical in *; simpl in *; destruct_and?; split_and?; congruence.

(** A Base edge is masked by an overlay edge of the same identity. *)
Lemma from_base_edge o oe i seq c bs bt :
  (forall x, overlay_edges o !! i = Some x ->
     same_logical (o_project oe) (o_source oe) (o_target oe) (o_type oe) (candidate_of i x)) ->
  from_base (set_overlay_edges (<[i := oe]> (overlay_edges o)) seq o) c bs bt <->
  from_base o c bs bt /\ ~ same_logical (o_project oe) (o_source oe) (o_target oe) (o_type oe) c.
Proof.
  intros Hslot. set (o' := set_overlay_edges _ _ _).
  assert (forall y, rows_where candidate_of (same_logical (Edge.project y) (Node.qualified_name bs) (Node.qualified_name bt) (Edge.edge_type y))
      (overlay_edges o') = [] <->
    rows_where candidate_of (same_logical (Edge.project y) (Node.qualified_name bs) (Node.qualified_name bt) (Edge.edge_type y))
      (overlay_edges o) = [] /\
    ~ same_logical (o_project oe) (o_source oe) (o_target oe) (o_type oe) (candidate_of_base y bs bt)) as Hrows.
  { intros y. change (overlay_edges o') with (<[i := oe]> (overlay_edges o)). rewrite !rows_where_nil. split.
    - intros Hnone. split.
      + intros j x Hx Hsame. destruct (decide (i = j)) as [<-|Hne].
        * apply (Hnone i oe); [apply lookup_insert_eq|]. specialize (Hslot x Hx). by logical.
        * by apply (Hnone j x); [rewrite <- Hx; apply lookup_insert_ne|].
      + intros Hs. apply (Hnone i oe); [apply lookup_insert_eq|]. by logical.
    - intros [Hnone Hne] j x [[<- <-]|[_ Hx]]%lookup_insert_Some Hsame; [|by apply (Hnone j x)].
      apply Hne. by logical. }
  unfold from_base, base_edge_kept. split.
  - intros (j & x & Hx & Hends & (H1 & H2 & H3%Hrows) & ->). destruct H3. split; [|done]. exists j, x. by split_and!.
  - intros [(j & x & Hx & Hends & (H1 & H2 & H3) & ->) Hne]. exists j, x. split_and!; try done. by apply Hrows.
Qed.

Lemma from_delta_edge o oe i seq c :
  (forall j x, overlay_edges o !! j = Some x ->
     same_logical (o_project oe) (o_source oe) (o_target oe) (o_type oe) (candidate_of j x) -> j = i) ->
  (forall x, overlay_edges o !! i = Some x ->
     same_logical (o_project oe) (o_source oe) (o_target oe) (o_type oe) (candidate_of i x)) ->
  from_delta (set_overlay_edges (<[i := oe]> (overlay_edges o)) seq o) c <->
  c = candidate_of i oe \/
  from_delta o c /\ ~ same_logical (o_project oe) (o_source oe) (o_target oe) (o_type oe) c.
Proof.
  intros Hfree Hslot. unfold from_delta. cbn [overlay_edges set_overlay_edges]. split.
  - intros (j & x & Hx & ->). apply lookup_insert_Some in Hx as [[<- <-]|[Hne Hx]]; [by left|].
    right. split; [by exists j, x|]. intros Hs. by destruct Hne; rewrite (Hfree j x).
  - intros [->|[(j & x & Hx & ->) Hne]]; [exists i, oe; by rewrite lookup_insert_eq|].
    exists j, x. split; [|done]. rewrite lookup_insert_ne; [done|]. intros <-. by destruct Hne; apply Hslot.
Qed.

(** Writing an overlay edge shows it in the view, in place of any edge with
    the same ends and type, and leaves the other rows as they were. *)
Lemma upsert_overlay_edge_view e o s t i o' :
  overlay_ok o -> view_node o (e_source_id e) = Some s -> view_node o (e_target_id e) = Some t ->
  Node.project s = e_project e -> Node.project t = e_project e ->
  upsert_overlay_edge {| o_project := e_project e; o_source := Node.qualified_name s;
    o_target := Node.qualified_name t; o_type := e_edge_type e; o_properties := e_properties e |} o = (Ok i, o') ->
  overlay_ok o' ->
  (forall x, x ∈ view_edges o' /\ same_visible e x <-> x = edge_row i e) /\
  (forall x, ~ same_visible e x -> x ∈ view_edges o' <-> x ∈ view_edges o) /\
  view_nodes o' = view_nodes o.
Proof.
  intros Hok Hs Ht Ps Pt Hrun Hok'. set (oe := {| o_project := _ |}) in Hrun.
  apply upsert_overlay_edge_run in Hrun as (seq & -> & Hi & _ & Hfree & Hslot); [|done].
  set (o' := set_overlay_edges _ _ _) in *.
  assert (forall c x, resolve o c = Some x -> same_visible e x <->
    same_logical (e_project e) (Node.qualified_name s) (Node.qualified_name t) (e_edge_type e) c) as Hsame
    by (intros c x; by apply resolve_same).
  assert (forall c, from_delta o' c <-> c = candidate_of i oe \/ from_delta o c /\
    ~ same_logical (e_project e) (Node.qualified_name s) (Node.qualified_name t) (e_edge_type e) c) as Hdelta
    by (intros c; by apply (from_delta_edge o oe i seq)).
  assert (forall c bs bt, from_base o' c bs bt <-> from_base o c bs bt /\
    ~ same_logical (e_project e) (Node.qualified_name s) (Node.qualified_name t) (e_edge_type e) c) as Hbase
    by (intros c bs bt; by apply (from_base_edge o oe i seq)).
  split_and!; [| |done].
  - intros x. rewrite (elem_of_view_edges o' Hok'). split.
    + intros [(c & Hc & Hfrom) Hx]. apply (Hsame c x Hc) in Hx as Hl.
      destruct Hfrom as [Hd|(bs & bt & Hb & _)]; [|by apply Hbase in Hb as [_ []]].
      apply Hdelta in Hd as [->|[_ []]]; [|done].
      apply joined_Some in Hc as (s' & t' & _ & _ & ->). destruct Hx as (_ & Hss & Htt & _). simpl in *.
      unfold edge_row. by rewrite Hss, Htt.
    + intros ->. assert (resolve o (candidate_of i oe) = Some (edge_row i e)) as Hr.
      { apply joined_Some. exists s, t.
        apply (view_node_Some o Hok) in Hs as [Hins Hids], Ht as [Hint Hidt].
        split_and!; [by apply view_named_unique|by apply view_named_unique|].
        unfold edge_row. simpl. by rewrite Hids, Hidt. }
      split; [|by split]. exists (candidate_of i oe). split; [exact Hr|]. left. apply Hdelta. by left.
  - intros x Hx. rewrite (elem_of_view_edges o' Hok'), (elem_of_view_edges o Hok).
    split; intros (c & Hc & Hfrom); exists c; (split; [exact Hc|]); pose proof (Hsame c x Hc) as Hl.
    + destruct Hfrom as [Hd|(bs & bt & [Hb _]%Hbase & Href)]; [left|right; by exists bs, bt].
      apply Hdelta in Hd as [->|[Hd _]]; [|done]. by destruct Hx; apply Hl.
    + destruct Hfrom as [Hd|(bs & bt & Hb & Href)]; [left|right; exists bs, bt].
      * apply Hdelta. right. split; [done|]. by rewrite <- Hl.
      * split; [|done]. apply Hbase. split; [done|]. by rewrite <- Hl.
Qed.

(** What the view is made of holds no two candidates of the same identity. *)
Lemma candidate_unique o c c' p q1 q2 ty :
  overlay_ok o -> same_logical p q1 q2 ty c -> same_logical p q1 q2 ty c' ->
  (from_delta o c \/ exists bs bt, from_base o c bs bt /\ (c_project c, Node.file_path bs) ∉ reference_files o) ->
  (from_delta o c' \/ exists bs bt, from_base o c' bs bt /\ (c_project c', Node.file_path bs) ∉ reference_files o) ->
  c = c'.
Proof.
  intros Hok Hc Hc'. assert (forall i d bs bt x, from_base o x bs bt -> overlay_edges o !! i = Some d ->
    ~ (same_logical p q1 q2 ty (candidate_of i d) /\ same_logical p q1 q2 ty x)) as Hmask.
  { intros i d bs bt x (j & y & _ & _ & (_ & _ & Hnone) & ->) Hd [H1 H2]. rewrite rows_where_nil in Hnone.
    apply (Hnone i d Hd). by logical. }
  intros [(i & d & Hd & ->)|(bs & bt & Hb & _)] [(j & d' & Hd' & ->)|(bs' & bt' & Hb' & _)].
  - assert (i = j) as <- by (destruct Hc as (?&?&?&?), Hc' as (?&?&?&?); simpl in *; eapply (ov_keys o Hok); [done|done|congruence..]).
    congruence.
  - by destruct (Hmask i d bs' bt' c' Hb' Hd).
  - by destruct (Hmask j d' bs bt c Hb Hd').
  - destruct Hb as (i & x & Hx & Hends & _ & ->), Hb' as (j & y & Hy & Hends' & _ & ->).
    destruct (base_ends_Some o Hok i x bs bt Hx Hends) as ((a & Ha & ->) & (b & Hb & ->) & Hpa & Hpb).
    destruct (base_ends_Some o Hok j y bs' bt' Hy Hends') as ((a' & Ha' & ->) & (b' & Hb' & ->) & Hpa' & Hpb').
    destruct Hc as (C1 & C2 & C3 & C4), Hc' as (D1 & D2 & D3 & D4). simpl in *.
    assert (e_source_id x = e_source_id y) by (eapply (ok_names _ (ov_base o Hok)); [exact Ha|exact Ha'|congruence..]).
    assert (e_target_id x = e_target_id y) by (eapply (ok_names _ (ov_base o Hok)); [exact Hb|exact Hb'|congruence..]).
    assert (i = j) as <- by (eapply (ok_triples _ (ov_base o Hok)); [exact Hx|exact Hy|congruence..]). congruence.
Qed.

(** Two visible edges with the same ends and type are the same edge. *)
Lemma view_edge_unique o e x y :
  overlay_ok o -> x ∈ view_edges o -> y ∈ view_edges o -> same_visible e x -> same_visible e y -> x = y.
Proof.
  intros Hok (c & Hc & Hfc)%(elem_of_view_edges o Hok) (c' & Hc' & Hfc')%(elem_of_view_edges o Hok) Hx Hy.
  destruct (resolve_near o Outgoing c x Hc) as (s & Hs & Hsx), (resolve_near o Incoming c x Hc) as (t & Ht & Htx).
  simpl in Hs, Ht. unfold from_of in Hsx, Htx. simpl in Hsx, Htx.
  pose proof (proj2 (proj1 (view_named_Some o Hok _ _ _) Hs)) as [Ps Qs].
  pose proof (proj2 (proj1 (view_named_Some o Hok _ _ _) Ht)) as [Pt Qt].
  apply (view_named_id o Hok) in Hs, Ht.
  assert (e_project e = c_project c) as Hp.
  { apply joined_Some in Hc as (? & ? & _ & _ & ->). by destruct Hx as [<- _]. }
  assert (Edge.source_id x = e_source_id e /\ Edge.target_id x = e_target_id e) as [Ex Et] by (destruct Hx as (_ & ? & ? & _); done).
  assert (view_node o (e_source_id e) = Some s) as Hs' by congruence.
  assert (view_node o (e_target_id e) = Some t) as Ht' by congruence.
  apply (resolve_same o e s t c x Hok Hs' Ht') in Hx; [|congruence..|done].
  apply (resolve_same o e s t c' y Hok Hs' Ht') in Hy; [|congruence..|done].
  assert (c = c') as <- by (by eapply (candidate_unique o)). congruence.
Qed.

Lemma overlay_insert_edge_fails e o r o' :
  overlay_insert_edge e o = (r, o') -> is_ok r = false -> o' = o.
Proof.
  assert (forall id p s, (name_of id p s).2 = s) as Hname.
  { intros id p s. unfold name_of. rewrite bind_gets. by destruct (head _). }
  unfold overlay_insert_edge. rewrite bind_gets. destruct (_ ≫= _); [by intros [= <- <-]|].
  unfold bind. specialize (Hname (e_source_id e) (e_project e) o) as Hs.
  destruct (name_of (e_source_id e) (e_project e) o) as [[q| |] o1]; simpl in Hs; subst o1; [|by intros [= <- <-]..].
  specialize (Hname (e_target_id e) (e_project e) o) as Ht.
  destruct (name_of (e_target_id e) (e_project e) o) as [[q'| |] o1]; simpl in Ht; subst o1; [|by intros [= <- <-]..].
  apply atomically_rollback.
Qed.

(** C19: Inserting an edge through an overlay either fails and changes nothing, or
    shows exactly one edge with the given project, ends and type, which has
    the given properties and the returned id; the other visible edges and the
    nodes are as before. *)
Theorem overlay_insert_edge_roundtrip uni_alnum e o :
  overlay_wf uni_alnum (base o) o ->
  match overlay_insert_edge e o with
  | (Ok i, o') =>
      (exists x, (forall y, y ∈ view_edges o' /\ same_visible e y <-> y = x) /\
         Edge.id x = i /\ Edge.properties x = e_properties e) /\
      (forall y, ~ same_visible e y -> y ∈ view_edges o' <-> y ∈ view_edges o) /\
      view_nodes o' = view_nodes o /\ base o' = base o
  | (_, o') => o' = o
  end.
Proof.
  intros Ho. destruct (overlay_insert_edge e o) as [[i|err|] o'] eqn:Hrun.
  - pose proof (overlay_insert_edge_wf _ _ _ _ _ _ Ho Hrun) as Ho'.
    unfold overlay_insert_edge in Hrun. rewrite bind_gets in Hrun.
    destruct (head _ ≫= _) as [id|] eqn:Hvis.
    { injection Hrun as <- <-. apply bind_Some in Hvis as (x & Hx & Hid).
      destruct (decide _) as [Hprops|]; [|done]. injection Hid as <-.
      apply head_Some_elem_of, elem_of_sort_by, list_elem_of_filter in Hx as [Hsame Hin].
      split_and!; [|done..]. exists x. split; [|done]. intros y. split; [|by intros ->].
      intros [Hy Hsy]. by apply (view_edge_unique o e y x (proj1 Ho)). }
    apply bind_ok_inv in Hrun as (qs & o1 & (-> & s & Hs & Ps & <-)%name_of_run & Hrun); [|apply Ho].
    apply bind_ok_inv in Hrun as (qt & o1 & (-> & t & Ht & Pt & <-)%name_of_run & Hrun); [|apply Ho].
    apply atomically_ok_inv in Hrun.
    destruct (upsert_overlay_edge_view e o s t i o' (proj1 Ho) Hs Ht Ps Pt Hrun (proj1 Ho')) as (H1 & H2 & H3).
    split_and!; [by exists (edge_row i e)|done|done|apply Ho'].
  - by eapply overlay_insert_edge_fails.
  - by eapply overlay_insert_edge_fails.
Qed.

(** ** Typed listings *)

Lemma elem_of_view_listing o d n nd ty e :
  overlay_ok o -> view_node o n = Some nd ->
  e ∈ filter (fun e => from_of d e = n /\ type_matches (Some ty) e) (view_edges o) <->
  exists c, resolve o c = Some e /\
    (from_delta o c \/ exists bs bt, from_base o c bs bt /\ (c_project c, Node.file_path bs) ∉ reference_files o) /\
    c_project c = Node.project nd /\ near_name d c = Node.qualified_name nd /\ c_type c = ty.
Proof.
  intros Hok Hn. rewrite list_elem_of_filter, (elem_of_view_edges o Hok). split.
  - intros [[Hf Hty] (c & Hc & Hfrom)]. exists c. pose proof (proj1 (resolve_at o Hok d c e n nd Hn Hc) Hf) as [Hp Hq].
    split_and!; try done. simpl in Hty. by rewrite <- (proj1 (proj2 (resolved_edge o Hok c e Hc))).
  - intros (c & Hc & Hfrom & Hp & Hq & Hty). split; [|by exists c].
    split; [by apply (resolve_at o Hok d c e n nd)|]. simpl. by rewrite (proj1 (proj2 (resolved_edge o Hok c e Hc))).
Qed.

(** C17: The typed edge queries of an overlay, which go from qualified names to the
    candidate edges and resolve those one by one, list exactly the first edges
    of the composed view, in id order and up to the limit, as long as no
    source file of the Base is in [js_ts_reference_override_files] and at most
    three times the limit of the candidates have an end that is not visible
    (the cushion that is fetched on top of the limit). *)
Theorem typed_listing_exact o d n ty limit :
  overlay_ok o ->
  (forall i b, nodes (base o) !! i = Some b -> (n_project b, n_file_path b) ∉ reference_files o) ->
  (forall nd, view_node o n = Some nd ->
     (length (filter (fun c => resolve o c = None)
        (candidates o d (Node.project nd) (Node.qualified_name nd) ty)) <= 3 * limit)%nat) ->
  overlay_edges_for_endpoint d o n ty limit = view_listing d o n (Some ty) limit.
Proof.
  intros Hok Href Hhidden. destruct (view_node o n) as [nd|] eqn:Hn.
  - rewrite (overlay_edges_for_endpoint_take o d n nd ty limit Hn), take_omap_cushion by (by apply Hhidden).
    unfold view_listing. f_equal. apply (sorted_key_eq Edge.id).
    + pose proof (resolved_sorted o Hok d (Node.project nd) (Node.qualified_name nd) ty
        (length (candidates o d (Node.project nd) (Node.qualified_name nd) ty))) as Hs.
      by rewrite firstn_all in Hs.
    + apply (sort_by_key Edge.id), (sublist_NoDup _ (Edge.id <$> view_edges o)); [by apply view_edges_nodup|].
      apply fmap_sublist, sublist_filter.
    + intros e. rewrite elem_of_sort_by, (elem_of_view_listing o d n nd ty e Hok Hn), list_elem_of_omap.
      setoid_rewrite (elem_of_candidates o Hok). split; [|naive_solver].
      intros (c & ([Hd|(bs & bt & Hb)] & Hp & Hq & Hty) & Hc); exists c; split_and!; try done; [by left|right].
      exists bs, bt. split; [done|]. destruct Hb as (i & x & Hx & Hends & _ & ->).
      destruct (base_ends_Some o Hok i x bs bt Hx Hends) as ((a & Ha & ->) & _ & Hpa & _).
      simpl in *. rewrite <- Hpa. by apply (Href (e_source_id x)).
  - unfold overlay_edges_for_endpoint, view_listing. rewrite Hn.
    destruct (filter _ (view_edges o)) as [|e l] eqn:Hl; [by destruct limit|]. exfalso.
    assert (e ∈ filter (fun e => from_of d e = n /\ type_matches (Some ty) e) (view_edges o)) as He by (rewrite Hl; left).
    apply list_elem_of_filter in He as [[Hf _] (c & Hc & _)%(elem_of_view_edges o Hok)].
    destruct (resolve_near o d c e Hc) as (x & Hx%(view_named_id o Hok) & Hxe). congruence.
Qed.

(** ** On the demonstration store *)

#[local] Open Scope string_scope.

(** An empty Delta, and what it is over the demonstration store. *)
Definition fresh_delta (references : gset (string * string)) : Delta :=
  {| d_db := empty_db; d_edges := ∅; d_seq := 0; d_identity := ∅; d_references := references;
     d_meta := ∅; d_spans := ∅ |}.

Lemma fresh_delta_ok references : delta_ok (fresh_delta references).
Proof.
  split; simpl; try (intros; by rewrite lookup_empty in *); [apply (empty_db_wf no_alnum)|unfold i64_max; lia].
Qed.

Lemma demo_edges_in_project : edges_in_project demo.
Proof.
  intros i e j n He _ Hn.
  assert (map_Forall (fun _ e => e_project e = "p") (edges demo)) as H1
    by (apply (bool_decide_eq_true_1 _); vm_compute; reflexivity).
  assert (map_Forall (fun _ n => n_project n = "p") (nodes demo)) as H2
    by (apply (bool_decide_eq_true_1 _); vm_compute; reflexivity).
  by rewrite (H1 i e He), (H2 j n Hn).
Qed.

Definition attached (hidden : gset string) (references : gset (string * string)) : Overlay :=
  {| delta := empty_db; overlay_edges := ∅; overlay_seq := 0; identity_overrides := ∅;
     reference_files := references; meta_files := ∅; span_overrides := ∅; hidden_paths := hidden;
     base := demo |}.

Lemma attached_wf hidden references : overlay_wf no_alnum demo (attached hidden references).
Proof.
  destruct (fresh_delta_ok references). split; [|split; [apply empty_db_wf|done]].
  split; try done; [apply demo_wf|apply demo_edges_in_project].
Qed.

Definition demo_visibility : VisibilityIndex := {| dirty := {[ "a.rs" ]}; deleted := ∅ |}.

Lemma attach_overlay_hides_witness : exists o,
  attach_overlay (fresh_delta ∅) demo demo_visibility = Ok o /\ o = attached {[ "a.rs" ]} ∅ /\
  forall q, q ∈ hidden_paths o <-> hides_base_path demo_visibility q = true.
Proof.
  destruct (attach_overlay_hides [ "./a.rs" ] [] demo_visibility (fresh_delta ∅) demo)
    as (o & Ho & _ & _ & _ & _ & Hh).
  - vm_compute. reflexivity.
  - apply fresh_delta_ok.
  - apply demo_wf.
  - apply demo_edges_in_project.
  - exists o. split; [exact Ho|]. split; [|exact Hh]. vm_compute in Ho. injection Ho as <-. vm_compute. reflexivity.
Defined.

(** The file [a.rs] was edited: [a] is gone, [b] has moved and calls [c]. *)
Definition demo_ops : list overlay_op :=
  [OvProject {| p_name := "p"; p_indexed_at := "y"; p_root_path := "/p" |};
   OvInsertNode (demo_node "b" "a.rs" 9); OvInsertEdge (demo_edge 1 (-3) "CALLS")].

Definition demo_overlay : Overlay :=
  Eval vm_compute in foldl (overlay_run no_alnum) (attached {[ "a.rs" ]} ∅) demo_ops.

Lemma demo_overlay_wf : overlay_wf no_alnum (base demo_overlay) demo_overlay.
Proof.
  assert (demo_overlay = foldl (overlay_run no_alnum) (attached {[ "a.rs" ]} ∅) demo_ops) as Heq
    by (vm_compute; reflexivity).
  assert (base demo_overlay = demo) as -> by (vm_compute; reflexivity). rewrite Heq. cbn [foldl demo_ops].
  do 3 apply overlay_run_wf. apply attached_wf.
Qed.

Example demo_overlay_rows :
  Node.id <$> view_nodes demo_overlay = [1; -3; -4] /\
  (fun e => (Edge.id e, Edge.source_id e, Edge.target_id e)) <$> view_edges demo_overlay = [(1, 1, -3)].
Proof. vm_compute. done. Qed.

Lemma overlay_writes_wf_witness :
  base (foldl (overlay_run no_alnum) demo_overlay demo_ops) = base demo_overlay.
Proof. exact (proj1 (overlay_writes_wf no_alnum demo_ops demo_overlay demo_overlay_wf)). Defined.

Lemma overlay_insert_node_refines_witness : exists i o',
  overlay_insert_node no_alnum (demo_node "c" "b.rs" 2) demo_overlay = (Ok i, o') /\
  view_named o' "p" "p.c" = Some (row_of i (demo_node "c" "b.rs" 2)) /\
  view_named o' "p" "p.d" = view_named demo_overlay "p" "p.d".
Proof.
  destruct (overlay_insert_node no_alnum (demo_node "c" "b.rs" 2) demo_overlay) as [[i| |] o'] eqn:Hrun;
    [|vm_compute in Hrun; discriminate Hrun..].
  destruct (overlay_insert_node_refines no_alnum _ _ _ _ demo_overlay_wf Hrun) as (H1 & _ & H2 & _).
  exists i, o'. split; [reflexivity|]. split; [exact H1|]. apply (H2 "p" "p.d"). vm_compute. discriminate.
Defined.

Lemma overlay_identity_moves_witness : exists o',
  overlay_update_node_identity no_alnum (-3) "Method" "p.m" demo_overlay = (Ok tt, o') /\
  view_named o' "p" "p.c" = None.
Proof.
  destruct (overlay_update_node_identity no_alnum (-3) "Method" "p.m" demo_overlay) as [[[]| |] o'] eqn:Hrun;
    [|vm_compute in Hrun; discriminate Hrun..].
  exists o'. split; [reflexivity|].
  refine (proj1 (proj2 (overlay_identity_moves no_alnum demo_overlay (-3)
    (Node.Mk (-3) "p" "Function" "c" "p.c" "b.rs" 1 5 "{}") "Method" "p.m" o' demo_overlay_wf _ _ _ Hrun))).
  - lia.
  - vm_compute. reflexivity.
  - discriminate.
Defined.

Lemma overlay_insert_edge_roundtrip_witness : exists o',
  overlay_insert_edge (demo_edge (-3) (-4) "CALLS") demo_overlay = (Ok 2%Z, o') /\ base o' = base demo_overlay.
Proof.
  pose proof (overlay_insert_edge_roundtrip no_alnum (demo_edge (-3) (-4) "CALLS") demo_overlay demo_overlay_wf) as H.
  destruct (overlay_insert_edge (demo_edge (-3) (-4) "CALLS") demo_overlay) as [[i| |] o'] eqn:Hrun;
    [|vm_compute in Hrun; discriminate Hrun..].
  assert (i = 2%Z) as -> by (vm_compute in Hrun; by injection Hrun).
  exists o'. split; [reflexivity|]. exact (proj2 (proj2 (proj2 H))).
Defined.

Lemma typed_listing_exact_witness :
  overlay_edges_for_endpoint Outgoing demo_overlay 1 "CALLS" 5 = view_listing Outgoing demo_overlay 1 (Some "CALLS") 5.
Proof.
  apply typed_listing_exact.
  - apply demo_overlay_wf.
  - intros i b _ H. vm_compute in H. discriminate H.
  - intros nd Hnd. vm_compute in Hnd. injection Hnd as <-. vm_compute. lia.
Defined.

(** The searches run on an overlay as they do on a single store. *)
Definition demo_view : View := {| view_of := demo_overlay; view_ok := proj1 demo_overlay_wf |}.

Example demo_view_reach : exists out,
  reachable_within_any_edge_type (fun _ l => l) demo_view 1 Outgoing ["CALLS"] 5 9 = Some (Ok out) /\
  (fun r => (hops r, Row.id (node r))) <$> out = [(1%nat, -3)].
Proof. eexists. split; [vm_compute; reflexivity|reflexivity]. Qed.

(** ** Where the code and its words part *)

(** A file in [js_ts_reference_override_files] has its Base edges replaced, and
    the composed view leaves them out; the typed edge queries, which do not
    look at that table, still list them. *)
Theorem typed_listing_shows_replaced :
  let o := attached ∅ {[ ("p", "b.rs") ]} in
  overlay_ok o /\ view_listing Outgoing o (-3) (Some "CALLS") 10 = [] /\
  overlay_edges_for_endpoint Outgoing o (-3) "CALLS" 10 = [Edge.Mk (-3) "p" (-3) (-1) "CALLS" "{}"].
Proof. split; [apply (attached_wf ∅ {[ ("p", "b.rs") ]})|]. vm_compute. done. Qed.

(** On an overlay a batch of nodes is not written as the same nodes would be
    one by one: a node equal to the Base definition is found to be there
    already, although an earlier node of the batch has just replaced it. *)
Theorem insert_nodes_not_sequential :
  let o := (overlay_upsert_project {| p_name := "p"; p_indexed_at := "y"; p_root_path := "/p" |} (attached ∅ ∅)).2 in
  let batch := [demo_node "a" "x.rs" 1; demo_node "a" "a.rs" 1] in
  let file o := Node.file_path <$> view_named o "p" "p.a" in
  overlay_wf no_alnum demo o /\
  (overlay_insert_nodes no_alnum batch o).1 = Ok [1; -1] /\
  file (overlay_insert_nodes no_alnum batch o).2 = Some "x.rs" /\
  (mapM (overlay_insert_node no_alnum) batch o).1 = Ok [1; 1] /\
  file (mapM (overlay_insert_node no_alnum) batch o).2 = Some "a.rs".
Proof.
  intros o batch file. split; [apply (overlay_run_wf no_alnum demo _ (OvProject _)), attached_wf|].
  vm_compute. done.
Qed.
