(* ===== verification/Resolver.v ===== *)
(** Name resolution (crates/resolver): a call, a type reference or a use is
    resolved by name against the definitions of the project, and only when
    the answer is unique.

    The resolver reads the store through [NameStore], which adds the two
    queries by name to the interface of GraphStore.v; a single store and an
    overlay discharge it in ResolverSpec.v. *)

From Stdlib Require Import Ascii.
From S2P Require Import Prelude Loop CoreError RustStr RustText GraphStore.
#[local] Open Scope string_scope.

Class NameStore (S : Type) `{GraphStore S} := {
  nodes_named : S -> string -> string -> nat -> res StoreError.Error (list Node.t);
  node_by_qname : S -> string -> string -> res StoreError.Error (option Node.t)
}.

(** [list_nodes_by_name] lists nodes of the store that bear the name, each
    once, and all of them when there are fewer than the limit;
    [get_node_by_qname] finds a node of that name. *)
Class NameStoreLaws (S : Type) `{NameStore S} : Prop := {
  nodes_named_ok : forall (s : S) p n limit l, nodes_named s p n limit = Ok l ->
    (length l <= limit)%nat /\ NoDup (Node.id <$> l) /\
    forall x, x ∈ l -> Node.project x = p /\ Node.name x = n /\ get_node s (Node.id x) = Ok (Some x);
  nodes_named_all : forall (s : S) p n limit l x, nodes_named s p n limit = Ok l ->
    (length l < limit)%nat -> get_node s (Node.id x) = Ok (Some x) ->
    Node.project x = p -> Node.name x = n -> x ∈ l;
  node_by_qname_ok : forall (s : S) p q x, node_by_qname s p q = Ok (Some x) ->
    Node.project x = p /\ Node.qualified_name x = q /\ get_node s (Node.id x) = Ok (Some x)
}.

Definition CALLABLE_LABELS : list string := ["Function"; "Method"].
Definition CONSTRUCTABLE_LABELS : list string := ["Class"; "Struct"; "Type"; "Enum"].
Definition TYPE_LABELS : list string :=
  ["Class"; "Interface"; "Type"; "Enum"; "Struct"; "Trait"; "TypeAlias"].
Definition DEF_LABELS : list string :=
  ["Function"; "Method"; "Class"; "Interface"; "Type"; "Enum"; "Struct"; "Trait"; "TypeAlias";
   "Variable"; "Field"].
Definition IMPORTABLE_LABELS : list string :=
  ["Function"; "Class"; "Interface"; "Type"; "Enum"; "Struct"; "Trait"; "TypeAlias"].

Inductive CallResolution : Type :=
| Unique (id : Z)
| Unresolved
| Ambiguous (ids : list Z).

Definition unique_id (r : CallResolution) : option Z :=
  match r with Unique id => Some id | _ => None end.

(** The limits, as binary numbers: a listing is never that long. *)
Definition NAME_LIMIT : nat := N.to_nat 100000.
Definition IMPORT_LIMIT : nat := N.to_nat 100000.

(** [resolve_unique]: [match] on the slices [same_file] and [candidates]. *)
Definition resolve_unique (candidates : list Node.t) (referrer : Node.t) : CallResolution :=
  match candidates with
  | [] => Unresolved
  | _ =>
      match filter (fun n => Node.file_path n = Node.file_path referrer) candidates with
      | [n] => Unique (Node.id n)
      | _ =>
          match candidates with
          | [n] => Unique (Node.id n)
          | _ => Ambiguous (Node.id <$> candidates)
          end
      end
  end.

Section Resolver.
Context {S : Type} `{NameStore S}.

Definition defs_named (s : S) (project : string) (labels : list string) (name : string)
  : res CoreError.Error (list Node.t) :=
  let? nodes := from_store (nodes_named s project name NAME_LIMIT) in
  Ok (filter (fun n => Node.label n ∈ labels) nodes).

Definition callable_defs_named (s : S) (project callee_name : string) : res CoreError.Error (list Node.t) :=
  defs_named s project CALLABLE_LABELS callee_name.

Definition imported_target_ids (s : S) (project file : string) : res CoreError.Error (gset Z) :=
  let? module := from_store (node_by_qname s project (file +:+ "::__file__")) in
  match module with
  | None => Ok ∅
  | Some module =>
      let? edges := from_store (outgoing_edges s (Node.id module) (Some "IMPORTS") IMPORT_LIMIT) in
      Ok (list_to_set (Edge.target_id <$> edges))
  end.

Definition resolve_unique_with_imports (s : S) (project : string) (candidates : list Node.t)
    (referrer : Node.t) : res CoreError.Error CallResolution :=
  let base := resolve_unique candidates referrer in
  match base with
  | Ambiguous _ =>
      let? imported := imported_target_ids s project (Node.file_path referrer) in
      if decide (imported = ∅) then Ok base
      else
        match filter (fun n => Node.id n ∈ imported) candidates with
        | [n] => Ok (Unique (Node.id n))
        | _ => Ok base
        end
  | _ => Ok base
  end.

Definition resolve_call (s : S) (project : string) (caller : Node.t) (callee_name : string)
  : res CoreError.Error CallResolution :=
  let? candidates := callable_defs_named s project callee_name in
  let? callable := resolve_unique_with_imports s project candidates caller in
  match callable with
  | Unique _ => Ok callable
  | _ =>
      let? constructable := defs_named s project CONSTRUCTABLE_LABELS callee_name in
      let? r := resolve_unique_with_imports s project constructable caller in
      match r, callable with
      | Unique _, _ => Ok r
      | Unresolved, Unresolved => Ok Unresolved
      | Ambiguous ids, Unresolved => Ok (Ambiguous ids)
      | _, _ => Ok callable
      end
  end.

Definition resolve_type_ref (s : S) (project : string) (referrer : Node.t) (type_name : string)
  : res CoreError.Error CallResolution :=
  let? candidates := defs_named s project TYPE_LABELS type_name in
  resolve_unique_with_imports s project candidates referrer.

Definition resolve_use (s : S) (project : string) (referrer : Node.t) (ref_name : string)
  : res CoreError.Error CallResolution :=
  let? candidates := defs_named s project DEF_LABELS ref_name in
  resolve_unique_with_imports s project candidates referrer.

Definition unique_def_named (s : S) (project : string) (labels : list string) (name : string)
  : res CoreError.Error (option Z) :=
  let? candidates := defs_named s project labels name in
  Ok (match candidates with [n] => Some (Node.id n) | _ => None end).
End Resolver.

(** ** Import paths *)

(** [str::split("::")]. *)
Fixpoint split_colons (s : string) : list string :=
  match s with
  | "" => [""]
  | String ":"%char (String ":"%char s) => "" :: split_colons s
  | String c s =>
      match split_colons s with
      | [] => [String c ""]
      | p :: ps => String c p :: ps
      end
  end.

Definition path_module_segment (path name : string) : option string :=
  let segs := filter (fun s => s <> "") (trim <$> split_colons path) in
  match reverse segs with
  | last :: module :: _ =>
      if decide (last = name) then
        if decide (module ∈ ["crate"; "self"; "super"]) then None else Some module
      else None
  | _ => None
  end.

(** [Path::file_name] and [Path::parent] of a relative path on Unix. *)
Definition path_file_name (cs : list Component) : option string :=
  match reverse cs with Normal n :: _ => Some n | _ => None end.
Definition path_parent (cs : list Component) : list Component := reverse (tail (reverse cs)).

(** [Path::file_stem]: a name that starts with its only dot has no extension. *)
Definition file_stem (name : string) : string :=
  match rsplit_once "." name with
  | Some ("", _) | None => name
  | Some (stem, _) => stem
  end.

Definition file_stem_matches (file_path module : string) : bool :=
  let p := components file_path in
  match
    (if bool_decide (path_file_name p = Some "mod.rs") then path_file_name (path_parent p) else None)
  with
  | Some parent => bool_decide (parent = module)
  | None => bool_decide (file_stem <$> path_file_name p = Some module)
  end.

Section WithPath.
Context {S : Type} `{NameStore S}.

Definition unique_def_named_with_path (s : S) (project : string) (labels : list string)
    (name path : string) : res CoreError.Error (option Z) :=
  let? candidates := defs_named s project labels name in
  match candidates with
  | [] => Ok None
  | [n] => Ok (Some (Node.id n))
  | _ =>
      match path_module_segment path name with
      | None => Ok None
      | Some module_seg =>
          Ok (match filter (fun n => file_stem_matches (Node.file_path n) module_seg = true) candidates with
              | [n] => Some (Node.id n)
              | _ => None
              end)
      end
  end.
End WithPath.

Example module_segment : path_module_segment "crate::b:: dup" "dup" = Some "b" /\
  path_module_segment "crate::dup" "dup" = None /\
  file_stem_matches "src/b/mod.rs" "b" = true /\ file_stem_matches "src/b.rs" "b" = true /\
  file_stem_matches "src/bb.rs" "b" = false.
Proof. vm_compute. done. Qed.
