(* ===== verification/ResolverSpec.v ===== *)
(** What resolution promises: it answers only when the name leaves no choice,
    and then with the one definition that the file, the project or the imports
    of the file single out. *)

From S2P Require Import Prelude Loop CoreError RustStr RustText GraphStore GraphDb GraphDbFacts GraphDbSpec GraphDemo.
From S2P Require Import GraphOverlay GraphOverlayFacts Resolver.

(** ** Sole elements *)

Definition sole {A} (P : A -> Prop) (x : A) : Prop := P x /\ forall y, P y -> y = x.

Lemma filter_sole {A} (P : A -> Prop) `{!forall a, Decision (P a)} l x :
  NoDup l -> filter P l = [x] <-> sole (fun y => y ∈ l /\ P y) x.
Proof.
  intros Hnd. split.
  - intros Hf. assert (forall y, y ∈ l /\ P y <-> y = x) as Hiff.
    { intros y. rewrite <- (list_elem_of_singleton y x), <- Hf, list_elem_of_filter. tauto. }
    split; [by apply Hiff|]. intros y Hy. by apply Hiff.
  - intros [[Hx HP] Huniq]. apply (NoDup_filter P) in Hnd.
    assert (filter P l ≡ₚ [x]) as Hperm.
    { apply NoDup_Permutation; [done|apply NoDup_singleton|]. intros y.
      rewrite list_elem_of_filter, list_elem_of_singleton. split; [|by intros ->].
      intros [? ?]. by apply Huniq. }
    by apply Permutation_singleton_r in Hperm.
Qed.

Lemma sole_ext {A} (P Q : A -> Prop) x : (forall y, P y <-> Q y) -> sole P x <-> sole Q x.
Proof. unfold sole. naive_solver. Qed.

(** What the declarations [C] with a name settle, seen from a file ([near])
    that imports some of them. *)
Inductive settled (C near imported : Node.t -> Prop) : CallResolution -> Prop :=
| settled_none : (forall x, ~ C x) -> settled C near imported Unresolved
| settled_near x : sole (fun y => C y /\ near y) x -> settled C near imported (Unique (Node.id x))
| settled_only x :
    (forall y, ~ sole (fun y => C y /\ near y) y) -> sole C x -> settled C near imported (Unique (Node.id x))
| settled_import x :
    (forall y, ~ sole (fun y => C y /\ near y) y) -> (forall y, ~ sole C y) ->
    sole (fun y => C y /\ imported y) x -> settled C near imported (Unique (Node.id x))
| settled_open ids :
    (exists x, C x) -> (forall y, ~ sole (fun y => C y /\ near y) y) -> (forall y, ~ sole C y) ->
    (forall y, ~ sole (fun y => C y /\ imported y) y) ->
    NoDup ids -> (forall i, i ∈ ids <-> exists x, C x /\ Node.id x = i) ->
    settled C near imported (Ambiguous ids).

Section Settled.
Context (C near imported : Node.t -> Prop).

(** The declarations determine the answer, but for the order of a list of
    candidates. *)
Definition same_answer (r r' : CallResolution) : Prop :=
  match r, r' with
  | Unique i, Unique j => i = j
  | Unresolved, Unresolved => True
  | Ambiguous l, Ambiguous l' => l ≡ₚ l'
  | _, _ => False
  end.

Lemma sole_eq {A} (P : A -> Prop) x y : sole P x -> sole P y -> x = y.
Proof. intros [Hx Hu] [Hy _]. symmetry. by apply Hu. Qed.

Lemma settled_unique r r' : settled C near imported r -> settled C near imported r' -> same_answer r r'.
Proof.
  intros H1 H2. destruct H1 as [Hn|x Hx|x Hnx Hx|x Hnx Hnc Hx|ids [x Hx] Hnx Hnc Hni Hnd Hids];
    destruct H2 as [Hn'|y Hy|y Hny Hy|y Hny Hnd' Hy|ids' [y Hy] Hny Hnd' Hni' Hnd2 Hids']; simpl; try done.
  all: try (f_equal; by eapply sole_eq).
  all: try (exfalso; by eapply Hn; apply Hy). all: try (exfalso; by eapply Hn'; apply Hx).
  all: try (exfalso; by eapply Hnx). all: try (exfalso; by eapply Hny).
  all: try (exfalso; by eapply Hnc). all: try (exfalso; by eapply Hnd').
  all: try (exfalso; by eapply Hni). all: try (exfalso; by eapply Hni').
  apply NoDup_Permutation; [done..|]. intros i. by rewrite Hids, Hids'.
Qed.
End Settled.

(** ** The resolver *)

Section Exact.
Context {S : Type} `{NameStoreLaws S}.
Implicit Types s : S.

(** The definitions of a project that bear a name, under one of the labels. *)
Definition defines s (p : string) (labels : list string) (name : string) (x : Node.t) : Prop :=
  get_node s (Node.id x) = Ok (Some x) /\ Node.project x = p /\ Node.name x = name /\ Node.label x ∈ labels.

(** What a file imports: the targets of the [IMPORTS] edges of its module. *)
Definition imports s (p file : string) (x : Node.t) : Prop :=
  exists ids, imported_target_ids s p file = Ok ids /\ Node.id x ∈ ids.

Definition near (referrer x : Node.t) : Prop := Node.file_path x = Node.file_path referrer.

(** No name is borne by as many nodes as the listing is cut at. *)
Definition few_named s (p name : string) : Prop :=
  forall l, nodes_named s p name NAME_LIMIT = Ok l -> (length l < NAME_LIMIT)%nat.

Lemma defs_named_ok s p labels name cs :
  few_named s p name -> defs_named s p labels name = Ok cs ->
  NoDup (Node.id <$> cs) /\ forall x, x ∈ cs <-> defines s p labels name x.
Proof.
  intros Hfew Hrun. unfold defs_named in Hrun.
  destruct (nodes_named s p name NAME_LIMIT) as [l| |] eqn:Hl; simpl in Hrun; [|done..]. injection Hrun as <-.
  destruct (nodes_named_ok s p name _ l Hl) as (_ & Hnd & Hall). split.
  - apply (sublist_NoDup _ (Node.id <$> l)); [done|]. apply fmap_sublist, sublist_filter.
  - intros x. rewrite list_elem_of_filter. unfold defines. split.
    + intros [Hlab Hx]. destruct (Hall x Hx) as (? & ? & ?). done.
    + intros (Hg & Hp & Hn & Hlab). split; [done|]. by eapply (nodes_named_all s p name NAME_LIMIT l); [|apply Hfew|..].
Qed.

(** What the candidates settle without the imports. *)
Lemma resolve_unique_settled cs ref (imported : Node.t -> Prop) :
  NoDup (Node.id <$> cs) ->
  match resolve_unique cs ref with
  | Ambiguous ids =>
      (exists x, x ∈ cs) /\ (forall y, ~ sole (fun y => y ∈ cs /\ near ref y) y) /\
      (forall y, ~ sole (fun y => y ∈ cs) y) /\ ids = Node.id <$> cs
  | r => settled (fun x => x ∈ cs) (near ref) imported r
  end.
Proof.
  intros Hnd. apply NoDup_fmap_1 in Hnd. unfold resolve_unique. destruct cs as [|c cs].
  { apply settled_none. intros x Hx. by apply elem_of_nil in Hx. }
  pose proof (filter_sole (fun n => Node.file_path n = Node.file_path ref) (c :: cs)) as Hnear.
  assert (forall x, sole (fun y => y ∈ c :: cs) x <-> cs = [] /\ x = c) as Hsole.
  { intros x. split.
    - intros [Hx Hu]. destruct cs as [|d cs]; [by apply list_elem_of_singleton in Hx|].
      assert (c = x) as -> by (apply Hu; left). assert (d = x) as -> by (apply Hu; right; left).
      apply NoDup_cons in Hnd as [[] _]. left.
    - intros [-> ->]. split; [left|]. by intros y ->%list_elem_of_singleton. }
  destruct (filter _ (c :: cs)) as [|y [|z r]] eqn:Hf.
  - destruct cs as [|c' cs]; [apply settled_only|].
    + intros y Hy. by apply Hnear in Hy.
    + by apply Hsole.
    + split_and!; [exists c; left| |by intros y [? _]%Hsole|done]. intros y Hy. by apply Hnear in Hy.
  - apply settled_near. by apply Hnear.
  - destruct cs as [|c' cs]; [apply settled_only|].
    + intros w Hw. by apply Hnear in Hw.
    + by apply Hsole.
    + split_and!; [exists c; left| |by intros w [? _]%Hsole|done]. intros w Hw. by apply Hnear in Hw.
Qed.

Lemma settled_ext C C' nr im im' r :
  (forall x, C x <-> C' x) -> (forall x, im x <-> im' x) -> settled C nr im r -> settled C' nr im' r.
Proof using.
  intros HC Hi Hr.
  assert (forall x, sole C x <-> sole C' x) as Hs by (intros x; by apply sole_ext).
  assert (forall x, sole (fun y => C y /\ nr y) x <-> sole (fun y => C' y /\ nr y) x) as Hn
    by (intros x; apply sole_ext; intros y; by rewrite HC).
  assert (forall x, sole (fun y => C y /\ im y) x <-> sole (fun y => C' y /\ im' y) x) as Hm
    by (intros x; apply sole_ext; intros y; by rewrite HC, Hi).
  destruct Hr; [apply settled_none|apply settled_near|apply settled_only|apply settled_import|apply settled_open];
    repeat (intros y; rewrite <- ?HC, <- ?Hs, <- ?Hn, <- ?Hm); rewrite <- ?Hs, <- ?Hn, <- ?Hm; try done.
  - naive_solver.
  - setoid_rewrite <- HC. done.
Qed.

Lemma resolve_imports_settled s p cs ref r :
  NoDup (Node.id <$> cs) -> resolve_unique_with_imports s p cs ref = Ok r ->
  settled (fun x => x ∈ cs) (near ref) (imports s p (Node.file_path ref)) r.
Proof using.
  intros Hnd Hrun. unfold resolve_unique_with_imports in Hrun.
  pose proof (resolve_unique_settled cs ref (imports s p (Node.file_path ref)) Hnd) as Hbase.
  destruct (resolve_unique cs ref) as [i| |ids]; [by injection Hrun as <-..|].
  destruct (imported_target_ids s p (Node.file_path ref)) as [I| |] eqn:HI; simpl in Hrun; [|done..].
  destruct Hbase as (Hex & Hnn & Hnc & ->). pose proof (NoDup_fmap_1 _ _ Hnd) as Hnd'.
  pose proof (filter_sole (fun n => Node.id n ∈ I) cs) as Hf.
  assert (forall x, sole (fun y => y ∈ cs /\ imports s p (Node.file_path ref) y) x <->
    filter (fun n => Node.id n ∈ I) cs = [x]) as Him.
  { intros x. rewrite Hf by done. apply sole_ext. intros y. unfold imports. rewrite HI. naive_solver. }
  assert ((forall x, filter (fun n => Node.id n ∈ I) cs <> [x]) ->
    settled (fun x => x ∈ cs) (near ref) (imports s p (Node.file_path ref)) (Ambiguous (Node.id <$> cs))) as Hamb.
  { intros Hno. apply settled_open; try done.
    - intros y Hy. apply Him in Hy. by eapply Hno.
    - intros i. rewrite list_elem_of_fmap. naive_solver. }
  destruct (decide (I = ∅)) as [HI0|Hne].
  - injection Hrun as <-. apply Hamb. intros x Hx.
    assert (x ∈ filter (fun n => Node.id n ∈ I) cs) as [Hin _]%list_elem_of_filter by (rewrite Hx; left).
    by rewrite HI0 in Hin.
  - destruct (filter _ cs) as [|x [|y l]] eqn:Hfl; injection Hrun as <-; [by apply Hamb| |by apply Hamb].
    apply settled_import; [done|done|]. by apply Him.
Qed.

(** The definitions with the labels settle the name as seen from [ref]. *)
Definition names_settled s p labels name ref : CallResolution -> Prop :=
  settled (defines s p labels name) (near ref) (imports s p (Node.file_path ref)).

Lemma resolve_labels_settled s p labels name ref cs r :
  few_named s p name -> defs_named s p labels name = Ok cs ->
  resolve_unique_with_imports s p cs ref = Ok r -> names_settled s p labels name ref r.
Proof using All.
  intros Hfew Hcs Hr. destruct (defs_named_ok s p labels name cs Hfew Hcs) as [Hnd Hin].
  eapply (settled_ext (fun x => x ∈ cs)); [done|done|]. by apply resolve_imports_settled.
Qed.

(** C26: When the name is not borne by more nodes than the lookup asks for, a use
    resolves to a definition exactly when its name singles one out: the
    only one of the name in its file, else the only one of the project, else
    the only one that the file imports; it is unresolved exactly when the name
    is not defined, and reported as ambiguous, with every candidate, in all
    other cases.  It never guesses, and which nodes exist determines the
    answer. *)
Theorem resolve_use_exact s p ref name r :
  few_named s p name -> resolve_use s p ref name = Ok r ->
  names_settled s p DEF_LABELS name ref r /\
  forall r', names_settled s p DEF_LABELS name ref r' -> same_answer r r'.
Proof using All.
  intros Hfew Hrun. unfold resolve_use in Hrun.
  destruct (defs_named s p DEF_LABELS name) as [cs| |] eqn:Hcs; simpl in Hrun; [|done..].
  assert (names_settled s p DEF_LABELS name ref r) as Hr by (by eapply resolve_labels_settled).
  split; [done|]. intros r' Hr'. by eapply settled_unique.
Qed.

(** The same for a reference to a type. *)
Theorem resolve_type_ref_exact s p ref name r :
  few_named s p name -> resolve_type_ref s p ref name = Ok r ->
  names_settled s p TYPE_LABELS name ref r.
Proof using All.
  intros Hfew Hrun. unfold resolve_type_ref in Hrun.
  destruct (defs_named s p TYPE_LABELS name) as [cs| |] eqn:Hcs; simpl in Hrun; [|done..].
  by eapply resolve_labels_settled.
Qed.

(** A call resolves to a callable definition that the name singles out, else
    to a constructable type that it singles out; when neither does, the answer
    is that of the callable definitions, or that of the types when nothing
    callable has the name. *)
Theorem resolve_call_exact s p caller name r :
  few_named s p name -> resolve_call s p caller name = Ok r ->
  exists rc, names_settled s p CALLABLE_LABELS name caller rc /\
    match rc with
    | Unique _ => r = rc
    | _ => exists rk, names_settled s p CONSTRUCTABLE_LABELS name caller rk /\
        r = match rk, rc with Unique _, _ => rk | _, Unresolved => rk | _, _ => rc end
    end.
Proof using All.
  intros Hfew Hrun. unfold resolve_call, callable_defs_named in Hrun.
  destruct (defs_named s p CALLABLE_LABELS name) as [cs| |] eqn:Hcs; simpl in Hrun; [|done..].
  destruct (resolve_unique_with_imports s p cs caller) as [rc| |] eqn:Hrc; simpl in Hrun; [|done..].
  exists rc. split; [by eapply resolve_labels_settled|].
  destruct rc as [i| |ids]; [by injection Hrun as <-|..];
    destruct (defs_named s p CONSTRUCTABLE_LABELS name) as [ks| |] eqn:Hks; simpl in Hrun; try done;
    destruct (resolve_unique_with_imports s p ks caller) as [rk| |] eqn:Hrk; simpl in Hrun; try done;
    exists rk; (split; [by eapply resolve_labels_settled|]); by destruct rk; injection Hrun as <-.
Qed.

(** An import resolves to the only definition of its name, or to the only one
    in a file of the module that its path names. *)
Theorem import_path_exact s p labels name path i :
  few_named s p name -> unique_def_named_with_path s p labels name path = Ok (Some i) ->
  exists x, Node.id x = i /\
    (sole (defines s p labels name) x \/
     exists seg, path_module_segment path name = Some seg /\
       sole (fun y => defines s p labels name y /\ file_stem_matches (Node.file_path y) seg = true) x).
Proof using All.
  intros Hfew Hrun. unfold unique_def_named_with_path in Hrun.
  destruct (defs_named s p labels name) as [cs| |] eqn:Hcs; simpl in Hrun; [|done..].
  destruct (defs_named_ok s p labels name cs Hfew Hcs) as [Hnd Hin]. apply NoDup_fmap_1 in Hnd.
  destruct cs as [|c [|c' cs]]; [done| |].
  - injection Hrun as <-. exists c. split; [done|]. left. split; [apply Hin; left|].
    intros y Hy. apply Hin in Hy. by apply list_elem_of_singleton in Hy.
  - destruct (path_module_segment path name) as [seg|]; [|done].
    pose proof (filter_sole (fun n => file_stem_matches (Node.file_path n) seg = true) (c :: c' :: cs)) as Hf.
    destruct (filter _ (c :: c' :: cs)) as [|x [|y l]]; [done| |done]. injection Hrun as <-.
    exists x. split; [done|]. right. exists seg. split; [done|].
    eapply sole_ext; [|apply (Hf x Hnd); done]. intros y. simpl. by rewrite <- Hin.
Qed.
End Exact.

(** ** The stores

    A store and an overlay are read the same way: the rows of a name, by
    qualified name, cut at the limit. *)

#[export] Instance Db_names : NameStore Db := {
  nodes_named s p n limit := (list_nodes_by_name p n limit s).1;
  node_by_qname s p q := (get_node_by_qname p q s).1
}.

#[export] Instance View_names : NameStore View := {
  nodes_named v p n limit := Ok (view_by_name (view_of v) p n limit);
  node_by_qname v p q := Ok (view_named (view_of v) p q)
}.

Section Listing.
Context (rows : list Node.t) (p name : string) (limit : nat).
Context (Hids : NoDup (Node.id <$> rows)).

Let listing : list Node.t :=
  take limit (sort_by by_qname (filter (fun n => Node.project n = p /\ Node.name n = name) rows)).

Lemma name_listing_elem x : x ∈ listing -> x ∈ rows /\ Node.project x = p /\ Node.name x = name.
Proof using.
  unfold listing. intros (k & Hk & _)%elem_of_take.
  apply list_elem_of_lookup_2, elem_of_sort_by, list_elem_of_filter in Hk. tauto.
Qed.

Lemma name_listing_short : (length listing <= limit)%nat.
Proof using. unfold listing. rewrite length_take. lia. Qed.

Lemma name_listing_nodup : NoDup (Node.id <$> listing).
Proof using Hids.
  unfold listing. rewrite fmap_take. eapply sublist_NoDup; [|apply sublist_take].
  rewrite (sort_by_Permutation by_qname). eapply sublist_NoDup; [exact Hids|].
  apply fmap_sublist, sublist_filter.
Qed.

Lemma name_listing_all x :
  (length listing < limit)%nat -> x ∈ rows -> Node.project x = p -> Node.name x = name -> x ∈ listing.
Proof using.
  unfold listing. rewrite length_take. intros Hlen Hx Hp Hn. rewrite take_ge by lia.
  by apply elem_of_sort_by, list_elem_of_filter.
Qed.
End Listing.

Lemma select_node_elem (s : Db) x : get_node s (Node.id x) = Ok (Some x) <-> x ∈ table row_of (nodes s).
Proof.
  rewrite elem_of_table. simpl. unfold select_node. split.
  - intros [= Hx]. destruct (nodes s !! Node.id x) as [a|] eqn:Ha; [|done]. injection Hx as <-. eauto.
  - intros (i & a & Ha & ->). simpl. by rewrite Ha.
Qed.

Lemma table_ids (s : Db) : NoDup (Node.id <$> table row_of (nodes s)).
Proof. by apply (sorted_nodup Node.id), (proj1 (sorted_by_key Node.id _)), table_sorted. Qed.

Lemma view_ids (o : Overlay) : overlay_ok o -> NoDup (Node.id <$> view_nodes o).
Proof.
  intros Hok. apply NoDup_fmap_2_strong; [|by apply view_nodes_nodup].
  intros x y Hx Hy Hxy. by eapply (view_id_unique o Hok (Node.id y)).
Qed.

#[export] Instance Db_names_laws : NameStoreLaws Db.
Proof.
  split.
  - intros s p n limit l [= <-]. unfold rows_where. split_and!.
    + apply name_listing_short.
    + apply name_listing_nodup, table_ids.
    + intros x (Hx & ? & ?)%name_listing_elem. split_and!; [done..|]. by apply select_node_elem.
  - intros s p n limit l x [= <-] Hlen Hx%select_node_elem Hp Hn. by apply name_listing_all.
  - intros s p q x Hx. assert (get_node_by_qname p q s = (Ok (Some x), s)) as Hg by (by rewrite <- Hx).
    apply select_named in Hg as [_ (a & Ha & Hrow & Hp & Hq)]. rewrite Hrow. simpl. split_and!; [done..|].
    unfold select_node. by rewrite Ha.
Qed.

#[export] Instance View_names_laws : NameStoreLaws View.
Proof.
  split.
  - intros [o Hok] p n limit l [= <-]. split_and!.
    + apply name_listing_short.
    + by apply name_listing_nodup, view_ids.
    + intros x (Hx & ? & ?)%name_listing_elem. split_and!; [done..|]. simpl. f_equal. by apply (view_node_Some o Hok).
  - intros [o Hok] p n limit l x [= <-] Hlen [= [Hx _]%(view_node_Some o Hok)] Hp Hn. by apply name_listing_all.
  - intros [o Hok] p q x [= Hx]. pose proof (proj1 (view_named_Some o Hok p q x) Hx) as [_ [? ?]].
    split_and!; [done..|]. simpl. f_equal. by apply (view_named_id o Hok) in Hx.
Qed.

(** Neither store fails a query, so that a name always gets an answer. *)
Class TotalNames (S : Type) `{NameStore S} : Prop := {
  nodes_named_total : forall (s : S) p n limit, exists l, nodes_named s p n limit = Ok l;
  node_by_qname_total : forall (s : S) p q, exists o, node_by_qname s p q = Ok o;
  outgoing_total : forall (s : S) n ty limit, exists es, outgoing_edges s n ty limit = Ok es
}.
#[export] Instance Db_names_total : TotalNames Db.
Proof. split; intros; by eexists. Qed.
#[export] Instance View_names_total : TotalNames View.
Proof. split; intros; by eexists. Qed.

Section Total.
Context {S : Type} `{TotalNames S}.
Implicit Types s : S.

Lemma defs_named_total s p labels name : exists cs, defs_named s p labels name = Ok cs.
Proof using All. unfold defs_named. destruct (nodes_named_total s p name NAME_LIMIT) as [l ->]. by eexists. Qed.

Lemma resolve_imports_total s p cs ref : exists r, resolve_unique_with_imports s p cs ref = Ok r.
Proof using All.
  unfold resolve_unique_with_imports. destruct (resolve_unique cs ref); [by eexists..|].
  unfold imported_target_ids. destruct (node_by_qname_total s p (Node.file_path ref +:+ "::__file__")) as [[m|] ->]; simpl.
  - destruct (outgoing_total s (Node.id m) (Some "IMPORTS"%string) IMPORT_LIMIT) as [es ->]. simpl.
    case_decide; [by eexists|]. destruct (filter _ cs) as [|? [|? ?]]; by eexists.
  - rewrite decide_True by done. by eexists.
Qed.

(** Every call, type reference and use gets an answer. *)
Theorem resolve_total s p ref name :
  (exists r, resolve_call s p ref name = Ok r) /\ (exists r, resolve_type_ref s p ref name = Ok r) /\
  (exists r, resolve_use s p ref name = Ok r).
Proof using All.
  unfold resolve_call, callable_defs_named, resolve_type_ref, resolve_use.
  destruct (defs_named_total s p CALLABLE_LABELS name) as [cs ->], (defs_named_total s p TYPE_LABELS name) as [ts ->],
    (defs_named_total s p DEF_LABELS name) as [ds ->], (defs_named_total s p CONSTRUCTABLE_LABELS name) as [ks ->]. simpl.
  split_and!; [|apply resolve_imports_total..].
  destruct (resolve_imports_total s p cs ref) as [rc ->]. simpl. destruct rc; [by eexists|..];
    destruct (resolve_imports_total s p ks ref) as [rk ->]; simpl; destruct rk; by eexists.
Qed.
End Total.

(** ** A store with a name that only the imports settle *)

Module Names.
#[local] Open Scope string_scope.

Definition fn (name file qname : string) : NewNode :=
  {| n_project := "p"; n_label := "Function"; n_name := name; n_qualified_name := qname;
     n_file_path := file; n_start_line := 1; n_end_line := 2; n_properties := "{}" |}.
Definition setup : dbm unit :=
  upsert_project {| p_name := "p"; p_indexed_at := "x"; p_root_path := "/p" |} ;;;
  insert_nodes no_alnum [fn "main" "a.rs" "a.main"; fn "dup" "b.rs" "b.dup"; fn "dup" "c.rs" "c.dup";
                         fn "a" "a.rs" "a.rs::__file__"; fn "other" "d.rs" "d.other"] ;;;
  insert_edge (demo_edge 4 3 "IMPORTS") ;;; ret tt.
Definition db : Db := Eval vm_compute in (setup empty_db).2.
Definition main : Node.t := row_of 1 (fn "main" "a.rs" "a.main").
Definition other : Node.t := row_of 5 (fn "other" "d.rs" "d.other").

Example answers :
  resolve_use db "p" main "dup" = Ok (Unique 3) /\ resolve_use db "p" other "dup" = Ok (Ambiguous [2; 3]%Z) /\
  resolve_call db "p" other "main" = Ok (Unique 1) /\ resolve_type_ref db "p" main "dup" = Ok Unresolved /\
  unique_def_named_with_path db "p" IMPORTABLE_LABELS "dup" "crate::b::dup" = Ok (Some 2%Z).
Proof. vm_compute. done. Qed.

Lemma few p name : few_named db p name.
Proof.
  intros l [= <-]. rewrite length_take. apply Nat.min_lt_iff. right.
  rewrite (Permutation_length (sort_by_Permutation by_qname _)). eapply Nat.le_lt_trans; [apply length_filter|].
  apply Nat.ltb_lt. vm_compute. reflexivity.
Qed.
End Names.

Lemma resolve_use_exact_witness :
  names_settled Names.db "p" DEF_LABELS "dup" Names.main (Unique 3) /\
  forall r', names_settled Names.db "p" DEF_LABELS "dup" Names.main r' -> same_answer (Unique 3) r'.
Proof.
  apply (resolve_use_exact Names.db "p" Names.main "dup" (Unique 3)); [apply Names.few|].
  vm_compute. reflexivity.
Defined.
