(* ===== verification/FreshStore.v ===== *)
(** The tables of crates/store that record what was indexed: [file_state],
    [file_identity], [index_skips] and [workspace_state], beside the graph of
    GraphDb.v, and the two files next to the database that the freshness
    checks keep ([.coarseproof] and [.freshstamp]).

    A 64-bit column holds the value after its cast, and a read casts it back.
    The store is one that is not an overlay, with all migrations applied. *)

From S2P Require Import Prelude Loop CoreError RustStr EditLock GraphStore GraphDb.
#[local] Open Scope string_scope.

(** [as i64] of an unsigned and [as u64] of a signed integer. *)
Definition to_i64 (x : Z) : Z := ((x + 2 ^ 63) mod 2 ^ 64 - 2 ^ 63)%Z.
Definition to_u64 (x : Z) : Z := (x mod 2 ^ 64)%Z.
Definition in_i64 (x : Z) : bool := (- 2 ^ 63 <=? x)%Z && (x <? 2 ^ 63)%Z.

Record FileState : Type := {
  f_project : string;
  f_rel_path : string;
  f_language : string;
  f_sha256 : string;
  f_mtime_ns : Z;
  f_size : Z;
  f_parser_version : string;
  f_extractor_version : string;
  f_last_indexed_generation : Z
}.

Record FileIdentity : Type := { i_ctime_ns : option Z; i_file_id : option Z }.

Record IndexSkip : Type := {
  k_project : string;
  k_rel_path : string;
  k_language : string;
  k_reason : string;
  k_detail : string;
  k_size : Z;
  k_mtime_ns : Z;
  k_ctime_ns : option Z;
  k_file_id : option Z;
  k_last_indexed_generation : Z;
  k_updated_at : string
}.

Record WorkspaceState : Type := {
  w_root_path : string;
  w_git_dir : option string;
  w_git_common_dir : option string;
  w_head_oid : option string;
  w_index_signature : option string;
  w_schema_version : Z;
  w_indexer_version : string;
  w_graph_generation : Z;
  w_updated_at : string
}.

Record Store : Type := {
  graph : Db;
  file_state : gmap (string * string) FileState;
  file_identity : gmap (string * string) FileIdentity;
  index_skips : gmap (string * string) IndexSkip;
  workspace_state : gmap string WorkspaceState;
  db_path : option string;          (** [conn().path()], none in memory *)
  coarseproof : option string;      (** the text of the file, when there is one *)
  freshstamp : option string
}.

Definition set_graph (g : Db) (s : Store) : Store :=
  {| graph := g; file_state := file_state s; file_identity := file_identity s; index_skips := index_skips s;
     workspace_state := workspace_state s; db_path := db_path s; coarseproof := coarseproof s; freshstamp := freshstamp s |}.
Definition set_file_state (f : gmap (string * string) FileState -> gmap (string * string) FileState) (s : Store) : Store :=
  {| graph := graph s; file_state := f (file_state s); file_identity := file_identity s; index_skips := index_skips s;
     workspace_state := workspace_state s; db_path := db_path s; coarseproof := coarseproof s; freshstamp := freshstamp s |}.
Definition set_file_identity (f : gmap (string * string) FileIdentity -> gmap (string * string) FileIdentity)
    (s : Store) : Store :=
  {| graph := graph s; file_state := file_state s; file_identity := f (file_identity s); index_skips := index_skips s;
     workspace_state := workspace_state s; db_path := db_path s; coarseproof := coarseproof s; freshstamp := freshstamp s |}.
Definition set_index_skips (f : gmap (string * string) IndexSkip -> gmap (string * string) IndexSkip) (s : Store) : Store :=
  {| graph := graph s; file_state := file_state s; file_identity := file_identity s; index_skips := f (index_skips s);
     workspace_state := workspace_state s; db_path := db_path s; coarseproof := coarseproof s; freshstamp := freshstamp s |}.
Definition set_workspace_state (f : gmap string WorkspaceState -> gmap string WorkspaceState) (s : Store) : Store :=
  {| graph := graph s; file_state := file_state s; file_identity := file_identity s; index_skips := index_skips s;
     workspace_state := f (workspace_state s); db_path := db_path s; coarseproof := coarseproof s; freshstamp := freshstamp s |}.
Definition set_coarseproof (t : option string) (s : Store) : Store :=
  {| graph := graph s; file_state := file_state s; file_identity := file_identity s; index_skips := index_skips s;
     workspace_state := workspace_state s; db_path := db_path s; coarseproof := t; freshstamp := freshstamp s |}.
Definition set_freshstamp (t : option string) (s : Store) : Store :=
  {| graph := graph s; file_state := file_state s; file_identity := file_identity s; index_skips := index_skips s;
     workspace_state := workspace_state s; db_path := db_path s; coarseproof := coarseproof s; freshstamp := t |}.

Definition storem (A : Type) : Type := action StoreError.Error Store A.

Definition has_project (s : Store) (p : string) : bool := bool_decide (is_Some (projects (graph s) !! p)).

(** ** [file_state] *)

Definition file_columns (f : FileState) : FileState :=
  {| f_project := f_project f; f_rel_path := f_rel_path f; f_language := f_language f; f_sha256 := f_sha256 f;
     f_mtime_ns := f_mtime_ns f; f_size := f_size f; f_parser_version := f_parser_version f;
     f_extractor_version := f_extractor_version f; f_last_indexed_generation := to_i64 (f_last_indexed_generation f) |}.
Definition row_to_file_state (f : FileState) : FileState :=
  {| f_project := f_project f; f_rel_path := f_rel_path f; f_language := f_language f; f_sha256 := f_sha256 f;
     f_mtime_ns := f_mtime_ns f; f_size := f_size f; f_parser_version := f_parser_version f;
     f_extractor_version := f_extractor_version f; f_last_indexed_generation := to_u64 (f_last_indexed_generation f) |}.

(** The upsert names every column but the key, so that it is an insert. *)
Definition upsert_file_state (f : FileState) : storem unit :=
  atomically (
    let! s := gets id in
    guard (has_project s (f_project f)) fk_failed ;;;
    modify (set_file_state <[(f_project f, f_rel_path f) := file_columns f]>)).

Definition get_file_state (project rel_path : string) : storem (option FileState) :=
  gets (fun s => row_to_file_state <$> file_state s !! (project, rel_path)).

Definition delete_file_state (project rel_path : string) : storem unit :=
  atomically (
    modify (set_file_identity (delete (project, rel_path))) ;;;
    modify (set_file_state (delete (project, rel_path)))).

(** [SELECT .. WHERE project = ?1 ORDER BY rel_path]. *)
Definition rows_of {R} (key : R -> string) (project : string) (t : gmap (string * string) R) : list R :=
  sort_by (cmp_on key String.compare)
    ((map_to_list (filter (fun x => x.1.1 = project) t)).*2).

Definition list_file_states (project : string) : storem (list FileState) :=
  gets (fun s => row_to_file_state <$> rows_of f_rel_path project (file_state s)).

(** ** [file_identity] *)

Definition upsert_file_identity (project rel_path : string) (identity : FileIdentity) : storem unit :=
  let! s := gets id in
  guard (bool_decide (is_Some (file_state s !! (project, rel_path)))) fk_failed ;;;
  modify (set_file_identity <[(project, rel_path) :=
    {| i_ctime_ns := i_ctime_ns identity; i_file_id := to_i64 <$> i_file_id identity |}]>).

Definition read_identity (i : FileIdentity) : FileIdentity :=
  {| i_ctime_ns := i_ctime_ns i; i_file_id := to_u64 <$> i_file_id i |}.

(** The [HashMap] by path. *)
Definition list_file_identities (project : string) : storem (gmap string FileIdentity) :=
  gets (fun s => list_to_map
    ((fun x => (x.1.2, read_identity x.2)) <$> map_to_list (filter (fun x => x.1.1 = project) (file_identity s)))).

(** ** [index_skips] *)

Definition skip_columns (k : IndexSkip) : IndexSkip :=
  {| k_project := k_project k; k_rel_path := k_rel_path k; k_language := k_language k; k_reason := k_reason k;
     k_detail := k_detail k; k_size := k_size k; k_mtime_ns := k_mtime_ns k; k_ctime_ns := k_ctime_ns k;
     k_file_id := to_i64 <$> k_file_id k; k_last_indexed_generation := to_i64 (k_last_indexed_generation k);
     k_updated_at := k_updated_at k |}.
Definition row_to_index_skip (k : IndexSkip) : IndexSkip :=
  {| k_project := k_project k; k_rel_path := k_rel_path k; k_language := k_language k; k_reason := k_reason k;
     k_detail := k_detail k; k_size := k_size k; k_mtime_ns := k_mtime_ns k; k_ctime_ns := k_ctime_ns k;
     k_file_id := to_u64 <$> k_file_id k; k_last_indexed_generation := to_u64 (k_last_indexed_generation k);
     k_updated_at := k_updated_at k |}.

Definition upsert_index_skip (k : IndexSkip) : storem unit :=
  atomically (
    let! s := gets id in
    guard (has_project s (k_project k)) fk_failed ;;;
    modify (set_index_skips <[(k_project k, k_rel_path k) := skip_columns k]>)).

Definition get_index_skip (project rel_path : string) : storem (option IndexSkip) :=
  gets (fun s => row_to_index_skip <$> index_skips s !! (project, rel_path)).

Definition delete_index_skip (project rel_path : string) : storem unit :=
  atomically (modify (set_index_skips (delete (project, rel_path)))).

Definition list_index_skips (project : string) : storem (list IndexSkip) :=
  gets (fun s => row_to_index_skip <$> rows_of k_rel_path project (index_skips s)).

(** [SELECT reason, COUNT( * ) .. GROUP BY reason ORDER BY reason]. *)
Definition index_skip_counts_by_reason (project : string) : storem (list (string * Z)) :=
  gets (fun s =>
    let reasons := k_reason <$> rows_of k_rel_path project (index_skips s) in
    (fun r => (r, Z.of_nat (length (filter (fun x => x = r) reasons)))) <$> sort_by String.compare (remove_dups reasons)).

Definition set_file_generation (g : Z) (f : FileState) : FileState :=
  {| f_project := f_project f; f_rel_path := f_rel_path f; f_language := f_language f; f_sha256 := f_sha256 f;
     f_mtime_ns := f_mtime_ns f; f_size := f_size f; f_parser_version := f_parser_version f;
     f_extractor_version := f_extractor_version f; f_last_indexed_generation := g |}.
Definition set_skip_generation (g : Z) (k : IndexSkip) : IndexSkip :=
  {| k_project := k_project k; k_rel_path := k_rel_path k; k_language := k_language k; k_reason := k_reason k;
     k_detail := k_detail k; k_size := k_size k; k_mtime_ns := k_mtime_ns k; k_ctime_ns := k_ctime_ns k;
     k_file_id := k_file_id k; k_last_indexed_generation := g; k_updated_at := k_updated_at k |}.

(** [UPDATE .. SET c = ?2 WHERE project = ?1]. *)
Definition update_where {R} (project : string) (f : R -> R) (t : gmap (string * string) R) : gmap (string * string) R :=
  map_imap (fun k r => Some (if decide (k.1 = project) then f r else r)) t.

Definition bump_file_and_skip_generations (project : string) (generation : Z) : storem unit :=
  atomically (
    modify (set_file_state (update_where project (set_file_generation (to_i64 generation)))) ;;;
    modify (set_index_skips (update_where project (set_skip_generation (to_i64 generation))))).

(** ** [workspace_state] *)

Definition keep_generation (old new : WorkspaceState) : WorkspaceState :=
  {| w_root_path := w_root_path new; w_git_dir := w_git_dir new; w_git_common_dir := w_git_common_dir new;
     w_head_oid := w_head_oid new; w_index_signature := w_index_signature new;
     w_schema_version := w_schema_version new; w_indexer_version := w_indexer_version new;
     w_graph_generation := w_graph_generation old; w_updated_at := w_updated_at new |}.
Definition workspace_columns (w : WorkspaceState) : WorkspaceState :=
  {| w_root_path := w_root_path w; w_git_dir := w_git_dir w; w_git_common_dir := w_git_common_dir w;
     w_head_oid := w_head_oid w; w_index_signature := w_index_signature w;
     w_schema_version := w_schema_version w; w_indexer_version := w_indexer_version w;
     w_graph_generation := to_i64 (w_graph_generation w); w_updated_at := w_updated_at w |}.
Definition row_to_workspace_state (w : WorkspaceState) : WorkspaceState :=
  {| w_root_path := w_root_path w; w_git_dir := w_git_dir w; w_git_common_dir := w_git_common_dir w;
     w_head_oid := w_head_oid w; w_index_signature := w_index_signature w;
     w_schema_version := w_schema_version w mod 2 ^ 32; w_indexer_version := w_indexer_version w;
     w_graph_generation := to_u64 (w_graph_generation w); w_updated_at := w_updated_at w |}.

(** On conflict every column is updated but [graph_generation]. *)
Definition upsert_workspace_state (w : WorkspaceState) : storem unit :=
  atomically (modify (set_workspace_state (fun t =>
    <[w_root_path w :=
        match t !! w_root_path w with
        | Some old => keep_generation old (workspace_columns w)
        | None => workspace_columns w
        end]> t))).

Definition get_workspace_state (root_path : string) : storem (option WorkspaceState) :=
  gets (fun s => row_to_workspace_state <$> workspace_state s !! root_path).

Definition list_workspace_states : storem (list WorkspaceState) :=
  gets (fun s => row_to_workspace_state <$>
    sort_by (cmp_on w_root_path String.compare) (map_to_list (workspace_state s)).*2).

Definition now_iso8601 (secs : N) : string := "1970-01-01T00:00:00Z+" +:+ show_N secs +:+ "s".

Definition set_generation (g : Z) (updated_at : string) (w : WorkspaceState) : WorkspaceState :=
  {| w_root_path := w_root_path w; w_git_dir := w_git_dir w; w_git_common_dir := w_git_common_dir w;
     w_head_oid := w_head_oid w; w_index_signature := w_index_signature w;
     w_schema_version := w_schema_version w; w_indexer_version := w_indexer_version w;
     w_graph_generation := g; w_updated_at := updated_at |}.

(** A sum that leaves the integers turns into a real, which [row.get] refuses. *)
Definition bump_generation (root_path : string) (secs : N) : storem Z :=
  atomically (
    let! row := gets (fun s => workspace_state s !! root_path) in
    match row with
    | None => throw (StoreError.Sqlite "Query returned no rows")
    | Some w =>
        let g := (w_graph_generation w + 1)%Z in
        guard (in_i64 g) (StoreError.Sqlite "Invalid column type") ;;;
        modify (set_workspace_state <[root_path := set_generation g (now_iso8601 secs) w]>) ;;;
        ret (to_u64 g)
    end).
