(* ===== verification/FreshText.v ===== *)
(** The texts that the freshness checks keep: the cache of content proofs
    (crates/freshness/src/incremental.rs), the stamp of the last positive
    check (fingerprint.rs) and the key of a discovery scope
    (crates/discover/src/lib.rs). *)

From Stdlib Require Import Ascii DecimalString DecimalN.
From S2P Require Import Prelude Loop RustStr EditLock FreshStore EditLockSpec.
#[local] Open Scope string_scope.

(** ** Integers *)

Definition parse_digits (s : string) : option N :=
  match s with
  | EmptyString => None
  | _ => N.of_uint <$> NilEmpty.uint_of_string s
  end.

(** [str::parse] for an unsigned and for a signed type, given its range. *)
Definition parse_unsigned (max : Z) (s : string) : option Z :=
  n ← parse_digits (default s (strip_prefix "+" s));
  if decide (Z.of_N n <= max)%Z then Some (Z.of_N n) else None.
Definition parse_signed (bits : Z) (s : string) : option Z :=
  match strip_prefix "-" s with
  | Some t => n ← parse_digits t; if decide (Z.of_N n <= 2 ^ (bits - 1))%Z then Some (- Z.of_N n)%Z else None
  | None => n ← parse_digits (default s (strip_prefix "+" s));
            if decide (Z.of_N n < 2 ^ (bits - 1))%Z then Some (Z.of_N n) else None
  end.
Definition parse_u64 : string -> option Z := parse_unsigned (2 ^ 64 - 1).
Definition parse_i64 : string -> option Z := parse_signed 64.
Definition parse_i128 : string -> option Z := parse_signed 128.

(** [Display] of an integer. *)
Definition show_Z (z : Z) : string :=
  if (z <? 0)%Z then "-" +:+ show_N (Z.to_N (- z)) else show_N (Z.to_N z).

(** [str::split_ascii_whitespace]. *)
Definition is_ascii_whitespace (c : ascii) : bool :=
  let n := Ascii.nat_of_ascii c in ((n =? 9) || (n =? 10) || (n =? 12) || (n =? 13) || (n =? 32))%nat.
Definition split_ascii_whitespace (s : string) : list string :=
  filter (fun p => p <> "") (split is_ascii_whitespace s).

(** ** Content proofs *)

Record CoarseTimestampProof : Type := {
  c_sha256 : string;
  c_size : Z;
  c_mtime_ns : Z;
  c_ctime_ns : Z;
  c_file_id : Z;
  c_observation_started_ns : Z
}.

#[export] Instance proof_eq_dec : EqDecision CoarseTimestampProof.
Proof. solve_decision. Defined.

(** A line with exactly seven fields that parse. *)
Definition parse_proof_line (line : string) : option (string * CoarseTimestampProof) :=
  match split_ascii_whitespace line with
  | [key; sha; size; mtime; ctime; file_id; started] =>
      size ← parse_i64 size; mtime ← parse_i64 mtime; ctime ← parse_i64 ctime;
      file_id ← parse_u64 file_id; started ← parse_i64 started;
      Some (key, {| c_sha256 := sha; c_size := size; c_mtime_ns := mtime; c_ctime_ns := ctime;
                    c_file_id := file_id; c_observation_started_ns := started |})
  | _ => None
  end.

(** [collect] into a [HashMap]: of two lines with a key the later one counts. *)
Definition parse_proofs (body : string) : gmap string CoarseTimestampProof :=
  match lines body with
  | v1 :: rest => if decide (v1 = "v1") then list_to_map (reverse (omap parse_proof_line rest)) else ∅
  | [] => ∅
  end.

Definition coarse_timestamp_proof_path (s : Store) : option string :=
  database ← db_path s; if decide (database = "") then None else Some (database +:+ ".coarseproof").

Definition read_coarse_timestamp_proofs (s : Store) : gmap string CoarseTimestampProof :=
  match coarse_timestamp_proof_path s, coarseproof s with
  | Some _, Some body => parse_proofs body
  | _, _ => ∅
  end.

Definition proof_line (x : string * CoarseTimestampProof) : string :=
  join " " [x.1; c_sha256 x.2; show_Z (c_size x.2); show_Z (c_mtime_ns x.2); show_Z (c_ctime_ns x.2);
            show_Z (c_file_id x.2); show_Z (c_observation_started_ns x.2)].

(** A [String] that grows by lines. *)
Fixpoint concat_lines (ls : list string) : string :=
  match ls with [] => "" | l :: ls => l +:+ newline +:+ concat_lines ls end.

Definition proofs_text (proofs : gmap string CoarseTimestampProof) : string :=
  concat_lines ("v1" :: (proof_line <$> sort_by (cmp_on fst String.compare) (map_to_list proofs))).

(** [write_coarse_timestamp_proofs]: the file is replaced by a rename, or the
    old one stays when an operation fails. *)
Definition write_coarse_timestamp_proofs (written : bool) (proofs : gmap string CoarseTimestampProof)
    (s : Store) : Store :=
  match coarse_timestamp_proof_path s with
  | Some _ => if written then set_coarseproof (Some (proofs_text proofs)) s else s
  | None => s
  end.

(** ** The stamp *)

Definition stamp_path_for (s : Store) : option string :=
  raw ← db_path s; if decide (raw = "") then None else Some (raw +:+ ".freshstamp").

Definition stamp_text (now : Z) (root project scope : string) (total_inventory : N) : string :=
  concat_lines ["v1"; show_Z now; show_N total_inventory; root; project; scope].

Definition write_stamp (written : bool) (now : Z) (root project scope : string) (total_inventory : N)
    (s : Store) : Store :=
  if written then set_freshstamp (Some (stamp_text now root project scope total_inventory)) s else s.

Definition read_valid_stamp (body : option string) (now : Z) (root project scope : string) (ttl : Z) : option N :=
  body ← body;
  match lines body with
  | v1 :: verified :: total :: r :: p :: k :: _ =>
      verified ← parse_i128 verified;
      total ← parse_u64 total;
      if decide (v1 = "v1" /\ r = root /\ p = project /\ k = scope) then
        let age := (now - verified)%Z in
        if decide (age < 0 \/ age > ttl)%Z then None else Some (Z.to_N total)
      else None
  | _ => None
  end.

(** ** The scope key *)

Record WalkOverrides : Type := { includes : list string; excludes : list string }.

Definition overrides_empty (o : WalkOverrides) : bool :=
  bool_decide (includes o = []) && bool_decide (excludes o = []).

Definition append_scope_part (out : string) (kind : ascii) (glob : string) : string :=
  out +:+ ";" +:+ String kind (show_N (N.of_nat (String.length glob)) +:+ ":" +:+ glob).

Definition scope_key (o : WalkOverrides) : string :=
  if overrides_empty o then "default"
  else
    let out := foldl (fun out g => append_scope_part out "I" g) "v1" (includes o) in
    foldl (fun out g => append_scope_part out "E" g) out (excludes o).

Definition INDEXER_VERSION_BASE : string := "greppy-indexer-v11".

Definition expected_indexer_version (o : WalkOverrides) : string :=
  let scope := scope_key o in
  if decide (scope = "default") then INDEXER_VERSION_BASE
  else INDEXER_VERSION_BASE +:+ ";discover_scope=" +:+ scope.

Example scope_demo : scope_key {| includes := ["src/**"]; excludes := ["a"; "b;c"] |} = "v1;I6:src/**;E1:a;E3:b;c".
Proof. vm_compute. reflexivity. Qed.

Example stamp_demo :
  read_valid_stamp (Some (stamp_text 1000 "/r" "p" "default" 7)) 1500 "/r" "p" "default" 500 = Some 7%N /\
  read_valid_stamp (Some (stamp_text 1000 "/r" "p" "default" 7)) 1501 "/r" "p" "default" 500 = None /\
  read_valid_stamp (Some (stamp_text 1000 "/r" "p" "default" 7)) 999 "/r" "p" "default" 500 = None.
Proof. vm_compute. done. Qed.

Example proofs_demo :
  let m := <["k1" := {| c_sha256 := "ab"; c_size := 3; c_mtime_ns := -5; c_ctime_ns := 1000000000;
                        c_file_id := 18446744073709551615; c_observation_started_ns := 7 |}]>
           (∅ : gmap string CoarseTimestampProof) in
  parse_proofs (proofs_text m) = m.
Proof. vm_compute. reflexivity. Qed.

(** The texts of the freshness checks read back as what was written: the
    cache of content proofs, the stamp; and the scope key tells any two sets of
    overrides apart. *)

#[local] Open Scope string_scope.

(** ** Integers *)

Lemma parse_digits_show n : parse_digits (show_N n) = Some n.
Proof.
  unfold parse_digits. pose proof (show_N_not_nil n) as Hnil. unfold show_N in *.
  rewrite NilEmpty.usu. simpl. rewrite Unsigned.of_to. by destruct (NilEmpty.string_of_uint _).
Qed.

Lemma show_N_no_prefix n c : is_ascii_digit c = false -> strip_prefix (String c "") (show_N n) = None.
Proof.
  intros Hc. destruct (strip_prefix _ _) as [t|] eqn:Ht; [|done]. exfalso. apply strip_prefix_Some in Ht.
  pose proof (show_N_any (fun d => Ascii.eqb d c) n) as H. rewrite Ht in H. simpl in H.
  rewrite Ascii.eqb_refl in H. discriminate H. intros d Hd. apply Ascii.eqb_neq. intros ->. congruence.
Qed.

Lemma parse_unsigned_show max n :
  (Z.of_N n <= max)%Z -> parse_unsigned max (show_N n) = Some (Z.of_N n).
Proof.
  intros Hn. unfold parse_unsigned. rewrite show_N_no_prefix by done. simpl.
  rewrite parse_digits_show. simpl. by rewrite decide_True.
Qed.

Lemma parse_unsigned_show_Z max z : (0 <= z <= max)%Z -> parse_unsigned max (show_Z z) = Some z.
Proof.
  intros Hz. unfold show_Z. rewrite (proj2 (Z.ltb_ge z 0)) by lia.
  rewrite parse_unsigned_show by lia. f_equal. lia.
Qed.

Lemma parse_signed_show bits z :
  (- 2 ^ (bits - 1) <= z < 2 ^ (bits - 1))%Z -> parse_signed bits (show_Z z) = Some z.
Proof.
  intros Hz. unfold show_Z, parse_signed. destruct (z <? 0)%Z eqn:Hs.
  - rewrite strip_prefix_app, parse_digits_show. simpl. apply Z.ltb_lt in Hs.
    rewrite decide_True by lia. f_equal. lia.
  - rewrite !show_N_no_prefix by done. simpl. rewrite parse_digits_show. simpl. apply Z.ltb_ge in Hs.
    rewrite decide_True by lia. f_equal. lia.
Qed.

(** ** Lines and fields *)

Definition solid (s : string) : Prop := s <> "" /\ str_any is_ascii_whitespace s = false.
(** A line that [str::lines] gives back as it is. *)
Definition one_line (s : string) : Prop := str_any is_newline s = false /\ str_any is_cr s = false.

Lemma str_any_impl (P Q : ascii -> bool) s :
  (forall c, Q c = true -> P c = true) -> str_any P s = false -> str_any Q s = false.
Proof.
  intros HPQ. induction s as [|c s IH]; [done|]. simpl. intros [Hc Hs]%orb_false_iff.
  rewrite (IH Hs), orb_false_r. destruct (Q c) eqn:E; [|done]. by rewrite (HPQ c E) in Hc.
Qed.

Lemma newline_white c : is_newline c = true -> is_ascii_whitespace c = true.
Proof. unfold is_newline. by intros ->%Ascii.eqb_eq. Qed.
Lemma cr_white c : is_cr c = true -> is_ascii_whitespace c = true.
Proof. unfold is_cr. by intros ->%Ascii.eqb_eq. Qed.

Lemma show_N_solid n : solid (show_N n).
Proof. split; [apply show_N_not_nil|]. apply show_N_any. by apply digit_not. Qed.
Lemma show_Z_solid z : solid (show_Z z).
Proof.
  unfold show_Z. destruct (z <? 0)%Z; [|apply show_N_solid]. split; [done|]. simpl. apply show_N_solid.
Qed.

Lemma solid_one_line s : solid s -> one_line s.
Proof. intros [_ Hs]. split; (eapply str_any_impl; [|exact Hs]); [apply newline_white|apply cr_white]. Qed.

Lemma split_lines ls :
  Forall (fun l => str_any is_newline l = false) ls -> split is_newline (concat_lines ls) = (ls ++ [""])%list.
Proof.
  induction 1 as [|l ls Hl _ IH]; [done|]. simpl. change (newline +:+ ?r) with (String (ascii_of_nat 10) r).
  rewrite (split_app_sep is_newline l (ascii_of_nat 10)) by done. by rewrite IH.
Qed.

Lemma lines_concat ls : Forall one_line ls -> lines (concat_lines ls) = ls.
Proof.
  intros Hls. unfold lines. rewrite split_lines by (eapply Forall_impl; [exact Hls|]; by intros ? []).
  rewrite last_snoc, bool_decide_eq_true_2 by done. rewrite length_app, Nat.add_sub, take_app_length.
  rewrite <- (list_fmap_id ls) at 2. apply list_fmap_ext. intros i l Hl. simpl.
  rewrite Forall_lookup in Hls. destruct (Hls i l Hl). by apply strip_cr_none.
Qed.

Lemma split_fields fs :
  Forall solid fs -> split_ascii_whitespace (join " " fs) = fs.
Proof.
  intros Hfs. unfold split_ascii_whitespace. destruct fs as [|f fs]; [done|].
  assert (split is_ascii_whitespace (join " " (f :: fs)) = f :: fs) as ->.
  { revert f Hfs. induction fs as [|g fs IH]; intros f' Hfs; inversion Hfs as [|? ? [_ Hf] Hgs]; subst.
    - by apply split_no_sep.
    - change (join " " (f' :: g :: fs)) with (f' +:+ String " " (join " " (g :: fs))).
      rewrite split_app_sep by done. by rewrite IH. }
  clear -Hfs. induction Hfs as [|x xs [Hx _] _ IH]; [done|]. rewrite filter_cons_True by done. by rewrite IH.
Qed.

Lemma fields_solid line : Forall solid (split_ascii_whitespace line).
Proof.
  apply Forall_forall. intros f [Hne Hf]%list_elem_of_filter. split; [done|].
  exact (proj1 (Forall_forall _ _) (split_pieces is_ascii_whitespace line) f Hf).
Qed.

(** ** The cache of content proofs *)

(** Entries that the text can express. *)
Definition proof_wf (x : string * CoarseTimestampProof) : Prop :=
  solid x.1 /\ solid (c_sha256 x.2) /\
  in_i64 (c_size x.2) = true /\ in_i64 (c_mtime_ns x.2) = true /\ in_i64 (c_ctime_ns x.2) = true /\
  (0 <= c_file_id x.2 < 2 ^ 64)%Z /\ in_i64 (c_observation_started_ns x.2) = true.

Lemma in_i64_spec z : in_i64 z = true <-> (- 2 ^ 63 <= z < 2 ^ 63)%Z.
Proof. unfold in_i64. rewrite andb_true_iff, Z.leb_le, Z.ltb_lt. done. Qed.

Lemma parse_i64_show z : in_i64 z = true -> parse_i64 (show_Z z) = Some z.
Proof. rewrite in_i64_spec. intros Hz. apply parse_signed_show. simpl in *. lia. Qed.

Lemma parse_proof_line_show x : proof_wf x -> parse_proof_line (proof_line x) = Some x.
Proof.
  intros (Hk & Hs & H1 & H2 & H3 & H4 & H5). unfold parse_proof_line, proof_line.
  rewrite split_fields by (repeat (apply Forall_cons; split); auto using show_Z_solid, Forall_nil_2).
  rewrite !parse_i64_show by done. unfold parse_u64. rewrite parse_unsigned_show_Z by lia. simpl.
  by destruct x as [k []].
Qed.

Lemma parse_digits_range (s : string) n : parse_digits s = Some n -> (0 <= Z.of_N n)%Z.
Proof. lia. Qed.

Lemma parse_i64_range s z : parse_i64 s = Some z -> in_i64 z = true.
Proof.
  rewrite in_i64_spec. unfold parse_i64, parse_signed. intros H.
  destruct (strip_prefix "-" s); apply bind_Some in H as (n & _ & H); case_decide; simplify_eq; simpl in *; lia.
Qed.
Lemma parse_u64_range s z : parse_u64 s = Some z -> (0 <= z < 2 ^ 64)%Z.
Proof.
  unfold parse_u64, parse_unsigned. intros (n & _ & H)%bind_Some. case_decide; simplify_eq. lia.
Qed.

(** What a line parses to can be written. *)
Lemma parse_proof_line_wf line x : parse_proof_line line = Some x -> proof_wf x.
Proof.
  unfold parse_proof_line. pose proof (fields_solid line) as Hf.
  destruct (split_ascii_whitespace line) as [|k [|sha [|z1 [|z2 [|z3 [|z4 [|z5 [|? ?]]]]]]]]; try done.
  apply Forall_cons in Hf as [Hk [Hs _]%Forall_cons].
  intros (a1 & H1 & (a2 & H2 & (a3 & H3 & (a4 & H4 & (a5 & H5 & [= <-])%bind_Some)%bind_Some)%bind_Some)%bind_Some)%bind_Some.
  unfold proof_wf. simpl. split_and!; eauto using parse_i64_range; eapply parse_u64_range; eauto.
Qed.

Lemma parse_proofs_wf body k p : parse_proofs body !! k = Some p -> proof_wf (k, p).
Proof.
  unfold parse_proofs. destruct (lines body) as [|v rest]; [by rewrite lookup_empty|].
  case_decide; [|by rewrite lookup_empty].
  intros Hin%elem_of_list_to_map_2. apply elem_of_reverse, list_elem_of_omap in Hin as (line & _ & Hl).
  by eapply parse_proof_line_wf.
Qed.

Lemma proof_line_one_line x : proof_wf x -> one_line (proof_line x).
Proof.
  intros (Hk & Hs & _). unfold proof_line.
  assert (forall P, P " "%char = false -> forall fs, Forall (fun f => str_any P f = false) fs ->
    str_any P (join " " fs) = false) as Hjoin.
  { intros P HP fs. induction 1 as [|f fs Hf _ IH]; [done|]. destruct fs as [|g fs]; [done|].
    change (join " " (f :: g :: fs)) with (f +:+ String " " (join " " (g :: fs))).
    rewrite str_any_app, Hf. cbn [str_any orb]. by rewrite HP, IH. }
  split; apply Hjoin; try done; repeat (apply Forall_cons; split); try apply Forall_nil_2; apply solid_one_line;
    auto using show_Z_solid.
Qed.

Lemma omap_show l : Forall proof_wf l -> omap parse_proof_line (proof_line <$> l) = l.
Proof. induction 1 as [|x l Hx _ IH]; [done|]. rewrite fmap_cons. simpl omap. rewrite parse_proof_line_show by done. f_equal. exact IH. Qed.

Lemma proofs_roundtrip_lemma (m : gmap string CoarseTimestampProof) :
  (forall k p, m !! k = Some p -> proof_wf (k, p)) -> parse_proofs (proofs_text m) = m.
Proof.
  intros Hm. unfold parse_proofs, proofs_text.
  pose proof (sort_by_Permutation (cmp_on (@fst string CoarseTimestampProof) String.compare) (map_to_list m)) as Hperm.
  set (l := sort_by _ (map_to_list m)) in *.
  assert (Forall proof_wf l) as Hl.
  { apply Forall_forall. intros [k p] Hkp. apply Hm, elem_of_map_to_list. by rewrite <- Hperm. }
  rewrite lines_concat.
  - rewrite decide_True by done. rewrite omap_show by done. etrans; [|apply (list_to_map_to_list m)].
    apply list_to_map_proper.
    + rewrite fmap_reverse, reverse_Permutation, Hperm. apply NoDup_fst_map_to_list.
    + by rewrite reverse_Permutation, Hperm.
  - apply Forall_cons. split; [done|]. apply Forall_fmap. eapply Forall_impl; [exact Hl|].
    intros x Hx. by apply proof_line_one_line.
Qed.

(** The cache of content proofs is read back as it was written, for all
    entries that a check can produce: keys and digests without blanks and
    numbers within their columns. *)
Theorem proofs_roundtrip (m : gmap string CoarseTimestampProof) :
  (forall k p, m !! k = Some p -> proof_wf (k, p)) -> parse_proofs (proofs_text m) = m.
Proof. apply proofs_roundtrip_lemma. Qed.

Lemma proofs_roundtrip_witness :
  let p := {| c_sha256 := "ab"; c_size := 3; c_mtime_ns := -5; c_ctime_ns := 1000000000;
              c_file_id := 18446744073709551615; c_observation_started_ns := 7 |} in
  parse_proofs (proofs_text {["k" := p]}) = {["k" := p]}.
Proof.
  apply (proofs_roundtrip {["k" := _]}). intros k p [<- <-]%lookup_singleton_Some.
  unfold proof_wf. simpl. split_and!; (split; [discriminate|reflexivity]) || reflexivity || lia.
Defined.

(** ** The stamp *)

(** A stamp is valid for the root, the project and the scope it was written
    for, from the time of writing until the time to live is over, and for
    nothing else. *)
Theorem stamp_roundtrip now root project scope total now' root' project' scope' ttl :
  one_line root -> one_line project -> one_line scope ->
  (0 <= now < 2 ^ 127)%Z -> (Z.of_N total < 2 ^ 64)%Z ->
  read_valid_stamp (Some (stamp_text now root project scope total)) now' root' project' scope' ttl =
  if decide ((root', project', scope') = (root, project, scope) /\ (0 <= now' - now <= ttl)%Z)
  then Some total else None.
Proof.
  intros Hr Hp Hs Hnow Htot. unfold read_valid_stamp, stamp_text. cbn [mbind option_bind].
  rewrite lines_concat.
  - unfold parse_i128, parse_u64. rewrite parse_signed_show by (simpl; lia).
    rewrite parse_unsigned_show by lia. cbn [mbind option_bind]. rewrite N2Z.id.
    repeat case_decide; try done; exfalso; (naive_solver lia).
  - repeat (apply Forall_cons; split); try done; [apply solid_one_line, show_Z_solid|apply solid_one_line, show_N_solid].
Qed.

(** ** The scope key *)

Definition scope_part (x : ascii * string) : string := append_scope_part "" x.1 x.2.
Definition scope_parts (o : WalkOverrides) : list (ascii * string) :=
  (((fun g => ("I"%char, g)) <$> includes o) ++ ((fun g => ("E"%char, g)) <$> excludes o))%list.
Fixpoint scope_text (l : list (ascii * string)) : string :=
  match l with [] => "" | x :: l => scope_part x +:+ scope_text l end.

Lemma append_scope_part_app out k g : append_scope_part out k g = out +:+ scope_part (k, g).
Proof. unfold scope_part, append_scope_part. by rewrite app_empty_l. Qed.

Lemma foldl_scope k gs out r :
  foldl (fun out g => append_scope_part out k g) out gs +:+ r =
  out +:+ scope_text ((fun g => (k, g)) <$> gs) +:+ r.
Proof.
  revert out. induction gs as [|g gs IH]; intros out; [done|].
  simpl foldl. rewrite IH, append_scope_part_app, fmap_cons. cbn [scope_text]. by rewrite !app_string_assoc.
Qed.

Lemma scope_text_app l l' : scope_text (l ++ l') = scope_text l +:+ scope_text l'.
Proof. induction l as [|x l IH]; [done|]. rewrite <- app_comm_cons. cbn [scope_text]. by rewrite IH, app_string_assoc. Qed.

Lemma scope_key_text o : overrides_empty o = false -> scope_key o = "v1" +:+ scope_text (scope_parts o).
Proof.
  intros Ho. unfold scope_key. rewrite Ho. rewrite <- (app_empty_r (foldl _ _ (excludes o))), foldl_scope.
  rewrite foldl_scope, app_empty_r. unfold scope_parts. by rewrite scope_text_app.
Qed.

Lemma app_string_inj_length s t p r : String.length s = String.length t -> s +:+ p = t +:+ r -> s = t /\ p = r.
Proof.
  revert t. induction s as [|c s IH]; intros [|d t] Hl H; try done. simpl in Hl, H. injection H as <- H.
  injection Hl as Hl. destruct (IH t Hl H) as [-> ->]. done.
Qed.

Lemma scope_part_inj x y r r' : scope_part x +:+ r = scope_part y +:+ r' -> x = y /\ r = r'.
Proof.
  destruct x as [k g], y as [k' g']. unfold scope_part, append_scope_part. simpl. intros [= <- H].
  rewrite !app_string_assoc, !app_String in H.
  pose proof (f_equal (split (fun c => Ascii.eqb c ":")) H) as Hs.
  rewrite !(split_app_sep (fun c => Ascii.eqb c ":") (show_N _) ":") in Hs by (done || apply show_N_any, not_colon).
  injection Hs as Hn _. rewrite Hn in H. apply show_N_inj in Hn. apply app_string_inj in H. injection H as H.
  apply app_string_inj_length in H as [-> ->]; [done|lia].
Qed.

Lemma scope_text_empty x l : scope_text (x :: l) <> "".
Proof. by intros [H _]%app_string_empty. Qed.

Lemma scope_text_inj l l' : scope_text l = scope_text l' -> l = l'.
Proof.
  revert l'. induction l as [|x l IH]; intros [|y l'] H; [done|symmetry in H; by apply scope_text_empty in H|by apply scope_text_empty in H|].
  apply scope_part_inj in H as [-> H]. f_equal. by apply IH.
Qed.

Definition kind_of (c : ascii) (x : ascii * string) : option string := if Ascii.eqb x.1 c then Some x.2 else None.

Lemma scope_parts_inj o o' : scope_parts o = scope_parts o' -> o = o'.
Proof.
  intros H. destruct o as [i e], o' as [i' e']. unfold scope_parts in H. simpl in H.
  assert (forall c k (l : list string), omap (kind_of c) ((fun g => (k, g)) <$> l) = if Ascii.eqb k c then l else []) as Hf.
  { intros c k l. induction l as [|g l IHl]; [by destruct (Ascii.eqb k c)|]. rewrite fmap_cons. cbn [omap list_omap].
    unfold kind_of at 1. cbn [fst snd]. change (list_omap ?f ?x) with (omap f x). rewrite IHl. by destruct (Ascii.eqb k c). }
  assert (forall l l' c, omap (kind_of c) (((fun g => ("I"%char, g)) <$> l) ++ ((fun g => ("E"%char, g)) <$> l'))%list =
      ((if Ascii.eqb "I" c then l else []) ++ (if Ascii.eqb "E" c then l' else []))%list) as Hk
    by (intros l l' c; by rewrite omap_app, !Hf).
  pose proof (Hk i e "I"%char) as H1. pose proof (Hk i e "E"%char) as H2.
  rewrite H, Hk in H1, H2. simpl in H1, H2. rewrite !app_nil_r in H1. by subst.
Qed.

(** The scope key tells any two sets of include and exclude globs apart,
    whatever characters the globs contain, and with it the version under which
    an index was built tells the scope. *)
Theorem scope_key_injective o o' : expected_indexer_version o = expected_indexer_version o' <-> o = o'.
Proof.
  split; [|by intros ->]. assert (forall x y, scope_key x = scope_key y -> x = y) as Hkey.
  { intros x y Hxy. destruct (overrides_empty x) eqn:Hx, (overrides_empty y) eqn:Hy.
    - unfold overrides_empty in Hx, Hy. rewrite !andb_true_iff, !bool_decide_eq_true in Hx, Hy.
      destruct x, y. simpl in *. naive_solver.
    - rewrite (scope_key_text y Hy) in Hxy. unfold scope_key in Hxy. by rewrite Hx in Hxy.
    - rewrite (scope_key_text x Hx) in Hxy. unfold scope_key in Hxy. by rewrite Hy in Hxy.
    - rewrite !scope_key_text in Hxy by done. apply app_string_inj, scope_text_inj in Hxy. by apply scope_parts_inj. }
  unfold expected_indexer_version. intros H. apply Hkey. repeat case_decide.
  - congruence.
  - by rewrite <- (app_empty_r INDEXER_VERSION_BASE) in H at 1; apply app_string_inj in H.
  - by symmetry in H; rewrite <- (app_empty_r INDEXER_VERSION_BASE) in H at 1; apply app_string_inj in H.
  - by apply app_string_inj, app_string_inj in H.
Qed.
