(* ===== verification/Freshness.v ===== *)
(** Which files changed since they were indexed
    (crates/freshness/src/incremental.rs), and the stable read that it rests
    on (crates/discover/src/lib.rs).

    What the file system and the clock answer is an argument: a [Watch] gives,
    for each path, one observation (the answer of [metadata], the clock before
    the read, what each attempt to read the file meets).  The files may change
    between any two of those answers.  [greppy_parser] is an argument too. *)

From S2P Require Import Prelude Loop CoreError RustStr EditLock GraphStore GraphDb FreshStore FreshText.
#[local] Open Scope string_scope.
#[local] Open Scope Z_scope.

(** ** Observations *)

Record StableFileMetadata : Type := {
  m_size : Z;
  m_mtime_ns : option Z;
  m_ctime_ns : option Z;
  m_file_id : option Z
}.

#[export] Instance metadata_eq_dec : EqDecision StableFileMetadata.
Proof. solve_decision. Defined.

Definition io (A : Type) : Type := res string A.

Record Attempt : Type := {
  a_open : io unit;
  a_before : io StableFileMetadata;
  a_is_file : io bool;
  a_bytes : io (list Z);
  a_after : io StableFileMetadata
}.

Record Observation : Type := {
  ob_stat : io StableFileMetadata;
  ob_clock : Z;
  ob_attempts : nat -> Attempt
}.

Record Watch : Type := { observe : string -> Observation; side_written : bool }.

Record InventoryEntry : Type := {
  rel_path : string;
  abs_path : string;
  e_size : option Z;
  e_mtime_ns : option Z;
  e_ctime_ns : option Z;
  e_file_id : option Z
}.

#[export] Instance entry_eq_dec : EqDecision InventoryEntry.
Proof. solve_decision. Defined.

Definition zlen {A} (l : list A) : Z := Z.of_nat (length l).

(** [read_stable_file], with the number of attempts left. *)
Fixpoint read_attempts (more : nat) (k : nat) (attempts : nat -> Attempt) (path : string)
  : io (list Z * StableFileMetadata) :=
  let a := attempts k in
  let? _ := a_open a in
  let? before := a_before a in
  let? regular := a_is_file a in
  if negb regular then Err (path +:+ " is not a regular file")
  else
    let? bytes := a_bytes a in
    let? after := a_after a in
    if bool_decide (before = after) && (m_size after =? zlen bytes) then Ok (bytes, after)
    else match more with
         | O => Err (path +:+ " changed while it was being read")
         | S more => read_attempts more (S k) attempts path
         end.

Definition read_stable_file (attempts : nat -> Attempt) (path : string) : io (list Z * StableFileMetadata) :=
  read_attempts 2 0 attempts path.

(** [map_err(|e| Error::io(context, e))]. *)
Definition io_context {A} (context : string) (r : io A) : res CoreError.Error A :=
  match r with Ok a => Ok a | Err e => Err (CoreError.Io context e) | Panic => Panic end.

(** ** Stat identities *)

Record PersistedStat : Type := {
  p_sha256 : string;
  p_size : Z;
  p_mtime_ns : Z;
  p_ctime_ns : option Z;
  p_file_id : option Z
}.

(** [CurrentStat] has the fields of [StableFileMetadata]. *)
Definition CurrentStat : Type := StableFileMetadata.

Definition stat_identity_matches (persisted : PersistedStat) (current : CurrentStat) : bool :=
  bool_decide (p_mtime_ns persisted <> 0)
  && (p_size persisted =? to_i64 (m_size current))
  && bool_decide (Some (p_mtime_ns persisted) = m_mtime_ns current)
  && bool_decide (is_Some (p_ctime_ns persisted))
  && bool_decide (is_Some (m_ctime_ns current))
  && bool_decide (p_ctime_ns persisted = m_ctime_ns current)
  && bool_decide (is_Some (p_file_id persisted))
  && bool_decide (is_Some (m_file_id current))
  && bool_decide (p_file_id persisted = m_file_id current).

Definition COARSE_TIMESTAMP_QUANTUM_NS : Z := 1000000000.

(** The remainder of Rust's [%] is zero exactly when that of the division is. *)
Definition has_whole_second_identity (persisted : PersistedStat) : bool :=
  (Z.rem (p_mtime_ns persisted) COARSE_TIMESTAMP_QUANTUM_NS =? 0)
  && match p_ctime_ns persisted with
     | Some value => Z.rem value COARSE_TIMESTAMP_QUANTUM_NS =? 0
     | None => false
     end.

(** [i64::checked_add]. *)
Definition checked_add_i64 (a b : Z) : option Z := if in_i64 (a + b) then Some (a + b) else None.

Definition coarse_bucket_end_ns (persisted : PersistedStat) : option Z :=
  ctime ← p_ctime_ns persisted;
  checked_add_i64 (Z.max (p_mtime_ns persisted) ctime) COARSE_TIMESTAMP_QUANTUM_NS.

Definition stat_fast_path_safe (persisted : PersistedStat) (current : CurrentStat)
    (proof : option CoarseTimestampProof) : bool :=
  if negb (stat_identity_matches persisted current) then false
  else if negb (has_whole_second_identity persisted) then true
  else match proof with
       | None => false
       | Some proof =>
           bool_decide (c_sha256 proof = p_sha256 persisted)
           && (c_size proof =? p_size persisted)
           && (c_mtime_ns proof =? p_mtime_ns persisted)
           && bool_decide (Some (c_ctime_ns proof) = p_ctime_ns persisted)
           && bool_decide (Some (c_file_id proof) = p_file_id persisted)
           && match coarse_bucket_end_ns persisted with
              | Some bucket_end => bucket_end <=? c_observation_started_ns proof
              | None => false
              end
       end.

Definition coarse_timestamp_proof (persisted : PersistedStat) (stable : StableFileMetadata)
    (observation_started_ns : Z) : option CoarseTimestampProof :=
  if negb (has_whole_second_identity persisted) then None
  else if negb (stat_identity_matches persisted stable) then None
  else match coarse_bucket_end_ns persisted with
       | None => None
       | Some bucket_end =>
           if observation_started_ns <? bucket_end then None
           else match p_ctime_ns persisted, p_file_id persisted with
                | Some ctime_ns, Some file_id =>
                    Some {| c_sha256 := p_sha256 persisted; c_size := p_size persisted;
                            c_mtime_ns := p_mtime_ns persisted; c_ctime_ns := ctime_ns; c_file_id := file_id;
                            c_observation_started_ns := observation_started_ns |}
                | _, _ => None
                end
       end.

Definition skip_identity_matches (skip : IndexSkip) (current : CurrentStat) (max_size : Z) : bool :=
  let basic_match := bool_decide (k_mtime_ns skip <> 0) && (k_size skip =? to_i64 (m_size current))
                     && bool_decide (Some (k_mtime_ns skip) = m_mtime_ns current) in
  if negb basic_match || bool_decide (k_reason skip ∈ ["file_limit"; "time_budget"]) then false
  else if bool_decide (k_reason skip = "oversize") then max_size <? m_size current
  else if max_size <? m_size current then false
  else bool_decide (is_Some (k_ctime_ns skip))
       && bool_decide (is_Some (m_ctime_ns current))
       && bool_decide (k_ctime_ns skip = m_ctime_ns current)
       && bool_decide (is_Some (k_file_id skip))
       && bool_decide (is_Some (m_file_id current))
       && bool_decide (k_file_id skip = m_file_id current).

(** ** The diff *)

Definition MAX_FILE_SIZE_BYTES : Z := 50 * 1024 * 1024.

(** [max_file_size_bytes], given the variable [GREPPY_MAX_FILE_SIZE]. *)
Definition max_file_size_bytes (var : option string) : Z :=
  default MAX_FILE_SIZE_BYTES (var ≫= parse_u64).

Inductive FileDiff : Type :=
| Added (entry : InventoryEntry)
| Modified (entry : InventoryEntry) (old_sha256 : string)
| Deleted (path : string)
| Unchanged.

#[export] Instance diff_eq_dec : EqDecision FileDiff.
Proof. solve_decision. Defined.

Definition rel_of (d : FileDiff) : string :=
  match d with
  | Added e => rel_path e
  | Modified e _ => rel_path e
  | Deleted r => r
  | Unchanged => ""
  end.

(** The local variables of [compute_file_diff]. *)
Record Diffing : Type := {
  by_rel : gmap string PersistedStat;
  skipped_by_rel : gmap string IndexSkip;
  coarse_proofs : gmap string CoarseTimestampProof;
  coarse_proofs_changed : bool;
  diffs : list FileDiff
}.

Definition set_by_rel (f : gmap string PersistedStat -> gmap string PersistedStat) (d : Diffing) : Diffing :=
  {| by_rel := f (by_rel d); skipped_by_rel := skipped_by_rel d; coarse_proofs := coarse_proofs d;
     coarse_proofs_changed := coarse_proofs_changed d; diffs := diffs d |}.
Definition set_skipped (f : gmap string IndexSkip -> gmap string IndexSkip) (d : Diffing) : Diffing :=
  {| by_rel := by_rel d; skipped_by_rel := f (skipped_by_rel d); coarse_proofs := coarse_proofs d;
     coarse_proofs_changed := coarse_proofs_changed d; diffs := diffs d |}.
Definition add_proof (key : string) (p : CoarseTimestampProof) (d : Diffing) : Diffing :=
  {| by_rel := by_rel d; skipped_by_rel := skipped_by_rel d; coarse_proofs := <[key := p]> (coarse_proofs d);
     coarse_proofs_changed := true; diffs := diffs d |}.
Definition push (x : FileDiff) (d : Diffing) : Diffing :=
  {| by_rel := by_rel d; skipped_by_rel := skipped_by_rel d; coarse_proofs := coarse_proofs d;
     coarse_proofs_changed := coarse_proofs_changed d; diffs := (diffs d ++ [x])%list |}.

(** Store operations report their errors as the core's. *)
Definition stored {A} (m : storem A) : action CoreError.Error Store A := fun s =>
  let '(r, s') := m s in (from_store r, s').

Section Diff.
Context (sha256_hex : list Z -> string) (max_size : Z).

Definition coarse_timestamp_proof_key (project rel : string) : string :=
  sha256_hex (bytes_of_string project ++ [0] ++ bytes_of_string rel)%list.

Definition current_stat (w : Watch) (e : InventoryEntry) : res CoreError.Error CurrentStat :=
  match e_size e, e_mtime_ns e with
  | Some size, Some mtime =>
      Ok {| m_size := size; m_mtime_ns := Some mtime; m_ctime_ns := e_ctime_ns e; m_file_id := e_file_id e |}
  | _, _ => io_context ("stat " +:+ abs_path e) (ob_stat (observe w (abs_path e)))
  end.

(** The part of the loop body after the skip row. *)
Definition diff_indexed (project : string) (w : Watch) (e : InventoryEntry) (current : CurrentStat) (d : Diffing)
  : res CoreError.Error Diffing :=
  let proof := coarse_proofs d !! coarse_timestamp_proof_key project (rel_path e) in
  let persisted := by_rel d !! rel_path e in
  let safe := match persisted with Some p => stat_fast_path_safe p current proof | None => false end in
  if max_size <? m_size current then
    Ok (push (if safe then Unchanged else Modified e "<oversize>") (set_by_rel (delete (rel_path e)) d))
  else if safe then Ok (push Unchanged (set_by_rel (delete (rel_path e)) d))
  else
    let ob := observe w (abs_path e) in
    let? read := io_context ("stable read " +:+ abs_path e) (read_stable_file (ob_attempts ob) (abs_path e)) in
    let sha := sha256_hex read.1 in
    let d := set_by_rel (delete (rel_path e)) d in
    match persisted with
    | None => Ok (push (Added e) d)
    | Some p =>
        if bool_decide (p_sha256 p <> sha) then Ok (push (Modified e (p_sha256 p)) d)
        else Ok (push Unchanged
          match coarse_timestamp_proof p read.2 (ob_clock ob) with
          | Some proof => add_proof (coarse_timestamp_proof_key project (rel_path e)) proof d
          | None => d
          end)
    end.

Definition diff_entry (project : string) (w : Watch) (d : Diffing) (e : InventoryEntry)
  : res CoreError.Error Diffing :=
  let? current := current_stat w e in
  match skipped_by_rel d !! rel_path e with
  | Some skip =>
      let d := set_skipped (delete (rel_path e)) d in
      if skip_identity_matches skip current max_size then Ok (push Unchanged d)
      else diff_indexed project w e current d
  | None => diff_indexed project w e current d
  end.

Definition persisted_stat (identities : gmap string FileIdentity) (f : FileState) : PersistedStat :=
  let identity := identities !! f_rel_path f in
  {| p_sha256 := f_sha256 f; p_size := f_size f; p_mtime_ns := f_mtime_ns f;
     p_ctime_ns := identity ≫= i_ctime_ns; p_file_id := identity ≫= i_file_id |}.

Definition start_diffing (persisted : list FileState) (skips : list IndexSkip)
    (identities : gmap string FileIdentity) (proofs : gmap string CoarseTimestampProof) : Diffing :=
  let by_rel : gmap string PersistedStat :=
    list_to_map (reverse ((fun f => (f_rel_path f, persisted_stat identities f)) <$> persisted)) in
  let skipped : gmap string IndexSkip :=
    list_to_map (reverse ((fun k => (k_rel_path k, k)) <$> skips)) in
  {| by_rel := by_rel;
     skipped_by_rel := filter (fun x => by_rel !! x.1 = None) skipped;
     coarse_proofs := proofs; coarse_proofs_changed := false; diffs := [] |}.

(** The order of what is left in the two maps is that of no [HashMap], but the
    stable sort by path that follows leaves no trace of it. *)
Definition compute_file_diff (project : string) (w : Watch) (inventory : list InventoryEntry)
  : action CoreError.Error Store (list FileDiff) :=
  let! persisted := stored (list_file_states project) in
  let! persisted_skips := stored (list_index_skips project) in
  let! identities := stored (list_file_identities project) in
  let! proofs := gets read_coarse_timestamp_proofs in
  let! d := lift (try_fold (diff_entry project w) (start_diffing persisted persisted_skips identities proofs) inventory) in
  (if coarse_proofs_changed d then modify (write_coarse_timestamp_proofs (side_written w) (coarse_proofs d)) else ret tt) ;;;
  ret (sort_by (cmp_on rel_of String.compare)
    (diffs d ++ ((fun x => Deleted x.1) <$> map_to_list (by_rel d))
             ++ ((fun x => Deleted x.1) <$> map_to_list (skipped_by_rel d))))%list.

(** ** The update *)

Record ExtractedNode : Type := {
  x_label : string;
  x_name : string;
  x_qualified_name : string;
  x_start_line : Z;
  x_end_line : Z;
  x_properties : string
}.

Context {Language : Type} (language_for_path : string -> Language) (is_supported : Language -> bool)
        (language_name : Language -> string)
        (extract : Language -> list Z -> string -> res CoreError.Error (list ExtractedNode))
        (uni_alnum : RustText.char -> bool).

Definition node_of (project file : string) (n : ExtractedNode) : NewNode :=
  {| n_project := project; n_label := x_label n; n_name := x_name n; n_qualified_name := x_qualified_name n;
     n_file_path := file; n_start_line := x_start_line n; n_end_line := x_end_line n; n_properties := x_properties n |}.

Definition file_row (project : string) (e : InventoryEntry) (lang : Language) (bytes : list Z)
    (m : StableFileMetadata) : FileState :=
  {| f_project := project; f_rel_path := rel_path e; f_language := language_name lang;
     f_sha256 := sha256_hex bytes; f_mtime_ns := default 0 (m_mtime_ns m); f_size := to_i64 (zlen bytes);
     f_parser_version := "tree-sitter-0.25"; f_extractor_version := "greppy-extractor-v1";
     f_last_indexed_generation := 0 |}.

(** [md.len() > max_file_size_bytes()], when [metadata] answers. *)
Definition too_large (r : io StableFileMetadata) : bool :=
  match r with Ok md => max_size <? m_size md | _ => false end.

Definition reindex_entry (project : string) (w : Watch) (e : InventoryEntry) (reindexed : nat)
  : action CoreError.Error Store nat :=
  let lang := language_for_path (abs_path e) in
  if negb (is_supported lang) then ret reindexed
  else if too_large (ob_stat (observe w (abs_path e))) then ret reindexed
  else
    let! read := lift (io_context ("stable read " +:+ abs_path e)
                         (read_stable_file (ob_attempts (observe w (abs_path e))) (abs_path e))) in
    let! nodes := lift (extract lang read.1 (rel_path e)) in
    forM nodes (fun n => stored (zoom graph set_graph (insert_node uni_alnum (node_of project (rel_path e) n)) ;;; ret tt)) ;;;
    stored (upsert_file_state (file_row project e lang read.1 read.2)) ;;;
    stored (upsert_file_identity project (rel_path e)
              {| i_ctime_ns := m_ctime_ns read.2; i_file_id := m_file_id read.2 |}) ;;;
    ret (S reindexed).

Definition apply_diff (project : string) (w : Watch) (reindexed : nat) (x : FileDiff)
  : action CoreError.Error Store nat :=
  match x with
  | Added e | Modified e _ => reindex_entry project w e reindexed
  | Deleted rel => stored (delete_file_state project rel) ;;; ret reindexed
  | Unchanged => ret reindexed
  end.

(** The files are observed once for the diff and once more for the update. *)
Definition incremental_update (project : string) (w w' : Watch) (inventory : list InventoryEntry)
  : action CoreError.Error Store nat :=
  let! diffs := compute_file_diff project w inventory in
  foldM (apply_diff project w') 0%nat diffs.

(** [full_reindex_inner] after the walk: a failure to bump is dropped. *)
Definition reindex (project root : string) (w w' : Watch) (secs : N) (inventory : list InventoryEntry)
  : action CoreError.Error Store (nat * Z) :=
  let! reindexed := incremental_update project w w' inventory in
  let! generation := (fun s => match stored (bump_generation root secs) s with
                               | (Ok g, s') => (Ok g, s')
                               | (Err _, s') => (Ok 0, s')
                               | (Panic, s') => (Panic, s')
                               end) in
  ret (reindexed, generation).
End Diff.
