(* ===== verification/FreshWorld.v ===== *)
(** Files that change over time, as the freshness checks see them.

    A path names an inode at each time; an inode has a content, a modification
    time that anyone may set, and the time of its last change, which only the
    system sets and which it reports as the beginning of the tick of its clock
    in which the change fell.  A stable read finds a consistent content when
    nothing changes while it runs, and may mix several when something does.

    Under these assumptions the stat tier and the cache of content proofs are
    sound for a clock of one nanosecond and for one of one second, and the
    stat tier is not for the clocks in between. *)

From S2P Require Import Prelude Loop CoreError RustStr GraphStore FreshStore FreshText Freshness EditLock GraphDb.
#[local] Open Scope Z_scope.

Record World : Type := {
  ino_at : string -> Z -> Z;
  data : Z -> Z -> list Z;
  mtime_of : Z -> Z -> Z;
  last_change : Z -> Z -> Z
}.

Section World.
Context (sha256_hex : list Z -> string) (q : Z) (w : World).

(** What [fstat] and [metadata] report at a time. *)
Definition tick (t : Z) : Z := q * (t / q).
Definition time_field (t : Z) : option Z := if in_i64 t then Some t else None.
Definition stat_ino (i t : Z) : StableFileMetadata :=
  {| m_size := zlen (data w i t); m_mtime_ns := Some (mtime_of w i t);
     m_ctime_ns := time_field (tick (last_change w i t)); m_file_id := Some i |}.
Definition stat_at (path : string) (t : Z) : StableFileMetadata := stat_ino (ino_at w path t) t.
Definition content (path : string) (t : Z) : list Z := data w (ino_at w path t) t.

(** The clock of the file system: nanoseconds or seconds. *)
Record world_ok : Prop := {
  wo_clock : q = 1 \/ q = COARSE_TIMESTAMP_QUANTUM_NS;
  wo_past : forall i t, last_change w i t <= t;
  wo_still : forall i t u, t <= u -> last_change w i u <= t ->
    data w i t = data w i u /\ mtime_of w i t = mtime_of w i u /\ last_change w i t = last_change w i u;
  wo_mtime : forall i t, (q | mtime_of w i t) /\ in_i64 (mtime_of w i t) = true;
  wo_ino : forall path t, 0 <= ino_at w path t < 2 ^ 64
}.

(** A read of an inode between two times: the content, if that is the same
    all along. *)
Definition read_between (i b a : Z) (bytes : list Z) : Prop :=
  (forall u, b <= u <= a -> data w i u = data w i b) -> bytes = data w i b.

(** What an observation between two times can consist of. *)
Definition attempt_seen (path : string) (t0 t1 : Z) (x : Attempt) : Prop :=
  forall before bytes after, a_before x = Ok before -> a_bytes x = Ok bytes -> a_after x = Ok after ->
  exists o b a, t0 <= o <= b /\ b <= a <= t1 /\
    before = stat_ino (ino_at w path o) b /\ after = stat_ino (ino_at w path o) a /\
    read_between (ino_at w path o) b a bytes.
Record observed (path : string) (t0 t1 : Z) (ob : Observation) : Prop := {
  os_stat : forall m, ob_stat ob = Ok m -> exists u, t0 <= u <= t1 /\ m = stat_at path u;
  os_clock : t0 <= ob_clock ob /\ in_i64 (ob_clock ob) = true;
  os_reads : forall k, attempt_seen path (ob_clock ob) t1 (ob_attempts ob k)
}.

(** The stat that the walk has put into an entry. *)
Definition entry_seen (t0 t1 : Z) (e : InventoryEntry) : Prop :=
  forall size mtime, e_size e = Some size -> e_mtime_ns e = Some mtime ->
  exists u, t0 <= u <= t1 /\
    {| m_size := size; m_mtime_ns := Some mtime; m_ctime_ns := e_ctime_ns e; m_file_id := e_file_id e |} =
    stat_at (abs_path e) u.

(** A row that the stat tier may trust, and an entry of the proof cache. *)
Definition row_ok (T : Z) (p : PersistedStat) : Prop :=
  q = 1 -> has_whole_second_identity p = false ->
  forall c f, p_ctime_ns p = Some c -> p_file_id p = Some f ->
  exists a, a <= T /\ p_sha256 p = sha256_hex (data w f a) /\ last_change w f a = c.

Definition proof_ok (T : Z) (x : CoarseTimestampProof) : Prop :=
  exists b, b <= T /\ c_ctime_ns x + COARSE_TIMESTAMP_QUANTUM_NS <= b /\
    c_sha256 x = sha256_hex (data w (c_file_id x) b) /\
    tick (last_change w (c_file_id x) b) = c_ctime_ns x.

Context (Hw : world_ok).

Lemma q_pos : 0 < q <= COARSE_TIMESTAMP_QUANTUM_NS.
Proof using Hw. destruct (wo_clock Hw) as [-> | ->]; done. Qed.

Lemma tick_range t : tick t <= t < tick t + q.
Proof using Hw. pose proof q_pos. unfold tick. pose proof (Z.div_mod t q). pose proof (Z.mod_pos_bound t q). lia. Qed.

Lemma tick_one t : q = 1 -> tick t = t.
Proof using Hw. intros Hq. unfold tick. rewrite Hq, Z.div_1_r. lia. Qed.

(** An inode whose tick is over has not changed since. *)
Lemma tick_over i b t :
  b <= t -> tick (last_change w i t) + q <= b -> data w i b = data w i t /\ last_change w i b = last_change w i t.
Proof using Hw.
  intros Hbt Hb. pose proof (tick_range (last_change w i t)).
  destruct (wo_still Hw i b t Hbt) as (-> & _ & ->); [lia|done].
Qed.

Lemma identity_matches p cur :
  stat_identity_matches p cur = true <->
  p_mtime_ns p <> 0 /\ p_size p = to_i64 (m_size cur) /\ Some (p_mtime_ns p) = m_mtime_ns cur /\
  p_ctime_ns p = m_ctime_ns cur /\ p_file_id p = m_file_id cur /\
  is_Some (p_ctime_ns p) /\ is_Some (p_file_id p).
Proof using.
  unfold stat_identity_matches. rewrite !andb_true_iff, !bool_decide_eq_true, Z.eqb_eq. split.
  - intros ((((((((? & ?) & ?) & ?) & ?) & ?) & ?) & ?) & ?). done.
  - intros (? & ? & ? & Hc & Hf & Hc' & Hf'). rewrite <- Hc, <- Hf. done.
Qed.

(** What a matching row says about the inode. *)
Lemma identity_of_stat p i t :
  stat_identity_matches p (stat_ino i t) = true ->
  p_file_id p = Some i /\ p_mtime_ns p = mtime_of w i t /\
  p_ctime_ns p = Some (tick (last_change w i t)) /\ in_i64 (tick (last_change w i t)) = true.
Proof using.
  intros (_ & _ & [= Hm] & Hc & Hf & [c Hc'] & _)%identity_matches. simpl in *. unfold time_field in Hc.
  destruct (in_i64 (tick (last_change w i t))); [|congruence]. done.
Qed.

Lemma whole_rem z : Z.rem z COARSE_TIMESTAMP_QUANTUM_NS = 0 <-> (COARSE_TIMESTAMP_QUANTUM_NS | z).
Proof using. by rewrite Z.rem_divide. Qed.

(** With a clock of seconds every identity is a whole-second one. *)
Lemma coarse_whole p i t :
  q = COARSE_TIMESTAMP_QUANTUM_NS -> stat_identity_matches p (stat_ino i t) = true ->
  has_whole_second_identity p = true.
Proof using Hw.
  intros Hq (_ & Hm & Hc & _)%identity_of_stat. unfold has_whole_second_identity. rewrite Hm, Hc, andb_true_iff, !Z.eqb_eq, !whole_rem.
  split; [rewrite <- Hq; apply (wo_mtime Hw)|]. unfold tick. rewrite Hq. by exists (last_change w i t / COARSE_TIMESTAMP_QUANTUM_NS); lia.
Qed.

(** The stat tier: a row that matches the stat of a file has the digest of
    what is in the file. *)
Lemma fast_path_sound T p i t proof :
  row_ok T p -> (forall x, proof = Some x -> proof_ok T x) -> T <= t ->
  stat_fast_path_safe p (stat_ino i t) proof = true -> p_sha256 p = sha256_hex (data w i t).
Proof using Hw.
  intros Hrow Hproof HT. unfold stat_fast_path_safe.
  destruct (stat_identity_matches p (stat_ino i t)) eqn:Hid; simpl; [|done].
  pose proof (identity_of_stat p i t Hid) as (Hf & Hm & Hc & _).
  destruct (has_whole_second_identity p) eqn:Hwhole; simpl.
  - destruct proof as [x|]; [|done]. rewrite !andb_true_iff, !bool_decide_eq_true.
    intros (((((Hsha & _) & _) & Hxc) & Hxf) & _). rewrite Hc in Hxc. rewrite Hf in Hxf.
    injection Hxc as Hxc. injection Hxf as Hxf.
    destruct (Hproof x eq_refl) as (b & HbT & Hb & Hxsha & Hxt). rewrite Hxf in *.
    destruct (tick_over i b t) as [Hd _]; [lia| |by rewrite <- Hsha, Hxsha, Hd].
    pose proof q_pos. lia.
  - intros _. destruct (wo_clock Hw) as [Hq|Hq]; [|by rewrite (coarse_whole p i t Hq Hid) in Hwhole].
    destruct (Hrow Hq Hwhole _ _ Hc Hf) as (a & HaT & Hsha & Hla). rewrite tick_one in Hla by done.
    rewrite Hsha. f_equal. apply (wo_still Hw); [lia|]. rewrite <- Hla. apply (wo_past Hw).
Qed.

(** A stable read that succeeds. *)
Lemma read_attempts_seen path t0 t1 attempts more k bytes m :
  (forall k, attempt_seen path t0 t1 (attempts k)) ->
  read_attempts more k attempts path = Ok (bytes, m) ->
  exists o b a, t0 <= o <= b /\ b <= a <= t1 /\ m = stat_ino (ino_at w path o) a /\
    stat_ino (ino_at w path o) b = stat_ino (ino_at w path o) a /\
    read_between (ino_at w path o) b a bytes /\ m_size m = zlen bytes.
Proof using.
  intros Hatt. revert k. induction more as [|more IH]; intros k; simpl;
    (destruct (a_open (attempts k)) as [[]|?|] eqn:?; simpl; [|done..]);
    (destruct (a_before (attempts k)) as [before|?|] eqn:Hb; simpl; [|done..]);
    (destruct (a_is_file (attempts k)) as [[]|?|] eqn:?; simpl; [|done..]);
    (destruct (a_bytes (attempts k)) as [bs|?|] eqn:Hbs; simpl; [|done..]);
    (destruct (a_after (attempts k)) as [after|?|] eqn:Ha; simpl; [|done..]);
    (destruct (bool_decide (before = after) && (m_size after =? zlen bs)) eqn:Heq; [|try done; by apply IH]);
    intros [= <- <-]; apply andb_true_iff in Heq as [->%bool_decide_eq_true Hlen%Z.eqb_eq];
    destruct (Hatt k _ _ _ Hb Hbs Ha) as (o & b & a & ? & ? & -> & Hst & Hr);
    exists o, b, a; split_and!; lia || done.
Qed.

(** The bytes are the content when no change fell between the two stats. *)
Lemma read_unchanged i b a bytes :
  b <= a -> last_change w i a <= b -> read_between i b a bytes -> bytes = data w i a.
Proof using Hw.
  intros Hba Hl Hr. destruct (wo_still Hw i b a Hba Hl) as (Hd & _ & Hlb). rewrite <- Hd. apply Hr.
  intros u Hu. rewrite Hd. apply (wo_still Hw); lia.
Qed.

Lemma time_field_inj t u : time_field t = time_field u -> is_Some (time_field t) -> t = u.
Proof using. unfold time_field. intros H [x Hx]. destruct (in_i64 t), (in_i64 u); congruence. Qed.

(** A content proof is sound when it is made. *)
Lemma proof_sound p i b a bytes clock x :
  clock <= b -> b <= a -> read_between i b a bytes -> p_sha256 p = sha256_hex bytes ->
  coarse_timestamp_proof p (stat_ino i a) clock = Some x -> proof_ok a x.
Proof using Hw.
  intros Hclock Hba Hr Hsha. unfold coarse_timestamp_proof.
  destruct (has_whole_second_identity p); simpl; [|done].
  destruct (stat_identity_matches p (stat_ino i a)) eqn:Hid; simpl; [|done].
  pose proof (identity_of_stat p i a Hid) as (Hf & _ & Hc & _).
  unfold coarse_bucket_end_ns. rewrite Hc, Hf. simpl. unfold checked_add_i64.
  destruct (in_i64 _); [|done]. case_match eqn:Hlt; [done|]. apply Z.ltb_ge in Hlt. intros [= <-].
  pose proof (tick_range (last_change w i a)). pose proof q_pos.
  exists a. simpl. split_and!; [lia|lia| |done]. rewrite Hsha. f_equal. apply (read_unchanged i b); [done|lia|done].
Qed.

Lemma proof_later T T' x : T <= T' -> proof_ok T x -> proof_ok T' x.
Proof using. intros HT (b & ? & ?). exists b. split; [lia|done]. Qed.
Lemma row_later T T' p : T <= T' -> row_ok T p -> row_ok T' p.
Proof using. intros HT H Hq Hp c f Hc Hf. destruct (H Hq Hp c f Hc Hf) as (a & ? & ?). exists a. split; [lia|done]. Qed.

(** A row that a stable read has made. *)
Lemma row_sound p i b a bytes :
  b <= a -> stat_ino i b = stat_ino i a -> read_between i b a bytes ->
  p_sha256 p = sha256_hex bytes -> p_file_id p = Some i -> p_ctime_ns p = m_ctime_ns (stat_ino i a) -> row_ok a p.
Proof using Hw.
  intros Hba Hst Hr Hsha Hf Hc Hq _ c f Hc' Hf'. rewrite Hf in Hf'. injection Hf' as <-.
  injection Hst as _ _ Hticks. rewrite Hc in Hc'. simpl in Hc'.
  assert (tick (last_change w i b) = tick (last_change w i a)) as Htick
    by (apply time_field_inj; [done|]; rewrite Hticks; by eexists).
  rewrite !tick_one in Htick by done. exists a. split_and!; [lia| |].
  - rewrite Hsha. f_equal. apply (read_unchanged i b); [done| |done]. rewrite <- Htick. apply (wo_past Hw).
  - unfold time_field in Hc'. rewrite tick_one in Hc' by done. destruct (in_i64 _); congruence.
Qed.
End World.

(** The loop of [compute_file_diff] and the writes of [incremental_update], on
    files that change over time. *)

#[local] Open Scope Z_scope.

(** ** Tables by path *)

Lemma project_map {R V} (g : R -> V) (project r : string) (t : gmap (string * string) R) l :
  l ≡ₚ (fun x => (x.1.2, g x.2)) <$> map_to_list (filter (fun x => x.1.1 = project) t) ->
  (list_to_map l : gmap string V) !! r = g <$> t !! (project, r).
Proof.
  intros Hl. set (l0 := map_to_list (filter (fun x => x.1.1 = project) t)) in *.
  assert (forall k v, (k, v) ∈ l0 <-> t !! k = Some v /\ k.1 = project) as Hin.
  { intros k v. unfold l0. by rewrite elem_of_map_to_list, map_lookup_filter_Some. }
  assert (NoDup l.*1) as Hnd.
  { rewrite Hl, <- list_fmap_compose. apply NoDup_fmap_2_strong; [|apply NoDup_map_to_list].
    intros [[p1 r1] v1] [[p2 r2] v2] [H1 ?]%Hin [H2 ?]%Hin; simpl in *. intros ->. by simplify_eq. }
  apply option_eq. intros v. rewrite <- elem_of_list_to_map by done. rewrite Hl, list_elem_of_fmap, fmap_Some. split.
  - intros ([[p r'] x] & Hv & [Hx Hp]%Hin). simpl in *. simplify_eq. eauto.
  - intros (x & Hx & ->). exists ((project, r), x). split; [done|]. by apply Hin.
Qed.

Lemma rows_of_map {R V} (key : R -> string) (g : R -> V) (project r : string) (t : gmap (string * string) R) :
  (forall k x, t !! k = Some x -> key x = k.2) ->
  (list_to_map (reverse ((fun x => (key x, g x)) <$> rows_of key project t)) : gmap string V) !! r =
  g <$> t !! (project, r).
Proof.
  intros Hkey. apply project_map. rewrite reverse_Permutation. unfold rows_of.
  rewrite (sort_by_Permutation (cmp_on key String.compare)), <- list_fmap_compose.
  erewrite list_fmap_ext; [done|]. intros i [k x] Hi%list_elem_of_lookup_2. simpl.
  apply elem_of_map_to_list, map_lookup_filter_Some in Hi as [Hx _]. by rewrite (Hkey k x Hx).
Qed.

Definition identity_at (s : Store) (project r : string) : option FileIdentity :=
  read_identity <$> file_identity s !! (project, r).

(** The row of a path as [compute_file_diff] reads it, and its skip row. *)
Definition row_at (s : Store) (project r : string) : option PersistedStat :=
  (fun f => {| p_sha256 := f_sha256 f; p_size := f_size f; p_mtime_ns := f_mtime_ns f;
               p_ctime_ns := identity_at s project r ≫= i_ctime_ns;
               p_file_id := identity_at s project r ≫= i_file_id |}) <$> file_state s !! (project, r).
Definition skip_at (s : Store) (project r : string) : option IndexSkip :=
  match row_at s project r with
  | Some _ => None
  | None => row_to_index_skip <$> index_skips s !! (project, r)
  end.

(** Rows are found under their own paths. *)
Definition keyed (s : Store) : Prop :=
  (forall k f, file_state s !! k = Some f -> f_rel_path f = k.2) /\
  (forall k x, index_skips s !! k = Some x -> k_rel_path x = k.2).

Section Start.
Context (s : Store) (project : string) (Hkeys : keyed s).

Let persisted := row_to_file_state <$> rows_of f_rel_path project (file_state s).
Let skips := row_to_index_skip <$> rows_of k_rel_path project (index_skips s).
Let identities : gmap string FileIdentity :=
  list_to_map ((fun x => (x.1.2, read_identity x.2)) <$> map_to_list (filter (fun x => x.1.1 = project) (file_identity s))).
Let start := start_diffing persisted skips identities (read_coarse_timestamp_proofs s).

Lemma start_by_rel r : by_rel start !! r = row_at s project r.
Proof using Hkeys.
  unfold start, start_diffing, persisted. simpl. rewrite <- list_fmap_compose.
  etrans; [apply (rows_of_map f_rel_path (fun f => persisted_stat identities (row_to_file_state f)) project r (file_state s));
    intros k f Hf; by apply Hkeys|].
  unfold row_at. destruct (file_state s !! (project, r)) as [f|] eqn:Hf; [|done]. simpl. f_equal.
  unfold persisted_stat. simpl. rewrite (proj1 Hkeys _ _ Hf). simpl.
  assert (identities !! r = identity_at s project r) as ->; [|done].
  unfold identities, identity_at. by apply (project_map read_identity).
Qed.

Lemma start_skipped r : skipped_by_rel start !! r = skip_at s project r.
Proof using Hkeys.
  unfold skip_at. rewrite <- start_by_rel. unfold start, start_diffing. simpl.
  set (b := list_to_map _ : gmap string PersistedStat). unfold skips. rewrite <- list_fmap_compose.
  apply option_eq. intros k. rewrite map_lookup_filter_Some. simpl.
  match goal with |- (?x = _ /\ _) <-> _ => assert (x = row_to_index_skip <$> index_skips s !! (project, r)) as -> end.
  { apply (rows_of_map k_rel_path row_to_index_skip project r (index_skips s)). intros k' x Hx. by apply Hkeys. }
  destruct (b !! r); naive_solver.
Qed.
End Start.

Section Facts.
Context (sha256_hex : list Z -> string) (max_size : Z) (q : Z) (w : World).
Context (Hsha : forall b, solid (sha256_hex b)) (Hw : world_ok q w).

Abbreviation proof_ok := (proof_ok sha256_hex q w).
Abbreviation row_ok := (row_ok sha256_hex q w).
Abbreviation observed := (observed q w).
Abbreviation entry_seen := (entry_seen q w).

(** What a check leaves in the store is sound. *)
Record fresh_ok (T : Z) (s : Store) : Prop := {
  fo_keyed : keyed s;
  fo_rows : forall project r p, row_at s project r = Some p -> row_ok T p;
  fo_proofs : forall k x, read_coarse_timestamp_proofs s !! k = Some x -> proof_ok T x
}.

Lemma fresh_later T T' s : T <= T' -> fresh_ok T s -> fresh_ok T' s.
Proof using.
  intros HT [Hk Hr Hp]. split; [done| |].
  - intros project r p Hrow. eapply row_later; eauto.
  - intros k x Hx. eapply proof_later; eauto.
Qed.

Definition proofs_ok (T : Z) (m : gmap string CoarseTimestampProof) : Prop :=
  forall k x, m !! k = Some x -> proof_ok T x /\ proof_wf (k, x).

Lemma read_proofs_wf s k x : read_coarse_timestamp_proofs s !! k = Some x -> proof_wf (k, x).
Proof using.
  unfold read_coarse_timestamp_proofs. destruct (coarse_timestamp_proof_path s); [|by rewrite lookup_empty].
  destruct (coarseproof s); [apply parse_proofs_wf|by rewrite lookup_empty].
Qed.

(** ** The loop *)

(** The files of an inventory as they are seen between two times. *)
Definition seen (t0 t1 : Z) (watch : Watch) (e : InventoryEntry) : Prop :=
  entry_seen t0 t1 e /\ observed (abs_path e) t0 t1 (observe watch (abs_path e)).

Lemma proof_of_wf p i a clock key x :
  0 <= i < 2 ^ 64 -> in_i64 clock = true -> solid (p_sha256 p) -> solid key ->
  coarse_timestamp_proof p (stat_ino q w i a) clock = Some x -> proof_wf (key, x).
Proof using Hw.
  intros Hi Hclock Hsp Hkey. unfold coarse_timestamp_proof.
  destruct (has_whole_second_identity p); simpl; [|done].
  destruct (stat_identity_matches p (stat_ino q w i a)) eqn:Hid; simpl; [|done].
  pose proof (identity_of_stat q w p i a Hid) as (Hf & Hm & Hc & Hci).
  apply identity_matches in Hid as (_ & Hsz & _). rewrite Hc, Hf.
  destruct (coarse_bucket_end_ns p); [|done]. case_match; [done|]. intros [= <-].
  unfold proof_wf. simpl. split_and!; try done; try lia.
  - rewrite Hsz. apply in_i64_spec. unfold to_i64.
    pose proof (Z.mod_pos_bound (m_size (stat_ino q w i a) + 2 ^ 63) (2 ^ 64)). simpl in *. lia.
  - rewrite Hm. apply (wo_mtime q w Hw).
Qed.

(** The step for a path whose skip row does not settle it adds a verdict,
    removes the row, and at most a sound proof to the cache. *)
Lemma diff_indexed_keeps project watch e cur d d' t0 t1 :
  observed (abs_path e) t0 t1 (observe watch (abs_path e)) -> proofs_ok t1 (coarse_proofs d) ->
  diff_indexed sha256_hex max_size project watch e cur d = Ok d' -> proofs_ok t1 (coarse_proofs d').
Proof using Hsha Hw.
  intros Hob Hd Hrun. unfold diff_indexed in Hrun.
  set (safe := match by_rel d !! rel_path e with Some p => _ | None => false end) in Hrun.
  destruct (max_size <? m_size cur); [by injection Hrun as <-|]. destruct safe; [by injection Hrun as <-|].
  destruct (read_stable_file _ _) as [[bytes m]|?|] eqn:Hread; simpl in Hrun; [|done..].
  apply (read_attempts_seen q w (abs_path e) (ob_clock (observe watch (abs_path e))) t1) in Hread
    as (o & b & a & Ho & Ha & -> & _ & Hr & _); [|intros k; by apply Hob].
  destruct (by_rel d !! rel_path e) as [p|]; [|by injection Hrun as <-].
  case_bool_decide as Hsum; [by injection Hrun as <-|].
  destruct (coarse_timestamp_proof p _ _) as [x|] eqn:Hx; injection Hrun as <-; [|done]. simpl.
  intros k y. rewrite lookup_insert_Some. intros [[<- <-]|[_ Hy]]; [|by apply Hd]. split.
  - eapply proof_later; [|eapply (proof_sound sha256_hex q w Hw p _ b a bytes); eauto; lia]. lia.
  - eapply proof_of_wf; [apply (wo_ino q w Hw)|apply Hob|rewrite Hsum; apply Hsha|apply Hsha|exact Hx].
Qed.

Lemma diff_entry_keeps project watch t0 t1 d e d' :
  seen t0 t1 watch e -> proofs_ok t1 (coarse_proofs d) ->
  diff_entry sha256_hex max_size project watch d e = Ok d' -> proofs_ok t1 (coarse_proofs d').
Proof using Hsha Hw.
  intros [_ Hob] Hd Hrun. unfold diff_entry in Hrun.
  destruct (current_stat watch e) as [cur|?|]; simpl in Hrun; [|done..].
  destruct (skipped_by_rel d !! rel_path e); [destruct (skip_identity_matches _ _ _); [by injection Hrun as <-|]|];
    by eapply diff_indexed_keeps in Hrun.
Qed.

(** ** Quiet files *)

(** Nothing happens to the path and its inode between the two times. *)
Definition quiet (t0 t1 : Z) (path : string) : Prop :=
  last_change w (ino_at w path t1) t1 <= t0 /\ forall u, t0 <= u <= t1 -> ino_at w path u = ino_at w path t1.

(** Every question about the file is answered. *)
Definition answered (ob : Observation) : Prop :=
  is_ok (ob_stat ob) = true /\
  let a := ob_attempts ob 0%nat in
  is_ok (a_open a) = true /\ is_ok (a_before a) = true /\ a_is_file a = Ok true /\
  is_ok (a_bytes a) = true /\ is_ok (a_after a) = true.

Lemma quiet_ino t0 t1 path u :
  quiet t0 t1 path -> t0 <= u <= t1 ->
  stat_ino q w (ino_at w path t1) u = stat_at q w path t1 /\ data w (ino_at w path t1) u = content w path t1.
Proof using Hw.
  intros [Hl _] Hu. destruct (wo_still q w Hw (ino_at w path t1) u t1) as (Hd & Hm & Hc); [lia..|].
  unfold stat_at, stat_ino, content. by rewrite Hd, Hm, Hc.
Qed.

Lemma quiet_stat_at t0 t1 path u : quiet t0 t1 path -> t0 <= u <= t1 -> stat_at q w path u = stat_at q w path t1.
Proof using Hw.
  intros Hq Hu. unfold stat_at at 1. rewrite (proj2 Hq u Hu). by apply (quiet_ino t0 t1 path u).
Qed.

Lemma quiet_current t0 t1 watch e :
  seen t0 t1 watch e -> quiet t0 t1 (abs_path e) -> answered (observe watch (abs_path e)) ->
  current_stat watch e = Ok (stat_at q w (abs_path e) t1).
Proof using Hw.
  intros [He Hob] Hq [Hst _]. unfold current_stat.
  destruct (ob_stat (observe watch (abs_path e))) as [m|?|] eqn:Hm; [|done..].
  destruct (os_stat q w _ _ _ _ Hob m Hm) as (u & Hu & ->).
  assert (io_context (String.append "stat " (abs_path e)) (Ok (stat_at q w (abs_path e) u)) =
    Ok (stat_at q w (abs_path e) t1)) as Hdirect by (simpl; f_equal; by eapply quiet_stat_at).
  destruct (e_size e) as [size|] eqn:Hs; [|done]. destruct (e_mtime_ns e) as [mtime|] eqn:Hmt; [|done].
  destruct (He size mtime Hs Hmt) as (u' & Hu' & ->). f_equal. by eapply quiet_stat_at.
Qed.

Lemma quiet_read t0 t1 path ob :
  observed path t0 t1 ob -> quiet t0 t1 path -> answered ob ->
  read_stable_file (ob_attempts ob) path = Ok (content w path t1, stat_at q w path t1).
Proof using Hw.
  intros Hob Hq (_ & Ho & Hb & Hf & Hbs & Ha). unfold read_stable_file. cbn [read_attempts].
  pose proof (os_reads q w _ _ _ _ Hob 0%nat) as Hatt. pose proof (proj1 (os_clock q w _ _ _ _ Hob)) as Hclock.
  destruct (a_open _) as [[]|?|]; [|done..]. destruct (a_before _) as [before|?|] eqn:Eb; [|done..]. rewrite Hf.
  destruct (a_bytes _) as [bytes|?|] eqn:Ebs; [|done..]. destruct (a_after _) as [after|?|] eqn:Ea; [|done..]. cbn [res_bind negb].
  destruct (Hatt _ _ _ Eb Ebs Ea) as (o & b & a & Ho' & Ha' & -> & -> & Hr).
  rewrite (proj2 Hq o) in * by lia. destruct (quiet_ino t0 t1 path b) as [Hsb Hdb]; [done|lia|].
  destruct (quiet_ino t0 t1 path a) as [Hsa Hda]; [done|lia|]. rewrite Hsb, Hsa, bool_decide_eq_true_2 by done.
  assert (bytes = content w path t1) as ->.
  { rewrite <- Hdb. apply Hr. intros u Hu. rewrite Hdb. apply (quiet_ino t0 t1 path u); [done|lia]. }
  unfold stat_at, content. simpl. by rewrite Z.eqb_refl.
Qed.

(** A file that was set aside and is still taken for the same: the size and
    the modification time are those of its skip row; one that was too large is
    still too large, and one that was set aside for another reason that can
    last (not a limit of the run) is small enough and has, in addition, the
    recorded inode and the recorded tick of its last change. *)
Definition kept_aside (k : IndexSkip) (path : string) (t : Z) : Prop :=
  let i := ino_at w path t in
  let size := zlen (content w path t) in
  k_mtime_ns k <> 0 /\ k_mtime_ns k = mtime_of w i t /\ k_size k = to_i64 size /\
  ((k_reason k = "oversize"%string /\ max_size < size) \/
   (k_reason k ∉ ["oversize"; "file_limit"; "time_budget"]%string /\ size <= max_size /\
    k_ctime_ns k = Some (tick q (last_change w i t)) /\ in_i64 (tick q (last_change w i t)) = true /\
    k_file_id k = Some i)).

#[export] Instance kept_aside_dec k path t : Decision (kept_aside k path t).
Proof. unfold kept_aside. apply _. Defined.

Lemma skip_matches k path t :
  skip_identity_matches k (stat_at q w path t) max_size = bool_decide (kept_aside k path t).
Proof using.
  clear Hsha Hw sha256_hex. apply eq_true_iff_eq. rewrite bool_decide_eq_true. unfold skip_identity_matches, kept_aside, stat_at, stat_ino, content.
  cbn [m_size m_mtime_ns m_ctime_ns m_file_id]. unfold time_field.
  set (i := ino_at w path t). set (size := zlen (data w i t)). set (c := tick q (last_change w i t)).
  destruct (decide (k_mtime_ns k <> 0 /\ k_size k = to_i64 size /\ k_mtime_ns k = mtime_of w i t)) as [(H1 & H2 & H3)|Hno].
  - rewrite !bool_decide_eq_true_2 by (done || congruence). rewrite H2, Z.eqb_refl. cbn [andb negb orb].
    case_bool_decide as Hr.
    + split; [done|]. intros (_ & _ & _ & [[Hr' _]|[Hr' _]]); [rewrite Hr' in Hr; set_solver|set_solver].
    + case_bool_decide as Ho.
      * rewrite Z.ltb_lt. split; [intros; split_and!; auto|]. intros (_ & _ & _ & [[_ ?]|[Hn _]]); [done|set_solver].
      * destruct (max_size <? size) eqn:Hsz; [apply Z.ltb_lt in Hsz|apply Z.ltb_ge in Hsz].
        -- split; [done|]. intros (_ & _ & _ & [[? _]|(_ & ? & _)]); [done|lia].
        -- rewrite !andb_true_iff, !bool_decide_eq_true. split.
           ++ intros (((((_ & Hc) & Hce) & _) & _) & Hf). split_and!; [done..|]. right.
              destruct (in_i64 c); [|by destruct Hc]. split_and!; [set_solver|lia|done..].
           ++ intros (_ & _ & _ & [[? _]|(_ & _ & Hc & Hin & Hf)]); [done|]. rewrite Hin, Hc, Hf. done.
  - assert (bool_decide (k_mtime_ns k <> 0) && (k_size k =? to_i64 size)
            && bool_decide (Some (k_mtime_ns k) = Some (mtime_of w i t)) = false) as ->.
    { apply not_true_is_false. rewrite !andb_true_iff, !bool_decide_eq_true, Z.eqb_eq. intros [[? ?] [=]]. by apply Hno. }
    split; [done|]. intros (? & ? & ? & _). by destruct Hno.
Qed.

(** Unless it was too large, such a file has the content it has had ever since
    the recorded tick of its last change was over. *)
Lemma kept_aside_content k path t c a :
  kept_aside k path t -> k_reason k <> "oversize"%string -> k_ctime_ns k = Some c -> c + q - 1 <= a <= t ->
  data w (ino_at w path t) a = content w path t.
Proof using Hw.
  intros (_ & _ & _ & [[? _]|(_ & _ & Hc & _)]) Hr Hk Ha; [done|]. rewrite Hc in Hk. injection Hk as <-.
  pose proof (tick_range q w Hw (last_change w (ino_at w path t) t)).
  apply (wo_still q w Hw); lia.
Qed.

(** What the verdict about a file is, given its row and its skip row.  A file
    above the size limit is taken for unchanged only when its row has the
    digest of its content, and may be reported as modified all the same. *)
Definition verdict_ok (row : option PersistedStat) (skip : option IndexSkip) (e : InventoryEntry) (t : Z)
    (x : FileDiff) : Prop :=
  let sha := sha256_hex (content w (abs_path e) t) in
  if match skip with Some k => bool_decide (kept_aside k (abs_path e) t) | None => false end then x = Unchanged
  else if max_size <? zlen (content w (abs_path e) t) then
    x = Modified e "<oversize>" \/ (x = Unchanged /\ exists p, row = Some p /\ p_sha256 p = sha)
  else match row with
       | None => x = Added e
       | Some p => x = if decide (p_sha256 p = sha) then Unchanged else Modified e (p_sha256 p)
       end.

(** The state of the loop. *)
Record diffing_ok (t1 : Z) (d : Diffing) : Prop := {
  do_rows : forall r p, by_rel d !! r = Some p -> row_ok t1 p;
  do_proofs : proofs_ok t1 (coarse_proofs d);
  do_apart : forall r, is_Some (skipped_by_rel d !! r) -> by_rel d !! r = None
}.

Lemma diff_indexed_quiet project watch e d t0 t1 :
  diffing_ok t1 d -> observed (abs_path e) t0 t1 (observe watch (abs_path e)) ->
  quiet t0 t1 (abs_path e) -> answered (observe watch (abs_path e)) ->
  exists x ps ch, diff_indexed sha256_hex max_size project watch e (stat_at q w (abs_path e) t1) d =
    Ok {| by_rel := delete (rel_path e) (by_rel d); skipped_by_rel := skipped_by_rel d; coarse_proofs := ps;
          coarse_proofs_changed := ch; diffs := (diffs d ++ [x])%list |} /\
  verdict_ok (by_rel d !! rel_path e) None e t1 x.
Proof using Hw.
  intros [Hrows Hproofs _] Hob Hq Hans. unfold diff_indexed, verdict_ok.
  set (proof := coarse_proofs d !! _). set (cur := stat_at q w (abs_path e) t1).
  change (zlen (content w (abs_path e) t1)) with (m_size cur).
  assert (forall p, by_rel d !! rel_path e = Some p -> stat_fast_path_safe p cur proof = true ->
    p_sha256 p = sha256_hex (content w (abs_path e) t1)) as Hsafe.
  { intros p Hp. apply (fast_path_sound sha256_hex q w Hw t1); [by eapply Hrows| |lia].
    intros x Hx. by eapply Hproofs. }
  destruct (by_rel d !! rel_path e) as [p|] eqn:Hp.
  - destruct (stat_fast_path_safe p cur proof) eqn:Hs; destruct (max_size <? m_size cur).
    + eexists _, _, _. split; [done|]. right. eauto.
    + eexists _, _, _. split; [done|]. rewrite decide_True; auto.
    + eexists _, _, _. split; [done|]. by left.
    + rewrite (quiet_read t0 t1) by done. simpl. case_bool_decide as Hd.
      * eexists _, _, _. split; [done|]. by rewrite decide_False.
      * destruct (coarse_timestamp_proof p _ _); eexists _, _, _; (split; [done|]); by rewrite decide_True.
  - destruct (max_size <? m_size cur); [eexists _, _, _; split; [done|by left]|].
    rewrite (quiet_read t0 t1) by done. simpl. by eexists _, _, _.
Qed.

Lemma diff_entry_quiet project watch t0 t1 d e :
  diffing_ok t1 d -> seen t0 t1 watch e -> quiet t0 t1 (abs_path e) -> answered (observe watch (abs_path e)) ->
  exists x d', diff_entry sha256_hex max_size project watch d e = Ok d' /\ diffing_ok t1 d' /\
    by_rel d' = delete (rel_path e) (by_rel d) /\ skipped_by_rel d' = delete (rel_path e) (skipped_by_rel d) /\
    diffs d' = (diffs d ++ [x])%list /\
    verdict_ok (by_rel d !! rel_path e) (skipped_by_rel d !! rel_path e) e t1 x.
Proof using Hsha Hw.
  intros Hd Hseen Hq Hans.
  assert (forall d', by_rel d' = delete (rel_path e) (by_rel d) -> skipped_by_rel d' = delete (rel_path e) (skipped_by_rel d) ->
    proofs_ok t1 (coarse_proofs d') -> diffing_ok t1 d') as Hnext.
  { intros d' Hb Hs Hp. split; [|done|].
    - intros r p. rewrite Hb. intros [_ Hr]%lookup_delete_Some. by eapply Hd.
    - intros r. rewrite Hb, Hs. rewrite lookup_delete_is_Some. intros [Hne Hr]. rewrite lookup_delete_ne by done. by apply Hd. }
  pose proof (diff_entry_keeps project watch t0 t1 d e) as Hkeep. unfold diff_entry in *.
  rewrite (quiet_current t0 t1) in * by done. cbn [res_bind] in *.
  destruct (skipped_by_rel d !! rel_path e) as [k|] eqn:Hk.
  - assert (by_rel d !! rel_path e = None) as Hnone by (apply Hd; by eexists). unfold verdict_ok.
    rewrite skip_matches in *. destruct (bool_decide (kept_aside k _ _)).
    + eexists _, _. split; [done|]. simpl. rewrite (delete_id (by_rel d)) by done. split_and!; [|done..].
      apply Hnext; simpl; [by rewrite delete_id|done|by apply Hd].
    + destruct (diff_indexed_quiet project watch e (set_skipped (delete (rel_path e)) d) t0 t1) as (x & ps & ch & Hrun & Hv).
      { split; simpl; [apply Hd|apply Hd|]. intros r. rewrite lookup_delete_is_Some. intros [_ Hr]. by apply Hd. }
      { apply Hseen. } { done. } { done. }
      rewrite Hrun. eexists _, _. split; [done|]. simpl in *. split_and!; [|done..].
      apply Hnext; simpl; [done..|]. exact (Hkeep _ Hseen (do_proofs _ _ Hd) Hrun).
  - destruct (diff_indexed_quiet project watch e d t0 t1) as (x & ps & ch & Hrun & Hv); [done|apply Hseen|done|done|].
    rewrite Hrun. eexists _, _. split; [done|]. simpl in *. rewrite (delete_id (skipped_by_rel d)) by done.
    split_and!; [|done..]. apply Hnext; simpl; [done|by rewrite delete_id|].
    exact (Hkeep _ Hseen (do_proofs _ _ Hd) Hrun).
Qed.

(** The files of the inventory are seen, are quiet, and answer. *)
Definition all_quiet (t0 t1 : Z) (watch : Watch) (inventory : list InventoryEntry) : Prop :=
  NoDup (rel_path <$> inventory) /\
  Forall (fun e => seen t0 t1 watch e /\ quiet t0 t1 (abs_path e) /\ answered (observe watch (abs_path e))) inventory.

Lemma diff_loop project watch t0 t1 inventory d :
  diffing_ok t1 d -> all_quiet t0 t1 watch inventory ->
  exists d' xs, try_fold (diff_entry sha256_hex max_size project watch) d inventory = Ok d' /\
    proofs_ok t1 (coarse_proofs d') /\ diffs d' = (diffs d ++ xs)%list /\
    Forall2 (fun e x => verdict_ok (by_rel d !! rel_path e) (skipped_by_rel d !! rel_path e) e t1 x) inventory xs /\
    forall r, by_rel d' !! r = (if decide (r ∈ rel_path <$> inventory) then None else by_rel d !! r) /\
              skipped_by_rel d' !! r = (if decide (r ∈ rel_path <$> inventory) then None else skipped_by_rel d !! r).
Proof using Hsha Hw.
  intros Hd [Hnd Hall]. revert d Hd. induction Hall as [|e inventory (Hseen & Hq & Hans) Hall IH]; intros d Hd.
  - exists d, []. split_and!; [done|apply Hd|by rewrite app_nil_r|done|]. intros r. by rewrite decide_False by (by intros ?%elem_of_nil).
  - apply NoDup_cons in Hnd as [Hfresh Hnd].
    destruct (diff_entry_quiet project watch t0 t1 d e) as (x & d1 & Hrun & Hd1 & Hb & Hs & Hx & Hv); [done..|].
    destruct (IH Hnd d1 Hd1) as (d' & xs & Hrun' & Hp & Hxs & Hvs & Hrest).
    exists d', (x :: xs). cbn [try_fold]. rewrite Hrun. cbn [res_bind]. split_and!; [done|done| | |].
    + by rewrite Hxs, Hx, <- app_assoc.
    + constructor; [done|]. apply Forall2_same_length_lookup in Hvs as [Hlen Hvs].
      apply Forall2_same_length_lookup. split; [done|]. intros i e' x' He' Hx'. specialize (Hvs i e' x' He' Hx').
      apply list_elem_of_lookup_2 in He'. rewrite Hb, Hs in Hvs.
      assert (rel_path e <> rel_path e') as Hne by (intros Heq; apply Hfresh; rewrite Heq; by apply list_elem_of_fmap_2).
      by rewrite !lookup_delete_ne in Hvs.
    + intros r. destruct (Hrest r) as [H1 H2]. rewrite H1, H2, Hb, Hs. rewrite fmap_cons.
      destruct (decide (r = rel_path e)) as [->|Hne].
      * rewrite !lookup_delete_eq. split; repeat case_decide; done || set_solver.
      * rewrite !lookup_delete_ne by done. split; repeat case_decide; done || set_solver.
Qed.
End Facts.
