(* ===== verification/FreshnessSpec.v ===== *)
(** What the freshness checks promise about files that change while the
    program runs: whatever checks and updates have run before, a check of files
    that are at rest reports exactly the ones whose content differs from what
    was indexed, and after an update it reports none that can be indexed. *)

From S2P Require Import Prelude Loop CoreError RustStr EditLock GraphStore GraphDb FreshStore FreshText.
From S2P Require Import Freshness FreshWorld.
#[local] Open Scope Z_scope.

Lemma foldl_inv {A B} (f : A -> B -> A) (P : A -> Prop) l a :
  (forall b x, x ∈ l -> P b -> P (f b x)) -> P a -> P (foldl f a l).
Proof.
  revert a. induction l as [|x l IH]; intros a Hf Ha; [done|]. cbn [foldl]. apply IH; [|apply Hf; [left|done]].
  intros b y Hy. apply Hf. by right.
Qed.
Lemma foldl_reach {A B} (f : A -> B -> A) (P : A -> Prop) l a x :
  x ∈ l -> (forall b, P (f b x)) -> (forall b y, y ∈ l -> P b -> P (f b y)) -> P (foldl f a l).
Proof.
  intros (l1 & l2 & ->)%list_elem_of_split Hx Hf. rewrite foldl_app. cbn [foldl]. apply foldl_inv; [|apply Hx].
  intros b y Hy. apply Hf. set_solver.
Qed.

Section Spec.
Context (sha256_hex : list Z -> string) (max_size : Z) (q : Z) (w : World).
Context (Hsha : forall b, solid (sha256_hex b)) (Hw : world_ok q w).

Abbreviation fresh_ok := (fresh_ok sha256_hex q w).
Abbreviation proofs_ok := (proofs_ok sha256_hex q w).
Abbreviation seen := (seen q w).
Abbreviation all_quiet := (all_quiet q w).
Abbreviation verdict_ok := (verdict_ok sha256_hex max_size q w).
Abbreviation kept_aside := (kept_aside max_size q w).

(** ** The check *)

Definition start_of (s : Store) (project : string) : Diffing :=
  start_diffing (row_to_file_state <$> rows_of f_rel_path project (file_state s))
    (row_to_index_skip <$> rows_of k_rel_path project (index_skips s))
    (list_to_map ((fun x => (x.1.2, read_identity x.2)) <$> map_to_list (filter (fun x => x.1.1 = project) (file_identity s))))
    (read_coarse_timestamp_proofs s).
Definition finish (watch : Watch) (d : Diffing) (s : Store) : Store :=
  if coarse_proofs_changed d then write_coarse_timestamp_proofs (side_written watch) (coarse_proofs d) s else s.
Definition all_diffs (d : Diffing) : list FileDiff :=
  (diffs d ++ ((fun x => Deleted x.1) <$> map_to_list (by_rel d)) ++ ((fun x => Deleted x.1) <$> map_to_list (skipped_by_rel d)))%list.

Lemma compute_run project watch inventory s :
  compute_file_diff sha256_hex max_size project watch inventory s =
  match try_fold (diff_entry sha256_hex max_size project watch) (start_of s project) inventory with
  | Ok d => (Ok (sort_by (cmp_on rel_of String.compare) (all_diffs d)), finish watch d s)
  | Err e => (Err e, s)
  | Panic => (Panic, s)
  end.
Proof using.
  unfold compute_file_diff, start_of, finish. cbn [bind stored list_file_states list_index_skips list_file_identities gets from_store lift].
  destruct (try_fold _ _ _) as [d|e|]; [|done..]. by destruct (coarse_proofs_changed d).
Qed.

(** Only the cache of proofs is written. *)
Lemma finish_tables watch d s : set_coarseproof None (finish watch d s) = set_coarseproof None s.
Proof using.
  unfold finish, write_coarse_timestamp_proofs. destruct (coarse_proofs_changed d); [|done].
  destruct (coarse_timestamp_proof_path s); [|done]. by destruct (side_written watch).
Qed.

Lemma fresh_tables T s s' :
  set_coarseproof None s' = set_coarseproof None s -> fresh_ok T s ->
  (forall k x, read_coarse_timestamp_proofs s' !! k = Some x -> proof_ok sha256_hex q w T x) -> fresh_ok T s'.
Proof using.
  intros [= Hg Hf Hi Hk Hws Hdb Hst] [[Hk1 Hk2] Hrows _] Hp. split; [|done..| |done].
  - split; [by rewrite Hf|by rewrite Hk].
  - intros project r p. unfold row_at, identity_at. rewrite Hf, Hi. apply Hrows.
Qed.

Lemma finish_ok t1 watch d s :
  proofs_ok t1 (coarse_proofs d) -> fresh_ok t1 s -> fresh_ok t1 (finish watch d s).
Proof using.
  intros Hp Hs. apply (fresh_tables t1 s); [apply finish_tables|done|]. unfold finish.
  destruct (coarse_proofs_changed d); [|apply Hs]. unfold write_coarse_timestamp_proofs.
  destruct (coarse_timestamp_proof_path s) as [p|] eqn:Hpath; [|apply Hs]. destruct (side_written watch); [|apply Hs].
  intros k x. unfold read_coarse_timestamp_proofs. change (coarse_timestamp_proof_path (set_coarseproof ?t s))
    with (coarse_timestamp_proof_path s). rewrite Hpath. simpl. rewrite proofs_roundtrip_lemma by (intros k' x' Hx; by apply Hp in Hx as [_ ?]).
  intros Hx. by apply Hp in Hx as [? _].
Qed.

Lemma start_proofs T s project : fresh_ok T s -> proofs_ok T (coarse_proofs (start_of s project)).
Proof using. intros Hs k x Hx. split; [by eapply (fo_proofs _ _ _ _ _ Hs)|by apply (read_proofs_wf s)]. Qed.

(** A check leaves a sound store, whatever happens to the files meanwhile and
    however it ends. *)
Lemma check_keeps project watch inventory t0 t1 s r s' :
  t0 <= t1 -> fresh_ok t0 s -> Forall (seen t0 t1 watch) inventory ->
  compute_file_diff sha256_hex max_size project watch inventory s = (r, s') -> fresh_ok t1 s'.
Proof using Hsha Hw.
  intros Ht Hs Hseen. apply (fresh_later _ _ _ t0 t1) in Hs; [|done]. rewrite compute_run.
  destruct (try_fold _ _ _) as [d|e|] eqn:Hrun; intros [= <- <-]; [|done..]. apply finish_ok; [|done].
  eapply (try_fold_ok_inv (fun d => proofs_ok t1 (coarse_proofs d))); [|by apply start_proofs|exact Hrun].
  intros d0 e d1 He Hp Hd1. rewrite Forall_forall in Hseen.
  by eapply (diff_entry_keeps sha256_hex max_size q w Hsha Hw); [apply Hseen| |].
Qed.

(** What a check of quiet files reports: a verdict for each file, and the
    paths that are recorded but gone. *)
Definition exact_report (s : Store) (project : string) (t1 : Z) (inventory : list InventoryEntry) (ds : list FileDiff) : Prop :=
  exists xs gone,
    Forall2 (fun e x => verdict_ok (row_at s project (rel_path e)) (skip_at s project (rel_path e)) e t1 x) inventory xs /\
    ds ≡ₚ xs ++ (Deleted <$> gone) /\ NoDup gone /\
    forall r, r ∈ gone <-> r ∉ rel_path <$> inventory /\
      (is_Some (row_at s project r) \/ is_Some (index_skips s !! (project, r))).

Lemma check_exact_lemma project watch inventory t0 t1 s :
  t0 <= t1 -> fresh_ok t0 s -> all_quiet t0 t1 watch inventory ->
  exists ds s', compute_file_diff sha256_hex max_size project watch inventory s = (Ok ds, s') /\
    set_coarseproof None s' = set_coarseproof None s /\ fresh_ok t1 s' /\ exact_report s project t1 inventory ds.
Proof using Hsha Hw.
  intros Ht Hs Hq. pose proof (fresh_later _ _ _ t0 t1 _ Ht Hs) as Hs1.
  assert (forall r, by_rel (start_of s project) !! r = row_at s project r /\
                    skipped_by_rel (start_of s project) !! r = skip_at s project r) as Hstart
    by (intros r; split; [apply start_by_rel, Hs|apply start_skipped, Hs]).
  destruct (diff_loop sha256_hex max_size q w Hsha Hw project watch t0 t1 inventory (start_of s project))
    as (d & xs & Hrun & Hp & Hxs & Hvs & Hrest); [|done|].
  { split.
    - intros r p. rewrite (proj1 (Hstart r)). apply Hs1.
    - by apply start_proofs.
    - intros r. rewrite (proj1 (Hstart r)), (proj2 (Hstart r)). unfold skip_at. by destruct (row_at s project r); [intros [? ?]|]. }
  eexists _, _. rewrite compute_run, Hrun. split; [done|]. split; [apply finish_tables|]. split; [by apply finish_ok|].
  exists xs, ((map_to_list (by_rel d)).*1 ++ (map_to_list (skipped_by_rel d)).*1). split_and!.
  - eapply Forall2_impl; [exact Hvs|]. intros e x Hv. cbn beta in Hv.
    by rewrite (proj1 (Hstart (rel_path e))), (proj2 (Hstart (rel_path e))) in Hv.
  - rewrite sort_by_Permutation. unfold all_diffs. rewrite Hxs, fmap_app, <- !list_fmap_compose. done.
  - apply NoDup_app. split_and!; [apply NoDup_fst_map_to_list| |apply NoDup_fst_map_to_list].
    intros r [[r1 p] [-> H1%elem_of_map_to_list]]%list_elem_of_fmap [[r2 k] [Heq H2%elem_of_map_to_list]]%list_elem_of_fmap.
    simpl in Heq. subst r2. simpl in *. destruct (Hrest r1) as [E1 E2]. rewrite E1 in H1. rewrite E2 in H2. case_decide; [done|].
    rewrite (proj1 (Hstart r1)) in H1. rewrite (proj2 (Hstart r1)) in H2. unfold skip_at in H2. by rewrite H1 in H2.
  - intros r. assert (forall A (m : gmap string A), r ∈ (map_to_list m).*1 <-> is_Some (m !! r)) as Hdom.
    { intros A m. rewrite list_elem_of_fmap. split.
      - intros ([r' x] & -> & ?%elem_of_map_to_list). by eexists.
      - intros [x Hx]. exists (r, x). split; [done|]. by apply elem_of_map_to_list. }
    rewrite elem_of_app, !Hdom. destruct (Hrest r) as [-> ->]. rewrite (proj1 (Hstart r)), (proj2 (Hstart r)).
    unfold skip_at. destruct (decide (r ∈ rel_path <$> inventory)); [by split; [intros [[]|[]]|intros []]|].
    destruct (row_at s project r); [naive_solver|]. rewrite fmap_is_Some. naive_solver.
Qed.

(** The entries of a report are entries of the inventory. *)
Definition entry_of (x : FileDiff) : option InventoryEntry :=
  match x with Added e | Modified e _ => Some e | _ => None end.

Lemma diff_entry_pushes project watch d e d' :
  diff_entry sha256_hex max_size project watch d e = Ok d' ->
  exists x, diffs d' = (diffs d ++ [x])%list /\ (entry_of x = None \/ entry_of x = Some e).
Proof using.
  assert (forall cur d0 d1, diff_indexed sha256_hex max_size project watch e cur d0 = Ok d1 ->
    exists x, diffs d1 = (diffs d0 ++ [x])%list /\ (entry_of x = None \/ entry_of x = Some e)) as Hind.
  { intros cur d0 d1. unfold diff_indexed. set (safe := match by_rel d0 !! _ with Some p => _ | None => false end).
    destruct (max_size <? m_size cur); [intros [= <-]; eexists; (split; [done|]); destruct safe; simpl; eauto|].
    destruct safe; [intros [= <-]; eexists; split; [done|by left]|].
    destruct (read_stable_file _ _) as [[bytes m]|?|]; simpl; [|done..].
    destruct (by_rel d0 !! rel_path e) as [p|]; [|intros [= <-]; eexists; split; [done|by right]].
    case_bool_decide; [intros [= <-]; eexists; split; [done|by right]|].
    destruct (coarse_timestamp_proof _ _ _); intros [= <-]; eexists; (split; [done|by left]). }
  unfold diff_entry. destruct (current_stat watch e) as [cur|?|]; simpl; [|done..].
  destruct (skipped_by_rel d !! rel_path e); [|apply Hind].
  destruct (skip_identity_matches _ _ _); [intros [= <-]; eexists; split; [done|by left]|].
  exact (Hind cur (set_skipped (delete (rel_path e)) d) d').
Qed.

Lemma report_entries project watch inventory s ds s' x e :
  compute_file_diff sha256_hex max_size project watch inventory s = (Ok ds, s') ->
  x ∈ ds -> entry_of x = Some e -> e ∈ inventory.
Proof using.
  rewrite compute_run. destruct (try_fold _ _ _) as [d|?|] eqn:Hrun; [|done..]. intros [= <- _].
  rewrite elem_of_sort_by. unfold all_diffs. rewrite !elem_of_app, !list_elem_of_fmap.
  intros Hx Hxe. destruct Hx as [Hx|[(? & -> & _)|(? & -> & _)]]; [|done..]. revert x e Hx Hxe.
  apply (try_fold_ok_inv (fun d => forall x e, x ∈ diffs d -> entry_of x = Some e -> e ∈ inventory)
           (diff_entry sha256_hex max_size project watch) inventory (start_of s project) d); [|by intros ? ? ?%elem_of_nil|done].
  intros d0 e d1 He IH Hd1 x e' . destruct (diff_entry_pushes _ _ _ _ _ Hd1) as (y & -> & Hy).
  rewrite elem_of_app, list_elem_of_singleton. intros [Hx| ->] Hxe; [by eapply IH|]. destruct Hy; congruence.
Qed.

(** ** The update *)

Section Update.
Context {Language : Type} (language_for_path : string -> Language) (is_supported : Language -> bool)
        (language_name : Language -> string)
        (extract : Language -> list Z -> string -> res CoreError.Error (list ExtractedNode))
        (uni_alnum : RustText.char -> bool).

Abbreviation reindex_entry := (reindex_entry sha256_hex max_size language_for_path is_supported language_name extract uni_alnum).
Abbreviation apply_diff := (apply_diff sha256_hex max_size language_for_path is_supported language_name extract uni_alnum).
Abbreviation incremental_update :=
  (incremental_update sha256_hex max_size language_for_path is_supported language_name extract uni_alnum).

(** Stores that differ in the graph and the workspace rows only. *)
Definition same_files (s s' : Store) : Prop :=
  file_state s' = file_state s /\ file_identity s' = file_identity s /\ index_skips s' = index_skips s /\
  db_path s' = db_path s /\ coarseproof s' = coarseproof s.

#[local] Instance same_files_preorder : PreOrder same_files.
Proof.
  split; [done|]. intros s1 s2 s3 (H1 & H2 & H3 & H4 & H5) (K1 & K2 & K3 & K4 & K5). split_and!; congruence.
Qed.

Lemma same_rows s s' project r : same_files s s' -> row_at s' project r = row_at s project r.
Proof using. intros (H1 & H2 & _). unfold row_at, identity_at. by rewrite H1, H2. Qed.

Lemma fresh_same T s s' : same_files s s' -> fresh_ok T s -> fresh_ok T s'.
Proof using.
  intros Hsame [[Hk1 Hk2] Hrows Hp]. pose proof Hsame as (H1 & H2 & H3 & H4 & H5). split.
  - split; [by rewrite H1|by rewrite H3].
  - intros project r p. rewrite (same_rows s s') by done. apply Hrows.
  - intros k x. unfold read_coarse_timestamp_proofs, coarse_timestamp_proof_path. rewrite H4, H5. apply Hp.
Qed.

Lemma insert_nodes_same project e nodes :
  keeps same_files (forM nodes (fun n => stored (zoom graph set_graph
    (insert_node uni_alnum (node_of project (rel_path e) n)) ;;; ret tt))).
Proof using.
  apply keeps_forM; [apply _|]. intros n s r s'. unfold stored, bind, zoom.
  destruct (insert_node _ _ _) as [[i|?|] g]; intros [= <- <-]; done.
Qed.

Lemma to_u64_i64 i : 0 <= i < 2 ^ 64 -> to_u64 (to_i64 i) = i.
Proof using.
  intros Hi. unfold to_u64, to_i64. destruct (decide (i < 2 ^ 63)).
  - rewrite (Z.mod_small (i + 2 ^ 63)) by lia. rewrite Z.mod_small; lia.
  - rewrite <- (Z.mod_unique (i + 2 ^ 63) (2 ^ 64) 1 (i - 2 ^ 63)) by lia.
    rewrite <- (Z.mod_unique (i - 2 ^ 63 - 2 ^ 63) (2 ^ 64) (-1) i); lia.
Qed.

(** The row that a file gets. *)
Definition new_row (bytes : list Z) (m : StableFileMetadata) : PersistedStat :=
  {| p_sha256 := sha256_hex bytes; p_size := to_i64 (zlen bytes); p_mtime_ns := default 0 (m_mtime_ns m);
     p_ctime_ns := m_ctime_ns m; p_file_id := (fun i => to_u64 (to_i64 i)) <$> m_file_id m |}.

Definition put_file (project : string) (e : InventoryEntry) (bytes : list Z) (m : StableFileMetadata) (s : Store) : Store :=
  set_file_identity <[(project, rel_path e) := {| i_ctime_ns := m_ctime_ns m; i_file_id := to_i64 <$> m_file_id m |}]>
    (set_file_state <[(project, rel_path e) :=
       file_columns (file_row sha256_hex language_name project e (language_for_path (abs_path e)) bytes m)]> s).

Lemma put_file_row project e bytes m s project' r :
  row_at (put_file project e bytes m s) project' r =
  if decide ((project', r) = (project, rel_path e)) then Some (new_row bytes m) else row_at s project' r.
Proof using.
  unfold row_at, identity_at, put_file. simpl. destruct (decide _) as [[= -> ->]|Hne].
  - rewrite !lookup_insert_eq. simpl. unfold new_row. by destruct (m_file_id m).
  - by rewrite !lookup_insert_ne.
Qed.

(** [reindex_entry] leaves the files as they are, or records the file as it
    was read. *)
Lemma reindex_run project watch e n s r s' :
  reindex_entry project watch e n s = (r, s') ->
  (exists s1, same_files s s1 /\ s' = s1 /\
     (is_ok r = true -> is_supported (language_for_path (abs_path e)) = false \/
        too_large max_size (ob_stat (observe watch (abs_path e))) = true)) \/
  (exists s1 bytes m, same_files s s1 /\ s' = put_file project e bytes m s1 /\
     is_supported (language_for_path (abs_path e)) = true /\
     too_large max_size (ob_stat (observe watch (abs_path e))) = false /\
     read_stable_file (ob_attempts (observe watch (abs_path e))) (abs_path e) = Ok (bytes, m)).
Proof using.
  unfold Freshness.reindex_entry. set (lang := language_for_path (abs_path e)).
  destruct (is_supported lang) eqn:Hl; simpl; [|intros [= <- <-]; left; exists s; split; [reflexivity|split; auto]].
  destruct (too_large _ _) eqn:Hbig; [intros [= <- <-]; left; exists s; split; [reflexivity|split; auto]|].
  destruct (read_stable_file _ _) as [[bytes m]|?|] eqn:Hread; simpl;
    [|intros [= <- <-]; left; exists s; (split; [reflexivity|done])..].
  unfold bind at 1. cbn [lift fst snd]. unfold bind at 1. cbn [lift].
  destruct (extract lang bytes (rel_path e)) as [nodes|?|]; [|intros [= <- <-]; left; exists s; (split; [reflexivity|done])..].
  unfold bind at 1. destruct (forM nodes _ s) as [[u|?|] s1] eqn:Hins;
    apply insert_nodes_same in Hins; [|intros [= <- <-]; left; by exists s1..].
  unfold bind at 1, stored at 1, upsert_file_state, atomically, bind at 1, gets, guard.
  destruct (has_project _ _); cbn; [|intros [= <- <-]; left; by exists s1].
  unfold bind at 1, stored, upsert_file_identity, bind at 1, gets, guard. cbn.
  rewrite lookup_insert_eq, bool_decide_eq_true_2 by (by eexists). cbn. intros [= <- <-]. right.
  by exists s1, bytes, m.
Qed.

Lemma put_file_keeps T project e bytes m s :
  fresh_ok T s -> row_ok sha256_hex q w T (new_row bytes m) -> fresh_ok T (put_file project e bytes m s).
Proof using.
  intros [[Hk1 Hk2] Hrows Hp] Hnew. split; [split; [|done]| |done].
  - intros k f. simpl. rewrite lookup_insert_Some. intros [[<- <-]|[_ Hf]]; [done|by apply Hk1].
  - intros project' r p. rewrite put_file_row. case_decide; [by intros [= <-]|apply Hrows].
Qed.

Lemma reindex_keeps project watch e n t0 t1 s r s' :
  seen t0 t1 watch e -> fresh_ok t1 s -> reindex_entry project watch e n s = (r, s') -> fresh_ok t1 s'.
Proof using Hw.
  intros [_ Hob] Hs [(s1 & Hsame & -> & _)|(s1 & bytes & m & Hsame & -> & _ & _ & Hread)]%reindex_run; [by eapply fresh_same|].
  apply put_file_keeps; [by eapply fresh_same|].
  apply (read_attempts_seen q w (abs_path e) (ob_clock (observe watch (abs_path e))) t1) in Hread
    as (o & b & a & Ho & Ha & -> & Hst & Hr & _); [|intros k; by apply Hob].
  apply (row_later _ _ _ a); [lia|]. eapply (row_sound sha256_hex q w Hw); [|exact Hst|exact Hr|done| |done]; [lia|].
  simpl. by rewrite to_u64_i64 by apply (wo_ino q w Hw).
Qed.

Definition drop_file (project rel : string) (s : Store) : Store :=
  set_file_state (delete (project, rel)) (set_file_identity (delete (project, rel)) s).

Lemma drop_file_row project rel s project' r :
  row_at (drop_file project rel s) project' r =
  if decide ((project', r) = (project, rel)) then None else row_at s project' r.
Proof using.
  unfold row_at, identity_at, drop_file. simpl. destruct (decide _) as [[= -> ->]|Hne].
  - by rewrite !lookup_delete_eq.
  - by rewrite !lookup_delete_ne.
Qed.

Lemma drop_file_keeps T project rel s : fresh_ok T s -> fresh_ok T (drop_file project rel s).
Proof using.
  intros [[Hk1 Hk2] Hrows Hp]. split; [split; [|done]| |done].
  - intros k f. simpl. rewrite lookup_delete_Some. intros [_ Hf]. by apply Hk1.
  - intros project' r p. rewrite drop_file_row. case_decide; [done|apply Hrows].
Qed.

Lemma apply_keeps project watch n x t0 t1 s r s' :
  (forall e, entry_of x = Some e -> seen t0 t1 watch e) -> fresh_ok t1 s ->
  apply_diff project watch n x s = (r, s') -> fresh_ok t1 s'.
Proof using Hw.
  intros Hx Hs. destruct x as [e|e old|rel|]; simpl.
  - eapply reindex_keeps; [by apply Hx|done].
  - eapply reindex_keeps; [by apply Hx|done].
  - intros [= <- <-]. by apply (drop_file_keeps t1 project rel).
  - by intros [= <- <-].
Qed.

(** An update leaves a sound store, whatever happens to the files meanwhile
    and however it ends. *)
Lemma update_keeps project watch watch' inventory t0 t1 t2 s r s' :
  t0 <= t1 <= t2 -> fresh_ok t0 s -> Forall (seen t0 t1 watch) inventory -> Forall (seen t1 t2 watch') inventory ->
  incremental_update project watch watch' inventory s = (r, s') -> fresh_ok t2 s'.
Proof using Hsha Hw.
  intros Ht Hs Hseen Hseen'. unfold Freshness.incremental_update, bind.
  destruct (compute_file_diff _ _ _ _ _ _) as [r1 s1] eqn:Hrun.
  pose proof (check_keeps project watch inventory t0 t1 s r1 s1 (proj1 Ht) Hs Hseen Hrun) as Hs1.
  apply (fresh_later _ _ _ t1 t2) in Hs1; [|lia]. destruct r1 as [ds|?|]; [|by intros [= <- <-]..].
  assert (forall x e, x ∈ ds -> entry_of x = Some e -> seen t1 t2 watch' e) as Hds.
  { intros x e Hx Hxe. rewrite Forall_forall in Hseen'. by eapply Hseen', report_entries. }
  clear Hrun. revert s1 Hs1. generalize 0%nat. induction ds as [|x ds IH]; intros n s1 Hs1; cbn [foldM]; [by intros [= <- <-]|].
  unfold bind. destruct (apply_diff project watch' n x s1) as [r2 s2] eqn:Hx.
  assert (fresh_ok t2 s2) as Hs2 by (eapply apply_keeps; [|exact Hs1|exact Hx]; intros e; apply Hds; left).
  destruct r2; [|by intros [= <- <-]..]. apply IH; [|done]. intros y e Hy. apply Hds. by right.
Qed.

(** ** Histories

    Checks and updates at any times, on whatever files there are then, with any
    outcome; skip rows come and go. *)
Inductive history : Z -> Store -> Prop :=
| history_start T s : keyed s -> file_state s = ∅ -> coarseproof s = None -> history T s
| history_later T T' s s' : T <= T' -> same_files s s' -> history T s -> history T' s'
| history_check T t0 t1 project watch inventory s r s' :
    T <= t0 <= t1 -> Forall (seen t0 t1 watch) inventory -> history T s ->
    compute_file_diff sha256_hex max_size project watch inventory s = (r, s') -> history t1 s'
| history_update T t0 t1 t2 project watch watch' inventory s r s' :
    T <= t0 <= t1 -> t1 <= t2 -> Forall (seen t0 t1 watch) inventory -> Forall (seen t1 t2 watch') inventory ->
    history T s -> incremental_update project watch watch' inventory s = (r, s') -> history t2 s'
| history_skip T k s r s' : history T s -> upsert_index_skip k s = (r, s') -> history T s'
| history_unskip T project rel s r s' : history T s -> delete_index_skip project rel s = (r, s') -> history T s'.

Lemma history_ok T s : history T s -> fresh_ok T s.
Proof using Hsha Hw.
  induction 1 as [T s Hk Hf Hc|T T' s s' HT Hsame _ IH|T t0 t1 project watch inventory s r s' Ht Hseen _ IH Hrun
    |T t0 t1 t2 project watch watch' inventory s r s' Ht Ht2 Hseen Hseen' _ IH Hrun
    |T k s r s' _ [[Hk1 Hk2] Hr Hp] Hrun|T project rel s r s' _ [[Hk1 Hk2] Hr Hp] Hrun].
  - split; [done| |].
    + intros project r p. unfold row_at. by rewrite Hf, lookup_empty.
    + intros k x. unfold read_coarse_timestamp_proofs. rewrite Hc.
      destruct (coarse_timestamp_proof_path s); by rewrite lookup_empty.
  - eapply fresh_later, fresh_same; [|exact Hsame|exact IH]. done.
  - eapply check_keeps; [|eapply fresh_later; [|exact IH]|exact Hseen|exact Hrun]; lia.
  - eapply update_keeps; [|eapply fresh_later; [|exact IH]|exact Hseen|exact Hseen'|exact Hrun]; lia.
  - unfold upsert_index_skip, atomically, bind, gets, guard in Hrun. destruct (has_project _ _); injection Hrun as <- <-; [|by split].
    split; [split; [done|]|done|done]. intros k' x. simpl. rewrite lookup_insert_Some. intros [[<- <-]|[_ Hx]]; [done|by apply Hk2].
  - injection Hrun as <- <-. split; [split; [done|]|done|done]. intros k' x. simpl. rewrite lookup_delete_Some. intros [_ Hx]. by apply Hk2.
Qed.

(** C8: A check of files at rest, whatever checks and updates were made before
    while the files were changing, ends and gives every file exactly one
    verdict.  A file up to the size limit that is not kept aside is reported
    as modified exactly when its content differs from the one it was indexed
    with, as added when no row has its path, and not at all otherwise.  A file
    whose skip row still has its size and modification time, and its change
    tick and inode unless it was skipped for its size, is left alone, whatever
    its content.  A file above the limit is left alone only when its row has
    the digest of its content, and may be reported as modified all the same.
    A path is reported as deleted exactly when it has a row or a skip row and
    is not among the files.  Nothing but the cache of content proofs is
    written. *)
Theorem check_exact project watch inventory t0 t1 s :
  t0 <= t1 -> history t0 s -> all_quiet t0 t1 watch inventory ->
  exists ds s', compute_file_diff sha256_hex max_size project watch inventory s = (Ok ds, s') /\
    set_coarseproof None s' = set_coarseproof None s /\ exact_report s project t1 inventory ds.
Proof using Hsha Hw.
  intros Ht Hs%history_ok Hq. destruct (check_exact_lemma project watch inventory t0 t1 s Ht Hs Hq) as (ds & s' & ? & ? & _ & ?).
  eauto.
Qed.

(** ** Settling *)

(** A file that the update can record. *)
Definition indexable (t : Z) (e : InventoryEntry) : bool :=
  is_supported (language_for_path (abs_path e)) && negb (max_size <? zlen (content w (abs_path e) t)).

Definition watched (t0 t1 : Z) (watch : Watch) (inventory : list InventoryEntry) : Prop :=
  Forall (fun e => seen t0 t1 watch e /\ answered (observe watch (abs_path e))) inventory.

(** What applying a difference does to the row of a path. *)
Definition effect (t : Z) (r : string) (o : option PersistedStat) (x : FileDiff) : option PersistedStat :=
  match x with
  | Added e | Modified e _ =>
      if decide (rel_path e = r /\ indexable t e = true)
      then Some (new_row (content w (abs_path e) t) (stat_at q w (abs_path e) t)) else o
  | Deleted r' => if decide (r' = r) then None else o
  | Unchanged => o
  end.

Lemma reindex_quiet project watch e n t0 t1 s n' s' :
  seen t0 t1 watch e -> answered (observe watch (abs_path e)) -> quiet w t0 t1 (abs_path e) ->
  reindex_entry project watch e n s = (Ok n', s') ->
  index_skips s' = index_skips s /\ forall r, row_at s' project r = effect t1 r (row_at s project r) (Added e).
Proof using Hw.
  intros [_ Hob] Hans Hq Hrun.
  assert (too_large max_size (ob_stat (observe watch (abs_path e))) = (max_size <? zlen (content w (abs_path e) t1))) as Hbig.
  { pose proof (proj1 Hans) as Hok. destruct (ob_stat (observe watch (abs_path e))) as [m|?|] eqn:Hm; [|done..].
    destruct (os_stat q w _ _ _ _ Hob m Hm) as (u & Hu & ->). unfold too_large.
    by rewrite (quiet_stat_at q w Hw t0 t1 (abs_path e) u Hq Hu). }
  unfold effect, indexable. rewrite <- Hbig.
  apply reindex_run in Hrun as [(s1 & Hsame & -> & Hno)|(s1 & bytes & m & Hsame & -> & -> & -> & Hread)].
  - split; [apply Hsame|]. intros r. rewrite (same_rows s s1) by done.
    rewrite decide_False; [done|]. destruct (Hno eq_refl) as [-> | ->]; [by intros [_ ?]|by rewrite andb_false_r; intros [_ ?]].
  - split; [apply Hsame|]. intros r. rewrite put_file_row, (same_rows s s1) by done.
    rewrite (quiet_read q w Hw t0 t1) in Hread by done. injection Hread as <- <-. repeat case_decide; naive_solver.
Qed.

Lemma apply_quiet project watch n x t0 t1 s n' s' :
  (forall e, entry_of x = Some e -> seen t0 t1 watch e /\ answered (observe watch (abs_path e)) /\ quiet w t0 t1 (abs_path e)) ->
  apply_diff project watch n x s = (Ok n', s') ->
  index_skips s' = index_skips s /\ forall r, row_at s' project r = effect t1 r (row_at s project r) x.
Proof using Hw.
  intros Hx. destruct x as [e|e old|rel|]; simpl.
  - destruct (Hx e eq_refl) as (? & ? & ?). by eapply reindex_quiet.
  - destruct (Hx e eq_refl) as (? & ? & ?). by eapply reindex_quiet.
  - intros [= <- <-]. split; [done|]. intros r. pose proof (drop_file_row project rel s project r) as Hd.
    unfold drop_file in Hd. simpl in Hd. etrans; [exact Hd|]. repeat case_decide; naive_solver.
  - by intros [= <- <-].
Qed.

Lemma fold_quiet project watch t0 t1 ds n s n' s' :
  (forall x e, x ∈ ds -> entry_of x = Some e ->
    seen t0 t1 watch e /\ answered (observe watch (abs_path e)) /\ quiet w t0 t1 (abs_path e)) ->
  foldM (apply_diff project watch) n ds s = (Ok n', s') ->
  index_skips s' = index_skips s /\ forall r, row_at s' project r = foldl (effect t1 r) (row_at s project r) ds.
Proof using Hw.
  revert n s. induction ds as [|x ds IH]; intros n s Hds; cbn [foldM]; [by intros [= <- <-]|].
  intros (n1 & s1 & H1 & H2)%bind_ok_inv.
  apply (apply_quiet project watch n x t0 t1) in H1 as [Hk1 Hr1]; [|intros e; apply Hds; left].
  apply IH in H2 as [Hk2 Hr2]; [|intros y e Hy; apply Hds; by right]. split; [congruence|].
  intros r. cbn [foldl]. by rewrite Hr2, Hr1.
Qed.

Lemma quiet_sub t0 t3 a b path : t0 <= a <= b -> b <= t3 -> quiet w t0 t3 path ->
  quiet w a b path /\ content w path b = content w path t3 /\ stat_at q w path b = stat_at q w path t3.
Proof using Hw.
  intros Hab Hb Hq. pose proof Hq as [Hl Hi]. assert (ino_at w path b = ino_at w path t3) as Hib by (apply Hi; lia).
  destruct (quiet_ino q w Hw t0 t3 path b Hq) as [Hs Hd]; [lia|].
  destruct (wo_still q w Hw (ino_at w path t3) b t3) as (_ & _ & Hlb); [lia..|].
  split_and!; [split| |]; unfold content, stat_at in *; rewrite ?Hib; [lia| |done|done].
  intros u Hu. apply Hi. lia.
Qed.

Lemma verdict_entry row skip e t x : verdict_ok row skip e t x -> x = Unchanged \/ entry_of x = Some e.
Proof using.
  unfold FreshWorld.verdict_ok. destruct (match skip with Some k => _ | None => false end); [by left|].
  case_match; [intros [-> | [-> _]]; auto|]. destruct row as [p|]; [case_decide|]; intros ->; auto.
Qed.

Lemma report_cases s project t inventory ds x :
  exact_report s project t inventory ds -> x ∈ ds ->
  (exists e, e ∈ inventory /\ verdict_ok (row_at s project (rel_path e)) (skip_at s project (rel_path e)) e t x) \/
  (exists r, x = Deleted r /\ r ∉ rel_path <$> inventory /\
     (is_Some (row_at s project r) \/ is_Some (index_skips s !! (project, r)))).
Proof using.
  intros (xs & gone & Hvs & Hperm & _ & Hgone). rewrite Hperm, elem_of_app. intros [Hx|Hx].
  - left. apply list_elem_of_lookup in Hx as [i Hi]. destruct (Forall2_lookup_r _ _ _ _ _ Hvs Hi) as (e & He & Hv).
    exists e. split; [by eapply list_elem_of_lookup_2|done].
  - right. apply list_elem_of_fmap in Hx as (r & -> & Hr). exists r. split; [done|]. by apply Hgone.
Qed.

Lemma report_verdict s project t inventory ds e :
  exact_report s project t inventory ds -> e ∈ inventory ->
  exists x, x ∈ ds /\ verdict_ok (row_at s project (rel_path e)) (skip_at s project (rel_path e)) e t x.
Proof using.
  intros (xs & gone & Hvs & Hperm & _). intros [i Hi]%list_elem_of_lookup.
  destruct (Forall2_lookup_l _ _ _ _ _ Hvs Hi) as (x & Hx & Hv). exists x. split; [|done].
  rewrite Hperm, elem_of_app. left. by eapply list_elem_of_lookup_2.
Qed.

(** The row has the digest of what is in the file. *)
Definition recorded (t : Z) (e : InventoryEntry) (o : option PersistedStat) : Prop :=
  exists p, o = Some p /\ p_sha256 p = sha256_hex (content w (abs_path e) t).

Section Settle.
Context (project : string) (inventory : list InventoryEntry) (s : Store) (t1 t2 : Z) (ds : list FileDiff).
Context (Hnd : NoDup (rel_path <$> inventory)) (Hrep : exact_report s project t1 inventory ds).

Lemma same_entry e e' : e ∈ inventory -> e' ∈ inventory -> rel_path e = rel_path e' -> e = e'.
Proof using Hnd.
  intros [i Hi]%list_elem_of_lookup [j Hj]%list_elem_of_lookup Heq.
  assert (i = j) as ->; [|congruence]. eapply (NoDup_lookup _ i j); [exact Hnd|by rewrite list_lookup_fmap, Hi|].
  by rewrite list_lookup_fmap, Hj, Heq.
Qed.

Lemma effect_recorded e o y :
  e ∈ inventory -> y ∈ ds -> recorded t2 e o -> recorded t2 e (effect t2 (rel_path e) o y).
Proof using Hnd Hrep.
  intros He Hy Ho. destruct (report_cases _ _ _ _ _ y Hrep Hy) as [(e' & He' & Hv)|(r & -> & Hr & _)]; simpl.
  - apply verdict_entry in Hv as [-> |Hye]; [done|]. destruct y as [e''|e'' old|r|]; simplify_eq/=;
      (case_decide as Hd; [|done]); rewrite <- (same_entry e e' He He' (eq_sym (proj1 Hd))); by eexists.
  - rewrite decide_False; [done|]. intros ->. apply Hr. by apply list_elem_of_fmap_2.
Qed.

Lemma effect_absent r o y : r ∉ rel_path <$> inventory -> y ∈ ds -> o = None -> effect t2 r o y = None.
Proof using Hrep.
  intros Hr Hy ->. destruct (report_cases _ _ _ _ _ y Hrep Hy) as [(e' & He' & Hv)|(r' & -> & _)]; simpl; [|by case_decide].
  apply verdict_entry in Hv as [-> |Hye]; [done|].
  destruct y as [e''|e'' old|r'|]; simplify_eq/=; (case_decide as Hd; [|done]); destruct Hr; destruct Hd as [<- _];
    by apply list_elem_of_fmap_2.
Qed.

(** After the update a gone path has no row. *)
Lemma gone_dropped r : r ∉ rel_path <$> inventory -> foldl (effect t2 r) (row_at s project r) ds = None.
Proof using Hrep.
  intros Hr. destruct (row_at s project r) as [p|] eqn:Hrow.
  - pose proof Hrep as (xs & gone & _ & Hperm & _ & Hgone).
    apply (foldl_reach _ (fun o => o = None) _ _ (Deleted r)).
    + rewrite Hperm, elem_of_app. right. apply list_elem_of_fmap_2, Hgone. split; [done|]. left. by rewrite Hrow.
    + intros b. simpl. by rewrite decide_True.
    + intros b y Hy. by apply effect_absent.
  - apply (foldl_inv _ (fun o => o = None)); [|done]. intros b y Hy. by apply effect_absent.
Qed.

(** A file that can be indexed has its row, unless its skip row keeps it out. *)
Lemma file_recorded e :
  e ∈ inventory -> indexable t2 e = true -> content w (abs_path e) t1 = content w (abs_path e) t2 ->
  let o := foldl (effect t2 (rel_path e)) (row_at s project (rel_path e)) ds in
  recorded t2 e o \/
  (o = None /\ exists k, skip_at s project (rel_path e) = Some k /\ kept_aside k (abs_path e) t1).
Proof using Hnd Hrep.
  intros He Hi Hsame. cbn zeta. destruct (report_verdict _ _ _ _ _ e Hrep He) as (x & Hx & Hv).
  unfold FreshWorld.verdict_ok in Hv. pose proof Hi as [_ Hsmall%negb_true_iff]%andb_true_iff.
  rewrite Hsame, Hsmall in Hv. assert (forall b y, y ∈ ds -> recorded t2 e b -> recorded t2 e (effect t2 (rel_path e) b y)) as Hkeep
    by (intros b y; by apply effect_recorded).
  assert (forall b y, entry_of y = Some e -> recorded t2 e (effect t2 (rel_path e) b y)) as Hset.
  { intros b y Hy. destruct y; simplify_eq/=; rewrite decide_True by done; by eexists. }
  assert (match row_at s project (rel_path e) with
          | None => x = Added e
          | Some p => x = if decide (p_sha256 p = sha256_hex (content w (abs_path e) t2)) then Unchanged else Modified e (p_sha256 p)
          end -> recorded t2 e (foldl (effect t2 (rel_path e)) (row_at s project (rel_path e)) ds)) as Hdone.
  { destruct (row_at s project (rel_path e)) as [p|] eqn:Hrow; [case_decide|]; intros ->.
    - apply foldl_inv; [done|]. by exists p.
    - by eapply foldl_reach; [exact Hx|intros b; by apply Hset|].
    - by eapply foldl_reach; [exact Hx|intros b; by apply Hset|]. }
  unfold skip_at in *. destruct (row_at s project (rel_path e)) as [p|] eqn:Hrow; [left; by apply Hdone|].
  destruct (row_to_index_skip <$> index_skips s !! (project, rel_path e)) as [k|] eqn:Hk; [|left; by apply Hdone].
  destruct (decide (kept_aside k (abs_path e) t1)) as [Hmatch|Hmatch];
    [|rewrite bool_decide_eq_false_2 in Hv by done; left; by apply Hdone].
  destruct (foldl _ None ds) as [p|] eqn:Hfold; [left|right; eauto].
  destruct (foldl_inv (effect t2 (rel_path e)) (fun o => o = None \/ recorded t2 e o) ds None) as [H|H]; [| by left | by rewrite Hfold in H | by rewrite Hfold in H].
  intros b y Hy [-> |Hb]; [|right; by apply Hkeep]. destruct (effect t2 (rel_path e) None y) as [p'|] eqn:Heff; [right|by left].
  destruct (report_cases _ _ _ _ _ y Hrep Hy) as [(e' & He' & Hv')|(r & -> & _)]; [|by simpl in Heff; case_decide].
  apply verdict_entry in Hv' as [-> |Hye]; [done|]. rewrite <- Heff.
  assert (rel_path e' = rel_path e) as Hre by (destruct y; simplify_eq/=; case_decide; naive_solver).
  apply Hset. by rewrite (same_entry e e').
Qed.
End Settle.

Lemma watched_quiet t0 t1 watch inventory :
  NoDup (rel_path <$> inventory) -> watched t0 t1 watch inventory ->
  Forall (fun e => quiet w t0 t1 (abs_path e)) inventory -> all_quiet t0 t1 watch inventory.
Proof using.
  intros Hnd Hwat Hq. split; [done|]. unfold watched in Hwat. rewrite Forall_forall in *. intros e He. destruct (Hwat e He). auto.
Qed.

Lemma settled_verdict project s s' t2 t3 e x :
  indexable t2 e = true -> content w (abs_path e) t3 = content w (abs_path e) t2 ->
  index_skips s' = index_skips s ->
  recorded t2 e (row_at s' project (rel_path e)) \/
  (row_at s' project (rel_path e) = None /\ exists k, skip_at s project (rel_path e) = Some k /\
     kept_aside k (abs_path e) t3) ->
  verdict_ok (row_at s' project (rel_path e)) (skip_at s' project (rel_path e)) e t3 x -> x = Unchanged.
Proof using.
  intros [_ Hsmall%negb_true_iff]%andb_true_iff Hsame Hskips Hcase Hv. unfold FreshWorld.verdict_ok in Hv.
  rewrite Hsame, Hsmall in Hv.
  destruct Hcase as [(p & Hp & Hsum)|(Hnone & k & Hk & Hm)]; unfold skip_at in *.
  - rewrite Hp in Hv. by rewrite decide_True in Hv.
  - rewrite Hnone in Hv. rewrite Hskips in Hv. destruct (row_at s project (rel_path e)); [done|]. rewrite Hk in Hv.
    by rewrite bool_decide_eq_true_2 in Hv.
Qed.

(** C9: An update settles: when it has succeeded and the files have been at
    rest from its start to the end of the next check, that check reports none
    of the files that can be indexed, and no file that was recorded and is
    gone; what it still reports is a file in an unsupported language or above
    the size limit, or a gone path that has a skip row. *)
Theorem update_settles project watch watch' watch'' inventory t0 t1 t2 t3 s n s' :
  t0 <= t1 <= t2 -> t2 <= t3 -> history t0 s -> NoDup (rel_path <$> inventory) ->
  Forall (fun e => quiet w t0 t3 (abs_path e)) inventory ->
  watched t0 t1 watch inventory -> watched t1 t2 watch' inventory -> watched t2 t3 watch'' inventory ->
  incremental_update project watch watch' inventory s = (Ok n, s') ->
  exists ds s'', compute_file_diff sha256_hex max_size project watch'' inventory s' = (Ok ds, s'') /\
    forall x, x ∈ ds -> x = Unchanged \/
      (exists e, e ∈ inventory /\ entry_of x = Some e /\ indexable t3 e = false) \/
      (exists r, x = Deleted r /\ r ∉ rel_path <$> inventory /\ is_Some (index_skips s !! (project, r))).
Proof using Hsha Hw.
  intros Ht Ht3 Hs%history_ok Hnd Hquiet Hw1 Hw2 Hw3 Hrun. rewrite Forall_forall in Hquiet.
  assert (forall a b, t0 <= a <= b -> b <= t3 -> Forall (fun e => quiet w a b (abs_path e)) inventory) as Hsub.
  { intros a b Hab Hb. apply Forall_forall. intros e He. by apply (quiet_sub t0 t3 a b (abs_path e) Hab Hb), Hquiet. }
  assert (forall b e, t0 <= b <= t3 -> e ∈ inventory ->
    content w (abs_path e) b = content w (abs_path e) t3 /\ stat_at q w (abs_path e) b = stat_at q w (abs_path e) t3) as Hsame.
  { intros b e Hb He. apply (quiet_sub t0 t3 t0 b (abs_path e)); [lia|lia|]. by apply Hquiet. }
  assert (forall a b wt, watched a b wt inventory -> Forall (seen a b wt) inventory) as Hseen
    by (intros a b wt Hwt; eapply Forall_impl; [exact Hwt|]; by intros e []).
  pose proof (update_keeps project watch watch' inventory t0 t1 t2 s (Ok n) s' Ht Hs (Hseen _ _ _ Hw1) (Hseen _ _ _ Hw2) Hrun) as Hs'.
  destruct (check_exact_lemma project watch inventory t0 t1 s) as (ds1 & s1 & Hrun1 & Htab & _ & Hrep1);
    [lia|done|apply watched_quiet; [done|done|apply Hsub; lia]|].
  destruct (check_exact_lemma project watch'' inventory t2 t3 s') as (ds & s'' & Hrun3 & _ & _ & Hrep);
    [lia|done|apply watched_quiet; [done|done|apply Hsub; lia]|].
  exists ds, s''. split; [done|]. intros x Hx. unfold Freshness.incremental_update, bind in Hrun. rewrite Hrun1 in Hrun.
  apply (fold_quiet project watch' t1 t2) in Hrun as [Hskips Hrows].
  2: { intros y e Hy Hye. pose proof (report_entries _ _ _ _ _ _ y e Hrun1 Hy Hye) as He.
       pose proof (proj1 (Forall_forall _ _) Hw2 e He) as [? ?]. split_and!; [done|done|].
       apply (proj1 (Forall_forall _ _) (Hsub t1 t2 ltac:(lia) ltac:(lia)) e He). }
  assert (forall r, row_at s1 project r = row_at s project r) as Hrow1
    by (injection Htab as _ Hf Hi _ _ _ _; intros r; unfold row_at, identity_at; by rewrite Hf, Hi).
  assert (index_skips s' = index_skips s) as Hsk by (injection Htab as _ _ _ Hk _ _ _; congruence).
  destruct (report_cases _ _ _ _ _ x Hrep Hx) as [(e & He & Hv)|(r & -> & Hr & Hrec)].
  - destruct (indexable t3 e) eqn:Hi; [left|by apply verdict_entry in Hv as [? |?]; [left|right; left; eauto]].
    destruct (Hsame t1 e ltac:(lia) He) as [Hc1 Hst1]. destruct (Hsame t2 e ltac:(lia) He) as [Hc2 _].
    assert (indexable t2 e = true) as Hi2 by (unfold indexable in *; by rewrite Hc2).
    apply (settled_verdict project s s' t2 t3 e x Hi2); [by rewrite Hc2|done| |done].
    rewrite Hrows, Hrow1.
    destruct (file_recorded project inventory s t1 t2 ds1 Hnd Hrep1 e He Hi2) as [?|(Hn & k & Hk & Hm)]; [congruence|by left|].
    right. split; [done|]. exists k. split; [done|]. apply (bool_decide_eq_true_2 _) in Hm.
    rewrite <- skip_matches, Hst1, skip_matches in Hm. by apply bool_decide_eq_true in Hm.
  - right. right. exists r. split_and!; [done|done|]. destruct Hrec as [Hrec|Hrec]; [|by rewrite <- Hsk].
    rewrite Hrows, Hrow1, (gone_dropped project inventory s t1 t2 ds1 Hrep1 r Hr) in Hrec. by destruct Hrec.
Qed.
End Update.
End Spec.

(** ** A file that changes once

    One file of the project [p], which is [[1]] until second 100 and [[2]]
    from then on, on a clock of seconds. *)

Module Rust.
Inductive Language : Type := RustLang | Other.
Definition language_for_path (p : string) : Language := if bool_decide (p = "/r/a.rs"%string) then RustLang else Other.
Definition is_supported (l : Language) : bool := match l with RustLang => true | Other => false end.
Definition name (l : Language) : string := "rust"%string.
Definition extract (l : Language) (b : list Z) (p : string) : res CoreError.Error (list ExtractedNode) :=
  Ok [{| x_label := "Function"; x_name := "f"; x_qualified_name := "a.f"; x_start_line := 1; x_end_line := 1;
         x_properties := "{}" |}]%string.
Definition no_alnum (c : RustText.char) : bool := false.
End Rust.

Module Once.
#[local] Open Scope string_scope.
#[local] Open Scope Z_scope.

Definition second : Z := 1000000000.
Definition change : Z := 100 * second.
Definition world : World :=
  {| ino_at := fun _ _ => 1; data := fun _ t => if t <? change then [1] else [2];
     mtime_of := fun _ t => if t <? change then second else change;
     last_change := fun _ t => if t <? second then t else if t <? change then second else change |}.

Lemma world_good : world_ok second world.
Proof.
  assert (second > 0) by done. assert (second < change) by done.
  split; [by right|..]; simpl.
  - intros _ t. repeat (case_match; rewrite ?Z.ltb_lt, ?Z.ltb_ge in *); lia.
  - intros _ t u Htu. repeat (case_match; rewrite ?Z.ltb_lt, ?Z.ltb_ge in *); intros ?; split_and!; lia || done.
  - intros _ t. case_match; (split; [|done]); [by exists 1|by exists 100].
  - lia.
Qed.

(** The digest of the demonstration, which is without blanks. *)
Definition sha (b : list Z) : string := "h" +:+ show_N (Z.to_N (foldr Z.add 0 b)).
Lemma sha_solid b : solid (sha b).
Proof. split; [done|]. simpl. apply show_N_solid. Qed.

Definition entry : InventoryEntry :=
  {| rel_path := "a.rs"; abs_path := "/r/a.rs"; e_size := None; e_mtime_ns := None; e_ctime_ns := None; e_file_id := None |}.

(** Everything is seen at one time. *)
Definition at_time (t : Z) : Watch :=
  let m := stat_ino second world 1 t in
  {| observe := fun _ => {| ob_stat := Ok m; ob_clock := t;
       ob_attempts := fun _ => {| a_open := Ok tt; a_before := Ok m; a_is_file := Ok true;
                                  a_bytes := Ok (data world 1 t); a_after := Ok m |} |};
     side_written := true |}.

Lemma at_time_seen t t0 t1 : in_i64 t = true -> t0 <= t <= t1 -> seen second world t0 t1 (at_time t) entry.
Proof.
  intros Ht Hr. split; [done|]. split; simpl.
  - intros m [= <-]. exists t. split; [lia|done].
  - split; [lia|done].
  - intros k before bytes after [= <-] [= <-] [= <-]. exists t, t, t. split_and!; try lia; try done.
Qed.
Lemma at_time_all t t0 t1 :
  in_i64 t = true -> t0 <= t <= t1 -> Forall (seen second world t0 t1 (at_time t)) [entry].
Proof. intros ? ?. constructor; [by apply at_time_seen|constructor]. Qed.
Lemma at_time_answers t : answered (observe (at_time t) (abs_path entry)).
Proof. done. Qed.

Definition empty_graph : Db :=
  {| projects := {["p" := {| p_name := "p"; p_indexed_at := "x"; p_root_path := "/r" |}]}; nodes := ∅; node_seq := 0;
     edges := ∅; edge_seq := 0; nodes_fts := ∅; vectors := ∅; vector_seq := 0 |}.
Definition empty : Store :=
  {| graph := empty_graph; file_state := ∅; file_identity := ∅; index_skips := ∅; workspace_state := ∅;
     db_path := Some "/s/graph.db"; coarseproof := None; freshstamp := None |}.

Definition check (t : Z) : action CoreError.Error Store (list FileDiff) :=
  compute_file_diff sha MAX_FILE_SIZE_BYTES "p" (at_time t) [entry].
Definition update (t t' : Z) : action CoreError.Error Store nat :=
  incremental_update sha MAX_FILE_SIZE_BYTES Rust.language_for_path Rust.is_supported Rust.name Rust.extract Rust.no_alnum
    "p" (at_time t) (at_time t') [entry].
Definition indexed : Store := Eval vm_compute in (update (10 * second) (11 * second) empty).2.
Definition proved : Store := Eval vm_compute in (check (20 * second) indexed).2.
Definition settled : Store := Eval vm_compute in (update (200 * second) (300 * second) proved).2.

(** Indexed at second 10 and proved at second 20, the file is unchanged at
    second 30 without a read, and modified at second 200. *)
Example life :
  (update (10 * second) (11 * second) empty).1 = Ok 1%nat /\ coarseproof indexed = None /\
  (check (20 * second) indexed).1 = Ok [Unchanged] /\ is_Some (coarseproof proved) /\
  (check (30 * second) proved).1 = Ok [Unchanged] /\
  (check (200 * second) proved).1 = Ok [Modified entry "h1"].
Proof. vm_compute. by split_and!; try eexists. Qed.

Definition history := (history sha MAX_FILE_SIZE_BYTES second world
  Rust.language_for_path Rust.is_supported Rust.name Rust.extract Rust.no_alnum).

Lemma empty_history t : history t empty.
Proof. apply history_start; [|done..]. split; intros k x H; simpl in H; by rewrite lookup_empty in H. Qed.

Lemma proved_history : history (20 * second) proved.
Proof.
  eapply (history_check _ _ _ _ _ _ _ _ _ (11 * second) (20 * second) (20 * second) "p" (at_time (20 * second)) [entry] indexed).
  - done.
  - by apply at_time_all.
  - eapply (history_update _ _ _ _ _ _ _ _ _ 0 (10 * second) (10 * second) (11 * second) "p" (at_time (10 * second))
      (at_time (11 * second)) [entry] empty); [done|done|by apply at_time_all..|apply empty_history|].
    vm_compute. reflexivity.
  - vm_compute. reflexivity.
Qed.

Lemma quiet_after t0 t1 path : change <= t0 <= t1 -> quiet world t0 t1 path.
Proof.
  intros Ht. assert (second < change) by done. split; [|done]. simpl.
  repeat (case_match; rewrite ?Z.ltb_lt, ?Z.ltb_ge in *); lia.
Qed.
End Once.

Lemma check_exact_witness :
  exists ds s', Once.check (200 * Once.second) Once.proved = (Ok ds, s') /\
    set_coarseproof None s' = set_coarseproof None Once.proved /\
    exact_report Once.sha MAX_FILE_SIZE_BYTES Once.second Once.world Once.proved "p" (200 * Once.second) [Once.entry] ds.
Proof.
  apply (check_exact Once.sha MAX_FILE_SIZE_BYTES Once.second Once.world Once.sha_solid Once.world_good
    Rust.language_for_path Rust.is_supported Rust.name Rust.extract Rust.no_alnum
    "p" (Once.at_time (200 * Once.second)) [Once.entry] (200 * Once.second) (200 * Once.second) Once.proved); [lia| |].
  - eapply (history_later _ _ _ _ _ _ _ _ _ _ _ Once.proved); [|by split_and!|apply Once.proved_history]. done.
  - split; [apply NoDup_singleton|]. constructor; [|constructor]. split_and!; [by apply Once.at_time_seen|by apply Once.quiet_after|apply Once.at_time_answers].
Defined.

Lemma update_settles_witness :
  exists ds s'', Once.check (400 * Once.second) Once.settled = (Ok ds, s'') /\
    forall x, x ∈ ds -> x = Unchanged \/
      (exists e, e ∈ [Once.entry] /\ entry_of x = Some e /\
         indexable MAX_FILE_SIZE_BYTES Once.world Rust.language_for_path Rust.is_supported (400 * Once.second) e = false) \/
      (exists r, x = Deleted r /\ r ∉ rel_path <$> [Once.entry] /\ is_Some (index_skips Once.proved !! ("p"%string, r))).
Proof.
  apply (update_settles Once.sha MAX_FILE_SIZE_BYTES Once.second Once.world Once.sha_solid Once.world_good
    Rust.language_for_path Rust.is_supported Rust.name Rust.extract Rust.no_alnum "p" (Once.at_time (200 * Once.second))
    (Once.at_time (300 * Once.second)) (Once.at_time (400 * Once.second)) [Once.entry] (200 * Once.second)
    (200 * Once.second) (300 * Once.second) (400 * Once.second) Once.proved 1%nat Once.settled).
  - done.
  - done.
  - eapply (history_later _ _ _ _ _ _ _ _ _ _ _ Once.proved); [|by split_and!|apply Once.proved_history]. done.
  - apply NoDup_singleton.
  - constructor; [by apply Once.quiet_after|constructor].
  - constructor; [split; [by apply Once.at_time_seen|apply Once.at_time_answers]|constructor].
  - constructor; [split; [by apply Once.at_time_seen|apply Once.at_time_answers]|constructor].
  - constructor; [split; [by apply Once.at_time_seen|apply Once.at_time_answers]|constructor].
  - vm_compute. reflexivity.
Defined.

(** ** Clocks between the two

    On a file system whose clock advances every four milliseconds, a file that
    is rewritten within the tick in which it was indexed has the same stat
    identity, which is not a whole second: the stat tier takes it for
    unchanged. *)
Theorem tick_clock_misses :
  let q := 4000000 in
  exists (w : World) a t,
    a < t /\ (forall i u, last_change w i u <= u) /\
    (forall i u v, u <= v -> last_change w i v <= u -> data w i u = data w i v /\ last_change w i u = last_change w i v) /\
    let p := new_row Once.sha (data w 1 a) (stat_ino q w 1 a) in
    stat_fast_path_safe p (stat_ino q w 1 t) None = true /\ p_sha256 p <> Once.sha (data w 1 t).
Proof.
  set (w := {| ino_at := fun _ _ => 1; data := fun _ t => if t <? 5000000 then [1] else [2]; mtime_of := fun _ _ => 4000000;
       last_change := fun _ t => if t <? 4000001 then t else if t <? 5000000 then 4000001 else 5000000 |}).
  exists w, 4000010, 6000000. split_and!; [lia| | |by vm_compute; split].
  - intros i t. simpl. repeat (case_match; rewrite ?Z.ltb_lt, ?Z.ltb_ge in *); lia.
  - intros i u v Huv. simpl. repeat (case_match; rewrite ?Z.ltb_lt, ?Z.ltb_ge in *); intros ?; split; lia || done.
Qed.
