(* ===== verification/FreshCheck.v ===== *)
(** Whether an index is fresh (crates/freshness/src/fingerprint.rs): the git
    fingerprint of the workspace against the recorded one, then the files, with
    a stamp that spares both for a while.

    What [GitFingerprint::capture], [Path::canonicalize], the walk and the
    clocks answer is an argument; so is the [Debug] text of an optional string,
    which only appears inside reasons.  Whether a budget is exceeded is one
    boolean for each place that asks. *)

From S2P Require Import Prelude Loop CoreError RustStr RustText EditLock GraphStore FreshStore FreshText Freshness.
#[local] Open Scope string_scope.

Record WorkspaceFingerprint : Type := {
  canonical_root : string;
  fp_git_dir : option string;
  fp_git_common_dir : option string;
  fp_head_oid : option string;
  fp_index_signature : option string
}.

Inductive FreshnessOutcome : Type :=
| Cold
| Fresh
| Stale (reasons : list string)
| Unknown (reasons : list string)
| RootMismatch.

#[export] Instance outcome_eq_dec : EqDecision FreshnessOutcome.
Proof. solve_decision. Defined.

#[export] Instance path_component_dec : EqDecision Component.
Proof. solve_decision. Defined.

(** Equality of paths is equality of their components. *)
Definition path_eqb (a b : string) : bool := bool_decide (components a = components b).

(** [ORDER BY updated_at DESC LIMIT 50]; rows with the same stamp in any order. *)
Definition recent_states (s : Store) : list WorkspaceState :=
  row_to_workspace_state <$>
    take 50 (sort_by (cmp_desc (cmp_on w_updated_at String.compare)) (map_to_list (workspace_state s)).*2).

Fixpoint find_state (p : WorkspaceState -> bool) (l : list WorkspaceState) : option WorkspaceState :=
  match l with [] => None | x :: l => if p x then Some x else find_state p l end.

Definition stored_git_path_matches (stored current : option string) : bool :=
  match stored, current with
  | None, None => true
  | Some stored, Some current => path_eqb stored current
  | _, _ => false
  end.

Definition metadata_only_reasons (reasons : list string) : bool :=
  match reasons with [] => false | _ => true end
  && forallb (fun reason =>
       starts_with "git_dir changed" reason || starts_with "git_common_dir changed" reason
       || starts_with "head_oid changed" reason || starts_with "index signature changed" reason) reasons.

Section Check.
Context (canonicalize : string -> option string) (debug : option string -> string).

(** [pa.canonicalize().ok() == pb.canonicalize().ok()] holds of two paths that
    do not exist. *)
Definition opt_path_eqb (a b : option string) : bool :=
  match a, b with
  | Some a, Some b => path_eqb a b
  | None, None => true
  | _, _ => false
  end.

Definition paths_match (a b : string) : bool :=
  path_eqb a b || opt_path_eqb (canonicalize a) (canonicalize b)
  || path_eqb a (default b (canonicalize b)).

Definition fingerprint_matches (fp : WorkspaceFingerprint) (ws : WorkspaceState) (expected_indexer_version : string) : bool :=
  let other_root := w_root_path ws in
  let roots_match := path_eqb (canonical_root fp) other_root
                     || path_eqb (canonical_root fp) (default other_root (canonicalize other_root)) in
  roots_match
  && stored_git_path_matches (w_git_dir ws) (fp_git_dir fp)
  && stored_git_path_matches (w_git_common_dir ws) (fp_git_common_dir fp)
  && bool_decide (fp_head_oid fp = w_head_oid ws)
  && bool_decide (fp_index_signature fp = w_index_signature ws)
  && bool_decide (w_indexer_version ws = expected_indexer_version).

Definition changed_text (what : string) (was now : option string) : string :=
  what +:+ " changed (was " +:+ debug was +:+ ", now " +:+ debug now +:+ ")".

Definition stale_reasons (persisted : WorkspaceState) (current : WorkspaceFingerprint) (expected : string) : list string :=
  ((if stored_git_path_matches (w_git_dir persisted) (fp_git_dir current) then []
    else [changed_text "git_dir" (w_git_dir persisted) (fp_git_dir current)])
   ++ (if stored_git_path_matches (w_git_common_dir persisted) (fp_git_common_dir current) then []
       else [changed_text "git_common_dir" (w_git_common_dir persisted) (fp_git_common_dir current)])
   ++ (if decide (w_head_oid persisted = fp_head_oid current) then []
       else [changed_text "head_oid" (w_head_oid persisted) (fp_head_oid current)])
   ++ (if decide (w_index_signature persisted = fp_index_signature current) then []
       else [changed_text "index signature" (w_index_signature persisted) (fp_index_signature current)])
   ++ (if decide (w_indexer_version persisted = expected) then []
       else ["indexer version/scope changed (was " +:+ w_indexer_version persisted +:+ ", expected " +:+ expected +:+ ")"]))%list.

(** [check_with_overrides]; [late] is whether the query took too long. *)
Definition check_with_overrides (late : bool) (current : WorkspaceFingerprint) (overrides : WalkOverrides) (s : Store)
  : FreshnessOutcome :=
  let expected := expected_indexer_version overrides in
  let row := find_state (fun x => paths_match (w_root_path x) (canonical_root current)) (recent_states s) in
  if late then Unknown ["budget exceeded"]
  else match row with
       | None => Cold
       | Some persisted =>
           if negb (paths_match (w_root_path persisted) (canonical_root current)) then RootMismatch
           else if fingerprint_matches current persisted expected then Fresh
           else Stale (stale_reasons persisted current expected)
       end.

(** The four fields that [refresh_fingerprint_metadata] sets, and the time. *)
Definition refreshed (current : WorkspaceFingerprint) (secs : N) (w : WorkspaceState) : WorkspaceState :=
  {| w_root_path := w_root_path w; w_git_dir := fp_git_dir current; w_git_common_dir := fp_git_common_dir current;
     w_head_oid := fp_head_oid current; w_index_signature := fp_index_signature current;
     w_schema_version := w_schema_version w; w_indexer_version := w_indexer_version w;
     w_graph_generation := w_graph_generation w; w_updated_at := now_iso8601 secs |}.

Definition refresh_fingerprint_metadata (late late' : bool) (secs : N) (current : WorkspaceFingerprint)
    (overrides : WalkOverrides) : action CoreError.Error Store bool :=
  let! outcome := gets (check_with_overrides late current overrides) in
  match outcome with
  | Stale reasons =>
      if negb (metadata_only_reasons reasons) then ret false
      else
        let! rows := stored list_workspace_states in
        match find_state (fun row => paths_match (w_root_path row) (canonical_root current)) rows with
        | None => ret false
        | Some persisted =>
            stored (upsert_workspace_state (refreshed current secs persisted)) ;;;
            let! after := gets (check_with_overrides late' current overrides) in
            ret (bool_decide (after = Fresh))
        end
  | _ => ret false
  end.

(** ** The files *)

(** [freshness_ttl_from_env], in nanoseconds, given the variable. *)
Definition freshness_ttl_from_env (var : option string) : Z :=
  match var with
  | Some raw => default 0%Z ((fun ms => (ms * 1000000)%Z) <$> parse_u64 (RustText.trim raw))
  | None => 0%Z
  end.

Record FileFreshnessReport : Type := {
  outcome : FreshnessOutcome;
  ttl_hit : bool;
  changed_paths : option (list string);
  total_inventory : option N
}.

(** What the world answers during one check. *)
Record Surroundings : Type := {
  fingerprint : WorkspaceFingerprint;
  walked : res string (list InventoryEntry);
  watch : Watch;
  late_query : bool;
  late_fingerprint : bool;
  late_diff : bool;
  now_read : Z;
  now_write : Z;
  stamp_written : bool
}.

Definition changed_of (ds : list FileDiff) : list string :=
  omap (fun d => match d with Unchanged => None | _ => Some (rel_of d) end) ds.
Definition is_added (d : FileDiff) : bool := match d with Added _ => true | _ => false end.
Definition is_modified (d : FileDiff) : bool := match d with Modified _ _ => true | _ => false end.
Definition is_deleted (d : FileDiff) : bool := match d with Deleted _ => true | _ => false end.

Definition diff_reasons (ds : list FileDiff) : list string :=
  ((if existsb is_added ds then ["files added since last index"] else [])
   ++ (if existsb is_modified ds then ["files modified since last index"] else [])
   ++ (if existsb is_deleted ds then ["files deleted since last index"] else []))%list.

Definition no_files (o : FreshnessOutcome) : FileFreshnessReport :=
  {| outcome := o; ttl_hit := false; changed_paths := None; total_inventory := None |}.

Context (sha256_hex : list Z -> string) (max_size : Z) (error_text : CoreError.Error -> string).

Definition run_diff (project : string) (x : Surroundings) (inventory : list InventoryEntry)
  : action CoreError.Error Store (res CoreError.Error (list FileDiff)) := fun s =>
  let '(r, s') := compute_file_diff sha256_hex max_size project (watch x) inventory s in (Ok r, s').

(** [check_files_report_with_ttl] from the first budget check on, with the
    reasons that the workspace row has given. *)
Definition check_inventory (root project : string) (overrides : WalkOverrides) (ttl : Z) (x : Surroundings)
    (reasons : list string) : action CoreError.Error Store FileFreshnessReport :=
  if late_fingerprint x then ret (no_files (Unknown (reasons ++ ["budget exceeded"])%list))
  else match walked x with
       | Err e => ret (no_files (Unknown (reasons ++ ["discover walk failed: " +:+ e])%list))
       | Panic => panic
       | Ok inventory =>
           let total := Some (N.of_nat (length inventory)) in
           let unknown why := {| outcome := Unknown (reasons ++ [why])%list; ttl_hit := false;
                                 changed_paths := None; total_inventory := total |} in
           let! diffs := run_diff project x inventory in
           match diffs with
           | Panic => panic
           | Err e => ret (unknown ("file verification failed: " +:+ error_text e))
           | Ok ds =>
               if late_diff x then ret (unknown "budget exceeded")
               else
                 let all := (reasons ++ diff_reasons ds)%list in
                 let report o := {| outcome := o; ttl_hit := false; changed_paths := Some (changed_of ds);
                                    total_inventory := total |} in
                 match all with
                 | [] =>
                     let! path := gets stamp_path_for in
                     (if (0 <? ttl)%Z && bool_decide (is_Some path)
                      then modify (write_stamp (stamp_written x) (now_write x) root project (scope_key overrides)
                                     (N.of_nat (length inventory)))
                      else ret tt) ;;;
                     ret (report Fresh)
                 | _ => ret (report (Stale all))
                 end
           end
       end.

(** The part after a stamp was not accepted. *)
Definition check_files_now (root project : string) (overrides : WalkOverrides) (ttl : Z) (x : Surroundings)
  : action CoreError.Error Store FileFreshnessReport :=
  let! ws := gets (check_with_overrides (late_query x) (fingerprint x) overrides) in
  match ws with
  | Cold | RootMismatch | Unknown _ => ret (no_files ws)
  | Stale reasons => check_inventory root project overrides ttl x reasons
  | Fresh => check_inventory root project overrides ttl x []
  end.

Definition check_files_report_with_ttl (root project : string) (overrides : WalkOverrides) (ttl : Z) (x : Surroundings)
  : action CoreError.Error Store FileFreshnessReport :=
  let! path := gets stamp_path_for in
  let! body := gets freshstamp in
  let stamp := match path with
               | Some _ => if (0 <? ttl)%Z then read_valid_stamp body (now_read x) root project (scope_key overrides) ttl else None
               | None => None
               end in
  match stamp with
  | Some total => ret {| outcome := Fresh; ttl_hit := true; changed_paths := None; total_inventory := Some total |}
  | None => check_files_now root project overrides ttl x
  end.

Definition check_files_report_with_overrides (root project : string) (overrides : WalkOverrides) (ttl_var : option string)
    (x : Surroundings) : action CoreError.Error Store FileFreshnessReport :=
  check_files_report_with_ttl root project overrides (freshness_ttl_from_env ttl_var) x.

Definition check_files_with_overrides (root project : string) (overrides : WalkOverrides) (ttl_var : option string)
    (x : Surroundings) : action CoreError.Error Store FreshnessOutcome :=
  let! report := check_files_report_with_overrides root project overrides ttl_var x in
  ret (outcome report).
End Check.
