(* ===== verification/FreshCheckSpec.v ===== *)
(** When the freshness check answers that an index is fresh, and what that
    answer means for the files. *)

From S2P Require Import Prelude Loop CoreError RustStr EditLock GraphStore GraphDb FreshStore FreshText.
From S2P Require Import Freshness FreshWorld FreshnessSpec FreshCheck.
#[local] Open Scope Z_scope.

Section CheckSpec.
Context (canonicalize : string -> option string) (debug : option string -> string).
Context (sha256_hex : list Z -> string) (max_size : Z) (error_text : CoreError.Error -> string).

Abbreviation check_files := (check_files_report_with_ttl canonicalize debug sha256_hex max_size error_text).

(** A stamp that spares the check: its lines are the version, a time, a count,
    and the root, the project and the scope asked about, and it was written at
    most [ttl] ago and not in the future. *)
Definition stamp_vouches (s : Store) (root project : string) (overrides : WalkOverrides) (ttl now : Z) : Prop :=
  0 < ttl /\ is_Some (stamp_path_for s) /\
  exists body verified total rest time count,
    freshstamp s = Some body /\
    lines body = "v1"%string :: verified :: total :: root :: project :: scope_key overrides :: rest /\
    parse_i128 verified = Some time /\ parse_u64 total = Some count /\ time <= now <= time + ttl.

Lemma read_valid_stamp_iff body now root project scope ttl :
  is_Some (read_valid_stamp body now root project scope ttl) <->
  exists b verified total rest time count,
    body = Some b /\ lines b = "v1"%string :: verified :: total :: root :: project :: scope :: rest /\
    parse_i128 verified = Some time /\ parse_u64 total = Some count /\ time <= now <= time + ttl.
Proof using.
  unfold read_valid_stamp. split.
  - destruct body as [b|]; [|by intros []]. cbn [mbind option_bind].
    destruct (lines b) as [|v1 [|verified [|total [|r [|p [|k rest]]]]]] eqn:Hl; try by intros [].
    destruct (parse_i128 verified) as [time|] eqn:Ht; cbn [mbind option_bind]; [|by intros []].
    destruct (parse_u64 total) as [count|] eqn:Hc; cbn [mbind option_bind]; [|by intros []].
    case_decide as Heq; [|by intros []]. destruct Heq as (-> & -> & -> & ->). case_decide as Hage; [by intros []|]. intros _.
    exists b, verified, total, rest, time, count. split_and!; [done..|lia|lia].
  - intros (b & verified & total & rest & time & count & -> & Hl & Ht & Hc & Hage). cbn [mbind option_bind].
    rewrite Hl, Ht. cbn [mbind option_bind]. rewrite Hc. cbn [mbind option_bind].
    rewrite decide_True by done. rewrite decide_False by lia. by eexists.
Qed.

(** Two paths with the same components, or none of them. *)
Definition same_git_path (stored current : option string) : Prop :=
  match stored, current with
  | None, None => True
  | Some a, Some b => components a = components b
  | _, _ => False
  end.

Lemma stored_git_path_iff stored current :
  stored_git_path_matches stored current = true <-> same_git_path stored current.
Proof using. destruct stored, current; simpl; rewrite ?bool_decide_eq_true; try done. apply bool_decide_eq_true. Qed.

(** The recorded workspace agrees with the fingerprint. *)
Definition agrees (ws : WorkspaceState) (fp : WorkspaceFingerprint) (overrides : WalkOverrides) : Prop :=
  same_git_path (w_git_dir ws) (fp_git_dir fp) /\
  same_git_path (w_git_common_dir ws) (fp_git_common_dir fp) /\
  w_head_oid ws = fp_head_oid fp /\ w_index_signature ws = fp_index_signature fp /\
  w_indexer_version ws = expected_indexer_version overrides.

(** The root of a row stands for a root: they have the same components, or
    resolve to the same place, or neither of them resolves, or the row has the
    place that the root resolves to. *)
Definition same_place (a b : string) : Prop :=
  components a = components b \/
  match canonicalize a, canonicalize b with
  | Some x, Some y => components x = components y
  | None, None => True
  | _, _ => False
  end \/
  exists y, canonicalize b = Some y /\ components a = components y.

Lemma paths_match_iff a b : paths_match canonicalize a b = true <-> same_place a b.
Proof using.
  clear debug sha256_hex max_size error_text. unfold paths_match, same_place, opt_path_eqb, path_eqb. rewrite !orb_true_iff, !bool_decide_eq_true.
  destruct (canonicalize a), (canonicalize b); simpl; rewrite ?bool_decide_eq_true; naive_solver.
Qed.

Definition recorded_state (s : Store) (fp : WorkspaceFingerprint) : option WorkspaceState :=
  find_state (fun x => paths_match canonicalize (w_root_path x) (canonical_root fp)) (recent_states s).

(** The first of the most recent rows that stands for the root. *)
Definition workspace_row (s : Store) (root : string) (ws : WorkspaceState) : Prop :=
  exists newer older, recent_states s = (newer ++ ws :: older)%list /\
    same_place (w_root_path ws) root /\ Forall (fun x => ~ same_place (w_root_path x) root) newer.

Lemma recorded_state_iff s fp ws :
  recorded_state s fp = Some ws <-> workspace_row s (canonical_root fp) ws.
Proof using.
  unfold recorded_state, workspace_row. induction (recent_states s) as [|x l IH]; simpl.
  { split; [done|]. intros ([|? ?] & ? & ? & _); done. }
  destruct (paths_match canonicalize (w_root_path x) (canonical_root fp)) eqn:Hx.
  - split.
    + intros [= <-]. exists [], l. split_and!; [done|by apply paths_match_iff|constructor].
    + intros ([|y newer] & older & Heq & Hs & Hn); injection Heq as <- Heq; [done|].
      inversion Hn as [|? ? Hy _]. destruct Hy. by apply paths_match_iff.
  - rewrite IH. split.
    + intros (newer & older & Heq & Hs & Hn). exists (x :: newer), older. split_and!; [by rewrite Heq|done|].
      constructor; [|done]. rewrite <- paths_match_iff. congruence.
    + intros ([|y newer] & older & Heq & Hs & Hn); injection Heq as <- Heq.
      * apply paths_match_iff in Hs. congruence.
      * inversion Hn. exists newer, older. done.
Qed.

Lemma find_state_Some p l x : find_state p l = Some x -> x ∈ l /\ p x = true.
Proof using.
  induction l as [|y l IH]; [done|]. simpl. destruct (p y) eqn:Hy; [intros [= <-]; split; [left|done]|].
  intros [? ?]%IH. split; [by right|done].
Qed.

Lemma stale_reasons_nil ws fp overrides :
  stale_reasons debug ws fp (expected_indexer_version overrides) = [] <-> agrees ws fp overrides.
Proof using.
  unfold stale_reasons, agrees.
  rewrite <- !stored_git_path_iff.
  destruct (stored_git_path_matches (w_git_dir ws) _); [|naive_solver].
  destruct (stored_git_path_matches (w_git_common_dir ws) _); [|naive_solver].
  repeat (case_decide; [|naive_solver]). naive_solver.
Qed.

Lemma matches_agrees fp ws overrides :
  fingerprint_matches canonicalize fp ws (expected_indexer_version overrides) = true -> agrees ws fp overrides.
Proof using.
  unfold fingerprint_matches, agrees. rewrite <- !stored_git_path_iff, !andb_true_iff, !bool_decide_eq_true. naive_solver.
Qed.

(** What the first check leaves to report. *)
Lemma workspace_check late fp overrides s :
  check_with_overrides canonicalize debug late fp overrides s =
  if late then Unknown ["budget exceeded"%string]
  else match recorded_state s fp with
       | None => Cold
       | Some ws => if fingerprint_matches canonicalize fp ws (expected_indexer_version overrides) then Fresh
                    else Stale (stale_reasons debug ws fp (expected_indexer_version overrides))
       end.
Proof using.
  unfold check_with_overrides. fold (recorded_state s fp). destruct late; [done|].
  destruct (recorded_state s fp) as [ws|] eqn:Hws; [|done].
  apply find_state_Some in Hws as [_ ->]. done.
Qed.

Lemma diff_reasons_nil ds : diff_reasons ds = [] <-> Forall (fun x => x = Unchanged) ds.
Proof using.
  assert (forall p, existsb p ds = false <-> Forall (fun x => p x = false) ds) as Hex.
  { intros p. induction ds as [|x l IH]; [by split|]. simpl. rewrite orb_false_iff, Forall_cons, IH. done. }
  unfold diff_reasons. split.
  - destruct (existsb is_added ds) eqn:Ha, (existsb is_modified ds) eqn:Hm, (existsb is_deleted ds) eqn:Hd; try done.
    rewrite Hex, Forall_forall in Ha, Hm, Hd. intros _. apply Forall_forall. intros x Hx.
    specialize (Ha x Hx). specialize (Hm x Hx). specialize (Hd x Hx). by destruct x.
  - intros Hall. assert (forall p, p Unchanged = false -> existsb p ds = false) as Hno.
    { intros p Hp. apply Hex. eapply Forall_impl; [exact Hall|]. by intros x ->. }
    by rewrite !Hno.
Qed.

(** The files decide, when there are no reasons yet and nothing is late. *)
Definition files_unchanged (project : string) (x : Surroundings) (s : Store) : Prop :=
  exists inventory ds, walked x = Ok inventory /\
    (compute_file_diff sha256_hex max_size project (watch x) inventory s).1 = Ok ds /\ Forall (fun d => d = Unchanged) ds.

Lemma check_inventory_fresh root project overrides ttl x reasons s rep s' :
  check_inventory sha256_hex max_size error_text root project overrides ttl x reasons s = (Ok rep, s') ->
  outcome rep = Fresh <->
  late_fingerprint x = false /\ late_diff x = false /\ reasons = [] /\ files_unchanged project x s.
Proof using All.
  unfold check_inventory, files_unchanged.
  destruct (late_fingerprint x); [intros [= <- <-]; naive_solver|].
  destruct (walked x) as [inventory|?|]; [|intros [= <- <-]; naive_solver|done].
  unfold bind at 1, run_diff. destruct (compute_file_diff _ _ _ _ _ s) as [r s1] eqn:Hrun.
  destruct r as [ds|?|]; [|intros [= <- <-]; simpl; split; [done|]; intros (_ & _ & _ & ? & ? & [= <-] & H & _); by rewrite Hrun in H|done].
  destruct (late_diff x); [intros [= <- <-]; naive_solver|].
  destruct (reasons ++ diff_reasons ds)%list as [|why whys] eqn:Hall.
  - apply app_eq_nil in Hall as [-> Hd%diff_reasons_nil]. unfold bind at 1, gets at 1, bind at 1.
    assert (exists inventory' ds', @Ok string _ inventory = Ok inventory' /\
      (compute_file_diff sha256_hex max_size project (watch x) inventory' s).1 = Ok ds' /\ Forall (fun d => d = Unchanged) ds')
      as Hex by (exists inventory, ds; by rewrite Hrun).
    destruct (_ && _); intros [= <- <-]; simpl; tauto.
  - intros [= <- <-]. simpl. split; [done|]. intros (_ & _ & -> & inv' & ds' & [= <-] & Hds & Hun).
    rewrite Hrun in Hds. injection Hds as <-. apply diff_reasons_nil in Hun. by rewrite Hun in Hall.
Qed.

Lemma fresh_report_lemma root project overrides ttl x s rep s' :
  check_files root project overrides ttl x s = (Ok rep, s') ->
  outcome rep = Fresh <->
  stamp_vouches s root project overrides ttl (now_read x) \/
  (late_query x = false /\ late_fingerprint x = false /\ late_diff x = false /\
   (exists ws, workspace_row s (canonical_root (fingerprint x)) ws /\ agrees ws (fingerprint x) overrides) /\
   files_unchanged project x s).
Proof using All.
  intros Hrun. set (accepted := 0 < ttl /\ is_Some (stamp_path_for s) /\
    is_Some (read_valid_stamp (freshstamp s) (now_read x) root project (scope_key overrides) ttl)).
  assert (stamp_vouches s root project overrides ttl (now_read x) <-> accepted) as ->
    by (unfold accepted; by rewrite read_valid_stamp_iff).
  setoid_rewrite <- recorded_state_iff.
  destruct (decide accepted) as [Hst|Hst].
  { split; [by left|]. intros _. destruct Hst as (Httl & [p Hp] & [n Hn]). revert Hrun.
    unfold check_files_report_with_ttl, bind, gets. rewrite Hp, (proj2 (Z.ltb_lt _ _)), Hn by done. by intros [= <- <-]. }
  assert (check_files_now canonicalize debug sha256_hex max_size error_text root project overrides ttl x s = (Ok rep, s')) as Hnow.
  { revert Hrun. unfold check_files_report_with_ttl, bind at 1 2, gets at 1 2. destruct (stamp_path_for s) as [p|] eqn:Hp; [|done].
    destruct (0 <? ttl) eqn:Httl; [|done]. destruct (read_valid_stamp _ _ _ _ _ _) as [n|] eqn:Hn; [|done].
    destruct Hst. apply Z.ltb_lt in Httl. split_and!; [done|by eexists|by eexists]. }
  clear Hrun. unfold check_files_now, bind, gets in Hnow. rewrite workspace_check in Hnow.
  destruct (late_query x); [injection Hnow as <- <-; naive_solver|].
  destruct (recorded_state s (fingerprint x)) as [ws|]; [|injection Hnow as <- <-; naive_solver].
  destruct (fingerprint_matches _ _ _ _) eqn:Hfp; apply check_inventory_fresh in Hnow; rewrite Hnow.
  - apply matches_agrees in Hfp. naive_solver.
  - rewrite stale_reasons_nil. naive_solver.
Qed.
(** ** What a fresh index means *)

Section Means.
Context (q : Z) (w : World) (Hsha : forall b, solid (sha256_hex b)) (Hw : world_ok q w).
Context {Language : Type} (language_for_path : string -> Language) (is_supported : Language -> bool)
        (language_name : Language -> string)
        (extract : Language -> list Z -> string -> res CoreError.Error (list ExtractedNode))
        (uni_alnum : RustText.char -> bool).

Abbreviation history :=
  (history sha256_hex max_size q w language_for_path is_supported language_name extract uni_alnum).

(** Every file has the content it was indexed with or is kept aside, and
    everything recorded is there. *)
Definition current (project : string) (inventory : list InventoryEntry) (s : Store) (t : Z) : Prop :=
  (forall e, e ∈ inventory ->
     recorded sha256_hex w t e (row_at s project (rel_path e)) \/
     exists k, skip_at s project (rel_path e) = Some k /\ kept_aside max_size q w k (abs_path e) t) /\
  forall r, is_Some (row_at s project r) \/ is_Some (index_skips s !! (project, r)) -> r ∈ rel_path <$> inventory.

Lemma unchanged_current project s t inventory ds :
  exact_report sha256_hex max_size q w s project t inventory ds -> Forall (fun d => d = Unchanged) ds ->
  current project inventory s t.
Proof using.
  intros Hrep Hall. rewrite Forall_forall in Hall. split.
  - intros e He. destruct (report_verdict _ _ _ _ _ _ _ _ _ e Hrep He) as (y & Hy & Hv). rewrite (Hall y Hy) in Hv.
    unfold verdict_ok in Hv. destruct (skip_at s project (rel_path e)) as [k|].
    + case_bool_decide as Hm; [right; eauto|]. left. revert Hv. clear.
      case_match; [intros [?|[_ ?]]; done|]. destruct (row_at s project (rel_path e)) as [p|]; [case_decide|]; [intros _; by exists p|done..].
    + left. revert Hv. clear. case_match; [intros [?|[_ ?]]; done|].
      destruct (row_at s project (rel_path e)) as [p|]; [case_decide|]; [intros _; by exists p|done..].
  - intros r Hr. destruct Hrep as (xs & gone & _ & Hperm & _ & Hgone). apply dec_stable. intros Hno.
    assert (Deleted r ∈ ds) as Hin by (rewrite Hperm, elem_of_app; right; apply list_elem_of_fmap_2, Hgone; by split).
    by apply Hall in Hin.
Qed.

Lemma current_unchanged project s t inventory ds :
  (forall e, e ∈ inventory -> zlen (content w (abs_path e) t) <= max_size) ->
  exact_report sha256_hex max_size q w s project t inventory ds -> current project inventory s t ->
  Forall (fun d => d = Unchanged) ds.
Proof using.
  intros Hsmall (xs & gone & Hxs & Hperm & _ & Hgone) [Hfiles Hthere]. rewrite Hperm, Forall_app. split.
  - apply Forall_forall. intros y Hy. apply list_elem_of_lookup in Hy as [i Hi].
    destruct (Forall2_lookup_r _ _ _ _ _ Hxs Hi) as (e & He & Hv). apply list_elem_of_lookup_2 in He.
    unfold verdict_ok in Hv. rewrite (proj2 (Z.ltb_ge _ _)) in Hv by (by apply Hsmall).
    destruct (Hfiles e He) as [(p & Hp & Hd)|(k & Hk & Hm)].
    + unfold skip_at in Hv. rewrite Hp in Hv. by rewrite decide_True in Hv.
    + rewrite Hk in Hv. by rewrite bool_decide_eq_true_2 in Hv.
  - destruct gone as [|r gone]; [constructor|]. exfalso.
    destruct (proj1 (Hgone r)) as [Hno Hrec]; [by left|]. by apply Hno, Hthere.
Qed.

(** C27: With files at rest and none above the size limit, an index is reported
    fresh exactly when a stamp written for the same root, project and scope,
    not in the future and at most the time to live ago, vouches for it, or
    when nothing exceeded its budget, the first of the fifty most recent
    workspace rows that stands for the root agrees with the current git
    directories, head, index signature and scope, every file has the content
    it was indexed with or is kept aside, and everything recorded is there. A
    row also stands for the root when neither of the two paths resolves. *)
Theorem fresh_report_exact root project overrides ttl x inventory t0 t1 s rep s' :
  t0 <= t1 -> history t0 s -> walked x = Ok inventory -> all_quiet q w t0 t1 (watch x) inventory ->
  (forall e, e ∈ inventory -> zlen (content w (abs_path e) t1) <= max_size) ->
  check_files root project overrides ttl x s = (Ok rep, s') ->
  outcome rep = Fresh <->
  stamp_vouches s root project overrides ttl (now_read x) \/
  (late_query x = false /\ late_fingerprint x = false /\ late_diff x = false /\
   (exists ws, workspace_row s (canonical_root (fingerprint x)) ws /\ agrees ws (fingerprint x) overrides) /\
   current project inventory s t1).
Proof using All.
  intros Ht Hs Hwalk Hq Hsmall Hrun. rewrite (fresh_report_lemma root project overrides ttl x s rep s' Hrun).
  destruct (check_exact_lemma sha256_hex max_size q w Hsha Hw project (watch x) inventory t0 t1 s) as (ds & s1 & Hrun1 & _ & _ & Hrep);
    [done|by eapply history_ok|done|].
  assert (files_unchanged project x s <-> current project inventory s t1) as ->; [|done].
  unfold files_unchanged. rewrite Hwalk. split.
  - intros (? & ? & [= <-] & Hds & Hall). rewrite Hrun1 in Hds. injection Hds as <-. by apply (unchanged_current _ _ _ _ ds).
  - intros Hcur. exists inventory, ds. rewrite Hrun1. split_and!; [done..|].
    by apply (current_unchanged project s t1 inventory).
Qed.

(** C7: When a check without a stamp reports an index as fresh and the files
    were at rest while it ran, then every file of the workspace has exactly the
    content it was indexed with, or is kept aside: it was skipped and still has
    the recorded size and modification time, and, unless it was skipped for
    its size, the recorded inode and change tick, so that its content is the
    one it has had ever since that tick was over.  No recorded file is missing.
    This holds whatever was checked and updated before, while files were being
    written, on clocks of a nanosecond and of a second. *)
Theorem fresh_means_current root project overrides x inventory t0 t1 s rep s' :
  t0 <= t1 -> history t0 s -> walked x = Ok inventory -> all_quiet q w t0 t1 (watch x) inventory ->
  check_files root project overrides 0 x s = (Ok rep, s') -> outcome rep = Fresh ->
  (forall e, e ∈ inventory ->
     recorded sha256_hex w t1 e (row_at s project (rel_path e)) \/
     exists k, skip_at s project (rel_path e) = Some k /\ kept_aside max_size q w k (abs_path e) t1 /\
       (k_reason k <> "oversize"%string -> exists c, k_ctime_ns k = Some c /\
          forall a, c + q - 1 <= a <= t1 -> data w (ino_at w (abs_path e) t1) a = content w (abs_path e) t1)) /\
  forall r, is_Some (row_at s project r) \/ is_Some (index_skips s !! (project, r)) -> r ∈ rel_path <$> inventory.
Proof using All.
  intros Ht Hs Hwalk Hq Hrun Hfresh. apply (fresh_report_lemma root project overrides 0 x s rep s' Hrun) in Hfresh.
  destruct Hfresh as [[? _]|(_ & _ & _ & _ & inv' & ds' & Hwalk' & Hds & Hall)]; [lia|].
  rewrite Hwalk in Hwalk'. injection Hwalk' as <-.
  destruct (check_exact_lemma sha256_hex max_size q w Hsha Hw project (watch x) inventory t0 t1 s) as (ds & s1 & Hrun1 & _ & _ & Hrep);
    [done|by eapply history_ok|done|]. rewrite Hrun1 in Hds. injection Hds as <-.
  destruct (unchanged_current _ _ _ _ _ Hrep Hall) as [Hfiles Hthere]. split; [|done].
  intros e He. destruct (Hfiles e He) as [?|(k & Hk & Hm)]; [by left|]. right. exists k. split_and!; [done..|].
  intros Hr. pose proof Hm as (_ & _ & _ & [[? _]|(_ & _ & Hc & _)]); [done|]. eexists. split; [exact Hc|].
  intros a Ha. by apply (kept_aside_content max_size q w Hw k (abs_path e) t1 _ a Hm Hr Hc).
Qed.
End Means.

(** ** The refresh of the git fields *)

(** [refresh_fingerprint_metadata] touches one row of the workspace table at
    most, in its git fields and its time; when it answers yes the workspace
    check is satisfied. *)
Theorem refresh_exact late late' secs current overrides s b s' :
  (forall k ws, workspace_state s !! k = Some ws -> w_root_path ws = k) ->
  refresh_fingerprint_metadata canonicalize debug late late' secs current overrides s = (Ok b, s') ->
  (s' = s \/ exists ws, row_to_workspace_state <$> workspace_state s !! w_root_path ws = Some ws /\
     s' = set_workspace_state <[w_root_path ws := keep_generation
            (default ws (workspace_state s !! w_root_path ws)) (workspace_columns (refreshed current secs ws))]> s) /\
  (b = true -> check_with_overrides canonicalize debug late' current overrides s' = Fresh).
Proof using.
  intros Hkeys. unfold refresh_fingerprint_metadata, bind, gets.
  destruct (check_with_overrides _ _ late _ _ s) as [| |reasons|?|]; try (intros [= <- <-]; split; [by left|done]).
  destruct (metadata_only_reasons reasons); simpl; [|intros [= <- <-]; split; [by left|done]].
  destruct (find_state _ _) as [ws|] eqn:Hws; [|intros [= <- <-]; split; [by left|done]]. cbn. intros [= <- <-].
  split; [|by rewrite bool_decide_eq_true]. right. exists ws. apply find_state_Some in Hws as [Hin _].
  apply list_elem_of_fmap in Hin as (ws0 & -> & Hin).
  apply elem_of_sort_by, list_elem_of_fmap in Hin as ([k ws1] & -> & Hk%elem_of_map_to_list). simpl in *.
  assert (workspace_state s !! w_root_path ws1 = Some ws1) as Hlook by (by rewrite (Hkeys k ws1 Hk)).
  rewrite Hlook. split; [done|]. unfold set_workspace_state. simpl. by rewrite Hlook.
Qed.
End CheckSpec.

(** ** A fresh workspace, and one that only seems to be *)

Module Workspace.
#[local] Open Scope string_scope.
#[local] Open Scope Z_scope.

Definition none : WalkOverrides := {| includes := []; excludes := [] |}.
Definition canonicalize (p : string) : option string := if bool_decide (p = "/r") then Some "/r" else None.
Definition debug (o : option string) : string := default "None" o.
Definition error_text (e : CoreError.Error) : string := "error".
Definition state (root : string) : WorkspaceState :=
  {| w_root_path := root; w_git_dir := Some "/r/.git"; w_git_common_dir := Some "/r/.git"; w_head_oid := Some "c0ffee";
     w_index_signature := Some "sig"; w_schema_version := 1; w_indexer_version := INDEXER_VERSION_BASE;
     w_graph_generation := 3; w_updated_at := now_iso8601 7 |}.
Definition fp (root : string) : WorkspaceFingerprint :=
  {| canonical_root := root; fp_git_dir := Some "/r/.git"; fp_git_common_dir := Some "/r/.git/";
     fp_head_oid := Some "c0ffee"; fp_index_signature := Some "sig" |}.
Definition store (root : string) : Store := set_workspace_state <[root := state root]> Once.proved.
Definition around (root : string) (t : Z) : Surroundings :=
  {| fingerprint := fp root; walked := Ok [Once.entry]; watch := Once.at_time t; late_query := false;
     late_fingerprint := false; late_diff := false; now_read := t; now_write := t; stamp_written := true |}.
Definition check (root : string) (ttl : Z) (x : Surroundings) : action CoreError.Error Store FileFreshnessReport :=
  check_files_report_with_ttl canonicalize debug Once.sha MAX_FILE_SIZE_BYTES error_text root "p" none ttl x.
Definition fresh_report : FileFreshnessReport :=
  {| outcome := Fresh; ttl_hit := false; changed_paths := Some []; total_inventory := Some 1%N |}.

(** Fresh before the change, stale after it, and fresh by its stamp for as
    long as that lasts. *)
Example reports :
  let t := 30 * Once.second in
  let s' := (check "/r" (200 * Once.second) (around "/r" t) (store "/r")).2 in
  (check "/r" 0 (around "/r" t) (store "/r")).1 = Ok fresh_report /\
  (check "/r" 0 (around "/r" (120 * Once.second)) (store "/r")).1 =
    Ok {| outcome := Stale ["files modified since last index"]; ttl_hit := false; changed_paths := Some ["a.rs"];
          total_inventory := Some 1%N |} /\
  (check "/r" (200 * Once.second) (around "/r" (120 * Once.second)) s').1 =
    Ok {| outcome := Fresh; ttl_hit := true; changed_paths := None; total_inventory := Some 1%N |}.
Proof. vm_compute. done. Qed.

(** The row of a root that no longer exists matches every other root that does
    not exist, and the difference of the roots is no reason to be stale. *)
Example dangling_roots_match :
  paths_match canonicalize "/gone/a" "/gone/b" = true /\
  check_with_overrides canonicalize debug false (fp "/gone/b") none (store "/gone/a") = Stale [] /\
  (check "/gone/b" 0 (around "/gone/b" (30 * Once.second)) (store "/gone/a")).1 = Ok fresh_report.
Proof. vm_compute. done. Qed.

Lemma store_history t root : 20 * Once.second <= t -> Once.history t (store root).
Proof. intros Ht. eapply (history_later _ _ _ _ _ _ _ _ _ _ _ Once.proved); [exact Ht|by split_and!|apply Once.proved_history]. Qed.

Lemma run_fresh : exists s', check "/r" 0 (around "/r" (30 * Once.second)) (store "/r") = (Ok fresh_report, s').
Proof. eexists. vm_compute. reflexivity. Qed.
Lemma all_at_rest : all_quiet Once.second Once.world (30 * Once.second) (30 * Once.second) (Once.at_time (30 * Once.second)) [Once.entry].
Proof.
  split; [apply NoDup_singleton|]. constructor; [|constructor]. split.
  - apply Once.at_time_seen; [done|lia].
  - split; [|apply Once.at_time_answers]. split; [|by intros]. simpl. by vm_compute.
Qed.
End Workspace.

Lemma fresh_report_exact_witness :
  outcome Workspace.fresh_report = Fresh <->
  stamp_vouches (Workspace.store "/r") "/r" "p" Workspace.none 0 (30 * Once.second) \/
  (late_query (Workspace.around "/r" (30 * Once.second)) = false /\
   late_fingerprint (Workspace.around "/r" (30 * Once.second)) = false /\
   late_diff (Workspace.around "/r" (30 * Once.second)) = false /\
   (exists ws, workspace_row Workspace.canonicalize (Workspace.store "/r") "/r" ws /\
      agrees ws (Workspace.fp "/r") Workspace.none) /\
   current Once.sha MAX_FILE_SIZE_BYTES Once.second Once.world "p" [Once.entry] (Workspace.store "/r") (30 * Once.second)).
Proof.
  destruct Workspace.run_fresh as [s' Hrun].
  apply (fresh_report_exact Workspace.canonicalize Workspace.debug Once.sha MAX_FILE_SIZE_BYTES Workspace.error_text
    Once.second Once.world Once.sha_solid Once.world_good Rust.language_for_path Rust.is_supported Rust.name Rust.extract
    Rust.no_alnum "/r" "p" Workspace.none 0 (Workspace.around "/r" (30 * Once.second)) [Once.entry] (30 * Once.second)
    (30 * Once.second) (Workspace.store "/r") Workspace.fresh_report s'); [lia| |done| | |exact Hrun].
  - by apply Workspace.store_history.
  - apply Workspace.all_at_rest.
  - intros e ->%list_elem_of_singleton. vm_compute. discriminate.
Defined.

Lemma fresh_means_current_witness :
  recorded Once.sha Once.world (30 * Once.second) Once.entry (row_at (Workspace.store "/r") "p" "a.rs") /\
  forall r, is_Some (row_at (Workspace.store "/r") "p" r) \/ is_Some (index_skips (Workspace.store "/r") !! ("p"%string, r)) ->
    r ∈ rel_path <$> [Once.entry].
Proof.
  destruct Workspace.run_fresh as [s' Hrun].
  destruct (fresh_means_current Workspace.canonicalize Workspace.debug Once.sha MAX_FILE_SIZE_BYTES Workspace.error_text
    Once.second Once.world Once.sha_solid Once.world_good Rust.language_for_path Rust.is_supported Rust.name Rust.extract
    Rust.no_alnum "/r" "p" Workspace.none (Workspace.around "/r" (30 * Once.second)) [Once.entry] (30 * Once.second)
    (30 * Once.second) (Workspace.store "/r") Workspace.fresh_report s') as [Hfiles Hthere]; [lia| |done| |exact Hrun|done|].
  - by apply Workspace.store_history.
  - apply Workspace.all_at_rest.
  - split; [|exact Hthere]. destruct (Hfiles Once.entry) as [H|(k & Hk & _)]; [by left|exact H|].
    exfalso. vm_compute in Hk. discriminate Hk.
Defined.
