(* ===== verification/Discover.v ===== *)
(** Discovery of the files of a workspace (crates/discover): what the walk
    keeps, which names are generated or vendored, which files are binary, and
    where the repository root is.

    The directory walk itself is the [ignore] crate's: what it yields, and what
    [symlink_metadata] says of each file, are arguments.  Paths are those of
    Unix. *)

From Stdlib Require Import Ascii.
From S2P Require Import Prelude Loop CoreError RustStr EditLock FreshStore FreshText Freshness FreshCheck.
#[local] Open Scope string_scope.

(** ** Names *)

Fixpoint ends_with (suffix s : string) : bool :=
  bool_decide (s = suffix) || match s with String _ s => ends_with suffix s | EmptyString => false end.
Fixpoint str_contains (p s : string) : bool :=
  starts_with p s || match s with String _ s => str_contains p s | EmptyString => false end.

Definition ALWAYS_SKIP_DIRS : list string := [".git"; "target"; ".vendor"; ".greppy"].

Definition has_skipped_dir_component (rel : string) : bool :=
  existsb (fun seg => bool_decide (seg ∈ ALWAYS_SKIP_DIRS)) (split is_slash rel).

Definition DEFAULT_MAX_FILE_SIZE : Z := 2 * 1024 * 1024.

Definition GENERATED_DIRS : list string :=
  [".hg"; ".svn"; ".worktrees"; ".idea"; ".vs"; ".vscode"; ".eclipse"; ".claude"; ".cache"; ".eggs"; ".mypy_cache";
   ".nox"; ".pytest_cache"; ".ruff_cache"; ".tox"; ".venv"; "__pycache__"; "htmlcov"; "site-packages"; "venv"; ".npm";
   ".nyc_output"; ".pnpm-store"; ".yarn"; "bower_components"; "coverage"; "node_modules"; ".next"; ".nuxt";
   ".svelte-kit"; ".angular"; ".turbo"; ".parcel-cache"; ".docusaurus"; ".expo"; "dist"; "obj"; "Pods"; ".terraform";
   ".serverless"; "bazel-bin"; "bazel-out"; "bazel-testlogs"; "build"; ".cargo"; ".stack-work"; ".dart_tool";
   "zig-cache"; "zig-out"; ".metals"; ".bloop"; ".bsp"; ".ccls-cache"; ".clangd"; "elm-stuff"; "_opam"; ".cpcache";
   ".shadow-cljs"; ".vercel"; ".netlify"; ".qdrant_code_embeddings"; "vendor"; "vendored"].

Definition IGNORED_SUFFIXES : list string :=
  [".tmp"; "~"; ".swp"; ".bak"; ".orig"; ".pyc"; ".pyo"; ".o"; ".a"; ".so"; ".dll"; ".dylib"; ".class"; ".wasm";
   ".node"; ".exe"; ".rlib"; ".elc"; ".beam"; ".png"; ".jpg"; ".jpeg"; ".gif"; ".ico"; ".bmp"; ".tiff"; ".webp"; ".svg";
   ".woff"; ".woff2"; ".ttf"; ".eot"; ".otf"; ".bin"; ".dat"; ".db"; ".sqlite"; ".sqlite3"; ".parquet"; ".avro"; ".pb";
   ".zip"; ".tar"; ".gz"; ".bz2"; ".xz"; ".rar"; ".7z"; ".jar"; ".war"; ".ear"; ".min.js"; ".min.css"; ".map"; ".pem";
   ".crt"; ".key"; ".cer"; ".p12"].

Definition GENERATED_PATTERNS : list string :=
  [".d.ts"; ".bundle."; ".chunk."; ".generated."; ".pb.go"; "_pb2.py"; ".pb2.py"; "_grpc.pb.go"].

Definition is_generated_dir (name : string) : bool := bool_decide (name ∈ GENERATED_DIRS).
Definition is_ignored_file (name : string) : bool :=
  existsb (fun suf => ends_with suf (to_ascii_lowercase name)) IGNORED_SUFFIXES.
Definition matches_generated_pattern (name : string) : bool :=
  existsb (fun p => str_contains p name) GENERATED_PATTERNS.

Record SkipPolicy : Type := {
  skip_generated_dirs : bool;
  skip_ignored_suffixes : bool;
  skip_generated_patterns : bool;
  max_file_size : option Z
}.

Definition default_policy : SkipPolicy :=
  {| skip_generated_dirs := true; skip_ignored_suffixes := true; skip_generated_patterns := true;
     max_file_size := Some DEFAULT_MAX_FILE_SIZE |}.
Definition walk_default : SkipPolicy :=
  {| skip_generated_dirs := true; skip_ignored_suffixes := false; skip_generated_patterns := false; max_file_size := None |}.
Definition unrestricted : SkipPolicy :=
  {| skip_generated_dirs := false; skip_ignored_suffixes := false; skip_generated_patterns := false; max_file_size := None |}.

Definition should_skip_dir_component (p : SkipPolicy) (rel : string) : bool :=
  if negb (skip_generated_dirs p) then false else existsb is_generated_dir (split is_slash rel).

Definition should_skip_file (p : SkipPolicy) (name : string) (size : option Z) : bool :=
  if skip_ignored_suffixes p && is_ignored_file name then true
  else if skip_generated_patterns p && matches_generated_pattern name then true
  else match max_file_size p, size with
       | Some cap, Some sz => (cap <? sz)%Z
       | _, _ => false
       end.

(** [is_store_rel_path]: a component [store] followed by one of 16 hexadecimal
    digits. *)
Fixpoint store_segment (segs : list string) : bool :=
  match segs with
  | [] => false
  | s :: rest =>
      (bool_decide (s = "store")
       && match rest with
          | next :: _ => (String.length next =? 16)%nat && str_all is_ascii_hexdigit next
          | [] => false
          end)
      || store_segment rest
  end.
Definition is_store_rel_path (rel : string) : bool := store_segment (split is_slash rel).

(** ** The walk *)

Inductive FileType : Type := File | Directory | Symlink | OtherType.

(** What the walker yields, with the answer of [symlink_metadata]: whether it is
    a symlink, and the fields. *)
Record Dent : Type := {
  d_type : option FileType;
  d_path : string;
  d_stat : io (bool * StableFileMetadata)
}.

Definition component_text (c : Component) : string :=
  match c with RootDir => "/" | CurDir => "." | ParentDir => ".." | Normal n => n end.

(** [Path::strip_prefix], as text. *)
Definition strip_root (root path : string) : option string :=
  let r := components root in
  let p := components path in
  if bool_decide (take (length r) p = r) then Some (join "/" (component_text <$> drop (length r) p)) else None.

Definition base_name (path : string) : string :=
  match reverse (components path) with Normal n :: _ => n | _ => "" end.

Definition entry_for (root : string) (policy : SkipPolicy) (dent : io Dent) : option InventoryEntry :=
  match dent with
  | Ok d =>
      match d_type d with
      | Some File =>
          match strip_root root (d_path d) with
          | None => None
          | Some rel =>
              let rel := replace_char backslash "/" rel in
              if has_skipped_dir_component rel then None
              else if should_skip_dir_component policy rel then None
              else if is_store_rel_path rel then None
              else
                let stat := match d_stat d with
                            | Ok (true, _) => None
                            | Ok (false, m) => Some (Some m)
                            | _ => Some None
                            end in
                match stat with
                | None => None
                | Some m =>
                    if should_skip_file policy (base_name (d_path d)) (m_size <$> m) then None
                    else Some {| rel_path := rel; abs_path := d_path d; e_size := m_size <$> m;
                                 e_mtime_ns := m ≫= m_mtime_ns; e_ctime_ns := m ≫= m_ctime_ns;
                                 e_file_id := m ≫= m_file_id |}
                end
          end
      | _ => None
      end
  | _ => None
  end.

Definition walk_entries (root : string) (policy : SkipPolicy) (dents : list (io Dent)) : list InventoryEntry :=
  sort_by (cmp_on rel_path String.compare) (omap (entry_for root policy) dents).

(** Which entries a scoped walk descends into. *)
Fixpoint hidden_explicit (prefix : string) (comps : list string) (scopes : list string) : bool :=
  match comps with
  | [] => true
  | c :: comps =>
      let prefix := (if bool_decide (prefix = "") then "" else prefix +:+ "/") +:+ c in
      if starts_with "." c && (1 <? String.length c)%nat
         && negb (existsb (fun scope => bool_decide (scope = prefix) ||
                    match strip_prefix prefix scope with Some rest => starts_with "/" rest | None => false end) scopes)
      then false
      else hidden_explicit prefix comps scopes
  end.
Definition scoped_hidden_components_are_explicit (relative : string) (scopes : list string) : bool :=
  hidden_explicit "" (split is_slash relative) scopes.

Definition below (a b : string) : bool :=
  match strip_prefix a b with Some rest => starts_with "/" rest | None => false end.
Definition in_scope (relative : string) (scopes : list string) : bool :=
  bool_decide (relative = "")
  || existsb (fun scope => bool_decide (scope = "") || bool_decide (relative = scope) || below scope relative
                           || below relative scope) scopes.
Definition scope_admits (relative : string) (scopes : list string) : bool :=
  in_scope relative scopes && scoped_hidden_components_are_explicit relative scopes.

(** ** Metadata *)

(** What [std::fs::Metadata] holds: the modification time as a signed number of
    nanoseconds from the epoch, when the platform has one, and the parts of
    [stat]. *)
Record RawMetadata : Type := {
  r_len : Z;
  r_modified : option Z;
  r_ctime : Z;
  r_ctime_nsec : Z;
  r_ino : Z
}.

(** [i64::try_from(..)] of the distance from the epoch, saturating. *)
Definition epoch_ns (t : Z) : Z :=
  if (0 <=? t)%Z then (if in_i64 t then t else 2 ^ 63 - 1)%Z
  else (if in_i64 (- t) then t else - 2 ^ 63)%Z.

(** [system_time_ns], the same conversion of the current time. *)
Definition system_time_ns (now : Z) : Z := epoch_ns now.

Definition checked_mul_i64 (a b : Z) : option Z := if in_i64 (a * b) then Some (a * b)%Z else None.

Definition unix_identity_fields (m : RawMetadata) : option Z * option Z :=
  (value ← checked_mul_i64 (r_ctime m) 1000000000; checked_add_i64 value (r_ctime_nsec m), Some (r_ino m)).

Definition stable_metadata (m : RawMetadata) : StableFileMetadata :=
  let '(ctime_ns, file_id) := unix_identity_fields m in
  {| m_size := r_len m; m_mtime_ns := epoch_ns <$> r_modified m; m_ctime_ns := ctime_ns; m_file_id := file_id |}.

(** ** Binary files *)

Definition SNIFF_PREFIX_BYTES : nat := N.to_nat 8192.

(** [std::str::from_utf8] with [error_len]: a sequence that ends too early, or
    one that is wrong. *)
Inductive Utf8 : Type := Valid | Incomplete | Invalid.

Fixpoint follow (ps : list (Z -> bool)) (b : list Z) : Utf8 * list Z :=
  match ps with
  | [] => (Valid, b)
  | p :: ps => match b with
               | [] => (Incomplete, [])
               | y :: b => if p y then follow ps b else (Invalid, b)
               end
  end.

Definition continuation (x : Z) : bool := ((128 <=? x) && (x <=? 191))%Z.
Definition between (lo hi x : Z) : bool := ((lo <=? x) && (x <=? hi))%Z.

(** What has to follow a first byte. *)
Definition utf8_tail (x : Z) : option (list (Z -> bool)) :=
  if (x <=? 127)%Z then Some []
  else if between 194 223 x then Some [continuation]
  else if between 224 239 x then
    Some [if (x =? 224)%Z then between 160 191 else if (x =? 237)%Z then between 128 159 else continuation; continuation]
  else if between 240 244 x then
    Some [if (x =? 240)%Z then between 144 191 else if (x =? 244)%Z then between 128 143 else continuation;
          continuation; continuation]
  else None.

Fixpoint utf8_check (fuel : nat) (b : list Z) : Utf8 :=
  match fuel, b with
  | _, [] | O, _ => Valid
  | S fuel, x :: b =>
      match utf8_tail x with
      | None => Invalid
      | Some ps => match follow ps b with
                   | (Valid, b) => utf8_check fuel b
                   | (e, _) => e
                   end
      end
  end.

Definition is_binary_bytes (bytes : list Z) : bool :=
  let prefix := take SNIFF_PREFIX_BYTES bytes in
  match prefix with
  | [] => false
  | _ =>
      if bool_decide (0%Z ∈ prefix) then true
      else match utf8_check (length prefix) prefix with
           | Valid => false
           | Incomplete => negb (length prefix <? length bytes)%nat
           | Invalid => true
           end
  end.

(** [is_binary_file]: what the reads deliver, up to one byte more than the
    window; an error is no evidence. *)
Definition is_binary_file (content : io (list Z)) : bool :=
  match content with
  | Ok bytes => is_binary_bytes (take (S SNIFF_PREFIX_BYTES) bytes)
  | _ => false
  end.

(** ** The repository root *)

(** The ancestors of a path from itself upwards, as lists of components. *)
Fixpoint ancestors (rev_path : list Component) : list (list Component) :=
  match rev_path with
  | [] => []
  | c :: up => reverse (c :: up) :: ancestors up
  end.

(** [detect_repo_root]: [canonical] is the answer of [canonicalize], [absolute]
    the lexical fallback, [has_git] whether a [.git] exists below a path. *)
Definition detect_repo_root (canonical : option (list Component)) (absolute : list Component)
    (has_git : list Component -> bool) : list Component :=
  match canonical with
  | None => absolute
  | Some canon => default canon (find_map (fun p => if has_git p then Some p else None) (ancestors (reverse canon)))
  end.
