(* ===== verification/DiscoverSpec.v ===== *)
(** What discovery promises: the inventory is sorted and keeps no file below
    an excluded directory; text is not taken for binary wherever the window
    cuts it; the root is the nearest ancestor that holds a repository. *)

From Stdlib Require Import Ascii.
From S2P Require Import Prelude Loop CoreError RustStr EditLock FreshStore FreshText Freshness FreshCheck Discover.
#[local] Open Scope string_scope.

(** ** Binary files *)

Lemma follow_take ps b n :
  (follow ps b).1 = Valid ->
  (follow ps (take n b)).1 = Incomplete \/
  exists n', follow ps (take n b) = (Valid, take n' (follow ps b).2).
Proof.
  revert b n. induction ps as [|p ps IH]; intros b n; simpl; [eauto|].
  destruct b as [|y b]; [done|]. destruct n as [|n]; [by left|]. simpl. destruct (p y); [apply IH|done].
Qed.

(** A cut through valid text is incomplete at worst. *)
Lemma utf8_check_take fuel b n : utf8_check fuel b = Valid -> utf8_check fuel (take n b) <> Invalid.
Proof.
  revert b n. induction fuel as [|fuel IH]; intros b n; [by destruct (take n b)|].
  destruct b as [|x b]; [by destruct n|]. destruct n as [|n]; [done|]. simpl.
  destruct (utf8_tail x) as [ps|]; [|done]. pose proof (follow_take ps b n) as Hf.
  destruct (follow ps b) as [[] r]; [|done..]. intros Hv.
  destruct (Hf eq_refl) as [Hi|(n' & Hn')].
  - by destruct (follow ps (take n b)) as [[] ?].
  - rewrite Hn'. simpl. by apply IH.
Qed.

Lemma follow_length ps b r : follow ps b = (Valid, r) -> (length r <= length b)%nat.
Proof.
  revert b. induction ps as [|p ps IH]; intros b; simpl; [by intros [= <-]|].
  destruct b as [|y b]; [done|]. destruct (p y); [|done]. intros H%IH. simpl. lia.
Qed.

Lemma utf8_check_fuel f g b : (length b <= f)%nat -> (length b <= g)%nat -> utf8_check f b = utf8_check g b.
Proof.
  revert g b. induction f as [|f IH]; intros g b Hf Hg.
  - destruct b; [by destruct g|simpl in Hf; lia].
  - destruct b as [|x b]; [by destruct g|]. destruct g as [|g]; [simpl in Hg; lia|]. simpl.
    destruct (utf8_tail x) as [ps|]; [|done]. destruct (follow ps b) as [[] r] eqn:Hr; [|done..].
    apply follow_length in Hr. simpl in *. apply IH; lia.
Qed.

(** Only the first byte past the window matters beyond it. *)
Lemma binary_prefix b : is_binary_bytes (take (S SNIFF_PREFIX_BYTES) b) = is_binary_bytes b.
Proof.
  unfold is_binary_bytes. rewrite take_take, Nat.min_l by lia.
  destruct (take SNIFF_PREFIX_BYTES b) as [|x p] eqn:Hp; [done|]. rewrite <- Hp. clear x p Hp.
  case_bool_decide; [done|]. destruct (utf8_check _ _); [done| |done]. f_equal.
  rewrite !length_take. destruct (Nat.ltb_spec (Nat.min SNIFF_PREFIX_BYTES (length b)) (Nat.min (S SNIFF_PREFIX_BYTES) (length b)));
    destruct (Nat.ltb_spec (Nat.min SNIFF_PREFIX_BYTES (length b)) (length b)); lia || done.
Qed.

(** A file is binary exactly when the first 8192 bytes hold a NUL or a
    sequence that is not UTF-8, where a character that the window cuts counts
    only when the file ends there; so a file of UTF-8 text without NUL is text
    however long it is, and reading one byte more than the window is enough to
    tell. *)
Theorem binary_sniff_exact b :
  is_binary_file (Ok b) = is_binary_bytes b /\
  (utf8_check (length b) b = Valid -> 0%Z ∉ b -> is_binary_bytes b = false) /\
  (0%Z ∈ take SNIFF_PREFIX_BYTES b -> is_binary_bytes b = true).
Proof.
  split; [apply binary_prefix|]. split.
  - intros Hv Hno. unfold is_binary_bytes. destruct (take SNIFF_PREFIX_BYTES b) as [|x p] eqn:Hp; [done|].
    rewrite <- Hp. clear x p Hp. rewrite bool_decide_eq_false_2 by (intros (i & Hi & _)%elem_of_take; apply Hno; by eapply list_elem_of_lookup_2).
    pose proof (utf8_check_take (length b) b SNIFF_PREFIX_BYTES Hv) as Hcut.
    rewrite (utf8_check_fuel (length b) (length (take SNIFF_PREFIX_BYTES b))) in Hcut by (rewrite ?length_take; lia).
    destruct (le_lt_dec (length b) SNIFF_PREFIX_BYTES) as [Hshort|Hlong].
    + rewrite (take_ge b SNIFF_PREFIX_BYTES Hshort). by rewrite Hv.
    + destruct (utf8_check (length (take _ _)) _); [done| |done]. apply negb_false_iff, Nat.ltb_lt. rewrite length_take. lia.
  - intros Hin. unfold is_binary_bytes. destruct (take SNIFF_PREFIX_BYTES b) as [|x p] eqn:Hp; [by apply elem_of_nil in Hin|].
    by rewrite bool_decide_eq_true_2.
Qed.

(** ** Metadata *)

(** The fields stay within their columns, and tell two files apart whenever
    their times are within range: the time of change is dropped, never
    wrapped. *)
Theorem stable_metadata_bounds m :
  (forall t, m_mtime_ns (stable_metadata m) = Some t -> in_i64 t = true) /\
  (forall t, m_ctime_ns (stable_metadata m) = Some t ->
     in_i64 t = true /\ t = (r_ctime m * 1000000000 + r_ctime_nsec m)%Z) /\
  (forall t, r_modified m = Some t -> (- 2 ^ 63 < t < 2 ^ 63)%Z -> m_mtime_ns (stable_metadata m) = Some t).
Proof.
  assert (forall t, in_i64 (epoch_ns t) = true) as He.
  { intros t. unfold epoch_ns. destruct (0 <=? t)%Z eqn:Ht; [destruct (in_i64 t) eqn:Hi; [done|by vm_compute]|].
    destruct (in_i64 (- t)) eqn:Hi; [|by vm_compute]. apply Z.leb_gt in Ht. apply in_i64_spec in Hi. apply in_i64_spec. lia. }
  split_and!; simpl.
  - intros t. destruct (r_modified m); simpl; [intros [= <-]; apply He|done].
  - intros t. unfold checked_mul_i64, checked_add_i64. destruct (in_i64 (r_ctime m * 1000000000)); simpl; [|done].
    destruct (in_i64 _) eqn:Hi; [|done]. by intros [= <-].
  - intros t -> Ht. simpl. f_equal. unfold epoch_ns. destruct (0 <=? t)%Z eqn:Hs; [|apply Z.leb_gt in Hs];
      (rewrite (proj2 (in_i64_spec _)); [done|lia]).
Qed.

(** ** The walk *)

Lemma ends_with_iff suffix s : ends_with suffix s = true <-> exists stem, s = stem +:+ suffix.
Proof.
  induction s as [|c s IH]; simpl; rewrite orb_true_iff, bool_decide_eq_true.
  - split; [intros [->|?]; [by exists ""|done]|]. intros ([|? ?] & H); [by left|done].
  - rewrite IH. split.
    + intros [->|(stem & ->)]; [by exists ""|by exists (String c stem)].
    + intros ([|d stem] & H); [by left|]. right. injection H as _ ->. by exists stem.
Qed.

Lemma str_contains_iff p s : str_contains p s = true <-> exists a b, s = a +:+ p +:+ b.
Proof.
  induction s as [|c s IH]; simpl; rewrite orb_true_iff, starts_with_spec.
  - split.
    + intros [[rest H]|?]; [by exists "", rest|done].
    + intros ([|? ?] & b & H); [left; by exists b|done].
  - rewrite IH. split.
    + intros [[rest H]|(a & b & ->)]; [by exists "", rest|by exists (String c a), b].
    + intros ([|d a] & b & H); [left; by exists b|]. injection H as _ ->. right. by exists a, b.
Qed.

Section Walk.
Context (root : string) (policy : SkipPolicy) (dents : list (io Dent)).
Let inventory := walk_entries root policy dents.

(** *** What is kept, independently of the order of the tests *)

(** The path, relative to the root, as text. *)
Definition relative_to (path rel : string) : Prop :=
  exists below, components path = (components root ++ below)%list /\ rel = join "/" (component_text <$> below).

(** A component [store] directly followed by one of 16 hexadecimal digits. *)
Definition in_store (segs : list string) : Prop :=
  exists a digits b, segs = (a ++ "store" :: digits :: b)%list /\
    String.length digits = 16%nat /\ str_all is_ascii_hexdigit digits = true.

(** A file name that the policy excludes, by its ending without regard to
    case, by a part of it, or by the size of the file when that is known. *)
Definition excluded_file (name : string) (size : option Z) : Prop :=
  (skip_ignored_suffixes policy = true /\
   exists suffix stem, suffix ∈ IGNORED_SUFFIXES /\ to_ascii_lowercase name = stem +:+ suffix) \/
  (skip_generated_patterns policy = true /\
   exists pattern a b, pattern ∈ GENERATED_PATTERNS /\ name = a +:+ pattern +:+ b) \/
  (exists cap n, max_file_size policy = Some cap /\ size = Some n /\ (cap < n)%Z).

(** The entry that stands for a file: its path and the metadata of its stat,
    or none when the stat failed. *)
Record kept (d : Dent) (e : InventoryEntry) : Prop := {
  kp_file : d_type d = Some File;
  kp_abs : abs_path e = d_path d;
  kp_rel : exists rel, relative_to (d_path d) rel /\ rel_path e = replace_char backslash "/" rel;
  kp_dirs : forall seg, seg ∈ split is_slash (rel_path e) ->
    seg ∉ ALWAYS_SKIP_DIRS /\ (skip_generated_dirs policy = true -> seg ∉ GENERATED_DIRS);
  kp_store : ~ in_store (split is_slash (rel_path e));
  kp_name : ~ excluded_file (base_name (d_path d)) (e_size e);
  kp_stat : match d_stat d with
            | Ok (is_link, m) => is_link = false /\ e_size e = Some (m_size m) /\ e_mtime_ns e = m_mtime_ns m /\
                e_ctime_ns e = m_ctime_ns m /\ e_file_id e = m_file_id m
            | _ => e_size e = None /\ e_mtime_ns e = None /\ e_ctime_ns e = None /\ e_file_id e = None
            end
}.

Lemma existsb_false {A} (p : A -> bool) l : existsb p l = false <-> forall x, x ∈ l -> p x = false.
Proof.
  induction l as [|x l IH]; simpl; [split; [by intros _ y ?%elem_of_nil|done]|]. rewrite orb_false_iff, IH. split.
  - intros [Hx Hl] y [->|Hy]%elem_of_cons; auto.
  - intros H. split; [apply H; left|]. intros y Hy. apply H. by right.
Qed.

Lemma strip_root_iff path rel : strip_root root path = Some rel <-> relative_to path rel.
Proof.
  unfold strip_root, relative_to. case_bool_decide as Ht.
  - split.
    + intros [= <-]. exists (drop (length (components root)) (components path)). split; [|done].
      rewrite <- (take_drop (length (components root)) (components path)) at 1. by rewrite Ht.
    + intros (below & Hc & ->). by rewrite Hc, drop_app_length.
  - split; [done|]. intros (below & Hc & _). destruct Ht. by rewrite Hc, take_app_length.
Qed.

Lemma store_segment_iff segs : store_segment segs = true <-> in_store segs.
Proof.
  unfold in_store. induction segs as [|s segs IH]; simpl.
  { split; [done|]. by intros ([|? ?] & ? & ? & ? & _). }
  rewrite orb_true_iff, andb_true_iff, bool_decide_eq_true, IH. split.
  - intros [[-> Hn]|(a & digits & b & -> & H)].
    + destruct segs as [|next rest]; [done|]. rewrite andb_true_iff, Nat.eqb_eq in Hn. by exists [], next, rest.
    + by exists (s :: a), digits, b.
  - intros ([|x a] & digits & b & Heq & Hl & Hd); injection Heq as -> ->.
    + left. split; [done|]. by rewrite Hl, Hd.
    + right. by exists a, digits, b.
Qed.

Lemma should_skip_file_iff name size : should_skip_file policy name size = true <-> excluded_file name size.
Proof.
  unfold should_skip_file, excluded_file, is_ignored_file, matches_generated_pattern.
  assert (existsb (fun suf => ends_with suf (to_ascii_lowercase name)) IGNORED_SUFFIXES = true <->
    exists suffix stem, suffix ∈ IGNORED_SUFFIXES /\ to_ascii_lowercase name = stem +:+ suffix) as Hsuf.
  { rewrite existsb_exists. setoid_rewrite ends_with_iff. setoid_rewrite <- list_elem_of_In. naive_solver. }
  assert (existsb (fun p => str_contains p name) GENERATED_PATTERNS = true <->
    exists pattern a b, pattern ∈ GENERATED_PATTERNS /\ name = a +:+ pattern +:+ b) as Hpat.
  { rewrite existsb_exists. setoid_rewrite str_contains_iff. setoid_rewrite <- list_elem_of_In. naive_solver. }
  rewrite <- Hsuf, <- Hpat. clear Hsuf Hpat.
  generalize (existsb (fun suf => ends_with suf (to_ascii_lowercase name)) IGNORED_SUFFIXES) as b1.
  generalize (existsb (fun p => str_contains p name) GENERATED_PATTERNS) as b2. intros b2 b1. clear.
  assert (match max_file_size policy, size with Some cap, Some sz => (cap <? sz)%Z | _, _ => false end = true <->
    exists cap n, max_file_size policy = Some cap /\ size = Some n /\ (cap < n)%Z) as <-.
  { destruct (max_file_size policy) as [cap|], size as [n|]; rewrite ?Z.ltb_lt; naive_solver. }
  destruct (skip_ignored_suffixes policy), b1, (skip_generated_patterns policy), b2; simpl; tauto || (intuition congruence).
Qed.

Lemma dirs_iff rel :
  has_skipped_dir_component rel = false /\ should_skip_dir_component policy rel = false <->
  forall seg, seg ∈ split is_slash rel ->
    seg ∉ ALWAYS_SKIP_DIRS /\ (skip_generated_dirs policy = true -> seg ∉ GENERATED_DIRS).
Proof.
  unfold has_skipped_dir_component, should_skip_dir_component, is_generated_dir.
  generalize ALWAYS_SKIP_DIRS as l1, GENERATED_DIRS as l2. intros l2 l1.
  rewrite existsb_false. setoid_rewrite bool_decide_eq_false. destruct (skip_generated_dirs policy); simpl.
  - rewrite existsb_false. setoid_rewrite bool_decide_eq_false. split.
    + intros [H1 H2] seg Hs. split; auto.
    + intros H. split; intros seg Hs; by apply H.
  - split; [intros [H1 _] seg Hs; split; [auto|done]|]. intros H. split; [|done]. intros seg Hs. by apply H.
Qed.

Lemma entry_for_kept dent e :
  entry_for root policy dent = Some e <-> exists d, dent = Ok d /\ kept d e.
Proof.
  split.
  - unfold entry_for. destruct dent as [d|?|]; [|done..]. destruct (d_type d) as [[]|] eqn:Hty; try done.
    destruct (strip_root root (d_path d)) as [rel|] eqn:Hrel; [|done]. apply strip_root_iff in Hrel.
    destruct (has_skipped_dir_component _) eqn:H1; [done|]. destruct (should_skip_dir_component _ _) eqn:H2; [done|].
    destruct (is_store_rel_path _) eqn:H3; [done|]. unfold is_store_rel_path in H3.
    assert (forall size, should_skip_file policy (base_name (d_path d)) size = false ->
      ~ excluded_file (base_name (d_path d)) size) as Hname
      by (intros size Hs; rewrite <- should_skip_file_iff; congruence).
    destruct (d_stat d) as [[[] m]|?|] eqn:Hst; [done|..]; (destruct (should_skip_file _ _ _) eqn:H4; [done|]); intros [= <-];
      exists d; (split; [done|]); split; simpl; rewrite ?Hst; try done;
      try (by apply dirs_iff); try (by eexists); try (rewrite <- store_segment_iff; congruence); by apply Hname.
  - intros (d & -> & [Hty Habs (rel & Hrel & Er) Hdirs Hstore Hname Hstat]). unfold entry_for.
    apply strip_root_iff in Hrel. rewrite Hty, Hrel. apply dirs_iff in Hdirs as [H1 H2].
    rewrite <- Er, H1, H2. unfold is_store_rel_path.
    rewrite <- store_segment_iff, not_true_iff_false in Hstore. rewrite Hstore.
    rewrite <- should_skip_file_iff, not_true_iff_false in Hname. destruct e as [r a sz mt ct fi]. simpl in *.
    destruct (d_stat d) as [[link m]|?|]; [destruct Hstat as (-> & -> & -> & -> & ->)|destruct Hstat as (-> & -> & -> & ->)..];
      simpl; rewrite Hname; by rewrite Habs.
Qed.

Lemma walk_elem e : e ∈ inventory <-> exists d, d ∈ dents /\ entry_for root policy d = Some e.
Proof. unfold inventory, walk_entries. by rewrite elem_of_sort_by, list_elem_of_omap. Qed.

Lemma walk_sorted : StronglySorted (fun a b => String.compare (rel_path a) (rel_path b) <> Gt) inventory.
Proof. apply (sort_by_sorted (cmp_on rel_path String.compare)). Qed.

(** ** Distinct paths

    The walker yields a file as names below the root. *)
Definition tidy (d : Dent) (names : list string) : Prop :=
  components (d_path d) = (components root ++ (Normal <$> names))%list /\ names <> [] /\
  Forall (fun n => str_any is_slash n = false /\ str_any (fun c => Ascii.eqb c backslash) n = false) names.

Lemma replace_char_none c r t : str_any (fun d => Ascii.eqb d c) t = false -> replace_char c r t = t.
Proof. induction t as [|d t IH]; [done|]. simpl. intros [-> Ht]%orb_false_iff. simpl. by rewrite IH. Qed.

Lemma join_any P names :
  P slash = false -> Forall (fun n => str_any P n = false) names -> str_any P (join "/" names) = false.
Proof.
  intros HP. induction 1 as [|n names Hn Hnames IH]; [done|]. destruct names as [|n' names]; [done|].
  change (join "/" (n :: n' :: names)) with (n +:+ String slash (join "/" (n' :: names))).
  rewrite str_any_app, Hn. cbn [str_any orb]. by rewrite HP, IH.
Qed.

Lemma tidy_rel d names e : tidy d names -> entry_for root policy (Ok d) = Some e -> split is_slash (rel_path e) = names.
Proof.
  intros (Hc & Hne & Hall) (d' & [= <-] & [_ _ (rel & (below & Hb & ->) & ->) _ _ _ _])%entry_for_kept.
  rewrite Hc in Hb. apply app_inv_head in Hb as <-. rewrite <- list_fmap_compose.
  assert (component_text ∘ Normal <$> names = names) as ->
    by (rewrite <- (list_fmap_id names) at 2; by apply list_fmap_ext).
  rewrite replace_char_none.
  - apply split_join; [done|]. eapply Forall_impl; [exact Hall|]. by intros n [].
  - apply join_any; [done|]. eapply Forall_impl; [exact Hall|]. by intros n [].
Qed.

End Walk.

(** A name with a backslash is taken for a path. *)
Example backslash_collides :
  let file p := Ok {| d_type := Some File; d_path := p; d_stat := Err "gone" |} in
  rel_path <$> walk_entries "/r" walk_default [file "/r/a/b"; file "/r/a\b"] = ["a/b"; "a/b"].
Proof. vm_compute. reflexivity. Qed.

(** ** The repository root *)

Lemma find_map_first {A} (p : A -> bool) l x :
  find_map (fun a => if p a then Some a else None) l = Some x <->
  exists l1 l2, l = (l1 ++ x :: l2)%list /\ p x = true /\ Forall (fun a => p a = false) l1.
Proof.
  induction l as [|a l IH]; simpl.
  - split; [done|]. by intros ([|] & ? & ? & _).
  - destruct (p a) eqn:Ha.
    + split; [intros [= ->]; exists [], l; auto|]. intros ([|b l1] & l2 & [= -> ->] & Hx & Hl1); [done|].
      apply Forall_cons in Hl1 as [? _]. congruence.
    + rewrite IH. split.
      * intros (l1 & l2 & -> & Hx & Hl1). exists (a :: l1), l2. auto.
      * intros ([|b l1] & l2 & [= -> ->] & Hx & Hl1); [congruence|]. apply Forall_cons in Hl1 as [_ ?]. eauto.
Qed.

(** The answer is the nearest ancestor of the canonical path that holds a
    [.git], or the path itself when there is none. *)
Theorem repo_root_nearest canon absolute has_git :
  let r := detect_repo_root (Some canon) absolute has_git in
  (exists l1 l2, ancestors (reverse canon) = (l1 ++ r :: l2)%list /\ has_git r = true /\ Forall (fun a => has_git a = false) l1) \/
  (r = canon /\ Forall (fun a => has_git a = false) (ancestors (reverse canon))).
Proof.
  simpl. destruct (find_map _ _) as [r|] eqn:Hr; simpl; [left; by apply find_map_first|right]. split; [done|].
  induction (ancestors (reverse canon)) as [|a l IH]; [done|]. simpl in Hr. destruct (has_git a) eqn:Ha; [done|].
  constructor; [done|]. by apply IH.
Qed.

(** Two bytes of a character that is cut by the window. *)
Lemma binary_sniff_exact_witness :
  is_binary_bytes (repeat 97%Z (N.to_nat 8191) ++ [195; 169; 97]%Z) = false.
Proof. apply (binary_sniff_exact (repeat 97%Z (N.to_nat 8191) ++ [195; 169; 97]%Z)); [vm_compute; reflexivity|].
  apply (bool_decide_unpack _). vm_compute. exact I.
Defined.

Module Tree.
Definition file (p : string) : Dent := {| d_type := Some File; d_path := p; d_stat := Err "gone" |}.
Definition dents : list (io Dent) := [Ok (file "/r/src/b.rs"); Ok (file "/r/target/x"); Ok (file "/r/a.rs")].
Definition paths : list (list string) := [["src"; "b.rs"]; ["target"; "x"]; ["a.rs"]].
Example walked : rel_path <$> walk_entries "/r" walk_default dents = ["a.rs"; "src/b.rs"].
Proof. vm_compute. reflexivity. Qed.

Lemma all_tidy : Forall2 (fun d names => forall x, d = Ok x -> tidy "/r" x names) dents paths.
Proof.
  assert (forall p names, components p = (components "/r" ++ (Normal <$> names))%list -> names <> [] ->
    forallb (fun n => negb (str_any is_slash n) && negb (str_any (fun c => Ascii.eqb c backslash) n)) names = true ->
    forall x, Ok (file p) = Ok (E := string) x -> tidy "/r" x names) as H.
  { intros p names Hc Hne Hall x [= <-]. split; [done|]. split; [done|]. apply Forall_forall. intros n Hn%list_elem_of_In.
    rewrite forallb_forall in Hall. specialize (Hall n Hn). by rewrite andb_true_iff, !negb_true_iff in Hall. }
  repeat (apply Forall2_cons; split; [by apply H; vm_compute|]). constructor.
Qed.
End Tree.

